(* ===== verification/_CoqProject ===== *)
-Q . S2P
Prelude.v
UserHandles.v
Region.v
Unicode.v
Atom.v
Sync.v
Handles.v
Registry.v
RegistryTree.v
Token.v
Fd.v
Namespace.v
Windows.v
Timeouts.v
Polling.v
Ranges.v
Mapping.v
