(* ===== verification/Prelude.v ===== *)
(** * The Wine server: a verification development

    The subject is wineserver, the single-threaded server of the Wine layer in
    [src/src/wine/server/] (file names below are relative to it; constants come
    from the headers of [src/third_party/wine/include/]). Clients send requests;
    the server runs one handler at a time to its end. A handler is therefore a
    function of the server's state, and two requests never interleave. What can
    be ordered in many ways is the sequence of requests and of timeouts, and the
    theorems quantify over it.

    ** How the code is modelled

    - A handler or routine is a computation of the monad [M S] of this file, where
      [S] is the state of the component and [world] holds what all share: the error
      register of the current thread and the outcomes of the coming allocations.
      Theorems quantify over these outcomes, so over every way to run out of memory.
    - [None] is a failed assertion, a NULL or dangling pointer, or an access outside
      an array: [wp m s w Q] says that none of these happens, that [m] ends, and that
      [Q] holds of the result. It is total correctness.
    - C integers are [Z] with explicit truncation where their type wraps ([u16],
      [u32], [u64], [s32]). Strings of WCHAR are lists of 16-bit units, data and
      text are lists of bytes.
    - A pointer to an object is its address, a key of the [gmap] that stores the
      objects of its kind; an address that is absent from the map is not allocated.
    - Loops over lists are structural. A [while] loop or a recursion through pointers
      takes fuel, computed from the size of the state or the length of the text, and
      running out of it is [None], so that every theorem that uses [wp], or that gives
      [Some] result, also proves that the fuel is enough and the loop ends.
    - What a client can do that breaks the invariant of a component, or crashes the server,
      is not in the sequences of requests that the theorems quantify over: a predicate
      ([allowed], [request_allowed]) leaves it out, the doc comment of the theorem names
      it, and where it can be computed a theorem shows the damage.

    ** Files

    - [Prelude]: integers, status codes, the monad and its rules, lists and maps;
      [preserves], for the parts of a state that a computation leaves alone.
    - [UserHandles] (user.c): the shared table of USER objects, its free list and
      generations. [alloc_user_entry], [free_user_entry] and the rest keep their
      names, as do the operations of the other files; [req_x] is [DECL_HANDLER(x)].
      A handle resolves to the object it was given for until that is freed, and not
      after its entry is reused for the next one; sequences of requests with at most as
      many allocations as the table has entries stay in the table, but for the entries
      that clients allocate with type 0, which are lost; a full table is accessed out of
      bounds.
    - [Unicode] (unicode.c): case folding, comparison, hashing, and the escaped text
      form of strings. What [dump_strW] prints, [parse_strW] reads back.
    - [Atom] (atom.c), on [Unicode]: hash buckets of doubly linked entries, indexed by
      atom. The operations refine a finite map from atoms to names with counts, and
      reach no bad pointer on a well-formed table.
    - [Region] (region.c): sets of points as banded lists of rectangles. The four set
      operations give well-formed regions with exactly the right points; queries with
      early exits agree with their definition; the wire format round-trips; mirroring
      and negative scaling are wrong, and the theorems say how.
    - [Sync] (thread.c, event.c, semaphore.c, mutex.c): wait stacks and wait queues.
      The clock moves between requests and waits expire. No wake-up is lost, as long as
      expired waits are ended before the next request of a client is served; a theorem
      shows how an expired wait otherwise takes the wake-up of another thread.
    - [Handles] (handle.c, object.c): handle tables, reference counts and handle
      counts. Opening, closing and duplicating on every branch, access checks
      included. No sequence of requests on local handles makes a handle dangle or a count
      wrong, where the objects are plain: their [close_handle] leaves handles and
      references alone, unlike that of jobs, keys and device files. Theorems show two ways
      to crash the server with a global handle, and an assertion that fails when an access
      check grants reserved bits.
    - [Registry] (registry.c), on [Unicode]: keys with sorted arrays of values and
      subkeys. The binary search is a linear search; values act as a finite map from
      folded names; changes mark the ancestors dirty and set the waiting events.
    - [RegistryTree] (registry.c), on [Registry]: creating, deleting and renaming keys,
      with symbolic links, classes and volatile keys. Deletion ends on every tree and
      removes exactly the key and what is below it; renaming is a move in the map of
      names; sequences of requests keep the tree well formed, except renames to a name that
      sorts just after the old one, which write outside the array, and keys created
      through an absolute path, which may not be saved.
    - [Token] (token.c, security.h): tokens, security descriptors as bytes, and access
      checks. The loop over the access control list implements the order of precedence
      of its entries; copies, restrictions and adjustments of tokens, with what each
      changes and keeps; two theorems show a denial that no longer counts and sizes that
      are not checked.
    - [Fd] (fd.c): open files. Sharing modes hold between all opens of a file;
      byte-range locks exclude each other and are held from the system, byte by byte,
      whatever [fcntl] answers and whichever descriptors are closed; one theorem shows a
      Unix lock that is left behind.
    - [Namespace] (object.c, directory.c, symlink.c): named objects. Names sit in hash
      buckets of directories and hold references; a lookup follows symbolic links, at most
      33 deep, and gives what the specification [resolves] says; requests keep every count
      exact; the full name of an object leads back to it. Left out are lookups with
      [OBJ_OPENLINK] through a link, one of which never ends, permanent directories and
      links for which memory runs out, and making the root directory temporary.
    - [Windows] (window.c), on [UserHandles] through the class [WindowHandles]: the tree of
      windows of a desktop. Requests keep parents, lists of children, handles, counts and
      the z-order consistent, and linking puts a window where it is asked to, when what is
      asked about siblings is about linked windows and the creation of a child does not
      fail half-way: theorems show that the others crash the server. Destruction takes
      exactly the linked windows of the thread below.
    - [Timeouts] (fd.c): the two sorted lists of timeouts. Functions that are called may
      add and remove timeouts; none is called twice, early or after its removal, none that
      has expired is left out, and the time to sleep is exact.
    - [Polling] (fd.c): the arrays that are polled, with a free list of pointers into an
      array that moves, over an interface of the kernel's epoll (the class [Epoll], whose
      laws are the documented ones). In one turn of the main loop every event goes to
      the object for which it was reported, unless that is closed or stopped before.
    - [Ranges], [Mapping] (mapping.c): sections. [Ranges] has the loops over sorted arrays of
      address ranges, as operations on sets of addresses; [Mapping] the mappings, views,
      committed pages and assigned addresses, with their reference counts. Requests keep
      counts exact and views apart; committed pages are seen through all views; addresses
      of images come back. Left out is a permanent mapping whose creation fails, which stays
      without a file and crashes the server.

    Components meet through the routines they call: [Atom] and [Registry] are proved
    against the lemmas of [Unicode] on folded names, which is all that they know of
    it; [RegistryTree] extends the state of [Registry] and uses its search, arrays and
    notifications. [Windows] is proved against an interface, the laws of a table of handles,
    which [UserHandles] fulfils. The store of objects and the reference counts of [Handles] stand below
    the other components, which know an object only by its address. A file whose theorem
    is about sequences of requests has an inductive [reachable], or runs a list of
    requests, and an invariant that each operation keeps.

    ** Not modelled

    I/O: the request loop, pipes, sockets, ptrace and signals. What the system answers to
    [fcntl], [open] and [fstat] is an argument of the model, or a list that theorems
    quantify over. Memory itself: an allocation is its success or failure, and a freed
    object is an absent address. Debug output. In [Sync], keyed events, APC queues and
    thread creation. In [Registry] and [RegistryTree], the walk along a path through the
    object namespace, and the text files with their periodic saving. In [Token], label
    lists, the built-in administrator token and the parsing of [create_token] requests.
    In [Fd], asynchronous I/O, renaming and unmounting. In [Timeouts],
    the times in the memory shared with clients. In [Polling], kqueue and event ports. In [Namespace],
    the objects made at start-up, the enumeration of directories, and the lookup functions
    of devices, keys and mailslots. In [Windows], painting, rectangles, properties, classes
    and hooks. In [Mapping], the headers of images, the contents of files and the memory of
    sessions. The other files of the server (messages, completion ports and so on) and the
    client libraries. *)

From stdpp Require Export base tactics option list list_numbers gmap sets strings.
From stdpp Require Import sorting.
From Stdlib Require Export ZArith Lia.

#[global] Open Scope Z_scope.

(** Arithmetic on symbolic integers is left alone by [simpl]. *)
#[global] Arguments Z.shiftr : simpl never.
#[global] Arguments Z.shiftl : simpl never.
#[global] Arguments Z.land : simpl never.
#[global] Arguments Z.lor : simpl never.
#[global] Arguments Z.lxor : simpl never.
#[global] Arguments Z.lnot : simpl never.
#[global] Arguments Z.ldiff : simpl never.
#[global] Arguments Z.modulo : simpl never.
#[global] Arguments Z.div : simpl never.
#[global] Arguments Z.mul : simpl never.
#[global] Arguments Z.pow : simpl never.
#[global] Arguments Z.to_nat : simpl never.
#[global] Arguments Z.of_nat : simpl never.

(** ** Machine integers

    C integers are [Z]; every operation whose C type wraps is followed by the
    truncation to its width. *)

Definition u16 (z : Z) : Z := z mod 65536.
Definition u32 (z : Z) : Z := z mod 4294967296.
Definition u64 (z : Z) : Z := z mod 18446744073709551616.

(** Conversion of a 32-bit pattern to [int] (two's complement). *)
Definition s32 (z : Z) : Z :=
  let u := u32 z in if u <? 2147483648 then u else u - 4294967296.

#[global] Arguments u16 : simpl never.
#[global] Arguments u32 : simpl never.
#[global] Arguments u64 : simpl never.
#[global] Arguments s32 : simpl never.

Definition INT_MAX : Z := 2147483647.

Lemma u16_range z : 0 ≤ u16 z < 65536.
Proof. apply Z.mod_pos_bound. lia. Qed.

Lemma u32_range z : 0 ≤ u32 z < 4294967296.
Proof. apply Z.mod_pos_bound. lia. Qed.

Lemma u16_small z : 0 ≤ z < 65536 → u16 z = z.
Proof. apply Z.mod_small. Qed.

Lemma u32_small z : 0 ≤ z < 4294967296 → u32 z = z.
Proof. apply Z.mod_small. Qed.

Lemma u32_idemp z : u32 (u32 z) = u32 z.
Proof. apply u32_small, u32_range. Qed.

Lemma s32_small z : - 2147483648 ≤ z < 2147483648 → s32 z = z.
Proof.
  intros. unfold s32, u32.
  destruct (Z.ltb_spec (z mod 4294967296) 2147483648); Z.div_mod_to_equations; lia.
Qed.

(** C truth of an integer, and the test [x & mask]. *)
Definition truth (z : Z) : bool := negb (z =? 0).
Definition has (x mask : Z) : bool := negb (Z.land x mask =? 0).

(** Equalities of bit operations, bit by bit. *)
Ltac z_bits :=
  apply Z.bits_inj'; intros ? ?; rewrite ?Z.ldiff_spec, ?Z.lor_spec, ?Z.land_spec, ?Z.ldiff_spec, ?Z.lor_spec,
    ?Z.land_spec, ?Z.bits_0;
  repeat match goal with |- context [Z.testbit ?a ?n] => destruct (Z.testbit a n) end; done.

(** The bytes of a C string literal. *)
Definition bytes_of (s : string) : list Z :=
  map (λ a, Z.of_nat (Ascii.nat_of_ascii a)) (String.list_ascii_of_string s).

(** ** NTSTATUS codes set by the modelled code *)

Definition STATUS_SUCCESS : Z := 0.
Definition STATUS_ABANDONED_WAIT_0 : Z := 0x80.
Definition STATUS_USER_APC : Z := 0xC0.
Definition STATUS_KERNEL_APC : Z := 0x100.
Definition STATUS_TIMEOUT : Z := 0x102.
Definition STATUS_PENDING : Z := 0x103.
Definition STATUS_OBJECT_NAME_EXISTS : Z := 0x40000000.
Definition STATUS_BUFFER_OVERFLOW : Z := 0x80000005.
Definition STATUS_NO_MORE_ENTRIES : Z := 0x8000001A.
Definition STATUS_INVALID_HANDLE : Z := 0xC0000008.
Definition STATUS_INVALID_PARAMETER : Z := 0xC000000D.
Definition STATUS_NO_MEMORY : Z := 0xC0000017.
Definition STATUS_ACCESS_DENIED : Z := 0xC0000022.
Definition STATUS_BUFFER_TOO_SMALL : Z := 0xC0000023.
Definition STATUS_OBJECT_TYPE_MISMATCH : Z := 0xC0000024.
Definition STATUS_OBJECT_NAME_INVALID : Z := 0xC0000033.
Definition STATUS_OBJECT_NAME_NOT_FOUND : Z := 0xC0000034.
Definition STATUS_OBJECT_NAME_COLLISION : Z := 0xC0000035.
Definition STATUS_MUTANT_NOT_OWNED : Z := 0xC0000046.
Definition STATUS_SEMAPHORE_LIMIT_EXCEEDED : Z := 0xC0000047.
Definition STATUS_FILE_LOCK_CONFLICT : Z := 0xC0000054.
Definition STATUS_LOCK_NOT_GRANTED : Z := 0xC0000055.
Definition STATUS_RANGE_NOT_LOCKED : Z := 0xC000007E.
Definition STATUS_INSUFFICIENT_RESOURCES : Z := 0xC000009A.
Definition STATUS_PROCESS_IS_TERMINATING : Z := 0xC000010A.
Definition STATUS_NOT_SAME_OBJECT : Z := 0xC00001AC.
Definition STATUS_HANDLE_NOT_CLOSABLE : Z := 0xC0000235.

(** ** The server monad

    The server is single-threaded: a request handler is a function of the
    component's state [S] and of the [world] that every component shares. The
    world holds the error register of the current thread ([set_error] and
    [get_error] of thread.h) and the outcomes of the coming calls of the
    allocator: [malloc] consumes one, and succeeds once they are used up, so
    a theorem over every [w_mem] covers every pattern of allocation failures.

    A computation returns [None] when the C code fails an [assert], reads or
    writes outside an array, or dereferences NULL. *)

Record world := World { w_error : Z; w_mem : list bool }.

Definition M (S A : Type) : Type := S → world → option (A * S * world).

Section Monad.
Context {S : Type}.
Implicit Types (s : S) (w : world).

Definition ret {A} (a : A) : M S A := λ s w, Some (a, s, w).
Definition bind {A B} (m : M S A) (f : A → M S B) : M S B :=
  λ s w, match m s w with
         | Some (a, s', w') => f a s' w'
         | None => None
         end.
Definition crash {A} : M S A := λ _ _, None.
Definition get : M S S := λ s w, Some (s, s, w).
Definition put (s : S) : M S unit := λ _ w, Some (tt, s, w).
Definition modify (f : S → S) : M S unit := λ s w, Some (tt, f s, w).
Definition set_error (e : Z) : M S unit := λ s w, Some (tt, s, World e (w_mem w)).
Definition get_error : M S Z := λ s w, Some (w_error w, s, w).
Definition clear_error : M S unit := set_error 0.
(** [assert( b )] of the server, which is built with assertions. *)
Definition c_assert (b : bool) : M S unit := if b then ret tt else crash.
(** [malloc] and [realloc]: does the call succeed? *)
Definition malloc : M S bool := λ s w,
  match w_mem w with
  | [] => Some (true, s, w)
  | b :: l => Some (b, s, World (w_error w) l)
  end.
(** [mem_alloc] of object.c: sets the error when the allocation fails. *)
Definition mem_alloc : M S bool :=
  bind malloc (λ ok, if ok then ret true else bind (set_error STATUS_NO_MEMORY) (λ _, ret false)).

(** Total correctness: [m] does not crash and its result satisfies [Q]. *)
Definition wp {A} (m : M S A) s w (Q : A → S → world → Prop) : Prop :=
  match m s w with
  | Some (a, s', w') => Q a s' w'
  | None => False
  end.

Lemma wp_ret {A} (a : A) s w Q : wp (ret a) s w Q ↔ Q a s w.
Proof. done. Qed.

Lemma wp_bind {A B} (m : M S A) (f : A → M S B) s w Q :
  wp (bind m f) s w Q ↔ wp m s w (λ a s' w', wp (f a) s' w' Q).
Proof. unfold wp, bind. by destruct (m s w) as [[[]]|]. Qed.

Lemma wp_get s w Q : wp get s w Q ↔ Q s s w.
Proof. done. Qed.

Lemma wp_put s s' w Q : wp (put s') s w Q ↔ Q tt s' w.
Proof. done. Qed.

Lemma wp_modify f s w Q : wp (modify f) s w Q ↔ Q tt (f s) w.
Proof. done. Qed.

Lemma wp_set_error e s w Q : wp (set_error e) s w Q ↔ Q tt s (World e (w_mem w)).
Proof. done. Qed.

Lemma wp_get_error s w Q : wp get_error s w Q ↔ Q (w_error w) s w.
Proof. done. Qed.

Lemma wp_assert b s w Q : wp (c_assert b) s w Q ↔ b = true ∧ Q tt s w.
Proof. destruct b; unfold wp; simpl; naive_solver. Qed.

Lemma wp_mono {A} (m : M S A) s w (Q R : A → S → world → Prop) :
  wp m s w Q → (∀ a s' w', Q a s' w' → R a s' w') → wp m s w R.
Proof. unfold wp. destruct (m s w) as [[[]]|]; eauto. Qed.

Lemma wp_run {A} (m : M S A) s w a s' w' :
  m s w = Some (a, s', w') → ∀ Q, wp m s w Q ↔ Q a s' w'.
Proof. intros H Q. unfold wp. by rewrite H. Qed.

Lemma bind_run {A B} (m : M S A) (f : A → M S B) s w a s' w' : m s w = Some (a, s', w') → bind m f s w = f a s' w'.
Proof. unfold bind. by intros ->. Qed.

Lemma wp_elim {A} (m : M S A) s w Q :
  wp m s w Q → ∃ a s' w', m s w = Some (a, s', w') ∧ Q a s' w'.
Proof. unfold wp. destruct (m s w) as [[[a s'] w']|]; [eauto|done]. Qed.

Lemma wp_exact {A} (m : M S A) s w a s' w' :
  wp m s w (λ b t v, b = a ∧ t = s' ∧ v = w') → m s w = Some (a, s', w').
Proof. unfold wp. destruct (m s w) as [[[b t] v]|]; naive_solver. Qed.

Lemma malloc_cases s w :
  ∃ ok w', malloc s w = Some (ok, s, w') ∧ w_error w' = w_error w ∧ (w_mem w = [] → ok = true ∧ w' = w).
Proof. unfold malloc. destruct (w_mem w) eqn:?; naive_solver. Qed.

Lemma wp_malloc s w (Q : bool → S → world → Prop) :
  (∀ ok w', w_error w' = w_error w → (w_mem w = [] → ok = true ∧ w' = w) → Q ok s w') → wp malloc s w Q.
Proof.
  intros H. destruct (malloc_cases s w) as (ok & w' & E & ? & ?).
  rewrite (wp_run _ _ _ _ _ _ E). auto.
Qed.

Lemma wp_mem_alloc s w (Q : bool → S → world → Prop) :
  (∀ w', w_error w' = w_error w → (w_mem w = [] → w' = w) → Q true s w') →
  (∀ w', w_error w' = STATUS_NO_MEMORY → w_mem w ≠ [] → Q false s w') →
  wp mem_alloc s w Q.
Proof.
  intros Ht Hf. unfold mem_alloc. rewrite wp_bind. apply wp_malloc.
  intros [] w' He Hm; [apply Ht; naive_solver|].
  rewrite wp_bind, wp_set_error. apply Hf; [done|]. naive_solver.
Qed.
End Monad.

Declare Scope wine_scope.
Delimit Scope wine_scope with wine.
Notation "'let*' x := m 'in' k" := (bind m (λ x, k))
  (at level 10, x binder, m at level 100, k at level 200) : wine_scope.
Notation "m '>>' k" := (bind m (λ _, k))
  (at level 100, k at level 200, right associativity) : wine_scope.
#[global] Open Scope wine_scope.

#[global] Arguments ret : simpl never.
#[global] Arguments bind : simpl never.
#[global] Arguments wp : simpl never.

(** The structural rules of [wp] as a rewrite database, and the tactic that
    runs a computation symbolically up to the next branch. *)
Create Rewrite HintDb wp.
#[export] Hint Rewrite @wp_ret @wp_bind @wp_get @wp_put @wp_modify @wp_set_error
  @wp_get_error @wp_assert : wp.
Ltac wp_run := repeat (cbn; progress autorewrite with wp); cbn.

(** A statement whose only effect is on the error register. *)
Definition when {S} (b : bool) (m : M S unit) : M S unit := if b then m else ret tt.

(** Following a pointer into a part of the state; it is a fault if the object is gone. *)
Definition fetch {S A} (f : S → gmap Z A) (i : Z) : M S A := let* s := get in match f s !! i with Some x => ret x | None => crash end.

Lemma wp_fetch {S A} (g : S → gmap Z A) i (s : S) w x (Q : A → S → world → Prop) : g s !! i = Some x → Q x s w → wp (fetch g i) s w Q.
Proof. intros Hi HQ. unfold fetch. rewrite wp_bind, wp_get, Hi. by apply wp_ret. Qed.

(** ** What every run preserves

    Partial correctness without a postcondition: whatever [m] returns, it takes states
    with [P] to states with [P]. The tactic goes through a program by its structure. *)
Section Preserves.
Context {S : Type} (P : S → Prop).

Definition preserves {A} (m : M S A) : Prop := ∀ s w r s' w', m s w = Some (r, s', w') → P s → P s'.

Lemma preserves_pure {A} (m : M S A) : (∀ s w r s' w', m s w = Some (r, s', w') → s' = s) → preserves m.
Proof. intros H s w r s' w' E. by rewrite (H s w r s' w' E). Qed.
Lemma preserves_ret {A} (a : A) : preserves (ret a).
Proof. apply preserves_pure. intros s w r s' w'. by intros [= _ <- _]. Qed.
Lemma preserves_crash {A} : preserves (@crash S A).
Proof. by intros s w r s' w'. Qed.
Lemma preserves_get : preserves get.
Proof. apply preserves_pure. intros s w r s' w'. by intros [= _ <- _]. Qed.
Lemma preserves_set_error e : preserves (set_error e).
Proof. apply preserves_pure. intros s w r s' w'. by intros [= _ <- _]. Qed.
Lemma preserves_get_error : preserves get_error.
Proof. apply preserves_pure. intros s w r s' w'. by intros [= _ <- _]. Qed.
Lemma preserves_assert b : preserves (c_assert b).
Proof. destruct b; [apply preserves_ret|apply preserves_crash]. Qed.
Lemma preserves_modify f : (∀ s, P s → P (f s)) → preserves (modify f).
Proof. intros H s w r s' w'. intros [= _ <- _]. apply H. Qed.
Lemma preserves_bind {A B} (m : M S A) (f : A → M S B) : preserves m → (∀ a, preserves (f a)) → preserves (bind m f).
Proof.
  intros Hm Hf s w r s' w'. unfold bind. destruct (m s w) as [[[a s1] w1]|] eqn:E; [|done].
  intros E' Ha. eapply Hf; [done|]. by eapply Hm.
Qed.
Lemma preserves_malloc : preserves malloc.
Proof. apply preserves_pure. intros s w r s' w'. unfold malloc. destruct (w_mem w); by intros [= _ <- _]. Qed.
Lemma preserves_mem_alloc : preserves mem_alloc.
Proof.
  apply preserves_bind; [apply preserves_malloc|]. intros []; [apply preserves_ret|].
  apply preserves_bind; [apply preserves_set_error|intros _; apply preserves_ret].
Qed.
End Preserves.

Create HintDb preserves.
#[export] Hint Resolve preserves_ret preserves_crash preserves_get preserves_set_error preserves_get_error
  preserves_assert preserves_malloc preserves_mem_alloc : preserves.
Ltac preserve :=
  repeat match goal with
  | |- preserves _ (bind _ _) => apply preserves_bind; [|intros ?]
  | |- preserves _ (if ?b then _ else _) => destruct b
  | |- preserves _ (when ?b _) => destruct b; cbn [when]
  | |- preserves _ (match ?x with _ => _ end) => destruct x
  | |- preserves _ (let _ := _ in _) => cbv zeta
  end; auto with preserves.

(** ** The outcome of a routine that allocates

    Success leaves the error register alone; failure sets [STATUS_NO_MEMORY] and
    needs an allocation to have failed. *)
Definition outcome (w w' : world) (ok : bool) : Prop :=
  if ok then w_error w' = w_error w ∧ (w_mem w = [] → w' = w)
  else w_error w' = STATUS_NO_MEMORY ∧ w_mem w ≠ [].

#[global] Arguments outcome : simpl never.

Lemma outcome_refl w : outcome w w true.
Proof. done. Qed.

Lemma outcome_trans w w1 w2 ok : outcome w w1 true → outcome w1 w2 ok → outcome w w2 ok.
Proof. unfold outcome. destruct ok; naive_solver congruence. Qed.

Lemma wp_mem_alloc_outcome {S} (s : S) w (Q : bool → S → world → Prop) :
  (∀ ok w', outcome w w' ok → Q ok s w') → wp mem_alloc s w Q.
Proof. intros H. apply wp_mem_alloc; intros; apply H; done. Qed.

Create HintDb outcome.
#[export] Hint Resolve outcome_refl outcome_trans : outcome.

(** ** Bounded search

    [for (i = lo; i < lo + n; i++) if (p(i)) break;] leaves [i] at
    [find_from p lo n]. *)
Fixpoint find_from (p : Z → bool) (lo : Z) (n : nat) : Z :=
  match n with
  | O => lo
  | S n' => if p lo then lo else find_from p (lo + 1) n'
  end.

Lemma find_from_range p lo n : lo ≤ find_from p lo n ≤ lo + Z.of_nat n.
Proof. revert lo; induction n as [|n IH]; intros; simpl; [lia|]. case_match; [lia|]. specialize (IH (lo + 1)). lia. Qed.

Lemma find_from_found p lo n : find_from p lo n < lo + Z.of_nat n → p (find_from p lo n) = true.
Proof.
  revert lo; induction n as [|n IH]; intros lo H; simpl in *; [lia|].
  case_match; [done|]. apply IH. lia.
Qed.

Lemma find_from_skipped p lo n i : lo ≤ i < find_from p lo n → p i = false.
Proof.
  revert lo; induction n as [|n IH]; intros lo H; simpl in *; [lia|].
  destruct (p lo) eqn:E; [lia|].
  destruct (decide (i = lo)) as [->|]; [done|]. apply (IH (lo + 1)). lia.
Qed.

(** ** Lists *)

Lemma filter_all {A} (P : A → Prop) `{∀ x, Decision (P x)} (l : list A) : (∀ x, x ∈ l → P x) → filter P l = l.
Proof.
  induction l as [|a l IH]; intros Hl; [done|]. rewrite filter_cons_True by (apply Hl, elem_of_cons; auto).
  f_equal. apply IH. intros. apply Hl, elem_of_cons. auto.
Qed.

(** How often [o] occurs in a list of references. *)
Definition count (o : Z) (l : list Z) : Z := Z.of_nat (length (filter (λ i, i = o) l)).

Lemma count_cons o i l : count o (i :: l) = count o l + (if decide (i = o) then 1 else 0).
Proof. unfold count. rewrite filter_cons. case_decide; cbn [length]; lia. Qed.

Lemma count_le o l : count o l ≤ Z.of_nat (length l).
Proof. unfold count. pose proof (length_filter (λ i, i = o) l). lia. Qed.

Lemma count_nonneg o l : 0 ≤ count o l.
Proof. unfold count. lia. Qed.

Lemma count_elem o l : o ∈ l → 1 ≤ count o l.
Proof.
  induction l as [|i l IH]; [by intros ?%not_elem_of_nil|]. rewrite count_cons. pose proof (count_nonneg o l).
  intros [->|Ho%IH]%elem_of_cons; [rewrite decide_True by done; lia|case_decide; lia].
Qed.

(** Sorted lists. *)
Lemma sorted_weaken {A} (R R' : A → A → Prop) (l : list A) :
  (∀ a b, a ∈ l → b ∈ l → R a b → R' a b) → StronglySorted R l → StronglySorted R' l.
Proof.
  induction l as [|a l IH]; intros H Hl; [constructor|]. apply StronglySorted_cons in Hl as [Ha Hl]. apply StronglySorted_cons. split.
  - rewrite Forall_forall in *. intros b Hb. apply H; [left|by right|by apply Ha].
  - apply IH; [|done]. intros b c Hb Hc. apply H; by right.
Qed.

Lemma sorted_filter {A} (R : A → A → Prop) (P : A → Prop) `{∀ a, Decision (P a)} (l : list A) :
  StronglySorted R l → StronglySorted R (filter P l).
Proof.
  induction l as [|a l IH]; intros Hl; [done|]. apply StronglySorted_cons in Hl as [Ha Hl]. rewrite filter_cons. case_decide; [|by apply IH].
  apply StronglySorted_cons. split; [|by apply IH]. rewrite Forall_forall in *. intros b Hb%list_elem_of_filter. apply Ha. tauto.
Qed.

Lemma sorted_snoc {A} (R : A → A → Prop) (l : list A) a : StronglySorted R l → Forall (λ b, R b a) l → StronglySorted R (l ++ [a]).
Proof.
  induction l as [|b l IH]; intros Hl Ha; cbn; [by repeat constructor|]. apply StronglySorted_cons in Hl as [Hb Hl].
  apply Forall_cons in Ha as [Hba Ha]. apply StronglySorted_cons. split; [|by apply IH]. apply Forall_app. by split; [|apply Forall_singleton].
Qed.

(** An element goes to its place in a sorted list. *)
Lemma sorted_place {A} (R : A → A → Prop) i n (l : list A) : StronglySorted R l → (∀ j, j ∈ take n l → R j i) → (∀ j, j ∈ drop n l → R i j) → StronglySorted R (take n l ++ i :: drop n l).
Proof.
  intros Hs H1 H2. rewrite <-(take_drop n l) in Hs. apply StronglySorted_app in Hs as (H12 & Hs1 & Hs2). apply StronglySorted_app. split_and!; [|done|].
  - intros a b Ha [->|Hb]%elem_of_cons; auto.
  - apply StronglySorted_cons. split; [|done]. by apply Forall_forall.
Qed.

(** ** Maps *)

Lemma alter_present {A} (f : A → A) (m : gmap Z A) i x : m !! i = Some x → alter f i m = <[i := f x]> m.
Proof.
  intros Hx. apply map_eq. intros j. rewrite lookup_alter, lookup_insert.
  case_decide; subst; by rewrite ?Hx.
Qed.

(** A duplicate-free list of present keys is no longer than the map. *)
Lemma nodup_length_size {A} (m : gmap Z A) (l : list Z) :
  NoDup l → (∀ x, x ∈ l → is_Some (m !! x)) → (length l ≤ size m)%nat.
Proof.
  intros Hl Hm. rewrite <- size_dom, <- (size_list_to_set (C:=gset Z) l) by done.
  apply subseteq_size. intros x. rewrite elem_of_list_to_set, elem_of_dom. auto.
Qed.


Lemma size_delete_lt {A} (m : gmap Z A) i a : m !! i = Some a → (size (delete i m) < size m)%nat.
Proof.
  intros Hi. rewrite map_size_delete_Some by eauto. pose proof (map_size_ne_0_lookup_2 m i ltac:(eauto)). lia.
Qed.

Lemma map_size_le {A} (m m' : gmap Z A) : m' ⊆ m → (size m' ≤ size m)%nat.
Proof.
  intros H. rewrite <- !size_dom. apply subseteq_size. by apply subseteq_dom.
Qed.

(** An unused key: the address of a new object. *)
Definition new_key {A} (m : gmap Z A) : Z := 1 + map_fold (λ k _ b, Z.max k b) 0 m.

Lemma new_key_above {A} (m : gmap Z A) : ∀ k, is_Some (m !! k) → k < new_key m.
Proof.
  unfold new_key. induction m as [|i x m Hi Hf IH] using map_first_key_ind; intros k [y Hy]; [done|].
  rewrite map_fold_insert_first_key by done.
  apply lookup_insert_Some in Hy as [[-> ->]|[Hne Hy]]; [lia|].
  specialize (IH k (ex_intro _ _ Hy)). lia.
Qed.

Lemma new_key_fresh {A} (m : gmap Z A) : m !! new_key m = None.
Proof.
  apply eq_None_not_Some. intros H. pose proof (new_key_above m _ H). lia.
Qed.

(** Running a routine on one object of a store. *)
Definition on_object {O A} (p : Z) (m : M O A) : M (gmap Z O) A := λ st w,
  match st !! p with
  | Some o => match m o w with
              | Some (a, o', w') => Some (a, <[p := o']> st, w')
              | None => None
              end
  | None => None
  end.

Definition read_object {O} (p : Z) : M (gmap Z O) O := on_object p get.

Lemma wp_on_object {O A} p (m : M O A) st w o Q :
  st !! p = Some o → wp m o w (λ a o' w', Q a (<[p := o']> st) w') → wp (on_object p m) st w Q.
Proof. unfold wp, on_object. intros ->. by destruct (m o w) as [[[]]|]. Qed.

Lemma wp_read_object {O} p (st : gmap Z O) w o Q :
  st !! p = Some o → Q o st w → wp (read_object p) st w Q.
Proof.
  intros Hp H. eapply wp_on_object; [done|]. rewrite wp_get. by rewrite insert_id.
Qed.
