(* ===== verification/UserHandles.v ===== *)
(** * User handles (server/user.c)

    The table of USER objects (windows, menus, hooks...) in the session shared
    memory. An entry is free when its type is 0; free entries are chained
    through their [offset] field, and a generation counter, bumped each time an
    entry is reused, makes the handles of the previous object stale. *)

From S2P Require Import Prelude.

Definition FIRST_USER_HANDLE : Z := 0x20.
Definition LAST_USER_HANDLE : Z := 0xffef.
Definition MAX_USER_HANDLES : Z := Z.shiftr (LAST_USER_HANDLE - FIRST_USER_HANDLE + 1) 1.

Definition NTUSER_OBJ_WINDOW : Z := 0x01.
Definition NTUSER_OBJ_MENU : Z := 0x02.
Definition NTUSER_OBJ_ICON : Z := 0x03.
Definition NTUSER_OBJ_WINPOS : Z := 0x04.
Definition NTUSER_OBJ_ACCEL : Z := 0x08.
Definition NTUSER_OBJ_HOOK : Z := 0x0f.
Definition NTUSER_OBJ_IMC : Z := 0x11.

(** [struct user_entry]; the [uniq] word is the pair (type, generation). *)
Record user_entry := UserEntry {
  e_offset : Z; e_tid : Z; e_pid : Z; e_id : Z; e_type : Z; e_generation : Z
}.

Definition zero_entry : user_entry := UserEntry 0 0 0 0 0 0.

Definition set_type (t : Z) (e : user_entry) : user_entry :=
  UserEntry (e_offset e) (e_tid e) (e_pid e) (e_id e) t (e_generation e).
Definition set_offset (o : Z) (e : user_entry) : user_entry :=
  UserEntry o (e_tid e) (e_pid e) (e_id e) (e_type e) (e_generation e).

Record obj_locator := ObjLocator { l_id : Z; l_offset : Z }.

(** The static variables of user.c and the table in shared memory; an absent
    key is a zeroed entry, or a NULL object pointer. [freelist] is a
    [mem_size_t], so the initial -1 is [2^64 - 1]. *)
Record user_state := UserState {
  user_entries : gmap Z user_entry;
  server_objects : gmap Z Z;
  freelist : Z;
  nb_handles : Z
}.

Definition NO_FREE : Z := 18446744073709551615.
Definition init_user_state : user_state := UserState ∅ ∅ NO_FREE 0.

Definition with_entries (f : gmap Z user_entry → gmap Z user_entry) (s : user_state) : user_state :=
  UserState (f (user_entries s)) (server_objects s) (freelist s) (nb_handles s).
Definition with_freelist (i : Z) (s : user_state) : user_state :=
  UserState (user_entries s) (server_objects s) i (nb_handles s).

Definition entry_at (s : user_state) (i : Z) : user_entry := default zero_entry (user_entries s !! i).

Abbreviation U := (M user_state).

Definition in_table (i : Z) : bool := (0 <=? i) && (i <? MAX_USER_HANDLES).
Definition read_entry (i : Z) : U user_entry :=
  c_assert (in_table i) >> let* s := get in ret (entry_at s i).
Definition write_entry (i : Z) (e : user_entry) : U unit :=
  c_assert (in_table i) >> modify (with_entries <[i := e]>).

Definition get_server_object (i : Z) : U (option Z) :=
  c_assert (in_table i) >> let* s := get in ret (server_objects s !! i).

Definition set_server_object (i : Z) (ptr : option Z) : U (option Z) :=
  c_assert (in_table i) >>
  let* s := get in
  put (UserState (user_entries s) (partial_alter (λ _, ptr) i (server_objects s)) (freelist s) (nb_handles s)) >>
  ret (server_objects s !! i).

(** [index] is the unsigned value [((handle & 0xffff) - FIRST_USER_HANDLE) >> 1]
    converted to [int]. *)
Definition handle_index (handle : Z) : Z :=
  s32 (Z.shiftr (u32 (Z.land handle 0xffff - FIRST_USER_HANDLE)) 1).

Definition handle_to_entry (handle : Z) : U (option Z) :=
  let generation := u16 (Z.shiftr handle 16) in
  let index := handle_index handle in
  let* s := get in
  if (index <? 0) || (nb_handles s <=? index) then ret None else
  let* entry := read_entry index in
  if e_type entry =? 0 then ret None else
  if (generation =? 0) || (generation =? 0xffff) then ret (Some index) else
  if generation =? e_generation entry then ret (Some index) else
  ret None.

Definition entry_to_handle (index : Z) : U Z :=
  let* entry := read_entry index in
  ret (u32 (Z.shiftl index 1 + FIRST_USER_HANDLE + Z.shiftl (e_generation entry) 16)).

(** [tid] and [pid] are those of [current]. *)
Definition alloc_user_entry (tid pid : Z) (locator : obj_locator) (type : Z) : U Z :=
  let* s := get in
  let* ig := if negb (freelist s =? NO_FREE) then
               let* entry := read_entry (freelist s) in
               modify (with_freelist (e_offset entry)) >>
               ret (freelist s, u16 (e_generation entry + 1))
             else
               put (UserState (user_entries s) (server_objects s) (freelist s) (nb_handles s + 1)) >>
               ret (nb_handles s, 1) in
  let generation := if (ig.2 =? 0) || (ig.2 =? 0xffff) then 1 else ig.2 in
  write_entry ig.1 (UserEntry (l_offset locator) tid pid (l_id locator) type generation) >>
  ret ig.1.

Definition free_user_entry (index : Z) : U unit :=
  let* entry := read_entry index in
  let* s := get in
  write_entry index (set_offset (freelist s) (set_type 0 entry)) >>
  modify (with_freelist index).

(** [shared] is the locator of the shared object, if any:
    [get_shared_object_locator] of mapping.c reads it from the session block. *)
Definition alloc_user_handle (tid pid : Z) (ptr : Z) (shared : option obj_locator) (type : Z) : U Z :=
  let locator := default (ObjLocator 0 0) shared in
  let* entry := alloc_user_entry tid pid locator type in
  set_server_object entry (Some ptr) >>
  entry_to_handle entry.

Definition get_user_object (handle type : Z) : U (option Z) :=
  let* r := handle_to_entry handle in
  match r with
  | None => ret None
  | Some i =>
      let* entry := read_entry i in
      if negb (e_type entry =? type) then ret None else get_server_object i
  end.

Definition get_user_full_handle (handle : Z) : U Z :=
  if truth (Z.shiftr handle 16) then ret handle else
  let* r := handle_to_entry handle in
  match r with
  | None => ret handle
  | Some i => entry_to_handle i
  end.

(** Returns the object and the new value of [*handle]. *)
Definition get_user_object_handle (handle type : Z) : U (option Z * Z) :=
  let* r := handle_to_entry handle in
  match r with
  | None => ret (None, handle)
  | Some i =>
      let* entry := read_entry i in
      if negb (e_type entry =? type) then ret (None, handle) else
      let* full := entry_to_handle i in
      let* obj := get_server_object i in
      ret (obj, full)
  end.

Definition free_user_handle (handle : Z) : U (option Z) :=
  let* r := handle_to_entry handle in
  match r with
  | None => set_error STATUS_INVALID_HANDLE >> ret None
  | Some i =>
      let* obj := set_server_object i None in
      free_user_entry i >>
      ret obj
  end.

(** The search loop of [next_user_handle], from entry [i] for [n] entries. *)
Fixpoint next_entry (type i : Z) (n : nat) (handle : Z) : U (option Z * Z) :=
  match n with
  | O => ret (None, handle)
  | S n' =>
      let* entry := read_entry i in
      if (type =? 0) || (e_type entry =? type) then
        let* h := entry_to_handle i in
        let* obj := get_server_object i in
        ret (obj, h)
      else next_entry type (i + 1) n' handle
  end.

Definition next_user_handle (handle type : Z) : U (option Z * Z) :=
  let* s := get in
  if handle =? 0 then next_entry type 0 (Z.to_nat (nb_handles s)) handle else
  let index := handle_index handle in
  if (index <? 0) || (nb_handles s <=? index) then ret (None, handle) else
  next_entry type (index + 1) (Z.to_nat (nb_handles s - (index + 1))) handle.

Definition client_side_type (type : Z) : bool :=
  existsb (Z.eqb type) [NTUSER_OBJ_MENU; NTUSER_OBJ_ICON; NTUSER_OBJ_WINPOS; NTUSER_OBJ_ACCEL; NTUSER_OBJ_IMC].

Fixpoint free_process_entries (pid i : Z) (n : nat) : U unit :=
  match n with
  | O => ret tt
  | S n' =>
      let* entry := read_entry i in
      when (client_side_type (e_type entry) && (e_pid entry =? pid)) (free_user_entry i) >>
      free_process_entries pid (i + 1) n'
  end.

(** free_process_user_handles: [pid] is the id of the process. *)
Definition free_process_user_handles (pid : Z) : U unit :=
  let* s := get in free_process_entries pid 0 (Z.to_nat (nb_handles s)).

(** The request handlers. [(void * )-1], never used, is [-1]. *)
Definition req_alloc_user_handle (tid pid type : Z) : U Z :=
  alloc_user_handle tid pid (-1) None type.

Definition req_free_user_handle (handle type : Z) : U unit :=
  let* r := handle_to_entry handle in
  match r with
  | None => set_error STATUS_INVALID_HANDLE
  | Some i =>
      let* entry := read_entry i in
      if e_type entry =? type then free_user_entry i
      else set_error STATUS_INVALID_HANDLE
  end.

(** ** Handle encoding *)

Lemma land_ffff z : Z.land z 0xffff = u16 z.
Proof. change 0xffff with (Z.ones 16). by rewrite Z.land_ones by lia. Qed.

Definition mk_handle (i g : Z) : Z := u32 (Z.shiftl i 1 + FIRST_USER_HANDLE + Z.shiftl g 16).

Lemma mk_handle_eq i g :
  0 ≤ i < MAX_USER_HANDLES → 0 ≤ g < 65536 → mk_handle i g = i * 2 + 32 + g * 65536.
Proof.
  unfold mk_handle, MAX_USER_HANDLES, FIRST_USER_HANDLE. intros Hi Hg.
  change (Z.shiftr (LAST_USER_HANDLE - 32 + 1) 1) with 32744 in *.
  rewrite !Z.shiftl_mul_pow2 by lia. apply u32_small. lia.
Qed.

Lemma handle_index_mk i g :
  0 ≤ i < MAX_USER_HANDLES → 0 ≤ g < 65536 → handle_index (mk_handle i g) = i.
Proof.
  intros Hi Hg. rewrite mk_handle_eq by done. unfold handle_index.
  change MAX_USER_HANDLES with 32744 in Hi. unfold FIRST_USER_HANDLE.
  rewrite land_ffff. unfold u16. rewrite Z.mod_add, Z.mod_small by lia.
  rewrite u32_small by lia. rewrite Z.shiftr_div_pow2 by lia.
  replace ((i * 2 + 32 - 32) / 2 ^ 1) with i by (Z.div_mod_to_equations; lia).
  apply s32_small. lia.
Qed.

Lemma handle_generation_mk i g :
  0 ≤ i < MAX_USER_HANDLES → 0 ≤ g < 65536 → u16 (Z.shiftr (mk_handle i g) 16) = g.
Proof.
  intros Hi Hg. rewrite mk_handle_eq by done.
  change MAX_USER_HANDLES with 32744 in Hi. rewrite Z.shiftr_div_pow2 by lia.
  rewrite Z.div_add, Z.div_small by lia. by apply u16_small.
Qed.

(** ** The invariant

    [chain m i l]: following the [e_offset] links from [i] visits exactly the
    entries [l] and ends at the -1 marker. Clients choose the type of the objects that
    they allocate, and nothing stops them from choosing 0: such an entry looks free, but is
    not in the list, and no request can free it. These are the entries [lost]. *)
Fixpoint chain (m : gmap Z user_entry) (i : Z) (l : list Z) : Prop :=
  match l with
  | [] => i = NO_FREE
  | x :: l' => i = x ∧ chain m (e_offset (default zero_entry (m !! x))) l'
  end.

Record user_inv (lost : list Z) (s : user_state) (fl : list Z) : Prop := {
  inv_nb : 0 ≤ nb_handles s ≤ MAX_USER_HANDLES;
  inv_chain : chain (user_entries s) (freelist s) fl;
  inv_nodup : NoDup fl;
  inv_free : ∀ i, i ∈ fl ↔ 0 ≤ i < nb_handles s ∧ e_type (entry_at s i) = 0 ∧ i ∉ lost;
  inv_lost : NoDup lost ∧ ∀ i, i ∈ lost → 0 ≤ i < nb_handles s ∧ e_type (entry_at s i) = 0;
  inv_gen : ∀ i, 0 ≤ i < nb_handles s → 1 ≤ e_generation (entry_at s i) < 0xffff
}.

Definition user_lost (lost : list Z) (s : user_state) : Prop := ∃ fl, user_inv lost s fl.
Definition user_wf (s : user_state) : Prop := ∃ lost, user_lost lost s.

Lemma wf_nb s : user_wf s → 0 ≤ nb_handles s ≤ MAX_USER_HANDLES.
Proof. intros (lost & fl & []). done. Qed.

Lemma wf_gen s i : user_wf s → 0 ≤ i < nb_handles s → 1 ≤ e_generation (entry_at s i) < 0xffff.
Proof. intros (lost & fl & []). auto. Qed.

(** There is room for one more object. *)
Definition has_room (s : user_state) : Prop :=
  freelist s ≠ NO_FREE ∨ nb_handles s < MAX_USER_HANDLES.

Lemma chain_frame m m' i l :
  (∀ j, j ∈ l → m' !! j = m !! j) → chain m i l → chain m' i l.
Proof.
  revert i. induction l as [|x l IH]; intros i Hm; simpl; [done|].
  intros [-> Hc]. split; [done|]. rewrite Hm by set_solver. apply IH; [set_solver|done].
Qed.

Lemma in_table_true i : 0 ≤ i < MAX_USER_HANDLES → in_table i = true.
Proof. unfold in_table. intros. by rewrite (proj2 (Z.leb_le _ _)), (proj2 (Z.ltb_lt _ _)) by lia. Qed.

Lemma wp_read_entry i s w Q :
  0 ≤ i < MAX_USER_HANDLES → Q (entry_at s i) s w → wp (read_entry i) s w Q.
Proof. intros Hi HQ. unfold read_entry. wp_run. rewrite in_table_true; done. Qed.

Lemma wp_write_entry i e s w (Q : unit → user_state → world → Prop) :
  0 ≤ i < MAX_USER_HANDLES → Q tt (with_entries <[i := e]> s) w → wp (write_entry i e) s w Q.
Proof. intros Hi HQ. unfold write_entry. wp_run. rewrite in_table_true; done. Qed.

(** The decision [handle_to_entry] makes, as a pure function. *)
Definition resolve (s : user_state) (handle : Z) : option Z :=
  let generation := u16 (Z.shiftr handle 16) in
  let index := handle_index handle in
  if (index <? 0) || (nb_handles s <=? index) then None else
  if e_type (entry_at s index) =? 0 then None else
  if (generation =? 0) || (generation =? 0xffff) || (generation =? e_generation (entry_at s index))
  then Some index else None.

Lemma resolve_range s h i : resolve s h = Some i → 0 ≤ i < nb_handles s ∧ e_type (entry_at s i) ≠ 0.
Proof.
  unfold resolve. intros H. repeat case_match; simplify_eq.
  all: split; [lia|]; by apply Z.eqb_neq.
Qed.

Lemma wp_handle_to_entry h s w Q :
  user_wf s → Q (resolve s h) s w → wp (handle_to_entry h) s w Q.
Proof.
  intros Hwf HQ. pose proof (wf_nb s Hwf). unfold handle_to_entry, resolve in *. wp_run.
  destruct ((handle_index h <? 0) || _) eqn:E; [done|].
  wp_run. apply wp_read_entry; [lia|].
  destruct (e_type _ =? 0); [done|].
  destruct (u16 _ =? 0), (u16 _ =? 0xffff), (u16 _ =? e_generation _); done.
Qed.

(** ** Allocation *)

Definition same_entries_but (s s' : user_state) (i : Z) : Prop :=
  ∀ j, j ≠ i → entry_at s' j = entry_at s j ∧ server_objects s' !! j = server_objects s !! j.

Lemma entry_at_insert s s' i e j :
  user_entries s' = <[i := e]> (user_entries s) →
  entry_at s' j = if decide (i = j) then e else entry_at s j.
Proof. unfold entry_at. intros ->. rewrite lookup_insert. by case_decide. Qed.

Definition next_generation (g : Z) : Z :=
  if (g =? 0) || (g =? 0xffff) then 1 else g.

Lemma next_generation_fresh g :
  1 ≤ g < 0xffff →
  1 ≤ next_generation (u16 (g + 1)) < 0xffff ∧ next_generation (u16 (g + 1)) ≠ g.
Proof.
  intros Hg. unfold next_generation. rewrite u16_small by lia.
  destruct (g + 1 =? 0) eqn:?, (g + 1 =? 0xffff) eqn:?; simpl; lia.
Qed.

(** What [alloc_user_entry] does to the table: entry [i], free before, holds
    the new object under a generation different from its previous one, and
    nothing else changes. *)
Record allocated (tid pid : Z) (locator : obj_locator) (type : Z) (s s' : user_state) (i : Z) : Prop := {
  al_lost lost : user_lost lost s → user_lost (if type =? 0 then i :: lost else lost) s';
  al_index : 0 ≤ i < nb_handles s';
  al_nb : nb_handles s' = nb_handles s ∨ i = nb_handles s ∧ nb_handles s' = i + 1;
  al_head : freelist s ≠ NO_FREE → i = freelist s;
  al_free : nb_handles s ≤ i ∨ e_type (entry_at s i) = 0;
  al_entry : ∃ g, entry_at s' i = UserEntry (l_offset locator) tid pid (l_id locator) type g ∧
                  1 ≤ g < 0xffff ∧ (i < nb_handles s → g ≠ e_generation (entry_at s i));
  al_frame : ∀ j, j ≠ i → entry_at s' j = entry_at s j;
  al_objects : server_objects s' = server_objects s
}.

Lemma al_wf tid pid locator type s s' i : user_wf s → allocated tid pid locator type s s' i → user_wf s'.
Proof. intros [lost H] Hal. eexists. by apply (al_lost _ _ _ _ _ _ _ Hal). Qed.

Lemma freelist_empty lost s fl : user_inv lost s fl → freelist s = NO_FREE ↔ fl = [].
Proof.
  intros []. destruct fl as [|x l]; simpl in *; [naive_solver|].
  destruct inv_chain0 as [Hx _]. destruct (proj1 (inv_free0 x)) as [? _]; [set_solver|].
  change MAX_USER_HANDLES with 32744 in *. unfold NO_FREE in *. split; [lia|done].
Qed.

Lemma reuse_inv lost s i l e :
  user_inv lost s (i :: l) → 1 ≤ e_generation e < 0xffff →
  user_inv (if e_type e =? 0 then i :: lost else lost) (with_entries <[i := e]> (with_freelist (e_offset (entry_at s i)) s)) l.
Proof.
  intros [] Hg. apply NoDup_cons in inv_nodup0 as [Hi Hl].
  destruct inv_chain0 as [_ Hc]. destruct inv_lost0 as [Hnd Hlost]. destruct (proj1 (inv_free0 i)) as (Hr & Ht & Hil); [set_solver|].
  split; simpl; try done.
  - apply (chain_frame (user_entries s)); [|done].
    intros j Hj. apply lookup_insert_ne. set_solver.
  - intros j. erewrite entry_at_insert by done. simpl. case_decide as E.
    + subst j. split; [done|]. intros (_ & E & Hn). rewrite E in Hn. set_solver.
    + change (entry_at (with_freelist _ s) j) with (entry_at s j).
      assert (j ∈ l ↔ j ∈ i :: l) as -> by set_solver. rewrite inv_free0. destruct (e_type e =? 0); set_solver.
  - split; [destruct (e_type e =? 0); [by apply NoDup_cons|done]|]. intros j Hj. erewrite entry_at_insert by done. simpl.
    case_decide as Eij; [subst j; destruct (Z.eqb_spec (e_type e) 0); [done|by destruct Hil]|].
    apply Hlost. destruct (e_type e =? 0); [by apply elem_of_cons in Hj as [->|Hj]|done].
  - intros j Hj. erewrite entry_at_insert by done. case_decide; [done|]. by apply inv_gen0.
Qed.

Lemma extend_inv lost s e :
  user_inv lost s [] → nb_handles s < MAX_USER_HANDLES → 1 ≤ e_generation e < 0xffff →
  user_inv (if e_type e =? 0 then nb_handles s :: lost else lost) (with_entries <[nb_handles s := e]>
    (UserState (user_entries s) (server_objects s) (freelist s) (nb_handles s + 1))) [].
Proof.
  intros [] Hr Hg. destruct inv_lost0 as [Hnd Hlost]. assert (Hnew : nb_handles s ∉ lost) by (intros [? _]%Hlost; lia). split; simpl; try done; [lia| | |].
  - intros j. erewrite entry_at_insert by done. simpl. split; [by intros ?%not_elem_of_nil|].
    case_decide as E; [subst|].
    + intros (_ & Ee & Hn). rewrite Ee in Hn. set_solver.
    + change (entry_at (UserState _ _ _ _) j) with (entry_at s j). intros (? & ? & Hn). apply inv_free0. split; [lia|]. split; [done|]. destruct (e_type e =? 0); set_solver.
  - split; [destruct (e_type e =? 0); [by apply NoDup_cons|done]|]. intros j Hj. erewrite entry_at_insert by done.
    case_decide as E; [subst j; split; [lia|]; destruct (Z.eqb_spec (e_type e) 0); [done|by destruct Hnew]|].
    assert (Hj' : j ∈ lost) by (destruct (e_type e =? 0); [by apply elem_of_cons in Hj as [->|Hj]|done]). destruct (Hlost j Hj'). split; [lia|done].
  - intros j Hj. erewrite entry_at_insert by done. case_decide; [done|]. apply inv_gen0. lia.
Qed.

Lemma wp_alloc_user_entry tid pid locator type s w (Q : Z → user_state → world → Prop) :
  user_wf s → has_room s →
  (∀ i s', allocated tid pid locator type s s' i → Q i s' w) →
  wp (alloc_user_entry tid pid locator type) s w Q.
Proof.
  intros Hwf Hroom HQ. pose proof Hwf as (lost & fl & Hinv). pose proof (freelist_empty _ _ _ Hinv) as Hfl.
  unfold alloc_user_entry. wp_run. destruct (Z.eqb_spec (freelist s) NO_FREE) as [E|E]; wp_run.
  - rewrite (proj1 Hfl E) in *. destruct Hroom as [|Hroom]; [done|].
    pose proof (inv_nb _ _ _ Hinv).
    apply wp_write_entry; [lia|]. wp_run. apply HQ. split; simpl; try done; try lia.
    + intros lost' [fl' Hinv']. exists []. assert (fl' = []) as -> by (by apply (freelist_empty _ _ _ Hinv')). by apply (extend_inv lost' s (UserEntry (l_offset locator) tid pid (l_id locator) type 1)).
    + exists 1. erewrite entry_at_insert by done. rewrite decide_True by done.
      split; [done|]. split; lia.
    + intros j Hj. erewrite entry_at_insert by done. by rewrite decide_False.
  - destruct fl as [|i l]; [naive_solver|].
    pose proof (inv_chain _ _ _ Hinv) as [Hi Hc]. rewrite Hi in *.
    destruct (proj1 (inv_free _ _ _ Hinv i)) as (Hr & Hfree & _); [set_solver|].
    pose proof (inv_nb _ _ _ Hinv). pose proof (inv_gen _ _ _ Hinv i Hr) as Hg.
    destruct (next_generation_fresh _ Hg) as [Hg' Hne]. fold (next_generation (u16 (e_generation (entry_at s i) + 1))).
    apply wp_read_entry; [lia|]. wp_run. apply wp_write_entry; [lia|]. wp_run. apply HQ.
    split; simpl; try done; try lia.
    + intros lost' [fl' Hinv']. destruct fl' as [|i' l']; [pose proof (inv_chain _ _ _ Hinv') as Hc'; simpl in Hc'; congruence|].
      pose proof (inv_chain _ _ _ Hinv') as [Hi' _]. assert (i' = i) as -> by congruence. exists l'.
      by apply (reuse_inv lost' s i l' (UserEntry (l_offset locator) tid pid (l_id locator) type (next_generation (u16 (e_generation (entry_at s i) + 1))))).
    + eexists. erewrite entry_at_insert by done. rewrite decide_True by done. done.
    + intros j Hj. erewrite entry_at_insert by done. by rewrite decide_False.
Qed.

(** ** Release *)

(** What [free_user_entry] does: entry [i] becomes the head of the free list
    and keeps its generation; nothing else changes. *)
Record released (s s' : user_state) (i : Z) : Prop := {
  re_lost lost : user_lost lost s → user_lost lost s';
  re_nb : nb_handles s' = nb_handles s;
  re_head : freelist s' = i;
  re_type : e_type (entry_at s' i) = 0;
  re_generation : e_generation (entry_at s' i) = e_generation (entry_at s i);
  re_frame : ∀ j, j ≠ i → entry_at s' j = entry_at s j;
  re_objects : server_objects s' = server_objects s
}.

Lemma re_wf s s' i : user_wf s → released s s' i → user_wf s'.
Proof. intros [lost H] Hr. exists lost. by apply (re_lost _ _ _ Hr). Qed.

Lemma release_inv lost s fl i :
  user_inv lost s fl → 0 ≤ i < nb_handles s → e_type (entry_at s i) ≠ 0 →
  user_inv lost (with_freelist i (with_entries <[i := set_offset (freelist s) (set_type 0 (entry_at s i))]> s))
           (i :: fl).
Proof.
  intros [] Hi Ht. assert (i ∉ fl) by (rewrite inv_free0; naive_solver). destruct inv_lost0 as [Hnd Hlost].
  assert (i ∉ lost) by (intros [_ ?]%Hlost; done).
  split; simpl; try done.
  - split; [done|]. rewrite lookup_insert_eq. simpl.
    apply (chain_frame (user_entries s)); [|done]. intros j Hj. apply lookup_insert_ne. set_solver.
  - by apply NoDup_cons.
  - intros j. erewrite entry_at_insert by done. case_decide; [subst; set_solver|].
    rewrite elem_of_cons, inv_free0. naive_solver.
  - split; [done|]. intros j Hj. erewrite entry_at_insert by done. case_decide; [by subst|]. by apply Hlost.
  - intros j Hj. erewrite entry_at_insert by done. case_decide; [subst|]; by apply inv_gen0.
Qed.

Lemma wp_free_user_entry i s w (Q : unit → user_state → world → Prop) :
  user_wf s → 0 ≤ i < nb_handles s → e_type (entry_at s i) ≠ 0 →
  (∀ s', released s s' i → Q tt s' w) → wp (free_user_entry i) s w Q.
Proof.
  intros Hwf Hi Ht HQ. pose proof (wf_nb s Hwf).
  unfold free_user_entry. wp_run. apply wp_read_entry; [lia|]. wp_run.
  apply wp_write_entry; [lia|]. wp_run. apply HQ.
  split; simpl; try done.
  - intros lost [fl Hinv]. exists (i :: fl). by apply release_inv.
  - erewrite entry_at_insert by done. by rewrite decide_True.
  - erewrite entry_at_insert by done. by rewrite decide_True.
  - intros j Hj. erewrite entry_at_insert by done. by rewrite decide_False.
Qed.

(** ** Server objects *)

Definition with_object (i : Z) (ptr : option Z) (s : user_state) : user_state :=
  UserState (user_entries s) (partial_alter (λ _, ptr) i (server_objects s)) (freelist s) (nb_handles s).

Lemma with_object_lost lost i p s : user_lost lost s → user_lost lost (with_object i p s).
Proof. intros [fl []]. exists fl. by split. Qed.

Lemma with_object_wf i p s : user_wf s → user_wf (with_object i p s).
Proof. intros [lost H]. exists lost. by apply with_object_lost. Qed.

Lemma resolve_with_object i p s h : resolve (with_object i p s) h = resolve s h.
Proof. done. Qed.

Lemma resolve_frame s s' h i :
  nb_handles s ≤ nb_handles s' → entry_at s' i = entry_at s i →
  resolve s h = Some i → resolve s' h = Some i.
Proof.
  intros Hnb He. unfold resolve.
  destruct (handle_index h <? 0) eqn:E1; [done|]. destruct (nb_handles s <=? handle_index h) eqn:E2; [done|].
  replace (nb_handles s' <=? handle_index h) with false by lia. cbn.
  intros H. assert (handle_index h = i) as E by (repeat case_match; by simplify_eq).
  rewrite E in *. by rewrite He.
Qed.

Lemma resolve_mk s i g :
  0 ≤ i < nb_handles s → nb_handles s ≤ MAX_USER_HANDLES → e_type (entry_at s i) ≠ 0 →
  1 ≤ g < 0xffff → resolve s (mk_handle i g) = if g =? e_generation (entry_at s i) then Some i else None.
Proof.
  intros Hi Hn Ht Hg. unfold resolve. rewrite handle_index_mk, handle_generation_mk by lia.
  replace (i <? 0) with false by lia. replace (nb_handles s <=? i) with false by lia.
  replace (e_type (entry_at s i) =? 0) with false by lia.
  replace (g =? 0) with false by lia. by replace (g =? 65535) with false by lia.
Qed.

(** An explicit generation only resolves to an entry that has it. *)
Lemma resolve_generation s i g j :
  0 ≤ i < MAX_USER_HANDLES → 1 ≤ g < 0xffff → resolve s (mk_handle i g) = Some j →
  j = i ∧ e_generation (entry_at s i) = g ∧ e_type (entry_at s i) ≠ 0.
Proof.
  intros Hi Hg. unfold resolve. rewrite handle_index_mk, handle_generation_mk by lia.
  replace (g =? 0) with false by lia. replace (g =? 65535) with false by lia. cbn.
  intros H. repeat case_match; simplify_eq. split; [done|]. split; [symmetry; by apply Z.eqb_eq|by apply Z.eqb_neq].
Qed.

(** ** Sequences of requests *)

Inductive user_op :=
  | OpAlloc (tid pid ptr : Z) (shared : option obj_locator) (type : Z)
  | OpFree (handle : Z)
  | OpReqFree (handle type : Z)
  | OpFreeProcess (pid : Z).

Definition exec_op (op : user_op) : U unit :=
  match op with
  | OpAlloc tid pid ptr shared type => let* _ := alloc_user_handle tid pid ptr shared type in ret tt
  | OpFree h => let* _ := free_user_handle h in ret tt
  | OpReqFree h type => req_free_user_handle h type
  | OpFreeProcess pid => free_process_user_handles pid
  end.

Fixpoint exec_ops (ops : list user_op) : U unit :=
  match ops with
  | [] => ret tt
  | op :: ops' => exec_op op >> exec_ops ops'
  end.

Definition is_alloc (op : user_op) : bool := match op with OpAlloc _ _ _ _ _ => true | _ => false end.
Definition is_untyped (op : user_op) : bool := match op with OpAlloc _ _ _ _ t => t =? 0 | _ => false end.
Definition untyped (ops : list user_op) : nat := length (filter (λ op, is_untyped op = true) ops).
Lemma untyped_cons op ops : untyped (op :: ops) = ((if is_untyped op then 1 else 0) + untyped ops)%nat.
Proof. unfold untyped. rewrite filter_cons. by destruct (is_untyped op). Qed.

Definition allocs (ops : list user_op) : Z := Z.of_nat (length (filter (λ op, is_alloc op = true) ops)).

Lemma wp_set_server_object i p s w (Q : option Z → user_state → world → Prop) :
  0 ≤ i < MAX_USER_HANDLES → Q (server_objects s !! i) (with_object i p s) w →
  wp (set_server_object i p) s w Q.
Proof. intros Hi HQ. unfold set_server_object. wp_run. rewrite in_table_true; done. Qed.

Lemma wp_get_server_object i s w (Q : option Z → user_state → world → Prop) :
  0 ≤ i < MAX_USER_HANDLES → Q (server_objects s !! i) s w → wp (get_server_object i) s w Q.
Proof. intros Hi HQ. unfold get_server_object. wp_run. rewrite in_table_true; done. Qed.

Lemma wp_entry_to_handle i s w (Q : Z → user_state → world → Prop) :
  0 ≤ i < MAX_USER_HANDLES → Q (mk_handle i (e_generation (entry_at s i))) s w →
  wp (entry_to_handle i) s w Q.
Proof. intros Hi HQ. unfold entry_to_handle. wp_run. by apply wp_read_entry. Qed.

Lemma wp_alloc_user_handle tid pid ptr shared type s w (Q : Z → user_state → world → Prop) :
  user_wf s → has_room s →
  (∀ i s', allocated tid pid (default (ObjLocator 0 0) shared) type s s' i →
     Q (mk_handle i (e_generation (entry_at s' i))) (with_object i (Some ptr) s') w) →
  wp (alloc_user_handle tid pid ptr shared type) s w Q.
Proof.
  intros Hwf Hroom HQ. unfold alloc_user_handle. wp_run.
  apply wp_alloc_user_entry; [done..|]. intros i s' Hal.
  pose proof (wf_nb _ (al_wf _ _ _ _ _ _ _ Hwf Hal)).
  pose proof (al_index _ _ _ _ _ _ _ Hal).
  wp_run. apply wp_set_server_object; [lia|]. wp_run. apply wp_entry_to_handle; [lia|].
  by apply (HQ i s').
Qed.

(** [handle_to_entry] on a valid handle leads [free_user_handle] to release its
    entry; on any other handle it sets STATUS_INVALID_HANDLE and changes nothing. *)
Lemma wp_free_user_handle h s w (Q : option Z → user_state → world → Prop) :
  user_wf s →
  (∀ i s', resolve s h = Some i → released (with_object i None s) s' i → Q (server_objects s !! i) s' w) →
  (resolve s h = None → Q None s (World STATUS_INVALID_HANDLE (w_mem w))) →
  wp (free_user_handle h) s w Q.
Proof.
  intros Hwf HS HN. unfold free_user_handle. wp_run. apply wp_handle_to_entry; [done|].
  destruct (resolve s h) as [i|] eqn:E; wp_run; [|by apply HN].
  destruct (resolve_range _ _ _ E) as [Hi Ht].
  pose proof (wf_nb s Hwf).
  apply wp_set_server_object; [lia|]. wp_run.
  apply wp_free_user_entry; [by apply with_object_wf|done|done|].
  intros s' Hr. wp_run. by apply HS.
Qed.

Lemma wp_req_free_user_handle h type s w (Q : unit → user_state → world → Prop) :
  user_wf s → (∀ i s' w', released s s' i → Q tt s' w') → (∀ w', Q tt s w') →
  wp (req_free_user_handle h type) s w Q.
Proof.
  intros Hwf HS HN. unfold req_free_user_handle. wp_run. apply wp_handle_to_entry; [done|].
  destruct (resolve s h) as [i|] eqn:E; wp_run; [|by apply HN].
  destruct (resolve_range _ _ _ E) as [Hi Ht].
  pose proof (wf_nb s Hwf).
  apply wp_read_entry; [lia|]. case_match; wp_run; [|done].
  apply wp_free_user_entry; eauto.
Qed.

Lemma client_side_type_nonzero t : client_side_type t = true → t ≠ 0.
Proof. by intros H ->. Qed.

Lemma wp_free_process_entries lost pid i n s w (Q : unit → user_state → world → Prop) :
  user_lost lost s → 0 ≤ i → i + Z.of_nat n ≤ nb_handles s →
  (∀ s', user_lost lost s' → nb_handles s' = nb_handles s → Q tt s' w) →
  wp (free_process_entries pid i n) s w Q.
Proof.
  revert i s. induction n as [|n IH]; intros i s Hl Hi Hn HQ; simpl; wp_run; [by apply HQ|].
  assert (Hwf : user_wf s) by (by exists lost). pose proof (wf_nb s Hwf).
  apply wp_read_entry; [lia|]. unfold when. case_match eqn:E; wp_run.
  - apply andb_prop in E as [E _]. apply wp_free_user_entry; [done|lia|by apply client_side_type_nonzero|].
    intros s' Hr. pose proof (re_nb _ _ _ Hr). apply IH; [by apply (re_lost _ _ _ Hr)|lia|lia|]. intros s'' ??. apply HQ; [done|congruence].
  - apply IH; [done|lia|lia|done].
Qed.

Lemma exec_op_wf lost op s w :
  user_lost lost s → (is_alloc op = true → nb_handles s < MAX_USER_HANDLES) →
  wp (exec_op op) s w (λ _ s' _, (∃ lost', user_lost lost' s' ∧ length lost' = (length lost + if is_untyped op then 1 else 0)%nat) ∧
    nb_handles s' ≤ nb_handles s + (if is_alloc op then 1 else 0)).
Proof.
  intros Hl Hroom. assert (Hwf : user_wf s) by (by exists lost).
  assert (Hkeep : ∀ s', user_lost lost s' → ∃ lost', user_lost lost' s' ∧ length lost' = (length lost + 0)%nat) by (intros; exists lost; split; [done|lia]).
  destruct op as [tid pid ptr shared type|h|h type|pid]; simpl in *; wp_run.
  - apply wp_alloc_user_handle; [done|right; auto|]. intros i s' Hal. pose proof (al_nb _ _ _ _ _ _ _ Hal).
    wp_run. split; [|simpl; lia]. eexists. split; [by eapply with_object_lost, al_lost|]. destruct (type =? 0); simpl; lia.
  - apply wp_free_user_handle; [done| |].
    + intros i s' ? Hr. pose proof (re_nb _ _ _ Hr) as E. simpl in *. split; [apply Hkeep, (re_lost _ _ _ Hr), with_object_lost, Hl|]. lia.
    + intros _. split; [by apply Hkeep|]. lia.
  - apply wp_req_free_user_handle; [done| |].
    + intros i s' ? Hr. pose proof (re_nb _ _ _ Hr). split; [by apply Hkeep, (re_lost _ _ _ Hr)|]. lia.
    + intros ?. split; [by apply Hkeep|]. lia.
  - unfold free_process_user_handles. wp_run. pose proof (wf_nb s Hwf).
    apply (wp_free_process_entries lost); [done|lia|lia|].
    intros s' ? ->. split; [by apply Hkeep|]. lia.
Qed.

(** ** Main theorems *)

(** C21: allocating a user handle, whenever the table is not full, returns a
    handle that resolves to the new object, unless its type is 0, which no handle
    resolves to; it keeps the table well formed, and leaves every handle that was
    valid before valid for the same object. *)
Theorem alloc_user_handle_correct tid pid ptr shared type s w :
  user_wf s → has_room s →
  ∃ h s', alloc_user_handle tid pid ptr shared type s w = Some (h, s', w) ∧
    user_wf s' ∧
    get_user_object h type s' w = Some (if type =? 0 then None else Some ptr, s', w) ∧
    (∀ h' i, resolve s h' = Some i → resolve s' h' = Some i ∧ server_objects s' !! i = server_objects s !! i).
Proof.
  intros Hwf Hroom.
  cut (wp (alloc_user_handle tid pid ptr shared type) s w (λ h s' w', w' = w ∧ user_wf s' ∧
    wp (get_user_object h type) s' w (λ r s'' w'', r = (if type =? 0 then None else Some ptr) ∧ s'' = s' ∧ w'' = w) ∧
    (∀ h' i, resolve s h' = Some i → resolve s' h' = Some i ∧ server_objects s' !! i = server_objects s !! i))).
  { intros (h & s' & ? & E & -> & ? & ?%wp_exact & ?)%wp_elim. eauto 8. }
  apply wp_alloc_user_handle; [done..|]. intros i s' Hal. pose proof (al_wf _ _ _ _ _ _ _ Hwf Hal) as Hwf'.
  destruct Hal as [_ Hi Hnb _ Hfree (g & He & Hg & _) Hframe Hobj].
  split; [done|]. split; [by apply with_object_wf|].
  assert (nb_handles s' ≤ MAX_USER_HANDLES) by (by apply wf_nb).
  split.
  - unfold get_user_object. wp_run. apply wp_handle_to_entry; [by apply with_object_wf|].
    rewrite resolve_with_object. rewrite He. simpl. destruct (Z.eqb_spec type 0) as [Et|Et].
    { destruct (resolve s' (mk_handle i g)) as [k|] eqn:E; [|done].
      assert (0 ≤ i < MAX_USER_HANDLES) as HiM by lia. destruct (resolve_generation _ _ _ _ HiM Hg E) as (_ & _ & Hn). by rewrite He in Hn. }
    rewrite resolve_mk by (rewrite ?He; done). rewrite He, Z.eqb_refl. wp_run.
    apply wp_read_entry; [lia|].
    change (entry_at (with_object i (Some ptr) s') i) with (entry_at s' i). rewrite He. simpl.
    rewrite Z.eqb_refl. simpl. apply wp_get_server_object; [lia|].
    simpl. rewrite lookup_partial_alter_eq. done.
  - intros h' j Hj. destruct (resolve_range _ _ _ Hj) as [Hjr Hjt].
    assert (j ≠ i) by (intros ->; destruct Hfree; [lia|done]).
    split; [rewrite resolve_with_object; apply (resolve_frame s); [lia|auto|done]|].
    simpl. rewrite lookup_partial_alter_ne by done. by rewrite Hobj.
Qed.

Definition two_windows : user_state := UserState
  {[ 0 := UserEntry 0 8 4 0 NTUSER_OBJ_WINDOW 1; 1 := UserEntry NO_FREE 8 4 0 0 3 ]} {[ 0 := 77 ]} 1 2.

Lemma two_windows_wf : user_wf two_windows.
Proof.
  exists [], [1]. split; simpl; try done.
  - apply NoDup_singleton.
  - intros i. rewrite list_elem_of_singleton. unfold entry_at. simpl.
    split; [intros ->; split_and!; [done|done|done|apply not_elem_of_nil]|]. intros (Hi & Ht & _). assert (i = 0 ∨ i = 1) as [-> | ->] by lia; done.
  - split; [constructor|by intros i ?%not_elem_of_nil].
  - intros i Hi. assert (i = 0 ∨ i = 1) as [-> | ->] by lia; done.
Qed.

Lemma alloc_user_handle_correct_witness :
  ∃ h s', alloc_user_handle 8 4 99 None NTUSER_OBJ_MENU two_windows (World 0 []) = Some (h, s', World 0 []) ∧
    user_wf s' ∧ get_user_object h NTUSER_OBJ_MENU s' (World 0 []) = Some (Some 99, s', World 0 []) ∧
    (∀ h' i, resolve two_windows h' = Some i → resolve s' h' = Some i ∧ server_objects s' !! i = server_objects two_windows !! i).
Proof.
  apply (alloc_user_handle_correct 8 4 99 None NTUSER_OBJ_MENU); [apply two_windows_wf|left; done].
Defined.

(** C22: once the object of a full handle is freed, the handle is refused, and
    it stays refused after the entry has been reused for another object: the
    generation counter makes it stale. *)
Theorem freed_handle_stays_stale s w i g tid pid ptr shared type :
  user_wf s → resolve s (mk_handle i g) = Some i → 1 ≤ g < 0xffff →
  ∃ obj s1 h' s2, free_user_handle (mk_handle i g) s w = Some (obj, s1, w) ∧
    resolve s1 (mk_handle i g) = None ∧
    alloc_user_handle tid pid ptr shared type s1 w = Some (h', s2, w) ∧
    handle_index h' = i ∧ h' ≠ mk_handle i g ∧
    get_user_object (mk_handle i g) type s2 w = Some (None, s2, w).
Proof.
  intros Hwf Hres Hg. pose proof (resolve_range _ _ _ Hres) as [Hi Hti].
  assert (0 ≤ i < MAX_USER_HANDLES) as HiM by (pose proof (wf_nb s Hwf); lia).
  destruct (resolve_generation _ _ _ _ HiM Hg Hres) as (_ & Hgen & _).
  cut (wp (free_user_handle (mk_handle i g)) s w (λ _ s1 w1, w1 = w ∧ resolve s1 (mk_handle i g) = None ∧
    wp (alloc_user_handle tid pid ptr shared type) s1 w (λ h' s2 w2, w2 = w ∧ handle_index h' = i ∧
      h' ≠ mk_handle i g ∧ wp (get_user_object (mk_handle i g) type) s2 w (λ r s3 w3, r = None ∧ s3 = s2 ∧ w3 = w)))).
  { intros (obj & s1 & ? & ? & -> & ? & (h' & s2 & ? & ? & -> & ? & ? & ?%wp_exact)%wp_elim)%wp_elim.
    exists obj, s1, h', s2. eauto 10. }
  apply wp_free_user_handle; [done| |by rewrite Hres].
  intros j s1 Hj Hrel. pose proof (re_wf _ _ _ (with_object_wf j None s Hwf) Hrel) as Hwf1. destruct Hrel as [_ Hnb1 Hhead1 Ht1 Hg1 Hf1 Ho1]. rewrite Hres in Hj. injection Hj as <-. simpl in *.
  change (entry_at (with_object _ None s)) with (entry_at s) in *.
  split; [done|]. split.
  { destruct (resolve s1 _) as [k|] eqn:E; [|done].
    by destruct (resolve_generation _ _ _ _ HiM Hg E) as (-> & _ & []). }
  apply wp_alloc_user_handle; [done| |].
  { left. rewrite Hhead1. change MAX_USER_HANDLES with 32744 in *. unfold NO_FREE. lia. }
  intros k s2 Hal. pose proof (al_wf _ _ _ _ _ _ _ Hwf1 Hal) as Hwf2. destruct Hal as [_ Hk Hnb2 Hhead2 _ (g2 & He2 & Hg2 & Hne) _ _].
  assert (k = i) as ->.
  { rewrite Hhead2, Hhead1; [done|]. rewrite Hhead1. unfold NO_FREE. change MAX_USER_HANDLES with 32744 in *. lia. }
  rewrite He2. simpl. assert (g2 ≠ g) as Hg12 by (rewrite Hg1 in Hne; rewrite <- Hgen; apply Hne; lia).
  split; [done|]. split; [apply handle_index_mk; lia|]. split.
  { intros E. apply Hg12. rewrite <- (handle_generation_mk i g2), E by lia. apply handle_generation_mk; lia. }
  unfold get_user_object. wp_run. apply wp_handle_to_entry; [by apply with_object_wf|].
  rewrite resolve_with_object. destruct (resolve s2 (mk_handle i g)) as [k|] eqn:E; [|done].
  destruct (resolve_generation _ _ _ _ HiM Hg E) as (_ & E2 & _). by rewrite He2 in E2.
Qed.

Lemma freed_handle_stays_stale_witness :
  ∃ obj s1 h' s2, free_user_handle (mk_handle 0 1) two_windows (World 0 []) = Some (obj, s1, World 0 []) ∧
    resolve s1 (mk_handle 0 1) = None ∧
    alloc_user_handle 8 4 5 None NTUSER_OBJ_ICON s1 (World 0 []) = Some (h', s2, World 0 []) ∧
    handle_index h' = 0 ∧ h' ≠ mk_handle 0 1 ∧
    get_user_object (mk_handle 0 1) NTUSER_OBJ_ICON s2 (World 0 []) = Some (None, s2, World 0 []).
Proof. apply freed_handle_stays_stale; [apply two_windows_wf|reflexivity|lia]. Defined.

Lemma init_user_wf : user_lost [] init_user_state.
Proof. exists []. split; simpl; try done; try lia; [apply NoDup_nil_2|intros i; rewrite elem_of_nil; lia|]. split; [constructor|]. by intros i ?%not_elem_of_nil. Qed.

(** C23: from the empty table, any sequence of requests that allocates at most
    MAX_USER_HANDLES times runs to completion (no access outside the table)
    and leaves the table well formed: the free list is acyclic and holds
    exactly the entries of type 0, except for one entry for every object that a
    client has allocated with type 0, which is lost. *)
Theorem user_requests_safe ops w :
  allocs ops ≤ MAX_USER_HANDLES →
  ∃ s' w' lost, exec_ops ops init_user_state w = Some (tt, s', w') ∧ user_lost lost s' ∧ length lost = untyped ops.
Proof.
  intros Hn.
  cut (∀ l0 s, user_lost l0 s → nb_handles s + allocs ops ≤ MAX_USER_HANDLES →
    wp (exec_ops ops) s w (λ _ s' _, ∃ lost, user_lost lost s' ∧ length lost = (length l0 + untyped ops)%nat)).
  { intros H. destruct (wp_elim _ _ _ _ (H [] init_user_state init_user_wf Hn)) as ([] & s' & w' & E & lost & ? & ?). by exists s', w', lost. }
  clear Hn. revert w. induction ops as [|op ops IH]; intros w l0 s Hl Hbound; [cbn; apply wp_ret; exists l0; split; [done|unfold untyped; simpl; lia]|].
  rewrite untyped_cons. cbn [exec_ops]. rewrite wp_bind.
  unfold allocs in *. rewrite filter_cons in Hbound.
  eapply wp_mono; [apply (exec_op_wf l0); [done|]|].
  - intros Ha. rewrite decide_True in Hbound by done. simpl in Hbound. lia.
  - intros [] s' w' [(l1 & Hl1 & El1) Hnb]. eapply wp_mono; [apply (IH w' l1 s'); [done|]|].
    + case_decide as Ha; [rewrite Ha in Hnb; simpl in *; lia|]. destruct (is_alloc op); [done|]. lia.
    + intros _ s2 w2 (lost & ? & E). exists lost. split; [done|]. rewrite E, El1. lia.
Qed.

Lemma user_requests_safe_witness :
  ∃ s' w' lost, exec_ops [OpAlloc 1 2 3 None 1; OpFree 0x10020; OpAlloc 1 2 4 None 0; OpFreeProcess 2]
    init_user_state (World 0 []) = Some (tt, s', w') ∧ user_lost lost s' ∧ length lost = 1%nat.
Proof. apply user_requests_safe. vm_compute. discriminate. Defined.

(** The table is never checked for exhaustion: once all its entries are in
    use, [alloc_user_entry] takes entry MAX_USER_HANDLES, outside the array,
    although its caller [alloc_user_handle] tests for a failed allocation. *)
Theorem alloc_user_handle_full tid pid ptr shared type s w :
  user_wf s → ¬ has_room s → alloc_user_handle tid pid ptr shared type s w = None.
Proof.
  intros (lost & fl & []) Hfull. unfold has_room in Hfull.
  assert (freelist s = NO_FREE) as E by (destruct (decide (freelist s = NO_FREE)); [done|exfalso; auto]).
  assert (nb_handles s = MAX_USER_HANDLES) as En by lia.
  unfold alloc_user_handle, alloc_user_entry, bind, get, put, ret, write_entry.
  by rewrite E, En.
Qed.

(** A table whose first [n] entries are menus. *)
Definition menu_table (n : nat) : user_state := UserState
  (list_to_map ((λ i, (Z.of_nat i, UserEntry 0 8 4 0 NTUSER_OBJ_MENU 1)) <$> seq 0 n))
  ∅ NO_FREE (Z.of_nat n).

Lemma menu_table_entry n i :
  0 ≤ i < Z.of_nat n → entry_at (menu_table n) i = UserEntry 0 8 4 0 NTUSER_OBJ_MENU 1.
Proof.
  intros Hi. unfold entry_at, menu_table. cbn [user_entries].
  erewrite (elem_of_list_to_map_1 _ i); [done| |].
  - rewrite <- list_fmap_compose. apply NoDup_fmap_2_strong; [|apply NoDup_seq]. intros ????; simpl. lia.
  - apply list_elem_of_fmap. exists (Z.to_nat i). split; [f_equal; lia|].
    apply elem_of_seq. lia.
Qed.

Lemma menu_table_wf n : Z.of_nat n ≤ MAX_USER_HANDLES → user_wf (menu_table n).
Proof.
  intros Hn. exists [], []. split; cbn [nb_handles menu_table]; [lia|done|apply NoDup_nil_2| |by split; [constructor|intros i ?%not_elem_of_nil]|].
  - intros i. rewrite elem_of_nil. split; [done|]. intros (Hi & Ht & _).
    by rewrite menu_table_entry in Ht.
  - intros i Hi. by rewrite menu_table_entry.
Qed.

Lemma alloc_user_handle_full_witness :
  alloc_user_handle 8 4 99 None NTUSER_OBJ_MENU (menu_table (Z.to_nat MAX_USER_HANDLES)) (World 0 []) = None.
Proof.
  apply alloc_user_handle_full.
  - apply menu_table_wf. rewrite Z2Nat.id; [apply Z.le_refl|discriminate].
  - intros [H|H]; [by apply H|]. cbn [nb_handles menu_table] in H.
    rewrite Z2Nat.id in H; [by apply Z.lt_irrefl in H|discriminate].
Defined.
