(* ===== verification/Region.v ===== *)
(** * Regions (server/region.c)

    A region is a set of points of the plane, kept as a list of rectangles that
    is sorted into bands: the rectangles of a band share their top and bottom
    and are separated from left to right, and a band starts at or below the end
    of the one before. The operations of the file run two such lists in
    parallel, emit the result band by band, and merge a band into the previous
    one where they agree ([coalesce_region]).

    A pointer range [r, rEnd) of the code is the list of its rectangles. The
    routines called by [region_op] work on the region under construction, which
    is their state; the operations on region objects work on a store that maps
    region pointers to regions, so [dst] may be one of the sources. *)

From Stdlib Require Import Sorted.
From S2P Require Import Prelude.

Record rectangle := Rect { r_left : Z; r_top : Z; r_right : Z; r_bottom : Z }.

#[export] Instance rectangle_eq_dec : EqDecision rectangle.
Proof. solve_decision. Defined.

(** [num_rects] is the length of [rg_rects], [rg_size] the capacity of the array. *)
Record region := Region { rg_size : Z; rg_rects : list rectangle; rg_extents : rectangle }.

Definition RGN_DEFAULT_RECTS : Z := 2.
Definition empty_rect : rectangle := Rect 0 0 0 0.
Definition num_rects (g : region) : Z := Z.of_nat (length (rg_rects g)).

Definition set_rects (l : list rectangle) (g : region) : region :=
  Region (rg_size g) l (rg_extents g).
Definition set_size (n : Z) (g : region) : region := Region n (rg_rects g) (rg_extents g).
Definition set_extents (e : rectangle) (g : region) : region :=
  Region (rg_size g) (rg_rects g) e.
Definition set_bottom (b : Z) (r : rectangle) : rectangle := Rect (r_left r) (r_top r) (r_right r) b.
Definition set_right (x : Z) (r : rectangle) : rectangle := Rect (r_left r) (r_top r) x (r_bottom r).

(** ** Rectangles (user.h) *)

Definition is_rect_equal (a b : rectangle) : bool :=
  (r_left a =? r_left b) && (r_right a =? r_right b) &&
  (r_top a =? r_top b) && (r_bottom a =? r_bottom b).
Definition is_rect_empty (r : rectangle) : bool := (r_right r <=? r_left r) || (r_bottom r <=? r_top r).
Definition point_in_rect (r : rectangle) (x y : Z) : bool :=
  (r_left r <=? x) && (x <? r_right r) && (r_top r <=? y) && (y <? r_bottom r).
(** [EXTENTCHECK]: do two rectangles overlap? *)
Definition extent_check (r1 r2 : rectangle) : bool :=
  (r_left r2 <? r_right r1) && (r_left r1 <? r_right r2) &&
  (r_top r2 <? r_bottom r1) && (r_top r1 <? r_bottom r2).

(** Signed additions, whose overflow is undefined in C. *)
Definition is_int (z : Z) : bool := (- 2147483648 <=? z) && (z <=? INT_MAX).
Definition all_int (r : rectangle) : bool :=
  is_int (r_left r) && is_int (r_top r) && is_int (r_right r) && is_int (r_bottom r).
Definition offset_rect (r : rectangle) (x y : Z) : option rectangle :=
  let r' := Rect (r_left r + x) (r_top r + y) (r_right r + x) (r_bottom r + y) in
  if all_int r' then Some r' else None.
Definition mirror_rect (client r : rectangle) : option rectangle :=
  let width := r_right client - r_left client in
  let r' := Rect (width - r_right r) (r_top r) (width - r_left r) (r_bottom r) in
  if is_int width && all_int r' then Some r' else None.
(** [val * dpi_to] is computed in [unsigned int], and so is the quotient. *)
Definition scale_dpi (val dpi_from dpi_to : Z) : Z :=
  if 0 <=? val then s32 (u32 (u32 (val * dpi_to) + dpi_from / 2) / dpi_from)
  else s32 (u32 (u32 (val * dpi_to) - dpi_from / 2) / dpi_from).
Definition scale_dpi_rect (r : rectangle) (dpi_from dpi_to : Z) : rectangle :=
  Rect (scale_dpi (r_left r) dpi_from dpi_to) (scale_dpi (r_top r) dpi_from dpi_to)
       (scale_dpi (r_right r) dpi_from dpi_to) (scale_dpi (r_bottom r) dpi_from dpi_to).

(** ** Building the result of an operation *)

(** [add_rect], and the stores into the new rectangle that follow it. *)
Definition add_rect (r : rectangle) : M region bool :=
  let* g := get in
  let* ok :=
    (if rg_size g <=? num_rects g
     then let* mem := malloc in
          if mem then modify (set_size (2 * rg_size g)) >> ret true
          else set_error STATUS_NO_MEMORY >> ret false
     else ret true) in
  if negb ok then ret false else
  let* g := get in
  c_assert (num_rects g <? rg_size g) >>
  put (set_rects (rg_rects g ++ [r]) g) >>
  ret true.

Fixpoint validate_rectangles (l : list rectangle) : bool :=
  match l with
  | [] => true
  | a :: l' =>
      if is_rect_empty a then false else
      match l' with
      | [] => true
      | b :: _ =>
          if r_top a =? r_top b then
            if negb (r_bottom a =? r_bottom b) then false
            else if r_left b <=? r_right a then false
            else validate_rectangles l'
          else if r_top b <? r_bottom a then false
          else validate_rectangles l'
      end
  end.

(** The rectangles of the band that starts at the head of [l], and the rest:
    [while (end != rEnd && end->top == r->top) end++]. *)
Fixpoint band_length (t : Z) (l : list rectangle) : nat :=
  match l with
  | [] => 0
  | r :: l' => if r_top r =? t then S (band_length t l') else 0
  end.
Definition band_of (l : list rectangle) : list rectangle :=
  match l with [] => [] | r :: _ => take (band_length (r_top r) l) l end.
Definition after_band (l : list rectangle) : list rectangle :=
  match l with [] => [] | r :: _ => drop (band_length (r_top r) l) l end.

(** The start of the last band of a list with several bands. *)
Definition last_band (l : list rectangle) : nat :=
  length l - length (band_of (reverse l)).

Definition same_x (p c : rectangle) : bool := (r_left p =? r_left c) && (r_right p =? r_right c).

Definition coalesce_region (prevStart curStart : nat) : M region nat :=
  let* g := get in
  let rects := rg_rects g in
  c_assert (bool_decide (curStart < length rects)%nat) >>
  let cur := band_of (drop curStart rects) in
  let rest := after_band (drop curStart rects) in
  let prev := take (curStart - prevStart) (drop prevStart rects) in
  let curStart' := match rest with [] => curStart | _ => last_band rects end in
  match prev, cur with
  | p :: _, c :: _ =>
      if negb (length cur =? length prev)%nat then ret curStart' else
      if negb (r_bottom p =? r_top c) then ret curStart' else
      if negb (forallb (λ pc, same_x pc.1 pc.2) (zip prev cur)) then ret curStart' else
      let merged := zip_with (λ p c, set_bottom (r_bottom c) p) prev cur in
      put (set_rects (take prevStart rects ++ merged ++ rest) g) >>
      ret (match rest with [] => prevStart | _ => curStart' end)
  | _, _ => ret curStart'
  end.

(** *** The overlapping and non-overlapping bands of each operation

    Each iteration of the loops drops a rectangle of one of the bands, so the
    sum of their lengths is enough fuel. *)

Fixpoint intersect_overlapping (n : nat) (r1 r2 : list rectangle) (top bottom : Z) : M region bool :=
  match r1, r2 with
  | a :: r1', b :: r2' =>
      match n with
      | O => crash
      | S n' =>
          let left := Z.max (r_left a) (r_left b) in
          let right := Z.min (r_right a) (r_right b) in
          let* ok := (if left <? right then add_rect (Rect left top right bottom) else ret true) in
          if negb ok then ret false else
          if r_right a <? r_right b then intersect_overlapping n' r1' r2 top bottom
          else if r_right b <? r_right a then intersect_overlapping n' r1 r2' top bottom
          else intersect_overlapping n' r1' r2' top bottom
      end
  | _, _ => ret true
  end.

Fixpoint subtract_non_overlapping (r : list rectangle) (top bottom : Z) : M region bool :=
  match r with
  | [] => ret true
  | a :: r' =>
      let* ok := add_rect (Rect (r_left a) top (r_right a) bottom) in
      if negb ok then ret false else subtract_non_overlapping r' top bottom
  end.

(** [left = r1->left] when [r1 != r1End]. *)
Definition next_left (r1 : list rectangle) (left : Z) : Z :=
  match r1 with [] => left | a :: _ => r_left a end.

(** The tail loop of [subtract_overlapping]: [r2] is exhausted. *)
Fixpoint subtract_rest (left : Z) (r1 : list rectangle) (top bottom : Z) : M region bool :=
  match r1 with
  | [] => ret true
  | a :: r1' =>
      let* ok := add_rect (Rect left top (r_right a) bottom) in
      if negb ok then ret false else subtract_rest (next_left r1' left) r1' top bottom
  end.

Fixpoint subtract_loop (n : nat) (left : Z) (r1 r2 : list rectangle) (top bottom : Z) : M region bool :=
  match r1, r2 with
  | a :: r1', b :: r2' =>
      match n with
      | O => crash
      | S n' =>
          if r_right b <=? left then subtract_loop n' left r1 r2' top bottom
          else if r_left b <=? left then
            let left := r_right b in
            if r_right a <=? left then subtract_loop n' (next_left r1' left) r1' r2 top bottom
            else subtract_loop n' left r1 r2' top bottom
          else if r_left b <? r_right a then
            let* ok := add_rect (Rect left top (r_left b) bottom) in
            if negb ok then ret false else
            let left := r_right b in
            if r_right a <=? left then subtract_loop n' (next_left r1' left) r1' r2 top bottom
            else subtract_loop n' left r1 r2' top bottom
          else
            let* ok := (if left <? r_right a then add_rect (Rect left top (r_right a) bottom)
                        else ret true) in
            if negb ok then ret false else
            subtract_loop n' (next_left r1' left) r1' r2 top bottom
      end
  | _, _ => subtract_rest left r1 top bottom
  end.
Definition subtract_overlapping (n : nat) (r1 r2 : list rectangle) (top bottom : Z) : M region bool :=
  match r1 with
  | [] => crash
  | a :: _ => subtract_loop n (r_left a) r1 r2 top bottom
  end.

Definition union_non_overlapping := subtract_non_overlapping.

(** The macro [MERGERECT]. *)
Definition mergerect (r : rectangle) (top bottom : Z) : M region bool :=
  let* g := get in
  match last (rg_rects g) with
  | Some p =>
      if (r_top p =? top) && (r_bottom p =? bottom) && (r_left r <=? r_right p) then
        when (r_right p <? r_right r)
          (put (set_rects (alter (set_right (r_right r)) (pred (length (rg_rects g))) (rg_rects g)) g)) >>
        ret true
      else add_rect (Rect (r_left r) top (r_right r) bottom)
  | None => add_rect (Rect (r_left r) top (r_right r) bottom)
  end.

Fixpoint merge_all (r : list rectangle) (top bottom : Z) : M region bool :=
  match r with
  | [] => ret true
  | a :: r' =>
      let* ok := mergerect a top bottom in
      if negb ok then ret false else merge_all r' top bottom
  end.

Fixpoint union_overlapping (n : nat) (r1 r2 : list rectangle) (top bottom : Z) : M region bool :=
  match r1, r2 with
  | a :: r1', b :: r2' =>
      match n with
      | O => crash
      | S n' =>
          if r_left a <? r_left b then
            let* ok := mergerect a top bottom in
            if negb ok then ret false else union_overlapping n' r1' r2 top bottom
          else
            let* ok := mergerect b top bottom in
            if negb ok then ret false else union_overlapping n' r1 r2' top bottom
      end
  | _ :: _, [] => merge_all r1 top bottom
  | [], _ => merge_all r2 top bottom
  end.

(** ** [region_op] *)

Section RegionOp.

Context (overlap_func : list rectangle → list rectangle → Z → Z → M region bool).
Context (non_overlap1_func non_overlap2_func : option (list rectangle → Z → Z → M region bool)).

Definition call_non_overlap (f : option (list rectangle → Z → Z → M region bool))
    (r : list rectangle) (top bot : Z) : M region bool :=
  match f with Some f => f r top bot | None => ret true end.

(** [if (newReg->num_rects != curBand) prevBand = coalesce_region(...)] *)
Definition coalesce_new (prevBand curBand : nat) : M region nat :=
  let* g := get in
  if (length (rg_rects g) =? curBand)%nat then ret prevBand else coalesce_region prevBand curBand.

(** The main loop; each iteration ends a band of [r1] or of [r2]. [None] is [goto done]. *)
Fixpoint op_loop (n : nat) (r1 r2 : list rectangle) (ybot : Z) (prevBand : nat)
    : M region (option (list rectangle * list rectangle * Z * nat)) :=
  match n, r1, r2 with
  | S n', a :: _, b :: _ =>
      let* g := get in
      let curBand := length (rg_rects g) in
      let* ok :=
        (if r_top a <? r_top b then
           let top := Z.max (r_top a) ybot in
           let bot := Z.min (r_bottom a) (r_top b) in
           if top =? bot then ret true else call_non_overlap non_overlap1_func (band_of r1) top bot
         else if r_top b <? r_top a then
           let top := Z.max (r_top b) ybot in
           let bot := Z.min (r_bottom b) (r_top a) in
           if top =? bot then ret true else call_non_overlap non_overlap2_func (band_of r2) top bot
         else ret true) in
      if negb ok then ret None else
      let ytop := if r_top a <? r_top b then r_top b else r_top a in
      let* prevBand := coalesce_new prevBand curBand in
      let ybot := Z.min (r_bottom a) (r_bottom b) in
      let* g := get in
      let curBand := length (rg_rects g) in
      let* ok := (if ytop <? ybot then overlap_func (band_of r1) (band_of r2) ytop ybot else ret true) in
      if negb ok then ret None else
      let* prevBand := coalesce_new prevBand curBand in
      let r1' := if r_bottom a =? ybot then after_band r1 else r1 in
      let r2' := if r_bottom b =? ybot then after_band r2 else r2 in
      match r1', r2' with
      | _ :: _, _ :: _ => op_loop n' r1' r2' ybot prevBand
      | _, _ => ret (Some (r1', r2', ybot, prevBand))
      end
  | _, _, _ => crash
  end.

(** The loop over the bands that remain when one region is exhausted. *)
Fixpoint rest_loop (n : nat) (f : list rectangle → Z → Z → M region bool)
    (r : list rectangle) (ybot : Z) : M region bool :=
  match r with
  | [] => ret true
  | a :: _ =>
      match n with
      | O => crash
      | S n' =>
          let* ok := f (band_of r) (Z.max (r_top a) ybot) (r_bottom a) in
          if negb ok then ret false else rest_loop n' f (after_band r) ybot
      end
  end.

Definition op_rest (r1 r2 : list rectangle) (ybot : Z) : M region bool :=
  match r1, r2 with
  | _ :: _, _ => match non_overlap1_func with
                 | Some f => rest_loop (length r1) f r1 ybot
                 | None => ret true
                 end
  | [], _ :: _ => match non_overlap2_func with
                  | Some f => rest_loop (length r2) f r2 ybot
                  | None => ret true
                  end
  | [], [] => ret true
  end.

(** Give back the memory of a result that uses less than half of its array. *)
Definition shrink_region : M region unit :=
  let* g := get in
  if (num_rects g <? rg_size g / 2) && (2 <? rg_size g) then
    let* mem := malloc in
    when mem (put (set_size (Z.max (num_rects g) RGN_DEFAULT_RECTS) g))
  else ret tt.

(** The arrays of [reg1] and [reg2] stay allocated until the end, even when
    [newReg] is one of them. *)
Definition region_op (reg1 reg2 : region) : M region bool :=
  let* mem := mem_alloc in
  if negb mem then ret false else
  let* g := get in
  put (Region (Z.max (num_rects reg1) (num_rects reg2) * 2) [] (rg_extents g)) >>
  let ybot := if r_top (rg_extents reg1) <? r_top (rg_extents reg2)
              then r_top (rg_extents reg1) else r_top (rg_extents reg2) in
  let* res := op_loop (length (rg_rects reg1) + length (rg_rects reg2))
                      (rg_rects reg1) (rg_rects reg2) ybot 0 in
  match res with
  | None => ret false
  | Some (r1, r2, ybot, prevBand) =>
      let* g := get in
      let curBand := length (rg_rects g) in
      let* ok := op_rest r1 r2 ybot in
      if negb ok then ret false else
      coalesce_new prevBand curBand >>
      shrink_region >>
      ret true
  end.

End RegionOp.

(** ** Operations on region objects *)

Abbreviation regions := (gmap Z region).

(** The rectangle computed by [set_region_extents]; only the sides are searched. *)
Definition extents_of (l : list rectangle) : rectangle :=
  match l with
  | [] => empty_rect
  | r :: _ =>
      let z := List.last l r in
      Rect (foldl (λ m a, Z.min m (r_left a)) (r_left r) l) (r_top r)
           (foldl (λ m a, Z.max m (r_right a)) (r_right z) l) (r_bottom z)
  end.
Definition set_region_extents : M region unit :=
  let* g := get in put (set_extents (extents_of (rg_rects g)) g).

Definition create_empty_region : M regions (option Z) :=
  let* mem := mem_alloc in
  if negb mem then ret None else
  let* mem := mem_alloc in
  if negb mem then ret None else
  let* st := get in
  put (<[new_key st := Region RGN_DEFAULT_RECTS [] empty_rect]> st) >>
  ret (Some (new_key st)).

(** [data] holds the complete rectangles of the request data. *)
Definition create_region_from_req_data (data : list rectangle) : M regions (option Z) :=
  let rects := if bool_decide (data = [empty_rect]) then [] else data in
  if negb (validate_rectangles rects) then set_error STATUS_INVALID_PARAMETER >> ret None else
  let* mem := mem_alloc in
  if negb mem then ret None else
  let* mem := mem_alloc in
  if negb mem then ret None else
  let* st := get in
  put (<[new_key st := Region (Z.max (Z.of_nat (length rects)) RGN_DEFAULT_RECTS) rects
                              (extents_of rects)]> st) >>
  ret (Some (new_key st)).

Definition free_region (p : Z) : M regions unit :=
  read_object p >> modify (delete p).

Definition set_region_rect (p : Z) (r : rectangle) : M regions unit :=
  on_object p (
    let* g := get in
    if negb (is_rect_empty r) then
      c_assert (0 <? rg_size g) >> put (Region (rg_size g) [r] r)
    else put (Region (rg_size g) [] empty_rect)).

Definition rect_bytes : Z := 16.

(** The rectangles sent to the client, and the total size. *)
Definition get_region_data (p : Z) (max_size : Z) : M regions (option (list rectangle) * Z) :=
  let* g := read_object p in
  let data := match rg_rects g with [] => [empty_rect] | l => l end in
  let total_size := Z.of_nat (length data) * rect_bytes in
  if total_size <=? max_size then
    let* mem := mem_alloc in
    ret (if mem then Some data else None, total_size)
  else set_error STATUS_BUFFER_OVERFLOW >> ret (None, total_size).

Definition get_region_data_and_free (p : Z) (max_size : Z)
    : M regions (option (list rectangle) * Z) :=
  let* g := read_object p in
  match rg_rects g with
  | [] =>
      let total_size := rect_bytes in
      if total_size <=? max_size then
        let* mem := mem_alloc in
        free_region p >> ret (if mem then Some [empty_rect] else None, total_size)
      else set_error STATUS_BUFFER_OVERFLOW >> free_region p >> ret (None, total_size)
  | l =>
      let total_size := Z.of_nat (length l) * rect_bytes in
      if max_size <? total_size then
        set_error STATUS_BUFFER_OVERFLOW >> free_region p >> ret (None, total_size)
      else free_region p >> ret (Some l, total_size)
  end.

Definition is_region_empty (g : region) : bool := num_rects g =? 0.

Definition is_region_equal (g1 g2 : region) : bool :=
  if negb (num_rects g1 =? num_rects g2) then false
  else if num_rects g1 =? 0 then true
  else if negb (is_rect_equal (rg_extents g1) (rg_extents g2)) then false
  else forallb (λ ab, is_rect_equal ab.1 ab.2) (zip (rg_rects g1) (rg_rects g2)).

Definition get_region_extents (g : region) : rectangle := rg_extents g.

Definition lift_option {S A} (o : option A) : M S A :=
  match o with Some a => ret a | None => crash end.

Definition offset_region (p x y : Z) : M regions unit :=
  on_object p (
    let* g := get in
    if num_rects g =? 0 then ret tt else
    let* l := lift_option (mapM (λ r, offset_rect r x y) (rg_rects g)) in
    let* e := lift_option (offset_rect (rg_extents g) x y) in
    put (Region (rg_size g) l e)).

(** The exchange loop over [rects[i..j]]; the code saves [rects[j]] in [rect]. *)
Fixpoint mirror_band (n : nat) (client : rectangle) (l : list rectangle) (i j : nat)
    : option (list rectangle) :=
  match n with
  | O => None
  | S n' =>
      if (i <? j)%nat then
        rect ← l !! j;
        let l := <[j := rect]> (<[i := rect]> l) in
        rj ← l !! j ≫= mirror_rect client;
        let l := <[j := rj]> l in
        ri ← l !! i ≫= mirror_rect client;
        mirror_band n' client (<[i := ri]> l) (S i) (pred j)
      else if (i =? j)%nat then
        ri ← l !! i ≫= mirror_rect client;
        Some (<[i := ri]> l)
      else Some l
  end.
Fixpoint mirror_bands (n : nat) (client : rectangle) (l : list rectangle) (start : nat)
    : option (list rectangle) :=
  match drop start l with
  | [] => Some l
  | rest =>
      match n with
      | O => None
      | S n' =>
          let fin := (start + length (band_of rest) - 1)%nat in
          l' ← mirror_band (S (length l)) client l start fin;
          mirror_bands n' client l' (S fin)
      end
  end.
Definition mirror_region (client : rectangle) (p : Z) : M regions unit :=
  on_object p (
    let* g := get in
    let* l := lift_option (mirror_bands (length (rg_rects g)) client (rg_rects g) 0) in
    let* e := lift_option (mirror_rect client (rg_extents g)) in
    put (Region (rg_size g) l e)).

Definition scale_region (p dpi_from dpi_to : Z) : M regions unit :=
  on_object p (
    let* g := get in
    if num_rects g =? 0 then ret tt else
    c_assert (negb (dpi_from =? 0)) >>
    put (Region (rg_size g) (map (λ r, scale_dpi_rect r dpi_from dpi_to) (rg_rects g))
                (scale_dpi_rect (rg_extents g) dpi_from dpi_to))).

Definition copy_region (dst src : Z) : M regions (option Z) :=
  if dst =? src then ret (Some dst) else
  let* g := read_object src in
  let* ok := on_object dst (
    let* d := get in
    if rg_size d <? num_rects g then
      let* mem := malloc in
      if mem then put (set_size (num_rects g) d) >> ret true
      else set_error STATUS_NO_MEMORY >> ret false
    else ret true) in
  if negb ok then ret None else
  on_object dst (modify (λ d, Region (rg_size d) (rg_rects g) (rg_extents g))) >>
  ret (Some dst).

Definition overlapping (f : nat → list rectangle → list rectangle → Z → Z → M region bool)
    (r1 r2 : list rectangle) : Z → Z → M region bool :=
  f (length r1 + length r2)%nat r1 r2.

Definition intersect_region (dst src1 src2 : Z) : M regions (option Z) :=
  let* g1 := read_object src1 in
  let* g2 := read_object src2 in
  if (num_rects g1 =? 0) || (num_rects g2 =? 0) ||
     negb (extent_check (rg_extents g1) (rg_extents g2)) then
    on_object dst (modify (λ d, Region (rg_size d) [] empty_rect)) >> ret (Some dst)
  else
    let* ok := on_object dst (region_op (overlapping intersect_overlapping) None None g1 g2) in
    if negb ok then ret None else
    on_object dst set_region_extents >> ret (Some dst).

Definition subtract_region (dst src1 src2 : Z) : M regions (option Z) :=
  let* g1 := read_object src1 in
  let* g2 := read_object src2 in
  if (num_rects g1 =? 0) || (num_rects g2 =? 0) ||
     negb (extent_check (rg_extents g1) (rg_extents g2)) then copy_region dst src1
  else
    let* ok := on_object dst (region_op (overlapping subtract_overlapping)
                                        (Some subtract_non_overlapping) None g1 g2) in
    if negb ok then ret None else
    on_object dst set_region_extents >> ret (Some dst).

(** A single rectangle that contains the extents of the other region. *)
Definition covers (g1 g2 : region) : bool :=
  let e1 := rg_extents g1 in let e2 := rg_extents g2 in
  (num_rects g1 =? 1) &&
  (r_left e1 <=? r_left e2) && (r_top e1 <=? r_top e2) &&
  (r_right e2 <=? r_right e1) && (r_bottom e2 <=? r_bottom e1).

Definition join_rect (a b : rectangle) : rectangle :=
  Rect (Z.min (r_left a) (r_left b)) (Z.min (r_top a) (r_top b))
       (Z.max (r_right a) (r_right b)) (Z.max (r_bottom a) (r_bottom b)).

Definition union_region (dst src1 src2 : Z) : M regions (option Z) :=
  if src1 =? src2 then copy_region dst src1 else
  let* g1 := read_object src1 in
  let* g2 := read_object src2 in
  if num_rects g1 =? 0 then copy_region dst src2 else
  if num_rects g2 =? 0 then copy_region dst src1 else
  if covers g1 g2 then copy_region dst src1 else
  if covers g2 g1 then copy_region dst src2 else
  let* ok := on_object dst (region_op (overlapping union_overlapping) (Some union_non_overlapping)
                                      (Some union_non_overlapping) g1 g2) in
  if negb ok then ret None else
  (* the extents of the sources are read from the store: [dst] may be one of them *)
  let* g1 := read_object src1 in
  let* g2 := read_object src2 in
  on_object dst (modify (set_extents (join_rect (rg_extents g1) (rg_extents g2)))) >>
  ret (Some dst).

Definition xor_region (dst src1 src2 : Z) : M regions (option Z) :=
  let* tmp := create_empty_region in
  match tmp with
  | None => ret None
  | Some tmp =>
      let* r := subtract_region tmp src1 src2 in
      let* r := match r with None => ret None | Some _ => subtract_region dst src2 src1 end in
      let* r := match r with None => ret None | Some _ => union_region dst dst tmp end in
      free_region tmp >>
      ret (match r with None => None | Some _ => Some dst end)
  end.

Fixpoint point_in_rects (l : list rectangle) (x y : Z) : bool :=
  match l with
  | [] => false
  | r :: l' =>
      if y <? r_top r then false
      else if r_bottom r <=? y then point_in_rects l' x y
      else if x <? r_left r then false
      else if r_right r <=? x then point_in_rects l' x y
      else true
  end.
Definition point_in_region (g : region) (x y : Z) : bool := point_in_rects (rg_rects g) x y.

Fixpoint rect_in_rects (l : list rectangle) (rect : rectangle) : bool :=
  match l with
  | [] => false
  | r :: l' =>
      if r_bottom rect <=? r_top r then false
      else if r_bottom r <=? r_top rect then rect_in_rects l' rect
      else if r_right rect <=? r_left r then rect_in_rects l' rect
      else if r_right r <=? r_left rect then rect_in_rects l' rect
      else true
  end.
Definition rect_in_region (g : region) (rect : rectangle) : bool := rect_in_rects (rg_rects g) rect.

(** ** Lists of rectangles as sets of points *)

Definition inb (l : list rectangle) (x y : Z) : bool := existsb (λ r, point_in_rect r x y) l.
Definition in_region (g : region) (x y : Z) : bool := inb (rg_rects g) x y.

Definition nonempty (r : rectangle) : Prop := r_left r < r_right r ∧ r_top r < r_bottom r.
(** [a] comes before [b]: to its left in the same band, or in a band above. *)
Definition before (a b : rectangle) : Prop :=
  (r_top a = r_top b ∧ r_bottom a = r_bottom b ∧ r_right a < r_left b) ∨ r_bottom a ≤ r_top b.
Definition banded (l : list rectangle) : Prop := Forall nonempty l ∧ StronglySorted before l.

Lemma point_in_rect_spec r x y :
  point_in_rect r x y = true ↔ r_left r ≤ x < r_right r ∧ r_top r ≤ y < r_bottom r.
Proof. unfold point_in_rect. lia. Qed.

Lemma inb_spec l x y : inb l x y = true ↔ ∃ r, r ∈ l ∧ point_in_rect r x y = true.
Proof. unfold inb. rewrite existsb_exists. by setoid_rewrite list_elem_of_In. Qed.

Lemma inb_app l1 l2 x y : inb (l1 ++ l2) x y = inb l1 x y || inb l2 x y.
Proof. apply existsb_app. Qed.

Lemma inb_false l x y : inb l x y = false ↔ ∀ r, r ∈ l → point_in_rect r x y = false.
Proof.
  rewrite <- not_true_iff_false, inb_spec. split.
  - intros H r Hr. apply not_true_iff_false. eauto.
  - intros H (r & Hr & Hp). rewrite H in Hp; done.
Qed.

Lemma before_trans a b c : nonempty a → nonempty b → nonempty c → before a b → before b c → before a c.
Proof. unfold nonempty, before. lia. Qed.

Lemma banded_nil : banded [].
Proof. by repeat constructor. Qed.

Lemma banded_cons a l : banded (a :: l) ↔ nonempty a ∧ banded l ∧ ∀ b, b ∈ l → before a b.
Proof.
  unfold banded. rewrite Forall_cons. split.
  - intros [[? ?] Hs]. apply StronglySorted_inv in Hs as [Hs Hf].
    split_and!; [done..|]. by apply Forall_forall.
  - intros (? & [? ?] & Hf). split; [done|]. constructor; [done|]. by apply Forall_forall.
Qed.

Lemma banded_app l1 l2 :
  banded (l1 ++ l2) ↔ banded l1 ∧ banded l2 ∧ ∀ a b, a ∈ l1 → b ∈ l2 → before a b.
Proof.
  induction l1 as [|a l1 IH]; cbn [app].
  - split; [|naive_solver]. intros. split_and!; [apply banded_nil|done|]. set_solver.
  - rewrite !banded_cons, IH. setoid_rewrite elem_of_cons. setoid_rewrite elem_of_app. naive_solver.
Qed.

(** The run-time check of the code decides [banded]. *)
Lemma validate_rectangles_banded l : validate_rectangles l = true ↔ banded l.
Proof.
  induction l as [|a [|b l] IH].
  - split; [intros; apply banded_nil|done].
  - rewrite banded_cons. cbn. unfold is_rect_empty, nonempty. split.
    + destruct (_ || _) eqn:E; [done|]. intros _. split_and!; [lia..|apply banded_nil|set_solver].
    + intros ([? ?] & _). destruct (_ || _) eqn:E; [lia|done].
  - rewrite banded_cons.
    transitivity (nonempty a ∧ before a b ∧ banded (b :: l)).
    + cbn [validate_rectangles]. rewrite <- IH. unfold is_rect_empty, nonempty, before.
      destruct (_ || _) eqn:E; [lia|]. destruct (Z.eqb_spec (r_top a) (r_top b)).
      * destruct (Z.eqb_spec (r_bottom a) (r_bottom b)); cbn [negb]; [|lia].
        destruct (Z.leb_spec (r_left b) (r_right a)); [lia|]. intuition lia.
      * destruct (Z.ltb_spec (r_top b) (r_bottom a)); [lia|]. intuition lia.
    + rewrite banded_cons. setoid_rewrite elem_of_cons. split; [|naive_solver].
      intros (Ha & Hab & Hb & Hl & Hbl). split_and!; try done. intros c [->|Hc]; [done|].
      apply (before_trans a b c); auto. destruct Hl as [Hl _]. rewrite Forall_forall in Hl. auto.
Qed.

#[export] Instance banded_dec l : Decision (banded l).
Proof. refine (cast_if (decide (validate_rectangles l = true))); by rewrite <- validate_rectangles_banded. Defined.

(** *** Bands *)

(** A band seen from above: the abscissas it covers. *)
Definition xin (l : list rectangle) (x : Z) : bool := existsb (λ r, (r_left r <=? x) && (x <? r_right r)) l.
(** [l] is (part of) one band, from [t] to [b]. *)
Definition strip (t b : Z) (l : list rectangle) : Prop :=
  banded l ∧ ∀ r, r ∈ l → r_top r = t ∧ r_bottom r = b.

Lemma strip_nil t b : strip t b [].
Proof. split; [apply banded_nil|set_solver]. Qed.

Lemma strip_cons t b a l :
  strip t b (a :: l) ↔ nonempty a ∧ r_top a = t ∧ r_bottom a = b ∧ strip t b l ∧ ∀ r, r ∈ l → r_right a < r_left r.
Proof.
  unfold strip. rewrite banded_cons. setoid_rewrite elem_of_cons. split.
  - intros [(Ha & Hl & Hb) Hr]. pose proof (Hr a (or_introl eq_refl)).
    split_and!; try tauto; [eauto|]. intros r Hr'. specialize (Hb r Hr'). specialize (Hr r (or_intror Hr')).
    unfold before, nonempty in *. lia.
  - intros (Ha & ? & ? & [Hl Hr] & Hg). split_and!; [done|done| |naive_solver].
    intros r Hr'. specialize (Hr r Hr'). specialize (Hg r Hr'). unfold before. lia.
Qed.

Lemma strip_app t b l1 l2 :
  strip t b (l1 ++ l2) ↔ strip t b l1 ∧ strip t b l2 ∧ ∀ r1 r2, r1 ∈ l1 → r2 ∈ l2 → r_right r1 < r_left r2.
Proof.
  induction l1 as [|a l1 IH]; cbn [app].
  - split; [|naive_solver]. intros. split_and!; [apply strip_nil|done|set_solver].
  - rewrite !strip_cons, IH. setoid_rewrite elem_of_app. setoid_rewrite elem_of_cons. naive_solver.
Qed.

Lemma xin_spec l x : xin l x = true ↔ ∃ r, r ∈ l ∧ r_left r ≤ x < r_right r.
Proof.
  unfold xin. rewrite existsb_exists. setoid_rewrite list_elem_of_In. split; intros (r & ? & ?); exists r; split; auto; lia.
Qed.

Lemma xin_cons a l x : xin (a :: l) x = (r_left a <=? x) && (x <? r_right a) || xin l x.
Proof. done. Qed.

Lemma xin_app l1 l2 x : xin (l1 ++ l2) x = xin l1 x || xin l2 x.
Proof. apply existsb_app. Qed.

Lemma inb_strip t b l x y : strip t b l → inb l x y = (t <=? y) && (y <? b) && xin l x.
Proof.
  induction l as [|a l IH]; intros H.
  - cbn. by rewrite andb_false_r.
  - apply strip_cons in H as (? & ? & ? & Hl & _). rewrite xin_cons.
    change (inb (a :: l) x y) with (point_in_rect a x y || inb l x y).
    rewrite IH by done. unfold point_in_rect. destruct (xin l x); lia.
Qed.

(** The abscissas of a band beyond its first rectangle are beyond its right side. *)
Lemma strip_xin_gt t b a l x : strip t b (a :: l) → xin l x = true → r_right a < x.
Proof.
  rewrite strip_cons, xin_spec. intros (_ & _ & _ & _ & H) (r & Hr & ?). specialize (H r Hr). lia.
Qed.

(** *** The routines that emit a band *)

Definition room (g : region) : Prop := 2 ≤ rg_size g ∧ num_rects g ≤ rg_size g.

Lemma wp_add_rect r g w Q :
  room g →
  (∀ ok g' w', outcome w w' ok → room g' → rg_extents g' = rg_extents g →
     (ok = true → rg_rects g' = rg_rects g ++ [r]) → Q ok g' w') →
  wp (add_rect r) g w Q.
Proof.
  intros [H2 Hn] HQ. unfold add_rect. wp_run. destruct (Z.leb_spec (rg_size g) (num_rects g)).
  - wp_run. apply wp_malloc. intros [] w' He Hm; wp_run.
    + split; [unfold num_rects, set_size in *; cbn; lia|].
      apply HQ; [split; [done|naive_solver]| |done|done]. unfold room, num_rects in *; cbn. rewrite length_app; cbn. lia.
    + apply HQ; [|done..]. split; [done|]. naive_solver.
  - wp_run. split; [lia|]. apply HQ; [done| |done|done].
    unfold room, num_rects in *; cbn. rewrite length_app; cbn. lia.
Qed.

(** [m] emits a band from [t] to [b] that covers the abscissas in [f]; [P]
    bounds the left sides of its rectangles. *)
Definition emits (m : M region bool) (t b : Z) (P : Z → Prop) (f : Z → bool) : Prop :=
  ∀ g w, room g → wp m g w (λ ok g' w', outcome w w' ok ∧ room g' ∧ rg_extents g' = rg_extents g ∧
    (ok = true → ∃ e, rg_rects g' = rg_rects g ++ e ∧ strip t b e ∧ (∀ r, r ∈ e → P (r_left r)) ∧
       ∀ x, xin e x = f x)).

Lemma emits_ret t b P f : (∀ x, f x = false) → emits (ret true) t b P f.
Proof.
  intros Hf g w Hg. apply wp_ret. split_and!; [done..|]. intros _. exists [].
  rewrite app_nil_r. split_and!; [done|apply strip_nil|set_solver|done].
Qed.

Lemma emits_weaken m t b (P P' : Z → Prop) f f' :
  emits m t b P' f' → (∀ z, P' z → P z) → (∀ x, f' x = f x) → emits m t b P f.
Proof.
  intros H HP Hf g w Hg. eapply wp_mono; [by apply H|]. intros ok g' w' (? & ? & ? & He).
  split_and!; [done..|]. intros Hok. destruct (He Hok) as (e & ? & ? & ? & Hx).
  exists e. split_and!; auto. intros x. by rewrite <- Hf.
Qed.

Lemma emits_add m t b (P P' : Z → Prop) f f' l r :
  l < r → t < b → P l → (∀ z, P' z → r < z ∧ P z) → emits m t b P' f' →
  (∀ x, f x = (l <=? x) && (x <? r) || f' x) →
  emits (let* ok := add_rect (Rect l t r b) in if negb ok then ret false else m) t b P f.
Proof.
  intros Hlr Htb HPl HP Hm Hf g w Hg. wp_run. apply wp_add_rect; [done|].
  intros [] g' w' Ho Hg' He Hr; cbn [negb]; [|by rewrite wp_ret]. specialize (Hr eq_refl).
  eapply wp_mono; [by apply Hm|]. cbn beta. intros ok g2 w2 (Ho2 & ? & ? & Hok).
  split_and!; [by eapply outcome_trans|done|congruence|]. intros ->.
  destruct (Hok eq_refl) as (e & E & Hs & Hl & Hx). exists (Rect l t r b :: e).
  rewrite E, Hr, <- app_assoc. split_and!; [done| | |].
  - rewrite strip_cons. split_and!; [done..|]. intros c Hc. cbn. by apply HP, Hl.
  - intros c [->|Hc]%elem_of_cons; [done|]. by apply HP, Hl.
  - intros x. rewrite xin_cons, Hf, Hx. done.
Qed.

Lemma emits_skip m t b P f :
  emits m t b P f → emits (let* ok := ret true in if negb ok then ret false else m) t b P f.
Proof. intros H g w Hg. wp_run. by apply H. Qed.

Lemma intersect_emits n r1 r2 t1 b1 t2 b2 t b :
  (length r1 + length r2 ≤ n)%nat → strip t1 b1 r1 → strip t2 b2 r2 → t < b →
  emits (intersect_overlapping n r1 r2 t b) t b
    (λ z, (∃ r, r ∈ r1 ∧ r_left r ≤ z) ∧ (∃ r, r ∈ r2 ∧ r_left r ≤ z)) (λ x, xin r1 x && xin r2 x).
Proof.
  intros Hn H1 H2 Htb. revert r1 r2 Hn H1 H2.
  induction n as [|n IH]; intros [|a r1] [|c r2] Hn H1 H2; cbn in Hn; try lia;
    try (apply emits_ret; intros; by rewrite ?andb_false_r).
  cbn [intersect_overlapping].
  pose proof (strip_xin_gt t1 b1 a r1) as G1. pose proof (strip_xin_gt t2 b2 c r2) as G2.
  pose proof H1 as (Na & _ & _ & S1 & L1)%strip_cons. pose proof H2 as (Nc & _ & _ & S2 & L2)%strip_cons.
  set (P := λ z, (∃ r, r ∈ a :: r1 ∧ r_left r ≤ z) ∧ (∃ r, r ∈ c :: r2 ∧ r_left r ≤ z)).
  assert (HP : P (Z.max (r_left a) (r_left c))).
  { split; [exists a|exists c]; (split; [apply elem_of_cons; by left|lia]). }
  assert (∃ P' f', emits (if r_right a <? r_right c then intersect_overlapping n r1 (c :: r2) t b
          else if r_right c <? r_right a then intersect_overlapping n (a :: r1) r2 t b
          else intersect_overlapping n r1 r2 t b) t b P' f' ∧
          (∀ z, P' z → Z.min (r_right a) (r_right c) < z ∧ P z) ∧
          (∀ x, xin (a :: r1) x && xin (c :: r2) x =
             (Z.max (r_left a) (r_left c) <=? x) && (x <? Z.min (r_right a) (r_right c)) || f' x))
    as (P' & f' & Hm & HP' & Hf).
  { unfold nonempty in *.
    destruct (Z.ltb_spec (r_right a) (r_right c)); [|destruct (Z.ltb_spec (r_right c) (r_right a))];
      eexists _, _; (split; [apply IH; cbn; auto; lia|split]);
      try (intros z [(r & Hr & ?) (r' & Hr' & ?)]; split;
           [try specialize (L1 r Hr); try specialize (L2 r' Hr'); lia|
            split; [exists r|exists r']; rewrite ?elem_of_cons in *; tauto]);
      intros x; rewrite ?xin_cons; specialize (G1 x H1); specialize (G2 x H2);
      destruct (xin r1 x), (xin r2 x); lia. }
  destruct (Z.ltb_spec (Z.max (r_left a) (r_left c)) (Z.min (r_right a) (r_right c))).
  - by eapply emits_add.
  - apply emits_skip. eapply emits_weaken; [done|naive_solver|]. intros x. cbn beta. rewrite Hf. destruct (f' x); lia.
Qed.

Lemma subtract_non_emits r t1 b1 t b :
  strip t1 b1 r → t < b →
  emits (subtract_non_overlapping r t b) t b (λ z, ∃ c, c ∈ r ∧ r_left c ≤ z) (xin r).
Proof.
  intros Hr Htb. induction r as [|a r IH]; [by apply emits_ret|].
  apply strip_cons in Hr as (Na & _ & _ & S & L). cbn [subtract_non_overlapping].
  eapply emits_add; [apply Na|done| |..]; [| |by apply IH|done].
  - exists a. split; [apply elem_of_cons; by left|lia].
  - cbn. intros z (c & Hc & ?). specialize (L c Hc). split; [lia|]. exists c. rewrite elem_of_cons. auto.
Qed.

(** The cursor [left] is inside the first rectangle of [r1]. *)
Definition cursor (left : Z) (r1 : list rectangle) : Prop :=
  match r1 with [] => True | a :: _ => r_left a ≤ left < r_right a end.

Lemma cursor_next t b r1 left : strip t b r1 → cursor (next_left r1 left) r1.
Proof. destruct r1 as [|a r1]; [done|]. rewrite strip_cons. unfold nonempty. cbn. lia. Qed.

Lemma xin_next t b r1 left x : strip t b r1 → (next_left r1 left <=? x) && xin r1 x = xin r1 x.
Proof.
  destruct r1 as [|a r1]; intros H; [cbn; by rewrite andb_false_r|].
  rewrite xin_cons. pose proof (strip_xin_gt _ _ _ _ x H). apply strip_cons in H as (Na & _).
  unfold nonempty in *. cbn. destruct (xin r1 x); lia.
Qed.

Lemma next_left_gt t b a r1 left z :
  strip t b (a :: r1) → r1 ≠ [] → next_left r1 left ≤ z → r_right a < z.
Proof.
  rewrite strip_cons. intros (_ & _ & _ & _ & L). destruct r1 as [|c r1]; [done|]. cbn. intros _.
  specialize (L c). rewrite elem_of_cons in L. specialize (L (or_introl eq_refl)). lia.
Qed.

Lemma subtract_rest_emits left r1 t1 b1 t b :
  strip t1 b1 r1 → t < b → cursor left r1 →
  emits (subtract_rest left r1 t b) t b (λ z, r1 ≠ [] ∧ left ≤ z) (λ x, (left <=? x) && xin r1 x).
Proof.
  intros H1 Htb. revert left. induction r1 as [|a r1 IH]; intros left Hc.
  - apply emits_ret. intros. apply andb_false_r.
  - pose proof H1 as (Na & _ & _ & S1 & L1)%strip_cons. cbn [subtract_rest]. cbn in Hc.
    eapply emits_add; [apply Hc|done|done| |by apply IH, (cursor_next t1 b1)|].
    + cbn. intros z [? ?]. pose proof (next_left_gt _ _ _ _ left z H1). split; [auto|]. split; [done|].
      destruct Hc. transitivity (r_right a); [lia|]. apply Z.lt_le_incl. auto.
    + intros x. cbn beta. rewrite (xin_next t1 b1), xin_cons by done.
      pose proof (strip_xin_gt _ _ _ _ x H1). destruct (xin r1 x); lia.
Qed.

#[global] Arguments xin : simpl never.
#[global] Arguments inb : simpl never.

Lemma subtract_emits n left r1 r2 t1 b1 t2 b2 t b :
  (length r1 + length r2 ≤ n)%nat → strip t1 b1 r1 → strip t2 b2 r2 → t < b → cursor left r1 →
  emits (subtract_loop n left r1 r2 t b) t b (λ z, r1 ≠ [] ∧ left ≤ z)
        (λ x, (left <=? x) && (xin r1 x && negb (xin r2 x))).
Proof.
  intros Hn H1 H2 Htb. revert left r1 r2 Hn H1 H2.
  induction n as [|n IH]; intros left [|a r1] [|c r2] Hn H1 H2 Hc; cbn in Hn; try lia;
    try (eapply emits_weaken; [by eapply subtract_rest_emits|done|];
         intros x; cbn beta; change (xin [] x) with false; by rewrite ?andb_true_r, ?andb_false_r).
  cbn [subtract_loop]. cbn in Hc.
  pose proof (λ x, strip_xin_gt _ _ _ _ x H1) as G1. pose proof (λ x, strip_xin_gt _ _ _ _ x H2) as G2.
  pose proof H1 as (Na & _ & _ & S1 & L1)%strip_cons. pose proof H2 as (Nc & _ & _ & S2 & L2)%strip_cons.
  pose proof (λ lf x, xin_next t1 b1 r1 lf x S1) as NX.
  unfold nonempty in *.
  (* the continuations: [r2] moves on, or [r1] does *)
  assert (K2 : ∀ lf, r_left a ≤ lf < r_right a → left ≤ lf →
    emits (subtract_loop n lf (a :: r1) r2 t b) t b (λ z, a :: r1 ≠ [] ∧ lf ≤ z)
      (λ x, (lf <=? x) && (xin (a :: r1) x && negb (xin r2 x)))).
  { intros. apply IH; cbn; auto; lia. }
  assert (K1 : ∀ lf, emits (subtract_loop n (next_left r1 lf) r1 (c :: r2) t b) t b (λ z, r_right a < z)
      (λ x, xin r1 x && negb (xin (c :: r2) x))).
  { intros lf. eapply emits_weaken; [apply IH; cbn; auto; [lia|by apply (cursor_next t1 b1)]| |].
    - cbn. intros z [? ?]. by eapply next_left_gt.
    - intros x. cbn beta. rewrite andb_assoc. by rewrite NX. }
  destruct (Z.leb_spec (r_right c) left).
  { eapply emits_weaken; [apply K2; lia|done|]. intros x. cbn beta. rewrite !xin_cons.
    destruct (xin r1 x), (xin r2 x); lia. }
  destruct (Z.leb_spec (r_left c) left).
  { destruct (Z.leb_spec (r_right a) (r_right c)).
    - eapply emits_weaken; [apply K1|cbn; intros; split; [done|lia]|]. intros x. cbn beta.
      rewrite !xin_cons. specialize (G1 x). destruct (xin r1 x), (xin r2 x); lia.
    - eapply emits_weaken; [apply K2; lia|cbn; intros; split; [done|lia]|]. intros x. cbn beta.
      rewrite !xin_cons. specialize (G2 x). destruct (xin r1 x), (xin r2 x); lia. }
  destruct (Z.ltb_spec (r_left c) (r_right a)).
  { destruct (Z.leb_spec (r_right a) (r_right c)).
    - eapply emits_add; [lia|done| |..]; [| |apply K1|]; cbn; [split; [done|lia]|intros; split_and!; [lia|done|lia]|].
      intros x. rewrite !xin_cons. specialize (G1 x). specialize (G2 x). destruct (xin r1 x), (xin r2 x); lia.
    - eapply emits_add; [lia|done| |..]; [| |apply K2; lia|]; cbn; [split; [done|lia]|intros; split_and!; [lia|done|lia]|].
      intros x. rewrite !xin_cons. specialize (G1 x). specialize (G2 x). destruct (xin r1 x), (xin r2 x); lia. }
  destruct (Z.ltb_spec left (r_right a)); [|lia].
  eapply emits_add; [done|done| |..]; [| |apply K1|]; cbn; [split; [done|lia]|intros; split_and!; [lia|done|lia]|].
  intros x. rewrite !xin_cons. specialize (G1 x). specialize (G2 x). destruct (xin r1 x), (xin r2 x); lia.
Qed.

(** [g] ends with the band [e] under construction, after [base]. *)
Definition merging (base : list rectangle) (t b : Z) (e : list rectangle) (g : region) : Prop :=
  room g ∧ rg_rects g = base ++ e ∧ strip t b e ∧ ∀ r, r ∈ base → r_bottom r ≤ t.

(** What merging the rectangles [rs] into the band [e] achieves. *)
Definition merges (m : M region bool) (t b : Z) (e : list rectangle) (base : list rectangle)
    (f : Z → bool) (bound : Z → Prop) : Prop :=
  ∀ g w, merging base t b e g → wp m g w (λ ok g' w', outcome w w' ok ∧ room g' ∧
    rg_extents g' = rg_extents g ∧
    (ok = true → ∃ e', merging base t b e' g' ∧ (∀ x, xin e' x = xin e x || f x) ∧
       ∀ z, bound z → ∀ r, r ∈ e' → r_left r ≤ z)).

Lemma alter_last {A} (f : A → A) (l : list A) p : alter f (pred (length (l ++ [p]))) (l ++ [p]) = l ++ [f p].
Proof.
  rewrite length_app. cbn [length].
  replace (pred (length l + 1)) with (length l + 0)%nat by lia. by rewrite alter_app_r.
Qed.

Lemma mergerect_append a base t b e :
  nonempty a → t < b → (∀ r, r ∈ e → r_right r < r_left a) →
  merges (add_rect (Rect (r_left a) t (r_right a) b)) t b e base
    (λ x, (r_left a <=? x) && (x <? r_right a)) (λ z, r_left a ≤ z).
Proof.
  intros [Na _] Htb Hlt g w (Hg & E & Hs & Hb). apply wp_add_rect; [done|].
  intros ok g' w' Ho Hg' He Hr. split_and!; [done..|]. intros Hok. specialize (Hr Hok).
  assert (S1 : strip t b [Rect (r_left a) t (r_right a) b]).
  { rewrite strip_cons. split_and!; [done..|apply strip_nil|set_solver]. }
  exists (e ++ [Rect (r_left a) t (r_right a) b]). split; [|split].
  - unfold merging. rewrite Hr, E, <- app_assoc. split_and!; [done..| |done].
    apply strip_app. split_and!; [done..|]. intros r1 r2 H1 ->%list_elem_of_singleton. cbn. auto.
  - intros x. rewrite xin_app. f_equal. rewrite xin_cons. cbn [r_left r_right].
    change (xin [] x) with false. by rewrite orb_false_r.
  - intros z Hz r [Hin|Hr1%list_elem_of_singleton]%elem_of_app; [|by subst].
    specialize (Hlt r Hin). destruct Hs as [[Hne _] _]. rewrite Forall_forall in Hne.
    destruct (Hne r Hin). lia.
Qed.

Lemma mergerect_merges a base t b e :
  nonempty a → t < b → (∀ r, r ∈ e → r_left r ≤ r_left a) →
  merges (mergerect a t b) t b e base (λ x, (r_left a <=? x) && (x <? r_right a)) (λ z, r_left a ≤ z).
Proof.
  intros Na Htb Hle g w (Hg & E & Hs & Hb). unfold mergerect. wp_run. rewrite E.
  destruct e as [|p e _] using rev_ind.
  { rewrite app_nil_r. destruct (last base) as [p|] eqn:Hp.
    - apply last_Some in Hp as [l ->]. pose proof (Hb p (ltac:(set_solver))).
      replace (_ && _ && _) with false by lia.
      apply mergerect_append; [done|done|set_solver|]. by unfold merging; split_and!.
    - apply mergerect_append; [done|done|set_solver|]. by unfold merging; split_and!. }
  rewrite app_assoc, last_snoc. pose proof Hs as (S1 & S2 & L)%strip_app.
  pose proof S2 as (Np & Et & Eb & _)%strip_cons.
  rewrite Et, Eb, !Z.eqb_refl. cbn [andb].
  destruct (Z.leb_spec (r_left a) (r_right p)).
  2: { apply mergerect_append; [done|done| |by unfold merging; split_and!].
       intros r [Hr|Hr1%list_elem_of_singleton]%elem_of_app; [|by subst; lia].
       specialize (L r p Hr ltac:(set_solver)). destruct Np. lia. }
  rewrite app_assoc in E.
  assert (La : r_left p ≤ r_left a) by (apply Hle; set_solver).
  assert (Hfin : ∀ p' g' r', p' = set_right r' p → r' = Z.max (r_right p) (r_right a) →
    rg_size g' = rg_size g → rg_extents g' = rg_extents g → rg_rects g' = (base ++ e) ++ [p'] →
    outcome w w true ∧ room g' ∧ rg_extents g' = rg_extents g ∧
      (true = true → ∃ e', merging base t b e' g' ∧
        (∀ x, xin e' x = xin (e ++ [p]) x || (r_left a <=? x) && (x <? r_right a)) ∧
        ∀ z, r_left a ≤ z → ∀ r, r ∈ e' → r_left r ≤ z)).
  { intros p' g' r' -> -> Hsz Hex Hrc. unfold nonempty in *.
    assert (Hroom : room g').
    { unfold room, num_rects in *. rewrite Hrc, Hsz. rewrite E in Hg. rewrite !length_app in *. done. }
    split_and!; [done..|]. intros _. exists (e ++ [set_right (Z.max (r_right p) (r_right a)) p]).
    split; [|split].
    - unfold merging. rewrite Hrc, <- app_assoc. split_and!; [done..| |done].
      apply strip_app. split_and!; [done| |].
      + apply strip_cons. unfold set_right, nonempty; cbn. split_and!; try lia; [apply strip_nil|set_solver].
      + intros r1 r2 Hr1 ->%list_elem_of_singleton. cbn. by apply L; [|set_solver].
    - intros x. rewrite !xin_app, !xin_cons. cbn. change (xin [] x) with false.
      destruct (xin e x); lia.
    - intros z Hz r [Hr|Hr1%list_elem_of_singleton]%elem_of_app; [|subst; cbn; lia].
      specialize (Hle r ltac:(set_solver)). lia. }
  destruct (Z.ltb_spec (r_right p) (r_right a)); cbn [when]; wp_run.
  - apply (Hfin (set_right (r_right a) p)
      (set_rects (alter (set_right (r_right a)) (pred (length ((base ++ e) ++ [p])))
                        ((base ++ e) ++ [p])) g) (r_right a)); [done|lia|done|done|].
    cbn [rg_rects set_rects]. by rewrite alter_last.
  - apply (Hfin p g (r_right p)); [by destruct p|lia|done..].
Qed.

Definition left_of (e l : list rectangle) : Prop := ∀ r a, r ∈ e → a ∈ l → r_left r ≤ r_left a.

Lemma merges_step a m t b e base P f f' :
  nonempty a → t < b → (∀ r, r ∈ e → r_left r ≤ r_left a) →
  (∀ e', (∀ z, r_left a ≤ z → ∀ r, r ∈ e' → r_left r ≤ z) → merges m t b e' base f' P) →
  (∀ x, f x = (r_left a <=? x) && (x <? r_right a) || f' x) →
  merges (let* ok := mergerect a t b in if negb ok then ret false else m) t b e base f P.
Proof.
  intros Na Htb Hle Hm Hf g w Hg. wp_run. eapply wp_mono; [by apply (mergerect_merges a base t b e)|].
  cbn beta. intros [] g1 w1 (Ho & Hr & He & Hok); cbn [negb].
  2: { apply wp_ret. split_and!; done. }
  destruct (Hok eq_refl) as (e' & Hme & Hx & Hz).
  eapply wp_mono; [by apply (Hm e')|]. cbn beta. intros ok g2 w2 (Ho2 & Hr2 & He2 & Hok2).
  split_and!; [by eapply outcome_trans|done|congruence|]. intros Ht.
  destruct (Hok2 Ht) as (e2 & ? & Hx2 & ?). exists e2. split_and!; [done| |done].
  intros x. rewrite Hx2, Hx, Hf. by rewrite orb_assoc.
Qed.

Lemma merges_ret t b e base P f :
  (∀ x, f x = false) → (∀ z, P z → False) → merges (ret true) t b e base f P.
Proof.
  intros Hf HP g w Hg. apply wp_ret. split_and!; [done|apply Hg|done|]. intros _. exists e.
  split_and!; [done| |by intros z ?%HP]. intros x. by rewrite Hf, orb_false_r.
Qed.

Lemma left_of_tail t1 b1 a r1 e :
  strip t1 b1 (a :: r1) → (∀ z, r_left a ≤ z → ∀ r, r ∈ e → r_left r ≤ z) → left_of e r1.
Proof.
  intros (Na & _ & _ & _ & L)%strip_cons Hz r c Hr Hc. apply Hz; [|done].
  specialize (L c Hc). destruct Na. lia.
Qed.

Lemma merge_all_merges r t1 b1 t b e base :
  strip t1 b1 r → t < b → left_of e r → merges (merge_all r t b) t b e base (xin r) (λ _, False).
Proof.
  intros Hs Htb. revert e. induction r as [|a r IH]; intros e He; [by apply merges_ret|].
  cbn [merge_all]. pose proof Hs as (Na & _ & _ & S & L)%strip_cons.
  eapply merges_step; [done|done| | |done].
  - intros c Hc. apply He; set_solver.
  - intros e' Hz. apply IH; [done|]. by eapply left_of_tail.
Qed.

Lemma union_merges n r1 r2 t1 b1 t2 b2 t b e base :
  (length r1 + length r2 ≤ n)%nat → strip t1 b1 r1 → strip t2 b2 r2 → t < b →
  left_of e r1 → left_of e r2 →
  merges (union_overlapping n r1 r2 t b) t b e base (λ x, xin r1 x || xin r2 x) (λ _, False).
Proof.
  intros Hn H1 H2 Htb. revert r1 r2 e Hn H1 H2.
  induction n as [|n IH]; intros [|a r1] [|c r2] e Hn H1 H2 L1 L2; cbn in Hn; try lia.
  - by apply merges_ret.
  - by apply merges_ret.
  - cbn [union_overlapping]. intros g w Hg. eapply wp_mono; [by eapply merge_all_merges|]. done.
  - cbn [union_overlapping]. intros g w Hg. eapply wp_mono; [by eapply merge_all_merges|].
    cbn beta. change (xin [] ) with (λ _ : Z, false). setoid_rewrite orb_false_r. done.
  - cbn [union_overlapping].
    pose proof H1 as (Na & _ & _ & S1 & _)%strip_cons. pose proof H2 as (Nc & _ & _ & S2 & _)%strip_cons.
    assert (Hin : ∀ (d : rectangle) r, d ∈ d :: r) by (intros; apply elem_of_cons; auto).
    destruct (Z.ltb_spec (r_left a) (r_left c)).
    + eapply (merges_step a); [done|done|auto| |].
      * intros e' Hz. apply (IH r1 (c :: r2)); cbn; auto; [lia|by eapply left_of_tail|].
        intros r d Hr [->|Hd]%elem_of_cons; apply Hz; try done; try lia.
        apply strip_cons in H2 as (Nc' & _ & _ & _ & L). specialize (L d Hd). destruct Nc. lia.
      * intros x. by rewrite xin_cons, orb_assoc.
    + eapply (merges_step c); [done|done|auto| |].
      * intros e' Hz. apply (IH (a :: r1) r2); cbn; auto; [lia| |by eapply left_of_tail].
        intros r d Hr [->|Hd]%elem_of_cons; apply Hz; try done; try lia.
        apply strip_cons in H1 as (Na' & _ & _ & _ & L). specialize (L d Hd). destruct Na. lia.
      * intros x. rewrite (xin_cons c). destruct (xin (a :: r1) x), (xin r2 x); lia.
Qed.

(** ** The contract of an operation on bands

    What [region_op] needs from the three routines it is given: they emit, for a
    band between [t] and [b], the abscissas that the boolean operation [f] selects. *)

Definition band_emits (m : M region bool) (t b : Z) (f : Z → bool) : Prop :=
  ∀ g w, room g → (∀ r, r ∈ rg_rects g → r_bottom r ≤ t) →
    wp m g w (λ ok g' w', outcome w w' ok ∧ room g' ∧ rg_extents g' = rg_extents g ∧
      (ok = true → ∃ e, rg_rects g' = rg_rects g ++ e ∧ strip t b e ∧ ∀ x, xin e x = f x)).

Class BandOp (f : bool → bool → bool)
    (overlap : list rectangle → list rectangle → Z → Z → M region bool)
    (non1 non2 : option (list rectangle → Z → Z → M region bool)) : Prop := {
  bo_outside : f false false = false;
  bo_overlap : ∀ r1 r2 t1 b1 t2 b2 t b, strip t1 b1 r1 → strip t2 b2 r2 → r1 ≠ [] → r2 ≠ [] → t < b →
    band_emits (overlap r1 r2 t b) t b (λ x, f (xin r1 x) (xin r2 x));
  bo_non1 : ∀ r t1 b1 t b, strip t1 b1 r → t < b →
    match non1 with
    | Some m => band_emits (m r t b) t b (λ x, f (xin r x) false)
    | None => f true false = false
    end;
  bo_non2 : ∀ r t2 b2 t b, strip t2 b2 r → t < b →
    match non2 with
    | Some m => band_emits (m r t b) t b (λ x, f false (xin r x))
    | None => f false true = false
    end
}.

Lemma emits_band m t b P f f' : emits m t b P f → (∀ x, f' x = f x) → band_emits m t b f'.
Proof.
  intros H Hf g w Hg _. eapply wp_mono; [by apply H|]. intros ok g' w' (? & ? & ? & Hok).
  split_and!; [done..|]. intros Ht. destruct (Hok Ht) as (e & ? & ? & ? & Hx). exists e.
  split_and!; [done..|]. intros. by rewrite Hf.
Qed.

#[export] Instance intersect_band_op : BandOp andb (overlapping intersect_overlapping) None None.
Proof.
  split; [done| |done|done]. intros. eapply emits_band; [by eapply intersect_emits|done].
Qed.

#[export] Instance subtract_band_op :
  BandOp (λ p q, p && negb q) (overlapping subtract_overlapping) (Some subtract_non_overlapping) None.
Proof.
  split; [done| | |done].
  - intros [|a r1] r2 t1 b1 t2 b2 t b H1 H2 Hn1 _ Htb; [done|].
    eapply emits_band; [eapply (subtract_emits _ (r_left a)); [reflexivity|done..|]|].
    + apply strip_cons in H1 as ([? ?] & _). cbn. lia.
    + intros x. cbn beta. rewrite andb_assoc. f_equal. symmetry.
      apply (xin_next t1 b1 (a :: r1) 0 x H1).
  - intros. eapply emits_band; [by eapply subtract_non_emits|]. intros. apply andb_true_r.
Qed.

#[export] Instance union_band_op :
  BandOp orb (overlapping union_overlapping) (Some union_non_overlapping) (Some union_non_overlapping).
Proof.
  split; [done| | |].
  - intros r1 r2 t1 b1 t2 b2 t b H1 H2 _ _ Htb g w Hg Hb.
    assert (L : ∀ l, left_of [] l) by (intros l ? ? []%not_elem_of_nil).
    eapply wp_mono; [apply (union_merges _ r1 r2 t1 b1 t2 b2 t b [] (rg_rects g)); try done|].
    + unfold merging. rewrite app_nil_r. by split_and!; try apply strip_nil.
    + cbn beta. intros ok g' w' (? & ? & ? & Hok). split_and!; [done..|]. intros Ht.
      destruct (Hok Ht) as (e & (? & ? & ? & ?) & Hx & _). eauto.
  - intros. eapply emits_band; [by eapply subtract_non_emits|]. intros. apply orb_false_r.
  - intros. by eapply emits_band; [eapply subtract_non_emits|].
Qed.

(** ** Bands of a list, and [coalesce_region] *)

Definition below (l : list rectangle) (B : Z) : Prop := ∀ r, r ∈ l → r_bottom r ≤ B.

Lemma below_inb l B : banded l → below l B ↔ ∀ x y, inb l x y = true → y < B.
Proof.
  intros [Hn _]. rewrite Forall_forall in Hn. split.
  - intros Hb x y (r & Hr & Hp)%inb_spec. apply point_in_rect_spec in Hp. specialize (Hb r Hr). lia.
  - intros H r Hr. destruct (Hn r Hr) as [? ?]. enough (r_bottom r - 1 < B) by lia.
    apply (H (r_left r)). apply inb_spec. exists r. split; [done|]. apply point_in_rect_spec. lia.
Qed.

Lemma band_length_spec t b l :
  banded l → (∀ r, r ∈ l → r_top r = t → r_bottom r = b) → (∀ r, r ∈ l → t ≤ r_top r) →
  strip t b (take (band_length t l) l) ∧ ∀ r, r ∈ drop (band_length t l) l → t < r_top r.
Proof.
  induction l as [|a l IH]; intros Hl Hb Ht; [split; [apply strip_nil|set_solver]|].
  apply banded_cons in Hl as (Na & Hl & Ha). cbn.
  assert (Hin : ∀ r, r ∈ l → r ∈ a :: l) by (intros; apply elem_of_cons; auto).
  assert (Hhd : a ∈ a :: l) by (apply elem_of_cons; auto).
  destruct (Z.eqb_spec (r_top a) t) as [E|E]; cbn [take drop].
  - destruct IH as [IH1 IH2]; auto. split; [|done]. apply strip_cons. split_and!; auto.
    intros r Hr. 
    destruct IH1 as [_ IH1]. destruct (IH1 r Hr). assert (r ∈ l) as Hrl.
    { rewrite <- (take_drop (band_length t l) l). apply elem_of_app. auto. }
    specialize (Ha r Hrl). unfold before, nonempty in *. lia.
  - split; [apply strip_nil|]. pose proof (Ht a Hhd).
    intros r [->|Hr]%elem_of_cons; [lia|]. specialize (Ha r Hr). unfold before, nonempty in *. lia.
Qed.

Lemma band_split a l :
  banded (a :: l) →
  a :: l = band_of (a :: l) ++ after_band (a :: l) ∧
  strip (r_top a) (r_bottom a) (band_of (a :: l)) ∧ a ∈ band_of (a :: l) ∧
  banded (after_band (a :: l)) ∧ ∀ r, r ∈ after_band (a :: l) → r_bottom a ≤ r_top r.
Proof.
  intros H. pose proof H as (Na & Hl & Ha)%banded_cons. unfold band_of, after_band.
  assert (E : a :: l = take (band_length (r_top a) (a :: l)) (a :: l) ++
                       drop (band_length (r_top a) (a :: l)) (a :: l)) by by rewrite take_drop.
  destruct (band_length_spec (r_top a) (r_bottom a) (a :: l)) as [Hs Hd]; [done|..].
  - intros r [->|Hr]%elem_of_cons; [done|]. specialize (Ha r Hr). unfold before, nonempty in *. lia.
  - intros r [->|Hr]%elem_of_cons; [lia|]. specialize (Ha r Hr). unfold before, nonempty in *. lia.
  - split_and!; [done|done| | |].
    + cbn. rewrite Z.eqb_refl. cbn. apply elem_of_cons; auto.
    + rewrite E in H. by apply banded_app in H as (_ & ? & _).
    + intros r Hr. specialize (Hd r Hr). assert (r ∈ a :: l) as Hin.
      { rewrite E. apply elem_of_app. auto. }
      apply elem_of_cons in Hin as [->|Hin]; [lia|].
      specialize (Ha r Hin). unfold before in *. lia.
Qed.

Lemma inb_head a l x y :
  banded (a :: l) → y < r_bottom a →
  inb (a :: l) x y = (r_top a <=? y) && xin (band_of (a :: l)) x.
Proof.
  intros (E & Hs & _ & _ & Hd)%band_split Hy. rewrite E at 1.
  rewrite inb_app, (inb_strip _ _ _ _ _ Hs).
  replace (inb (after_band _) x y) with false.
  - rewrite orb_false_r. f_equal. lia.
  - symmetry. apply inb_false. intros r Hr. specialize (Hd r Hr). unfold point_in_rect. lia.
Qed.

Lemma inb_after a l x y :
  banded (a :: l) → r_bottom a ≤ y → inb (a :: l) x y = inb (after_band (a :: l)) x y.
Proof.
  intros (E & Hs & _ & _ & Hd)%band_split Hy. rewrite E at 1.
  rewrite inb_app, (inb_strip _ _ _ _ _ Hs). destruct (inb (after_band (a :: l)) x y); lia.
Qed.

(** The last band of [l] starts at index [k]. *)
Definition last_at (l : list rectangle) (k : nat) : Prop :=
  ∃ pre prev t b, l = pre ++ prev ∧ k = length pre ∧ strip t b prev ∧ (prev = [] → pre = []) ∧
    below pre t.

Lemma same_x_merged tp bp tc bc prev cur :
  strip tp bp prev → strip tc bc cur → length cur = length prev →
  forallb (λ pc, same_x pc.1 pc.2) (zip prev cur) = true →
  let merged := zip_with (λ p c, set_bottom (r_bottom c) p) prev cur in
  merged = map (set_bottom bc) prev ∧ ∀ x, xin cur x = xin prev x.
Proof.
  revert cur. induction prev as [|p prev IH]; intros [|c cur] Hp Hc Hl Hx; cbn in *; try done.
  apply strip_cons in Hp as (_ & _ & _ & Hp & _), Hc as (_ & _ & Eb & Hc & _).
  apply andb_true_iff in Hx as [Hpc Hx]. destruct (IH cur) as [E1 E2]; auto.
  split; [by rewrite E1, Eb|]. intros x. rewrite !xin_cons, E2.
  unfold same_x in Hpc. f_equal. lia.
Qed.

Lemma strip_set_bottom t b b' l : strip t b l → t < b' → strip t b' (map (set_bottom b') l).
Proof.
  induction l as [|a l IH]; intros H Hb; [apply strip_nil|]. cbn [map].
  apply strip_cons in H as ([? ?] & ? & ? & Hl & Hr). apply strip_cons.
  split_and!; [split; cbn; [done|lia]|done|done|auto|].
  intros r (r' & -> & Hr')%list_elem_of_fmap. cbn. auto.
Qed.

Lemma xin_set_bottom b l x : xin (map (set_bottom b) l) x = xin l x.
Proof. induction l as [|a l IH]; [done|]. cbn [map]. rewrite !xin_cons, IH. done. Qed.

(** Merging a band into the one just above it, where both cover the same abscissas. *)
Lemma merge_bands pre prev cur rest tp bp bc :
  banded (pre ++ prev ++ cur ++ rest) → strip tp bp prev → strip bp bc cur → prev ≠ [] → cur ≠ [] →
  below pre tp → (∀ r, r ∈ rest → bc ≤ r_top r) → (∀ x, xin cur x = xin prev x) →
  let l := pre ++ map (set_bottom bc) prev ++ rest in
  banded l ∧ strip tp bc (map (set_bottom bc) prev) ∧
  ∀ x y, inb l x y = inb (pre ++ prev ++ cur ++ rest) x y.
Proof.
  intros Hl Hp Hc Np Nc Hpre Hrest Hx l.
  apply banded_app in Hl as (B1 & (B2 & (B3 & B4 & O3)%banded_app & O2)%banded_app & O1).
  assert (tp < bp).
  { destruct prev; [done|]. by apply strip_cons in Hp as ([? ?] & <- & <- & _). }
  assert (bp < bc).
  { destruct cur; [done|]. by apply strip_cons in Hc as ([? ?] & <- & <- & _). }
  assert (Hm : strip tp bc (map (set_bottom bc) prev)) by (eapply strip_set_bottom; [done|lia]).
  split_and!; [|done|].
  - unfold l. apply banded_app. split_and!; [done| |].
    + apply banded_app. split_and!; [apply Hm|done|]. intros a c Ha Hcin. right.
      destruct Hm as [_ Hm]. destruct (Hm a Ha) as [_ ->]. auto.
    + intros a c Ha [Hcin|Hcin]%elem_of_app.
      * right. destruct Hm as [_ Hm]. destruct (Hm c Hcin) as [-> _]. auto.
      * apply O1; [done|]. rewrite !elem_of_app. auto.
  - intros x y. unfold l. rewrite !inb_app, (inb_strip _ _ _ _ _ Hm), (inb_strip _ _ _ _ _ Hp),
      (inb_strip _ _ _ _ _ Hc), xin_set_bottom, Hx.
    destruct (inb pre x y), (inb rest x y), (xin prev x); lia.
Qed.

Lemma last_at_length l k : last_at l k → (k ≤ length l)%nat.
Proof. intros (pre & prev & t & b & -> & -> & _). rewrite length_app. lia. Qed.

#[global] Arguments band_of : simpl never.
#[global] Arguments after_band : simpl never.

(** [coalesce_region] after new bands were emitted below [out], whose last band
    starts at [k]: the points stay the same, and the bands stay in order. *)
Lemma coalesce_spec g w k out new :
  room g → rg_rects g = out ++ new → new ≠ [] → banded (out ++ new) → last_at out k →
  (∀ a r, a ∈ out → r ∈ new → r_bottom a ≤ r_top r) →
  wp (coalesce_region k (length out)) g w (λ k' g' w', w' = w ∧ room g' ∧ rg_extents g' = rg_extents g ∧
    banded (rg_rects g') ∧ (∀ x y, inb (rg_rects g') x y = inb (out ++ new) x y) ∧
    (after_band new = [] → last_at (rg_rects g') k')).
Proof.
  intros Hg E Hne Hb Hk Hon. destruct new as [|c0 new0]; [done|]. set (new := c0 :: new0) in *.
  destruct Hk as (pre & prev & tp & bp & Eo & -> & Hp & Hpe & Hpre).
  pose proof Hb as (_ & Bn & _)%banded_app.
  pose proof (band_split c0 new0 Bn) as (En & Hc & Hcin & _ & Hrest). fold new in En, Hc, Hcin, Hrest.
  unfold coalesce_region. wp_run. rewrite E, drop_app_length.
  split. { apply bool_decide_eq_true. rewrite length_app. cbn. lia. }
  (* nothing to merge: the new band is the last one *)
  assert (Hsame : ∀ k', (after_band new = [] → k' = length out) →
    w = w ∧ room g ∧ rg_extents g = rg_extents g ∧ banded (rg_rects g) ∧
    (∀ x y, inb (rg_rects g) x y = inb (out ++ new) x y) ∧
    (after_band new = [] → last_at (rg_rects g) k')).
  { intros k' Hk'. rewrite E. split_and!; [done..|]. intros Hr. rewrite (Hk' Hr).
    rewrite En, Hr, app_nil_r. exists out, (band_of new), (r_top c0), (r_bottom c0).
    split_and!; [done..| |].
    - intros Hn. rewrite Hn in Hcin. set_solver.
    - intros r Hr'. apply Hon; [done|apply elem_of_cons; auto]. }
  set (k' := match after_band new with [] => length out | _ :: _ => last_band (out ++ new) end).
  assert (Hk' : after_band new = [] → k' = length out) by (unfold k'; by intros ->).
  assert (Eprev : take (length out - length pre) (drop (length pre) (out ++ new)) = prev).
  { rewrite Eo, <- app_assoc, drop_app_length, length_app.
    replace (length pre + length prev - length pre)%nat with (length prev) by lia. apply take_app_length. }
  rewrite Eprev.
  destruct prev as [|p prev']; [wp_run; by apply Hsame|].
  destruct (band_of new) as [|c cur'] eqn:Ec; [wp_run; by apply Hsame|].
  set (prev := p :: prev') in *. set (cur := c :: cur') in *.
  destruct (Nat.eqb_spec (length cur) (length prev)) as [El|]; cbn [negb]; [|wp_run; by apply Hsame].
  destruct (Z.eqb_spec (r_bottom p) (r_top c)) as [Et|]; cbn [negb]; [|wp_run; by apply Hsame].
  destruct (forallb _ _) eqn:Hx; cbn [negb]; [|wp_run; by apply Hsame].
  destruct (same_x_merged tp bp (r_top c0) (r_bottom c0) prev cur) as [Em Hxin]; [done..|].
  assert (bp = r_top c0) as ->.
  { pose proof Hp as (_ & _ & <- & _)%strip_cons. by pose proof Hc as (_ & <- & _)%strip_cons. }
  assert (Np : prev ≠ []) by done. assert (Nc : cur ≠ []) by done.
  clearbody prev cur new. wp_run. rewrite Em.
  assert (Eall : out ++ new = pre ++ prev ++ cur ++ after_band new) by by rewrite <- En, Eo, <- app_assoc.
  destruct (merge_bands pre prev cur (after_band new) tp (r_top c0) (r_bottom c0)) as (B & Hs & Hi);
    [by rewrite <- Eall|done..|].
  rewrite Eall, take_app_length. split_and!; [done| |done|done|done|].
  - destruct Hg as [? Hn]. split; [done|]. unfold num_rects, set_rects in *. cbn. rewrite E, Eall in Hn.
    rewrite !length_app, length_map in *. lia.
  - intros Hr. rewrite Hr, app_nil_r. exists pre, (map (set_bottom (r_bottom c0)) prev), tp, (r_bottom c0).
    split_and!; [done|done|done| |done]. intros ?%map_eq_nil. done.
Qed.

(** ** The invariant of [region_op] *)

(** The result is complete above [yb], and its last band starts at [k]. *)
Definition built (F : Z → Z → bool) (g : region) (k : nat) (yb : Z) : Prop :=
  room g ∧ banded (rg_rects g) ∧ last_at (rg_rects g) k ∧
  ∀ x y, inb (rg_rects g) x y = (y <? yb) && F x y.

Lemma built_below F g k yb : built F g k yb → below (rg_rects g) yb.
Proof. intros (_ & Hb & _ & Hi). apply below_inb; [done|]. intros x y. rewrite Hi. lia. Qed.

Lemma built_advance F g k yb yb' :
  built F g k yb → yb ≤ yb' → (∀ x y, yb ≤ y < yb' → F x y = false) → built F g k yb'.
Proof.
  intros (? & ? & ? & Hi) Hle HF. split_and!; [done..|]. intros x y. rewrite Hi.
  destruct (Z.ltb_spec y yb), (Z.ltb_spec y yb'); try done; try lia.
  rewrite HF; [done|lia].
Qed.

Lemma strip_below t b l : strip t b l → below l b.
Proof. intros [_ H] r Hr. destruct (H r Hr). lia. Qed.

Lemma strip_after t b l : strip t b l → after_band l = [].
Proof.
  destruct l as [|a l]; [done|]. intros [Hb Ht].
  destruct (band_split a l Hb) as (E & _ & _ & B & Hr). destruct (after_band (a :: l)) as [|c l'] eqn:Ea; [done|].
  exfalso. assert (c ∈ a :: l) as Hc by (rewrite E; set_solver). destruct (Ht c Hc).
  specialize (Hr c ltac:(set_solver)). destruct (Ht a ltac:(set_solver)).
  apply banded_cons in B as ([? ?] & _). lia.
Qed.

(** A band was emitted from [t] to [b]: [coalesce_new] extends what is built. *)
Lemma coalesce_new_built F g g1 w k yb t b e Q :
  built F g k yb → yb ≤ t → t ≤ b →
  room g1 → rg_rects g1 = rg_rects g ++ e → strip t b e →
  (∀ x y, yb ≤ y < t → F x y = false) → (∀ x y, t ≤ y < b → xin e x = F x y) →
  (∀ k' g2, built F g2 k' b → rg_extents g2 = rg_extents g1 → Q k' g2 w) →
  wp (coalesce_new k (length (rg_rects g))) g1 w Q.
Proof.
  intros Hb Hyt Htb Hr E Hs HF HFe HQ. pose proof (built_below _ _ _ _ Hb) as Hlow.
  destruct Hb as (Hg & Hbd & Hlast & Hi).
  assert (Hall : ∀ x y, inb (rg_rects g ++ e) x y = (y <? b) && F x y).
  { intros x y. rewrite inb_app, Hi, (inb_strip _ _ _ _ _ Hs).
    destruct (Z.ltb_spec y yb), (Z.ltb_spec y t), (Z.leb_spec t y), (Z.ltb_spec y b); try lia; cbn;
      rewrite ?orb_false_r; try done; first [by rewrite (HF x y) by lia|by apply HFe]. }
  unfold coalesce_new. wp_run. destruct e as [|c e].
  { rewrite E, app_nil_r, Nat.eqb_refl. wp_run. apply HQ; [|done].
    rewrite app_nil_r in *. unfold built. rewrite E. by split_and!. }
  replace (length (rg_rects g1) =? length (rg_rects g))%nat with false.
  2: { symmetry. apply Nat.eqb_neq. rewrite E, length_app. cbn. lia. }
  eapply wp_mono; [apply (coalesce_spec g1 w k (rg_rects g) (c :: e))|]; try done.
  - apply banded_app. split_and!; [done|apply Hs|]. intros a r Ha Hrr. right.
    destruct Hs as [_ Hs]. destruct (Hs r Hrr). specialize (Hlow a Ha). lia.
  - intros a r Ha Hrr. destruct Hs as [_ Hs]. destruct (Hs r Hrr). specialize (Hlow a Ha). lia.
  - cbn beta. intros k' g' w' (-> & ? & ? & ? & Hi' & Hl). apply HQ; [|done].
    unfold built. split_and!; [done|done|by eapply Hl, strip_after|]. intros x y. by rewrite Hi', Hall.
Qed.

(** The rectangles of a source that are left below [yb]. *)
Definition side (r : list rectangle) (yb : Z) : Prop := banded r ∧ ∀ c, c ∈ r → yb < r_bottom c.

Lemma side_next a r yb yb' :
  side (a :: r) yb → yb' ≤ r_bottom a →
  let r' := if r_bottom a =? yb' then after_band (a :: r) else a :: r in
  side r' yb' ∧ (∀ x y, yb' ≤ y → inb r' x y = inb (a :: r) x y) ∧
  (r_bottom a = yb' → ∀ c, c ∈ r' → yb' ≤ r_top c) ∧
  (length r' ≤ length (a :: r))%nat ∧ (r_bottom a = yb' → (length r' < length (a :: r))%nat).
Proof.
  intros [Hb _] Hle r'. destruct (band_split a r Hb) as (E & Hs & Hin & Ba & Hr).
  assert (Hlen : (length (after_band (a :: r)) < length (a :: r))%nat).
  { rewrite E at 2. rewrite length_app. destruct (band_of (a :: r)); [set_solver|cbn; lia]. }
  unfold r'. destruct (Z.eqb_spec (r_bottom a) yb') as [Ey|Ey].
  - split_and!; [split; [done|]| | | |done]; try lia.
    + intros c Hc. specialize (Hr c Hc). destruct Ba as [Hn _]. rewrite Forall_forall in Hn.
      destruct (Hn c Hc). lia.
    + intros x y Hy. symmetry. apply inb_after; [done|lia].
    + intros _ c Hc. specialize (Hr c Hc). lia.
  - split_and!; [split; [done|]|done| |lia|]; try done. intros c Hc. rewrite E in Hc.
    apply elem_of_app in Hc as [Hc|Hc].
    + destruct Hs as [_ Hs]. destruct (Hs c Hc). lia.
    + specialize (Hr c Hc). destruct Ba as [Hn _]. rewrite Forall_forall in Hn. destruct (Hn c Hc). lia.
Qed.

Lemma band_emits_none t b f : (∀ x, f x = false) → band_emits (ret true) t b f.
Proof. intros Hf. by eapply emits_band; [eapply (emits_ret _ _ (λ _, True) (λ _, false))|]. Qed.

Section RegionOpCorrect.

Context {f : bool → bool → bool}.
Context {overlap : list rectangle → list rectangle → Z → Z → M region bool}.
Context {non1 non2 : option (list rectangle → Z → Z → M region bool)}.
Context {Hop : BandOp f overlap non1 non2}.
(** The points of the result. *)
Context (F : Z → Z → bool).

(** What [F] is below [yb], from the rectangles that are left. *)
Definition remains (r1 r2 : list rectangle) (yb : Z) : Prop :=
  ∀ x y, yb ≤ y → F x y = f (inb r1 x y) (inb r2 x y).

Lemma remains_head a r1 b r2 yb x y :
  remains (a :: r1) (b :: r2) yb → banded (a :: r1) → banded (b :: r2) →
  yb ≤ y < Z.min (r_bottom a) (r_bottom b) →
  F x y = f ((r_top a <=? y) && xin (band_of (a :: r1)) x) ((r_top b <=? y) && xin (band_of (b :: r2)) x).
Proof. intros HF B1 B2 Hy. rewrite HF by lia. by rewrite !inb_head by (done || lia). Qed.

Lemma call_non1_emits r t1 b1 t b :
  strip t1 b1 r → t < b → band_emits (call_non_overlap non1 r t b) t b (λ x, f (xin r x) false).
Proof.
  intros Hr Htb. pose proof (bo_non1 r t1 b1 t b Hr Htb) as H. unfold call_non_overlap.
  destruct non1; [done|]. apply band_emits_none. intros x. destruct (xin r x); [done|apply bo_outside].
Qed.

Lemma call_non2_emits r t1 b1 t b :
  strip t1 b1 r → t < b → band_emits (call_non_overlap non2 r t b) t b (λ x, f false (xin r x)).
Proof.
  intros Hr Htb. pose proof (bo_non2 r t1 b1 t b Hr Htb) as H. unfold call_non_overlap.
  destruct non2; [done|]. apply band_emits_none. intros x. destruct (xin r x); [done|apply bo_outside].
Qed.

(** The part of the topmost band that does not overlap. *)
Lemma non_overlap_phase (c : Z → Z → M region bool) t b h :
  t ≤ b → (t < b → band_emits (c t b) t b h) →
  ∃ f1, band_emits (if t =? b then ret true else c t b) t b f1 ∧ ∀ x y, t ≤ y < b → f1 x = h x.
Proof.
  intros Htb Hc. destruct (Z.eqb_spec t b).
  - exists (λ _, false). split; [by apply band_emits_none|]. lia.
  - exists h. split; [apply Hc; lia|done].
Qed.

(** The first half of an iteration. *)
Lemma first_phase a r1 b r2 yb :
  side (a :: r1) yb → side (b :: r2) yb → (yb ≤ r_top a ∨ yb ≤ r_top b) →
  remains (a :: r1) (b :: r2) yb →
  let ytop := if r_top a <? r_top b then r_top b else r_top a in
  let ybot := Z.min (r_bottom a) (r_bottom b) in
  let y1 := if ytop <? ybot then ytop else ybot in
  ∃ t yb1 f1, yb ≤ t ∧ t ≤ yb1 ∧ yb1 ≤ y1 ∧
    band_emits
      (if r_top a <? r_top b then
         let top := Z.max (r_top a) yb in
         let bot := Z.min (r_bottom a) (r_top b) in
         if top =? bot then ret true else call_non_overlap non1 (band_of (a :: r1)) top bot
       else if r_top b <? r_top a then
         let top := Z.max (r_top b) yb in
         let bot := Z.min (r_bottom b) (r_top a) in
         if top =? bot then ret true else call_non_overlap non2 (band_of (b :: r2)) top bot
       else ret true) t yb1 f1 ∧
    (∀ x y, yb ≤ y < t → F x y = false) ∧ (∀ x y, t ≤ y < yb1 → f1 x = F x y) ∧
    (∀ x y, yb1 ≤ y < y1 → F x y = false).
Proof.
  intros [B1 S1] [B2 S2] Hyb HF. cbv zeta.
  assert (Sa : yb < r_bottom a) by (apply S1, elem_of_cons; auto).
  assert (Sb : yb < r_bottom b) by (apply S2, elem_of_cons; auto).
  pose proof B1 as ([_ ?] & _)%banded_cons. pose proof B2 as ([_ ?] & _)%banded_cons.
  destruct (band_split a r1 B1) as (_ & T1 & _). destruct (band_split b r2 B2) as (_ & T2 & _).
  pose proof (λ x y, remains_head a r1 b r2 yb x y HF B1 B2) as Hh.
  destruct (Z.ltb_spec (r_top a) (r_top b)); [|destruct (Z.ltb_spec (r_top b) (r_top a))].
  - destruct (non_overlap_phase (call_non_overlap non1 (band_of (a :: r1)))
      (Z.max (r_top a) yb) (Z.min (r_bottom a) (r_top b)) (λ x, f (xin (band_of (a :: r1)) x) false))
      as (f1 & He & Hf1); [lia|by eapply call_non1_emits|].
    exists (Z.max (r_top a) yb), (Z.min (r_bottom a) (r_top b)), f1.
    split_and!; [lia|lia|destruct (Z.ltb_spec (r_top b) (r_bottom a `min` r_bottom b)); lia|done|..].
    + intros x y Hy. rewrite Hh by lia. replace (r_top a <=? y) with false by lia.
      replace (r_top b <=? y) with false by lia. apply bo_outside.
    + intros x y Hy. rewrite (Hf1 x y), Hh by lia. replace (r_top a <=? y) with true by lia.
      by replace (r_top b <=? y) with false by lia.
    + intros x y Hy. destruct (Z.ltb_spec (r_top b) (r_bottom a `min` r_bottom b)); lia.
  - destruct (non_overlap_phase (call_non_overlap non2 (band_of (b :: r2)))
      (Z.max (r_top b) yb) (Z.min (r_bottom b) (r_top a)) (λ x, f false (xin (band_of (b :: r2)) x)))
      as (f1 & He & Hf1); [lia|by eapply call_non2_emits|].
    exists (Z.max (r_top b) yb), (Z.min (r_bottom b) (r_top a)), f1.
    split_and!; [lia|lia|destruct (Z.ltb_spec (r_top a) (r_bottom a `min` r_bottom b)); lia|done|..].
    + intros x y Hy. rewrite Hh by lia. replace (r_top a <=? y) with false by lia.
      replace (r_top b <=? y) with false by lia. apply bo_outside.
    + intros x y Hy. rewrite (Hf1 x y), Hh by lia. replace (r_top b <=? y) with true by lia.
      by replace (r_top a <=? y) with false by lia.
    + intros x y Hy. destruct (Z.ltb_spec (r_top a) (r_bottom a `min` r_bottom b)); lia.
  - exists yb, yb, (λ _, false).
    split_and!; [lia|lia|destruct (Z.ltb_spec (r_top a) (r_bottom a `min` r_bottom b)); lia|
      by apply band_emits_none|lia|lia|].
    intros x y Hy. rewrite Hh by (destruct (Z.ltb_spec (r_top a) (r_bottom a `min` r_bottom b)); lia).
    destruct (Z.ltb_spec (r_top a) (r_bottom a `min` r_bottom b)); [|lia].
    replace (r_top a <=? y) with false by lia. replace (r_top b <=? y) with false by lia. apply bo_outside.
Qed.

(** The second half: the part that overlaps. *)
Lemma second_phase a r1 b r2 yb :
  side (a :: r1) yb → side (b :: r2) yb → remains (a :: r1) (b :: r2) yb →
  let ytop := if r_top a <? r_top b then r_top b else r_top a in
  let ybot := Z.min (r_bottom a) (r_bottom b) in
  let y1 := if ytop <? ybot then ytop else ybot in
  yb ≤ y1 →
  ∃ f1, band_emits (if ytop <? ybot then overlap (band_of (a :: r1)) (band_of (b :: r2)) ytop ybot
                    else ret true) y1 ybot f1 ∧
    y1 ≤ ybot ∧ ∀ x y, y1 ≤ y < ybot → f1 x = F x y.
Proof.
  intros [B1 _] [B2 _] HF. cbv zeta. set (ytop := if r_top a <? r_top b then _ else _).
  assert (Ht : r_top a ≤ ytop ∧ r_top b ≤ ytop)
    by (unfold ytop; destruct (Z.ltb_spec (r_top a) (r_top b)); lia).
  clearbody ytop. intros Hy1.
  destruct (band_split a r1 B1) as (_ & T1 & I1 & _). destruct (band_split b r2 B2) as (_ & T2 & I2 & _).
  destruct (Z.ltb_spec ytop (Z.min (r_bottom a) (r_bottom b))).
  - eexists. split; [eapply bo_overlap; [done|done|..|done]; intros E; rewrite E in *; set_solver|].
    split; [lia|]. intros x y Hy. cbn beta. rewrite (remains_head a r1 b r2 yb) by (done || lia).
    replace (r_top a <=? y) with true by lia. by replace (r_top b <=? y) with true by lia.
  - exists (λ _, false). split; [by apply band_emits_none|]. split; intros; lia.
Qed.

(** What the main loop leaves: its result is complete down to the cursor, and a
    source is exhausted. *)
Definition loop_post (w : world) (ext : rectangle)
    (res : option (list rectangle * list rectangle * Z * nat)) (g : region) (w' : world) : Prop :=
  outcome w w' (bool_decide (is_Some res)) ∧ room g ∧ rg_extents g = ext ∧
  match res with
  | None => True
  | Some (r1, r2, yb, k) =>
      built F g k yb ∧ side r1 yb ∧ side r2 yb ∧ (r1 = [] ∨ r2 = []) ∧ remains r1 r2 yb
  end.

Lemma loop_failed w w1 w2 ext g :
  outcome w w1 true → outcome w1 w2 false → room g → rg_extents g = ext → loop_post w ext None g w2.
Proof. intros. split_and!; [|done..]. rewrite bool_decide_eq_false_2; [eauto with outcome|by intros []]. Qed.

Lemma op_loop_built n r1 r2 yb k g w :
  (length r1 + length r2 ≤ n)%nat → r1 ≠ [] → r2 ≠ [] →
  built F g k yb → side r1 yb → side r2 yb →
  ((∀ c, c ∈ r1 → yb ≤ r_top c) ∨ (∀ c, c ∈ r2 → yb ≤ r_top c)) → remains r1 r2 yb →
  wp (op_loop overlap non1 non2 n r1 r2 yb k) g w (loop_post w (rg_extents g)).
Proof.
  revert r1 r2 yb k g w. induction n as [|n IH]; intros [|a r1] [|b r2] yb k g w Hn N1 N2 Hb H1 H2 Hyb HF;
    cbn in Hn; try done; try lia.
  assert (Hab : yb ≤ r_top a ∨ yb ≤ r_top b).
  { destruct Hyb as [Hy|Hy]; [left|right]; apply Hy, elem_of_cons; auto. }
  destruct (first_phase a r1 b r2 yb H1 H2 Hab HF) as (t & yb1 & f1 & Ht & Hty & Hy1 & He1 & Z1 & F1 & Z2).
  destruct (second_phase a r1 b r2 yb H1 H2 HF) as (f2 & He2 & Hy2 & F2); [lia|].
  cbn [op_loop]. rewrite wp_bind, wp_get, wp_bind.
  eapply wp_mono; [apply He1; [apply Hb|]|].
  { intros r Hr. pose proof (built_below _ _ _ _ Hb r Hr). lia. }
  clear He1. intros [] g1 w1 (Ho1 & Hg1 & Ex1 & Hok); cbn [negb].
  2: { rewrite wp_ret. by eapply loop_failed. }
  destruct (Hok eq_refl) as (e & E1 & S1 & X1). rewrite wp_bind.
  eapply (coalesce_new_built F g g1 w1 k yb t yb1 e); try done.
  { intros x y Hy. rewrite X1. by apply (F1 x y). }
  intros k1 g2 Hb2 Ex2. rewrite wp_bind, wp_get, wp_bind.
  set (y1 := if _ <? Z.min _ _ then _ else Z.min _ _) in *.
  eapply built_advance in Hb2; [|exact Hy1|exact Z2].
  eapply wp_mono; [apply He2; [apply Hb2|by eapply built_below]|].
  clear He2. intros [] g3 w2 (Ho2 & Hg3 & Ex3 & Hok2); cbn [negb].
  2: { rewrite wp_ret. eapply loop_failed; [done|done|done|congruence]. }
  destruct (Hok2 eq_refl) as (e2 & E3 & S2 & X2). rewrite wp_bind.
  eapply (coalesce_new_built F g2 g3 w2 k1 y1 y1 _ e2); try done; [lia| |].
  { intros x y Hy. rewrite X2. by apply (F2 x y). }
  intros k2 g4 Hb4 Ex4. clearbody y1.
  set (ybot := Z.min (r_bottom a) (r_bottom b)) in *.
  destruct (side_next a r1 yb ybot H1) as (D1 & I1 & T1 & L1 & M1); [lia|].
  destruct (side_next b r2 yb ybot H2) as (D2 & I2 & T2 & L2 & M2); [lia|].
  assert (HF' : remains (if r_bottom a =? ybot then after_band (a :: r1) else a :: r1)
                        (if r_bottom b =? ybot then after_band (b :: r2) else b :: r2) ybot).
  { intros x y Hy. rewrite I1, I2 by done. apply HF. lia. }
  assert (Hext : rg_extents g4 = rg_extents g) by congruence.
  assert (Ho : outcome w w2 true) by eauto with outcome. cbn in L1, L2, M1, M2.
  set (r1' := if r_bottom a =? ybot then _ else _) in *.
  set (r2' := if r_bottom b =? ybot then _ else _) in *.
  assert (Hend : r1' = [] ∨ r2' = [] → loop_post w (rg_extents g) (Some (r1', r2', ybot, k2)) g4 w2).
  { intros. split_and!; [by rewrite bool_decide_eq_true_2|apply Hb4|done|done|done|done|done|done]. }
  destruct r1' as [|a' q1] eqn:E1'; [rewrite wp_ret; auto|].
  destruct r2' as [|b' q2] eqn:E2'; [rewrite wp_ret; auto|].
  eapply wp_mono; [eapply IH; try done|].
  - destruct (decide (r_bottom a = ybot)); [specialize (M1 e0)|assert (r_bottom b = ybot) as Eb by lia; specialize (M2 Eb)];
      cbn in *; lia.
  - destruct (decide (r_bottom a = ybot)); [left; by apply T1|right; apply T2; lia].
  - intros res g' w' (Ho' & ? & He' & ?). split_and!; [by eapply outcome_trans|done|congruence|done].
Qed.
End RegionOpCorrect.

Lemma rest_loop_emits h (m : list rectangle → Z → Z → M region bool) n r yb yb2 g w :
  h false = false →
  (∀ r t1 b1 t b, strip t1 b1 r → t < b → band_emits (m r t b) t b (λ x, h (xin r x))) →
  (length r ≤ n)%nat → side r yb2 → (∀ c, c ∈ r → Z.max (r_top c) yb = Z.max (r_top c) yb2) →
  room g → below (rg_rects g) yb2 →
  wp (rest_loop n m r yb) g w (λ ok g' w', outcome w w' ok ∧ room g' ∧ rg_extents g' = rg_extents g ∧
    (ok = true → ∃ new, rg_rects g' = rg_rects g ++ new ∧ banded new ∧
       (∀ c, c ∈ new → yb2 ≤ r_top c) ∧ ∀ x y, inb new x y = (yb2 <=? y) && h (inb r x y))).
Proof.
  intros Hh Hm. revert r yb2 g w. induction n as [|n IH]; intros [|a r] yb2 g w Hn Hr Hmax Hg Hb;
    cbn in Hn; try lia; try (cbn [rest_loop]; rewrite wp_ret; split_and!; [done..|]; intros _; exists [];
      rewrite app_nil_r; split_and!; [done|apply banded_nil|set_solver|];
      intros x y; change (inb [] x y) with false; by rewrite Hh, andb_false_r).
  cbn [rest_loop]. rewrite wp_bind, Hmax by (apply elem_of_cons; auto).
  pose proof Hr as [Br Sr]. specialize (Sr a ltac:(apply elem_of_cons; auto)).
  pose proof Br as ([_ Ha] & _)%banded_cons.
  destruct (band_split a r Br) as (E & Hs & Hin & Ba & Hra).
  destruct (side_next a r yb2 (r_bottom a) Hr) as (Hr' & Hi & Ht & _ & Hlen); [lia|].
  rewrite Z.eqb_refl in *. specialize (Hlen eq_refl). specialize (Ht eq_refl).
  eapply wp_mono; [eapply (Hm _ _ _ (Z.max (r_top a) yb2)); [done|lia|done|]|].
  { intros c Hc. specialize (Hb c Hc). lia. }
  intros [] g1 w1 (Ho & Hg1 & Ex & Hok); cbn [negb]; [|by rewrite wp_ret].
  destruct (Hok eq_refl) as (e & E1 & Se & Xe).
  eapply wp_mono; [apply (IH _ (r_bottom a)); [cbn in *; lia|done| |done|]|].
  - intros c Hc. specialize (Ht c Hc). pose proof (Hmax c) as Hc'. rewrite E, elem_of_app in Hc'.
    specialize (Hc' (or_intror Hc)). lia.
  - rewrite E1. intros c [Hc|Hc]%elem_of_app; [specialize (Hb c Hc); lia|by apply (strip_below _ _ _ Se)].
  - cbn beta. intros ok g' w' (Ho' & ? & ? & Hok'). split_and!; [by eapply outcome_trans|done|congruence|].
    intros Hokt. destruct (Hok' Hokt) as (new & E2 & Bn & Tn & Xn). exists (e ++ new).
    split_and!; [by rewrite E2, E1, app_assoc| | |].
    + apply banded_app. split_and!; [apply Se|done|]. intros c d Hc Hd. right.
      destruct Se as [_ Se]. destruct (Se c Hc) as [_ ->]. auto.
    + intros c [Hc|Hc]%elem_of_app; [|specialize (Tn c Hc); lia].
      destruct Se as [_ Se]. destruct (Se c Hc) as [-> _]. lia.
    + intros x y. rewrite inb_app, (inb_strip _ _ _ _ _ Se), Xe, Xn.
      destruct (Z.leb_spec (r_bottom a) y) as [Hy|Hy].
      * rewrite (inb_after a r) by done. replace (yb2 <=? y) with true by lia.
        replace (y <? r_bottom a) with false by lia. by rewrite andb_false_r.
      * rewrite (inb_head a r) by done. replace (y <? r_bottom a) with true by lia.
        cbn [andb]. rewrite orb_false_r, andb_true_r.
        destruct (Z.leb_spec (r_top a) y); cbn [andb]; [f_equal; lia|].
        rewrite Hh, andb_false_r. replace (Z.max (r_top a) yb2 <=? y) with false by lia. done.
Qed.

Lemma wp_shrink g w Q :
  room g →
  (∀ g' w', outcome w w' true → room g' → rg_rects g' = rg_rects g → rg_extents g' = rg_extents g →
     Q tt g' w') → wp shrink_region g w Q.
Proof.
  intros [H2 Hn] HQ. unfold shrink_region. wp_run. destruct (_ && _) eqn:E; wp_run; [|by apply HQ].
  apply wp_malloc. intros [] w' He Hm; cbn [when]; wp_run.
  - apply HQ; [split; [done|naive_solver]| |done|done].
    split; cbn; unfold RGN_DEFAULT_RECTS; [lia|]. unfold num_rects in *; cbn. lia.
  - apply HQ; [split; [done|naive_solver]|by split|done|done].
Qed.

Section RegionOpTheorem.
Context {f : bool → bool → bool}.
Context {overlap : list rectangle → list rectangle → Z → Z → M region bool}.
Context {non1 non2 : option (list rectangle → Z → Z → M region bool)}.
Context {Hop : BandOp f overlap non1 non2}.

(** The bands that remain when a source is exhausted. *)
Lemma op_rest_emits F r1 r2 yb g k w :
  built F g k yb → side r1 yb → side r2 yb → (r1 = [] ∨ r2 = []) → remains (f:=f) F r1 r2 yb →
  wp (op_rest non1 non2 r1 r2 yb) g w (λ ok g' w', outcome w w' ok ∧ room g' ∧ rg_extents g' = rg_extents g ∧
    (ok = true → ∃ new, rg_rects g' = rg_rects g ++ new ∧ banded new ∧
       (∀ c, c ∈ new → yb ≤ r_top c) ∧ ∀ x y, inb new x y = (yb <=? y) && F x y)).
Proof.
  intros Hb H1 H2 Hor HF.
  assert (Hno : (∀ x y, yb ≤ y → F x y = false) →
    wp (ret true) g w (λ ok g' w', outcome w w' ok ∧ room g' ∧ rg_extents g' = rg_extents g ∧
    (ok = true → ∃ new, rg_rects g' = rg_rects g ++ new ∧ banded new ∧
       (∀ c, c ∈ new → yb ≤ r_top c) ∧ ∀ x y, inb new x y = (yb <=? y) && F x y))).
  { intros HF0. rewrite wp_ret. split_and!; [done|apply Hb|done|]. intros _. exists [].
    rewrite app_nil_r. split_and!; [done|apply banded_nil|set_solver|]. intros x y.
    change (inb [] x y) with false. destruct (Z.leb_spec yb y); [by rewrite HF0|done]. }
  assert (Hgo : ∀ h m r, h false = false →
    (∀ r t1 b1 t b, strip t1 b1 r → t < b → band_emits (m r t b) t b (λ x, h (xin r x))) →
    side r yb → (∀ x y, yb ≤ y → F x y = h (inb r x y)) →
    wp (rest_loop (length r) m r yb) g w (λ ok g' w', outcome w w' ok ∧ room g' ∧
      rg_extents g' = rg_extents g ∧ (ok = true → ∃ new, rg_rects g' = rg_rects g ++ new ∧ banded new ∧
       (∀ c, c ∈ new → yb ≤ r_top c) ∧ ∀ x y, inb new x y = (yb <=? y) && F x y))).
  { intros h m r Hh Hm Hr Hx. eapply wp_mono; [apply (rest_loop_emits h m _ r yb yb); try done|].
    - apply Hb.
    - by eapply built_below.
    - cbn beta. intros ok g' w' (? & ? & ? & Hok). split_and!; [done..|]. intros Ht.
      destruct (Hok Ht) as (new & ? & ? & ? & Hn). exists new. split_and!; [done..|].
      intros x y. rewrite Hn. destruct (Z.leb_spec yb y); [by rewrite Hx|done]. }
  assert (Hout : f false false = false) by apply bo_outside.
  unfold op_rest. destruct r1 as [|a r1].
  - destruct r2 as [|b r2]; [apply Hno; intros x y Hy; by rewrite HF|].
    destruct non2 as [m|] eqn:En.
    + apply (Hgo (λ v, f false v)); [done| |done|by apply HF].
      intros r t1 b1 t b' Hr Htb. exact (@bo_non2 _ _ _ _ Hop r t1 b1 t b' Hr Htb).
    + apply Hno. intros x y Hy. rewrite HF by done. change (inb [] x y) with false.
      pose proof (@bo_non2 _ _ _ _ Hop [] 0 0 0 1 (strip_nil _ _) ltac:(lia)) as Hf. cbn in Hf.
      by destruct (inb (b :: r2) x y).
  - destruct Hor as [?| ->]; [done|]. destruct non1 as [m|] eqn:En.
    + apply (Hgo (λ v, f v false)); [done| |done|by apply HF].
      intros r t1 b1 t b' Hr Htb. exact (@bo_non1 _ _ _ _ Hop r t1 b1 t b' Hr Htb).
    + apply Hno. intros x y Hy. rewrite HF by done. change (inb [] x y) with false.
      pose proof (@bo_non1 _ _ _ _ Hop [] 0 0 0 1 (strip_nil _ _) ltac:(lia)) as Hf. cbn in Hf.
      by destruct (inb (a :: r1) x y).
Qed.
End RegionOpTheorem.

(** ** Well-formed regions *)

(** The extents bound the points, and each side is reached. *)
Definition bounding (l : list rectangle) (e : rectangle) : Prop :=
  (∀ x y, inb l x y = true → point_in_rect e x y = true) ∧
  (∃ y, inb l (r_left e) y = true) ∧ (∃ x, inb l x (r_top e) = true) ∧
  (∃ y, inb l (r_right e - 1) y = true) ∧ (∃ x, inb l x (r_bottom e - 1) = true).

Definition region_ok (g : region) : Prop :=
  room g ∧ banded (rg_rects g) ∧
  match rg_rects g with [] => rg_extents g = empty_rect | l => bounding l (rg_extents g) end.

Lemma inb_corner a l : nonempty a → a ∈ l → inb l (r_left a) (r_top a) = true ∧
  inb l (r_right a - 1) (r_top a) = true ∧ inb l (r_left a) (r_bottom a - 1) = true.
Proof.
  intros [? ?] Ha. split_and!; apply inb_spec; exists a; (split; [done|]); apply point_in_rect_spec; lia.
Qed.

Lemma region_ok_side g a l :
  region_ok g → rg_rects g = a :: l →
  bounding (a :: l) (rg_extents g) ∧ ∀ c, c ∈ a :: l → r_top (rg_extents g) ≤ r_top c.
Proof.
  intros (_ & Hb & He) E. rewrite E in He, Hb. split; [done|]. intros c Hc.
  destruct Hb as [Hn _]. rewrite Forall_forall in Hn. pose proof (Hn c Hc) as Nc.
  destruct (inb_corner c (a :: l) Nc Hc) as (Hin & _). apply He in Hin. apply point_in_rect_spec in Hin. lia.
Qed.

(** [region_op] on two well-formed regions that are not empty: the points of the
    result are those that [f] selects. *)
Lemma region_op_correct f overlap non1 non2 g1 g2 d w :
  BandOp f overlap non1 non2 → room d →
  region_ok g1 → region_ok g2 → rg_rects g1 ≠ [] → rg_rects g2 ≠ [] →
  wp (region_op overlap non1 non2 g1 g2) d w (λ ok d' w', outcome w w' ok ∧ room d' ∧
    rg_extents d' = rg_extents d ∧
    (ok = true → banded (rg_rects d') ∧
       ∀ x y, in_region d' x y = f (in_region g1 x y) (in_region g2 x y))).
Proof.
  intros Hop Hd H1 H2 N1 N2. unfold region_op. rewrite wp_bind.
  apply wp_mem_alloc_outcome. intros [] w1 Ho; cbn [negb]; [|by rewrite wp_ret].
  rewrite wp_bind, wp_get, wp_bind, wp_put, wp_bind.
  set (yb := if _ <? _ then _ else _). set (d0 := Region _ [] _).
  set (F := λ x y, f (in_region g1 x y) (in_region g2 x y)).
  destruct (rg_rects g1) as [|a l1] eqn:E1; [done|]. destruct (rg_rects g2) as [|b l2] eqn:E2; [done|].
  destruct (region_ok_side g1 a l1 H1 E1) as [X1 T1]. destruct (region_ok_side g2 b l2 H2 E2) as [X2 T2].
  assert (Hyb : yb ≤ r_top (rg_extents g1) ∧ yb ≤ r_top (rg_extents g2)).
  { unfold yb. destruct (Z.ltb_spec (r_top (rg_extents g1)) (r_top (rg_extents g2))); lia. }
  pose proof H1 as (_ & B1 & _). pose proof H2 as (_ & B2 & _). rewrite E1 in B1. rewrite E2 in B2.
  assert (S : ∀ l e, banded l → (∀ c, c ∈ l → r_top e ≤ r_top c) → yb ≤ r_top e → side l yb).
  { intros l e Hb Ht He. split; [done|]. intros c Hc. specialize (Ht c Hc). destruct Hb as [Hn _].
    rewrite Forall_forall in Hn. destruct (Hn c Hc). lia. }
  assert (Hempty : ∀ x y, y < yb → F x y = false).
  { intros x y Hy. unfold F, in_region. rewrite E1, E2.
    replace (inb (a :: l1) x y) with false; [replace (inb (b :: l2) x y) with false; [apply bo_outside|]|];
      symmetry; apply inb_false; intros c Hc; [specialize (T2 c Hc)|specialize (T1 c Hc)];
      unfold point_in_rect; lia. }
  assert (Hb0 : built F d0 0 yb).
  { split_and!; [unfold d0, room, num_rects; cbn; rewrite E1, E2; cbn; lia|apply banded_nil| |].
    - exists [], [], yb, yb. split_and!; [done|done|apply strip_nil|done|intros ? []%not_elem_of_nil].
    - intros x y. change (inb (rg_rects d0) x y) with false.
      destruct (Z.ltb_spec y yb); [by rewrite Hempty|done]. }
  assert (HF : remains (f:=f) F (a :: l1) (b :: l2) yb) by (intros x y _; unfold F, in_region; by rewrite E1, E2).
  eapply wp_mono; [eapply op_loop_built; [reflexivity|done|done|exact Hb0|eapply S; [done|exact T1|apply Hyb]|eapply S; [done|exact T2|apply Hyb]| |exact HF]|].
  { left. intros c Hc. specialize (T1 c Hc). lia. }
  intros [[[[r1 r2] yb'] k]|] g' w' (Ho' & Hr' & Ex' & Hpost).
  2: { rewrite wp_ret. split_and!; [|done..]. eapply outcome_trans; [done|].
       by rewrite bool_decide_eq_false_2 in Ho' by (by intros []). }
  rewrite bool_decide_eq_true_2 in Ho' by eauto.
  destruct Hpost as (Hb & D1 & D2 & Hor & HF'). rewrite wp_bind, wp_get, wp_bind.
  eapply wp_mono; [by eapply op_rest_emits|].
  intros [] g3 w3 (Ho3 & Hr3 & Ex3 & Hok); cbn [negb].
  2: { rewrite wp_ret. split_and!; [|done|by rewrite Ex3, Ex'|done]. eauto with outcome. }
  destruct (Hok eq_refl) as (new & E3 & Bn & Tn & Xn).
  pose proof (built_below _ _ _ _ Hb) as Hlow. destruct Hb as (_ & Bd & Hlast & Xd).
  assert (Hon : ∀ c d, c ∈ rg_rects g' → d ∈ new → r_bottom c ≤ r_top d).
  { intros c e Hc He. specialize (Hlow c Hc). specialize (Tn e He). lia. }
  assert (Ball : banded (rg_rects g' ++ new)).
  { apply banded_app. split_and!; [done..|]. intros. right. auto. }
  assert (Xall : ∀ x y, inb (rg_rects g' ++ new) x y = F x y).
  { intros x y. rewrite inb_app, Xd, Xn. destruct (F x y); lia. }
  assert (Hfin : ∀ g4, room g4 → banded (rg_rects g4) → rg_extents g4 = rg_extents g3 →
    (∀ x y, inb (rg_rects g4) x y = F x y) →
    wp (shrink_region >> ret true) g4 w3 (λ ok d' w', outcome w w' ok ∧ room d' ∧
      rg_extents d' = rg_extents d ∧ (ok = true → banded (rg_rects d') ∧ ∀ x y, in_region d' x y = F x y))).
  { intros g4 Hr4 B4 Ex4 X4. rewrite wp_bind. apply wp_shrink; [done|].
    intros g5 w5 Ho5 Hr5 E5 Ex5. rewrite wp_ret. unfold in_region. rewrite E5.
    split_and!; [by eauto 10 with outcome|done|by rewrite Ex5, Ex4, Ex3, Ex'|done]. }
  rewrite wp_bind. unfold coalesce_new. rewrite wp_bind, wp_get. rewrite E3, length_app.
  destruct new as [|c new].
  { rewrite Nat.add_0_r, Nat.eqb_refl, wp_ret. rewrite app_nil_r in *. apply Hfin; [done|by rewrite E3|done|].
    by rewrite E3. }
  replace (_ =? _)%nat with false by (symmetry; apply Nat.eqb_neq; cbn; lia).
  eapply wp_mono; [by apply (coalesce_spec g3 w3 k (rg_rects g') (c :: new))|].
  intros k' g4 w4 (-> & ? & ? & ? & X4 & _). apply Hfin; [done..|]. intros. by rewrite X4, Xall.
Qed.

(** ** Extents *)

Lemma foldl_min_spec (l : list rectangle) m :
  let z := foldl (λ m a, Z.min m (r_left a)) m l in
  z ≤ m ∧ (∀ a, a ∈ l → z ≤ r_left a) ∧ (z = m ∨ ∃ a, a ∈ l ∧ z = r_left a).
Proof.
  revert m. induction l as [|a l IH]; intros m; cbn; [split_and!; [lia|set_solver|auto]|].
  destruct (IH (Z.min m (r_left a))) as (H1 & H2 & H3). cbn in *. split_and!; [lia| |].
  - intros b [->|Hb]%elem_of_cons; [lia|auto].
  - destruct H3 as [H3|(b & Hb & H3)]; [|right; exists b; rewrite elem_of_cons; auto].
    destruct (Z.min_spec m (r_left a)) as [[_ E]|[_ E]]; rewrite E in *; [auto|].
    right. exists a. rewrite elem_of_cons. auto.
Qed.

Lemma foldl_max_spec (l : list rectangle) m :
  let z := foldl (λ m a, Z.max m (r_right a)) m l in
  m ≤ z ∧ (∀ a, a ∈ l → r_right a ≤ z) ∧ (z = m ∨ ∃ a, a ∈ l ∧ z = r_right a).
Proof.
  revert m. induction l as [|a l IH]; intros m; cbn; [split_and!; [lia|set_solver|auto]|].
  destruct (IH (Z.max m (r_right a))) as (H1 & H2 & H3). cbn in *. split_and!; [lia| |].
  - intros b [->|Hb]%elem_of_cons; [lia|auto].
  - destruct H3 as [H3|(b & Hb & H3)]; [|right; exists b; rewrite elem_of_cons; auto].
    destruct (Z.max_spec m (r_right a)) as [[_ E]|[_ E]]; rewrite E in *; [|auto].
    right. exists a. rewrite elem_of_cons. auto.
Qed.

Lemma last_in (l : list rectangle) r : l ≠ [] → List.last l r ∈ l.
Proof. intros Hl. destruct (exists_last Hl) as (l' & z & ->). rewrite List.last_last. set_solver. Qed.

Lemma extents_of_bounding l : banded l → l ≠ [] → bounding l (extents_of l).
Proof.
  intros Hb Hne. destruct l as [|a l']; [done|]. unfold extents_of. cbv zeta.
  set (l := a :: l') in *. set (z := List.last l a).
  assert (Hz : z ∈ l) by by apply last_in. assert (Ha : a ∈ l) by (apply elem_of_cons; auto).
  assert (Hn : ∀ c, c ∈ l → nonempty c) by (destruct Hb as [Hn _]; by rewrite Forall_forall in Hn).
  assert (Htop : ∀ c, c ∈ l → r_top a ≤ r_top c).
  { intros c [->|Hc]%elem_of_cons; [lia|]. pose proof Hb as ([_ ?] & _ & Hac)%banded_cons.
    specialize (Hac c Hc). unfold before in Hac. lia. }
  assert (Hbot : ∀ c, c ∈ l → r_bottom c ≤ r_bottom z).
  { unfold z. destruct (exists_last Hne) as (l1 & z' & E). rewrite E in Hb, Hn |- *.
    rewrite List.last_last. apply banded_app in Hb as (_ & _ & Hl1).
    intros c [Hc|Hc]%elem_of_app.
    - specialize (Hl1 c z' Hc ltac:(set_solver)). destruct (Hn z' ltac:(set_solver)). unfold before in Hl1. lia.
    - apply list_elem_of_singleton in Hc as ->. lia. }
  destruct (foldl_min_spec l (r_left a)) as (Lm & Lall & Lat).
  destruct (foldl_max_spec l (r_right z)) as (Rm & Rall & Rat). cbv zeta in *.
  split; [|split_and!]; cbn [r_left r_top r_right r_bottom].
  - intros x y (c & Hc & Hp)%inb_spec. apply point_in_rect_spec in Hp. apply point_in_rect_spec. cbn [r_left r_top r_right r_bottom].
    specialize (Lall c Hc). specialize (Rall c Hc). specialize (Htop c Hc). specialize (Hbot c Hc). lia.
  - destruct Lat as [E|(c & Hc & E)]; rewrite E; eexists; eapply inb_corner; eauto.
  - eexists. eapply (inb_corner a); auto.
  - destruct Rat as [E|(c & Hc & E)]; rewrite E; eexists; eapply inb_corner; eauto.
  - eexists. eapply (inb_corner z); auto.
Qed.

Lemma region_ok_extents n l :
  2 ≤ n → Z.of_nat (length l) ≤ n → banded l → region_ok (Region n l (extents_of l)).
Proof.
  intros H2 Hn Hb. split_and!; [by split|done|]. cbn. destruct l as [|a l]; [done|].
  by apply extents_of_bounding.
Qed.

Lemma wp_set_region_extents d w Q :
  room d → banded (rg_rects d) →
  (∀ d', region_ok d' → rg_rects d' = rg_rects d → Q tt d' w) → wp set_region_extents d w Q.
Proof.
  intros [H2 Hn] Hb HQ. unfold set_region_extents. wp_run. apply HQ; [|done].
  by apply region_ok_extents.
Qed.

Lemma in_region_extents g x y : region_ok g → in_region g x y = true → point_in_rect (rg_extents g) x y = true.
Proof. intros (_ & _ & He) Hi. unfold in_region in Hi. destruct (rg_rects g); [done|]. by apply He. Qed.

Lemma bounding_nonempty l e : bounding l e → nonempty e.
Proof.
  intros (Hin & (y & Hy) & (x & Hx) & _). apply Hin in Hy, Hx.
  apply point_in_rect_spec in Hy, Hx. split; lia.
Qed.

Lemma num_rects_0 g : (num_rects g =? 0) = true ↔ rg_rects g = [].
Proof. unfold num_rects. rewrite Z.eqb_eq. destruct (rg_rects g); cbn; split; try done; lia. Qed.

Lemma num_rects_not_0 g : (num_rects g =? 0) = false ↔ rg_rects g ≠ [].
Proof. rewrite <- num_rects_0. by destruct (num_rects g =? 0). Qed.

Lemma extent_check_disjoint g1 g2 x y :
  region_ok g1 → region_ok g2 →
  (num_rects g1 =? 0) || (num_rects g2 =? 0) || negb (extent_check (rg_extents g1) (rg_extents g2)) = true →
  in_region g1 x y && in_region g2 x y = false.
Proof.
  intros H1 H2 Hc. apply not_true_iff_false. intros [I1 I2]%andb_true_iff.
  pose proof (in_region_extents g1 x y H1 I1) as P1. pose proof (in_region_extents g2 x y H2 I2) as P2.
  apply point_in_rect_spec in P1, P2. unfold in_region in *.
  apply orb_true_iff in Hc as [[Hc%num_rects_0|Hc%num_rects_0]%orb_true_iff|Hc].
  - by rewrite Hc in I1.
  - by rewrite Hc in I2.
  - apply negb_true_iff in Hc. unfold extent_check in Hc. lia.
Qed.

(** A single rectangle is its own extents. *)
Lemma bounding_single r e : nonempty r → bounding [r] e → r = e.
Proof.
  intros Hr (Hin & (y1 & H1) & (x1 & H2) & (y2 & H3) & (x2 & H4)).
  destruct (inb_corner r [r] Hr ltac:(set_solver)) as (C1 & C2 & C3).
  apply Hin in C1, C2, C3. unfold inb in H1, H2, H3, H4. cbn [existsb] in *. rewrite orb_false_r in *.
  apply point_in_rect_spec in C1, C2, C3, H1, H2, H3, H4. destruct r, e, Hr; cbn in *. f_equal; lia.
Qed.

Lemma covers_union g1 g2 x y :
  region_ok g1 → region_ok g2 → covers g1 g2 = true → in_region g2 x y = true → in_region g1 x y = true.
Proof.
  intros H1 H2 Hc Hi. pose proof (in_region_extents g2 x y H2 Hi) as P2. apply point_in_rect_spec in P2.
  destruct H1 as (_ & Hb & He). unfold covers in Hc. rewrite !andb_true_iff, Z.eqb_eq in Hc.
  unfold num_rects, in_region in *. destruct (rg_rects g1) as [|r [|? l]]; cbn [length] in Hc; try lia.
  apply banded_cons in Hb as (Hr & _ & _). rewrite (bounding_single r (rg_extents g1) Hr He) at 1.
  unfold inb. cbn [existsb]. rewrite orb_false_r. apply point_in_rect_spec. lia.
Qed.

(** ** The operations on region objects *)

(** What an operation does to the store: [dst] becomes a well-formed region with
    the points [F], or the allocation failed and [dst] may hold a partial result.
    No other region changes. *)
Definition op_post (st : regions) (w : world) (dst : Z) (F : Z → Z → bool)
    (p : option Z) (st' : regions) (w' : world) : Prop :=
  outcome w w' (bool_decide (is_Some p)) ∧
  match p with
  | Some q => q = dst ∧ ∃ d, st' = <[dst := d]> st ∧ region_ok d ∧ ∀ x y, in_region d x y = F x y
  | None => ∃ d, st' = <[dst := d]> st ∧ room d
  end.

Lemma op_post_some st w dst F st' w' d :
  outcome w w' true → st' = <[dst := d]> st → region_ok d → (∀ x y, in_region d x y = F x y) →
  op_post st w dst F (Some dst) st' w'.
Proof. intros. split; [by rewrite bool_decide_eq_true_2|]. split; [done|]. by exists d. Qed.

Lemma op_post_none st w dst F st' w' d :
  outcome w w' false → st' = <[dst := d]> st → room d → op_post st w dst F None st' w'.
Proof. intros. split; [rewrite bool_decide_eq_false_2; [done|by intros []]|]. by exists d. Qed.

Lemma op_post_ext st w dst F F' p st' w' :
  op_post st w dst F' p st' w' → (∀ x y, F' x y = F x y) → op_post st w dst F p st' w'.
Proof.
  intros [Ho Hp] HF. split; [done|]. destruct p; [|done]. destruct Hp as (? & d & ? & ? & Hd).
  split; [done|]. exists d. split_and!; [done..|]. intros. by rewrite Hd.
Qed.

Lemma copy_region_correct dst src st w d g :
  st !! dst = Some d → room d → st !! src = Some g → region_ok g →
  wp (copy_region dst src) st w (op_post st w dst (in_region g)).
Proof.
  intros Hd Hrd Hg Hok. unfold copy_region. destruct (Z.eqb_spec dst src) as [->|Hne].
  { rewrite wp_ret. eapply op_post_some; [done| |exact Hok|done]. by rewrite insert_id. }
  rewrite wp_bind. eapply wp_read_object; [done|]. rewrite wp_bind. eapply wp_on_object; [done|].
  pose proof Hok as ([? ?] & ? & ?). destruct Hrd as [? ?].
  assert (Hend : ∀ d' w', outcome w w' true → num_rects g ≤ rg_size d' → 2 ≤ rg_size d' →
    wp (on_object dst (modify (λ d, Region (rg_size d) (rg_rects g) (rg_extents g))))
      (<[dst := d']> st) w' (λ _ st' w', wp (ret (Some dst)) st' w' (op_post st w dst (in_region g)))).
  { intros d' w' Ho Hn H2'. eapply wp_on_object; [apply lookup_insert_eq|].
    rewrite wp_modify, wp_ret, ?insert_insert_eq. eapply op_post_some; [done|reflexivity| |done]. by split. }
  wp_run. destruct (Z.ltb_spec (rg_size d) (num_rects g)); wp_run.
  - apply wp_malloc. intros [] w' He Hm; wp_run.
    + apply Hend; [split; [done|naive_solver]|cbn; lia..].
    + eapply op_post_none; [split; [done|naive_solver]|reflexivity|by split].
  - apply Hend; [done|lia..].
Qed.

(** [region_op] on two objects of the store, then the extents. *)
Lemma region_op_object f overlap non1 non2 dst st w d g1 g2 :
  BandOp f overlap non1 non2 → st !! dst = Some d → room d →
  region_ok g1 → region_ok g2 → rg_rects g1 ≠ [] → rg_rects g2 ≠ [] →
  wp (let* ok := on_object dst (region_op overlap non1 non2 g1 g2) in
      if negb ok then ret None else on_object dst set_region_extents >> ret (Some dst)) st w
     (op_post st w dst (λ x y, f (in_region g1 x y) (in_region g2 x y))).
Proof.
  intros Hop Hd Hr H1 H2 N1 N2. rewrite wp_bind. eapply wp_on_object; [done|].
  eapply wp_mono; [by eapply (region_op_correct f)|].
  intros [] d' w' (Ho & Hr' & _ & Hok); cbn [negb].
  - destruct (Hok eq_refl) as [Hb Hi]. rewrite wp_bind. eapply wp_on_object; [apply lookup_insert_eq|].
    apply wp_set_region_extents; [done..|]. intros d2 Hok2 E2. rewrite wp_ret, ?insert_insert_eq.
    eapply op_post_some; [done|reflexivity|done|]. intros x y. rewrite <- Hi. unfold in_region. by rewrite E2.
  - rewrite wp_ret. by eapply op_post_none.
Qed.

Section RegionOperations.
Context (dst src1 src2 : Z) (st : regions) (w : world) (d g1 g2 : region).
Context (Hd : st !! dst = Some d) (Hroom : room d).
Context (Hg1 : st !! src1 = Some g1) (Hg2 : st !! src2 = Some g2).
Context (Hok1 : region_ok g1) (Hok2 : region_ok g2).

Lemma intersect_region_post :
  wp (intersect_region dst src1 src2) st w (op_post st w dst (λ x y, in_region g1 x y && in_region g2 x y)).
Proof.
  unfold intersect_region. rewrite wp_bind. eapply wp_read_object; [exact Hg1|].
  rewrite wp_bind. eapply wp_read_object; [exact Hg2|].
  destruct ((num_rects g1 =? 0) || (num_rects g2 =? 0) || _) eqn:E.
  - rewrite wp_bind. eapply wp_on_object; [done|]. rewrite wp_modify, wp_ret.
    destruct Hroom. eapply op_post_some; [done|reflexivity| |].
    + split_and!; [split; cbn; [done|unfold num_rects; cbn; lia]|apply banded_nil|done].
    + intros x y. symmetry. by apply extent_check_disjoint.
  - apply orb_false_iff in E as [[E1%num_rects_not_0 E2%num_rects_not_0]%orb_false_iff _].
    eapply (region_op_object andb); [apply _|done..].
Qed.

Lemma subtract_region_post :
  wp (subtract_region dst src1 src2) st w
     (op_post st w dst (λ x y, in_region g1 x y && negb (in_region g2 x y))).
Proof.
  unfold subtract_region. rewrite wp_bind. eapply wp_read_object; [exact Hg1|].
  rewrite wp_bind. eapply wp_read_object; [exact Hg2|].
  destruct ((num_rects g1 =? 0) || (num_rects g2 =? 0) || _) eqn:E.
  - eapply wp_mono; [by eapply (copy_region_correct dst src1)|]. intros p st' w' H. cbn beta.
    eapply op_post_ext; [exact H|]. intros x y.
    pose proof (extent_check_disjoint g1 g2 x y Hok1 Hok2 E). destruct (in_region g1 x y), (in_region g2 x y); done.
  - apply orb_false_iff in E as [[E1%num_rects_not_0 E2%num_rects_not_0]%orb_false_iff _].
    eapply (region_op_object (λ p q, p && negb q)); [apply _|done..].
Qed.

Lemma bounding_join l l1 l2 e1 e2 :
  bounding l1 e1 → bounding l2 e2 → (∀ x y, inb l x y = inb l1 x y || inb l2 x y) →
  bounding l (join_rect e1 e2).
Proof.
  intros (I1 & (a1 & L1) & (b1 & T1) & (c1 & R1) & (d1 & B1)) (I2 & (a2 & L2) & (b2 & T2) & (c2 & R2) & (d2 & B2)) Hx.
  unfold join_rect. split; [|split_and!]; cbn.
  - intros x y. rewrite Hx. intros [H%I1|H%I2]%orb_true_iff; apply point_in_rect_spec in H;
      apply point_in_rect_spec; cbn; lia.
  - destruct (Z.min_spec (r_left e1) (r_left e2)) as [[_ ->]|[_ ->]]; [exists a1|exists a2]; rewrite Hx; apply orb_true_iff; auto.
  - destruct (Z.min_spec (r_top e1) (r_top e2)) as [[_ ->]|[_ ->]]; [exists b1|exists b2]; rewrite Hx; apply orb_true_iff; auto.
  - destruct (Z.max_spec (r_right e1) (r_right e2)) as [[_ ->]|[_ ->]]; [exists c2|exists c1]; rewrite Hx; apply orb_true_iff; auto.
  - destruct (Z.max_spec (r_bottom e1) (r_bottom e2)) as [[_ ->]|[_ ->]]; [exists d2|exists d1]; rewrite Hx; apply orb_true_iff; auto.
Qed.

Lemma union_region_post :
  wp (union_region dst src1 src2) st w (op_post st w dst (λ x y, in_region g1 x y || in_region g2 x y)).
Proof.
  assert (C1 : (∀ x y, in_region g1 x y = in_region g1 x y || in_region g2 x y) →
    wp (copy_region dst src1) st w (op_post st w dst (λ x y, in_region g1 x y || in_region g2 x y))).
  { intros Hx. eapply wp_mono; [by eapply (copy_region_correct dst src1)|]. intros p st' w' H.
    by eapply op_post_ext. }
  assert (C2 : (∀ x y, in_region g2 x y = in_region g1 x y || in_region g2 x y) →
    wp (copy_region dst src2) st w (op_post st w dst (λ x y, in_region g1 x y || in_region g2 x y))).
  { intros Hx. eapply wp_mono; [by eapply (copy_region_correct dst src2)|]. intros p st' w' H.
    by eapply op_post_ext. }
  unfold union_region. destruct (Z.eqb_spec src1 src2) as [Es|].
  { apply C1. intros. assert (g1 = g2) as -> by congruence. by rewrite orb_diag. }
  rewrite wp_bind. eapply wp_read_object; [exact Hg1|].
  rewrite wp_bind. eapply wp_read_object; [exact Hg2|].
  destruct (num_rects g1 =? 0) eqn:E1.
  { apply C2. intros. apply num_rects_0 in E1. unfold in_region. by rewrite E1. }
  destruct (num_rects g2 =? 0) eqn:E2.
  { apply C1. intros. apply num_rects_0 in E2. unfold in_region. rewrite E2.
    change (inb [] x y) with false. by rewrite orb_false_r. }
  destruct (covers g1 g2) eqn:Ec1.
  { apply C1. intros x y. pose proof (covers_union g1 g2 x y Hok1 Hok2 Ec1).
    destruct (in_region g1 x y), (in_region g2 x y); naive_solver. }
  destruct (covers g2 g1) eqn:Ec2.
  { apply C2. intros x y. pose proof (covers_union g2 g1 x y Hok2 Hok1 Ec2).
    destruct (in_region g1 x y), (in_region g2 x y); naive_solver. }
  apply num_rects_not_0 in E1, E2. rewrite wp_bind. eapply wp_on_object; [done|].
  eapply wp_mono; [eapply (region_op_correct orb); [apply _|done..]|].
  intros [] d' w' (Ho & Hr' & Hex & Hok); cbn [negb]; [|rewrite wp_ret; by eapply op_post_none].
  destruct (Hok eq_refl) as [Hb Hi].
  assert (Hread : ∀ p g, st !! p = Some g →
    ∃ g', <[dst := d']> st !! p = Some g' ∧ rg_extents g' = rg_extents g).
  { intros p g Hp. destruct (decide (p = dst)) as [->|].
    - exists d'. rewrite lookup_insert_eq. split; [done|]. congruence.
    - exists g. by rewrite lookup_insert_ne. }
  destruct (Hread src1 g1 Hg1) as (g1' & L1 & X1). destruct (Hread src2 g2 Hg2) as (g2' & L2 & X2).
  rewrite wp_bind. eapply wp_read_object; [exact L1|]. rewrite wp_bind. eapply wp_read_object; [exact L2|].
  rewrite wp_bind. eapply wp_on_object; [apply lookup_insert_eq|].
  rewrite wp_modify, wp_ret, ?insert_insert_eq, X1, X2.
  eapply op_post_some; [done|reflexivity| |done].
  split_and!; [done|done|]. cbn [rg_rects set_extents rg_extents]. unfold in_region in Hi.
  assert (Hj : bounding (rg_rects d') (join_rect (rg_extents g1) (rg_extents g2))).
  { destruct Hok1 as (_ & _ & B1), Hok2 as (_ & _ & B2).
    destruct (rg_rects g1); [done|]. destruct (rg_rects g2); [done|]. by eapply bounding_join. }
  destruct (rg_rects d'); [|done]. by destruct Hj as (_ & (? & ?) & _).
Qed.
End RegionOperations.

Lemma wp_create_empty_region st w Q :
  (∀ w', outcome w w' true → Q (Some (new_key st)) (<[new_key st := Region RGN_DEFAULT_RECTS [] empty_rect]> st) w') →
  (∀ w', outcome w w' false → Q None st w') →
  wp create_empty_region st w Q.
Proof.
  intros Ht Hf. unfold create_empty_region. rewrite wp_bind. apply wp_mem_alloc_outcome.
  intros [] w1 H1; cbn [negb]; [|rewrite wp_ret; auto].
  rewrite wp_bind. apply wp_mem_alloc_outcome. intros [] w2 H2; cbn [negb].
  - wp_run. apply Ht. eauto with outcome.
  - rewrite wp_ret. apply Hf. eauto with outcome.
Qed.

Lemma empty_region_ok : region_ok (Region RGN_DEFAULT_RECTS [] empty_rect).
Proof. split_and!; [by split|apply banded_nil|done]. Qed.

(** Deleting the temporary region of [xor_region]. *)
Lemma op_post_delete st w dst F F' w1 tmp r st' w' t :
  st !! tmp = None → tmp ≠ dst → outcome w w1 true →
  (is_Some r → ∀ x y, F x y = F' x y) →
  op_post (<[tmp := t]> st) w1 dst F r st' w' →
  wp (free_region tmp >> ret (match r with None => None | Some _ => Some dst end)) st' w' (op_post st w dst F').
Proof.
  intros Htmp Hne Ho HF [Ho' Hp]. unfold free_region.
  assert (Hdel : ∀ d : region, delete tmp (<[dst := d]> (<[tmp := t]> st)) = <[dst := d]> st).
  { intros d. rewrite delete_insert_ne by done. by rewrite delete_insert_id. }
  assert (Hin : ∀ d : region, <[dst := d]> (<[tmp := t]> st) !! tmp = Some t)
    by (intros; rewrite lookup_insert_ne by done; apply lookup_insert_eq).
  rewrite !wp_bind.
  destruct r as [q|].
  - destruct Hp as (-> & d & -> & Hok & Hx). eapply wp_read_object; [apply Hin|].
    rewrite wp_modify, wp_ret, Hdel. rewrite bool_decide_eq_true_2 in Ho' by done.
    eapply op_post_some; [by eapply outcome_trans|done|exact Hok|]. intros. rewrite Hx. by apply HF.
  - destruct Hp as (d & -> & Hr). eapply wp_read_object; [apply Hin|].
    rewrite wp_modify, wp_ret, Hdel. rewrite bool_decide_eq_false_2 in Ho' by (by intros []).
    eapply op_post_none; [by eapply outcome_trans|done|done].
Qed.

Lemma xor_region_post dst src1 src2 st w d g1 g2 :
  st !! dst = Some d → room d → st !! src1 = Some g1 → st !! src2 = Some g2 →
  region_ok g1 → region_ok g2 →
  wp (xor_region dst src1 src2) st w (op_post st w dst (λ x y, xorb (in_region g1 x y) (in_region g2 x y))).
Proof.
  intros Hd Hr H1 H2 Ok1 Ok2. unfold xor_region. rewrite wp_bind.
  apply wp_create_empty_region; intros w1 Ho1.
  2: { rewrite wp_ret. eapply op_post_none; [done| |exact Hr]. by rewrite insert_id. }
  cbv beta iota. set (tmp := new_key st). set (e := Region _ _ _).
  assert (Htmp : st !! tmp = None) by apply new_key_fresh.
  assert (Hne : ∀ p g, st !! p = Some g → tmp ≠ p) by congruence.
  assert (Hlk : ∀ p g (t : region), st !! p = Some g → <[tmp := t]> st !! p = Some g).
  { intros p g t Hp. rewrite lookup_insert_ne; [done|by eapply Hne]. }
  rewrite wp_bind. eapply wp_mono.
  { eapply (subtract_region_post tmp src1 src2 _ w1 e g1 g2);
      [apply lookup_insert_eq|by split|by apply Hlk|by apply Hlk|done|done]. }
  assert (Hfail : ∀ w' w'' t d', outcome w w' true → outcome w' w'' false → room d' →
    wp (free_region tmp >> ret None) (<[dst := d']> (<[tmp := t]> st)) w''
       (op_post st w dst (λ x y, xorb (in_region g1 x y) (in_region g2 x y)))).
  { intros w' w'' t d' Ho Hf Hr'.
    apply (op_post_delete st w dst (λ _ _, false) _ w' tmp None _ _ t Htmp); [by eapply Hne|done|by intros []|].
    by eapply op_post_none. }
  intros r st1 w2 [Ho2 Hp2]. destruct r as [q|].
  2: { destruct Hp2 as (t & -> & _). rewrite bool_decide_eq_false_2 in Ho2 by (by intros []).
       rewrite insert_insert_eq. rewrite wp_bind, wp_ret, wp_bind, wp_ret.
       rewrite <- (insert_id (<[tmp := t]> st) dst d) by by apply Hlk. by eapply Hfail. }
  destruct Hp2 as (-> & t & -> & Okt & Ht). rewrite bool_decide_eq_true_2 in Ho2 by done.
  rewrite insert_insert_eq, wp_bind. eapply wp_mono.
  { eapply (subtract_region_post dst src2 src1 _ w2 d g2 g1); [by apply Hlk|done|by apply Hlk|by apply Hlk|done|done]. }
  intros r st2 w3 [Ho3 Hp3]. destruct r as [q|].
  2: { destruct Hp3 as (d2 & -> & Hr2). rewrite bool_decide_eq_false_2 in Ho3 by (by intros []).
       rewrite wp_bind, wp_ret. eapply (Hfail w2); eauto with outcome. }
  destruct Hp3 as (-> & d2 & -> & Okd & Hd2). rewrite bool_decide_eq_true_2 in Ho3 by done.
  rewrite wp_bind. eapply wp_mono.
  { eapply (union_region_post dst dst tmp _ w3 d2 d2 t); [apply lookup_insert_eq|apply Okd|apply lookup_insert_eq| |done|done].
    rewrite lookup_insert_ne; [apply lookup_insert_eq|]. by apply not_eq_sym, (Hne dst d). }
  intros r st3 w4 [Ho4 Hp4]. cbn beta.
  apply (op_post_delete st w dst (λ x y, in_region d2 x y || in_region t x y) _ w3 tmp r _ _ t Htmp);
    [by eapply Hne|eauto with outcome| |].
  - intros _ x y. rewrite Hd2, Ht. by destruct (in_region g1 x y), (in_region g2 x y).
  - split; [done|]. destruct r as [q|].
    + destruct Hp4 as (-> & d3 & -> & ? & ?). split; [done|]. exists d3. by rewrite insert_insert_eq.
    + destruct Hp4 as (d3 & -> & ?). exists d3. by rewrite insert_insert_eq.
Qed.

(** *** The set operations *)

Inductive set_operation := Intersect | Subtract | Union | Xor.

Definition run_operation (op : set_operation) : Z → Z → Z → M regions (option Z) :=
  match op with
  | Intersect => intersect_region
  | Subtract => subtract_region
  | Union => union_region
  | Xor => xor_region
  end.
Definition operation_points (op : set_operation) (p q : bool) : bool :=
  match op with
  | Intersect => p && q
  | Subtract => p && negb q
  | Union => p || q
  | Xor => xorb p q
  end.

(** C2: The four region operations compute the set operations on points. For
    well-formed sources, [dst] being any region of the store (one of the sources
    or not), the call completes without access outside the arrays; either it
    returns [dst], which is again a well-formed region (canonical bands, exact
    extents) with exactly the selected points, no other region having changed, or
    an allocation failed, the error is [STATUS_NO_MEMORY] and NULL is returned. *)
Theorem region_operations_correct op dst src1 src2 st w d g1 g2
    (Hd : st !! dst = Some d) (Hroom : room d)
    (H1 : st !! src1 = Some g1) (H2 : st !! src2 = Some g2)
    (Hok1 : region_ok g1) (Hok2 : region_ok g2) :
  wp (run_operation op dst src1 src2) st w
    (op_post st w dst (λ x y, operation_points op (in_region g1 x y) (in_region g2 x y))).
Proof.
  destruct op; [by eapply intersect_region_post|by eapply subtract_region_post|
    by eapply union_region_post|by eapply xor_region_post].
Qed.

Definition wit_l : region := Region 2 [Rect 0 0 10 10; Rect 0 10 4 20] (Rect 0 0 10 20).
Definition wit_r : region := Region 2 [Rect 2 5 6 15] (Rect 2 5 6 15).

Lemma wit_l_ok : region_ok wit_l.
Proof.
  apply (region_ok_extents 2 [Rect 0 0 10 10; Rect 0 10 4 20]); [done|done|].
  apply validate_rectangles_banded. reflexivity.
Qed.
Lemma wit_r_ok : region_ok wit_r.
Proof.
  apply (region_ok_extents 2 [Rect 2 5 6 15]); [done|done|].
  apply validate_rectangles_banded. reflexivity.
Qed.

Lemma region_operations_correct_witness :
  wp (run_operation Xor 1 1 2) (<[1 := wit_l]> {[2 := wit_r]}) (World 0 [])
    (op_post (<[1 := wit_l]> {[2 := wit_r]}) (World 0 []) 1
       (λ x y, operation_points Xor (in_region wit_l x y) (in_region wit_r x y))).
Proof.
  apply (region_operations_correct Xor 1 1 2 _ _ wit_l wit_l wit_r);
    [reflexivity|split; [done|discriminate]|reflexivity|reflexivity|apply wit_l_ok|apply wit_r_ok].
Defined.

(** *** Point and rectangle queries *)

Lemma point_in_rects_banded l x y : banded l → point_in_rects l x y = inb l x y.
Proof.
  induction l as [|a l IH]; intros H; [done|].
  apply banded_cons in H as (Na & Hl & Ha). cbn [point_in_rects].
  change (inb (a :: l) x y) with (point_in_rect a x y || inb l x y). rewrite <- IH by done.
  assert (Hafter : inb l x y = true → (r_top a ≤ y) ∧ (y < r_bottom a → r_right a < x)).
  { intros (r & Hr & Hp)%inb_spec. apply point_in_rect_spec in Hp. specialize (Ha r Hr).
    unfold before, nonempty in *. lia. }
  rewrite <- IH in Hafter by done. unfold point_in_rect, nonempty in *.
  destruct (Z.ltb_spec y (r_top a)); [destruct (point_in_rects l x y); intuition lia|].
  destruct (Z.leb_spec (r_bottom a) y); [destruct (point_in_rects l x y); lia|].
  destruct (Z.ltb_spec x (r_left a)); [destruct (point_in_rects l x y); intuition lia|].
  destruct (Z.leb_spec (r_right a) x); destruct (point_in_rects l x y); lia.
Qed.

Definition overlaps (r s : rectangle) : Prop :=
  r_left r < r_right s ∧ r_left s < r_right r ∧ r_top r < r_bottom s ∧ r_top s < r_bottom r.

Lemma rect_in_rects_banded l rect :
  banded l → rect_in_rects l rect = true ↔ ∃ r, r ∈ l ∧ overlaps r rect.
Proof.
  induction l as [|a l IH]; intros H; [split; [done|set_solver]|].
  apply banded_cons in H as (Na & Hl & Ha). cbn [rect_in_rects]. specialize (IH Hl).
  assert (Hlow : r_bottom rect ≤ r_top a → ∀ r, r ∈ l → ¬ overlaps r rect).
  { intros Hb r Hr. specialize (Ha r Hr). unfold before, nonempty, overlaps in *. lia. }
  setoid_rewrite elem_of_cons.
  assert (Hskip : ¬ overlaps a rect → (rect_in_rects l rect = true ↔ ∃ r, (r = a ∨ r ∈ l) ∧ overlaps r rect)).
  { intros Hn. rewrite IH. split; [intros (r & ? & ?); eauto|]. intros (r & [-> |Hr] & Ho); [done|eauto]. }
  unfold overlaps in *.
  destruct (Z.leb_spec (r_bottom rect) (r_top a)).
  { split; [done|]. intros (r & [-> |Hr] & Ho); [lia|]. by destruct (Hlow H r Hr). }
  destruct (Z.leb_spec (r_bottom a) (r_top rect)); [apply Hskip; lia|].
  destruct (Z.leb_spec (r_right rect) (r_left a)); [apply Hskip; lia|].
  destruct (Z.leb_spec (r_right a) (r_left rect)); [apply Hskip; lia|].
  split; [|done]. intros _. exists a. split; [auto|lia].
Qed.

(** C37: On a well-formed region the early exits of the point and rectangle
    searches are sound: [point_in_region] decides membership of the point, and
    [rect_in_region] whether some point of the rectangle is in the region. *)
Theorem region_queries_correct g (Hok : region_ok g) :
  (∀ x y, point_in_region g x y = in_region g x y) ∧
  (∀ rect, nonempty rect →
     rect_in_region g rect = true ↔ ∃ x y, point_in_rect rect x y = true ∧ in_region g x y = true).
Proof.
  destruct Hok as (_ & Hb & _). split; [intros; by apply point_in_rects_banded|].
  intros rect [? ?]. unfold rect_in_region. rewrite rect_in_rects_banded by done. split.
  - intros (r & Hr & Ho). unfold overlaps in Ho. destruct Hb as [Hn _]. rewrite Forall_forall in Hn.
    destruct (Hn r Hr). exists (Z.max (r_left r) (r_left rect)), (Z.max (r_top r) (r_top rect)).
    split; [apply point_in_rect_spec; lia|]. apply inb_spec. exists r. split; [done|].
    apply point_in_rect_spec. lia.
  - intros (x & y & Hp & (r & Hr & Hq)%inb_spec). exists r. split; [done|].
    apply point_in_rect_spec in Hp, Hq. unfold overlaps. lia.
Qed.

Lemma region_queries_correct_witness :
  point_in_region wit_l 3 12 = in_region wit_l 3 12 ∧ in_region wit_l 3 12 = true ∧
  (rect_in_region wit_l (Rect 5 11 9 19) = true ↔
   ∃ x y, point_in_rect (Rect 5 11 9 19) x y = true ∧ in_region wit_l x y = true).
Proof.
  split; [apply (region_queries_correct wit_l), wit_l_ok|]. split; [reflexivity|].
  apply (region_queries_correct wit_l); [apply wit_l_ok|split; reflexivity].
Defined.

(** *** Transfer of a region to and from a client *)

Lemma bounding_le l e1 e2 :
  bounding l e1 → bounding l e2 →
  r_left e2 ≤ r_left e1 ∧ r_top e2 ≤ r_top e1 ∧ r_right e1 ≤ r_right e2 ∧ r_bottom e1 ≤ r_bottom e2.
Proof.
  intros (_ & (y1 & H1) & (x1 & H2) & (y2 & H3) & (x2 & H4)) (Hin & _).
  apply Hin in H1, H2, H3, H4. apply point_in_rect_spec in H1, H2, H3, H4. lia.
Qed.

Lemma bounding_unique l e1 e2 : bounding l e1 → bounding l e2 → e1 = e2.
Proof.
  intros H1 H2. pose proof (bounding_le l e1 e2 H1 H2). pose proof (bounding_le l e2 e1 H2 H1).
  destruct e1, e2; cbn in *. f_equal; lia.
Qed.

(** The rectangles that stand for a region in a request or a reply. *)
Definition region_wire (g : region) : list rectangle :=
  match rg_rects g with [] => [empty_rect] | l => l end.

Lemma create_region_wire g st w :
  region_ok g →
  wp (create_region_from_req_data (region_wire g)) st w (λ q st' w',
    match q with
    | None => outcome w w' false ∧ st' = st
    | Some q => outcome w w' true ∧ st !! q = None ∧
        ∃ g', st' = <[q := g']> st ∧ region_ok g' ∧
          rg_rects g' = rg_rects g ∧ rg_extents g' = rg_extents g
    end).
Proof.
  intros Hok. pose proof Hok as (_ & Hb & He). unfold create_region_from_req_data.
  assert (Er : (if bool_decide (region_wire g = [empty_rect]) then [] else region_wire g) = rg_rects g).
  { unfold region_wire in *. destruct (rg_rects g) as [|a l]; [done|].
    case_bool_decide as Hw; [|done]. injection Hw as -> _. by apply banded_cons in Hb as ([? ?] & _). }
  rewrite Er, (proj2 (validate_rectangles_banded _) Hb). cbn [negb].
  rewrite wp_bind. apply wp_mem_alloc_outcome. intros [] w1 H1; cbn [negb]; [|by rewrite wp_ret].
  rewrite wp_bind. apply wp_mem_alloc_outcome. intros [] w2 H2; cbn [negb].
  2: { rewrite wp_ret. eauto with outcome. }
  wp_run. split; [by eapply outcome_trans|]. split; [apply new_key_fresh|].
  eexists. split; [reflexivity|]. unfold RGN_DEFAULT_RECTS. split_and!; [apply region_ok_extents; [lia..|done]|done|].
  cbn. destruct (rg_rects g) as [|a l]; [done|].
  eapply bounding_unique; [|exact He]. by apply extents_of_bounding.
Qed.

(** The data that [get_region_data] sends for a well-formed region is
    accepted by [create_region_from_req_data], which builds a new well-formed
    region with the same rectangles and extents (the empty region travels as one
    all-zero rectangle). The only failures are a buffer that is too small
    ([STATUS_BUFFER_OVERFLOW], with the size to retry with) and no memory. *)
Theorem region_data_roundtrip p g st w max_size (Hp : st !! p = Some g) (Hok : region_ok g) :
  wp (get_region_data p max_size) st w (λ res st' w',
    st' = st ∧ res.2 = Z.max 1 (num_rects g) * rect_bytes ∧
    match res.1 with
    | None => max_size < res.2 ∧ w_error w' = STATUS_BUFFER_OVERFLOW ∨ outcome w w' false
    | Some rects =>
        outcome w w' true ∧ res.2 ≤ max_size ∧
        ∀ st2 w2, wp (create_region_from_req_data rects) st2 w2 (λ q st3 w3,
          match q with
          | None => outcome w2 w3 false ∧ st3 = st2
          | Some q => outcome w2 w3 true ∧ st2 !! q = None ∧
              ∃ g', st3 = <[q := g']> st2 ∧ region_ok g' ∧
                rg_rects g' = rg_rects g ∧ rg_extents g' = rg_extents g
          end)
    end).
Proof.
  unfold get_region_data. rewrite wp_bind. eapply wp_read_object; [done|]. fold (region_wire g). cbv zeta.
  assert (Hlen : Z.of_nat (length (region_wire g)) = Z.max 1 (num_rects g)).
  { unfold region_wire, num_rects. destruct (rg_rects g); cbn; lia. }
  rewrite Hlen. destruct (Z.leb_spec (Z.max 1 (num_rects g) * rect_bytes) max_size).
  - rewrite wp_bind. apply wp_mem_alloc_outcome. intros [] w' Ho; rewrite wp_ret; cbn [fst snd].
    + split_and!; [done..|]. intros. by apply create_region_wire.
    + split_and!; [done..|]. by right.
  - wp_run. split_and!; [done..|]. left. lia.
Qed.

Lemma region_data_roundtrip_witness :
  wp (get_region_data 1 64) {[1 := wit_l]} (World 0 []) (λ res st' w',
    st' = {[1 := wit_l]} ∧ res.2 = Z.max 1 (num_rects wit_l) * rect_bytes ∧
    match res.1 with
    | None => 64 < res.2 ∧ w_error w' = STATUS_BUFFER_OVERFLOW ∨ outcome (World 0 []) w' false
    | Some rects =>
        outcome (World 0 []) w' true ∧ res.2 ≤ 64 ∧
        ∀ st2 w2, wp (create_region_from_req_data rects) st2 w2 (λ q st3 w3,
          match q with
          | None => outcome w2 w3 false ∧ st3 = st2
          | Some q => outcome w2 w3 true ∧ st2 !! q = None ∧
              ∃ g', st3 = <[q := g']> st2 ∧ region_ok g' ∧
                rg_rects g' = rg_rects wit_l ∧ rg_extents g' = rg_extents wit_l
          end)
    end).
Proof. apply (region_data_roundtrip 1 wit_l _ _ 64); [reflexivity|apply wit_l_ok]. Defined.

(** *** Mirroring and scaling *)

#[local] Arguments mirror_rect : simpl never.

(** [mirror_region] loses rectangles. In the exchange loop the temporary is
    loaded from [rects[j]], not [rects[i]], so the first of two rectangles of a
    band is overwritten: both end up as the mirror image of the second, the
    points of the first are gone and the region is no longer well formed. *)
Theorem mirror_region_loses_rects p client a b ext n mb me st w
    (Hp : st !! p = Some (Region n [a; b] ext))
    (Hband : r_top a = r_top b)
    (Hb : mirror_rect client b = Some mb)
    (He : mirror_rect client ext = Some me) :
  mirror_region client p st w = Some (tt, <[p := Region n [mb; mb] me]> st, w) ∧
  ¬ region_ok (Region n [mb; mb] me).
Proof.
  split.
  - apply wp_exact. unfold mirror_region. eapply wp_on_object; [done|]. wp_run.
    unfold mirror_bands, band_of. cbn. rewrite Z.eqb_refl, Hband, Z.eqb_refl. cbn. rewrite Hb. cbn.
    rewrite He. wp_run. done.
  - intros (_ & Hbd & _). cbn in Hbd. apply banded_cons in Hbd as ([? ?] & _ & Hab).
    specialize (Hab mb ltac:(set_solver)). unfold before in Hab. lia.
Qed.

Lemma mirror_region_loses_rects_witness :
  mirror_region (Rect 0 0 100 100) 1 {[1 := Region 2 [Rect 0 0 10 10; Rect 20 0 30 10] (Rect 0 0 30 10)]}
    (World 0 []) =
  Some (tt, <[1 := Region 2 [Rect 70 0 80 10; Rect 70 0 80 10] (Rect 70 0 100 10)]>
              {[1 := Region 2 [Rect 0 0 10 10; Rect 20 0 30 10] (Rect 0 0 30 10)]}, World 0 []) ∧
  ¬ region_ok (Region 2 [Rect 70 0 80 10; Rect 70 0 80 10] (Rect 70 0 100 10)).
Proof.
  apply (mirror_region_loses_rects 1 (Rect 0 0 100 100) (Rect 0 0 10 10) (Rect 20 0 30 10) (Rect 0 0 30 10)); reflexivity.
Defined.

(** [scale_dpi] is wrong on negative coordinates: [val * dpi_to] and the
    rounded quotient are computed in [unsigned int], so scaling by a factor of
    one at 96 dpi moves every coordinate from -1 to -10000000 to a positive one. *)
Theorem scale_dpi_negative val (Hval : - 10000000 ≤ val < 0) :
  scale_dpi val 96 96 = val + 44739242 ∧ 0 < scale_dpi val 96 96.
Proof.
  enough (scale_dpi val 96 96 = val + 44739242) by lia. unfold scale_dpi.
  replace (0 <=? val) with false by lia. change (96 / 2) with 48. unfold s32.
  assert (E : u32 (u32 (val * 96) - 48) = 4294967296 + val * 96 - 48) by (unfold u32; Z.div_mod_to_equations; lia).
  rewrite E. rewrite (u32_small (_ / 96)) by (Z.div_mod_to_equations; lia).
  destruct (Z.ltb_spec ((4294967296 + val * 96 - 48) / 96) 2147483648); Z.div_mod_to_equations; lia.
Qed.

Lemma scale_dpi_negative_witness :
  - 10000000 ≤ -10 < 0 ∧ scale_dpi (-10) 96 96 = -10 + 44739242 ∧ 0 < scale_dpi (-10) 96 96.
Proof. split; [lia|]. apply (scale_dpi_negative (-10)). lia. Defined.
