(* ===== verification/Unicode.v ===== *)
(** * Unicode strings (server/unicode.c)

    Case folding, comparison and hashing of WCHAR strings, and the escaped text
    form in which the server prints strings and saves the registry
    ([dump_strW]) and reads them back ([parse_strW]). A string is a [list Z]
    of 16-bit units; text is a [list Z] of bytes. *)

From S2P Require Import Prelude.

Definition is_wchar (c : Z) : Prop := 0 ≤ c < 65536.
Definition is_wstr (s : list Z) : Prop := Forall is_wchar s.
(** The [len] field of a [unicode_str], in bytes. *)
Definition wlen (s : list Z) : Z := 2 * Z.of_nat (length s).

(** ** Case folding

    [casemap] is the lower-case table that [load_intl_file] reads from
    l_intl.nls, a file outside this code. *)
Section Casemap.
Variable casemap : Z → Z.

Definition to_lower (ch : Z) : Z :=
  u16 (ch + casemap (casemap (casemap (Z.shiftr ch 8) + Z.land (Z.shiftr ch 4) 0x0f) + Z.land ch 0x0f)).

(** The loop of [memicmp_strW] over [n] units; [None] is a read past the end
    of a string. *)
Fixpoint memicmp_loop (str1 str2 : list Z) (n : nat) : option Z :=
  match n with
  | O => Some 0
  | S n' =>
      match str1, str2 with
      | c1 :: str1', c2 :: str2' =>
          let r := to_lower c1 - to_lower c2 in
          if truth r then Some r else memicmp_loop str1' str2' n'
      | _, _ => None
      end
  end.
Definition memicmp_strW (str1 str2 : list Z) (len : Z) : option Z :=
  memicmp_loop str1 str2 (Z.to_nat (len / 2)).

Definition hash_strW (str : list Z) (hash_size : Z) : Z :=
  fold_left (λ hash c, u32 (hash * 65599 + to_lower c)) str 0 mod hash_size.

Definition fold_case (s : list Z) : list Z := map to_lower s.

Lemma memicmp_loop_total s1 s2 n :
  (n ≤ length s1)%nat → (n ≤ length s2)%nat → is_Some (memicmp_loop s1 s2 n).
Proof.
  revert s1 s2. induction n as [|n IH]; intros [|c1 s1] [|c2 s2]; simpl; try (intros; lia); eauto.
  intros. case_match; [eauto|]. apply IH; lia.
Qed.

Lemma truth_sub x y : truth (x - y) = false ↔ x = y.
Proof. unfold truth. rewrite negb_false_iff, Z.eqb_eq. lia. Qed.

(** Two strings of the same length compare equal exactly when they fold to
    the same string. *)
Lemma memicmp_strW_eq s1 s2 :
  length s1 = length s2 → memicmp_strW s1 s2 (wlen s1) = Some 0 ↔ fold_case s1 = fold_case s2.
Proof.
  unfold memicmp_strW, wlen. rewrite Z.mul_comm, Z.div_mul, Nat2Z.id by lia.
  revert s2. induction s1 as [|c1 s1 IH]; intros [|c2 s2]; simpl; try done.
  intros [= Hl]. destruct (truth _) eqn:E.
  - assert (to_lower c1 ≠ to_lower c2) by (intros H; rewrite (proj2 (truth_sub _ _) H) in E; done).
    split; [intros [= H0]; unfold truth in E; rewrite H0 in E; done|intros [= ? ?]; done].
  - apply truth_sub in E. rewrite IH by done. unfold fold_case. rewrite E. split; [by intros ->|by intros [=]].
Qed.

Lemma hash_strW_fold s1 s2 n : fold_case s1 = fold_case s2 → hash_strW s1 n = hash_strW s2 n.
Proof.
  unfold hash_strW. intros H. f_equal. generalize 0.
  revert s2 H. induction s1 as [|c1 s1 IH]; intros [|c2 s2] H z; try done.
  simpl in *. injection H as Hc H. rewrite Hc. by apply IH.
Qed.

Lemma hash_strW_range s n : 0 < n → 0 ≤ hash_strW s n < n.
Proof. intros. by apply Z.mod_pos_bound. Qed.
End Casemap.

(** [ascii_to_unicode_str]: [str] is the C string without its terminator. *)
Definition ascii_to_unicode_str {S} (str : list Z) : M S (option (list Z)) :=
  let* p := mem_alloc in
  ret (if p then Some (map (λ c, Z.land c 0xff) str) else None).

(** ** Parsing *)

Definition utf8_length (ch : Z) : Z :=
  if (0xc2 <=? ch) && (ch <=? 0xdf) then 1
  else if (0xe0 <=? ch) && (ch <=? 0xef) then 2
  else if (0xf0 <=? ch) && (ch <=? 0xf4) then 3
  else 0.
Definition utf8_mask (n : Z) : Z :=
  match n with 0 => 0x7f | 1 => 0x1f | 2 => 0x0f | _ => 0x07 end.
Definition utf8_minval (n : Z) : Z :=
  match n with 0 => 0x0 | 1 => 0x80 | 2 => 0x800 | _ => 0x10000 end.

Definition isdigit (c : Z) : bool := (48 <=? c) && (c <=? 57).
Definition isxdigit (c : Z) : bool :=
  isdigit c || ((65 <=? c) && (c <=? 70)) || ((97 <=? c) && (c <=? 102)).
Definition isoctal (c : Z) : bool := (48 <=? c) && (c <=? 55).
Definition tolower (c : Z) : Z := if (65 <=? c) && (c <=? 90) then c + 32 else c.
Definition to_hex (ch : Z) : Z := if isdigit ch then ch - 48 else tolower ch - 97 + 10.

(** [*p], the text being terminated by a NUL byte. *)
Definition peek (p : list Z) : Z := match p with [] => 0 | c :: _ => c end.

(** [if (pred( *p )) *dest = *dest * base + digit( *p++ );] at most [n] times. *)
Fixpoint more_digits (n : nat) (pred : Z → bool) (base : Z) (digit : Z → Z) (d : Z) (p : list Z) : Z * list Z :=
  match n, p with
  | S n', c :: p' => if pred c then more_digits n' pred base digit (u16 (d * base + digit c)) p' else (d, p)
  | _, _ => (d, p)
  end.

Definition simple_escape (c : Z) : option Z :=
  match c with
  | 97 => Some 7 (* a *) | 98 => Some 8 (* b *) | 101 => Some 27 (* e *) | 102 => Some 12 (* f *)
  | 110 => Some 10 (* n *) | 114 => Some 13 (* r *) | 116 => Some 9 (* t *) | 118 => Some 11 (* v *)
  | _ => None
  end.

(** Continuation bytes of a UTF-8 sequence: [n] of them are read while they are
    valid; [None] when the sequence is cut short. *)
Fixpoint utf8_tail (n : nat) (res : Z) (p : list Z) : option Z * list Z :=
  match n with
  | O => (Some res, p)
  | S n' =>
      let ch := Z.lxor (peek p) 0x80 in
      if 0x40 <=? ch then (None, p)
      else utf8_tail n' (Z.lor (Z.shiftl res 6) ch) (tl p)
  end.

(** The part of the loop body of [parse_strW] after the escapes: the UTF-16
    units produced by the character at [p] (not the end of the text), and the
    new [p]. *)
Definition parse_normal (p : list Z) : list Z * list Z :=
  let ch := peek p in
  let p := tl p in
  if ch <? 0x80 then ([ch], p) else
  let charlen := utf8_length ch in
  if charlen =? 0 then ([], p) else
  match utf8_tail (Z.to_nat charlen) (Z.land ch (utf8_mask charlen)) p with
  | (None, p) => ([], p)
  | (Some res, p) =>
      if res <? utf8_minval charlen then ([], p)
      else if 0x10ffff <? res then ([], p)
      else if res <=? 0xffff then ([res], p)
      else let res := res - 0x10000 in
           ([Z.lor 0xd800 (Z.shiftr res 10); Z.lor 0xdc00 (Z.land res 0x3ff)], p)
  end.

(** One iteration; [None] is the [break] of a backslash at the end. *)
Definition parse_char (p : list Z) : option (list Z * list Z) :=
  if negb (peek p =? 92 (* \ *)) then Some (parse_normal p) else
  let p := tl p in
  if peek p =? 0 then None else
  match simple_escape (peek p) with
  | Some c => Some ([c], tl p)
  | None =>
      if peek p =? 120 (* x *) then
        let p := tl p in
        if negb (isxdigit (peek p)) then Some ([120], p)
        else let '(d, p) := more_digits 3 isxdigit 16 to_hex (to_hex (peek p)) (tl p) in Some ([d], p)
      else if isoctal (peek p) then
        let '(d, p) := more_digits 2 isoctal 8 (λ c, c - 48) (peek p - 48) (tl p) in Some ([d], p)
      else Some (parse_normal p)
  end.

(** The main loop; [dest] holds the units written so far and [cap] is the
    capacity of the buffer. Every iteration consumes input, so the length of
    the text is enough fuel. A second surrogate is only stored if it fits. *)
Fixpoint parse_loop (fuel : nat) (cap endchar : Z) (dest p : list Z) : list Z * list Z :=
  match fuel with
  | O => (dest, p)
  | S fuel' =>
      if (peek p =? 0) || (peek p =? endchar) || (cap <=? Z.of_nat (length dest)) then (dest, p) else
      match parse_char p with
      | None => (dest, [])
      | Some (units, p') => parse_loop fuel' cap endchar (take (Z.to_nat cap) (dest ++ units)) p'
      end
  end.

(** [len] is the size of the buffer in bytes. Returns the return value, the
    contents of the buffer and the new [*len]. *)
Definition parse_strW (len : Z) (src : list Z) (endchar : Z) : Z * list Z * Z :=
  let cap := len / 2 in
  let '(dest, p) := parse_loop (length src) cap endchar [] src in
  if cap <=? Z.of_nat (length dest) then (-1, dest, len) else
  let dest := dest ++ [0] in
  if peek p =? 0 then (-1, dest, len) else
  (Z.of_nat (length src - length p) + 1, dest, 2 * Z.of_nat (length dest)).

(** ** Printing *)

Definition hex_char (d : Z) : Z := if d <? 10 then 48 + d else 87 + d.
Definition oct_char (d : Z) : Z := 48 + d.

(** printf's %x, %04x, %o and %03o on a 16-bit value. *)
Definition fmt_x (c : Z) : list Z :=
  if c <? 0x10 then [hex_char c]
  else if c <? 0x100 then [hex_char (c / 16); hex_char (c mod 16)]
  else if c <? 0x1000 then [hex_char (c / 256); hex_char (c / 16 mod 16); hex_char (c mod 16)]
  else [hex_char (c / 4096); hex_char (c / 256 mod 16); hex_char (c / 16 mod 16); hex_char (c mod 16)].
Definition fmt_04x (c : Z) : list Z :=
  [hex_char (c / 4096); hex_char (c / 256 mod 16); hex_char (c / 16 mod 16); hex_char (c mod 16)].
Definition fmt_o (c : Z) : list Z :=
  if c <? 8 then [oct_char c] else [oct_char (c / 8); oct_char (c mod 8)].
Definition fmt_03o (c : Z) : list Z := [oct_char (c / 64); oct_char (c / 8 mod 8); oct_char (c mod 8)].

(** The [escapes] table: the letter of a C escape, or [None] for '.'. *)
Definition escapes (c : Z) : option Z :=
  match c with
  | 7 => Some 97 | 8 => Some 98 | 9 => Some 116 | 10 => Some 110 | 11 => Some 118
  | 12 => Some 102 | 13 => Some 114 | 27 => Some 101 | _ => None
  end.

(** What one iteration of [dump_strW] prints for [c], where [next] is the rest
    of the string. *)
Definition dump_char (e0 e1 : Z) (c : Z) (next : list Z) : list Z :=
  if 127 <? c then
    92 :: 120 ::
    match next with
    | n :: _ => if (n <? 128) && isxdigit n then fmt_04x c else fmt_x c
    | [] => fmt_x c
    end
  else if c <? 32 then
    match escapes c with
    | Some l => [92; l]
    | None =>
        92 :: match next with
              | n :: _ => if isoctal n then fmt_03o c else fmt_o c
              | [] => fmt_o c
              end
    end
  else if (c =? 92) || (c =? e0) || (c =? e1) then [92; c] else [c].

(** [dump_strW] writes through a 256-byte buffer, flushed to the file when
    fewer than 8 bytes are left. The state is the bytes written to the file,
    the buffer, and [count]. *)
Definition DUMP_BUFFER : Z := 256.

Fixpoint dump_loop (e0 e1 : Z) (str : list Z) (file buffer : list Z) (count : Z) : list Z * list Z * Z :=
  match str with
  | [] => (file, buffer, count)
  | c :: str' =>
      let '(file, buffer, count) :=
        if DUMP_BUFFER - 8 <? Z.of_nat (length buffer)
        then (file ++ buffer, [], count + Z.of_nat (length buffer))
        else (file, buffer, count) in
      dump_loop e0 e1 str' file (buffer ++ dump_char e0 e1 c str') count
  end.

(** Returns the text and the number of bytes written. *)
Definition dump_strW (str : list Z) (e0 e1 : Z) : list Z * Z :=
  let '(file, buffer, count) := dump_loop e0 e1 str [] [] 0 in
  (file ++ buffer, count + Z.of_nat (length buffer)).

(** *** Facts about printing *)

Fixpoint dump_spec (e0 e1 : Z) (str : list Z) : list Z :=
  match str with
  | [] => []
  | c :: str' => dump_char e0 e1 c str' ++ dump_spec e0 e1 str'
  end.

Lemma dump_loop_spec e0 e1 str file buffer :
  let '(f, b, n) := dump_loop e0 e1 str file buffer (Z.of_nat (length file)) in
  f ++ b = file ++ buffer ++ dump_spec e0 e1 str ∧ n = Z.of_nat (length f).
Proof.
  revert file buffer. induction str as [|c str IH]; intros file buffer; simpl.
  - by rewrite app_nil_r.
  - destruct (_ <? _).
    + specialize (IH (file ++ buffer) ([] ++ dump_char e0 e1 c str)).
      rewrite length_app, Nat2Z.inj_add in IH. destruct (dump_loop _ _ _ _ _ _) as [[f b] n].
      destruct IH as [-> ->]. by rewrite <- !app_assoc.
    + specialize (IH file (buffer ++ dump_char e0 e1 c str)).
      destruct (dump_loop _ _ _ _ _ _) as [[f b] n]. destruct IH as [-> ->]. by rewrite <- !app_assoc.
Qed.

Lemma dump_strW_spec str e0 e1 :
  dump_strW str e0 e1 = (dump_spec e0 e1 str, Z.of_nat (length (dump_spec e0 e1 str))).
Proof.
  unfold dump_strW. pose proof (dump_loop_spec e0 e1 str [] []) as H.
  change (Z.of_nat (length [])) with 0 in H. simpl in H.
  destruct (dump_loop e0 e1 str [] [] 0) as [[f b] n]. destruct H as [H ->].
  rewrite <- H. f_equal. rewrite length_app. lia.
Qed.

Lemma dump_char_length e0 e1 c next : (1 ≤ length (dump_char e0 e1 c next) ≤ 6)%nat.
Proof. unfold dump_char, fmt_x, fmt_o, fmt_04x, fmt_03o. repeat case_match; simpl; lia. Qed.

(** ** Round trip

    The two printers of digits and the reader of digits are inverse to each
    other. *)

Definition nibbles : list Z := [0;1;2;3;4;5;6;7;8;9;10;11;12;13;14;15].

Lemma hex_char_props d : 0 ≤ d < 16 →
  to_hex (hex_char d) = d ∧ isxdigit (hex_char d) = true.
Proof.
  intros Hd. assert (d ∈ nibbles) as Hin.
  { apply list_elem_of_lookup. exists (Z.to_nat d). rewrite <- (Z2Nat.id d) at 2 by lia.
    assert (Z.to_nat d < 16)%nat as Hn by lia. revert Hn. generalize (Z.to_nat d). clear. intros n Hn.
    do 16 (destruct n as [|n]; [done|]). lia. }
  revert Hin. clear. revert d. apply list.Forall_forall. repeat constructor.
Qed.

Lemma to_hex_hex_char d : 0 ≤ d < 16 → to_hex (hex_char d) = d.
Proof. apply hex_char_props. Qed.

Lemma oct_char_props d : 0 ≤ d < 8 → oct_char d - 48 = d ∧ isoctal (oct_char d) = true.
Proof. intros Hd. unfold oct_char, isoctal. split; [lia|]. apply andb_true_intro; split; apply Z.leb_le; lia. Qed.

Section Digits.
Variables (pred : Z → bool) (base : Z) (digit : Z → Z).

(** Reading a digit, then stopping. *)
Lemma more_digits_step n d c p :
  pred c = true → more_digits (S n) pred base digit d (c :: p) = more_digits n pred base digit (u16 (d * base + digit c)) p.
Proof. simpl. by intros ->. Qed.

Lemma more_digits_stop n d p :
  pred 0 = false → pred (peek p) = false → more_digits n pred base digit d p = (d, p).
Proof. intros _. destruct n, p as [|c p]; simpl; try done. by intros ->. Qed.
End Digits.

(** [parse_char] on an escape, character by character. *)
Lemma parse_char_hex d p :
  0 ≤ d < 16 →
  parse_char (92 :: 120 :: hex_char d :: p) =
  let '(v, p') := more_digits 3 isxdigit 16 to_hex d p in Some ([v], p').
Proof.
  intros Hd. destruct (hex_char_props d Hd) as [Hh Hx]. unfold parse_char. cbn -[isxdigit to_hex hex_char].
  by rewrite Hx, Hh.
Qed.

Lemma parse_char_oct d p :
  0 ≤ d < 8 →
  parse_char (92 :: oct_char d :: p) =
  let '(v, p') := more_digits 2 isoctal 8 (λ c, c - 48) d p in Some ([v], p').
Proof.
  intros Hd. destruct (oct_char_props d Hd) as [Ho Hx]. unfold parse_char. cbn -[isoctal oct_char simple_escape].
  assert (simple_escape (oct_char d) = None ∧ (oct_char d =? 0) = false ∧ (oct_char d =? 120) = false) as (-> & -> & ->).
  { unfold oct_char. assert (d = 0 ∨ d = 1 ∨ d = 2 ∨ d = 3 ∨ d = 4 ∨ d = 5 ∨ d = 6 ∨ d = 7) as H by lia.
    destruct_or! H; subst; done. }
  by rewrite Hx, Ho.
Qed.

Ltac read_hex :=
  rewrite more_digits_step by (apply hex_char_props; Z.div_mod_to_equations; lia);
  rewrite to_hex_hex_char by (Z.div_mod_to_equations; lia).

Lemma parse_hex4 c p :
  0 ≤ c < 65536 → parse_char (92 :: 120 :: fmt_04x c ++ p) = Some ([c], p).
Proof.
  intros Hc. unfold fmt_04x. simpl app. rewrite parse_char_hex by (Z.div_mod_to_equations; lia).
  do 3 read_hex. simpl. unfold u16.
  do 3 f_equal. Z.div_mod_to_equations. lia.
Qed.

Lemma parse_hex_short c p :
  0 ≤ c < 65536 → isxdigit (peek p) = false → parse_char (92 :: 120 :: fmt_x c ++ p) = Some ([c], p).
Proof.
  intros Hc Hp. unfold fmt_x. repeat case_match; [| | |by apply parse_hex4].
  all: simpl app; rewrite parse_char_hex by (Z.div_mod_to_equations; lia).
  all: repeat read_hex; rewrite more_digits_stop by done.
  all: do 3 f_equal; unfold u16; Z.div_mod_to_equations; lia.
Qed.

Ltac read_oct :=
  rewrite more_digits_step by (apply oct_char_props; Z.div_mod_to_equations; lia);
  rewrite (λ d H, proj1 (oct_char_props d H)) by (Z.div_mod_to_equations; lia).

Lemma parse_oct3 c p : 0 ≤ c < 512 → parse_char (92 :: fmt_03o c ++ p) = Some ([c], p).
Proof.
  intros Hc. unfold fmt_03o. simpl app. rewrite parse_char_oct by (Z.div_mod_to_equations; lia).
  do 2 read_oct. simpl. do 3 f_equal. unfold u16. Z.div_mod_to_equations. lia.
Qed.

Lemma parse_oct_short c p :
  0 ≤ c < 64 → isoctal (peek p) = false → parse_char (92 :: fmt_o c ++ p) = Some ([c], p).
Proof.
  intros Hc Hp. unfold fmt_o. case_match.
  all: simpl app; rewrite parse_char_oct by (Z.div_mod_to_equations; lia).
  all: repeat read_oct; rewrite more_digits_stop by done.
  all: do 3 f_equal; unfold u16; Z.div_mod_to_equations; lia.
Qed.

(** A delimiter the escaping scheme supports: printable, not a backslash, and
    neither a hexadecimal digit nor the letter of an escape sequence. *)
Definition plain_delim (e : Z) : bool :=
  (32 <=? e) && (e <? 128) && negb (e =? 92) && negb (e =? 120) && negb (isxdigit e) &&
  match simple_escape e with Some _ => false | None => true end.

Lemma isoctal_isxdigit c : isxdigit c = false → isoctal c = false.
Proof. unfold isxdigit, isoctal, isdigit. lia. Qed.

Lemma parse_normal_ascii c p : c < 0x80 → parse_normal (c :: p) = ([c], p).
Proof. intros H. unfold parse_normal. simpl. by rewrite (proj2 (Z.ltb_lt c 128) H). Qed.

Lemma parse_delim e p : plain_delim e = true → parse_char (92 :: e :: p) = Some ([e], p).
Proof.
  unfold plain_delim. intros H. repeat (apply andb_prop in H as [H ?]).
  unfold parse_char. cbn -[isoctal isxdigit simple_escape parse_normal].
  destruct (simple_escape e); [done|].
  replace (e =? 0) with false by lia. replace (e =? 120) with false by lia.
  rewrite isoctal_isxdigit by (by apply negb_true_iff). rewrite parse_normal_ascii by lia. done.
Qed.

(** Reading back what [dump_char] wrote, given what comes after. *)
Lemma parse_dump_char e0 e1 c next p :
  plain_delim e0 = true → plain_delim e1 = true → is_wchar c →
  (isxdigit (peek p) = true → ∃ n next', next = n :: next' ∧ n < 128 ∧ isxdigit n = true) →
  (isoctal (peek p) = true → ∃ n next', next = n :: next' ∧ isoctal n = true) →
  parse_char (dump_char e0 e1 c next ++ p) = Some ([c], p).
Proof.
  intros H0 H1 Hc Hx Ho. unfold is_wchar in Hc. unfold dump_char.
  destruct (127 <? c) eqn:E1; [simpl app|destruct (c <? 32) eqn:E2].
  - destruct next as [|n next']; [|destruct ((n <? 128) && isxdigit n) eqn:En]; [|by apply parse_hex4|];
      apply parse_hex_short; [done| |done|]; destruct (isxdigit (peek p)); try done.
    + destruct Hx as (? & ? & ? & _); done.
    + destruct Hx as (? & ? & [= <- <-] & Hn & Hn'); [done|]. rewrite Hn' in En. lia.
  - destruct (escapes c) as [l|] eqn:El.
    { unfold escapes in El. assert (c = 7 ∨ c = 8 ∨ c = 9 ∨ c = 10 ∨ c = 11 ∨ c = 12 ∨ c = 13 ∨ c = 27) as Hl
        by (repeat case_match; simplify_eq; lia).
      destruct_or! Hl; subst; simpl in El; simplify_eq; done. }
    destruct next as [|n next']; [|destruct (isoctal n) eqn:En]; [|apply parse_oct3; lia|];
      apply parse_oct_short; [lia| |lia|]; destruct (isoctal (peek p)); try done.
    + destruct Ho as (? & ? & ? & _); done.
    + destruct Ho as (? & ? & [= <- <-] & Hn); [done|congruence].
  - destruct ((c =? 92) || (c =? e0) || (c =? e1)) eqn:Ee.
    + destruct (Z.eqb_spec c 92) as [->|]; [done|]. simpl in Ee.
      apply orb_true_iff in Ee as [->%Z.eqb_eq| ->%Z.eqb_eq]; by apply parse_delim.
    + unfold parse_char. simpl. replace (c =? 92) with false by lia. simpl.
      by rewrite parse_normal_ascii by lia.
Qed.

(** The text of a string starts with a backslash, or with its first character. *)
Lemma peek_dump_char e0 e1 c next p :
  peek (dump_char e0 e1 c next ++ p) = 92 ∨
  (peek (dump_char e0 e1 c next ++ p) = c ∧ 32 ≤ c < 128 ∧ c ≠ e0 ∧ c ≠ e1).
Proof. unfold dump_char. repeat case_match; simpl; try (by left); right; lia. Qed.

Lemma parse_dump_loop e0 e1 endchar str rest fuel cap dest :
  plain_delim e0 = true → plain_delim e1 = true → endchar = e0 ∨ endchar = e1 → is_wstr str →
  Z.of_nat (length dest + length str) < cap → (length (dump_spec e0 e1 str) ≤ fuel)%nat →
  parse_loop fuel cap endchar dest (dump_spec e0 e1 str ++ endchar :: rest) = (dest ++ str, endchar :: rest).
Proof.
  intros H0 H1 He Hs. assert (plain_delim endchar = true) as Hd by (destruct He; subst; done).
  revert fuel dest. induction Hs as [|c str Hc Hs IH]; intros fuel dest Hcap Hfuel.
  { rewrite app_nil_r. destruct fuel; simpl; [done|]. by rewrite Z.eqb_refl, orb_true_r. }
  simpl in Hfuel. rewrite length_app in Hfuel. pose proof (dump_char_length e0 e1 c str).
  destruct fuel as [|fuel]; [lia|]. cbn [dump_spec parse_loop]. rewrite <- app_assoc.
  set (p := dump_spec e0 e1 str ++ endchar :: rest).
  assert ((peek (dump_char e0 e1 c str ++ p) =? 0) = false ∧ (peek (dump_char e0 e1 c str ++ p) =? endchar) = false) as [-> ->].
  { unfold plain_delim in Hd. destruct (peek_dump_char e0 e1 c str p) as [->|(-> & ? & ? & ?)]; [|destruct He; lia].
    split; [done|]. repeat (apply andb_prop in Hd as [Hd ?]). lia. }
  simpl in Hcap. replace (cap <=? Z.of_nat (length dest)) with false by lia. cbn [orb].
  assert (peek p = endchar ∧ str = [] ∨ ∃ n str', str = n :: str' ∧ (peek p = 92 ∨ peek p = n ∧ 32 ≤ n < 128)) as Hpeek.
  { unfold p. destruct str as [|n str']; [by left|right]. cbn [dump_spec]. rewrite <- app_assoc.
    exists n, str'. split; [done|]. destruct (peek_dump_char e0 e1 n str' (dump_spec e0 e1 str' ++ endchar :: rest)); naive_solver. }
  assert (isxdigit endchar = false) as Hdx.
  { unfold plain_delim in Hd. destruct (isxdigit endchar); [|done]. by rewrite andb_false_r in Hd. }
  rewrite parse_dump_char; [|done..| |].
  - rewrite take_ge by (rewrite length_app; simpl; lia). unfold p. rewrite IH; [by rewrite <- app_assoc| |lia].
    rewrite length_app. simpl. lia.
  - intros Hx. destruct Hpeek as [[E _]|(n & str' & -> & [E|[E ?]])]; rewrite E in Hx; [congruence|done|].
    exists n, str'. split; [done|]. split; [lia|done].
  - intros Hx. destruct Hpeek as [[E _]|(n & str' & -> & [E|[E ?]])]; rewrite E in Hx; [|done|eauto].
    by rewrite isoctal_isxdigit in Hx.
Qed.

(** C35: what the server saves it reads back. For any string of 16-bit units and
    a supported pair of delimiters, parsing the text of [dump_strW] up to the
    closing delimiter yields the string followed by its terminator, and
    consumes exactly the text and the delimiter, as soon as the buffer has room. *)
Theorem parse_dump_roundtrip str e0 e1 endchar rest len :
  plain_delim e0 = true → plain_delim e1 = true → endchar = e0 ∨ endchar = e1 → is_wstr str →
  wlen str + 2 ≤ len →
  parse_strW len ((dump_strW str e0 e1).1 ++ endchar :: rest) endchar =
    ((dump_strW str e0 e1).2 + 1, str ++ [0], wlen str + 2).
Proof.
  intros H0 H1 He Hs Hlen. rewrite dump_strW_spec. simpl. unfold wlen in *.
  assert (Z.of_nat (length str) < len / 2) by (Z.div_mod_to_equations; lia).
  unfold parse_strW. erewrite parse_dump_loop; try done; [|rewrite length_app; lia].
  simpl. replace (len / 2 <=? Z.of_nat (length str)) with false by lia.
  assert (endchar ≠ 0) as Hz.
  { intros ->. assert (plain_delim 0 = true) as Hd by (destruct He; subst; done). done. }
  rewrite (proj2 (Z.eqb_neq _ _) Hz). rewrite !length_app. simpl. f_equal; [f_equal|]; lia.
Qed.

(** The string "a", BEL, e-acute, "1", a quote, U+20AC, with registry quotes. *)
Lemma parse_dump_roundtrip_witness :
  parse_strW 64 ((dump_strW [97; 7; 233; 49; 34; 0x20ac] 34 34).1 ++ 34 :: [44]) 34 =
    ((dump_strW [97; 7; 233; 49; 34; 0x20ac] 34 34).2 + 1, [97; 7; 233; 49; 34; 0x20ac] ++ [0], 14).
Proof.
  apply (parse_dump_roundtrip [97; 7; 233; 49; 34; 0x20ac] 34 34 34 [44] 64); try reflexivity; try done.
  - by left.
  - repeat constructor; done.
Defined.
