(* ===== verification/Atom.v ===== *)
(** * Atom tables (server/atom.c)

    An atom table maps case-insensitive strings to 16-bit atoms with a
    reference count. Entries are found through an array indexed by atom and
    through hash buckets, which are doubly linked lists of entries. *)

From S2P Require Import Prelude Unicode.

Definition HASH_SIZE : Z := 37.
Definition MIN_STR_ATOM : Z := 0xc000.
Definition MAX_ATOMS : Z := 0x4000.
Definition MAX_ATOM_LEN : Z := 255.
Definition MAXINTATOM : Z := 0xc000.

(** An entry is allocated for exactly one slot of the [atoms] array, so the
    pointers [next] and [prev] to entries are slot numbers. *)
Record atom_entry := AtomEntry {
  ae_next : option Z; ae_prev : option Z; ae_count : Z; ae_atom : Z; ae_hash : Z; ae_str : list Z
}.

Record atom_table := AtomTable {
  t_count : Z;                (* number of used atoms *)
  t_atoms : gmap Z atom_entry; (* atom entries; an absent key is NULL *)
  t_entries : gmap Z Z        (* hash buckets: first entry; an absent key is NULL *)
}.

Definition with_atoms (f : gmap Z atom_entry → gmap Z atom_entry) (t : atom_table) : atom_table :=
  AtomTable (t_count t) (f (t_atoms t)) (t_entries t).
Definition with_bucket (h : Z) (p : option Z) (t : atom_table) : atom_table :=
  AtomTable (t_count t) (t_atoms t) (partial_alter (λ _, p) h (t_entries t)).
Definition set_next (p : option Z) (e : atom_entry) : atom_entry :=
  AtomEntry p (ae_prev e) (ae_count e) (ae_atom e) (ae_hash e) (ae_str e).
Definition set_prev (p : option Z) (e : atom_entry) : atom_entry :=
  AtomEntry (ae_next e) p (ae_count e) (ae_atom e) (ae_hash e) (ae_str e).
Definition set_count (n : Z) (e : atom_entry) : atom_entry :=
  AtomEntry (ae_next e) (ae_prev e) n (ae_atom e) (ae_hash e) (ae_str e).

Abbreviation T := (M atom_table).

(** Following a pointer to an entry. *)
Definition deref (p : Z) : T atom_entry :=
  let* t := get in match t_atoms t !! p with Some e => ret e | None => crash end.
Definition update (p : Z) (f : atom_entry → atom_entry) : T unit :=
  let* e := deref p in modify (with_atoms <[p := f e]>).

(** create_atom_table; atom 0xc000 is reserved. *)
Definition create_atom_table : T (option atom_table) :=
  let* ok := mem_alloc in ret (if ok then Some (AtomTable 1 ∅ ∅) else None).

(** get_atom_entry on a non-NULL table *)
Definition get_atom_entry (atom : Z) : T (option Z) :=
  let* t := get in
  let entry := if (MIN_STR_ATOM <=? atom) && (atom <? MIN_STR_ATOM + t_count t)
               then (if t_atoms t !! (atom - MIN_STR_ATOM) is Some _ then Some (atom - MIN_STR_ATOM) else None)
               else None in
  when (negb (bool_decide (is_Some entry))) (set_error STATUS_INVALID_HANDLE) >>
  ret entry.

(** The memory of a fresh entry, before its fields are set. *)
Definition blank_entry : atom_entry := AtomEntry None None 0 0 0 [].

(** Returns the slot that the new entry gets, and so its pointer, with its
    atom; 0 when the table is full. *)
Definition add_atom_entry : T Z :=
  let* t := get in
  let i := find_from (λ i, negb (bool_decide (is_Some (t_atoms t !! i)))) 1 (Z.to_nat (t_count t - 1)) in
  if i =? MAX_ATOMS then ret 0 else
  when (i =? t_count t) (modify (λ t, AtomTable (t_count t + 1) (t_atoms t) (t_entries t))) >>
  modify (with_atoms <[i := AtomEntry None None 0 (i + MIN_STR_ATOM) 0 []]>) >>
  ret (i + MIN_STR_ATOM).

(** Atoms of the form #123 stand for themselves. *)
Fixpoint int_atom_loop (ret_ : Z) (p : list Z) : Z :=
  match p with
  | [] => ret_
  | c :: p' =>
      if (c <? 48) || (57 <? c) then 0 else
      let r := u32 (ret_ * 10 + c - 48) in
      if MAXINTATOM <=? r then 0 else int_atom_loop r p'
  end.
Definition get_int_atom_value (name : list Z) : Z :=
  match name with
  | 35 (* # *) :: p => int_atom_loop 0 p
  | _ => 0
  end.

Section Casemap.
Variable casemap : Z → Z.

(** The walk of a hash list from entry [entry]; the fuel is the number of
    entries of the table. *)
Fixpoint find_atom_loop (fuel : nat) (entry : option Z) (str : list Z) : T (option Z) :=
  match entry with
  | None => ret None
  | Some p =>
      match fuel with
      | O => crash
      | S fuel' =>
          let* e := deref p in
          let* same :=
            (if wlen (ae_str e) =? wlen str
             then match memicmp_strW casemap (ae_str e) str (wlen str) with
                  | Some r => ret (r =? 0)
                  | None => crash
                  end
             else ret false) in
          if same then ret (Some p) else find_atom_loop fuel' (ae_next e) str
      end
  end.

Definition find_atom_entry (str : list Z) (hash : Z) : T (option Z) :=
  let* t := get in find_atom_loop (size (t_atoms t)) (t_entries t !! hash) str.

Definition add_atom (str : list Z) : T Z :=
  if wlen str =? 0 then set_error STATUS_OBJECT_NAME_INVALID >> ret 0 else
  if MAX_ATOM_LEN * 2 <? wlen str then set_error STATUS_INVALID_PARAMETER >> ret 0 else
  let atom := get_int_atom_value str in
  if truth atom then ret atom else
  let hash := hash_strW casemap str HASH_SIZE in
  let* entry := find_atom_entry str hash in
  match entry with
  | Some p =>
      let* e := deref p in
      c_assert (ae_count e <? INT_MAX) >>
      update p (set_count (ae_count e + 1)) >>
      ret (ae_atom e)
  | None =>
      let* ok := mem_alloc in
      if negb ok then ret 0 else
      let* atom := add_atom_entry in
      if truth atom then
        let p := atom - MIN_STR_ATOM in
        let* t := get in
        let next := t_entries t !! hash in
        (if next is Some n then update n (set_prev (Some p)) else ret tt) >>
        modify (with_bucket hash (Some p)) >>
        update p (λ e, AtomEntry next None 1 (ae_atom e) hash str) >>
        ret atom
      else set_error STATUS_NO_MEMORY >> ret 0
  end.

(** delete_atom; [if_pinned] is not used by the code. *)
Definition delete_atom (atom : Z) : T unit :=
  let* entry := get_atom_entry atom in
  match entry with
  | None => ret tt
  | Some p =>
      let* e := deref p in
      update p (set_count (ae_count e - 1)) >>
      when (ae_count e - 1 =? 0)
        ((if ae_next e is Some n then update n (set_prev (ae_prev e)) else ret tt) >>
         (if ae_prev e is Some q then update q (set_next (ae_next e))
          else modify (with_bucket (ae_hash e) (ae_next e))) >>
         modify (with_atoms (delete (atom - MIN_STR_ATOM))))
  end.

Definition find_atom (str : list Z) : T Z :=
  if wlen str =? 0 then set_error STATUS_OBJECT_NAME_INVALID >> ret 0 else
  if MAX_ATOM_LEN * 2 <? wlen str then set_error STATUS_INVALID_PARAMETER >> ret 0 else
  let atom := get_int_atom_value str in
  if truth atom then ret atom else
  let hash := hash_strW casemap str HASH_SIZE in
  let* entry := find_atom_entry str hash in
  match entry with
  | None => set_error STATUS_OBJECT_NAME_NOT_FOUND >> ret 0
  | Some p => let* e := deref p in ret (ae_atom e)
  end.

Definition grab_atom (atom : Z) : T Z :=
  if MIN_STR_ATOM <=? atom then
    let* entry := get_atom_entry atom in
    match entry with
    | None => ret 0
    | Some p =>
        let* e := deref p in
        c_assert (ae_count e <? INT_MAX) >>
        update p (set_count (ae_count e + 1)) >>
        ret atom
    end
  else ret atom.

Definition release_atom (atom : Z) : T unit :=
  when (MIN_STR_ATOM <=? atom) (delete_atom atom).

(** ** The predefined atoms *)
Definition add_atom_asciiz (name : list Z) : T unit :=
  c_assert (Z.of_nat (length name) <=? MAX_ATOM_LEN + 1) >>
  let* _ := add_atom name in ret tt.
End Casemap.

(** get_atom_information and get_user_atom_name of the handlers below: count,
    total, and the [min( len, max )] bytes of the name that are sent. *)
Definition atom_information (max : Z) (atom : Z) : T (Z * Z * (list Z * Z)) :=
  let* entry := get_atom_entry atom in
  match entry with
  | None => ret (-1, 0, ([], 0))
  | Some p =>
      let* e := deref p in
      ret (ae_count e, wlen (ae_str e), (ae_str e, Z.min (wlen (ae_str e)) max))
  end.

(** ** Reasoning on tables *)

Lemma wp_deref p (e : atom_entry) t w (Q : atom_entry → atom_table → world → Prop) :
  t_atoms t !! p = Some e → Q e t w → wp (deref p) t w Q.
Proof. intros He HQ. unfold deref. wp_run. by rewrite He. Qed.

Lemma wp_update p f e t w (Q : unit → atom_table → world → Prop) :
  t_atoms t !! p = Some e → Q tt (with_atoms <[p := f e]> t) w → wp (update p f) t w Q.
Proof. intros He HQ. unfold update. wp_run. eapply wp_deref; [done|]. by wp_run. Qed.

(** Segment of a doubly linked list: [l] starts at pointer [p] after [prev],
    and ends with last element [last] and next pointer [nxt]. *)
Fixpoint dseg (m : gmap Z atom_entry) (prev p : option Z) (l : list Z) (last nxt : option Z) : Prop :=
  match l with
  | [] => last = prev ∧ nxt = p
  | x :: l' => p = Some x ∧ ∃ e, m !! x = Some e ∧ ae_prev e = prev ∧ dseg m (Some x) (ae_next e) l' last nxt
  end.

Lemma dseg_frame m m' prev p l last nxt :
  (∀ x, x ∈ l → m' !! x = m !! x) → dseg m prev p l last nxt → dseg m' prev p l last nxt.
Proof.
  revert prev p. induction l as [|x l IH]; intros prev p Hm; simpl; [done|].
  intros (-> & e & He & Hp & Hd). split; [done|]. exists e. rewrite Hm by set_solver.
  split; [done|]. split; [done|]. apply IH; [set_solver|done].
Qed.

Lemma dseg_app m prev p l1 l2 last nxt :
  dseg m prev p (l1 ++ l2) last nxt ↔ ∃ q n, dseg m prev p l1 q n ∧ dseg m q n l2 last nxt.
Proof.
  revert prev p. induction l1 as [|x l1 IH]; intros prev p; simpl; [naive_solver|].
  setoid_rewrite IH. split.
  - intros (-> & e & ? & ? & q & n & ? & ?). eauto 10.
  - intros (q & n & (-> & e & ? & ? & ?) & ?). eauto 10.
Qed.

(** Redirecting the back pointer of the first element. *)
Lemma dseg_set_prev m prev prev' n l last nxt e :
  n ∉ l → m !! n = Some e → dseg m prev (Some n) (n :: l) last nxt →
  dseg (<[n := set_prev prev' e]> m) prev' (Some n) (n :: l) last nxt.
Proof.
  intros Hn He (_ & e' & He' & _ & Hd). simplify_eq. simpl. split; [done|].
  exists (set_prev prev' e). rewrite lookup_insert_eq. split; [done|]. split; [done|].
  simpl. apply (dseg_frame m); [|done]. intros x Hx. apply lookup_insert_ne. set_solver.
Qed.

(** Redirecting the forward pointer of the last element. *)
Lemma dseg_set_next m prev p l q nxt nxt' e :
  NoDup (l ++ [q]) → m !! q = Some e → dseg m prev p (l ++ [q]) (Some q) nxt →
  dseg (<[q := set_next nxt' e]> m) prev p (l ++ [q]) (Some q) nxt'.
Proof.
  intros Hnd He. rewrite !dseg_app. intros (q' & n & H1 & H2).
  apply NoDup_app in Hnd as (_ & Hq & _). exists q', n. split.
  - apply (dseg_frame m); [|done]. intros x Hx. apply lookup_insert_ne. intros ->. by apply (Hq x); [|left].
  - destruct H2 as (-> & e' & He' & Hp & Hl). simplify_eq. simpl. split; [done|].
    exists (set_next nxt' e). rewrite lookup_insert_eq. done.
Qed.

Lemma dseg_last m prev p l last nxt :
  dseg m prev p l last nxt → last = match list.last l with Some q => Some q | None => prev end.
Proof.
  revert prev p. induction l as [|x l IH]; intros prev p; [simpl; naive_solver|].
  intros (-> & e & _ & _ & Hd). apply IH in Hd. rewrite Hd. destruct l as [|y l]; [done|].
  change (list.last (x :: y :: l)) with (list.last (y :: l)).
  destruct (list.last (y :: l)) eqn:E; [done|]. by apply last_None in E.
Qed.

Lemma dseg_lookup m prev p l last nxt x :
  dseg m prev p l last nxt → x ∈ l → is_Some (m !! x).
Proof.
  revert prev p. induction l as [|y l IH]; intros prev p; simpl; [set_solver|].
  intros (-> & e & ? & ? & ?). rewrite elem_of_cons. intros [->|?]; eauto.
Qed.

(** ** The invariant

    The contents of an entry, apart from its links. *)

Record atom_data := AtomData { ad_count : Z; ad_atom : Z; ad_hash : Z; ad_str : list Z }.
Definition data_of (e : atom_entry) : atom_data := AtomData (ae_count e) (ae_atom e) (ae_hash e) (ae_str e).
Definition data (m : gmap Z atom_entry) : gmap Z atom_data := data_of <$> m.

Lemma data_lookup m i d : data m !! i = Some d ↔ ∃ e, m !! i = Some e ∧ data_of e = d.
Proof. unfold data. rewrite lookup_fmap_Some. naive_solver. Qed.

Lemma data_relink m i e e' : m !! i = Some e → data_of e' = data_of e → data (<[i := e']> m) = data m.
Proof.
  intros He Hd. unfold data. rewrite fmap_insert, Hd. apply insert_id. by rewrite lookup_fmap, He.
Qed.

Section Invariant.
Variable casemap : Z → Z.
#[local] Abbreviation fold := (fold_case casemap).
#[local] Abbreviation hash := (λ s, hash_strW casemap s HASH_SIZE).

(** A string that is stored in the table (not an integer atom). *)
Definition atom_name (s : list Z) : Prop :=
  0 < wlen s ≤ MAX_ATOM_LEN * 2 ∧ get_int_atom_value s = 0.

Record data_ok (count : Z) (D : gmap Z atom_data) : Prop := {
  do_entry : ∀ i d, D !! i = Some d →
    1 ≤ i < count ∧ ad_atom d = i + MIN_STR_ATOM ∧ 1 ≤ ad_count d ≤ INT_MAX ∧
    ad_hash d = hash (ad_str d) ∧ atom_name (ad_str d);
  do_unique : ∀ i j d f, D !! i = Some d → D !! j = Some f → fold (ad_str d) = fold (ad_str f) → i = j
}.

(** [bk h] is the list of the entries of bucket [h]. *)
Record atom_inv_at (t : atom_table) (bk : Z → list Z) : Prop := {
  ai_count : 1 ≤ t_count t ≤ MAX_ATOMS;
  ai_data : data_ok (t_count t) (data (t_atoms t));
  ai_bucket : ∀ h, ∃ last, dseg (t_atoms t) None (t_entries t !! h) (bk h) last None;
  ai_nodup : ∀ h, NoDup (bk h);
  ai_member : ∀ h i, i ∈ bk h ↔ ∃ d, data (t_atoms t) !! i = Some d ∧ ad_hash d = h
}.
Definition atom_inv (t : atom_table) : Prop := ∃ bk, atom_inv_at t bk.

Lemma fold_length s1 s2 : fold s1 = fold s2 → length s1 = length s2.
Proof. intros H%(f_equal length). unfold fold_case in H. by rewrite !length_map in H. Qed.

(** The search finds the entry of the list with the same folded name. *)
Lemma wp_find_atom_loop str t w fuel prev p l last (Q : option Z → atom_table → world → Prop) :
  dseg (t_atoms t) prev p l last None → (length l ≤ fuel)%nat →
  (∀ i e, i ∈ l → t_atoms t !! i = Some e → fold (ae_str e) = fold str → Q (Some i) t w) →
  ((∀ i e, i ∈ l → t_atoms t !! i = Some e → fold (ae_str e) ≠ fold str) → Q None t w) →
  wp (find_atom_loop casemap fuel p str) t w Q.
Proof.
  revert fuel prev p. induction l as [|x l IH]; intros fuel prev p; simpl.
  { intros [_ <-] _ _ HN. destruct fuel; cbn; wp_run; apply HN; set_solver. }
  intros (-> & e & He & _ & Hd) Hf HS HN. destruct fuel as [|fuel]; [lia|]. cbn [find_atom_loop].
  wp_run. eapply wp_deref; [done|].
  assert (∀ Q', (fold (ae_str e) = fold str → Q' true t w) → (fold (ae_str e) ≠ fold str → Q' false t w) →
    wp (if wlen (ae_str e) =? wlen str
        then match memicmp_strW casemap (ae_str e) str (wlen str) with Some r => ret (r =? 0) | None => crash end
        else ret false) t w Q') as Hcmp.
  { intros Q' Ht Hf'. destruct (Z.eqb_spec (wlen (ae_str e)) (wlen str)) as [Hl|Hl].
    - assert (length (ae_str e) = length str) as Hl' by (unfold wlen in Hl; lia).
      pose proof (memicmp_strW_eq casemap _ _ Hl') as Heq. rewrite Hl in Heq.
      destruct (memicmp_loop_total casemap (ae_str e) str (Z.to_nat (wlen str / 2))) as [r Hr].
      1,2: unfold wlen; rewrite Z.mul_comm, Z.div_mul by lia; lia.
      unfold memicmp_strW in *. rewrite Hr in *. wp_run.
      destruct (Z.eqb_spec r 0) as [->|Hr0]; [apply Ht, Heq; done|apply Hf'].
      intros H%Heq. congruence.
    - wp_run. apply Hf'. intros H%fold_length. unfold wlen in Hl. congruence. }
  rewrite wp_bind. apply Hcmp; intros Hfold; cbn; wp_run.
  - eapply HS; eauto. set_solver.
  - eapply IH; [done|lia| |].
    + intros i f Hi. eapply HS. set_solver.
    + intros HN'. apply HN. intros i f Hi Hif. apply elem_of_cons in Hi as [->|Hi]; [congruence|eauto].
Qed.

Lemma wp_find_atom_entry str t w (Q : option Z → atom_table → world → Prop) :
  atom_inv t →
  (∀ i e, t_atoms t !! i = Some e → fold (ae_str e) = fold str → Q (Some i) t w) →
  ((∀ i e, t_atoms t !! i = Some e → fold (ae_str e) ≠ fold str) → Q None t w) →
  wp (find_atom_entry casemap str (hash str)) t w Q.
Proof.
  intros [bk []] HS HN. unfold find_atom_entry. wp_run.
  destruct (ai_bucket0 (hash str)) as [last Hd]. eapply wp_find_atom_loop; [done| | |].
  - apply nodup_length_size; [done|]. intros x. by eapply dseg_lookup.
  - eauto.
  - intros H. apply HN. intros i e Hi Hf. eapply H; [|done|done]. apply ai_member0.
    exists (data_of e). rewrite data_lookup. split; [eauto|].
    destruct (do_entry _ _ ai_data0 i (data_of e)) as (_ & _ & _ & -> & _); [apply data_lookup; eauto|].
    by apply hash_strW_fold.
Qed.

(** ** The three updates *)

Lemma data_ok_insert count D i d :
  data_ok count D → 1 ≤ i < count → ad_atom d = i + MIN_STR_ATOM → 1 ≤ ad_count d ≤ INT_MAX →
  ad_hash d = hash (ad_str d) → atom_name (ad_str d) →
  (∀ j f, j ≠ i → D !! j = Some f → fold (ad_str f) ≠ fold (ad_str d)) →
  data_ok count (<[i := d]> D).
Proof.
  intros [] Hi Ha Hc Hh Hn Hu. split.
  - intros j f. rewrite lookup_insert. case_decide; [intros; by simplify_eq|]. apply do_entry0.
  - intros j k f g. rewrite !lookup_insert. repeat case_decide; intros; simplify_eq; try done.
    + exfalso. by eapply (Hu k g).
    + exfalso. by eapply (Hu j f).
    + by eapply do_unique0.
Qed.

Lemma data_ok_mono count count' D : count ≤ count' → data_ok count D → data_ok count' D.
Proof. intros Hc []. split; [|done]. intros i d Hd. specialize (do_entry0 i d Hd). naive_solver lia. Qed.

(** Changing the reference count. *)
Lemma atom_inv_set_count t p e n :
  atom_inv t → t_atoms t !! p = Some e → 1 ≤ n ≤ INT_MAX → atom_inv (with_atoms <[p := set_count n e]> t).
Proof.
  intros [bk []] He Hn. exists bk.
  assert (data (<[p := set_count n e]> (t_atoms t)) = <[p := data_of (set_count n e)]> (data (t_atoms t))) as Hd
    by apply fmap_insert.
  assert (data (t_atoms t) !! p = Some (data_of e)) as Hp by (apply data_lookup; eauto).
  pose proof (do_entry _ _ ai_data0 _ _ Hp) as (? & ? & ? & ? & ?).
  split; simpl; try done.
  - rewrite Hd. apply data_ok_insert; try done.
    intros j f Hj Hf Heq. apply Hj. by apply (do_unique _ _ ai_data0 j p f (data_of e)).
  - intros h. destruct (ai_bucket0 h) as [last Hseg]. exists last. revert Hseg.
    generalize (@None Z) at 1 3. generalize (t_entries t !! h).
    induction (bk h) as [|x l IH]; intros b prev; simpl; [done|].
    intros (-> & e' & He' & Hp' & Hl). split; [done|]. rewrite lookup_insert. case_decide; simplify_eq; eauto.
  - intros h i. rewrite ai_member0, Hd, lookup_insert. case_decide; [subst|done].
    rewrite Hp. split; intros (? & [= <-] & ?); eauto.
Qed.

(** Linking a new entry [i] in front of its bucket: what [add_atom] does once
    [add_atom_entry] has found the slot. *)
Definition relink_prev (p : option Z) (next : option Z) (m : gmap Z atom_entry) : gmap Z atom_entry :=
  match next with Some n => alter (set_prev p) n m | None => m end.

Lemma data_relink_prev p next m :
  (∀ n, next = Some n → is_Some (m !! n)) → data (relink_prev p next m) = data m.
Proof.
  intros H. destruct next as [n|]; simpl; [|done]. destruct (H n eq_refl) as [e He].
  rewrite (alter_present _ _ _ e) by done. by apply (data_relink m n e).
Qed.

Lemma relink_prev_ne p next m x : next ≠ Some x → relink_prev p next m !! x = m !! x.
Proof. destruct next as [n|]; simpl; [|done]. intros. apply lookup_alter_ne. congruence. Qed.

Lemma dseg_relink_prev m prev p next l last :
  NoDup l → dseg m prev next l last None →
  ∃ last', dseg (relink_prev p next m) p next l last' None.
Proof.
  intros Hnd Hd. destruct l as [|n l].
  - destruct Hd as [_ <-]. simpl. by exists p.
  - pose proof Hd as (-> & e & He & _ & _). exists last. simpl relink_prev.
    rewrite (alter_present _ _ _ e) by done.
    apply NoDup_cons in Hnd as [Hn _]. by eapply dseg_set_prev.
Qed.

Lemma atom_inv_insert t i str count' :
  atom_inv t → data (t_atoms t) !! i = None → 1 ≤ i < count' → t_count t ≤ count' ≤ MAX_ATOMS → atom_name str →
  (∀ j d, data (t_atoms t) !! j = Some d → fold (ad_str d) ≠ fold str) →
  let next := t_entries t !! hash str in
  atom_inv (AtomTable count'
    (<[i := AtomEntry next None 1 (i + MIN_STR_ATOM) (hash str) str]> (relink_prev (Some i) next (t_atoms t)))
    (<[hash str := i]> (t_entries t))).
Proof.
  intros [bk []] Hi Hr Hc Hn Hu next. set (E := AtomEntry _ _ _ _ _ _).
  assert (∀ n, next = Some n → n ∈ bk (hash str) ∧ is_Some (t_atoms t !! n)) as Hnext.
  { intros n Hn'. unfold next in Hn'. destruct (ai_bucket0 (hash str)) as [last Hd].
    destruct (bk (hash str)) as [|x l] eqn:El; simpl in Hd; [destruct Hd; congruence|].
    destruct Hd as (Hx & e & He & _). rewrite Hn' in Hx. simplify_eq. split; [left|eauto]. }
  assert (data (<[i := E]> (relink_prev (Some i) next (t_atoms t))) = <[i := data_of E]> (data (t_atoms t))) as HD.
  { unfold data at 1. rewrite fmap_insert. f_equal. apply data_relink_prev. intros n H. by apply Hnext. }
  assert (∀ h, i ∉ bk h) as Hfresh.
  { intros h (d & Hd & _)%ai_member0. congruence. }
  exists (λ h, if decide (h = hash str) then i :: bk h else bk h). split; simpl.
  - lia.
  - rewrite HD. apply data_ok_insert; simpl; try done; [|eauto].
    eapply data_ok_mono; [|done]. lia.
  - intros h. destruct (decide (h = hash str)) as [->|Hh].
    + rewrite lookup_insert_eq. destruct (ai_bucket0 (hash str)) as [last Hd].
      destruct (dseg_relink_prev _ _ (Some i) _ _ _ (ai_nodup0 _) Hd) as [last' Hd'].
      exists last'. simpl. split; [done|]. exists E. rewrite lookup_insert_eq. split; [done|]. split; [done|].
      simpl. apply (dseg_frame (relink_prev (Some i) next (t_atoms t))); [|done].
      intros x Hx. apply lookup_insert_ne. intros ->. by apply (Hfresh (hash str)).
    + rewrite lookup_insert_ne by done. destruct (ai_bucket0 h) as [last Hd]. exists last.
      apply (dseg_frame (t_atoms t)); [|done]. intros x Hx. rewrite lookup_insert_ne, relink_prev_ne; [done| |].
      * intros Hx'. apply Hnext in Hx' as [Hx' _]. apply ai_member0 in Hx as (d & ? & ?).
        apply ai_member0 in Hx' as (d' & ? & ?). congruence.
      * intros ->. by apply (Hfresh h).
  - intros h. case_decide; [|done]. apply NoDup_cons. split; [apply Hfresh|done].
  - intros h j. rewrite HD, lookup_insert. destruct (decide (i = j)) as [->|Hij].
    + split.
      * intros Hj. exists (data_of E). case_decide; [subst; done|]. by apply Hfresh in Hj.
      * intros (d & [= <-] & <-). simpl. rewrite decide_True by done. left.
    + rewrite <- ai_member0. case_decide; [|done]. rewrite elem_of_cons. naive_solver.
Qed.

(** Unlinking entry [x]: what [delete_atom] does when the count drops to 0. *)
Definition unlink (x : Z) (e : atom_entry) (t : atom_table) : atom_table :=
  let m := relink_prev (ae_prev e) (ae_next e) (t_atoms t) in
  match ae_prev e with
  | Some q => AtomTable (t_count t) (delete x (alter (set_next (ae_next e)) q m)) (t_entries t)
  | None => AtomTable (t_count t) (delete x m) (partial_alter (λ _, ae_next e) (ae_hash e) (t_entries t))
  end.

Lemma atom_inv_remove t bk x e l1 l2 m' entries' :
  atom_inv_at t bk → t_atoms t !! x = Some e → bk (ae_hash e) = l1 ++ x :: l2 →
  data m' = delete x (data (t_atoms t)) →
  (∃ last, dseg m' None (entries' !! ae_hash e) (l1 ++ l2) last None) →
  (∀ h y, h ≠ ae_hash e → y ∈ bk h → m' !! y = t_atoms t !! y) →
  (∀ h, h ≠ ae_hash e → entries' !! h = t_entries t !! h) →
  atom_inv (AtomTable (t_count t) m' entries').
Proof.
  intros [] He Hl HD Hseg Hframe Hent.
  pose proof (ai_nodup0 (ae_hash e)) as Hnd. rewrite Hl in Hnd.
  assert (x ∉ l1 ++ l2 ∧ NoDup (l1 ++ l2)) as [Hx12 Hnd12].
  { rewrite <- Permutation_middle in Hnd. by apply NoDup_cons. }
  exists (λ h, if decide (h = ae_hash e) then l1 ++ l2 else bk h). split; simpl; try done.
  - rewrite HD. destruct ai_data0 as [Hent0 Huniq]. split.
    + intros i d [_ Hd]%lookup_delete_Some. by apply Hent0.
    + intros i j d f [_ Hd]%lookup_delete_Some [_ Hf]%lookup_delete_Some. by apply Huniq.
  - intros h. case_decide as E; [by subst|]. rewrite Hent by done.
    destruct (ai_bucket0 h) as [last Hd]. exists last. apply (dseg_frame (t_atoms t)); eauto.
  - intros h. case_decide; [done|apply ai_nodup0].
  - intros h i. rewrite HD. destruct (decide (i = x)) as [->|Hi].
    + split; [|intros (d & [? _]%lookup_delete_Some & _); done].
      case_decide; [by intros ?%Hx12|]. intros (d & Hd & Hh)%ai_member0.
      apply data_lookup in Hd as (e' & He' & <-). simplify_eq.
    + rewrite lookup_delete_ne by done. rewrite <- ai_member0. case_decide as E; [subst|done].
      rewrite Hl. set_solver.
Qed.

Lemma atom_inv_unlink t x e :
  atom_inv t → t_atoms t !! x = Some e →
  atom_inv (unlink x e t) ∧ data (t_atoms (unlink x e t)) = delete x (data (t_atoms t)) ∧
  t_count (unlink x e t) = t_count t.
Proof.
  intros [bk []] He.
  assert (data (t_atoms t) !! x = Some (data_of e)) as Hx by (apply data_lookup; eauto).
  assert (x ∈ bk (ae_hash e)) as Hin by (apply ai_member0; exists (data_of e); done).
  destruct (ai_bucket0 (ae_hash e)) as [last Hd]. pose proof (ai_nodup0 (ae_hash e)) as Hnd.
  apply list_elem_of_split in Hin as (l1 & l2 & Hl). rewrite Hl in Hd, Hnd.
  apply dseg_app in Hd as (q & nx & Hd1 & (-> & e' & He' & Hq & Hd2)). simplify_eq.
  apply NoDup_app in Hnd as (Hnd1 & Hdis & [Hx2 Hnd2]%NoDup_cons).
  assert (x ∉ l1) as Hx1 by (intros H; apply (Hdis x H); left).
  set (m1 := relink_prev (ae_prev e) (ae_next e) (t_atoms t)).
  assert (∃ last', dseg m1 (ae_prev e) (ae_next e) l2 last' None) as [last' Hm2]
    by (by eapply dseg_relink_prev).
  assert (∀ n, ae_next e = Some n → n ∈ l2) as Hnext.
  { intros n En. rewrite En in Hd2. destruct l2; simpl in Hd2; [destruct Hd2; congruence|]. destruct Hd2 as [[= <-] _]. left. }
  assert (∀ y, y ∉ l2 → m1 !! y = t_atoms t !! y) as Hm1.
  { intros y Hy. apply relink_prev_ne. intros E%Hnext. done. }
  assert (dseg m1 None (t_entries t !! ae_hash e) l1 (ae_prev e) (Some x)) as Hm11.
  { apply (dseg_frame (t_atoms t)); [|done]. intros y Hy. apply Hm1. intros Hy2. apply (Hdis y Hy). by right. }
  pose proof (dseg_last _ _ _ _ _ _ Hm11) as Hlast.
  assert (data m1 = data (t_atoms t)) as HD1.
  { apply data_relink_prev. intros n En%Hnext. eapply dseg_lookup; [exact Hd2|done]. }
  assert (∀ h y, h ≠ ae_hash e → y ∈ bk h → y ≠ x ∧ y ∉ l1 ∧ y ∉ l2) as Hother.
  { intros h y Hh Hy. assert (y ∉ bk (ae_hash e)) as Hy'.
    { intros Hy'. apply ai_member0 in Hy as (d & ? & ?). apply ai_member0 in Hy' as (d' & ? & ?). congruence. }
    rewrite Hl in Hy'. set_solver. }
  unfold unlink. fold m1. destruct l1 as [|q l1 _] using rev_ind.
  - destruct Hd1 as [Eprev Ebk]. rewrite Eprev in *. simpl.
    assert (data (delete x m1) = delete x (data (t_atoms t))) as HD by (unfold data at 1; by rewrite fmap_delete, <- HD1).
    split; [|done].
    eapply (atom_inv_remove t bk x e [] l2); [by split|done|done|done| | |].
    + exists last'. rewrite lookup_partial_alter_eq. apply (dseg_frame m1); [|done].
      intros y Hy. apply lookup_delete_ne. intros ->. done.
    + intros h y Hh Hy. destruct (Hother h y Hh Hy) as (? & _ & ?). rewrite lookup_delete_ne by done. by apply Hm1.
    + intros h Hh. by apply lookup_partial_alter_ne.
  - rewrite last_snoc in Hlast. rewrite Hlast in *.
    assert (is_Some (m1 !! q)) as [eq Heq] by (eapply dseg_lookup; [exact Hm11|set_solver]).
    assert (alter (set_next (ae_next e)) q m1 = <[q := set_next (ae_next e) eq]> m1) as ->
      by (by apply alter_present).
    set (m2 := <[q := set_next (ae_next e) eq]> m1).
    assert (data (delete x m2) = delete x (data (t_atoms t))) as HD.
    { unfold data at 1. rewrite fmap_delete. f_equal. rewrite <- HD1. by apply (data_relink m1 q eq). }
    split; [|done]. eapply (atom_inv_remove t bk x e (l1 ++ [q]) l2); [by split|done|done|done| | |done].
    + exists last'. apply (dseg_frame m2).
      { intros y Hy. apply lookup_delete_ne. intros ->. apply elem_of_app in Hy as [?|?]; done. }
      apply dseg_app. exists (Some q), (ae_next e). split; [by eapply dseg_set_next|].
      apply (dseg_frame m1); [|done]. intros y Hy. apply lookup_insert_ne. intros <-.
      apply (Hdis q); [set_solver|]. by right.
    + intros h y Hh Hy. destruct (Hother h y Hh Hy) as (? & Hy1 & ?). rewrite lookup_delete_ne by done.
      unfold m2. rewrite lookup_insert_ne by set_solver. by apply Hm1.
Qed.
End Invariant.

(** ** Abstract specification

    What an atom table promises: it is a finite map from atoms to a folded name
    and a reference count. *)

Abbreviation atom_map := (gmap Z (list Z * Z)).

Inductive atom_op :=
  | AddAtom (str : list Z) | FindAtom (str : list Z)
  | DeleteAtom (atom : Z) | GrabAtom (atom : Z) | ReleaseAtom (atom : Z).

Definition name_error (str : list Z) : option Z :=
  if wlen str =? 0 then Some STATUS_OBJECT_NAME_INVALID
  else if MAX_ATOM_LEN * 2 <? wlen str then Some STATUS_INVALID_PARAMETER
  else None.

(** The lowest atom slot that is not in use. *)
Definition lowest_free (A : atom_map) (i : Z) : Prop :=
  1 ≤ i ∧ A !! i = None ∧ ∀ j, 1 ≤ j < i → is_Some (A !! j).

Section Spec.
Variable casemap : Z → Z.
#[local] Abbreviation fold := (fold_case casemap).

(** [atom_spec nomem A op r err A']: on the map [A], [op] may return [r], set
    the error [err] (or leave the error register alone), and leave [A'].
    Allocation may fail only if [nomem] holds. *)
Inductive atom_spec (nomem : Prop) (A : atom_map) : atom_op → Z → option Z → atom_map → Prop :=
  | spec_add_bad str e : name_error str = Some e → atom_spec nomem A (AddAtom str) 0 (Some e) A
  | spec_find_bad str e : name_error str = Some e → atom_spec nomem A (FindAtom str) 0 (Some e) A
  | spec_add_int str a : name_error str = None → get_int_atom_value str = a → a ≠ 0 →
      atom_spec nomem A (AddAtom str) a None A
  | spec_find_int str a : name_error str = None → get_int_atom_value str = a → a ≠ 0 →
      atom_spec nomem A (FindAtom str) a None A
  | spec_add_known str i n : atom_name str → A !! i = Some (fold str, n) →
      atom_spec nomem A (AddAtom str) (i + MIN_STR_ATOM) None (<[i := (fold str, n + 1)]> A)
  | spec_add_new str i : atom_name str → (∀ j n, A !! j ≠ Some (fold str, n)) →
      lowest_free A i → i < MAX_ATOMS →
      atom_spec nomem A (AddAtom str) (i + MIN_STR_ATOM) None (<[i := (fold str, 1)]> A)
  | spec_add_full str : atom_name str → (∀ j n, A !! j ≠ Some (fold str, n)) →
      lowest_free A MAX_ATOMS → atom_spec nomem A (AddAtom str) 0 (Some STATUS_NO_MEMORY) A
  | spec_add_nomem str : nomem → atom_name str → (∀ j n, A !! j ≠ Some (fold str, n)) →
      atom_spec nomem A (AddAtom str) 0 (Some STATUS_NO_MEMORY) A
  | spec_find_known str i n : atom_name str → A !! i = Some (fold str, n) →
      atom_spec nomem A (FindAtom str) (i + MIN_STR_ATOM) None A
  | spec_find_unknown str : atom_name str → (∀ j n, A !! j ≠ Some (fold str, n)) →
      atom_spec nomem A (FindAtom str) 0 (Some STATUS_OBJECT_NAME_NOT_FOUND) A
  | spec_grab_int a : a < MIN_STR_ATOM → atom_spec nomem A (GrabAtom a) a None A
  | spec_grab_known i s n : A !! i = Some (s, n) →
      atom_spec nomem A (GrabAtom (i + MIN_STR_ATOM)) (i + MIN_STR_ATOM) None (<[i := (s, n + 1)]> A)
  | spec_grab_bad a : MIN_STR_ATOM ≤ a → A !! (a - MIN_STR_ATOM) = None →
      atom_spec nomem A (GrabAtom a) 0 (Some STATUS_INVALID_HANDLE) A
  | spec_release_int a : a < MIN_STR_ATOM → atom_spec nomem A (ReleaseAtom a) 0 None A
  | spec_release a err A' : MIN_STR_ATOM ≤ a → atom_spec nomem A (DeleteAtom a) 0 err A' →
      atom_spec nomem A (ReleaseAtom a) 0 err A'
  | spec_delete_last i s : A !! i = Some (s, 1) →
      atom_spec nomem A (DeleteAtom (i + MIN_STR_ATOM)) 0 None (delete i A)
  | spec_delete_more i s n : A !! i = Some (s, n) → 1 < n →
      atom_spec nomem A (DeleteAtom (i + MIN_STR_ATOM)) 0 None (<[i := (s, n - 1)]> A)
  | spec_delete_bad a : A !! (a - MIN_STR_ATOM) = None →
      atom_spec nomem A (DeleteAtom a) 0 (Some STATUS_INVALID_HANDLE) A.

Definition exec_atom (op : atom_op) : T Z :=
  match op with
  | AddAtom str => add_atom casemap str
  | FindAtom str => find_atom casemap str
  | DeleteAtom a => delete_atom a >> ret 0
  | GrabAtom a => grab_atom a
  | ReleaseAtom a => release_atom a >> ret 0
  end.

Definition abs_data (d : atom_data) : list Z * Z := (fold (ad_str d), ad_count d).
Definition abs (t : atom_table) : atom_map := abs_data <$> data (t_atoms t).

(** No reference count is about to overflow. *)
Definition counts_fit (t : atom_table) : Prop := ∀ i e, t_atoms t !! i = Some e → ae_count e < INT_MAX.

(** ** Refinement lemmas *)

Lemma abs_lookup t i e : t_atoms t !! i = Some e → abs t !! i = Some (fold (ae_str e), ae_count e).
Proof. intros H. unfold abs, data. by rewrite !lookup_fmap, H. Qed.
Lemma abs_lookup_None t i : abs t !! i = None ↔ t_atoms t !! i = None.
Proof. unfold abs, data. by rewrite !lookup_fmap, !fmap_None. Qed.
Lemma abs_key t i k n : abs t !! i = Some (k, n) → ∃ e, t_atoms t !! i = Some e ∧ fold (ae_str e) = k ∧ ae_count e = n.
Proof.
  unfold abs. rewrite lookup_fmap_Some. intros (d & [= <- <-] & (e & He & <-)%data_lookup). eauto.
Qed.

Lemma get_atom_entry_spec atom t w (Q : option Z → atom_table → world → Prop) :
  atom_inv casemap t →
  (∀ e, t_atoms t !! (atom - MIN_STR_ATOM) = Some e → Q (Some (atom - MIN_STR_ATOM)) t w) →
  (abs t !! (atom - MIN_STR_ATOM) = None → Q None t (World STATUS_INVALID_HANDLE (w_mem w))) →
  wp (get_atom_entry atom) t w Q.
Proof.
  intros [bk []] HS HN. unfold get_atom_entry, when. wp_run.
  destruct (t_atoms t !! (atom - MIN_STR_ATOM)) as [e|] eqn:He.
  - destruct (do_entry _ _ _ ai_data0 (atom - MIN_STR_ATOM) (data_of e)) as (? & _); [apply data_lookup; eauto|].
    replace ((MIN_STR_ATOM <=? atom) && (atom <? MIN_STR_ATOM + t_count t)) with true by lia.
    wp_run. eauto.
  - assert ((if (MIN_STR_ATOM <=? atom) && (atom <? MIN_STR_ATOM + t_count t) then @None Z else None) = None) as ->
      by (by destruct (_ && _)).
    wp_run. apply HN. by apply abs_lookup_None.
Qed.

Lemma abs_insert t i e' : abs (with_atoms <[i := e']> t) = <[i := (fold (ae_str e'), ae_count e')]> (abs t).
Proof. unfold abs, data. simpl. by rewrite !fmap_insert. Qed.

Lemma no_key t str :
  (∀ i e, t_atoms t !! i = Some e → fold (ae_str e) ≠ fold str) → ∀ j n, abs t !! j ≠ Some (fold str, n).
Proof. intros H j n (e & He & Hf & _)%abs_key. by eapply H. Qed.

(** The checks at the head of [add_atom] and [find_atom]. *)
Lemma name_cases str :
  (∃ e, name_error str = Some e) ∨ (name_error str = None ∧ get_int_atom_value str ≠ 0) ∨ atom_name str.
Proof.
  unfold name_error, atom_name. pose proof (Nat2Z.is_nonneg (length str)).
  destruct (wlen str =? 0) eqn:E1; [left; eauto|]. destruct (_ <? wlen str) eqn:E2; [left; eauto|right].
  destruct (decide (get_int_atom_value str = 0)); [right|by left]. unfold wlen in *. split; [lia|done].
Qed.

Lemma atom_name_checks str : atom_name str → (wlen str =? 0) = false ∧ (MAX_ATOM_LEN * 2 <? wlen str) = false ∧ truth (get_int_atom_value str) = false.
Proof. intros [? ->]. repeat split; lia. Qed.

Lemma name_error_wp {A} str e (m : T A) r t w Q :
  name_error str = Some e → Q r t (World e (w_mem w)) →
  wp (if wlen str =? 0 then set_error STATUS_OBJECT_NAME_INVALID >> ret r else
      if MAX_ATOM_LEN * 2 <? wlen str then set_error STATUS_INVALID_PARAMETER >> ret r else m) t w Q.
Proof.
  unfold name_error. intros He HQ. destruct (wlen str =? 0); simplify_eq; [by wp_run|].
  destruct (_ <? _); simplify_eq. by wp_run.
Qed.

Lemma name_ok_wp {A} str (m : T A) r t w Q :
  name_error str = None → wp m t w Q →
  wp (if wlen str =? 0 then set_error STATUS_OBJECT_NAME_INVALID >> ret r else
      if MAX_ATOM_LEN * 2 <? wlen str then set_error STATUS_INVALID_PARAMETER >> ret r else m) t w Q.
Proof. unfold name_error. intros He HQ. destruct (wlen str =? 0); [done|]. by destruct (_ <? _). Qed.

Lemma atom_name_error str : atom_name str → name_error str = None.
Proof. unfold name_error. by intros (-> & -> & _)%atom_name_checks. Qed.

Definition refines_step (t : atom_table) (w : world) (op : atom_op) (r : Z) (t' : atom_table) (w' : world) : Prop :=
  atom_inv casemap t' ∧
  ∃ err, w_error w' = default (w_error w) err ∧ atom_spec (w_mem w ≠ []) (abs t) op r err (abs t').

Lemma wp_add_atom_entry t w (Q : Z → atom_table → world → Prop) :
  atom_inv casemap t →
  (lowest_free (abs t) MAX_ATOMS → Q 0 t w) →
  (∀ i c, lowest_free (abs t) i → i < MAX_ATOMS → i < c → t_count t ≤ c ≤ MAX_ATOMS →
     Q (i + MIN_STR_ATOM) (AtomTable c (<[i := AtomEntry None None 0 (i + MIN_STR_ATOM) 0 []]> (t_atoms t)) (t_entries t)) w) →
  wp add_atom_entry t w Q.
Proof.
  intros [bk []] HF HS. unfold add_atom_entry. wp_run.
  set (p := λ i, negb (bool_decide (is_Some (t_atoms t !! i)))).
  set (i := find_from p 1 (Z.to_nat (t_count t - 1))).
  assert (1 ≤ i ≤ t_count t) as Hi by (pose proof (find_from_range p 1 (Z.to_nat (t_count t - 1))); unfold i; lia).
  assert (lowest_free (abs t) i) as Hfree.
  { split; [lia|]. split.
    - apply abs_lookup_None. destruct (decide (i = t_count t)) as [E|Hne].
      + destruct (t_atoms t !! i) as [e|] eqn:He; [|done].
        destruct (do_entry _ _ _ ai_data0 i (data_of e)) as (? & _); [apply data_lookup; eauto|lia].
      + assert (p i = true) as Hp by (apply find_from_found; fold i; lia).
        unfold p in Hp. apply negb_true_iff, bool_decide_eq_false in Hp. by apply eq_None_not_Some.
    - intros j Hj. assert (p j = false) as Hp by (by apply (find_from_skipped p 1 (Z.to_nat (t_count t - 1)))).
      unfold p in Hp. apply negb_false_iff, bool_decide_eq_true in Hp as [e He].
      rewrite (abs_lookup _ _ _ He). eauto. }
  destruct (Z.eqb_spec i MAX_ATOMS) as [E|Hne]; wp_run; [apply HF; by rewrite E in Hfree|].
  unfold when. destruct (Z.eqb_spec i (t_count t)) as [E|Hne']; wp_run; apply HS; try done; simpl; lia.
Qed.

Lemma link_entry_eq m i next :
  m !! i = None → (∀ n, next = Some n → is_Some (m !! n)) →
  let blank := AtomEntry None None 0 (i + MIN_STR_ATOM) 0 [] in
  ∀ E, <[i := E]> (relink_prev (Some i) next (<[i := blank]> m)) = <[i := E]> (relink_prev (Some i) next m).
Proof.
  intros Hi Hn blank E. apply map_eq. intros j. rewrite !lookup_insert. case_decide as Hij; [done|].
  destruct next as [n|]; simpl; [|by apply lookup_insert_ne].
  assert (i ≠ n) by (intros ->; destruct (Hn n eq_refl); congruence).
  rewrite !lookup_alter. case_decide; subst; by rewrite lookup_insert_ne.
Qed.

Lemma bucket_head t h n :
  atom_inv casemap t → t_entries t !! h = Some n → is_Some (t_atoms t !! n).
Proof.
  intros [bk []] Hn. destruct (ai_bucket0 h) as [last Hd]. rewrite Hn in Hd.
  destruct (bk h) as [|x l]; simpl in Hd; [by destruct Hd|]. destruct Hd as ([= <-] & e & ? & _). eauto.
Qed.

Lemma add_atom_refines str t w :
  atom_inv casemap t → counts_fit t → wp (add_atom casemap str) t w (refines_step t w (AddAtom str)).
Proof.
  intros Hinv Hfit. unfold add_atom.
  destruct (name_cases str) as [[e He]|[[He Ha]|Hn]].
  { eapply name_error_wp; [done|]. split; [done|]. exists (Some e). split; [done|]. by constructor. }
  { apply name_ok_wp; [done|]. unfold truth. rewrite (proj2 (Z.eqb_neq _ _) Ha). cbn. wp_run.
    split; [done|]. exists None. split; [done|]. by constructor. }
  apply name_ok_wp; [by apply atom_name_error|].
  destruct (atom_name_checks _ Hn) as (_ & _ & ->). wp_run. apply wp_find_atom_entry; [done| |].
  - intros i e He Hf. cbn. wp_run. eapply wp_deref; [done|]. wp_run.
    pose proof (Hfit _ _ He). split; [lia|].
    eapply wp_update; [done|]. wp_run.
    assert (1 ≤ ae_count e ≤ INT_MAX ∧ ae_atom e = i + MIN_STR_ATOM) as [Hc ->].
    { destruct Hinv as [bk []]. destruct (do_entry _ _ _ ai_data0 i (data_of e)) as (? & ? & ? & _); [apply data_lookup; eauto|done]. }
    split; [apply atom_inv_set_count; try done; lia|]. exists None. split; [done|].
    rewrite abs_insert. simpl. rewrite Hf. apply spec_add_known; [done|].
    rewrite (abs_lookup _ _ _ He), Hf. done.
  - intros Hno. pose proof (no_key _ _ Hno) as Hkey. cbn. wp_run. apply wp_mem_alloc.
    + intros w' Hw Hmem. cbn. wp_run. apply wp_add_atom_entry; [done| |].
      * intros Hfull. cbn. wp_run. split; [done|]. exists (Some STATUS_NO_MEMORY). split; [done|]. by constructor.
      * intros i c Hfree Hi Hic Hc. pose proof Hfree as (Hi1 & Hi2 & _). apply abs_lookup_None in Hi2.
        replace (truth (i + MIN_STR_ATOM)) with true by (unfold truth, MIN_STR_ATOM; destruct (Z.eqb_spec (i + 49152) 0); [lia|done]). wp_run.
        replace (i + MIN_STR_ATOM - MIN_STR_ATOM) with i by lia.
        set (next := t_entries t !! hash_strW casemap str HASH_SIZE).
        assert (∀ n, next = Some n → is_Some (t_atoms t !! n)) as Hnext by (intros n; by apply bucket_head).
        set (blank := AtomEntry None None 0 (i + MIN_STR_ATOM) 0 []).
        set (E := AtomEntry next None 1 (i + MIN_STR_ATOM) (hash_strW casemap str HASH_SIZE) str).
        assert (∀ Q : unit → atom_table → world → Prop,
          Q tt (AtomTable c (relink_prev (Some i) next (<[i := blank]> (t_atoms t))) (t_entries t)) w' →
          wp (match next with Some n => update n (set_prev (Some i)) | None => ret tt end)
            (AtomTable c (<[i := blank]> (t_atoms t)) (t_entries t)) w' Q) as Hlink.
        { intros Q HQ. destruct next as [n|]; [|done]. destruct (Hnext n eq_refl) as [en Hen].
          assert (i ≠ n) by congruence.
          eapply wp_update; [simpl; by rewrite lookup_insert_ne|].
          simpl in HQ. rewrite (alter_present _ _ _ en) in HQ by (by rewrite lookup_insert_ne). done. }
        apply Hlink. wp_run. eapply (wp_update i _ blank).
        { simpl. rewrite relink_prev_ne; [by rewrite lookup_insert_eq|]. intros E'. destruct (Hnext i E'). congruence. }
        wp_run. unfold with_atoms, with_bucket. simpl. fold E.
        rewrite link_entry_eq by done.
        assert (refines_step t w (AddAtom str) (i + MIN_STR_ATOM)
          (AtomTable c (<[i := E]> (relink_prev (Some i) next (t_atoms t))) (<[hash_strW casemap str HASH_SIZE := i]> (t_entries t))) w'); [|done].
        split.
        { apply atom_inv_insert; try done; [unfold data; by rewrite lookup_fmap, Hi2|].
          intros j d (f & Hf & <-)%data_lookup. simpl. by eapply Hno. }
        exists None. split; [done|].
        assert (abs (AtomTable c (<[i := E]> (relink_prev (Some i) next (t_atoms t))) (<[hash_strW casemap str HASH_SIZE := i]> (t_entries t)))
                = <[i := (fold str, 1)]> (abs t)) as ->.
        { unfold abs. simpl. unfold data at 1. rewrite !fmap_insert. f_equal. f_equal. by apply data_relink_prev. }
        by constructor.
    + intros w' Hw Hmem. cbn. wp_run. split; [done|]. exists (Some STATUS_NO_MEMORY). split; [done|]. by constructor.
Qed.

Lemma atom_of t i e : atom_inv casemap t → t_atoms t !! i = Some e →
  1 ≤ ae_count e ≤ INT_MAX ∧ ae_atom e = i + MIN_STR_ATOM ∧ 1 ≤ i.
Proof.
  intros [bk []] He. destruct (do_entry _ _ _ ai_data0 i (data_of e)) as (? & ? & ? & _);
    [apply data_lookup; eauto|]. simpl in *. lia.
Qed.

Lemma find_atom_refines str t w :
  atom_inv casemap t → wp (find_atom casemap str) t w (refines_step t w (FindAtom str)).
Proof.
  intros Hinv. unfold find_atom.
  destruct (name_cases str) as [[e He]|[[He Ha]|Hn]].
  { eapply name_error_wp; [done|]. split; [done|]. exists (Some e). split; [done|]. by constructor. }
  { apply name_ok_wp; [done|]. unfold truth. rewrite (proj2 (Z.eqb_neq _ _) Ha). cbn. wp_run.
    split; [done|]. exists None. split; [done|]. by constructor. }
  apply name_ok_wp; [by apply atom_name_error|].
  destruct (atom_name_checks _ Hn) as (_ & _ & ->). wp_run. apply wp_find_atom_entry; [done| |].
  - intros i e He Hf. cbn. wp_run. eapply wp_deref; [done|]. wp_run.
    destruct (atom_of _ _ _ Hinv He) as (_ & -> & _). split; [done|]. exists None. split; [done|].
    eapply spec_find_known; [done|]. by rewrite (abs_lookup _ _ _ He), Hf.
  - intros Hno. cbn. wp_run. split; [done|]. exists (Some STATUS_OBJECT_NAME_NOT_FOUND). split; [done|].
    constructor; [done|]. by apply no_key.
Qed.

Lemma abs_recount t i e n :
  abs (with_atoms <[i := set_count n e]> t) = <[i := (fold (ae_str e), n)]> (abs t).
Proof. by rewrite abs_insert. Qed.

Lemma grab_atom_refines a t w :
  atom_inv casemap t → counts_fit t → wp (grab_atom a) t w (refines_step t w (GrabAtom a)).
Proof.
  intros Hinv Hfit. unfold grab_atom. destruct (Z.leb_spec MIN_STR_ATOM a) as [Ha|Ha]; wp_run.
  - apply (get_atom_entry_spec _ _ _ _ Hinv).
    + intros e He. cbn. wp_run. eapply wp_deref; [done|]. wp_run.
      pose proof (Hfit _ _ He). split; [lia|]. eapply wp_update; [done|]. wp_run.
      destruct (atom_of _ _ _ Hinv He) as (Hc & _ & _).
      split; [apply atom_inv_set_count; try done; lia|]. exists None. split; [done|].
      rewrite abs_recount. replace a with (a - MIN_STR_ATOM + MIN_STR_ATOM) at 1 2 by lia.
      eapply spec_grab_known. by apply abs_lookup.
    + intros Hn. cbn. wp_run. split; [done|]. exists (Some STATUS_INVALID_HANDLE). split; [done|]. by constructor.
  - split; [done|]. exists None. split; [done|]. by constructor.
Qed.

Lemma wp_update_alter p f t w (Q : unit → atom_table → world → Prop) :
  is_Some (t_atoms t !! p) → Q tt (with_atoms (alter f p) t) w → wp (update p f) t w Q.
Proof.
  intros [e He] HQ. eapply wp_update; [done|]. unfold with_atoms in *. by rewrite (alter_present _ _ _ e) in HQ.
Qed.

Lemma links_present t x e p :
  atom_inv casemap t → t_atoms t !! x = Some e → ae_next e = Some p ∨ ae_prev e = Some p → is_Some (t_atoms t !! p).
Proof.
  intros [bk []] He Hp.
  assert (x ∈ bk (ae_hash e)) as Hin by (apply ai_member0; exists (data_of e); rewrite data_lookup; eauto).
  destruct (ai_bucket0 (ae_hash e)) as [last Hd]. pose proof Hd as Hd'.
  apply list_elem_of_split in Hin as (l1 & l2 & Hl). rewrite Hl in Hd, Hd'.
  apply dseg_app in Hd as (q & nx & Hd1 & (-> & e' & He' & Hq & Hd2)). simplify_eq.
  apply (dseg_lookup _ _ _ _ _ _ p Hd'). destruct Hp as [Hp|Hp].
  - rewrite Hp in Hd2. destruct l2; simpl in Hd2; [destruct Hd2; congruence|]. destruct Hd2 as [[= <-] _]. set_solver.
  - apply dseg_last in Hd1. rewrite Hp in Hd1. destruct (list.last l1) as [z|] eqn:E; [|done].
    injection Hd1 as ->. apply last_Some in E as [l' ->]. set_solver.
Qed.

(** The reference count of the entry being unlinked does not matter. *)
Lemma unlink_recount t x e n : unlink x (set_count n e) (with_atoms <[x := set_count n e]> t) = unlink x e t.
Proof.
  unfold unlink, with_atoms. simpl.
  assert (∀ y, x ≠ y → relink_prev (ae_prev e) (ae_next e) (<[x:=set_count n e]> (t_atoms t)) !! y =
    relink_prev (ae_prev e) (ae_next e) (t_atoms t) !! y) as H.
  { intros y Hy. destruct (ae_next e) as [z|]; simpl; [|by rewrite lookup_insert_ne].
    rewrite !lookup_alter. case_decide; subst; by rewrite lookup_insert_ne. }
  destruct (ae_prev e) as [q|]; f_equal; apply map_eq; intros y; rewrite !lookup_delete; case_decide as Hy; try done; [|by apply H].
  rewrite !lookup_alter. case_decide; subst; by rewrite H.
Qed.

(** The last step of [delete_atom]: the three updates unlink the entry. *)
Lemma wp_unlink t w x e (Q : unit → atom_table → world → Prop) :
  t_atoms t !! x = Some e → (∀ p, ae_next e = Some p ∨ ae_prev e = Some p → is_Some (t_atoms t !! p)) →
  Q tt (unlink x e t) w →
  wp ((if ae_next e is Some n then update n (set_prev (ae_prev e)) else ret tt) >>
      (if ae_prev e is Some q then update q (set_next (ae_next e))
       else modify (with_bucket (ae_hash e) (ae_next e))) >>
      modify (with_atoms (delete x))) t w Q.
Proof.
  intros He Hl HQ. rewrite wp_bind. unfold unlink in HQ.
  assert (∀ R : unit → atom_table → world → Prop,
    R tt (with_atoms (relink_prev (ae_prev e) (ae_next e)) t) w →
    wp (if ae_next e is Some n then update n (set_prev (ae_prev e)) else ret tt) t w R) as H1.
  { intros R HR. destruct (ae_next e) as [n|]; [apply wp_update_alter; eauto|]. by destruct t. }
  apply H1. wp_run. destruct (ae_prev e) as [q|]; [|by wp_run].
  apply wp_update_alter; [|by wp_run]. simpl. destruct (Hl q) as [eq Heq]; [by right|].
  destruct (ae_next e) as [n|]; simpl; [|eauto]. rewrite lookup_alter. case_decide; subst; rewrite ?Heq; eauto.
Qed.

Lemma delete_atom_refines a t w :
  atom_inv casemap t → wp (delete_atom a >> ret 0) t w (refines_step t w (DeleteAtom a)).
Proof.
  intros Hinv. unfold delete_atom. wp_run. apply (get_atom_entry_spec _ _ _ _ Hinv).
  - intros e He. set (x := a - MIN_STR_ATOM) in *. cbn. wp_run. eapply wp_deref; [done|]. wp_run.
    eapply wp_update; [done|]. destruct (atom_of _ _ _ Hinv He) as (Hc & _ & _).
    assert (a = x + MIN_STR_ATOM) as Ea by (unfold x; lia). rewrite Ea.
    unfold when. destruct (Z.eqb_spec (ae_count e - 1) 0) as [E|E].
    + set (e0 := set_count (ae_count e - 1) e).
      apply (wp_unlink _ _ x e0 (λ _ t' w', wp (ret 0) t' w' (refines_step t w (DeleteAtom (x + MIN_STR_ATOM))))).
      * simpl. by rewrite lookup_insert_eq.
      * intros p Hp. simpl. rewrite lookup_insert. case_decide; [eauto|]. by eapply links_present.
      * unfold e0. rewrite unlink_recount. wp_run.
        destruct (atom_inv_unlink casemap t x e Hinv He) as (Hinv' & HD & _).
        split; [done|]. exists None. split; [done|].
        assert (abs (unlink x e t) = delete x (abs t)) as -> by (unfold abs; by rewrite HD, fmap_delete).
        eapply (spec_delete_last _ _ x (fold (ae_str e))). rewrite (abs_lookup _ _ _ He). do 2 f_equal. lia.
    + wp_run. split; [apply atom_inv_set_count; try done; lia|]. exists None. split; [done|].
      rewrite abs_recount. eapply spec_delete_more; [by apply abs_lookup|lia].
  - intros Hn. cbn. wp_run. split; [done|]. exists (Some STATUS_INVALID_HANDLE). split; [done|]. by constructor.
Qed.

Lemma release_atom_refines a t w :
  atom_inv casemap t → wp (release_atom a >> ret 0) t w (refines_step t w (ReleaseAtom a)).
Proof.
  intros Hinv. unfold release_atom, when. destruct (Z.leb_spec MIN_STR_ATOM a).
  - eapply wp_mono; [by apply delete_atom_refines|].
    intros r t' w' (? & err & ? & Hs). split; [done|]. exists err. split; [done|].
    assert (r = 0) as -> by (inversion Hs; done). by constructor.
  - wp_run. split; [done|]. exists None. split; [done|]. by constructor.
Qed.
End Spec.

(** ** The two tables of the server and the request handlers *)

Record atom_state := AtomState { global_table : option atom_table; user_table : option atom_table }.
Abbreviation AS := (M atom_state).

Definition set_global (t : atom_table) (s : atom_state) : atom_state := AtomState (Some t) (user_table s).
Definition set_user (t : atom_table) (s : atom_state) : atom_state := AtomState (global_table s) (Some t).

(** Run an operation on one of the tables; the operation dereferences it. *)
Definition on_table {A} (sel : atom_state → option atom_table) (upd : atom_table → atom_state → atom_state)
    (m : T A) : AS A := λ s w,
  match sel s with
  | None => None
  | Some t => match m t w with
              | Some (a, t', w') => Some (a, upd t' s, w')
              | None => None
              end
  end.
(** An operation that starts with [get_atom_entry], which accepts a NULL table. *)
Definition on_entry {A} (sel : atom_state → option atom_table) (upd : atom_table → atom_state → atom_state)
    (null : A) (m : T A) : AS A :=
  let* s := get in
  match sel s with
  | None => set_error STATUS_INVALID_HANDLE >> ret null
  | Some _ => on_table sel upd m
  end.

Definition global_atoms : list string :=
  ["StdExit"; "StdNewDocument"; "StdOpenDocument"; "StdEditDocument"; "StdNewfromTemplate";
   "StdCloseDocument"; "StdShowItem"; "StdDoVerbItem"; "System"; "OLEsystem"; "StdDocumentName";
   "Protocols"; "Topics"; "Formats"; "Status"; "EditEnvItems"; "True"; "False"; "Change"; "Save";
   "Close"; "MSDraw"; "CC32SubclassInfo"]%string.

Definition user_atoms : list string :=
  ["USER32"; "ObjectLink"; "OwnerLink"; "Native"; "Binary"; "FileName"; "FileNameW"; "NetworkName";
   "DataObject"; "Embedded Object"; "Embed Source"; "Custom Link Source"; "Link Source";
   "Object Descriptor"; "Link Source Descriptor"; "OleDraw"; "PBrush"; "MSDraw"; "Ole Private Data";
   "Screen Picture"; "OleClipboardPersistOnFlush"; "MoreOlePrivateData"; "Button"; "Edit"; "Static";
   "ListBox"; "ScrollBar"; "ComboBox"]%string.

Section Handlers.
Variable casemap : Z → Z.

Fixpoint add_atoms (names : list string) : T unit :=
  match names with
  | [] => ret tt
  | n :: names' => add_atom_asciiz casemap (bytes_of n) >> add_atoms names'
  end.

(** The object is made permanent and grabbed by Object.c's functions; here,
    the table is installed and filled. *)
Definition set_global_atom_table (t : atom_table) : AS unit :=
  modify (set_global t) >> on_table global_table set_global (add_atoms global_atoms).
Definition set_user_atom_table (t : atom_table) : AS unit :=
  modify (set_user t) >> on_table user_table set_user (add_atoms user_atoms).

Definition req_add_atom (name : list Z) : AS Z := on_table global_table set_global (add_atom casemap name).
Definition req_delete_atom (atom : Z) : AS unit := on_entry global_table set_global tt (delete_atom atom).
Definition req_find_atom (name : list Z) : AS Z := on_table global_table set_global (find_atom casemap name).
Definition req_get_atom_information (max atom : Z) : AS (Z * Z * (list Z * Z)) :=
  on_entry global_table set_global (-1, 0, ([], 0)) (atom_information max atom).
Definition req_add_user_atom (name : list Z) : AS Z := on_table user_table set_user (add_atom casemap name).
(** The reply has no count: the total and the name. *)
Definition req_get_user_atom_name (max atom : Z) : AS (Z * (list Z * Z)) :=
  let* r := on_entry user_table set_user (-1, 0, ([], 0)) (atom_information max atom) in
  ret (r.1.2, r.2).
End Handlers.

(** ** Main theorems *)

Lemma empty_table_inv casemap : atom_inv casemap (AtomTable 1 ∅ ∅).
Proof.
  assert (data ∅ = ∅) as HD by apply fmap_empty.
  exists (λ _, []). split; cbn [t_atoms t_entries t_count]; rewrite ?HD; [done| | | |].
  - split; intros *; rewrite lookup_empty; done.
  - intros h. exists None. by rewrite lookup_empty.
  - intros h. apply NoDup_nil_2.
  - intros h i. rewrite elem_of_nil. split; [done|]. intros (d & Hd & _). by rewrite lookup_empty in Hd.
Qed.

Lemma empty_table_fits : counts_fit (AtomTable 1 ∅ ∅).
Proof. intros i e H. cbn [t_atoms] in H. by rewrite lookup_empty in H. Qed.

(** C36: every operation of an atom table refines the abstract specification: on
    a well-formed table it completes, keeps the table well formed (the hash
    lists are consistent doubly linked lists indexing exactly the entries), and
    its result, its error code and its effect are those of a finite map from
    atoms to (folded name, reference count). *)
Theorem atom_table_refines casemap op t w :
  atom_inv casemap t → counts_fit t →
  ∃ r t' w' err, exec_atom casemap op t w = Some (r, t', w') ∧ atom_inv casemap t' ∧
    w_error w' = default (w_error w) err ∧
    atom_spec casemap (w_mem w ≠ []) (abs casemap t) op r err (abs casemap t').
Proof.
  intros Hinv Hfit.
  assert (wp (exec_atom casemap op) t w (refines_step casemap t w op)) as
    (r & t' & w' & ? & ? & err & ? & ?)%wp_elim; [|by exists r, t', w', err].
  destruct op; cbn [exec_atom].
  - by apply add_atom_refines.
  - by apply find_atom_refines.
  - by apply delete_atom_refines.
  - by apply grab_atom_refines.
  - by apply release_atom_refines.
Qed.

(** A case map that folds nothing. *)
Definition identity_casemap : Z → Z := λ _, 0.

Lemma atom_table_refines_witness :
  ∃ r t' w' err, exec_atom identity_casemap (AddAtom [65; 66]) (AtomTable 1 ∅ ∅) (World 0 []) = Some (r, t', w') ∧
    atom_inv identity_casemap t' ∧ w_error w' = default 0 err ∧
    atom_spec identity_casemap (w_mem (World 0 []) ≠ []) (abs identity_casemap (AtomTable 1 ∅ ∅)) (AddAtom [65; 66]) r err (abs identity_casemap t').
Proof.
  apply (atom_table_refines identity_casemap (AddAtom [65; 66]) (AtomTable 1 ∅ ∅) (World 0 []));
    [apply empty_table_inv|apply empty_table_fits].
Defined.

Lemma spec_add_result casemap nomem A str r err A' :
  atom_spec casemap nomem A (AddAtom str) r err A' → atom_name str → r ≠ 0 →
  ∃ i n, r = i + MIN_STR_ATOM ∧ A' !! i = Some (fold_case casemap str, n).
Proof.
  intros Hs [_ Ha] Hr. inversion Hs; subst; try done.
  - eexists _, _. split; [done|]. apply lookup_insert_eq.
  - eexists _, _. split; [done|]. apply lookup_insert_eq.
Qed.

Lemma spec_find_result casemap nomem A str r err A' :
  atom_spec casemap nomem A (FindAtom str) r err A' → atom_name str →
  A' = A ∧ ((∃ i n, r = i + MIN_STR_ATOM ∧ err = None ∧ A !! i = Some (fold_case casemap str, n)) ∨
            (∀ i n, A !! i ≠ Some (fold_case casemap str, n))).
Proof.
  intros Hs Hn. inversion Hs; subst; (split; [done|]); [|by destruct Hn|left; eauto|by right].
  by rewrite (atom_name_error _ Hn) in *.
Qed.

(** The folded name identifies the slot. *)
Lemma abs_unique casemap t i j k n m :
  atom_inv casemap t → abs casemap t !! i = Some (k, n) → abs casemap t !! j = Some (k, m) → i = j.
Proof.
  intros [bk []] (e & He & Hk & _)%abs_key (f & Hf & Hk' & _)%abs_key.
  apply (do_unique _ _ _ ai_data0 i j (data_of e) (data_of f)); [apply data_lookup; eauto..|]. simpl. congruence.
Qed.

(** Adding a name and then looking it up, in any letter case, yields the
    same atom; the atom is never 0 and adding the name again returns it too. *)
Theorem add_find_atom casemap str str' t w a t1 w1 :
  atom_inv casemap t → counts_fit t → atom_name str → atom_name str' →
  fold_case casemap str' = fold_case casemap str →
  add_atom casemap str t w = Some (a, t1, w1) → a ≠ 0 →
  ∃ t2 w2, find_atom casemap str' t1 w1 = Some (a, t2, w2) ∧ w_error w2 = w_error w1 ∧
    abs casemap t2 = abs casemap t1.
Proof.
  intros Hinv Hfit Hn Hn' Hfold Hadd Ha.
  pose proof (add_atom_refines casemap str t w Hinv Hfit) as Hr. rewrite (wp_run _ _ _ _ _ _ Hadd) in Hr.
  destruct Hr as (Hinv1 & err & Herr & Hs).
  assert (∃ i n, a = i + MIN_STR_ATOM ∧ abs casemap t1 !! i = Some (fold_case casemap str, n)) as (i & n & -> & Hi).
  { by eapply spec_add_result. }
  pose proof (find_atom_refines casemap str' t1 w1 Hinv1) as (r & t2 & w2 & Hfind & Hinv2 & err2 & Herr2 & Hs2)%wp_elim.
  destruct (spec_find_result _ _ _ _ _ _ _ Hs2 Hn') as [Habs [(j & m & -> & -> & Hj)|Hno]].
  - rewrite Hfold in Hj. rewrite (abs_unique _ _ _ _ _ _ _ Hinv1 Hi Hj). eauto.
  - rewrite Hfold in Hno. by apply Hno in Hi.
Qed.

Lemma add_find_atom_witness :
  ∃ t2 w2, find_atom identity_casemap [65; 66] (AtomTable 2 {[1 := AtomEntry None None 1 0xc001 10 [65; 66]]} {[10 := 1]}) (World 0 [])
    = Some (0xc001, t2, w2) ∧ w_error w2 = 0 ∧
    abs identity_casemap t2 = abs identity_casemap (AtomTable 2 {[1 := AtomEntry None None 1 0xc001 10 [65; 66]]} {[10 := 1]}).
Proof.
  apply (add_find_atom identity_casemap [65; 66] [65; 66] (AtomTable 1 ∅ ∅) (World 0 []));
    [apply empty_table_inv|apply empty_table_fits| | |reflexivity|reflexivity|discriminate].
  - split; [vm_compute; split; [done|discriminate]|done].
  - split; [vm_compute; split; [done|discriminate]|done].
Defined.

Fixpoint exec_atoms (casemap : Z → Z) (ops : list atom_op) : T unit :=
  match ops with
  | [] => ret tt
  | op :: ops' => let* _ := exec_atom casemap op in exec_atoms casemap ops'
  end.

Definition counts_below (b : Z) (A : atom_map) : Prop := ∀ i k n, A !! i = Some (k, n) → n ≤ b.

Lemma spec_counts casemap nomem A op r err A' b :
  0 ≤ b → atom_spec casemap nomem A op r err A' → counts_below b A → counts_below (b + 1) A'.
Proof.
  intros Hb Hs HA. assert (∀ i k n, A !! i = Some (k, n) → n ≤ b + 1) as HA1 by (intros ??? H%HA; lia).
  assert (∀ i k m j l n, m ≤ b + 1 → <[i := (k, m)]> A !! j = Some (l, n) → n ≤ b + 1) as Hins.
  { intros i k m j l n Hm. rewrite lookup_insert. case_decide; [intros; by simplify_eq|apply HA1]. }
  induction Hs; try exact HA1; intros j l m; try (apply Hins; try lia).
  - apply HA in H0. lia.
  - apply HA in H. lia.
  - by apply IHHs.
  - intros [_ ?]%lookup_delete_Some. by eapply HA1.
  - apply HA in H. lia.
Qed.

(** A table created empty survives any sequence of fewer than INT_MAX
    requests: none of them dereferences a bad pointer, overflows a reference
    count or runs out of fuel in a hash list, whatever the allocator does. *)
Theorem atom_requests_safe casemap ops w :
  Z.of_nat (length ops) < INT_MAX →
  ∃ t w', exec_atoms casemap ops (AtomTable 1 ∅ ∅) w = Some (tt, t, w') ∧ atom_inv casemap t.
Proof.
  intros Hlen.
  cut (wp (exec_atoms casemap ops) (AtomTable 1 ∅ ∅) w (λ _ t _, atom_inv casemap t)).
  { intros ([] & t & w' & ? & ?)%wp_elim. eauto. }
  pose proof (empty_table_inv casemap) as Hinv.
  assert (∃ b, 0 ≤ b ∧ b + Z.of_nat (length ops) < INT_MAX ∧ counts_below b (abs casemap (AtomTable 1 ∅ ∅))) as (b & Hb & Hbl & Hc).
  { exists 0. split; [done|]. split; [done|]. intros i k n (e & He & _)%abs_key. cbn [t_atoms] in He. by rewrite lookup_empty in He. }
  clear Hlen. revert w b Hinv Hb Hbl Hc. generalize (AtomTable 1 ∅ ∅) as t.
  induction ops as [|op ops IH]; intros t w b Hinv Hb Hbl Hc; simpl; wp_run; [done|]. simpl in Hbl.
  assert (counts_fit t) as Hfit.
  { intros i e He. pose proof (Hc _ _ _ (abs_lookup casemap _ _ _ He)). lia. }
  destruct (atom_table_refines casemap op t w Hinv Hfit) as (r & t' & w' & err & Hx & Hinv' & _ & Hs).
  rewrite (wp_run _ _ _ _ _ _ Hx). eapply (IH t' w' (b + 1)); [done|lia|lia|]. by eapply spec_counts.
Qed.

Lemma atom_requests_safe_witness :
  ∃ t w', exec_atoms identity_casemap
    [AddAtom [65; 66]; AddAtom [67]; AddAtom [65; 66]; DeleteAtom 0xc001; GrabAtom 0xc002; DeleteAtom 0xc001; FindAtom [67]]
    (AtomTable 1 ∅ ∅) (World 0 [true; false]) = Some (tt, t, w') ∧ atom_inv identity_casemap t.
Proof. apply atom_requests_safe. reflexivity. Defined.
