(* ===== verification/Sync.v ===== *)
(** * Waiting and waking (server/thread.c, event.c, semaphore.c, mutex.c)

    A thread that waits has a stack of waits: the server only looks at the top
    one, the others belong to code that a signal interrupted. A wait holds an
    entry in the queue of every object it names. Signaling an object wakes the
    threads of its queue, and a thread that wakes consumes what it waited for.

    Here an object is its sync object ([get_obj_sync] has been followed), and it
    is an event, a semaphore or a mutex kept by the server. A wait is known by
    its address; a queue entry is the address of its wait with the index of the
    entry in [wait->queues]. The reply pipe of a thread is the list of the
    replies written to it, and is open. *)

From S2P Require Import Prelude.

Inductive select_opcode := SELECT_NONE | SELECT_WAIT | SELECT_WAIT_ALL | SELECT_SIGNAL_AND_WAIT.
#[export] Instance select_opcode_eq_dec : EqDecision select_opcode.
Proof. solve_decision. Defined.

Definition SELECT_ALERTABLE : Z := 1.
Definition SELECT_INTERRUPTIBLE : Z := 2.
Definition MAXIMUM_WAIT_OBJECTS : Z := 64.
Definition TIMEOUT_INFINITE : Z := 0x7fffffffffffffff.

Definition EVENT_MODIFY_STATE : Z := 2.
Definition SEMAPHORE_MODIFY_STATE : Z := 2.
Definition SYNCHRONIZE : Z := 0x100000.

Record event_sync := EventSync { ev_manual : bool; ev_signaled : bool }.
Record semaphore_sync := SemaphoreSync { sem_count : Z; sem_max : Z }.
Record mutex_sync := MutexSync { mtx_owner : option Z; mtx_count : Z; mtx_abandoned : bool }.

Inductive sync :=
  | Event (e : event_sync)
  | Semaphore (m : semaphore_sync)
  | Mutex (m : mutex_sync).

(** An object header with its wait queue. *)
Record object := Object { o_sync : sync; o_queue : list (Z * nat) }.

(** [struct thread_wait]; [count] is the length of [w_objs], [user] tells whether
    a timeout is registered. *)
Record thread_wait := ThreadWait {
  w_thread : Z; w_objs : list Z; w_flags : Z; w_abandoned : bool; w_select : select_opcode;
  w_cookie : Z; w_when : Z; w_user : bool
}.

(** The fields of [struct thread] that waiting uses: the stack of waits, the
    suspend count, whether APCs are pending, the context kept for a suspended
    thread (with: has the client changed it?), the owned mutexes. *)
Record thread := Thread {
  th_wait : list Z; th_suspend : Z; th_bypass : bool; th_process : Z;
  th_system_apc : bool; th_user_apc : bool;
  th_context : option bool; th_suspend_cookie : Z;
  th_mutexes : list Z; th_replies : list (Z * Z)
}.

Record sync_state := SyncState {
  s_objects : gmap Z object; s_waits : gmap Z thread_wait; s_threads : gmap Z thread;
  s_process_suspend : gmap Z Z; s_current_time : Z; s_monotonic_time : Z
}.

Definition on_objects (f : gmap Z object → gmap Z object) (s : sync_state) : sync_state :=
  SyncState (f (s_objects s)) (s_waits s) (s_threads s) (s_process_suspend s) (s_current_time s) (s_monotonic_time s).
Definition on_waits (f : gmap Z thread_wait → gmap Z thread_wait) (s : sync_state) : sync_state :=
  SyncState (s_objects s) (f (s_waits s)) (s_threads s) (s_process_suspend s) (s_current_time s) (s_monotonic_time s).
Definition on_threads (f : gmap Z thread → gmap Z thread) (s : sync_state) : sync_state :=
  SyncState (s_objects s) (s_waits s) (f (s_threads s)) (s_process_suspend s) (s_current_time s) (s_monotonic_time s).

Definition set_sync (x : sync) (o : object) : object := Object x (o_queue o).
Definition set_queue (q : list (Z * nat)) (o : object) : object := Object (o_sync o) q.
Definition set_wait (l : list Z) (t : thread) : thread :=
  Thread l (th_suspend t) (th_bypass t) (th_process t) (th_system_apc t) (th_user_apc t)
         (th_context t) (th_suspend_cookie t) (th_mutexes t) (th_replies t).
Definition set_mutexes (l : list Z) (t : thread) : thread :=
  Thread (th_wait t) (th_suspend t) (th_bypass t) (th_process t) (th_system_apc t) (th_user_apc t)
         (th_context t) (th_suspend_cookie t) l (th_replies t).
Definition set_context (c : option bool) (t : thread) : thread :=
  Thread (th_wait t) (th_suspend t) (th_bypass t) (th_process t) (th_system_apc t) (th_user_apc t)
         c (th_suspend_cookie t) (th_mutexes t) (th_replies t).
Definition add_reply (r : Z * Z) (t : thread) : thread :=
  Thread (th_wait t) (th_suspend t) (th_bypass t) (th_process t) (th_system_apc t) (th_user_apc t)
         (th_context t) (th_suspend_cookie t) (th_mutexes t) (th_replies t ++ [r]).
Definition set_abandoned (w : thread_wait) : thread_wait :=
  ThreadWait (w_thread w) (w_objs w) (w_flags w) true (w_select w) (w_cookie w) (w_when w) (w_user w).
Definition set_cookie (c : Z) (w : thread_wait) : thread_wait :=
  ThreadWait (w_thread w) (w_objs w) (w_flags w) (w_abandoned w) (w_select w) c (w_when w) (w_user w).
Definition set_user (b : bool) (w : thread_wait) : thread_wait :=
  ThreadWait (w_thread w) (w_objs w) (w_flags w) (w_abandoned w) (w_select w) (w_cookie w) (w_when w) b.

Abbreviation Y := (M sync_state).

(** Reading through a pointer. *)
Definition read_at {A} (f : sync_state → gmap Z A) (i : Z) : Y A :=
  let* s := get in match f s !! i with Some a => ret a | None => crash end.
Definition read_obj : Z → Y object := read_at s_objects.
Definition read_wait : Z → Y thread_wait := read_at s_waits.
Definition read_thread : Z → Y thread := read_at s_threads.
Definition put_obj (o : Z) (x : object) : Y unit := modify (on_objects (<[o := x]>)).
Definition put_wait (w : Z) (x : thread_wait) : Y unit := modify (on_waits (<[w := x]>)).
Definition put_thread (t : Z) (x : thread) : Y unit := modify (on_threads (<[t := x]>)).

(** ** The sync objects *)

Definition event_sync_signaled (e : event_sync) : bool := ev_signaled e.
Definition semaphore_sync_signaled (m : semaphore_sync) : bool := 0 <? sem_count m.
Definition mutex_sync_signaled (m : mutex_sync) (t : Z) : bool :=
  (mtx_count m =? 0) || bool_decide (mtx_owner m = Some t).

(** The call through [ops->signaled]. *)
Definition sync_signaled (x : sync) (t : Z) : bool :=
  match x with
  | Event e => event_sync_signaled e
  | Semaphore m => semaphore_sync_signaled m
  | Mutex m => mutex_sync_signaled m t
  end.
Definition object_signaled (s : sync_state) (t o : Z) : bool :=
  match s_objects s !! o with Some x => sync_signaled (o_sync x) t | None => false end.

(** [make_wait_abandoned] on the entry of wait [w]. *)
Definition make_wait_abandoned (w : Z) : Y unit :=
  let* wt := read_wait w in put_wait w (set_abandoned wt).

Definition event_sync_satisfied (o : Z) (e : event_sync) (x : object) : Y unit :=
  if negb (ev_manual e) then put_obj o (set_sync (Event (EventSync (ev_manual e) false)) x) else ret tt.

Definition semaphore_sync_satisfied (o : Z) (m : semaphore_sync) (x : object) : Y unit :=
  c_assert (negb (sem_count m =? 0)) >>
  put_obj o (set_sync (Semaphore (SemaphoreSync (sem_count m - 1) (sem_max m))) x).

(** [list_add_head] puts the mutex first in the list of its owner. *)
Definition do_grab (o t : Z) : Y unit :=
  let* x := read_obj o in
  match o_sync x with
  | Mutex m =>
      c_assert ((mtx_count m =? 0) || bool_decide (mtx_owner m = Some t)) >>
      let count := u32 (mtx_count m + 1) in
      if mtx_count m =? 0 then
        c_assert (bool_decide (mtx_owner m = None)) >>
        let* th := read_thread t in
        put_obj o (set_sync (Mutex (MutexSync (Some t) count (mtx_abandoned m))) x) >>
        put_thread t (set_mutexes (o :: th_mutexes th) th)
      else put_obj o (set_sync (Mutex (MutexSync (mtx_owner m) count (mtx_abandoned m))) x)
  | _ => crash
  end.

Definition clear_abandoned (o : Z) : Y unit :=
  let* x := read_obj o in
  match o_sync x with
  | Mutex m => put_obj o (set_sync (Mutex (MutexSync (mtx_owner m) (mtx_count m) false)) x)
  | _ => crash
  end.
Definition mutex_sync_satisfied (o : Z) (m : mutex_sync) (w t : Z) : Y unit :=
  do_grab o t >>
  when (mtx_abandoned m) (make_wait_abandoned w) >>
  clear_abandoned o.

(** The call through [ops->satisfied], for an entry of the wait [w] of thread [t]. *)
Definition object_sync_satisfied (o w t : Z) : Y unit :=
  let* x := read_obj o in
  match o_sync x with
  | Event e => event_sync_satisfied o e x
  | Semaphore m => semaphore_sync_satisfied o m x
  | Mutex m => mutex_sync_satisfied o m w t
  end.

Definition add_queue (o : Z) (entry : Z * nat) : Y bool :=
  let* x := read_obj o in put_obj o (set_queue (o_queue x ++ [entry]) x) >> ret true.
Definition remove_queue (o : Z) (entry : Z * nat) : Y unit :=
  let* x := read_obj o in put_obj o (set_queue (filter (.≠ entry) (o_queue x)) x).

(** ** Ending a wait *)

Fixpoint satisfied_all (objs : list Z) (w t : Z) : Y unit :=
  match objs with
  | [] => ret tt
  | o :: objs' => object_sync_satisfied o w t >> satisfied_all objs' w t
  end.
Fixpoint remove_entries (objs : list Z) (w : Z) (i : nat) : Y unit :=
  match objs with
  | [] => ret tt
  | o :: objs' => remove_queue o (w, i) >> remove_entries objs' w (S i)
  end.

Definition w_count (wt : thread_wait) : Z := Z.of_nat (length (w_objs wt)).

(** [end_wait]; freeing the wait also removes its timeout. *)
Definition end_wait (t status : Z) : Y Z :=
  let* th := read_thread t in
  match th_wait th with
  | [] => crash
  | w :: next =>
      put_thread t (set_wait next th) >>
      let* wt := read_wait w in
      let* status :=
        (if status <? w_count wt then
           (if bool_decide (w_select wt = SELECT_WAIT_ALL) then satisfied_all (w_objs wt) w t
            else match w_objs wt !! Z.to_nat status with
                 | Some o => object_sync_satisfied o w t
                 | None => crash
                 end) >>
           let* wt := read_wait w in
           ret (if w_abandoned wt then status + STATUS_ABANDONED_WAIT_0 else status)
         else ret status) in
      remove_entries (w_objs wt) w 0 >>
      modify (on_waits (delete w)) >>
      ret status
  end.

(** ** Checking a wait *)

Definition is_thread_suspended (s : sync_state) (th : thread) : bool :=
  if negb (th_suspend th =? 0) then true
  else negb (th_bypass th) && negb (default 0 (s_process_suspend s !! th_process th) =? 0).

Definition expired (s : sync_state) (wt : thread_wait) : bool :=
  (0 <=? w_when wt) && (w_when wt <=? s_current_time s) ||
  (w_when wt <? 0) && (- w_when wt <=? s_monotonic_time s).

Fixpoint first_signaled (sig : Z → bool) (objs : list Z) (i : Z) : option Z :=
  match objs with
  | [] => None
  | o :: objs' => if sig o then Some i else first_signaled sig objs' (i + 1)
  end.

(** [check_wait], as a function of which objects are signaled. *)
Definition check_wait_with (sig : Z → bool) (s : sync_state) (th : thread) (wt : thread_wait) : Z :=
  if has (w_flags wt) SELECT_INTERRUPTIBLE && th_system_apc th then STATUS_KERNEL_APC
  else if is_thread_suspended s th then -1
  else
    match (if bool_decide (w_select wt = SELECT_WAIT_ALL)
           then if forallb sig (w_objs wt) then Some 0 else None
           else first_signaled sig (w_objs wt) 0) with
    | Some i => i
    | None =>
        if has (w_flags wt) SELECT_ALERTABLE && th_user_apc th then STATUS_USER_APC
        else if expired s wt then STATUS_TIMEOUT
        else -1
    end.

Definition check_wait (t : Z) : Y Z :=
  let* s := get in
  let* th := read_thread t in
  match th_wait th with
  | [] => crash
  | w :: _ =>
      let* wt := read_wait w in
      c_assert (forallb (λ o, bool_decide (is_Some (s_objects s !! o))) (w_objs wt)) >>
      ret (check_wait_with (object_signaled s t) s th wt)
  end.

(** ** Waking threads *)

(** [send_thread_wakeup], on an open pipe. *)
Definition send_thread_wakeup (t cookie signaled : Z) : Y unit :=
  let* th := read_thread t in
  match th_context th with
  | Some changed =>
      if (th_suspend_cookie th =? cookie) && negb (signaled =? STATUS_KERNEL_APC) &&
         negb (signaled =? STATUS_USER_APC) then
        if changed then put_thread t (add_reply (cookie, STATUS_KERNEL_APC) th)
        else put_thread t (add_reply (cookie, signaled) (set_context None th))
      else put_thread t (add_reply (cookie, signaled) th)
  | None => put_thread t (add_reply (cookie, signaled) th)
  end.

(** The loop of [wake_thread]: each turn ends a wait, so the depth of the stack
    of waits is enough fuel. *)
Fixpoint wake_loop (n : nat) (t count : Z) : Y Z :=
  let* th := read_thread t in
  match th_wait th, n with
  | [], _ => ret count
  | _ :: _, O => crash
  | w :: _, S n' =>
      let* signaled := check_wait t in
      if signaled =? -1 then ret count else
      let* wt := read_wait w in
      let* signaled := end_wait t signaled in
      when (negb (w_cookie wt =? 0)) (send_thread_wakeup t (w_cookie wt) signaled) >>
      wake_loop n' t (count + 1)
  end.
Definition wake_thread (t : Z) : Y Z :=
  let* th := read_thread t in wake_loop (S (length (th_wait th))) t 0.

(** [wake_up]: the scan of the queue restarts after each successful wake. Each
    restart has ended a wait and the queue never grows, so the number of waits
    times the length of the queue is enough fuel. [max] is an [int]. *)
Fixpoint wake_queue (n : nat) (o : Z) (entries : list (Z * nat)) (max : Z) : Y unit :=
  match n, entries with
  | _, [] => ret tt
  | O, _ :: _ => crash
  | S n', (w, _) :: entries' =>
      let* wt := read_wait w in
      let* r := wake_thread (w_thread wt) in
      if r =? 0 then wake_queue n' o entries' max else
      c_assert (negb (max =? -2147483648)) >>
      if negb (max =? 0) && (max - 1 =? 0) then ret tt else
      let* x := read_obj o in
      wake_queue n' o (o_queue x) (if max =? 0 then 0 else max - 1)
  end.
Definition wake_fuel (s : sync_state) (q : list (Z * nat)) : nat :=
  (S (size (s_waits s)) * S (length q))%nat.
Definition wake_up (o max : Z) : Y unit :=
  let* s := get in
  let* x := read_obj o in
  wake_queue (wake_fuel s (o_queue x)) o (o_queue x) max.

(** ** Signaling *)

Definition event_sync_signal (o : Z) (signal : bool) : Y bool :=
  let* x := read_obj o in
  match o_sync x with
  | Event e =>
      put_obj o (set_sync (Event (EventSync (ev_manual e) signal)) x) >>
      when signal (wake_up o (if ev_manual e then 0 else 1)) >>
      ret true
  | _ => crash
  end.
Definition signal_sync (o : Z) : Y bool := event_sync_signal o true.
Definition reset_sync (o : Z) : Y bool := event_sync_signal o false.
Definition set_event (o : Z) : Y unit := signal_sync o >> ret tt.
Definition reset_event (o : Z) : Y unit := reset_sync o >> ret tt.

(** The sums are computed in [unsigned int]. *)
Definition release_semaphore (o count : Z) : Y bool :=
  let* x := read_obj o in
  match o_sync x with
  | Semaphore m =>
      let sum := u32 (sem_count m + count) in
      if (sum <? sem_count m) || (sem_max m <? sum) then
        set_error STATUS_SEMAPHORE_LIMIT_EXCEEDED >> ret false
      else if negb (sem_count m =? 0) then
        put_obj o (set_sync (Semaphore (SemaphoreSync sum (sem_max m))) x) >> ret true
      else
        put_obj o (set_sync (Semaphore (SemaphoreSync count (sem_max m))) x) >>
        wake_up o (s32 count) >>
        ret true
  | _ => crash
  end.

Definition do_release (o t count : Z) : Y bool :=
  let* x := read_obj o in
  match o_sync x with
  | Mutex m =>
      if (mtx_count m =? 0) || negb (bool_decide (mtx_owner m = Some t)) then
        set_error STATUS_MUTANT_NOT_OWNED >> ret false
      else
        let c := u32 (mtx_count m - count) in
        if c =? 0 then
          let* th := read_thread t in
          put_thread t (set_mutexes (filter (.≠ o) (th_mutexes th)) th) >>
          put_obj o (set_sync (Mutex (MutexSync None c (mtx_abandoned m))) x) >>
          wake_up o 0 >>
          ret true
        else
          put_obj o (set_sync (Mutex (MutexSync (mtx_owner m) c (mtx_abandoned m))) x) >>
          ret true
  | _ => crash
  end.

(** The loop over the mutexes of a thread that dies; it drops one per turn. *)
Fixpoint abandon_loop (n : nat) (t : Z) : Y unit :=
  let* th := read_thread t in
  match th_mutexes th, n with
  | [], _ => ret tt
  | _ :: _, O => crash
  | o :: _, S n' =>
      let* x := read_obj o in
      match o_sync x with
      | Mutex m =>
          c_assert (bool_decide (mtx_owner m = Some t)) >>
          put_obj o (set_sync (Mutex (MutexSync (mtx_owner m) (mtx_count m) true)) x) >>
          do_release o t (mtx_count m) >>
          abandon_loop n' t
      | _ => crash
      end
  end.
Definition abandon_mutexes (t : Z) : Y unit :=
  let* th := read_thread t in abandon_loop (length (th_mutexes th)) t.

Definition event_signal (o access : Z) : Y bool :=
  if has access EVENT_MODIFY_STATE then event_sync_signal o true
  else set_error STATUS_ACCESS_DENIED >> ret false.
Definition semaphore_signal (o access : Z) : Y bool :=
  if has access SEMAPHORE_MODIFY_STATE then release_semaphore o 1
  else set_error STATUS_ACCESS_DENIED >> ret false.
Definition mutex_signal (o access current : Z) : Y bool :=
  if has access SYNCHRONIZE then do_release o current 1
  else set_error STATUS_ACCESS_DENIED >> ret false.

(** The call through [ops->signal] of [signal_object], with the access of the handle. *)
Definition object_signal (o access current : Z) : Y bool :=
  let* x := read_obj o in
  match o_sync x with
  | Event _ => event_signal o access
  | Semaphore _ => semaphore_signal o access
  | Mutex _ => mutex_signal o access current
  end.

(** ** Requests *)

Fixpoint add_entries (objs : list Z) (w : Z) (i : nat) : Y unit :=
  match objs with
  | [] => ret tt
  | o :: objs' => add_queue o (w, i) >> add_entries objs' w (S i)
  end.

Definition wait_on (select : select_opcode) (objs : list Z) (flags wh current : Z) : Y bool :=
  let* ok := mem_alloc in
  if negb ok then ret false else
  let* s := get in
  let* th := read_thread current in
  let w := new_key (s_waits s) in
  put_wait w (ThreadWait current objs flags false select 0 wh false) >>
  put_thread current (set_wait (w :: th_wait th) th) >>
  add_entries objs w 0 >>
  ret true.

(** The handle table of the current process, to be supplied by its component:
    the object and the granted access of a handle, or the error to report. *)
Class HandleLookup := {
  lookup_handle : Z → Z → Z + Z;
  handle_access : Z → Z
}.

Section Select.
Context `{HandleLookup}.

Definition get_handle_obj (handle access : Z) : Y (option Z) :=
  match lookup_handle handle access with
  | inl e => set_error e >> ret None
  | inr o => ret (Some o)
  end.

Fixpoint get_handle_objs (handles : list Z) : Y (option (list Z)) :=
  match handles with
  | [] => ret (Some [])
  | h :: handles' =>
      let* o := get_handle_obj h SYNCHRONIZE in
      match o with
      | None => ret None
      | Some o =>
          let* l := get_handle_objs handles' in
          ret (match l with None => None | Some l => Some (o :: l) end)
      end
  end.

Definition wait_on_handles (select : select_opcode) (handles : list Z) (flags wh current : Z) : Y bool :=
  c_assert (Z.of_nat (length handles) <=? MAXIMUM_WAIT_OBJECTS) >>
  let* objs := get_handle_objs handles in
  match objs with
  | None => ret false
  | Some objs => wait_on select objs flags wh current
  end.

Definition signal_object (handle current : Z) : Y bool :=
  let* o := get_handle_obj handle 0 in
  match o with
  | None => ret false
  | Some o => object_signal o (handle_access handle) current
  end.

(** The end of [select_on]: [true] when the request is complete. *)
Definition select_finish (cookie current : Z) : Y bool :=
  let* r := check_wait current in
  if negb (r =? -1) then
    let* status := end_wait current r in
    set_error status >> ret true
  else
    let* th := read_thread current in
    match th_wait th with
    | [] => crash
    | w :: _ =>
        let* wt := read_wait w in
        let* ok :=
          (if negb (w_when wt =? TIMEOUT_INFINITE) then
             let* mem := mem_alloc in
             if mem then put_wait w (set_user true wt) >> ret true
             else let* e := get_error in end_wait current e >> ret false
           else ret true) in
        if negb ok then ret true else
        let* wt := read_wait w in
        put_wait w (set_cookie cookie wt) >>
        set_error STATUS_PENDING >>
        ret false
    end.

Definition select_on (op : select_opcode) (handles : list Z) (signal cookie flags wh current : Z) : Y bool :=
  match op with
  | SELECT_NONE =>
      let* ok := wait_on op [] flags wh current in
      if negb ok then ret true else select_finish cookie current
  | SELECT_WAIT | SELECT_WAIT_ALL =>
      if MAXIMUM_WAIT_OBJECTS <? Z.of_nat (length handles) then
        set_error STATUS_INVALID_PARAMETER >> ret true
      else
        let* ok := wait_on_handles op handles flags wh current in
        if negb ok then ret true else select_finish cookie current
  | SELECT_SIGNAL_AND_WAIT =>
      let* ok := wait_on_handles op handles flags wh current in
      if negb ok then ret true else
      let* ok :=
        (if negb (signal =? 0) then signal_object signal current else ret true) in
      if negb ok then let* e := get_error in end_wait current e >> ret true else
      let* th := read_thread current in
      match th_wait th with
      | [] => if negb (signal =? 0) then ret true else crash
      | _ :: _ => select_finish cookie current
      end
  end.
End Select.

(** The callback of the timeout of a wait. *)
Definition thread_timeout (w : Z) : Y unit :=
  let* wt := read_wait w in
  let t := w_thread wt in
  put_wait w (set_user false wt) >>
  let* s := get in
  let* th := read_thread t in
  if negb (bool_decide (head (th_wait th) = Some w)) then ret tt else
  if is_thread_suspended s th then ret tt else
  end_wait t STATUS_TIMEOUT >>
  c_assert (negb (w_cookie wt =? 0)) >>
  send_thread_wakeup t (w_cookie wt) STATUS_TIMEOUT >>
  wake_thread t >>
  ret tt.

Inductive event_operation := PULSE_EVENT | SET_EVENT | RESET_EVENT | OTHER_EVENT_OP.

(** The [event_op] request, on the event of its handle; returns the previous state. *)
Definition req_event_op (o : Z) (op : event_operation) : Y bool :=
  let* x := read_obj o in
  match o_sync x with
  | Event e =>
      (match op with
       | PULSE_EVENT => set_event o >> reset_event o
       | SET_EVENT => set_event o
       | RESET_EVENT => reset_event o
       | OTHER_EVENT_OP => set_error STATUS_INVALID_PARAMETER
       end) >>
      ret (ev_signaled e)
  | _ => crash
  end.

Definition resume_thread (t : Z) : Y Z :=
  let* th := read_thread t in
  if 0 <? th_suspend th then
    let th' := Thread (th_wait th) (th_suspend th - 1) (th_bypass th) (th_process th) (th_system_apc th)
                      (th_user_apc th) (th_context th) (th_suspend_cookie th) (th_mutexes th) (th_replies th) in
    put_thread t th' >>
    let* s := get in
    when (negb (is_thread_suspended s th')) (wake_thread t >> ret tt) >>
    ret (th_suspend th)
  else ret (th_suspend th).

(** ** Well-formed states

    What links threads, waits and queues only concerns the following views of
    the state. *)

Definition stacks (s : sync_state) : gmap Z (list Z) := th_wait <$> s_threads s.
(** A wait without what is set while it lasts: its abandoned flag, cookie and timeout. *)
Definition wait_view (wt : thread_wait) : thread_wait :=
  ThreadWait (w_thread wt) (w_objs wt) (w_flags wt) false (w_select wt) 0 (w_when wt) false.
Definition wviews (s : sync_state) : gmap Z thread_wait := wait_view <$> s_waits s.
Definition queues (s : sync_state) : gmap Z (list (Z * nat)) := o_queue <$> s_objects s.
Definition statics (s : sync_state) : gmap Z (Z * bool * Z * bool * bool) :=
  (λ th, (th_suspend th, th_bypass th, th_process th, th_system_apc th, th_user_apc th)) <$> s_threads s.

(** Stacks, waits and queues agree: every wait is once on the stack of its
    thread, and has one entry, at its index, in the queue of each of its objects. *)
Record linked (st : gmap Z (list Z)) (wv : gmap Z thread_wait) (qs : gmap Z (list (Z * nat))) : Prop := {
  lk_stack : ∀ t l, st !! t = Some l → NoDup l ∧ ∀ w, w ∈ l → ∃ wt, wv !! w = Some wt ∧ w_thread wt = t;
  lk_wait : ∀ w wt, wv !! w = Some wt →
    (∃ l, st !! w_thread wt = Some l ∧ w ∈ l) ∧
    (∀ i o, w_objs wt !! i = Some o → ∃ q, qs !! o = Some q ∧ (w, i) ∈ q) ∧
    (w_select wt = SELECT_WAIT_ALL → NoDup (w_objs wt)) ∧
    w_count wt ≤ MAXIMUM_WAIT_OBJECTS;
  lk_queue : ∀ o q, qs !! o = Some q → NoDup q ∧
    ∀ w i, (w, i) ∈ q → ∃ wt, wv !! w = Some wt ∧ w_objs wt !! i = Some o
}.

(** A mutex counts its acquisitions in 32 bits: [extra] of them are by waits that
    are being ended, the others leave room for every thread in the queue. *)
Definition sync_ok (s : sync_state) (extra : Z → Z) (o : Z) (x : object) : Prop :=
  match o_sync x with
  | Event _ => True
  | Semaphore m => 0 ≤ sem_count m ≤ sem_max m ∧ sem_max m ≤ INT_MAX
  | Mutex m =>
      0 ≤ mtx_count m ∧ mtx_count m + Z.of_nat (length (o_queue x)) < 4294967296 + extra o ∧
      match mtx_owner m with
      | None => mtx_count m = 0
      | Some t => 0 < mtx_count m ∧ ∃ th, s_threads s !! t = Some th ∧ o ∈ th_mutexes th
      end
  end.

Definition owned_by (s : sync_state) (t o : Z) : Prop :=
  ∃ x m, s_objects s !! o = Some x ∧ o_sync x = Mutex m ∧ mtx_owner m = Some t.

Record syncs_ok (extra : Z → Z) (s : sync_state) : Prop := {
  sy_object : ∀ o x, s_objects s !! o = Some x → sync_ok s extra o x;
  sy_mutexes : ∀ t th, s_threads s !! t = Some th →
    NoDup (th_mutexes th) ∧ ∀ o, o ∈ th_mutexes th → owned_by s t o
}.

Definition wf (s : sync_state) : Prop :=
  linked (stacks s) (wviews s) (queues s) ∧ syncs_ok (λ _, 0) s.

(** ** Threads that sleep *)

(** The wait of [t] is not satisfied, even if the objects outside [mask] were not
    signaled. *)
Definition blocked (s : sync_state) (mask : Z → bool) (t : Z) : Prop :=
  ∀ th w rest wt, s_threads s !! t = Some th → th_wait th = w :: rest → s_waits s !! w = Some wt →
    check_wait_with (λ o, mask o && object_signaled s t o) s th wt = -1.

Definition all_objects : Z → bool := λ _, true.
Definition except (o : Z) : Z → bool := λ o', negb (o' =? o).

(** No thread sleeps whose wait is satisfied. *)
Definition settled (s : sync_state) : Prop := ∀ t, blocked s all_objects t.

Lemma first_signaled_mono sig sig' objs i :
  (∀ o, o ∈ objs → sig' o = true → sig o = true) → first_signaled sig objs i = None → first_signaled sig' objs i = None.
Proof.
  revert i. induction objs as [|o objs IH]; intros i Hs; [done|]. cbn.
  destruct (sig o) eqn:E; [done|]. destruct (sig' o) eqn:E'.
  - rewrite (Hs o) in E; [done|apply elem_of_cons; auto|done].
  - apply IH. intros o' Ho'. apply Hs, elem_of_cons. auto.
Qed.

Lemma first_signaled_range sig objs i j :
  first_signaled sig objs i = Some j →
  i ≤ j < i + Z.of_nat (length objs) ∧ ∃ o, objs !! Z.to_nat (j - i) = Some o ∧ sig o = true.
Proof.
  revert i. induction objs as [|o objs IH]; intros i; cbn; [done|]. destruct (sig o) eqn:E.
  - intros [= ->]. split; [lia|]. exists o. by rewrite Z.sub_diag.
  - intros (Hr & o' & Ho' & ?)%IH. split; [lia|]. exists o'. split; [|done].
    replace (Z.to_nat (j - i)) with (S (Z.to_nat (j - (i + 1)))) by lia. done.
Qed.

(** The views that [check_wait_with] depends on. *)
Definition same_wait (wt wt' : thread_wait) : Prop := wait_view wt = wait_view wt'.
Definition same_static (th th' : thread) : Prop :=
  th_suspend th = th_suspend th' ∧ th_bypass th = th_bypass th' ∧ th_process th = th_process th' ∧
  th_system_apc th = th_system_apc th' ∧ th_user_apc th = th_user_apc th'.
Definition same_env (s s' : sync_state) : Prop :=
  s_process_suspend s = s_process_suspend s' ∧ s_current_time s = s_current_time s' ∧
  s_monotonic_time s = s_monotonic_time s'.

Lemma check_wait_with_mono sig sig' s s' th th' wt wt' :
  same_env s s' → same_static th th' → same_wait wt wt' →
  (∀ o, o ∈ w_objs wt → sig' o = true → sig o = true) →
  check_wait_with sig s th wt = -1 → check_wait_with sig' s' th' wt' = -1.
Proof.
  intros (E1 & E2 & E3) (F1 & F2 & F3 & F4 & F5) Hw Hs.
  destruct wt, wt'; unfold same_wait, wait_view in Hw; cbn in *; injection Hw as -> -> -> -> ->.
  unfold check_wait_with, is_thread_suspended, expired; cbn [w_flags w_objs w_select w_when].
  rewrite <- E1, <- E2, <- E3, <- F1, <- F2, <- F3, <- F4, <- F5.
  destruct (_ && th_system_apc th); [done|].
  destruct (if negb (th_suspend th =? 0) then true else _); [done|].
  case_bool_decide.
  - destruct (forallb sig w_objs1) eqn:E; [done|].
    destruct (forallb sig' w_objs1) eqn:E'; [|done]. exfalso.
    apply not_true_iff_false in E. apply E. rewrite forallb_forall in E' |- *.
    intros o Ho. apply Hs; [by apply list_elem_of_In|]. auto.
  - destruct (first_signaled sig w_objs1 0) eqn:E.
    + intros ->. apply first_signaled_range in E. lia.
    + by rewrite (first_signaled_mono sig sig').
Qed.

Lemma check_wait_with_ext sig sig' s th wt :
  (∀ o, o ∈ w_objs wt → sig' o = sig o) → check_wait_with sig' s th wt = check_wait_with sig s th wt.
Proof.
  intros H. unfold check_wait_with.
  assert (E1 : forallb sig' (w_objs wt) = forallb sig (w_objs wt)).
  { induction (w_objs wt) as [|o l IH]; [done|]. cbn. rewrite H by (apply elem_of_cons; auto).
    f_equal. apply IH. intros. apply H, elem_of_cons. auto. }
  assert (E2 : ∀ i, first_signaled sig' (w_objs wt) i = first_signaled sig (w_objs wt) i).
  { clear E1. induction (w_objs wt) as [|o l IH]; intros i; [done|]. cbn. rewrite H by (apply elem_of_cons; auto).
    rewrite IH; [done|]. intros. apply H, elem_of_cons. auto. }
  by rewrite E1, E2.
Qed.

(** ** Consumption

    Waking a thread only consumes: an object that is signaled for some thread
    afterwards was signaled for it before. *)

(** How many waits an object that counts can satisfy. *)
Definition sync_tokens (x : sync) : Z :=
  match x with
  | Event e => if ev_manual e then 0 else Z.b2z (ev_signaled e)
  | Semaphore m => sem_count m
  | Mutex _ => 0
  end.
Definition sync_counted (x : sync) : bool :=
  match x with Event e => negb (ev_manual e) | Semaphore _ => true | Mutex _ => false end.
(** What never changes: the kind of an object, and its parameters. *)
Definition sync_shape (x : sync) : sync :=
  match x with
  | Event e => Event (EventSync (ev_manual e) false)
  | Semaphore m => Semaphore (SemaphoreSync 0 (sem_max m))
  | Mutex _ => Mutex (MutexSync None 0 false)
  end.
Definition shape (s : sync_state) (o : Z) : option sync := (λ x, sync_shape (o_sync x)) <$> s_objects s !! o.
Definition tokens (s : sync_state) (o : Z) : Z := from_option (λ x, sync_tokens (o_sync x)) 0 (s_objects s !! o).
Definition counted (s : sync_state) (o : Z) : bool :=
  from_option (λ x, sync_counted (o_sync x)) false (s_objects s !! o).

Definition consumes (s s' : sync_state) : Prop :=
  statics s' = statics s ∧ same_env s s' ∧
  (∀ t o, object_signaled s' t o = true → object_signaled s t o = true) ∧
  (∀ o, tokens s' o ≤ tokens s o) ∧ (∀ o, shape s' o = shape s o).

Lemma shape_counted s o : counted s o = from_option sync_counted false (shape s o).
Proof. unfold counted, shape. destruct (s_objects s !! o) as [[[e|m|m] q]|]; done. Qed.

Lemma consumes_counted s s' o : consumes s s' → counted s' o = counted s o.
Proof. intros (_ & _ & _ & _ & E). by rewrite !shape_counted, E. Qed.

Lemma consumes_refl s : consumes s s.
Proof. by repeat split. Qed.

Lemma consumes_trans s1 s2 s3 : consumes s1 s2 → consumes s2 s3 → consumes s1 s3.
Proof.
  intros (A1 & (B1 & B2 & B3) & C1 & D1 & E1) (A2 & (B4 & B5 & B6) & C2 & D2 & E2).
  split; [congruence|]. split; [split_and!; congruence|]. split; [auto|]. split.
  - intros o. specialize (D1 o). specialize (D2 o). lia.
  - intros o. by rewrite E2, E1.
Qed.

(** The views that a call of [ops->satisfied] leaves alone. *)
Definition same_views (s s' : sync_state) : Prop :=
  stacks s' = stacks s ∧ wviews s' = wviews s ∧ queues s' = queues s.

Lemma same_views_trans s1 s2 s3 : same_views s1 s2 → same_views s2 s3 → same_views s1 s3.
Proof. intros (?&?&?) (?&?&?). split_and!; congruence. Qed.

Lemma fmap_insert_same {A B} (f : A → B) (m : gmap Z A) i a a' :
  m !! i = Some a → f a' = f a → f <$> <[i := a']> m = f <$> m.
Proof. intros Hm Hf. rewrite fmap_insert, Hf. apply insert_id. by rewrite lookup_fmap, Hm. Qed.

Lemma wp_read_at {A} (f : sync_state → gmap Z A) i s w a Q :
  f s !! i = Some a → Q a s w → wp (read_at f i) s w Q.
Proof. intros Hi HQ. unfold read_at. rewrite wp_bind, wp_get, Hi. by rewrite wp_ret. Qed.

(** Replacing the sync object of [o]. *)
Definition with_sync (o : Z) (y : sync) (x : object) (s : sync_state) : sync_state :=
  on_objects (<[o := set_sync y x]>) s.

Lemma with_sync_views o y x s : s_objects s !! o = Some x → same_views s (with_sync o y x s).
Proof.
  intros Ho. split_and!; [done|done|]. unfold queues, with_sync, on_objects; cbn.
  by apply fmap_insert_same with (a := x).
Qed.

Lemma with_sync_signaled o y x s t o' :
  object_signaled (with_sync o y x s) t o' = if o' =? o then sync_signaled y t else object_signaled s t o'.
Proof.
  unfold object_signaled, with_sync, on_objects; cbn [s_objects].
  destruct (Z.eqb_spec o' o) as [->|]; [by rewrite lookup_insert_eq|by rewrite lookup_insert_ne].
Qed.

Lemma with_sync_tokens o y x s o' :
  tokens (with_sync o y x s) o' = if o' =? o then sync_tokens y else tokens s o'.
Proof.
  unfold tokens, with_sync, on_objects; cbn [s_objects].
  destruct (Z.eqb_spec o' o) as [->|]; [by rewrite lookup_insert_eq|by rewrite lookup_insert_ne].
Qed.

Lemma with_sync_counted o y x s o' :
  counted (with_sync o y x s) o' = if o' =? o then sync_counted y else counted s o'.
Proof.
  unfold counted, with_sync, on_objects; cbn [s_objects].
  destruct (Z.eqb_spec o' o) as [->|]; [by rewrite lookup_insert_eq|by rewrite lookup_insert_ne].
Qed.

Lemma with_sync_shape o y x s o' :
  shape (with_sync o y x s) o' = if o' =? o then Some (sync_shape y) else shape s o'.
Proof.
  unfold shape, with_sync, on_objects; cbn [s_objects].
  destruct (Z.eqb_spec o' o) as [->|]; [by rewrite lookup_insert_eq|by rewrite lookup_insert_ne].
Qed.

Lemma at_object s o x : s_objects s !! o = Some x →
  tokens s o = sync_tokens (o_sync x) ∧ counted s o = sync_counted (o_sync x) ∧
  ∀ t, object_signaled s t o = sync_signaled (o_sync x) t.
Proof. unfold tokens, counted, object_signaled. intros ->. done. Qed.

Lemma with_sync_consumes o y x s :
  s_objects s !! o = Some x →
  (∀ t, sync_signaled y t = true → sync_signaled (o_sync x) t = true) →
  sync_tokens y ≤ sync_tokens (o_sync x) → sync_shape y = sync_shape (o_sync x) →
  consumes s (with_sync o y x s).
Proof.
  intros Ho Hs Ht Hc. destruct (at_object s o x Ho) as (Et & Ec & Es).
  split_and!; [done|done|..].
  - intros t o'. rewrite with_sync_signaled. destruct (Z.eqb_spec o' o) as [->|]; [rewrite Es; auto|done].
  - intros o'. rewrite with_sync_tokens. destruct (Z.eqb_spec o' o) as [->|]; lia.
  - intros o'. rewrite with_sync_shape. destruct (Z.eqb_spec o' o) as [->|]; [|done]. unfold shape. rewrite Ho. cbn. by rewrite Hc.
Qed.

(** Replacing a sync object keeps the others correct, when its owner stays the same. *)
Lemma with_sync_ok extra extra' s o x y :
  syncs_ok extra s → s_objects s !! o = Some x → (∀ o', extra o' ≤ extra' o') →
  (match o_sync x, y with
   | Mutex m, Mutex m' => mtx_owner m' = mtx_owner m
   | Mutex _, _ | _, Mutex _ => False
   | _, _ => True
   end) →
  sync_ok (with_sync o y x s) extra' o (set_sync y x) →
  syncs_ok extra' (with_sync o y x s).
Proof.
  intros [H1 H2] Ho He Hy Hok. split.
  - intros o' x'. unfold with_sync, on_objects; cbn [s_objects]. intros [[<- <-]|[Hne Hx]]%lookup_insert_Some; [done|].
    specialize (H1 o' x' Hx). specialize (He o'). unfold sync_ok in *. destruct (o_sync x'); [done|done|].
    destruct H1 as (? & ? & ?). split_and!; [done|lia|done].
  - intros t th Ht. destruct (H2 t th Ht) as [? Hm]. split; [done|]. intros o' (x' & m & Hx & Em & Hw)%Hm.
    unfold owned_by, with_sync, on_objects; cbn [s_objects].
    destruct (decide (o' = o)) as [->|]; [|exists x', m; by rewrite lookup_insert_ne].
    rewrite lookup_insert_eq. assert (x' = x) as -> by congruence. rewrite Em in Hy.
    destruct y as [|?|m']; [done..|]. exists (set_sync (Mutex m') x), m'. split_and!; [done|done|congruence].
Qed.

Definition bump (o : Z) (extra : Z → Z) : Z → Z := λ o', extra o' + Z.b2z (o' =? o).

(** What one call of [ops->satisfied] does. *)
Definition others (t : Z) (s s' : sync_state) : Prop :=
  ∀ t', t' ≠ t → s_threads s' !! t' = s_threads s !! t'.

Definition satisfied_post (t o : Z) (extra : Z → Z) (s s' : sync_state) : Prop :=
  syncs_ok (bump o extra) s' ∧ same_views s s' ∧ consumes s s' ∧
  (∀ o', o' ≠ o → s_objects s' !! o' = s_objects s !! o') ∧
  (counted s o = true → tokens s' o < tokens s o) ∧ others t s s'.

Lemma bump_le o extra o' : extra o' ≤ bump o extra o'.
Proof. unfold bump. destruct (o' =? o); cbn; lia. Qed.

Lemma event_satisfied o w t e x extra s wd :
  syncs_ok extra s → s_objects s !! o = Some x → o_sync x = Event e → ev_signaled e = true →
  wp (object_sync_satisfied o w t) s wd (λ _ s' wd', wd' = wd ∧ satisfied_post t o extra s s').
Proof.
  intros Hok Ho Ex Hs. unfold object_sync_satisfied. rewrite wp_bind. eapply wp_read_at; [done|].
  rewrite Ex. unfold event_sync_satisfied. destruct (ev_manual e) eqn:Em; cbn [negb].
  - rewrite wp_ret. split; [done|]. split_and!; [|done|apply consumes_refl|done| |done].
    + eapply (with_sync_ok _ (bump o extra) s o x (o_sync x)) in Hok; [|done|apply bump_le|..].
      * destruct s; unfold with_sync, on_objects in Hok; cbn in *. rewrite insert_id in Hok; [done|].
        rewrite Ho. by destruct x.
      * by rewrite Ex.
      * unfold sync_ok. cbn. by rewrite Ex.
    + destruct (at_object s o x Ho) as (_ & -> & _). rewrite Ex. cbn. by rewrite Em.
  - unfold put_obj. rewrite wp_modify. split; [done|]. fold (with_sync o (Event (EventSync false false)) x s).
    split_and!.
    + eapply with_sync_ok; [done|done|apply bump_le|by rewrite Ex|done].
    + by apply with_sync_views.
    + apply with_sync_consumes; [done|done|rewrite Ex; cbn; rewrite Em, Hs; cbn; lia|rewrite Ex; cbn; by rewrite Em].
    + intros o' Hne. by apply lookup_insert_ne.
    + intros _. rewrite with_sync_tokens, Z.eqb_refl. destruct (at_object s o x Ho) as (-> & _ & _).
      rewrite Ex. cbn. rewrite Em, Hs. cbn. lia.
    + done.
Qed.

Lemma semaphore_satisfied o w t m x extra s wd :
  syncs_ok extra s → s_objects s !! o = Some x → o_sync x = Semaphore m → 0 < sem_count m →
  wp (object_sync_satisfied o w t) s wd (λ _ s' wd', wd' = wd ∧ satisfied_post t o extra s s').
Proof.
  intros Hok Ho Ex Hs. unfold object_sync_satisfied. rewrite wp_bind. eapply wp_read_at; [done|].
  rewrite Ex. unfold semaphore_sync_satisfied, put_obj. rewrite wp_bind, wp_assert. split; [lia|].
  rewrite wp_modify. split; [done|]. fold (with_sync o (Semaphore (SemaphoreSync (sem_count m - 1) (sem_max m))) x s).
  split_and!.
  - eapply with_sync_ok; [done|done|apply bump_le|by rewrite Ex|].
    pose proof (sy_object _ _ Hok o x Ho) as H. unfold sync_ok in *. rewrite Ex in H. cbn. lia.
  - by apply with_sync_views.
  - apply with_sync_consumes; [done| |rewrite Ex; cbn; lia|by rewrite Ex].
    intros t'. rewrite Ex. cbn. unfold semaphore_sync_signaled. cbn. lia.
  - intros o' Hne. by apply lookup_insert_ne.
  - intros _. rewrite with_sync_tokens, Z.eqb_refl. destruct (at_object s o x Ho) as (-> & _ & _).
    rewrite Ex. cbn. lia.
  - done.
Qed.

(** Setting the abandoned flag of a wait. *)
Lemma put_wait_same_views s w wt wt' :
  s_waits s !! w = Some wt → wait_view wt' = wait_view wt → same_views s (on_waits (<[w := wt']>) s).
Proof. intros Hw E. split_and!; [done| |done]. unfold wviews, on_waits; cbn. by apply fmap_insert_same with (a := wt). Qed.

Lemma make_wait_abandoned_ok b w s wd wt Q :
  s_waits s !! w = Some wt →
  (∀ s', same_views s s' → s_objects s' = s_objects s → s_threads s' = s_threads s → same_env s s' → Q tt s' wd) →
  wp (when b (make_wait_abandoned w)) s wd Q.
Proof.
  intros Hw HQ. destruct b; cbn [when].
  - unfold make_wait_abandoned, put_wait. rewrite wp_bind. eapply wp_read_at; [done|]. rewrite wp_modify.
    apply HQ; [|done..]. by eapply put_wait_same_views.
  - rewrite wp_ret. by apply HQ.
Qed.

(** The states after a mutex is acquired by [t], for the first time or again. *)
Definition reacquired (o t : Z) (m : mutex_sync) (x : object) (s : sync_state) : sync_state :=
  with_sync o (Mutex (MutexSync (Some t) (mtx_count m + 1) false)) x s.
Definition acquired (o t : Z) (m : mutex_sync) (x : object) (th : thread) (s : sync_state) : sync_state :=
  on_threads (<[t := set_mutexes (o :: th_mutexes th) th]>) (reacquired o t m x s).

Lemma reacquired_consumes o t m x s :
  s_objects s !! o = Some x → o_sync x = Mutex m → mutex_sync_signaled m t = true →
  0 ≤ mtx_count m → consumes s (reacquired o t m x s).
Proof.
  intros Ho Ex Hs Hc. apply with_sync_consumes; [done| |rewrite Ex; cbn; lia|by rewrite Ex].
  intros t'. rewrite Ex. cbn. unfold mutex_sync_signaled. cbn.
  intros [?|E%bool_decide_eq_true]%orb_true_iff; [lia|]. by injection E as <-.
Qed.

Lemma bump_self o extra : bump o extra o = extra o + 1.
Proof. unfold bump. by rewrite Z.eqb_refl. Qed.

Lemma reacquired_ok o t m x th extra s :
  syncs_ok extra s → s_objects s !! o = Some x → o_sync x = Mutex m → mtx_owner m = Some t →
  s_threads s !! t = Some th → satisfied_post t o extra s (reacquired o t m x s).
Proof.
  intros Hok Ho Ex Hown Ht. pose proof (sy_object _ _ Hok o x Ho) as Hm. unfold sync_ok in Hm.
  rewrite Ex, Hown in Hm. destruct Hm as (Hc & Hlen & Hpos & th' & Hth' & Hin).
  assert (Hs : mutex_sync_signaled m t = true).
  { unfold mutex_sync_signaled. rewrite Hown, bool_decide_eq_true_2 by done. apply orb_true_r. }
  split_and!.
  - eapply with_sync_ok; [done|done|apply bump_le|by rewrite Ex|].
    unfold sync_ok. cbn. rewrite bump_self. split_and!; [lia..|]. by exists th'.
  - by apply with_sync_views.
  - by apply reacquired_consumes.
  - intros o' Hne. by apply lookup_insert_ne.
  - destruct (at_object s o x Ho) as (_ & -> & _). by rewrite Ex.
  - done.
Qed.

Lemma acquired_ok o t m x th extra s :
  syncs_ok extra s → s_objects s !! o = Some x → o_sync x = Mutex m → mtx_count m = 0 →
  s_threads s !! t = Some th → mtx_owner m = None ∧ satisfied_post t o extra s (acquired o t m x th s).
Proof.
  intros Hok Ho Ex Hc0 Ht. pose proof (sy_object _ _ Hok o x Ho) as Hm. unfold sync_ok in Hm. rewrite Ex in Hm.
  destruct Hm as (Hc & Hlen & Hown).
  assert (Hnone : mtx_owner m = None) by (destruct (mtx_owner m); [lia|done]). split; [done|].
  assert (Hcons : consumes s (reacquired o t m x s)).
  { apply reacquired_consumes; [done|done| |done]. unfold mutex_sync_signaled. by rewrite Hc0. }
  assert (Hnin : ∀ t' th', s_threads s !! t' = Some th' → o ∉ th_mutexes th').
  { intros t' th' Ht' Hin. destruct (sy_mutexes _ _ Hok t' th' Ht') as [_ H].
    destruct (H o Hin) as (x' & m' & Hx' & Em' & Ho'). congruence. }
  split_and!.
  - split.
    + intros o' x'. cbn. intros [[<- <-]|[Hne Hx]]%lookup_insert_Some.
      * unfold sync_ok. cbn. rewrite bump_self. split_and!; [lia..|].
        exists (set_mutexes (o :: th_mutexes th) th). rewrite lookup_insert_eq. split; [done|]. apply elem_of_cons; auto.
      * pose proof (sy_object _ _ Hok o' x' Hx) as H. pose proof (bump_le o extra o'). unfold sync_ok in *.
        destruct (o_sync x') as [|?|m']; [done|done|]. destruct H as (? & ? & H). split_and!; [done|lia|].
        destruct (mtx_owner m') as [t'|]; [|done]. destruct H as [? (th' & Ht' & Hin)]. split; [done|]. cbn.
        destruct (decide (t' = t)) as [->|]; [|exists th'; by rewrite lookup_insert_ne].
        exists (set_mutexes (o :: th_mutexes th) th). rewrite lookup_insert_eq. split; [done|].
        apply elem_of_cons. right. congruence.
    + intros t' th'. cbn. intros [[<- <-]|[Hne Ht']]%lookup_insert_Some.
      * destruct (sy_mutexes _ _ Hok t th Ht) as [Hnd Hm]. cbn. split; [constructor; eauto|].
        intros o' [->|Hin]%elem_of_cons.
        -- eexists _, _. cbn. rewrite lookup_insert_eq. by split_and!.
        -- destruct (Hm o' Hin) as (x' & m' & Hx' & ? & ?). exists x', m'. cbn.
           rewrite lookup_insert_ne; [done|]. intros <-. by destruct (Hnin t th Ht).
      * destruct (sy_mutexes _ _ Hok t' th' Ht') as [Hnd Hm]. split; [done|]. intros o' Hin.
        destruct (Hm o' Hin) as (x' & m' & Hx' & ? & ?). exists x', m'. cbn.
        rewrite lookup_insert_ne; [done|]. intros <-. by destruct (Hnin t' th' Ht').
  - destruct (with_sync_views o (Mutex (MutexSync (Some t) (mtx_count m + 1) false)) x s Ho) as (? & ? & ?).
    split_and!; [|done|done]. unfold stacks, acquired, on_threads; cbn. by apply fmap_insert_same with (a := th).
  - destruct Hcons as (? & ? & ? & ? & ?). split_and!; try done.
    unfold statics, acquired, on_threads; cbn. by apply fmap_insert_same with (a := th).
  - intros o' Hne. cbn. by apply lookup_insert_ne.
  - destruct (at_object s o x Ho) as (_ & -> & _). by rewrite Ex.
  - intros t' Hne. cbn. by apply lookup_insert_ne.
Qed.

(** [satisfied_post] does not see the abandoned flags of the waits. *)
Lemma satisfied_post_ext t o extra s s1 s2 :
  satisfied_post t o extra s s1 → s_objects s2 = s_objects s1 → s_threads s2 = s_threads s1 →
  wviews s2 = wviews s1 → same_env s1 s2 → satisfied_post t o extra s s2.
Proof.
  intros ([K1 K2] & (V1 & V2 & V3) & (C1 & (C2 & C3 & C4) & C5 & C6 & C7) & Hne & Ht & Hoth) Eo Eth Ew (E1 & E2 & E3).
  split_and!.
  - split; unfold sync_ok, owned_by in *; rewrite ?Eo, ?Eth; done.
  - split_and!; [unfold stacks; by rewrite Eth|congruence|unfold queues; by rewrite Eo].
  - split_and!; [unfold statics; by rewrite Eth|split_and!; congruence|..];
      unfold object_signaled, tokens, shape in *; by rewrite Eo.
  - by rewrite Eo.
  - unfold tokens in *. by rewrite Eo.
  - unfold others. by rewrite Eth.
Qed.

Lemma mutex_satisfied o w t m x th wt extra s wd :
  syncs_ok extra s → s_objects s !! o = Some x → o_sync x = Mutex m → mutex_sync_signaled m t = true →
  mtx_count m + 1 < 4294967296 → s_threads s !! t = Some th → s_waits s !! w = Some wt →
  wp (object_sync_satisfied o w t) s wd (λ _ s' wd', wd' = wd ∧ satisfied_post t o extra s s').
Proof.
  intros Hok Ho Ex Hs Hroom Ht Hw. pose proof (sy_object _ _ Hok o x Ho) as Hm. unfold sync_ok in Hm.
  rewrite Ex in Hm. destruct Hm as (Hc & _ & Hown).
  assert (Hrest : ∀ s1 x1 m1, s_objects s1 !! o = Some x1 → o_sync x1 = Mutex m1 → s_waits s1 = s_waits s →
    satisfied_post t o extra s (with_sync o (Mutex (MutexSync (mtx_owner m1) (mtx_count m1) false)) x1 s1) →
    wp (when (mtx_abandoned m) (make_wait_abandoned w) >> clear_abandoned o) s1 wd
       (λ _ s' wd', wd' = wd ∧ satisfied_post t o extra s s')).
  { intros s1 x1 m1 Ho1 Ex1 Hw1 Hpost. rewrite wp_bind. eapply make_wait_abandoned_ok; [by rewrite Hw1|].
    intros s2 (V1 & V2 & V3) Eo Eth Eenv. unfold clear_abandoned. rewrite wp_bind.
    eapply wp_read_at; [by rewrite Eo|]. rewrite Ex1. unfold put_obj. rewrite wp_modify. split; [done|].
    eapply satisfied_post_ext; [done| | | |done]; unfold with_sync, on_objects; cbn; [by rewrite Eo|done|done]. }
  unfold object_sync_satisfied. rewrite wp_bind. eapply wp_read_at; [done|]. rewrite Ex.
  unfold mutex_sync_satisfied, do_grab. rewrite wp_bind, wp_bind. eapply wp_read_at; [done|]. rewrite Ex.
  rewrite wp_bind, wp_assert. split; [done|]. rewrite u32_small by lia.
  unfold mutex_sync_signaled in Hs. destruct (Z.eqb_spec (mtx_count m) 0) as [E0|E0].
  - destruct (acquired_ok o t m x th extra s Hok Ho Ex E0 Ht) as [Hnone Hpost].
    rewrite wp_bind, wp_assert. split; [by apply bool_decide_eq_true|]. rewrite wp_bind.
    eapply wp_read_at; [done|]. unfold put_obj, put_thread. rewrite wp_bind, wp_modify, wp_modify.
    eapply Hrest; [cbn; apply lookup_insert_eq|done|done|].
    eapply satisfied_post_ext; [exact Hpost|cbn; by rewrite insert_insert_eq|done|done|done].
  - cbn in Hs. apply bool_decide_eq_true in Hs.
    pose proof (reacquired_ok o t m x th extra s Hok Ho Ex Hs Ht) as Hpost.
    unfold put_obj. rewrite wp_modify. eapply Hrest; [cbn; apply lookup_insert_eq|done|done|]. cbn.
    eapply satisfied_post_ext; [exact Hpost|cbn; rewrite insert_insert_eq; by rewrite Hs|done|done|done].
Qed.

(** The room a waiter needs in the count of a mutex. *)
Definition has_room (s : sync_state) (o : Z) : Prop :=
  ∀ x m, s_objects s !! o = Some x → o_sync x = Mutex m → mtx_count m + 1 < 4294967296.

Lemma object_sync_satisfied_ok o w t x th wt extra s wd :
  syncs_ok extra s → s_objects s !! o = Some x → sync_signaled (o_sync x) t = true → has_room s o →
  s_threads s !! t = Some th → s_waits s !! w = Some wt →
  wp (object_sync_satisfied o w t) s wd (λ _ s' wd', wd' = wd ∧ satisfied_post t o extra s s').
Proof.
  intros Hok Ho Hs Hroom Ht Hw. destruct (o_sync x) as [e|m|m] eqn:Ex.
  - by eapply event_satisfied.
  - eapply semaphore_satisfied; [done..|]. cbn in Hs. unfold semaphore_sync_signaled in Hs. lia.
  - eapply mutex_satisfied; eauto.
Qed.

Definition bump_all (objs : list Z) (extra : Z → Z) : Z → Z :=
  λ o, extra o + Z.of_nat (length (filter (.= o) objs)).

Lemma lookup_same_dom {A B} (f : A → B) (m m' : gmap Z A) i a :
  f <$> m' = f <$> m → m !! i = Some a → ∃ a', m' !! i = Some a' ∧ f a' = f a.
Proof.
  intros E Hi. assert (H : (f <$> m') !! i = Some (f a)) by (by rewrite E, lookup_fmap, Hi).
  rewrite lookup_fmap in H. destruct (m' !! i) as [a'|] eqn:E'; [|done]. exists a'. split; [done|]. cbn in H. congruence.
Qed.

(** Consuming all the objects of a wait. *)
Lemma satisfied_all_ok objs w t extra s wd :
  syncs_ok extra s → NoDup objs →
  (∀ o, o ∈ objs → ∃ x, s_objects s !! o = Some x ∧ sync_signaled (o_sync x) t = true ∧ has_room s o) →
  is_Some (s_threads s !! t) → is_Some (s_waits s !! w) →
  wp (satisfied_all objs w t) s wd (λ _ s' wd', wd' = wd ∧ syncs_ok (bump_all objs extra) s' ∧
    same_views s s' ∧ consumes s s' ∧ (∀ o, o ∈ objs → counted s o = true → tokens s' o < tokens s o) ∧
    others t s s').
Proof.
  revert extra s. induction objs as [|o objs IH]; intros extra s Hok Hnd Hall Ht Hw.
  { cbn. rewrite wp_ret. split_and!; try done; [|set_solver]. destruct Hok as [K1 K2]. split; [|done].
    intros o x Hx. specialize (K1 o x Hx). unfold sync_ok, bump_all in *. cbn. by rewrite Z.add_0_r. }
  apply NoDup_cons in Hnd as [Hnin Hnd]. cbn [satisfied_all]. rewrite wp_bind.
  destruct (Hall o ltac:(apply elem_of_cons; auto)) as (x & Ho & Hs & Hroom).
  destruct Ht as [th Ht], Hw as [wt Hw].
  eapply wp_mono; [by eapply object_sync_satisfied_ok|].
  intros _ s1 wd1 (-> & Hok1 & V1 & C1 & Hne & Htok & Hot). pose proof V1 as (Vs & Vw & Vq).
  eapply wp_mono; [apply (IH (bump o extra) s1); [done|done|..]|].
  - intros o' Ho'. destruct (Hall o') as (x' & Hx' & Hs' & Hr'); [apply elem_of_cons; auto|].
    assert (o' ≠ o) by congruence. exists x'. unfold has_room. by rewrite Hne.
  - destruct (lookup_same_dom th_wait (s_threads s) (s_threads s1) t th Vs Ht) as (th' & -> & _). by exists th'.
  - destruct (lookup_same_dom wait_view (s_waits s) (s_waits s1) w wt Vw Hw) as (wt' & -> & _). by exists wt'.
  - intros _ s2 wd2 (-> & Hok2 & V2 & C2 & Htok2 & Hot2).
    split_and!; [done| |by eapply same_views_trans|by eapply consumes_trans| |].
    + assert (E : ∀ o', bump_all objs (bump o extra) o' = bump_all (o :: objs) extra o').
      { intros o'. unfold bump_all, bump. rewrite filter_cons. destruct (Z.eqb_spec o' o) as [->|].
        - rewrite decide_True by done. cbn [length Z.b2z]. lia.
        - rewrite decide_False by done. cbn [Z.b2z]. lia. }
      destruct Hok2 as [K1 K2]. split; [|done]. intros o' x' Hx'. specialize (K1 o' x' Hx').
      unfold sync_ok in *. by rewrite <- E.
    + intros o' [->|Ho']%elem_of_cons Hc.
      * destruct C2 as (_ & _ & _ & Hle & _). specialize (Hle o). specialize (Htok Hc). lia.
      * rewrite <- (consumes_counted _ _ _ C1) in Hc. destruct C1 as (_ & _ & _ & Hle & _). specialize (Hle o'). specialize (Htok2 o' Ho' Hc). lia.
    + intros t' Hne'. by rewrite Hot2, Hot.
Qed.

(** Is [e] one of the entries of wait [w] for the objects [objs], numbered from [i], at [o]? *)
Definition mine (w : Z) (i : nat) (objs : list Z) (o : Z) (e : Z * nat) : bool :=
  (e.1 =? w) && (i <=? e.2)%nat && bool_decide (objs !! (e.2 - i)%nat = Some o).

Lemma mine_step w i o objs o' e :
  (mine w (S i) objs o' e = false ∧ (o' = o → e ≠ (w, i))) ↔ mine w i (o :: objs) o' e = false.
Proof.
  unfold mine. destruct e as [w' j]; cbn [fst snd]. destruct (Z.eqb_spec w' w) as [->|]; cbn [andb]; [|naive_solver].
  destruct (Nat.leb_spec (S i) j), (Nat.leb_spec i j); cbn [andb]; try lia.
  - replace (j - i)%nat with (S (j - S i)) by lia. cbn [lookup list_lookup].
    split; [by intros []|]. intros E. split; [done|]. intros _ [= ->]. lia.
  - assert (j = i) as -> by lia. rewrite Nat.sub_diag. cbn.
    rewrite bool_decide_eq_false. split; [intros [_ Hn] [= ->]; by apply Hn|].
    intros Hn. split; [done|]. intros ->. done.
  - split; [done|]. intros _. split; [done|]. intros _ [= ->]. lia.
Qed.

Lemma remove_entries_ok objs w i s wd :
  (∀ o, o ∈ objs → is_Some (s_objects s !! o)) →
  wp (remove_entries objs w i) s wd (λ _ s' wd', wd' = wd ∧
    s_objects s' = map_imap (λ o x, Some (set_queue (filter (λ e, mine w i objs o e = false) (o_queue x)) x)) (s_objects s) ∧
    s_threads s' = s_threads s ∧ s_waits s' = s_waits s ∧ same_env s s').
Proof.
  revert i s. induction objs as [|o objs IH]; intros i s Hall.
  { cbn. rewrite wp_ret. split_and!; try done. apply map_eq. intros o. rewrite map_lookup_imap.
    destruct (s_objects s !! o) as [x|]; [|done]. cbn. f_equal. destruct x as [y q]; cbn. unfold set_queue; cbn. f_equal.
    symmetry. apply filter_all. intros. unfold mine. by rewrite andb_false_r. }
  cbn [remove_entries]. rewrite wp_bind. unfold remove_queue. rewrite wp_bind.
  destruct (Hall o ltac:(apply elem_of_cons; auto)) as [x Ho]. eapply wp_read_at; [done|].
  unfold put_obj. rewrite wp_modify. eapply wp_mono; [apply IH|].
  { intros o' Ho'. cbn. rewrite lookup_insert. case_decide; [done|]. apply Hall, elem_of_cons. auto. }
  intros _ s' wd' (-> & Eo & Et & Ew & Ee). split_and!; [done| |done..]. rewrite Eo. clear Eo. cbn.
  apply map_eq. intros o'. rewrite !map_lookup_imap. rewrite lookup_insert. case_decide as Heq.
  - subst o'. rewrite Ho. cbn. f_equal. unfold set_queue; cbn. f_equal. rewrite list_filter_filter.
    apply list_filter_iff. intros e. rewrite <- mine_step. naive_solver.
  - destruct (s_objects s !! o') as [x'|]; [|done]. cbn. f_equal. unfold set_queue; cbn. f_equal.
    apply list_filter_iff. intros e. rewrite <- mine_step. naive_solver.
Qed.

(** The objects that ending a wait with [status] consumes. *)
Definition sat_objects (wt : thread_wait) (status : Z) : list Z :=
  if status <? w_count wt then
    if bool_decide (w_select wt = SELECT_WAIT_ALL) then w_objs wt
    else match w_objs wt !! Z.to_nat status with Some o => [o] | None => [] end
  else [].

Lemma sat_objects_sub wt status o : o ∈ sat_objects wt status → o ∈ w_objs wt.
Proof.
  unfold sat_objects. destruct (_ <? _); [|set_solver]. case_bool_decide; [done|].
  destruct (_ !! _) eqn:E; [|set_solver]. intros ->%list_elem_of_singleton. by eapply list_elem_of_lookup_2.
Qed.

Lemma wf_room s w wt o :
  wf s → s_waits s !! w = Some wt → o ∈ w_objs wt →
  ∃ x i, s_objects s !! o = Some x ∧ (w, i) ∈ o_queue x ∧ has_room s o.
Proof.
  intros [Hl Hs] Hw (i & Hi)%list_elem_of_lookup.
  assert (Hwv : wviews s !! w = Some (wait_view wt)) by (unfold wviews; by rewrite lookup_fmap, Hw).
  destruct (lk_wait _ _ _ Hl w _ Hwv) as (_ & Hq & _). destruct (Hq i o Hi) as (q & Eq & Hin).
  unfold queues in Eq. rewrite lookup_fmap in Eq. destruct (s_objects s !! o) as [x|] eqn:Ho; [|done].
  injection Eq as <-. exists x, i. split_and!; [done|done|]. intros x' m Hx Ex.
  assert (x' = x) as -> by congruence. pose proof (sy_object _ _ Hs o x Ho) as H. unfold sync_ok in H. rewrite Ex in H.
  destruct (o_queue x); [set_solver|]. cbn in H. lia.
Qed.

Lemma linked_end st wv qs t w rest wt :
  linked st wv qs → st !! t = Some (w :: rest) → wv !! w = Some wt →
  linked (<[t := rest]> st) (delete w wv) (filter (λ e, e.1 ≠ w) <$> qs).
Proof.
  intros [L1 L2 L3] Ht Hw. destruct (L1 t _ Ht) as [Hnd Hin]. apply NoDup_cons in Hnd as [Hnin Hnd].
  destruct (Hin w ltac:(apply elem_of_cons; auto)) as (wt' & Hw' & Ewt). simplify_eq.
  split.
  - intros t' l [[<- <-]|[Hne Hl]]%lookup_insert_Some.
    + split; [done|]. intros w' Hw'. destruct (Hin w' ltac:(apply elem_of_cons; auto)) as (wt2 & ? & ?).
      exists wt2. rewrite lookup_delete_ne by (intros ->; done). done.
    + destruct (L1 t' l Hl) as [? Hin']. split; [done|]. intros w' Hw'.
      destruct (Hin' w' Hw') as (wt2 & Hwt2 & E2). exists wt2. split; [|done].
      rewrite lookup_delete_ne; [done|]. intros ->. congruence.
  - intros w' wt2 [Hne Hwt2]%lookup_delete_Some. destruct (L2 w' wt2 Hwt2) as ((l & Hl & Hwl) & Hq & Ha & Hc).
    split_and!; [| |done|done].
    + destruct (decide (w_thread wt2 = w_thread wt)) as [E|E].
      * rewrite E in *. exists rest. rewrite lookup_insert_eq. split; [done|]. rewrite Ht in Hl. injection Hl as <-.
        apply elem_of_cons in Hwl as [|]; [congruence|done].
      * exists l. by rewrite lookup_insert_ne by congruence.
    + intros i o Hi. destruct (Hq i o Hi) as (q & Eq & Hinq). exists (filter (λ e, e.1 ≠ w) q).
      rewrite lookup_fmap, Eq. split; [done|]. apply list_elem_of_filter. split; [cbn; congruence|done].
  - intros o q. rewrite lookup_fmap. destruct (qs !! o) as [q0|] eqn:Eq; [|done]. intros [= <-].
    destruct (L3 o q0 Eq) as [Hq1 Hq2]. split; [by apply NoDup_filter|].
    intros w' i [Hne Hinq]%list_elem_of_filter. destruct (Hq2 w' i Hinq) as (wt2 & ? & ?). exists wt2.
    cbn in Hne. by rewrite lookup_delete_ne by congruence.
Qed.

(** The entries removed by [end_wait] are all the entries of the wait. *)
Lemma mine_linked st wv qs w wt o q :
  linked st wv qs → wv !! w = Some wt → qs !! o = Some q →
  filter (λ e, mine w 0 (w_objs wt) o e = false) q = filter (λ e, e.1 ≠ w) q.
Proof.
  intros Hl Hw Hq. destruct (lk_queue _ _ _ Hl o q Hq) as [_ Hin].
  assert (Hiff : ∀ e, e ∈ q → mine w 0 (w_objs wt) o e = false ↔ e.1 ≠ w).
  { intros [w' i] He. unfold mine; cbn [fst snd]. rewrite Nat.sub_0_r. cbn [Nat.leb].
    destruct (Z.eqb_spec w' w) as [->|]; cbn [andb]; [|naive_solver].
    destruct (Hin w i He) as (wt' & Hw' & Hi). assert (wt' = wt) as -> by congruence.
    rewrite bool_decide_eq_true_2 by done. split; done. }
  clear Hin Hq. induction q as [|e q IH]; [done|].
  assert (IH' : filter (λ e, mine w 0 (w_objs wt) o e = false) q = filter (λ e, e.1 ≠ w) q).
  { apply IH. intros. apply Hiff, elem_of_cons. auto. }
  specialize (Hiff e ltac:(apply elem_of_cons; auto)). rewrite !filter_cons, IH'.
  destruct (decide (e.1 ≠ w)); [rewrite decide_True by tauto|rewrite decide_False by tauto]; done.
Qed.

Lemma map_imap_queues f (m : gmap Z object) :
  o_queue <$> map_imap (λ o x, Some (set_queue (f o (o_queue x)) x)) m =
  map_imap (λ o q, Some (f o q)) (o_queue <$> m).
Proof. apply map_eq. intros o. rewrite lookup_fmap, !map_lookup_imap, lookup_fmap. by destruct (m !! o). Qed.

Lemma filter_eq_nil (l : list Z) o : o ∉ l → filter (.= o) l = [].
Proof.
  induction l as [|a l IH]; intros H; [done|]. apply not_elem_of_cons in H as [? ?].
  rewrite filter_cons_False by congruence. auto.
Qed.

Lemma filter_eq_length (l : list Z) o : NoDup l → (length (filter (.= o) l) ≤ 1)%nat.
Proof.
  induction l as [|a l IH]; intros H; [cbn; lia|]. apply NoDup_cons in H as [Hn Hl].
  rewrite filter_cons. case_decide; [|auto]. subst. rewrite filter_eq_nil by done. cbn. lia.
Qed.

(** Dropping the consumed entries from the queues makes up for the acquisitions. *)
Lemma syncs_ok_dequeue st wv s s' w wt sat :
  linked st wv (queues s) → wv !! w = Some wt →
  syncs_ok (bump_all sat (λ _, 0)) s → NoDup sat → (∀ o, o ∈ sat → o ∈ w_objs wt) →
  (∀ o, s_objects s' !! o = (λ x, set_queue (filter (λ e, e.1 ≠ w) (o_queue x)) x) <$> s_objects s !! o) →
  (∀ t, th_mutexes <$> s_threads s' !! t = th_mutexes <$> s_threads s !! t) →
  syncs_ok (λ _, 0) s'.
Proof.
  intros Hl Hw [K1 K2] Hnd Hsat Eo Et. split.
  - intros o x'. rewrite Eo. destruct (s_objects s !! o) as [x|] eqn:Ho; [|done]. intros [= <-].
    specialize (K1 o x Ho). unfold sync_ok in *. cbn. destruct (o_sync x) as [|m|m]; [done|done|].
    destruct K1 as (? & Hlen & Hown). split_and!; [done| |].
    + unfold bump_all in Hlen. destruct (decide (o ∈ sat)) as [Hin|Hnin].
      * pose proof (filter_eq_length sat o Hnd) as Hf.
        destruct (lk_wait _ _ _ Hl w wt Hw) as (_ & Hq & _).
        apply Hsat, list_elem_of_lookup in Hin as [i Hi]. destruct (Hq i o Hi) as (q & Eq & Hinq).
        unfold queues in Eq. rewrite lookup_fmap, Ho in Eq. injection Eq as <-.
        assert (length (filter (λ e, e.1 ≠ w) (o_queue x)) < length (o_queue x))%nat.
        { apply length_filter_lt with (w, i); [done|]. cbn. tauto. }
        lia.
      * rewrite filter_eq_nil in Hlen by done.
        pose proof (length_filter (λ e : Z * nat, e.1 ≠ w) (o_queue x)). cbn in Hlen. lia.
    + destruct (mtx_owner m) as [t|]; [|done]. destruct Hown as [? (th & Ht & Hin)]. split; [done|].
      specialize (Et t). rewrite Ht in Et. destruct (s_threads s' !! t) as [th'|]; [|done]. injection Et as Et.
      exists th'. by rewrite Et.
  - intros t th' Ht'. specialize (Et t). rewrite Ht' in Et.
    destruct (s_threads s !! t) as [th|] eqn:Ht; [|done]. injection Et as Et. rewrite Et.
    destruct (K2 t th Ht) as [? Hm]. split; [done|]. intros o Hin. destruct (Hm o Hin) as (x & m & Hx & ? & ?).
    unfold owned_by. rewrite Eo, Hx. by eexists _, m.
Qed.

Lemma syncs_ok_threads extra s s' :
  syncs_ok extra s → s_objects s' = s_objects s →
  (∀ t, th_mutexes <$> s_threads s' !! t = th_mutexes <$> s_threads s !! t) → syncs_ok extra s'.
Proof.
  intros [K1 K2] Eo Et. split.
  - intros o x. rewrite Eo. intros Ho. specialize (K1 o x Ho). unfold sync_ok in *.
    destruct (o_sync x) as [|m|m]; [done|done|]. destruct K1 as (? & ? & Hown). split_and!; [done|done|].
    destruct (mtx_owner m) as [t|]; [|done]. destruct Hown as [? (th & Ht & Hin)]. split; [done|].
    specialize (Et t). rewrite Ht in Et. destruct (s_threads s' !! t) as [th'|]; [|done]. injection Et as Et.
    exists th'. by rewrite Et.
  - intros t th' Ht'. specialize (Et t). rewrite Ht' in Et.
    destruct (s_threads s !! t) as [th|] eqn:Ht; [|done]. injection Et as Et. rewrite Et.
    unfold owned_by. rewrite Eo. by apply K2.
Qed.

Lemma lookup_insert_proj {A B} (f : A → B) (m : gmap Z A) i a a' j :
  m !! i = Some a → f a' = f a → f <$> (<[i := a']> m) !! j = f <$> m !! j.
Proof. intros Hi Hf. rewrite lookup_insert. case_decide; [subst; rewrite Hi; cbn; by rewrite Hf|done]. Qed.

(** What ending the top wait [w] of [t] leaves. *)
Definition ended (t w : Z) (rest : list Z) (s s' : sync_state) : Prop :=
  wf s' ∧ consumes s s' ∧ stacks s' = <[t := rest]> (stacks s) ∧ wviews s' = delete w (wviews s) ∧
  queues s' = filter (λ e, e.1 ≠ w) <$> queues s ∧ others t s s'.

Lemma sat_objects_nodup wt status :
  (w_select wt = SELECT_WAIT_ALL → NoDup (w_objs wt)) → NoDup (sat_objects wt status).
Proof.
  intros H. unfold sat_objects. destruct (_ <? _); [|constructor]. case_bool_decide; [auto|].
  destruct (w_objs wt !! Z.to_nat status); [apply NoDup_singleton|constructor].
Qed.

(** Only the sync objects matter to [consumes]. *)
Lemma same_syncs_consumes s s' :
  statics s' = statics s → same_env s s' →
  (∀ o, o_sync <$> s_objects s' !! o = o_sync <$> s_objects s !! o) →
  consumes s s' ∧ (∀ o, tokens s' o = tokens s o) ∧
  ∀ t o, object_signaled s' t o = object_signaled s t o.
Proof.
  intros Es Ee Eo.
  assert (E1 : ∀ o, tokens s' o = tokens s o).
  { intros o. specialize (Eo o). unfold tokens.
    destruct (s_objects s' !! o), (s_objects s !! o); try done. injection Eo as Eo. cbn. by rewrite Eo. }
  assert (E2 : ∀ o, shape s' o = shape s o).
  { intros o. specialize (Eo o). unfold shape.
    destruct (s_objects s' !! o), (s_objects s !! o); try done. injection Eo as Eo. cbn. by rewrite Eo. }
  assert (E3 : ∀ t o, object_signaled s' t o = object_signaled s t o).
  { intros t o. specialize (Eo o). unfold object_signaled.
    destruct (s_objects s' !! o), (s_objects s !! o); try done. injection Eo as Eo. by rewrite Eo. }
  split_and!; [|done|done]. split_and!; [done|done|..]; intros.
  - by rewrite <- E3.
  - by rewrite E1.
  - done.
Qed.

Definition told (t status : Z) (wt : thread_wait) (s s' : sync_state) (r : Z) : Prop :=
  let sat := sat_objects wt status in
  syncs_ok (bump_all sat (λ _, 0)) s' ∧ same_views s s' ∧ consumes s s' ∧
  (∀ o, o ∈ sat → counted s o = true → tokens s' o < tokens s o) ∧ others t s s' ∧
  (r = status ∨ status < w_count wt ∧ r = status + STATUS_ABANDONED_WAIT_0).

Lemma syncs_ok_extra extra extra' s : (∀ o, extra' o = extra o) → syncs_ok extra s → syncs_ok extra' s.
Proof.
  intros E [K1 K2]. split; [|done]. intros o x Hx. specialize (K1 o x Hx). unfold sync_ok in *. by rewrite E.
Qed.

(** The first half of [end_wait]: the objects are told, on a state where the wait
    is off the stack of its thread. *)
Lemma tell_objects_ok t status s wd w wt :
  syncs_ok (λ _, 0) s → (w_select wt = SELECT_WAIT_ALL → NoDup (w_objs wt)) →
  is_Some (s_threads s !! t) → s_waits s !! w = Some wt → 0 ≤ status →
  (∀ o, o ∈ sat_objects wt status →
     ∃ x, s_objects s !! o = Some x ∧ sync_signaled (o_sync x) t = true ∧ has_room s o) →
  wp (if status <? w_count wt then
        (if bool_decide (w_select wt = SELECT_WAIT_ALL) then satisfied_all (w_objs wt) w t
         else match w_objs wt !! Z.to_nat status with
              | Some o => object_sync_satisfied o w t
              | None => crash
              end) >>
        let* wt := read_wait w in
        ret (if w_abandoned wt then status + STATUS_ABANDONED_WAIT_0 else status)
      else ret status) s wd (λ r s' wd', wd' = wd ∧ told t status wt s s' r).
Proof.
  intros Hs Hnd Ht Hw Hst Hobj. unfold told. pose proof (sat_objects_nodup wt status Hnd) as Hnds. cbv zeta.
  assert (Htail : ∀ s2, same_views s s2 → ∃ wt2, s_waits s2 !! w = Some wt2).
  { intros s2 (_ & Vw & _). destruct (lookup_same_dom wait_view (s_waits s) (s_waits s2) w wt Vw Hw) as (wt2 & ? & _). eauto. }
  unfold sat_objects in *. destruct (Z.ltb_spec status (w_count wt)) as [Hlt|].
  2: { rewrite wp_ret. split_and!; [done| |done|apply consumes_refl|set_solver|done|auto].
       eapply syncs_ok_extra; [|done]. intros. done. }
  rewrite wp_bind. case_bool_decide as Ha.
  - eapply wp_mono; [by apply satisfied_all_ok|]. intros _ s2 wd2 (-> & ? & V & ? & ? & ?).
    destruct (Htail s2 V) as [wt2 Hwt2]. rewrite wp_bind. eapply wp_read_at; [done|]. rewrite wp_ret.
    split_and!; [done..|]. destruct (w_abandoned wt2); auto.
  - destruct (w_objs wt !! Z.to_nat status) as [o|] eqn:Eo.
    2: { exfalso. apply lookup_ge_None in Eo. unfold w_count in Hlt. lia. }
    destruct (Hobj o) as (x & Hx & Hsx & Hrx); [set_solver|]. destruct Ht as [th Ht].
    eapply wp_mono; [by eapply object_sync_satisfied_ok|]. intros _ s2 wd2 (-> & K & V & C & _ & Htok & Hot).
    destruct (Htail s2 V) as [wt2 Hwt2]. rewrite wp_bind. eapply wp_read_at; [done|]. rewrite wp_ret.
    split_and!; [done| |done|done| |done|destruct (w_abandoned wt2); auto].
    + eapply syncs_ok_extra; [|done]. intros o'. unfold bump_all, bump. rewrite filter_cons.
      destruct (Z.eqb_spec o' o) as [->|]; [by rewrite decide_True|by rewrite decide_False].
    + intros o' ->%list_elem_of_singleton. done.
Qed.

(** The second half: the entries are removed. *)
Lemma drop_wait_ok {A} t w rest wt sat s s2 wd (r : A) Q :
  linked (stacks s) (wviews s) (queues s) → stacks s !! t = Some (w :: rest) → s_waits s !! w = Some wt →
  stacks s2 = <[t := rest]> (stacks s) → wviews s2 = wviews s → queues s2 = queues s →
  syncs_ok (bump_all sat (λ _, 0)) s2 → consumes s s2 → NoDup sat → (∀ o, o ∈ sat → o ∈ w_objs wt) →
  others t s s2 →
  (∀ s4, ended t w rest s s4 → (∀ o, tokens s4 o = tokens s2 o) → Q r s4 wd) →
  wp (remove_entries (w_objs wt) w 0 >> modify (on_waits (delete w)) >> ret r) s2 wd Q.
Proof.
  intros Hl Hstk Hw Vs Vw Vq K2 C2 Hnd Hsat Hot HQ.
  assert (Hwv : wviews s !! w = Some (wait_view wt)) by (unfold wviews; by rewrite lookup_fmap, Hw).
  rewrite wp_bind. eapply wp_mono; [apply remove_entries_ok|].
  { intros o (i & Hi)%list_elem_of_lookup. destruct (lk_wait _ _ _ Hl w _ Hwv) as (_ & Hq & _).
    destruct (Hq i o Hi) as (q & Eq & _). rewrite <- Vq in Eq. unfold queues in Eq. rewrite lookup_fmap in Eq.
    by destruct (s_objects s2 !! o). }
  intros _ s3 wd3 (-> & Eo & Et & Ew & Ee). rewrite wp_bind, wp_modify, wp_ret.
  set (s4 := on_waits (delete w) s3).
  assert (Eo4 : ∀ o, s_objects s4 !! o = (λ x, set_queue (filter (λ e, e.1 ≠ w) (o_queue x)) x) <$> s_objects s2 !! o).
  { intros o. unfold s4; cbn. rewrite Eo, map_lookup_imap. destruct (s_objects s2 !! o) as [x|] eqn:Hx; [|done]. cbn.
    f_equal. unfold set_queue; cbn. f_equal. eapply (mine_linked _ _ (queues s) w (wait_view wt)); [done|done|].
    rewrite <- Vq. unfold queues. by rewrite lookup_fmap, Hx. }
  destruct (same_syncs_consumes s2 s4) as (C4 & Htok & _).
  { unfold s4, statics; cbn. by rewrite Et. }
  { done. }
  { intros o. rewrite Eo4. by destruct (s_objects s2 !! o). }
  assert (Es4 : stacks s4 = <[t := rest]> (stacks s)).
  { unfold s4, stacks at 1; cbn. rewrite Et. exact Vs. }
  assert (Ew4 : wviews s4 = delete w (wviews s)).
  { unfold s4, wviews at 1; cbn. rewrite fmap_delete, Ew. fold (wviews s2). by rewrite Vw. }
  assert (Eq4 : queues s4 = filter (λ e, e.1 ≠ w) <$> queues s).
  { apply map_eq. intros o. rewrite <- Vq. unfold queues. rewrite !lookup_fmap, Eo4. by destruct (s_objects s2 !! o). }
  apply HQ; [|done]. split_and!; [split|by eapply consumes_trans|done..|].
  - rewrite Es4, Ew4, Eq4. by eapply linked_end.
  - eapply (syncs_ok_dequeue (stacks s) (wviews s) s2 s4 w (wait_view wt) sat); [by rewrite Vq|done..|].
    intros t'. unfold s4; cbn. by rewrite Et.
  - intros t' Hne. unfold s4; cbn. rewrite Et. by apply Hot.
Qed.

(** [end_wait] on a well-formed state, when the objects it tells are signaled. *)
Lemma end_wait_ok t status s wd th w rest wt :
  wf s → s_threads s !! t = Some th → th_wait th = w :: rest → s_waits s !! w = Some wt → 0 ≤ status →
  (∀ o, o ∈ sat_objects wt status → object_signaled s t o = true) →
  wp (end_wait t status) s wd (λ r s' wd', wd' = wd ∧ ended t w rest s s' ∧
    (∀ o, o ∈ sat_objects wt status → counted s o = true → tokens s' o < tokens s o) ∧
    (r = status ∨ status < w_count wt ∧ r = status + STATUS_ABANDONED_WAIT_0)).
Proof.
  intros [Hl Hs] Ht Hth Hw Hst Hsat.
  assert (Hwv : wviews s !! w = Some (wait_view wt)) by (unfold wviews; by rewrite lookup_fmap, Hw).
  assert (Hstk : stacks s !! t = Some (w :: rest)) by (unfold stacks; rewrite lookup_fmap, Ht; cbn; by rewrite Hth).
  assert (Hnd : w_select wt = SELECT_WAIT_ALL → NoDup (w_objs wt)) by apply (lk_wait _ _ _ Hl w _ Hwv).
  set (s1 := on_threads (<[t := set_wait rest th]>) s).
  assert (Hs1 : syncs_ok (λ _, 0) s1).
  { eapply syncs_ok_threads; [done|done|]. intros t'. by apply lookup_insert_proj with (a := th). }
  assert (C1 : consumes s s1).
  { apply same_syncs_consumes; [|done|done]. unfold s1, statics, on_threads; cbn. by apply fmap_insert_same with (a := th). }
  unfold end_wait. rewrite wp_bind. eapply wp_read_at; [done|]. rewrite Hth.
  rewrite wp_bind. unfold put_thread at 1. rewrite wp_modify. fold s1.
  rewrite wp_bind. eapply wp_read_at; [done|]. rewrite wp_bind.
  eapply wp_mono; [apply (tell_objects_ok t status s1 wd w wt); try done|].
  - unfold s1; cbn. rewrite lookup_insert_eq. eauto.
  - intros o Ho. pose proof (Hsat o Ho) as Hsig. apply sat_objects_sub in Ho.
    destruct (wf_room s w wt o (conj Hl Hs) Hw Ho) as (x & i & Hx & _ & Hr).
    exists x. split; [done|]. split; [|done]. unfold object_signaled in Hsig. by rewrite Hx in Hsig.
  - intros r s2 wd2 (-> & K2 & (Vs & Vw & Vq) & C2 & Htok & Hot & Hr).
    eapply (drop_wait_ok t w rest wt (sat_objects wt status) s); try done.
    + rewrite Vs. unfold s1, stacks, on_threads; cbn. by rewrite fmap_insert.
    + by eapply consumes_trans.
    + by apply sat_objects_nodup.
    + apply sat_objects_sub.
    + intros t' Hne. rewrite Hot by done. unfold s1; cbn. by apply lookup_insert_ne.
    + intros s4 Hended Ht4. split_and!; [done|done| |done]. intros o Ho Hc. rewrite Ht4. by apply Htok.
Qed.

(** ** [wake_thread] *)

Lemma stack_of s t th : s_threads s !! t = Some th → stacks s !! t = Some (th_wait th).
Proof. intros H. unfold stacks. by rewrite lookup_fmap, H. Qed.

Lemma top_wait s t th w rest :
  wf s → s_threads s !! t = Some th → th_wait th = w :: rest →
  ∃ wt, s_waits s !! w = Some wt ∧ w_thread wt = t ∧ w_count wt ≤ MAXIMUM_WAIT_OBJECTS.
Proof.
  intros [Hl _] Ht Hth. pose proof (stack_of s t th Ht) as Hs. rewrite Hth in Hs.
  destruct (lk_stack _ _ _ Hl t _ Hs) as [_ Hin]. destruct (Hin w ltac:(apply elem_of_cons; auto)) as (wt & Hw & Et).
  pose proof (lk_wait _ _ _ Hl w wt Hw) as (_ & _ & _ & Hc).
  unfold wviews in Hw. rewrite lookup_fmap in Hw. destruct (s_waits s !! w) as [wt'|]; [|done].
  injection Hw as <-. by exists wt'.
Qed.

Lemma wp_check_wait t s wd th w rest wt Q :
  wf s → s_threads s !! t = Some th → th_wait th = w :: rest → s_waits s !! w = Some wt →
  Q (check_wait_with (object_signaled s t) s th wt) s wd → wp (check_wait t) s wd Q.
Proof.
  intros Hwf Ht Hth Hw HQ. unfold check_wait. rewrite wp_bind, wp_get, wp_bind. eapply wp_read_at; [done|].
  rewrite Hth, wp_bind. eapply wp_read_at; [done|]. rewrite wp_bind, wp_assert. split; [|by rewrite wp_ret].
  apply forallb_forall. intros o Ho. apply list_elem_of_In in Ho. apply bool_decide_eq_true.
  destruct (wf_room s w wt o Hwf Hw Ho) as (x & i & -> & _). eauto.
Qed.

(** A wait that ends does so with the status of a signaled object, or with a
    status that is no index of an object. *)
Lemma check_wait_result sig s th wt :
  w_count wt ≤ MAXIMUM_WAIT_OBJECTS → check_wait_with sig s th wt ≠ -1 →
  0 ≤ check_wait_with sig s th wt ∧ ∀ o, o ∈ sat_objects wt (check_wait_with sig s th wt) → sig o = true.
Proof.
  intros Hc. unfold check_wait_with, MAXIMUM_WAIT_OBJECTS in *.
  assert (Hbig : ∀ z, w_count wt ≤ z → ∀ o, o ∈ sat_objects wt z → sig o = true).
  { intros z Hz o. unfold sat_objects. replace (z <? w_count wt) with false by lia. set_solver. }
  destruct (_ && th_system_apc th); [intros _; split; [done|apply Hbig; unfold STATUS_KERNEL_APC; lia]|].
  destruct (is_thread_suspended s th); [done|]. destruct (if bool_decide _ then _ else _) as [i|] eqn:E.
  - intros _. case_bool_decide as Ha.
    + destruct (forallb sig (w_objs wt)) eqn:Ef; [|done]. injection E as <-. split; [lia|].
      intros o Ho%sat_objects_sub. rewrite forallb_forall in Ef. by apply Ef, list_elem_of_In.
    + apply first_signaled_range in E as (Hr & o & Ho & Hsig). rewrite Z.sub_0_r in Ho. split; [lia|].
      intros o'. unfold sat_objects. rewrite bool_decide_eq_false_2, Ho by done.
      destruct (_ <? _); [|set_solver]. by intros ->%list_elem_of_singleton.
  - destruct (_ && th_user_apc th); [intros _; split; [done|apply Hbig; unfold STATUS_USER_APC; lia]|].
    destruct (expired s wt); [intros _; split; [done|apply Hbig; unfold STATUS_TIMEOUT; lia]|done].
Qed.

Lemma first_signaled_none sig objs k o : first_signaled sig objs k = None → o ∈ objs → sig o = false.
Proof.
  revert k. induction objs as [|a objs IH]; intros k; cbn; [set_solver|].
  destruct (sig a) eqn:Ea; [done|]. intros Hk [->|Hin]%elem_of_cons; [done|by eapply IH].
Qed.

(** A wait that only [o] keeps from being blocked consumes [o]. *)
Lemma check_wait_consumes sig o s th wt :
  check_wait_with (λ o', except o o' && sig o') s th wt = -1 → check_wait_with sig s th wt ≠ -1 →
  o ∈ sat_objects wt (check_wait_with sig s th wt).
Proof.
  unfold check_wait_with. destruct (_ && th_system_apc th); [done|]. destruct (is_thread_suspended s th); [done|].
  case_bool_decide as Ha.
  - destruct (forallb sig (w_objs wt)) eqn:Ef.
    + intros Hm _. unfold sat_objects. rewrite bool_decide_eq_true_2 by done.
      destruct (forallb (λ o', except o o' && sig o') (w_objs wt)) eqn:Em; [done|].
      apply not_true_iff_false in Em. rewrite forallb_forall in Em, Ef.
      assert (Hin : o ∈ w_objs wt).
      { destruct (decide (o ∈ w_objs wt)); [done|]. destruct Em. intros o' Ho'. rewrite Ef by done.
        unfold except. apply list_elem_of_In in Ho'. destruct (Z.eqb_spec o' o); [by subst|done]. }
      replace (0 <? w_count wt) with true; [done|]. symmetry. apply Z.ltb_lt. unfold w_count.
      destruct (w_objs wt); [set_solver|cbn; lia].
    + destruct (forallb (λ o', except o o' && sig o') (w_objs wt)); [done|]. done.
  - destruct (first_signaled sig (w_objs wt) 0) as [i|] eqn:Ef.
    + destruct (first_signaled (λ o', except o o' && sig o') (w_objs wt) 0) as [j|] eqn:Em.
      { intros ->. apply first_signaled_range in Em. lia. }
      intros _ _. apply first_signaled_range in Ef as (Hr & o1 & Ho1 & Hs1). rewrite Z.sub_0_r in Ho1.
      assert (o1 = o) as ->.
      { destruct (decide (o1 = o)); [done|]. exfalso.
        apply list_elem_of_lookup_2 in Ho1.
        pose proof (first_signaled_none _ _ _ _ Em Ho1) as Hn. cbn beta in Hn. unfold except in Hn.
        rewrite Hs1, andb_true_r in Hn. apply negb_false_iff in Hn. lia. }
      unfold sat_objects. replace (i <? w_count wt) with true by (symmetry; apply Z.ltb_lt; unfold w_count; lia).
      rewrite bool_decide_eq_false_2, Ho1 by done. set_solver.
    + destruct (first_signaled (λ o', except o o' && sig o') (w_objs wt) 0) as [j|] eqn:Em; [|done].
      apply first_signaled_range in Em as (_ & o1 & Ho1 & Hs1). apply andb_true_iff in Hs1 as [_ Hs1].
      apply list_elem_of_lookup_2 in Ho1. pose proof (first_signaled_none _ _ _ _ Ef Ho1). congruence.
Qed.

(** What waking [t] may change. *)
Definition woken (t : Z) (s s' : sync_state) : Prop :=
  wf s' ∧ consumes s s' ∧ wviews s' ⊆ wviews s ∧ others t s s' ∧
  (∃ l l', stacks s !! t = Some (l ++ l') ∧ stacks s' !! t = Some l') ∧
  (∀ o, ∃ P : Z * nat → bool, queues s' !! o = filter (λ e, P e = true) <$> queues s !! o).

Lemma woken_refl t s l : wf s → stacks s !! t = Some l → woken t s s.
Proof.
  intros Hwf Hl. split_and!; [done|apply consumes_refl|done|done|by exists [], l|].
  intros o. exists (λ _, true). destruct (queues s !! o) as [q|]; [|done]. cbn. by rewrite filter_all.
Qed.

Lemma woken_trans t s1 s2 s3 : woken t s1 s2 → woken t s2 s3 → woken t s1 s3.
Proof.
  intros (W1 & C1 & V1 & T1 & (l1 & l1' & L1 & L1') & Q1) (W2 & C2 & V2 & T2 & (l2 & l2' & L2 & L2') & Q2).
  split_and!; [done|by eapply consumes_trans|by etransitivity| | |].
  - intros t' Hne. by rewrite T2, T1.
  - exists (l1 ++ l2), l2'. split; [|done]. rewrite L1, <- app_assoc. do 2 f_equal. congruence.
  - intros o. destruct (Q1 o) as [P1 E1], (Q2 o) as [P2 E2]. exists (λ e, P1 e && P2 e).
    rewrite E2, E1. destruct (queues s1 !! o) as [q|]; [|done]. cbn. f_equal.
    rewrite list_filter_filter. apply list_filter_iff. intros e. rewrite andb_true_iff. tauto.
Qed.

Lemma ended_woken t w rest s s' : stacks s !! t = Some (w :: rest) → ended t w rest s s' → woken t s s'.
Proof.
  intros Hs (Hwf & Hc & Es & Ew & Eq & Hot). split_and!; [done|done| |done| |].
  - rewrite Ew. apply delete_subseteq.
  - exists [w], rest. split; [done|]. by rewrite Es, lookup_insert_eq.
  - intros o. exists (λ e, negb (e.1 =? w)). rewrite Eq, lookup_fmap. destruct (queues s !! o) as [q|]; [|done]. cbn.
    f_equal. apply list_filter_iff. intros e. rewrite negb_true_iff, Z.eqb_neq. tauto.
Qed.

(** Writing a reply. *)
Lemma send_thread_wakeup_ok t cookie signaled s wd th Q :
  s_threads s !! t = Some th →
  (∀ th' s', s' = on_threads (<[t := th']>) s → th_wait th' = th_wait th → same_static th th' →
     th_mutexes th' = th_mutexes th → Q tt s' wd) →
  wp (send_thread_wakeup t cookie signaled) s wd Q.
Proof.
  intros Ht HQ. unfold send_thread_wakeup. rewrite wp_bind. eapply wp_read_at; [done|].
  assert (H : ∀ th', th_wait th' = th_wait th → same_static th th' → th_mutexes th' = th_mutexes th →
    wp (put_thread t th') s wd Q) by (intros; unfold put_thread; rewrite wp_modify; by eapply HQ).
  destruct (th_context th) as [c|]; [|by apply H]. destruct (_ && _); [|by apply H]. destruct c; by apply H.
Qed.

Lemma put_thread_woken s t th th' :
  wf s → s_threads s !! t = Some th → th_wait th' = th_wait th → same_static th th' →
  th_mutexes th' = th_mutexes th → woken t s (on_threads (<[t := th']>) s).
Proof.
  intros [Hl Hs] Ht Hw (F1 & F2 & F3 & F4 & F5) Hm.
  assert (Es : stacks (on_threads (<[t := th']>) s) = stacks s)
    by (unfold stacks, on_threads; cbn; by apply fmap_insert_same with (a := th)).
  assert (Et : statics (on_threads (<[t := th']>) s) = statics s)
    by (unfold statics, on_threads; cbn; apply fmap_insert_same with (a := th); [done|congruence]).
  split_and!; [split| |done| | |].
  - by rewrite Es.
  - eapply syncs_ok_threads; [done|done|]. intros t'. by apply lookup_insert_proj with (a := th).
  - by apply same_syncs_consumes.
  - intros t' Hne. cbn. by apply lookup_insert_ne.
  - exists [], (th_wait th). rewrite Es. split; by apply stack_of.
  - intros o. exists (λ _, true). change (queues (on_threads (<[t:=th']>) s)) with (queues s).
    destruct (queues s !! o) as [q|]; [|done]. cbn. by rewrite filter_all.
Qed.

(** Waking a thread leaves the others asleep. *)
Lemma woken_blocked t s s' mask t' : woken t s s' → t' ≠ t → blocked s mask t' → blocked s' mask t'.
Proof.
  intros (Hwf & (Est & Ee & Hsig & _) & Hv & Hstk & _) Hne Hb th' w rest wt' Ht' Hth' Hw'.
  pose proof Ht' as Ht. rewrite (Hstk t' Hne) in Ht.
  assert (Hwv : wviews s !! w = Some (wait_view wt')).
  { eapply lookup_weaken; [|exact Hv]. unfold wviews. by rewrite lookup_fmap, Hw'. }
  unfold wviews in Hwv. rewrite lookup_fmap in Hwv. destruct (s_waits s !! w) as [wt|] eqn:Hw; [|done].
  assert (Hsame : same_wait wt wt') by (unfold same_wait; cbn in Hwv; congruence).
  apply (check_wait_with_mono (λ o, mask o && object_signaled s t' o) _ s s' th' th' wt wt');
    [done|done|done| |].
  - intros o _ [Hm Ho]%andb_true_iff. apply andb_true_iff. auto.
  - by eapply Hb.
Qed.

Lemma blocked_mask s mask mask' t :
  (∀ o, mask' o = true → mask o = true) → blocked s mask t → blocked s mask' t.
Proof.
  intros Hm Hb th w rest wt Ht Hth Hw.
  apply (check_wait_with_mono (λ o, mask o && object_signaled s t o) _ s s th th wt wt); [done|done|done| |by eapply Hb].
  intros o _ [H1 H2]%andb_true_iff. apply andb_true_iff. auto.
Qed.

(** The result of [wake_thread]: the thread sleeps, or has no wait left; if it was
    woken and only [o] kept it from sleeping, [o] was consumed. *)
Definition wake_post (t : Z) (s s' : sync_state) (r : Z) : Prop :=
  woken t s s' ∧ blocked s' all_objects t ∧ 0 ≤ r ∧ (r = 0 → s' = s) ∧
  (r ≠ 0 → (size (wviews s') < size (wviews s))%nat ∧
     ∀ o, blocked s (except o) t → counted s o = true → tokens s' o < tokens s o).

Lemma wake_loop_ok n t c s wd l :
  wf s → stacks s !! t = Some l → (length l < n)%nat → 0 ≤ c →
  wp (wake_loop n t c) s wd (λ r s' wd', wd' = wd ∧ c ≤ r ∧ wake_post t s s' (r - c)).
Proof.
  revert c s l. induction n as [|n IH]; intros c s l Hwf Hs Hn Hc; [lia|].
  cbn [wake_loop]. pose proof Hs as Hs'. unfold stacks in Hs'. rewrite lookup_fmap in Hs'.
  destruct (s_threads s !! t) as [th|] eqn:Ht; [|done]. injection Hs' as Hth.
  rewrite wp_bind. eapply wp_read_at; [done|]. rewrite Hth. destruct l as [|w rest].
  { rewrite wp_ret. split_and!; [done|lia|]. rewrite Z.sub_diag. split_and!; [by eapply woken_refl| |lia|done|done].
    intros th' w' r' wt' Ht' Hth'. congruence. }
  destruct (top_wait s t th w rest Hwf Ht Hth) as (wt & Hw & Ewt & Hcount).
  rewrite wp_bind. eapply wp_check_wait; [done..|].
  set (v := check_wait_with (object_signaled s t) s th wt).
  destruct (Z.eqb_spec v (-1)) as [Hv|Hv].
  { rewrite wp_ret. split_and!; [done|lia|]. rewrite Z.sub_diag. split_and!; [by eapply woken_refl| |lia|done|done].
    intros th' w' r' wt' Ht' Hth' Hw'. assert (th' = th) as -> by congruence.
    assert (w' = w) as -> by congruence. assert (wt' = wt) as -> by congruence. rewrite <- Hv. apply check_wait_with_ext. done. }
  destruct (check_wait_result _ _ _ _ Hcount Hv) as [Hv0 Hsat]. fold v in Hv0, Hsat.
  rewrite wp_bind. eapply wp_read_at; [done|]. rewrite wp_bind.
  eapply wp_mono; [by eapply end_wait_ok|]. intros r s1 wd1 (-> & Hend & Htok & Hr).
  assert (Hsize : (size (wviews s1) < size (wviews s))%nat).
  { destruct Hend as (_ & _ & _ & -> & _). eapply size_delete_lt with (a := wait_view wt).
    unfold wviews. by rewrite lookup_fmap, Hw. }
  pose proof (ended_woken t w rest s s1 Hs Hend) as Hw1.
  assert (Hstk1 : stacks s1 !! t = Some rest).
  { destruct Hend as (_ & _ & -> & _). apply lookup_insert_eq. }
  assert (Hgo : ∀ s2, woken t s1 s2 → stacks s2 !! t = Some rest → (∀ o, tokens s2 o = tokens s1 o) → wviews s2 = wviews s1 →
    wp (wake_loop n t (c + 1)) s2 wd (λ r s' wd', wd' = wd ∧ c ≤ r ∧ wake_post t s s' (r - c))).
  { intros s2 Hw2 Hstk2 Htok2 Hv2. eapply wp_mono; [apply (IH (c + 1) s2 rest); [apply Hw2|done|cbn in Hn; lia|lia]|].
    intros r' s' wd' (-> & Hle & Hw3 & Hb3 & _ & _ & _). split_and!; [done|lia|].
    assert (Hwt : woken t s s') by (eapply woken_trans; [done|]; by eapply woken_trans).
    split_and!; [done|done|lia|lia|]. intros _. destruct Hw3 as (_ & (_ & _ & _ & Hle3 & _) & Hsub & _). split.
    - pose proof (map_size_le _ _ Hsub). rewrite Hv2 in *. lia.
    - intros o Hbo Hco. specialize (Hle3 o). rewrite Htok2 in Hle3. enough (tokens s1 o < tokens s o) by lia.
      apply Htok; [|done]. apply check_wait_consumes; [by eapply Hbo|done]. }
  rewrite wp_bind. destruct (negb (w_cookie wt =? 0)); cbn [when].
  - pose proof Hstk1 as Hst1. unfold stacks in Hst1. rewrite lookup_fmap in Hst1.
    destruct (s_threads s1 !! t) as [th1|] eqn:Ht1; [|done]. injection Hst1 as Hth1.
    eapply send_thread_wakeup_ok; [done|]. intros th' s2 -> Ew Es Em. apply Hgo; [| |done|done].
    + eapply put_thread_woken; try done. apply Hw1.
    + unfold stacks, on_threads; cbn. rewrite fmap_insert, lookup_insert_eq. congruence.
  - rewrite wp_ret. apply Hgo; [|done..]. eapply woken_refl; [apply Hw1|done].
Qed.

(** ** [wake_up] *)

(** The thread [t] has no entry in the queue of [o]. *)
Definition untouched (s : sync_state) (o t : Z) : Prop :=
  ∀ q w i wt, queues s !! o = Some q → (w, i) ∈ q → wviews s !! w = Some wt → w_thread wt ≠ t.

(** What waking any threads may change. *)
Definition evolved (s s' : sync_state) : Prop :=
  wf s' ∧ consumes s s' ∧ wviews s' ⊆ wviews s ∧
  (∀ t l, stacks s !! t = Some l → ∃ l0 l', l = l0 ++ l' ∧ stacks s' !! t = Some l') ∧
  (∀ o, ∃ P : Z * nat → bool, queues s' !! o = filter (λ e, P e = true) <$> queues s !! o).

Lemma evolved_refl s : wf s → evolved s s.
Proof.
  intros Hwf. split_and!; [done|apply consumes_refl|done| |].
  - intros t l Hl. by exists [], l.
  - intros o. exists (λ _, true). destruct (queues s !! o); [|done]. cbn. by rewrite filter_all.
Qed.

Lemma evolved_trans s1 s2 s3 : evolved s1 s2 → evolved s2 s3 → evolved s1 s3.
Proof.
  intros (W1 & C1 & V1 & T1 & Q1) (W2 & C2 & V2 & T2 & Q2).
  split_and!; [done|by eapply consumes_trans|by etransitivity| |].
  - intros t l (l0 & l' & -> & Hl')%T1. destruct (T2 t l' Hl') as (l1 & l2 & -> & Hl2).
    exists (l0 ++ l1), l2. split; [|done]. by rewrite app_assoc.
  - intros o. destruct (Q1 o) as [P1 E1], (Q2 o) as [P2 E2]. exists (λ e, P1 e && P2 e).
    rewrite E2, E1. destruct (queues s1 !! o) as [q|]; [|done]. cbn. f_equal.
    rewrite list_filter_filter. apply list_filter_iff. intros e. rewrite andb_true_iff. tauto.
Qed.

Lemma woken_evolved t s s' : woken t s s' → evolved s s'.
Proof.
  intros (W & C & V & T & (l & l' & L & L') & Q). split_and!; try done. intros t' l1 Hl1.
  destruct (decide (t' = t)) as [->|Hne].
  - exists l, l'. split; [congruence|done].
  - exists [], l1. split; [done|]. unfold stacks in *. rewrite lookup_fmap in *. by rewrite T.
Qed.

Lemma untouched_mono s s' o t :
  wviews s' ⊆ wviews s → (∃ P : Z * nat → bool, queues s' !! o = filter (λ e, P e = true) <$> queues s !! o) →
  untouched s o t → untouched s' o t.
Proof.
  intros Hv [P Hq] Hu q' w i wt Hq' Hin Hw. rewrite Hq in Hq'. destruct (queues s !! o) as [q|] eqn:E; [|done].
  injection Hq' as <-. apply list_elem_of_filter in Hin as [_ Hin]. eapply Hu; [done|done|].
  by eapply lookup_weaken.
Qed.

Lemma exhausted s o t : counted s o = true → tokens s o ≤ 0 → object_signaled s t o = false.
Proof.
  unfold counted, tokens, object_signaled. destruct (s_objects s !! o) as [[[e|m|m] q]|]; cbn; try done.
  - unfold event_sync_signaled. destruct (ev_manual e), (ev_signaled e); cbn; done || lia.
  - unfold semaphore_sync_signaled. lia.
Qed.

(** A thread that does not wait for [o] does not need it. *)
Lemma blocked_all s o t q :
  wf s → queues s !! o = Some q → blocked s (except o) t →
  (∀ w i wt, (w, i) ∈ q → wviews s !! w = Some wt → w_thread wt = t → blocked s all_objects t) →
  blocked s all_objects t.
Proof.
  intros Hwf Hq Hb Hin th w rest wt Ht Hth Hw.
  assert (Hwv : wviews s !! w = Some (wait_view wt)) by (unfold wviews; by rewrite lookup_fmap, Hw).
  destruct (top_wait s t th w rest Hwf Ht Hth) as (wt' & Hw' & Et & _). assert (wt' = wt) as -> by congruence.
  destruct (decide (o ∈ w_objs wt)) as [Ho|Hno].
  - apply list_elem_of_lookup in Ho as [i Hi]. destruct Hwf as [Hl _].
    destruct (lk_wait _ _ _ Hl w _ Hwv) as (_ & Hq' & _). destruct (Hq' i o Hi) as (q' & Eq & Hiq).
    assert (q' = q) as -> by congruence. by eapply (Hin w i _ Hiq Hwv).
  - rewrite <- (Hb th w rest wt Ht Hth Hw). apply check_wait_with_ext. intros o' Ho'. unfold all_objects, except.
    replace (o' =? o) with false; [done|]. symmetry. apply Z.eqb_neq. congruence.
Qed.

Definition wake_up_post (o : Z) (s s' : sync_state) : Prop :=
  evolved s s' ∧ (∀ t, blocked s (except o) t → blocked s' all_objects t) ∧
  (∀ t, untouched s o t → s_threads s' !! t = s_threads s !! t).

Lemma wake_queue_ok n o entries max s wd q dn L :
  wf s → queues s !! o = Some q → q = dn ++ entries → (length q ≤ L)%nat →
  (size (wviews s) * S L + length entries < n)%nat →
  (∀ t, blocked s (except o) t ∨ untouched s o t) →
  (∀ w i wt, (w, i) ∈ dn → wviews s !! w = Some wt → blocked s all_objects (w_thread wt)) →
  (max = 0 ∨ 0 < max ≤ INT_MAX ∧ counted s o = true ∧ tokens s o ≤ max) →
  wp (wake_queue n o entries max) s wd (λ _ s' wd', wd' = wd ∧ wake_up_post o s s').
Proof.
  revert entries max s q dn. induction n as [|n IH]; intros entries max s q dn Hwf Hq Eq HL Hn Ht Hdn Hmax; [lia|].
  destruct entries as [|[w i] entries]; cbn [wake_queue].
  { rewrite wp_ret. split; [done|]. rewrite app_nil_r in Eq. subst q.
    split_and!; [by apply evolved_refl| |done]. intros t Hb. eapply blocked_all; [done|done|done|].
    intros w i wt Hin Hw <-. by eapply Hdn. }
  assert (Hin : (w, i) ∈ q) by (subst q; set_solver).
  pose proof Hwf as [Hl _]. destruct (lk_queue _ _ _ Hl o q Hq) as [_ Hqw]. destruct (Hqw w i Hin) as (wv & Hwv & Ho).
  destruct (lk_wait _ _ _ Hl w wv Hwv) as ((l & Hl' & _) & _).
  pose proof Hwv as Hwv'. unfold wviews in Hwv'. rewrite lookup_fmap in Hwv'.
  destruct (s_waits s !! w) as [wt|] eqn:Hw; [|done]. injection Hwv' as Ewv. cbn [fmap option_fmap option_map] in *.
  set (t := w_thread wt). assert (Et : w_thread wv = t) by by rewrite <- Ewv. rewrite Et in Hl'.
  rewrite wp_bind. eapply wp_read_at; [done|]. rewrite wp_bind. fold t. unfold wake_thread.
  pose proof Hl' as Hth. unfold stacks in Hth. rewrite lookup_fmap in Hth.
  destruct (s_threads s !! t) as [th|] eqn:Hths; [|done]. injection Hth as Hth.
  rewrite wp_bind. eapply wp_read_at; [done|]. rewrite Hth.
  eapply wp_mono; [apply (wake_loop_ok _ t 0 s wd l); [done|done|lia|lia]|].
  intros r s1 wd1 (-> & _ & Hpost). rewrite Z.sub_0_r in Hpost. destruct Hpost as (Hwk & Hb1 & Hr0 & Hrz & Hrn).
  assert (Htb : blocked s (except o) t).
  { destruct (Ht t) as [|Hu]; [done|]. by destruct (Hu q w i wv Hq Hin Hwv). }
  destruct (Z.eqb_spec r 0) as [->|Hr].
  { rewrite (Hrz eq_refl) in *. eapply (IH _ _ _ q (dn ++ [(w, i)])); try done.
    - by rewrite <- app_assoc.
    - cbn in Hn. lia.
    - intros w' i' wt' [Hd|Hd]%elem_of_app Hw'; [by eapply Hdn|].
      apply list_elem_of_singleton in Hd as [= -> ->]. assert (wt' = wv) as -> by congruence. by rewrite Et. }
  destruct (Hrn Hr) as [Hsz Htok]. clear Hrz Hrn. pose proof Hwk as (Hwf1 & C1 & V1 & T1 & _ & Q1).
  destruct (Q1 o) as [P EP]. rewrite Hq in EP. cbn in EP.
  assert (Hlen1 : (length (filter (λ e, P e = true) q) ≤ length q)%nat) by apply length_filter.
  assert (Hother : ∀ t' m, t' ≠ t → blocked s m t' → blocked s1 m t') by (intros; by eapply woken_blocked).
  assert (Hexc : blocked s1 (except o) t) by (by eapply blocked_mask).
  assert (Hunt : ∀ t', untouched s o t' → t' ≠ t).
  { intros t' Hu ->. by apply (Hu q w i wv Hq Hin Hwv). }
  rewrite wp_bind, wp_assert. split. { unfold INT_MAX in *. lia. }
  destruct (negb (max =? 0) && (max - 1 =? 0)) eqn:Em.
  { assert (max = 1) as -> by lia. destruct Hmax as [|(_ & Hc & Htk)]; [done|].
    rewrite wp_ret. split; [done|]. split_and!; [by eapply woken_evolved| |].
    - assert (Hc1 : counted s1 o = true) by (by rewrite (consumes_counted _ _ _ C1)).
      specialize (Htok o Htb Hc).
      intros t' Hb'. assert (He : blocked s1 (except o) t').
      { destruct (decide (t' = t)) as [->|]; [done|auto]. }
      intros th' w' rest' wt' Hth' Hst' Hw'. rewrite <- (He th' w' rest' wt' Hth' Hst' Hw').
      apply check_wait_with_ext. intros o' _. unfold all_objects, except.
      destruct (Z.eqb_spec o' o) as [->|]; [|done]. cbn. apply exhausted; [done|lia].
    - intros t' Hu. apply T1. auto. }
  rewrite wp_bind. pose proof EP as EP'. unfold queues in EP'. rewrite lookup_fmap in EP'.
  destruct (s_objects s1 !! o) as [x1|] eqn:Hx1; [|done]. injection EP' as EP'.
  eapply wp_read_at; [done|]. rewrite EP'.
  eapply wp_mono; [eapply (IH _ _ s1 (filter (λ e, P e = true) q) [])|].
  - done.
  - done.
  - done.
  - lia.
  - cbn [length] in Hn. assert ((size (wviews s1) + 1) * S L ≤ size (wviews s) * S L)%nat.
    { apply Nat.mul_le_mono_r. lia. } lia.
  - intros t'. destruct (decide (t' = t)) as [->|Hne]; [by left|]. destruct (Ht t') as [|Hu]; [left; auto|right].
    eapply untouched_mono; [done|by apply Q1|done].
  - intros w' i' wt' ?%not_elem_of_nil. done.
  - destruct (Z.eqb_spec max 0); [by left|]. right. destruct Hmax as [|(Hm & Hc & Htk)]; [done|].
    specialize (Htok o Htb Hc). rewrite (consumes_counted _ _ _ C1). split_and!; [lia|lia|done|lia].
  - intros _ s2 wd2 (-> & Hev & Hbl & Hun). split; [done|].
    split_and!; [eapply evolved_trans; [by eapply woken_evolved|done]| |].
    + intros t' Hb'. apply Hbl. destruct (decide (t' = t)) as [->|]; [done|auto].
    + intros t' Hu. rewrite Hun; [by apply T1; auto|]. eapply untouched_mono; [done|by apply Q1|done].
Qed.

Lemma wake_up_ok o max s wd x :
  wf s → s_objects s !! o = Some x → (∀ t, blocked s (except o) t ∨ untouched s o t) →
  (max = 0 ∨ 0 < max ≤ INT_MAX ∧ counted s o = true ∧ tokens s o ≤ max) →
  wp (wake_up o max) s wd (λ _ s' wd', wd' = wd ∧ wake_up_post o s s').
Proof.
  intros Hwf Ho Ht Hmax. unfold wake_up. rewrite wp_bind, wp_get, wp_bind. eapply wp_read_at; [done|].
  eapply (wake_queue_ok _ o _ max s wd (o_queue x) [] (length (o_queue x))); try done.
  - unfold queues. by rewrite lookup_fmap, Ho.
  - unfold wake_fuel, wviews. rewrite map_size_fmap. cbn. lia.
  - intros w i wt ?%not_elem_of_nil. done.
Qed.

(** ** The signaling operations

    What an operation that wakes threads guarantees: the state stays well formed,
    waits only end, and a thread that slept with its wait unsatisfied, or that
    has just been woken, sleeps with its wait unsatisfied: no wakeup is lost. *)
Definition op_ok (s s' : sync_state) : Prop :=
  wf s' ∧ statics s' = statics s ∧ same_env s s' ∧ wviews s' ⊆ wviews s ∧
  (∀ o, shape s' o = shape s o) ∧
  (∀ t l, stacks s !! t = Some l → ∃ l0 l', l = l0 ++ l' ∧ stacks s' !! t = Some l') ∧
  (∀ t, blocked s all_objects t → blocked s' all_objects t).

(** Changing the sync object of [o], then waking its queue. *)
Lemma op_ok_wake s s1 s' o :
  stacks s1 = stacks s → wviews s1 = wviews s → queues s1 = queues s → statics s1 = statics s →
  same_env s s1 → (∀ o, shape s1 o = shape s o) →
  (∀ t, blocked s all_objects t → blocked s1 (except o) t) →
  wake_up_post o s1 s' → op_ok s s'.
Proof.
  intros Es Ew Eq Est (E1 & E2 & E3) Hk Hb (Hev & Hbl & _).
  destruct Hev as (Hwf & (C1 & (C2 & C3 & C4) & _ & _ & C5) & V & T & _).
  split_and!; [done|congruence|split_and!; congruence|by rewrite <- Ew| |by rewrite <- Es|auto].
  intros o'. by rewrite C5, Hk.
Qed.

Lemma op_ok_same s s' :
  wf s' → stacks s' = stacks s → wviews s' = wviews s → queues s' = queues s → statics s' = statics s →
  same_env s s' → (∀ o, shape s' o = shape s o) →
  (∀ t, blocked s all_objects t → blocked s' all_objects t) → op_ok s s'.
Proof.
  intros Hwf Es Ew Eq Est Ee Hk Hb. split_and!; [done|done|done|by rewrite Ew|done| |done].
  intros t l Hl. exists [], l. by rewrite Es.
Qed.

(** Changing one sync object matters only through that object. *)
Lemma with_sync_blocked s o y x t mask :
  s_objects s !! o = Some x → (mask o = true → sync_signaled y t = true → sync_signaled (o_sync x) t = true) →
  blocked s all_objects t → blocked (with_sync o y x s) mask t.
Proof.
  intros Ho Hy Hb th w rest wt Ht Hth Hw.
  eapply (check_wait_with_mono (λ o, all_objects o && object_signaled s t o) _ s _ th th wt wt);
    [done|done|done| |by eapply Hb].
  intros o' _ [Hm Hs]%andb_true_iff. cbn. rewrite with_sync_signaled in Hs.
  destruct (Z.eqb_spec o' o) as [->|]; [|done]. unfold object_signaled. rewrite Ho. auto.
Qed.

Lemma with_sync_same_shape s o y x :
  s_objects s !! o = Some x → sync_shape y = sync_shape (o_sync x) → ∀ o', shape (with_sync o y x s) o' = shape s o'.
Proof.
  intros Ho Hk o'. rewrite with_sync_shape. destruct (Z.eqb_spec o' o) as [->|]; [|done].
  unfold shape. by rewrite Ho, Hk.
Qed.

Lemma with_sync_wf s o y x :
  wf s → s_objects s !! o = Some x →
  (match o_sync x, y with
   | Mutex m, Mutex m' => mtx_owner m' = mtx_owner m
   | Mutex _, _ | _, Mutex _ => False
   | _, _ => True
   end) → sync_ok (with_sync o y x s) (λ _, 0) o (set_sync y x) → wf (with_sync o y x s).
Proof.
  intros [Hl Hs] Ho Hy Hok. destruct (with_sync_views o y x s Ho) as (E1 & E2 & E3). split.
  - by rewrite E1, E2, E3.
  - by eapply with_sync_ok.
Qed.

Definition ready (s : sync_state) (o : Z) : Prop := ∀ t, blocked s all_objects t ∨ untouched s o t.

Lemma ready_with_sync s o y x :
  s_objects s !! o = Some x → ready s o →
  ∀ t, blocked (with_sync o y x s) (except o) t ∨ untouched (with_sync o y x s) o t.
Proof.
  intros Ho Hr t. destruct (Hr t) as [Hb|Hu]; [left|right].
  - apply with_sync_blocked; [done| |done]. unfold except. by rewrite Z.eqb_refl.
  - destruct (with_sync_views o y x s Ho) as (_ & E2 & E3). unfold untouched. by rewrite E2, E3.
Qed.

Lemma event_sync_signal_ok o signal s wd x e :
  wf s → s_objects s !! o = Some x → o_sync x = Event e → ready s o →
  wp (event_sync_signal o signal) s wd (λ r s' wd', wd' = wd ∧ r = true ∧ op_ok s s' ∧
    ∀ t, untouched s o t → s_threads s' !! t = s_threads s !! t).
Proof.
  intros Hwf Ho Ex Hr. unfold event_sync_signal. rewrite wp_bind. eapply wp_read_at; [done|]. rewrite Ex.
  rewrite wp_bind. unfold put_obj. rewrite wp_modify.
  set (y := Event (EventSync (ev_manual e) signal)). fold (with_sync o y x s). set (s1 := with_sync o y x s).
  destruct (with_sync_views o y x s Ho) as (E1 & E2 & E3).
  assert (Hwf1 : wf s1) by (apply with_sync_wf; [done|done|by rewrite Ex|done]).
  rewrite wp_bind. destruct signal; cbn [when].
  - eapply wp_mono; [eapply (wake_up_ok o _ s1 wd); [done|apply lookup_insert_eq|by apply ready_with_sync|]|].
    + destruct (ev_manual e) eqn:Em; [by left|right]. split; [done|].
      unfold s1. rewrite with_sync_counted, with_sync_tokens, Z.eqb_refl. cbn. rewrite ?Em. cbn. unfold INT_MAX. lia.
    + intros _ s' wd' [-> Hp]. rewrite wp_ret. split_and!; [done|done| |].
      * eapply (op_ok_wake s s1 s' o); try done; [by apply with_sync_same_shape; [|rewrite Ex]|].
        intros t Hb. apply with_sync_blocked; [done| |done]. unfold except. by rewrite Z.eqb_refl.
      * intros t Hu. destruct Hp as (_ & _ & Hun). rewrite Hun; [done|].
        unfold untouched, s1. by rewrite E2, E3.
  - rewrite !wp_ret. split_and!; [done|done| |done]. apply op_ok_same; try done; [by apply with_sync_same_shape; [|rewrite Ex]|].
    intros t Hb. by apply with_sync_blocked.
Qed.

Lemma release_semaphore_ok o count s wd x m :
  wf s → s_objects s !! o = Some x → o_sync x = Semaphore m → ready s o → 0 ≤ count < 4294967296 →
  wp (release_semaphore o count) s wd (λ r s' wd',
    if sem_count m + count <=? sem_max m then
      wd' = wd ∧ r = true ∧ op_ok s s' ∧ ∀ t, untouched s o t → s_threads s' !! t = s_threads s !! t
    else r = false ∧ s' = s ∧ wd' = World STATUS_SEMAPHORE_LIMIT_EXCEEDED (w_mem wd)).
Proof.
  intros Hwf Ho Ex Hr Hc. pose proof Hwf as [_ Hsy]. pose proof (sy_object _ _ Hsy o x Ho) as Hm.
  unfold sync_ok in Hm. rewrite Ex in Hm. unfold INT_MAX in Hm.
  unfold release_semaphore. rewrite wp_bind. eapply wp_read_at; [done|]. rewrite Ex.
  assert (Hover : (u32 (sem_count m + count) <? sem_count m) || (sem_max m <? u32 (sem_count m + count)) =
                  negb (sem_count m + count <=? sem_max m)).
  { unfold u32. destruct (Z.leb_spec (sem_count m + count) (sem_max m)); cbn [negb].
    - rewrite Z.mod_small by lia. lia.
    - destruct (Z.ltb_spec (sem_count m + count) 4294967296).
      + rewrite Z.mod_small by lia. lia.
      + replace ((sem_count m + count) mod 4294967296) with (sem_count m + count - 4294967296); [lia|].
        apply Z.mod_unique with 1; lia. }
  rewrite Hover. destruct (Z.leb_spec (sem_count m + count) (sem_max m)) as [Hle|Hgt]; cbn [negb].
  2: { wp_run. done. }
  rewrite u32_small by lia.
  assert (Hviews : ∀ y, same_views s (with_sync o y x s)) by (intros; by apply with_sync_views).
  assert (Hwfs : ∀ c, 0 ≤ c ≤ sem_max m → wf (with_sync o (Semaphore (SemaphoreSync c (sem_max m))) x s)).
  { intros c Hcm. apply with_sync_wf; [done|done|by rewrite Ex|]. unfold sync_ok. cbn. unfold INT_MAX. lia. }
  destruct (Z.eqb_spec (sem_count m) 0) as [E0|E0]; cbn [negb].
  - rewrite wp_bind. unfold put_obj. rewrite wp_modify.
    set (y := Semaphore (SemaphoreSync count (sem_max m))). fold (with_sync o y x s). set (s1 := with_sync o y x s).
    destruct (Hviews y) as (E1 & E2 & E3). rewrite wp_bind.
    eapply wp_mono; [eapply (wake_up_ok o _ s1 wd); [apply Hwfs; lia|apply lookup_insert_eq|by apply ready_with_sync|]|].
    + rewrite s32_small by lia. destruct (Z.eq_dec count 0); [by left|right].
      unfold s1. rewrite with_sync_counted, with_sync_tokens, Z.eqb_refl. cbn. unfold INT_MAX. lia.
    + intros _ s' wd' [-> Hp]. rewrite wp_ret. split_and!; [done|done| |].
      * eapply (op_ok_wake s s1 s' o); try done; [by apply with_sync_same_shape; [|rewrite Ex]|].
        intros t Hb. apply with_sync_blocked; [done| |done]. unfold except. by rewrite Z.eqb_refl.
      * intros t Hu. destruct Hp as (_ & _ & Hun). rewrite Hun; [done|].
        unfold untouched, s1. by rewrite E2, E3.
  - rewrite wp_bind. unfold put_obj. rewrite wp_modify, wp_ret.
    set (y := Semaphore (SemaphoreSync (sem_count m + count) (sem_max m))). fold (with_sync o y x s).
    destruct (Hviews y) as (E1 & E2 & E3). split_and!; [done|done| |done].
    apply op_ok_same; try done; [apply Hwfs; lia|by apply with_sync_same_shape; [|rewrite Ex]|]. intros t Hb. apply with_sync_blocked; [done| |done].
    intros _ _. rewrite Ex. cbn. unfold semaphore_sync_signaled. lia.
Qed.

(** A mutex that its owner gives up for good. *)
Definition released (o t : Z) (m : mutex_sync) (x : object) (th : thread) (s : sync_state) : sync_state :=
  with_sync o (Mutex (MutexSync None 0 (mtx_abandoned m))) x
    (on_threads (<[t := set_mutexes (filter (.≠ o) (th_mutexes th)) th]>) s).

Lemma released_wf o t m x th s :
  wf s → s_objects s !! o = Some x → o_sync x = Mutex m → mtx_owner m = Some t → s_threads s !! t = Some th →
  wf (released o t m x th s).
Proof.
  intros [Hl Hs] Ho Ex Hown Ht. pose proof (sy_object _ _ Hs o x Ho) as Hm. unfold sync_ok in Hm.
  rewrite Ex, Hown in Hm. destruct Hm as (Hc & Hlen & _).
  assert (Es : stacks (released o t m x th s) = stacks s)
    by (unfold stacks, released; cbn; by apply fmap_insert_same with (a := th)).
  destruct (with_sync_views o (Mutex (MutexSync None 0 (mtx_abandoned m))) x s Ho) as (_ & _ & Eq).
  split; [by rewrite Es; change (queues (released o t m x th s)) with (queues (with_sync o (Mutex (MutexSync None 0 (mtx_abandoned m))) x s)); rewrite Eq|].
  split.
  - intros o' x'. cbn. intros [[<- <-]|[Hne Hx]]%lookup_insert_Some; [unfold sync_ok; cbn; lia|].
    pose proof (sy_object _ _ Hs o' x' Hx) as K. unfold sync_ok in *. destruct (o_sync x') as [|?|m']; [done|done|].
    destruct K as (? & ? & K). split_and!; [done|done|]. destruct (mtx_owner m') as [t'|]; [|done].
    destruct K as [? (th' & Ht' & Hin)]. split; [done|]. cbn. rewrite lookup_insert. case_decide; [|by exists th'].
    subst t'. assert (th' = th) as -> by congruence. eexists. split; [done|]. cbn. by apply list_elem_of_filter.
  - intros t' th'. cbn. intros [[<- <-]|[Hne Ht']]%lookup_insert_Some.
    + destruct (sy_mutexes _ _ Hs t th Ht) as [Hnd Hm]. cbn. split; [by apply NoDup_filter|].
      intros o' [Hne Hin]%list_elem_of_filter. destruct (Hm o' Hin) as (x' & m' & Hx' & ? & ?).
      exists x', m'. cbn. by rewrite lookup_insert_ne.
    + destruct (sy_mutexes _ _ Hs t' th' Ht') as [Hnd Hm]. split; [done|]. intros o' Hin.
      destruct (Hm o' Hin) as (x' & m' & Hx' & Em' & Ho'). exists x', m'. cbn.
      rewrite lookup_insert_ne; [done|]. intros <-. congruence.
Qed.

Lemma do_release_ok o t count s wd x m :
  wf s → s_objects s !! o = Some x → o_sync x = Mutex m → ready s o →
  (mtx_owner m = Some t → 0 < count ≤ mtx_count m) →
  wp (do_release o t count) s wd (λ r s' wd',
    if bool_decide (mtx_owner m = Some t) then
      wd' = wd ∧ r = true ∧ op_ok s s' ∧ (∀ t', untouched s o t' → stacks s' !! t' = stacks s !! t') ∧
      (untouched s o t → ∀ th, s_threads s !! t = Some th → count = mtx_count m →
         s_threads s' !! t = Some (set_mutexes (filter (.≠ o) (th_mutexes th)) th))
    else r = false ∧ s' = s ∧ wd' = World STATUS_MUTANT_NOT_OWNED (w_mem wd)).
Proof.
  intros Hwf Ho Ex Hr Hcount. pose proof Hwf as [_ Hs]. pose proof (sy_object _ _ Hs o x Ho) as Hm.
  unfold sync_ok in Hm. rewrite Ex in Hm. destruct Hm as (Hc & Hlen & Hown).
  unfold do_release. rewrite wp_bind. eapply wp_read_at; [done|]. rewrite Ex.
  case_bool_decide as Hmine.
  2: { rewrite orb_true_r. wp_run. done. }
  rewrite Hmine in Hown. destruct Hown as [Hpos (th & Ht & Hin)]. specialize (Hcount Hmine). cbn [negb].
  replace (mtx_count m =? 0) with false by lia. cbn [orb]. rewrite u32_small by lia.
  destruct (Z.eqb_spec (mtx_count m - count) 0) as [E0|E0].
  - rewrite E0, wp_bind. eapply wp_read_at; [done|]. unfold put_thread, put_obj. rewrite wp_bind, wp_modify, wp_bind, wp_modify.
    change (on_objects _ _) with (released o t m x th s). set (s1 := released o t m x th s).
    assert (Hwf1 : wf s1) by by apply released_wf.
    assert (Es : stacks s1 = stacks s) by (unfold stacks, s1; cbn; by apply fmap_insert_same with (a := th)).
    assert (Est : statics s1 = statics s) by (unfold statics, s1; cbn; by apply fmap_insert_same with (a := th)).
    assert (Eq : queues s1 = queues s) by apply (with_sync_views o _ x s Ho).
    assert (Hb : ∀ t', blocked s all_objects t' → blocked s1 (except o) t').
    { intros t' Hb th' w rest wt Ht' Hth' Hw. cbn in Ht', Hw.
      assert (∃ th0, s_threads s !! t' = Some th0 ∧ th_wait th0 = w :: rest ∧ same_static th0 th') as (th0 & Ht0 & Hth0 & Hss).
      { apply lookup_insert_Some in Ht' as [[<- <-]|[_ Ht']]; [by exists th|by exists th']. }
      eapply (check_wait_with_mono (λ o, all_objects o && object_signaled s t' o) _ s _ th0 th' wt wt);
        [done|done|done| |by eapply Hb].
      intros o' _ [Hx Hsig]%andb_true_iff. unfold s1, released in Hsig. rewrite with_sync_signaled in Hsig.
      unfold except in Hx. apply negb_true_iff in Hx. rewrite Hx in Hsig. done. }
    rewrite wp_bind. eapply wp_mono; [eapply (wake_up_ok o _ s1 wd); [done|apply lookup_insert_eq| |by left]|].
    + intros t'. destruct (Hr t') as [Hb'|Hu]; [left; auto|right]. unfold untouched. by rewrite Eq.
    + intros _ s' wd' [-> Hp]. rewrite wp_ret. assert (Hk : ∀ o', shape s1 o' = shape s o') by (by apply (with_sync_same_shape s o _ x); [|rewrite Ex]).
      split_and!; [done|done|by eapply (op_ok_wake s s1 s' o)| |].
      { intros t' Hu. destruct Hp as (_ & _ & Hun). rewrite <- Es. unfold stacks. rewrite !lookup_fmap.
        rewrite Hun; [done|]. unfold untouched. by rewrite Eq. }
      intros Hu th' Ht' _. destruct Hp as (_ & _ & Hun). rewrite Hun; [|unfold untouched; by rewrite Eq].
      cbn. rewrite lookup_insert_eq. congruence.
  - rewrite wp_bind. unfold put_obj. rewrite wp_modify, wp_ret.
    set (y := Mutex (MutexSync (mtx_owner m) (mtx_count m - count) (mtx_abandoned m))). fold (with_sync o y x s).
    destruct (with_sync_views o y x s Ho) as (E1 & E2 & E3).
    split_and!; [done|done| |done|lia]. apply op_ok_same; try done.
    + apply with_sync_wf; [done|done|by rewrite Ex|]. unfold sync_ok. cbn. rewrite Hmine.
      split_and!; [lia|lia|lia|]. by exists th.
    + by apply with_sync_same_shape; [|rewrite Ex].
    + intros t' Hb. apply with_sync_blocked; [done| |done]. intros _. rewrite Ex. cbn. unfold mutex_sync_signaled. cbn.
      rewrite Hmine. replace (mtx_count m - count =? 0) with false by lia. cbn. intros ->. apply orb_true_r.
Qed.

(** ** Settled states *)

Lemma op_ok_settled s s' : op_ok s s' → settled s → settled s'.
Proof. intros (_ & _ & _ & _ & _ & _ & H) Hs t. by apply H, Hs. Qed.

Lemma settled_ready s o : settled s → ready s o.
Proof. intros H t. left. apply H. Qed.

Lemma op_ok_trans s1 s2 s3 : op_ok s1 s2 → op_ok s2 s3 → op_ok s1 s3.
Proof.
  intros (W1 & A1 & (B1 & B2 & B3) & V1 & D1 & T1 & K1) (W2 & A2 & (B4 & B5 & B6) & V2 & D2 & T2 & K2).
  split_and!; [done|congruence|split_and!; congruence|by etransitivity|congruence| |auto].
  intros t l (l0 & l' & -> & Hl')%T1. destruct (T2 t l' Hl') as (l1 & l2 & -> & Hl2).
  exists (l0 ++ l1), l2. split; [|done]. by rewrite app_assoc.
Qed.

(** ** Waiting *)

Lemma blocked_carry s s' mask t :
  stacks s' !! t = stacks s !! t → statics s' !! t = statics s !! t → same_env s s' →
  (∀ o, object_signaled s' t o = true → object_signaled s t o = true) →
  (∀ w rest, stacks s !! t = Some (w :: rest) → wviews s' !! w = wviews s !! w) →
  blocked s mask t → blocked s' mask t.
Proof.
  intros Es Est Ee Hsig Hv Hb th' w rest wt' Ht' Hth' Hw'.
  pose proof (stack_of s' t th' Ht') as Hs'. rewrite Es, Hth' in Hs'. specialize (Hv w rest Hs').
  unfold stacks in Hs'. rewrite lookup_fmap in Hs'. destruct (s_threads s !! t) as [th|] eqn:Ht; [|done]. injection Hs' as Hth.
  unfold wviews in Hv. rewrite !lookup_fmap, Hw' in Hv. destruct (s_waits s !! w) as [wt|] eqn:Hw; [|done].
  unfold statics in Est. rewrite !lookup_fmap, Ht', Ht in Est. injection Est as ? ? ? ? ?.
  apply (check_wait_with_mono (λ o, mask o && object_signaled s t o) _ s s' th th' wt wt').
  - done.
  - split_and!; congruence.
  - unfold same_wait. cbn in Hv. congruence.
  - intros o _ [Hm Ho]%andb_true_iff. apply andb_true_iff. auto.
  - by eapply Hb.
Qed.

(** The entries of a new wait in the queue of [o]. *)
Fixpoint new_entries (w : Z) (i : nat) (objs : list Z) (o : Z) : list (Z * nat) :=
  match objs with
  | [] => []
  | a :: objs' => (if a =? o then [(w, i)] else []) ++ new_entries w (S i) objs' o
  end.

Lemma new_entries_spec w i objs o e :
  e ∈ new_entries w i objs o ↔ e.1 = w ∧ ∃ k, e.2 = (i + k)%nat ∧ objs !! k = Some o.
Proof.
  revert i. induction objs as [|a objs IH]; intros i; cbn [new_entries].
  { split; [set_solver|]. intros (_ & k & _ & Hk). done. }
  rewrite elem_of_app, IH. destruct e as [w' j]; cbn [fst snd]. split.
  - intros [Hl|(-> & k & -> & Hk)].
    + destruct (Z.eqb_spec a o) as [->|]; [|set_solver]. apply list_elem_of_singleton in Hl as [= -> ->].
      split; [done|]. exists 0%nat. split; [lia|done].
    + split; [done|]. exists (S k). split; [lia|done].
  - intros (-> & [|k] & -> & Hk).
    + left. injection Hk as ->. rewrite Z.eqb_refl. apply list_elem_of_singleton. f_equal. lia.
    + right. split; [done|]. exists k. split; [lia|done].
Qed.

Lemma new_entries_nodup w i objs o : NoDup (new_entries w i objs o).
Proof.
  revert i. induction objs as [|a objs IH]; intros i; cbn [new_entries]; [constructor|].
  apply NoDup_app. split_and!; [destruct (a =? o); [apply NoDup_singleton|constructor]| |done].
  intros e He [_ (k & Hk & _)]%new_entries_spec. destruct (a =? o); [|set_solver].
  apply list_elem_of_singleton in He as ->. cbn in Hk. lia.
Qed.

Lemma new_entries_length w i objs o : (length (new_entries w i objs o) ≤ length objs)%nat.
Proof.
  revert i. induction objs as [|a objs IH]; intros i; cbn [new_entries]; [done|]. rewrite length_app.
  specialize (IH (S i)). destruct (a =? o); cbn [length]; lia.
Qed.

Lemma add_entries_ok objs w i s wd :
  (∀ o, o ∈ objs → is_Some (s_objects s !! o)) →
  wp (add_entries objs w i) s wd (λ _ s' wd', wd' = wd ∧
    s' = on_objects (map_imap (λ o x, Some (set_queue (o_queue x ++ new_entries w i objs o) x))) s).
Proof.
  revert i s. induction objs as [|o objs IH]; intros i s Hall.
  { cbn. rewrite wp_ret. split; [done|]. destruct s; unfold on_objects; cbn. f_equal. apply map_eq. intros o.
    rewrite map_lookup_imap. destruct (s_objects0 !! o) as [x|]; [|done]. cbn. rewrite app_nil_r. by destruct x. }
  cbn [add_entries]. unfold add_queue. rewrite wp_bind, wp_bind.
  destruct (Hall o ltac:(apply elem_of_cons; auto)) as [x Ho]. eapply wp_read_at; [done|].
  unfold put_obj. rewrite wp_bind, wp_modify, wp_ret. eapply wp_mono; [apply IH|].
  { intros o' Ho'. cbn. rewrite lookup_insert. case_decide; [done|]. apply Hall, elem_of_cons. auto. }
  intros _ s' wd' (-> & ->). split; [done|]. unfold on_objects; cbn. f_equal. apply map_eq. intros o'.
  rewrite !map_lookup_imap, lookup_insert. case_decide as Heq.
  - subst o'. rewrite Ho. cbn. rewrite Z.eqb_refl. unfold set_queue; cbn. by rewrite <- app_assoc.
  - destruct (s_objects s !! o') as [x'|]; [|done]. cbn. replace (o =? o') with false by lia. done.
Qed.

(** The state after a wait [w] was pushed on the stack of its thread. *)
Definition pushed (w : Z) (wt : thread_wait) (s s' : sync_state) : Prop :=
  wf s' ∧ s_waits s !! w = None ∧ s_waits s' = <[w := wt]> (s_waits s) ∧
  (∃ l, stacks s !! w_thread wt = Some l ∧ stacks s' = <[w_thread wt := w :: l]> (stacks s)) ∧
  queues s' = map_imap (λ o q, Some (q ++ new_entries w 0 (w_objs wt) o)) (queues s) ∧
  statics s' = statics s ∧ same_env s s' ∧
  (∀ o, o_sync <$> s_objects s' !! o = o_sync <$> s_objects s !! o).

(** What the objects of a new wait must satisfy. *)
Definition may_wait (s : sync_state) (select : select_opcode) (objs : list Z) : Prop :=
  (∀ o, o ∈ objs → is_Some (s_objects s !! o)) ∧ Z.of_nat (length objs) ≤ MAXIMUM_WAIT_OBJECTS ∧
  (select = SELECT_WAIT_ALL → NoDup objs) ∧
  (∀ o x m, s_objects s !! o = Some x → o_sync x = Mutex m →
     mtx_count m + Z.of_nat (length (o_queue x)) + MAXIMUM_WAIT_OBJECTS < 4294967296).

Lemma linked_push st wv qs t l w wt :
  linked st wv qs → st !! t = Some l → wv !! w = None → w_thread wt = t →
  (∀ o, o ∈ w_objs wt → is_Some (qs !! o)) → (w_select wt = SELECT_WAIT_ALL → NoDup (w_objs wt)) →
  w_count wt ≤ MAXIMUM_WAIT_OBJECTS →
  linked (<[t := w :: l]> st) (<[w := wt]> wv) (map_imap (λ o q, Some (q ++ new_entries w 0 (w_objs wt) o)) qs).
Proof.
  intros [L1 L2 L3] Ht Hw Ewt Hobj Hnd Hcount. split.
  - intros t' l' [[<- <-]|[Hne Hl']]%lookup_insert_Some.
    + destruct (L1 t l Ht) as [Hndl Hin]. split.
      * constructor; [|done]. intros Hwl. destruct (Hin w Hwl) as (? & ? & _). congruence.
      * intros w' [->|Hw']%elem_of_cons; [exists wt; by rewrite lookup_insert_eq|].
        destruct (Hin w' Hw') as (wt' & ? & ?). exists wt'. rewrite lookup_insert_ne by congruence. done.
    + destruct (L1 t' l' Hl') as [Hndl Hin]. split; [done|]. intros w' Hw'.
      destruct (Hin w' Hw') as (wt' & ? & ?). exists wt'. rewrite lookup_insert_ne by congruence. done.
  - intros w' wt' [[<- <-]|[Hne Hw']]%lookup_insert_Some.
    + split_and!; [exists (w :: l); subst t; rewrite lookup_insert_eq; split; [done|apply elem_of_cons; auto]| |done|done].
      intros i o Hi. destruct (Hobj o) as [q Hq]; [by eapply list_elem_of_lookup_2|].
      exists (q ++ new_entries w 0 (w_objs wt) o). rewrite map_lookup_imap, Hq. split; [done|].
      apply elem_of_app. right. apply new_entries_spec. split; [done|]. by exists i.
    + destruct (L2 w' wt' Hw') as ((l' & Hl' & Hin) & Hq & ? & ?). split_and!; [| |done|done].
      * destruct (decide (w_thread wt' = t)) as [E|E].
        -- exists (w :: l). rewrite E, lookup_insert_eq. split; [done|]. apply elem_of_cons. right. congruence.
        -- exists l'. by rewrite lookup_insert_ne by congruence.
      * intros i o Hi. destruct (Hq i o Hi) as (q & Eq & Hin'). exists (q ++ new_entries w 0 (w_objs wt) o).
        rewrite map_lookup_imap, Eq. split; [done|]. apply elem_of_app. auto.
  - intros o q'. rewrite map_lookup_imap. destruct (qs !! o) as [q|] eqn:Eq; [|done]. intros [= <-].
    destruct (L3 o q Eq) as [Hndq Hin]. split.
    + apply NoDup_app. split_and!; [done| |apply new_entries_nodup].
      intros [w' i] Hi [E _]%new_entries_spec. cbn in E. subst w'. destruct (Hin w i Hi) as (? & ? & _). congruence.
    + intros w' i [Hi|[E (k & Ek & Hk)]%new_entries_spec]%elem_of_app.
      * destruct (Hin w' i Hi) as (wt' & ? & ?). exists wt'. by rewrite lookup_insert_ne by congruence.
      * cbn in E, Ek. subst w' i. exists wt. by rewrite lookup_insert_eq.
Qed.

Lemma wait_on_ok select objs flags wh current s wd th :
  wf s → s_threads s !! current = Some th → may_wait s select objs →
  wp (wait_on select objs flags wh current) s wd (λ r s' wd', outcome wd wd' r ∧
    if r then ∃ w, pushed w (ThreadWait current objs flags false select 0 wh false) s s' else s' = s).
Proof.
  intros [Hl Hs] Ht (Hobj & Hlen & Hnd & Hroom). unfold wait_on. rewrite wp_bind. apply wp_mem_alloc_outcome.
  intros [] wd' Ho; cbn [negb]; [|by rewrite wp_ret].
  rewrite wp_bind, wp_get, wp_bind. eapply wp_read_at; [done|]. cbv zeta.
  set (w := new_key (s_waits s)). set (wt := ThreadWait current objs flags false select 0 wh false).
  unfold put_wait, put_thread. rewrite wp_bind, wp_modify, wp_bind, wp_modify, wp_bind.
  eapply wp_mono; [apply add_entries_ok; done|]. intros _ s' wd2 (-> & ->). rewrite wp_ret. split; [done|].
  exists w. assert (Hfresh : s_waits s !! w = None) by apply new_key_fresh.
  set (s' := on_objects _ _).
  assert (Es : stacks s' = <[current := w :: th_wait th]> (stacks s)) by (unfold stacks, s'; cbn; by rewrite fmap_insert).
  assert (Ew : wviews s' = <[w := wait_view wt]> (wviews s)) by (unfold wviews, s'; cbn; by rewrite fmap_insert).
  assert (Eq : queues s' = map_imap (λ o q, Some (q ++ new_entries w 0 objs o)) (queues s)).
  { unfold queues, s'; cbn. apply map_eq. intros o. rewrite lookup_fmap, !map_lookup_imap, lookup_fmap.
    by destruct (s_objects s !! o). }
  split_and!; [split|done|done| |done| |done|].
  - rewrite Es, Ew, Eq. apply (linked_push _ _ _ current (th_wait th) w (wait_view wt)); try done.
    + by apply stack_of.
    + unfold wviews. by rewrite lookup_fmap, Hfresh.
    + intros o Hin. unfold queues. rewrite lookup_fmap. by destruct (Hobj o Hin) as [x ->].
  - split.
    + intros o x'. unfold s'; cbn. rewrite map_lookup_imap. destruct (s_objects s !! o) as [x|] eqn:Hx; [|done]. intros [= <-].
      pose proof (sy_object _ _ Hs o x Hx) as K. unfold sync_ok in *. cbn. destruct (o_sync x) as [|?|m] eqn:Ex; [done|done|].
      destruct K as (? & ? & K). split_and!; [done| |].
      * rewrite length_app. specialize (Hroom o x m Hx Ex). pose proof (new_entries_length w 0 objs o). lia.
      * destruct (mtx_owner m) as [t'|]; [|done]. destruct K as [? (th' & Ht' & Hin)]. split; [done|].
        rewrite lookup_insert. case_decide; [|by exists th']. subst t'. assert (th' = th) as -> by congruence. by eexists.
    + intros t' th'. unfold s'; cbn. intros Ht'.
      assert (∃ th0, s_threads s !! t' = Some th0 ∧ th_mutexes th' = th_mutexes th0) as (th0 & Ht0 & Em).
      { apply lookup_insert_Some in Ht' as [[<- <-]|[_ Ht']]; eauto. }
      rewrite Em. destruct (sy_mutexes _ _ Hs t' th0 Ht0) as [Hndm Hm]. split; [done|]. intros o Hin.
      destruct (Hm o Hin) as (x & m & Hx & Ex & Ho'). unfold owned_by, s'; cbn. rewrite map_lookup_imap, Hx. cbn.
      by eexists _, m.
  - exists (th_wait th). split; [by apply stack_of|done].
  - unfold statics, s'; cbn. by apply fmap_insert_same with (a := th).
  - intros o. unfold s'; cbn. rewrite map_lookup_imap. by destruct (s_objects s !! o).
Qed.

(** A new wait leaves the other threads as they were. *)
Lemma pushed_blocked w wt s s' mask t :
  pushed w wt s s' → t ≠ w_thread wt → blocked s mask t → blocked s' mask t.
Proof.
  intros (Hwf & Hfresh & Ew & (l & Hl & Es) & _ & Est & Ee & Eo) Hne.
  destruct (same_syncs_consumes s s' Est Ee Eo) as (_ & _ & Hsig). apply blocked_carry; try done.
  - by rewrite Es, lookup_insert_ne by done.
  - by rewrite Est.
  - intros o. by rewrite Hsig.
  - intros w' rest Hs'. unfold wviews. rewrite Ew, fmap_insert.
    assert (w' ≠ w); [|by rewrite lookup_insert_ne by done]. intros ->.
    assert (Hs2 : stacks s' !! t = Some (w :: rest)) by (by rewrite Es, lookup_insert_ne by done).
    destruct Hwf as [Hlk _]. destruct (lk_stack _ _ _ Hlk t _ Hs2) as [_ Hin].
    destruct (Hin w ltac:(apply elem_of_cons; auto)) as (wv & Hwv & Et).
    unfold wviews in Hwv. rewrite Ew, fmap_insert, lookup_insert_eq in Hwv. injection Hwv as <-. cbn in Et. congruence.
Qed.

Lemma blocked_nil s mask t : stacks s !! t = Some [] → blocked s mask t.
Proof. intros Hs th w rest wt Ht Hth _. pose proof (stack_of s t th Ht). congruence. Qed.

(** Filling in the cookie or the timeout of a wait. *)
Lemma put_wait_wf s w wt wt' :
  wf s → s_waits s !! w = Some wt → wait_view wt' = wait_view wt → wf (on_waits (<[w := wt']>) s).
Proof.
  intros [Hl Hs] Hw Hv. destruct (put_wait_same_views s w wt wt' Hw Hv) as (E1 & E2 & E3). split.
  - by rewrite E1, E2, E3.
  - by eapply syncs_ok_threads.
Qed.

Lemma put_wait_blocked s w wt wt' mask t :
  s_waits s !! w = Some wt → wait_view wt' = wait_view wt → blocked s mask t → blocked (on_waits (<[w := wt']>) s) mask t.
Proof.
  intros Hw Hv. destruct (put_wait_same_views s w wt wt' Hw Hv) as (E1 & E2 & E3). apply blocked_carry; try done.
  intros. by rewrite E2.
Qed.

Lemma sat_objects_error wt status : w_count wt ≤ status → sat_objects wt status = [].
Proof. intros. unfold sat_objects. by replace (status <? w_count wt) with false by lia. Qed.

Lemma ended_blocked t w rest s s' mask t' :
  stacks s !! t = Some (w :: rest) → ended t w rest s s' → t' ≠ t → blocked s mask t' → blocked s' mask t'.
Proof. intros Hs He. apply woken_blocked. by eapply ended_woken. Qed.

(** The result of a wait request: the current thread has the waits it had before
    and no thread sleeps with a satisfied wait; or the new wait is on top, with the
    cookie of the request. *)
Definition select_post (cookie current : Z) (l : list Z) (r : bool) (s' : sync_state) (wd' : world) : Prop :=
  wf s' ∧ settled s' ∧
  if r then stacks s' !! current = Some l
  else w_error wd' = STATUS_PENDING ∧ ∃ w wt, stacks s' !! current = Some (w :: l) ∧
         s_waits s' !! w = Some wt ∧ w_cookie wt = cookie.

Lemma end_wait_select t status s wd w l cookie :
  wf s → stacks s !! t = Some (w :: l) → (∀ t', t' ≠ t → blocked s all_objects t') →
  (∀ s', ended t w l s s' → blocked s' all_objects t) → 0 ≤ status →
  (∀ wt, s_waits s !! w = Some wt → ∀ o, o ∈ sat_objects wt status → object_signaled s t o = true) →
  wp (end_wait t status) s wd (λ _ s' wd', ∀ e, select_post cookie t l true s' (World e (w_mem wd'))).
Proof.
  intros Hwf Hs Hoth Hout H0 Hsat. pose proof Hs as Hs'. unfold stacks in Hs'. rewrite lookup_fmap in Hs'.
  destruct (s_threads s !! t) as [th|] eqn:Ht; [|done]. injection Hs' as Hth.
  destruct (top_wait s t th w l Hwf Ht Hth) as (wt & Hw & _).
  eapply wp_mono; [eapply end_wait_ok; eauto|]. intros r s' wd' (-> & Hend & _) e.
  split_and!; [apply Hend| |].
  - intros t'. destruct (decide (t' = t)) as [->|]; [auto|]. eapply ended_blocked; eauto.
  - destruct Hend as (_ & _ & -> & _). by rewrite lookup_insert_eq.
Qed.

Lemma select_post_world cookie t l s wd wd' :
  select_post cookie t l true s wd → select_post cookie t l true s wd'.
Proof. done. Qed.

Lemma select_finish_ok cookie current s wd w l :
  wf s → stacks s !! current = Some (w :: l) → (∀ t', t' ≠ current → blocked s all_objects t') →
  (∀ s', ended current w l s s' → blocked s' all_objects current) →
  wp (select_finish cookie current) s wd (λ r s' wd', select_post cookie current l r s' wd').
Proof.
  intros Hwf Hs Hoth Hout. pose proof Hs as Hs'. unfold stacks in Hs'. rewrite lookup_fmap in Hs'.
  destruct (s_threads s !! current) as [th|] eqn:Ht; [|done]. injection Hs' as Hth.
  destruct (top_wait s current th w l Hwf Ht Hth) as (wt & Hw & Ewt & Hcount).
  unfold select_finish. rewrite wp_bind. eapply wp_check_wait; [done..|].
  set (v := check_wait_with (object_signaled s current) s th wt).
  destruct (Z.eqb_spec v (-1)) as [Hv|Hv]; cbn [negb].
  2: { destruct (check_wait_result _ _ _ _ Hcount Hv) as [Hv0 Hsat]. rewrite wp_bind.
       eapply wp_mono; [eapply end_wait_select; eauto|].
       { intros wt' Hw'. assert (wt' = wt) as -> by congruence. exact Hsat. }
       intros r s' wd' Hp. rewrite wp_bind, wp_set_error, wp_ret. apply Hp. }
  rewrite wp_bind. eapply wp_read_at; [done|]. rewrite Hth, wp_bind. eapply wp_read_at; [done|].
  assert (Hcur : blocked s all_objects current).
  { intros th' w' r' wt' Ht' Hth' Hw'. assert (th' = th) as -> by congruence. assert (w' = w) as -> by congruence.
    assert (wt' = wt) as -> by congruence. rewrite <- Hv. by apply check_wait_with_ext. }
  assert (Hpend : ∀ s1 wt1 wd1, s1 = s ∨ s1 = on_waits (<[w := set_user true wt]>) s → s_waits s1 !! w = Some wt1 →
    wait_view wt1 = wait_view wt → wf s1 → (∀ t, blocked s1 all_objects t) → stacks s1 = stacks s →
    wp (let* wt0 := read_wait w in put_wait w (set_cookie cookie wt0) >> set_error STATUS_PENDING >> ret false)
       s1 wd1 (λ r s' wd', select_post cookie current l r s' wd')).
  { intros s1 wt1 wd1 _ Hw1 Hv1 Hwf1 Hb1 Hs1. rewrite wp_bind. eapply wp_read_at; [done|].
    unfold put_wait. rewrite wp_bind, wp_modify, wp_bind, wp_set_error, wp_ret.
    split_and!; [by eapply put_wait_wf|intros t; by eapply put_wait_blocked|done|].
    exists w, (set_cookie cookie wt1). destruct (put_wait_same_views s1 w wt1 (set_cookie cookie wt1) Hw1 eq_refl) as (E1 & _).
    rewrite E1, Hs1. split_and!; [done|cbn; apply lookup_insert_eq|done]. }
  assert (Hall : ∀ t, blocked s all_objects t).
  { intros t. destruct (decide (t = current)) as [->|]; auto. }
  rewrite wp_bind. destruct (negb (w_when wt =? TIMEOUT_INFINITE)).
  - rewrite wp_bind. apply wp_mem_alloc_outcome. intros [] wd1 Ho1; rewrite wp_bind.
    + unfold put_wait at 1. rewrite wp_modify, wp_ret. cbn [negb].
      eapply Hpend; [by right|cbn; apply lookup_insert_eq|done| | |].
      * by eapply put_wait_wf.
      * intros t. by eapply put_wait_blocked.
      * by apply (put_wait_same_views s w wt).
    + rewrite wp_get_error. destruct Ho1 as [-> _]. rewrite wp_bind.
      eapply wp_mono; [eapply end_wait_select; eauto|].
      * done.
      * intros wt' Hw' o. assert (wt' = wt) as -> by congruence.
        rewrite sat_objects_error; [set_solver|]. unfold MAXIMUM_WAIT_OBJECTS, STATUS_NO_MEMORY in *. lia.
      * intros r s' wd' Hp. rewrite !wp_ret. cbn [negb]. rewrite wp_ret. destruct wd'. apply Hp.
  - rewrite wp_ret. cbn [negb]. eapply Hpend; [by left|done|done|done|done|done].
Qed.

Lemma op_ok_refl s : wf s → op_ok s s.
Proof. intros Hwf. by apply op_ok_same. Qed.

Lemma object_signal_ok o access current s wd :
  wf s → is_Some (s_objects s !! o) → ready s o →
  wp (object_signal o access current) s wd (λ r s' wd', op_ok s s' ∧
    (∀ t, untouched s o t → stacks s' !! t = stacks s !! t) ∧
    (r = false → MAXIMUM_WAIT_OBJECTS ≤ w_error wd')).
Proof.
  intros Hwf [x Ho] Hr. unfold object_signal, event_signal, semaphore_signal, mutex_signal. rewrite wp_bind. eapply wp_read_at; [done|].
  pose proof Hwf as [_ Hs]. pose proof (sy_object _ _ Hs o x Ho) as Hm. unfold sync_ok in Hm.
  assert (Hdeny : wp (set_error STATUS_ACCESS_DENIED >> ret false) s wd (λ r s' wd', op_ok s s' ∧
    (∀ t, untouched s o t → stacks s' !! t = stacks s !! t) ∧ (r = false → MAXIMUM_WAIT_OBJECTS ≤ w_error wd'))).
  { rewrite wp_bind, wp_set_error, wp_ret. split_and!; [by apply op_ok_refl|done|]. intros _. cbn. done. }
  assert (Hstk : ∀ s', (∀ t, untouched s o t → s_threads s' !! t = s_threads s !! t) →
    ∀ t, untouched s o t → stacks s' !! t = stacks s !! t).
  { intros s' H t Hu. unfold stacks. by rewrite !lookup_fmap, H. }
  destruct (o_sync x) as [e|m|m] eqn:Ex.
  - destruct (has _ _); [|done]. eapply wp_mono; [by eapply event_sync_signal_ok|].
    intros r s' wd' (-> & -> & Hop & Hun). split_and!; [done|by apply Hstk|done].
  - destruct (has _ _); [|done]. eapply wp_mono; [eapply release_semaphore_ok; [done|done|done|done|lia]|].
    intros r s' wd'. cbn beta. destruct (_ <=? _).
    + intros (-> & -> & Hop & Hun). split_and!; [done|by apply Hstk|done].
    + intros (-> & -> & ->). split_and!; [by apply op_ok_refl|done|]. intros _. cbn. done.
  - destruct (has _ _); [|done]. eapply wp_mono; [eapply do_release_ok; [done|done|done|done|]|].
    + intros Hown. rewrite Hown in Hm. lia.
    + intros r s' wd'. cbn beta. case_bool_decide.
      * intros (-> & -> & Hop & Hun & _). split_and!; [done|done|done].
      * intros (-> & -> & ->). split_and!; [by apply op_ok_refl|done|]. intros _. cbn. done.
Qed.

Section SelectOk.
Context `{HandleLookup}.

(** The objects of the handles of a wait, if all of them resolve. *)
Fixpoint handle_objs (handles : list Z) : option (list Z) :=
  match handles with
  | [] => Some []
  | h :: handles' =>
      match lookup_handle h SYNCHRONIZE with
      | inl _ => None
      | inr o => match handle_objs handles' with Some l => Some (o :: l) | None => None end
      end
  end.

Lemma get_handle_objs_ok handles s wd Q :
  (∀ wd', Q (handle_objs handles) s wd') → wp (get_handle_objs handles) s wd Q.
Proof.
  revert wd Q. induction handles as [|h handles IH]; intros wd Q HQ; cbn [get_handle_objs].
  { rewrite wp_ret. apply HQ. }
  unfold get_handle_obj. rewrite wp_bind.
  cbn [handle_objs] in HQ. destruct (lookup_handle h SYNCHRONIZE) as [e|o].
  - rewrite wp_bind, wp_set_error, !wp_ret. apply HQ.
  - rewrite wp_ret, wp_bind. apply IH. intros wd'. rewrite wp_ret.
    specialize (HQ wd'). by destruct (handle_objs handles).
Qed.

(** What the server assumes of a [select] request: see [may_wait] for the objects;
    the object signaled by [SELECT_SIGNAL_AND_WAIT] is not the one waited for and
    the thread has no other wait; error codes are not indexes of objects. *)
Definition select_allowed (s : sync_state) (op : select_opcode) (handles : list Z) (signal current : Z) : Prop :=
  is_Some (s_threads s !! current) ∧
  (may_wait s op [] ∧ ∀ objs, handle_objs handles = Some objs → may_wait s op objs) ∧
  (∀ h a e, lookup_handle h a = inl e → MAXIMUM_WAIT_OBJECTS ≤ e) ∧
  (op = SELECT_SIGNAL_AND_WAIT → Z.of_nat (length handles) ≤ MAXIMUM_WAIT_OBJECTS ∧
     stacks s !! current = Some [] ∧
     ∀ o, lookup_handle signal 0 = inr o → is_Some (s_objects s !! o) ∧
       ∀ objs, handle_objs handles = Some objs → o ∉ objs).

Lemma wait_on_handles_ok op handles flags wh current s wd :
  wf s → settled s → is_Some (s_threads s !! current) → Z.of_nat (length handles) ≤ MAXIMUM_WAIT_OBJECTS →
  (∀ objs, handle_objs handles = Some objs → may_wait s op objs) →
  wp (wait_on_handles op handles flags wh current) s wd (λ r s' wd',
    if r then ∃ objs w, handle_objs handles = Some objs ∧
      pushed w (ThreadWait current objs flags false op 0 wh false) s s'
    else s' = s).
Proof.
  intros Hwf Hset [th Ht] Hlen Hmay. unfold wait_on_handles. rewrite wp_bind, wp_assert. split; [lia|].
  rewrite wp_bind. apply get_handle_objs_ok. intros wd1. destruct (handle_objs handles) as [objs|] eqn:Eo.
  - eapply wp_mono; [by eapply wait_on_ok; eauto|]. intros r s' wd' [_ Hr]. destruct r; [|done].
    destruct Hr as [w Hp]. by exists objs, w.
  - by rewrite wp_ret.
Qed.

(** A wait pushed on a settled state can be finished. *)
Lemma select_finish_pushed cookie s s1 wd w wt l :
  settled s → pushed w wt s s1 → stacks s !! w_thread wt = Some l →
  wp (select_finish cookie (w_thread wt)) s1 wd (λ r s' wd', select_post cookie (w_thread wt) l r s' wd').
Proof.
  intros Hset Hp Hl. pose proof Hp as (Hwf & Hfresh & Ew & (l' & Hl' & Es) & _ & Est & Ee & Eo).
  assert (l' = l) as -> by congruence. set (t := w_thread wt) in *.
  assert (Hs1 : stacks s1 !! t = Some (w :: l)) by (by rewrite Es, lookup_insert_eq).
  apply (select_finish_ok cookie t s1 wd w l); [done|done| |].
  - intros t' Hne. by eapply pushed_blocked.
  - intros s' (Hwf' & (C1 & (C2 & C3 & C4) & C5 & _) & Es' & Ew' & _).
    destruct (same_syncs_consumes s s1 Est Ee Eo) as (_ & _ & Hsig). destruct Ee as (E1 & E2 & E3).
    apply (blocked_carry s s' all_objects t); [by rewrite Es', lookup_insert_eq|by rewrite C1, Est|split_and!; congruence| | |apply Hset].
    + intros o Ho. rewrite <- Hsig. auto.
    + intros w' rest Hs. assert (Hw' : w' ≠ w).
      { assert (E : l = w' :: rest) by congruence. rewrite E in Hs1. destruct Hwf as [Hlk _].
        destruct (lk_stack _ _ _ Hlk t _ Hs1) as [Hnd _]. apply NoDup_cons in Hnd as [Hnd _]. intros ->. set_solver. }
      rewrite Ew', lookup_delete_ne by congruence. unfold wviews. by rewrite Ew, fmap_insert, lookup_insert_ne by congruence.
Qed.

Lemma select_signal_and_wait cookie signal s s1 wd w wt :
  settled s → pushed w wt s s1 → stacks s !! w_thread wt = Some [] →
  (∀ h a e, lookup_handle h a = inl e → MAXIMUM_WAIT_OBJECTS ≤ e) →
  (∀ o, lookup_handle signal 0 = inr o → is_Some (s_objects s !! o) ∧ o ∉ w_objs wt) →
  wp (let* ok := (if negb (signal =? 0) then signal_object signal (w_thread wt) else ret true) in
      if negb ok then let* e := get_error in end_wait (w_thread wt) e >> ret true else
      let* th := read_thread (w_thread wt) in
      match th_wait th with
      | [] => if negb (signal =? 0) then ret true else crash
      | _ :: _ => select_finish cookie (w_thread wt)
      end) s1 wd (λ r s' wd', select_post cookie (w_thread wt) [] r s' wd').
Proof.
  intros Hset Hp Hl Herr Hsig. pose proof Hp as (Hwf & Hfresh & Ew & (l' & Hl' & Es) & _ & Est & Ee & Eo).
  assert (l' = []) as -> by congruence. set (t := w_thread wt) in *.
  assert (Hs1 : stacks s1 !! t = Some [w]) by (by rewrite Es, lookup_insert_eq).
  assert (Hoth : ∀ t', t' ≠ t → blocked s1 all_objects t') by (intros; by eapply pushed_blocked).
  (* the state after signaling *)
  assert (Hrest : ∀ ok s2 wd2, op_ok s1 s2 → stacks s2 !! t = Some [w] → (ok = false → MAXIMUM_WAIT_OBJECTS ≤ w_error wd2) →
    wp (if negb ok then let* e := get_error in end_wait t e >> ret true else
      let* th := read_thread t in
      match th_wait th with
      | [] => if negb (signal =? 0) then ret true else crash
      | _ :: _ => select_finish cookie t
      end) s2 wd2 (λ r s' wd', select_post cookie t [] r s' wd')).
  { intros ok s2 wd2 (Hwf2 & _ & _ & V2 & _ & _ & Hb2) Hs2 He. destruct ok; cbn [negb].
    - pose proof Hs2 as Hs2'. unfold stacks in Hs2'. rewrite lookup_fmap in Hs2'.
      destruct (s_threads s2 !! t) as [th|] eqn:Ht; [|done]. injection Hs2' as Hth.
      rewrite wp_bind. eapply wp_read_at; [done|]. rewrite Hth.
      apply (select_finish_ok cookie t s2 wd2 w []); [done|done|auto|].
      intros s' (_ & _ & Es' & _). apply blocked_nil. by rewrite Es', lookup_insert_eq.
    - rewrite wp_bind, wp_get_error, wp_bind. specialize (He eq_refl). unfold MAXIMUM_WAIT_OBJECTS in He.
      eapply wp_mono; [apply (end_wait_select t (w_error wd2) s2 wd2 w [] cookie); [done|done|auto| |lia|]|].
      + intros s' (_ & _ & Es' & _). apply blocked_nil. by rewrite Es', lookup_insert_eq.
      + intros wt' Hw' o. pose proof Hs2 as Hs2'. unfold stacks in Hs2'. rewrite lookup_fmap in Hs2'.
        destruct (s_threads s2 !! t) as [th|] eqn:Ht; [|done]. injection Hs2' as Hth.
        destruct (top_wait s2 t th w [] Hwf2 Ht Hth) as (wt2 & Hw2 & _ & Hc). assert (wt2 = wt') as -> by congruence.
        rewrite sat_objects_error; [set_solver|]. unfold MAXIMUM_WAIT_OBJECTS in Hc. lia.
      + intros r s' wd' Hq. rewrite wp_ret. destruct wd'. apply Hq. }
  rewrite wp_bind. destruct (Z.eqb_spec signal 0); cbn [negb] in *.
  { rewrite wp_ret. apply Hrest; [by apply op_ok_refl|done|done]. }
  unfold signal_object, get_handle_obj. rewrite wp_bind. destruct (lookup_handle signal 0) as [e|o] eqn:Eh.
  { rewrite wp_bind, wp_set_error, wp_ret, wp_ret. apply Hrest; [by apply op_ok_refl|done|]. intros _. cbn. by eapply Herr. }
  rewrite wp_ret. destruct (Hsig o eq_refl) as [[x Ho] Hnin].
  assert (Hunt : untouched s1 o t).
  { intros q w' i wv Hq Hin Hw' Et. destruct Hwf as [Hlk _].
    destruct (lk_wait _ _ _ Hlk w' wv Hw') as ((l & Hll & Hwl) & _). rewrite Et in Hll.
    assert (l = [w]) as -> by congruence. apply list_elem_of_singleton in Hwl as ->.
    destruct (lk_queue _ _ _ Hlk o q Hq) as [_ Hqw]. destruct (Hqw w i Hin) as (wv' & Hwv' & Hi).
    assert (wv' = wv) as -> by congruence. unfold wviews in Hw'. rewrite Ew, fmap_insert, lookup_insert_eq in Hw'.
    injection Hw' as <-. cbn in Hi. by apply Hnin, list_elem_of_lookup_2 with i. }
  eapply wp_mono; [apply object_signal_ok; [done| |]|].
  - specialize (Eo o). rewrite Ho in Eo. destruct (s_objects s1 !! o); [eauto|done].
  - intros t'. destruct (decide (t' = t)) as [->|]; [by right|left; auto].
  - intros ok s2 wd2 (Hop & Hst & He). apply Hrest; [done|by rewrite Hst|done].
Qed.
End SelectOk.

(** ** The clock

    When time passes, waits expire before the server calls the functions of their
    timeouts. A wait that has expired and has not been ended is not settled, but
    what its thread waits for is not there either. *)

Definition set_clock (now monotonic : Z) : Y unit :=
  modify (λ s, SyncState (s_objects s) (s_waits s) (s_threads s) (s_process_suspend s) now monotonic).

(** No thread sleeps while what it waits for is there. *)
Definition unsatisfied (s : sync_state) : Prop :=
  ∀ t th w rest wt, s_threads s !! t = Some th → th_wait th = w :: rest → s_waits s !! w = Some wt →
    check_wait_with (object_signaled s t) s th wt = -1 ∨ check_wait_with (object_signaled s t) s th wt = STATUS_TIMEOUT.

(** No expired wait remains to be ended. *)
Definition timely (s : sync_state) : Prop :=
  ∀ t th w rest wt, s_threads s !! t = Some th → th_wait th = w :: rest → s_waits s !! w = Some wt →
    check_wait_with (object_signaled s t) s th wt ≠ STATUS_TIMEOUT.

(** The state at a time when no wait has expired. *)
Definition untimed (s : sync_state) : sync_state :=
  SyncState (s_objects s) (s_waits s) (s_threads s) (s_process_suspend s) (-1) 0.

Lemma wf_time s n m : wf s → wf (SyncState (s_objects s) (s_waits s) (s_threads s) (s_process_suspend s) n m).
Proof. intros [Hl Hs]. split; [exact Hl|]. by eapply syncs_ok_threads. Qed.

Lemma check_wait_untimed sig s th wt :
  w_count wt ≤ MAXIMUM_WAIT_OBJECTS →
  check_wait_with sig (untimed s) th wt = -1 ↔ check_wait_with sig s th wt = -1 ∨ check_wait_with sig s th wt = STATUS_TIMEOUT.
Proof.
  intros Hc. unfold check_wait_with, MAXIMUM_WAIT_OBJECTS, w_count in *.
  replace (expired (untimed s) wt) with false.
  2: { unfold expired, untimed. cbn. destruct (Z.leb_spec 0 (w_when wt)), (Z.leb_spec (w_when wt) (-1)),
         (Z.ltb_spec (w_when wt) 0), (Z.leb_spec (- w_when wt) 0); cbn; lia. }
  change (is_thread_suspended (untimed s) th) with (is_thread_suspended s th).
  unfold STATUS_TIMEOUT, STATUS_KERNEL_APC, STATUS_USER_APC.
  destruct (_ && th_system_apc th); [lia|]. destruct (is_thread_suspended s th); [lia|].
  destruct (if bool_decide _ then _ else _) as [i|] eqn:E.
  - assert (0 ≤ i < 64 ∨ i = 0); [|lia]. case_bool_decide.
    + destruct (forallb sig (w_objs wt)); [|done]. injection E. lia.
    + apply first_signaled_range in E. lia.
  - destruct (_ && th_user_apc th); [lia|]. destruct (expired s wt); lia.
Qed.

Lemma unsatisfied_untimed s : wf s → unsatisfied s ↔ settled (untimed s).
Proof.
  intros Hwf. split.
  - intros Hu t th w rest wt Ht Hth Hw. destruct (top_wait s t th w rest Hwf Ht Hth) as (wt' & Hw' & _ & Hc).
    assert (wt' = wt) as -> by (cbn in Hw; congruence). apply check_wait_untimed; [done|]. by eapply Hu.
  - intros Hs t th w rest wt Ht Hth Hw. destruct (top_wait s t th w rest Hwf Ht Hth) as (wt' & Hw' & _ & Hc).
    assert (wt' = wt) as -> by congruence. apply check_wait_untimed; [done|]. by apply (Hs t th w rest wt).
Qed.

Lemma settled_unsatisfied s : settled s → unsatisfied s.
Proof. intros Hs t th w rest wt Ht Hth Hw. left. by apply (Hs t th w rest wt). Qed.

Lemma timely_settled s : unsatisfied s → timely s → settled s.
Proof.
  intros Hu Ht t th w rest wt Hth Hst Hw.
  destruct (Hu t th w rest wt Hth Hst Hw); [done|]. by destruct (Ht t th w rest wt Hth Hst Hw).
Qed.

Lemma set_clock_ok now monotonic s wd :
  wf s → unsatisfied s → wp (set_clock now monotonic) s wd (λ _ s' _, wf s' ∧ unsatisfied s').
Proof.
  intros Hwf Hu. unfold set_clock. rewrite wp_modify. set (s' := SyncState _ _ _ _ _ _).
  assert (Hwf' : wf s') by by apply wf_time. split; [done|]. apply unsatisfied_untimed; [done|]. by apply (unsatisfied_untimed s).
Qed.

Lemma woken_untimed t s s' : woken t s s' → woken t (untimed s) (untimed s').
Proof. intros (Hwf & (E1 & (E2 & _) & E4) & Hr). split; [by apply wf_time|]. split; [|exact Hr]. by split. Qed.

Lemma blocked_untimed s t : wf s → blocked s all_objects t → blocked (untimed s) all_objects t.
Proof.
  intros Hwf Hb th w rest wt Ht Hth Hw. destruct (top_wait s t th w rest Hwf Ht Hth) as (wt' & Hw' & _ & Hc).
  assert (wt' = wt) as -> by (cbn in Hw; congruence). apply check_wait_untimed; [done|]. left. by eapply Hb.
Qed.

(** The function of an expired timeout ends the wait if it is on top and its thread
    runs, tells the thread, and lets it go on with the wait below. *)
Lemma thread_timeout_ok w s wd wt :
  wf s → unsatisfied s → s_waits s !! w = Some wt → w_cookie wt ≠ 0 →
  wp (thread_timeout w) s wd (λ _ s' _, wf s' ∧ unsatisfied s').
Proof.
  intros Hwf Hu Hw Hck. set (t := w_thread wt). set (s0 := on_waits (<[w := set_user false wt]>) s).
  assert (Hwf0 : wf s0) by by eapply put_wait_wf.
  assert (Hu0 : settled (untimed s0)).
  { intros t'. apply (put_wait_blocked (untimed s) w wt); [done|done|]. by apply unsatisfied_untimed. }
  assert (Hsame : wf s0 ∧ unsatisfied s0) by (split; [done|by apply unsatisfied_untimed]).
  assert (Hth : ∃ th, s_threads s0 !! t = Some th).
  { destruct Hwf as [Hl _]. destruct (lk_wait _ _ _ Hl w (wait_view wt)) as ((l & Hs & _) & _); [unfold wviews; by rewrite lookup_fmap, Hw|].
    unfold stacks in Hs. rewrite lookup_fmap in Hs. cbn in Hs. fold t in Hs. destruct (s_threads s !! t) eqn:E; [eauto|done]. }
  destruct Hth as [th Hth]. unfold thread_timeout. rewrite wp_bind. eapply wp_read_at; [done|]. cbv zeta. fold t.
  rewrite wp_bind. unfold put_wait. rewrite wp_modify. fold s0. rewrite wp_bind, wp_get, wp_bind. eapply wp_read_at; [done|].
  case_bool_decide as Htop; cbn [negb]; [|by rewrite wp_ret].
  destruct (is_thread_suspended s0 th) eqn:Hsus; [by rewrite wp_ret|].
  destruct (th_wait th) as [|w' rest] eqn:Hst; [done|]. injection Htop as ->.
  assert (Hw0 : s_waits s0 !! w = Some (set_user false wt)) by apply lookup_insert_eq.
  assert (Hs0 : stacks s0 !! t = Some (w :: rest)) by (rewrite <- Hst; by apply stack_of).
  destruct (top_wait s0 t th w rest Hwf0 Hth Hst) as (wt0 & E & _ & Hc). rewrite Hw0 in E. injection E as <-.
  assert (Hsat : sat_objects (set_user false wt) STATUS_TIMEOUT = []).
  { apply sat_objects_error. unfold STATUS_TIMEOUT, MAXIMUM_WAIT_OBJECTS in *. lia. }
  rewrite wp_bind. eapply wp_mono.
  { apply (end_wait_ok t STATUS_TIMEOUT s0 wd th w rest (set_user false wt)); try done. rewrite Hsat. set_solver. }
  intros r s1 wd1 (-> & Hend & _). pose proof (ended_woken t w rest s0 s1 Hs0 Hend) as W1.
  assert (Hs1 : stacks s1 !! t = Some rest) by (destruct Hend as (_ & _ & -> & _); apply lookup_insert_eq).
  rewrite wp_bind, wp_assert. split; [by apply negb_true_iff, Z.eqb_neq|]. cbn beta.
  pose proof Hs1 as Ht1. unfold stacks in Ht1. rewrite lookup_fmap in Ht1.
  destruct (s_threads s1 !! t) as [th1|] eqn:Hth1; [|done]. injection Ht1 as Hst1.
  rewrite wp_bind. eapply send_thread_wakeup_ok; [done|]. intros th2 s2 Es2 Ew2 Est2 Em2.
  assert (W2 : woken t s1 s2) by (rewrite Es2; eapply put_thread_woken; [apply W1|done..]).
  assert (Hs2 : stacks s2 !! t = Some rest).
  { subst s2. unfold stacks. cbn. rewrite fmap_insert, lookup_insert_eq. congruence. }
  assert (Hth2 : s_threads s2 !! t = Some th2) by (subst s2; apply lookup_insert_eq).
  rewrite wp_bind. unfold wake_thread. rewrite wp_bind. eapply wp_read_at; [done|].
  eapply wp_mono; [apply (wake_loop_ok _ t 0 s2 wd rest); [apply W2|done|rewrite Ew2, Hst1; lia|lia]|].
  intros r3 s3 wd3 (_ & _ & W3 & Hb3 & _). rewrite wp_ret.
  assert (W : woken t s0 s3) by (eapply woken_trans; [done|]; by eapply woken_trans).
  split; [apply W|]. apply unsatisfied_untimed; [apply W|]. intros t'.
  destruct (decide (t' = t)) as [->|Hne]; [apply blocked_untimed; [apply W|done]|].
  eapply woken_blocked; [by apply woken_untimed|done|apply Hu0].
Qed.

(** *** Waits with a timeout have a cookie

    The function of a timeout asserts it. A wait gets its timeout and the cookie of the
    request at the same time, and nothing changes them while it lasts. *)

Definition armed (s : sync_state) : Prop :=
  ∀ w wt, s_waits s !! w = Some wt → w_user wt = true → w_cookie wt ≠ 0.

#[local] Abbreviation keeps := (preserves armed).

Lemma keeps_read_at {A} (f : sync_state → gmap Z A) i : keeps (read_at f i).
Proof. unfold read_at. preserve. Qed.
Lemma keeps_put_obj o x : keeps (put_obj o x).
Proof. by apply preserves_modify. Qed.
Lemma keeps_put_thread t x : keeps (put_thread t x).
Proof. by apply preserves_modify. Qed.
Lemma armed_insert s w wt : armed s → (w_user wt = true → w_cookie wt ≠ 0) → armed (on_waits (<[w := wt]>) s).
Proof. intros Ha Hwt w' wt'. cbn. intros [[<- <-]|[_ Hw']]%lookup_insert_Some; [done|by eapply Ha]. Qed.
Lemma keeps_put_wait w wt : w_user wt = false → keeps (put_wait w wt).
Proof. intros E. apply preserves_modify. intros s Hs. apply armed_insert; [done|]. by rewrite E. Qed.
Lemma keeps_delete w : keeps (modify (on_waits (delete w))).
Proof. apply preserves_modify. intros s Hs w' wt'. cbn. intros [_ Hw']%lookup_delete_Some. by eapply Hs. Qed.
Lemma keeps_abandoned w : keeps (make_wait_abandoned w).
Proof.
  intros s wd r s' wd'. unfold make_wait_abandoned, read_wait, read_at, bind, get.
  destruct (s_waits s !! w) as [wt|] eqn:Hw; [|done]. cbn. intros [= _ <- _] Ha. apply armed_insert; [done|]. apply (Ha w wt Hw).
Qed.

#[local] Hint Resolve keeps_read_at keeps_put_obj keeps_put_thread keeps_delete keeps_abandoned : preserves.
#[local] Hint Extern 1 (preserves _ (read_obj _)) => apply keeps_read_at : preserves.
#[local] Hint Extern 1 (preserves _ (read_wait _)) => apply keeps_read_at : preserves.
#[local] Hint Extern 1 (preserves _ (read_thread _)) => apply keeps_read_at : preserves.
#[local] Hint Extern 1 (preserves _ (put_wait _ _)) => apply keeps_put_wait; reflexivity : preserves.

Lemma keeps_object_satisfied o w t : keeps (object_sync_satisfied o w t).
Proof.
  unfold object_sync_satisfied, event_sync_satisfied, semaphore_sync_satisfied, mutex_sync_satisfied, do_grab, clear_abandoned.
  preserve.
Qed.
#[local] Hint Resolve keeps_object_satisfied : preserves.
Lemma keeps_satisfied_all objs w t : keeps (satisfied_all objs w t).
Proof. induction objs; cbn [satisfied_all]; preserve. Qed.
Lemma keeps_remove_entries objs w i : keeps (remove_entries objs w i).
Proof. revert i. induction objs; intros i; cbn [remove_entries]; unfold remove_queue; preserve. Qed.
#[local] Hint Resolve keeps_satisfied_all keeps_remove_entries : preserves.
Lemma keeps_end_wait t status : keeps (end_wait t status).
Proof. unfold end_wait. preserve. Qed.
Lemma keeps_check_wait t : keeps (check_wait t).
Proof. unfold check_wait. preserve. Qed.
Lemma keeps_wakeup t cookie signaled : keeps (send_thread_wakeup t cookie signaled).
Proof. unfold send_thread_wakeup. preserve. Qed.
#[local] Hint Resolve keeps_end_wait keeps_check_wait keeps_wakeup : preserves.
Lemma keeps_wake_loop n t c : keeps (wake_loop n t c).
Proof. revert c. induction n; intros c; cbn [wake_loop]; preserve. Qed.
#[local] Hint Resolve keeps_wake_loop : preserves.
Lemma keeps_wake_thread t : keeps (wake_thread t).
Proof. unfold wake_thread. preserve. Qed.
#[local] Hint Resolve keeps_wake_thread : preserves.
Lemma keeps_wake_queue n o entries max : keeps (wake_queue n o entries max).
Proof. revert entries max. induction n; intros [|[w i] entries] max; cbn [wake_queue]; preserve. Qed.
#[local] Hint Resolve keeps_wake_queue : preserves.
Lemma keeps_wake_up o max : keeps (wake_up o max).
Proof. unfold wake_up. preserve. Qed.
#[local] Hint Resolve keeps_wake_up : preserves.
Lemma keeps_event_signal o b : keeps (event_sync_signal o b).
Proof. unfold event_sync_signal. preserve. Qed.
Lemma keeps_release_semaphore o count : keeps (release_semaphore o count).
Proof. unfold release_semaphore. preserve. Qed.
Lemma keeps_do_release o t count : keeps (do_release o t count).
Proof. unfold do_release. preserve. Qed.
#[local] Hint Resolve keeps_event_signal keeps_release_semaphore keeps_do_release : preserves.
Lemma keeps_event_op o op : keeps (req_event_op o op).
Proof. unfold req_event_op, set_event, reset_event, signal_sync, reset_sync. preserve. Qed.
Lemma keeps_add_entries objs w i : keeps (add_entries objs w i).
Proof. revert i. induction objs; intros i; cbn [add_entries]; unfold add_queue; preserve. Qed.
#[local] Hint Resolve keeps_event_op keeps_add_entries : preserves.
Lemma keeps_wait_on select objs flags wh current : keeps (wait_on select objs flags wh current).
Proof. unfold wait_on. preserve. Qed.
Lemma keeps_thread_timeout w : keeps (thread_timeout w).
Proof. unfold thread_timeout. preserve. Qed.
#[local] Hint Resolve keeps_wait_on keeps_thread_timeout : preserves.

(** The last steps of a request that has to wait. *)
Lemma keeps_select_finish cookie current : cookie ≠ 0 → keeps (select_finish cookie current).
Proof.
  intros Hck. unfold select_finish. apply preserves_bind; [auto with preserves|]. intros v. destruct (negb (v =? -1)); [preserve|].
  apply preserves_bind; [auto with preserves|]. intros th. destruct (th_wait th) as [|z l]; [preserve|].
  apply preserves_bind; [auto with preserves|]. intros a1 s wd r s' wd'.
  set (tail := let* wt := read_wait z in put_wait z (set_cookie cookie wt) >> set_error STATUS_PENDING >> ret false).
  assert (Htail : ∀ s1 wd1, tail s1 wd1 = Some (r, s', wd') →
    (∀ w' wt', w' ≠ z → s_waits s1 !! w' = Some wt' → w_user wt' = true → w_cookie wt' ≠ 0) → armed s').
  { intros s1 wd1 E Ha w' wt'. revert E. unfold tail, read_wait, read_at, bind, get, put_wait, modify, set_error, ret.
    destruct (s_waits s1 !! z); [|done]. cbn. intros [= _ <- _]. cbn.
    intros [[<- <-]|[Hne Hw']]%lookup_insert_Some; [done|by eapply Ha]. }
  unfold bind at 1. destruct (negb (w_when a1 =? TIMEOUT_INFINITE)).
  - unfold bind at 1. destruct (mem_alloc s wd) as [[[[] s1] wd1]|] eqn:Em; [| |done].
    + cbn. intros E Ha. apply (preserves_mem_alloc _ _ _ _ _ _ Em) in Ha. eapply Htail; [exact E|].
      intros w' wt' Hne. cbn. rewrite lookup_insert_ne by done. apply Ha.
    + unfold bind, get_error. destruct (end_wait current (w_error wd1) s1 wd1) as [[[r2 s2] wd2]|] eqn:Ee; [|done].
      cbn. intros [= _ <- _] Ha. eapply keeps_end_wait; [done|]. by eapply preserves_mem_alloc.
  - cbn. intros E Ha. eapply Htail; [exact E|]. intros w' wt' _. apply Ha.
Qed.

Section KeepsSelect.
Context `{HandleLookup}.

Lemma keeps_handle_objs handles : keeps (get_handle_objs handles).
Proof. induction handles; cbn [get_handle_objs]; unfold get_handle_obj; preserve. Qed.
Lemma keeps_signal_object handle current : keeps (signal_object handle current).
Proof. unfold signal_object, get_handle_obj, object_signal, event_signal, semaphore_signal, mutex_signal. preserve. Qed.
#[local] Hint Resolve keeps_handle_objs keeps_signal_object keeps_select_finish : preserves.
Lemma keeps_select_on op handles signal cookie flags wh current :
  cookie ≠ 0 → keeps (select_on op handles signal cookie flags wh current).
Proof. intros Hck. unfold select_on, wait_on_handles. preserve. Qed.
End KeepsSelect.

(** ** Requests and reachable states *)

Inductive sync_request :=
  | ReqSelect (current : Z) (op : select_opcode) (handles : list Z) (signal cookie flags wh : Z)
  | ReqEventOp (o : Z) (op : event_operation)
  | ReqReleaseSemaphore (o count : Z)
  | ReqReleaseMutex (o current : Z)
  | ClockSet (now monotonic : Z)
  | TimeoutExpired (w : Z).

Section Requests.
Context `{HandleLookup}.

Definition run_request (r : sync_request) : Y bool :=
  match r with
  | ReqSelect current op handles signal cookie flags wh =>
      select_on op handles signal cookie flags wh current
  | ReqEventOp o op => req_event_op o op
  | ReqReleaseSemaphore o count => release_semaphore o count
  | ReqReleaseMutex o current => do_release o current 1
  | ClockSet now monotonic => set_clock now monotonic >> ret true
  | TimeoutExpired w => thread_timeout w >> ret true
  end.

(** The clock may be set to anything at any time, and the function of an expired
    timeout may be called. The requests of clients are served when no expired wait
    remains to be ended ([timely]); a [select] request has a cookie. *)
Definition request_allowed (s : sync_state) (r : sync_request) : Prop :=
  match r with
  | ReqSelect current op handles signal cookie _ _ => timely s ∧ cookie ≠ 0 ∧ select_allowed s op handles signal current
  | ReqEventOp o _ => timely s ∧ ∃ x e, s_objects s !! o = Some x ∧ o_sync x = Event e
  | ReqReleaseSemaphore o count =>
      timely s ∧ 0 ≤ count < 4294967296 ∧ ∃ x m, s_objects s !! o = Some x ∧ o_sync x = Semaphore m
  | ReqReleaseMutex o _ => timely s ∧ ∃ x m, s_objects s !! o = Some x ∧ o_sync x = Mutex m
  | ClockSet _ _ => True
  | TimeoutExpired w => ∃ wt, s_waits s !! w = Some wt ∧ w_user wt = true ∧ expired s wt = true
  end.

Lemma select_on_settled op handles signal cookie flags wh current s wd :
  wf s → settled s → select_allowed s op handles signal current →
  wp (select_on op handles signal cookie flags wh current) s wd (λ _ s' _, wf s' ∧ settled s').
Proof.
  intros Hwf Hset (Ht & [Hmay0 Hmay] & Herr & Hsw).
  assert (Hpost : ∀ l r s' wd', select_post cookie current l r s' wd' → wf s' ∧ settled s') by (intros ? ? ? ? (? & ? & _); done).
  destruct Ht as [th Ht]. pose proof (stack_of s current th Ht) as Hstk.
  assert (Hfin : ∀ w wt s1 wd1, pushed w wt s s1 → w_thread wt = current →
    wp (select_finish cookie current) s1 wd1 (λ _ s' _, wf s' ∧ settled s')).
  { intros w wt s1 wd1 Hp <-. eapply wp_mono; [by eapply select_finish_pushed|]. intros r s' wd'. apply Hpost. }
  assert (Hwait : op ≠ SELECT_SIGNAL_AND_WAIT →
    wp (if MAXIMUM_WAIT_OBJECTS <? Z.of_nat (length handles) then
        set_error STATUS_INVALID_PARAMETER >> ret true
      else
        let* ok := wait_on_handles op handles flags wh current in
        if negb ok then ret true else select_finish cookie current) s wd (λ _ s' _, wf s' ∧ settled s')).
  { intros _. destruct (Z.ltb_spec MAXIMUM_WAIT_OBJECTS (Z.of_nat (length handles))).
    { rewrite wp_bind, wp_set_error, wp_ret. done. }
    rewrite wp_bind. eapply wp_mono; [apply wait_on_handles_ok; eauto|]. intros [] s1 wd1; cbn [negb].
    - intros (objs & w & _ & Hp). by eapply Hfin.
    - intros ->. by rewrite wp_ret. }
  destruct op; cbn [select_on]; [|by apply Hwait|by apply Hwait|].
  - rewrite wp_bind. eapply wp_mono; [by eapply wait_on_ok|]. intros [] s1 wd1; cbn [negb].
    + intros [_ [w Hp]]. by eapply Hfin.
    + intros [_ ->]. by rewrite wp_ret.
  - destruct (Hsw eq_refl) as (Hlen & Hnil & Hsig). rewrite wp_bind.
    eapply wp_mono; [apply wait_on_handles_ok; eauto|]. intros [] s1 wd1; cbn [negb].
    + intros (objs & w & Eo & Hp). set (wt := ThreadWait current objs flags false SELECT_SIGNAL_AND_WAIT 0 wh false) in *.
      eapply wp_mono; [apply (select_signal_and_wait cookie signal s s1 wd1 w wt); [done|done|done|done|]|].
      * intros o Hlo. destruct (Hsig o Hlo) as [? Hn]. split; [done|]. by apply Hn.
      * intros r s' wd'. apply Hpost.
    + intros ->. by rewrite wp_ret.
Qed.

Lemma event_op_settled o op s wd x e :
  wf s → settled s → s_objects s !! o = Some x → o_sync x = Event e →
  wp (req_event_op o op) s wd (λ r s' _, r = ev_signaled e ∧ wf s' ∧ settled s').
Proof.
  intros Hwf Hset Ho Ex. unfold req_event_op. rewrite wp_bind. eapply wp_read_at; [done|]. rewrite Ex.
  assert (Hsig : ∀ b s1 wd1, wf s1 → settled s1 → shape s1 o = shape s o →
    wp (event_sync_signal o b) s1 wd1 (λ _ s' wd', wf s' ∧ settled s' ∧ shape s' o = shape s o)).
  { intros b s1 wd1 Hwf1 Hs1 Hk. unfold shape in Hk. rewrite Ho in Hk. cbn in Hk. rewrite Ex in Hk.
    destruct (s_objects s1 !! o) as [[[e1|m1|m1] q1]|] eqn:Ho1; try done.
    eapply wp_mono; [by eapply event_sync_signal_ok, settled_ready|].
    intros r s' wd' (_ & _ & Hop & _). split_and!; [apply Hop|by eapply op_ok_settled|].
    destruct Hop as (_ & _ & _ & _ & Hk' & _). rewrite Hk'. unfold shape. rewrite Ho, Ho1. cbn. by rewrite Ex. }
  rewrite wp_bind. destruct op; unfold set_event, reset_event, signal_sync, reset_sync; cbn.
  - rewrite wp_bind, wp_bind. eapply wp_mono; [by apply Hsig|]. intros _ s1 wd1 (? & ? & ?). rewrite wp_ret, wp_bind.
    eapply wp_mono; [by apply Hsig|]. intros _ s2 wd2 (? & ? & _). by rewrite !wp_ret.
  - rewrite wp_bind. eapply wp_mono; [by apply Hsig|]. intros _ s1 wd1 (? & ? & ?). by rewrite !wp_ret.
  - rewrite wp_bind. eapply wp_mono; [by apply Hsig|]. intros _ s1 wd1 (? & ? & ?). by rewrite !wp_ret.
  - by rewrite wp_set_error, wp_ret.
Qed.

(** A state that a sequence of completed steps leads to. *)
Inductive reachable (s0 : sync_state) : sync_state → Prop :=
  | reachable_start : reachable s0 s0
  | reachable_step s req wd b s' wd' :
      reachable s0 s → request_allowed s req → run_request req s wd = Some (b, s', wd') → reachable s0 s'.

Lemma request_unsatisfied s req wd :
  wf s → unsatisfied s → armed s → request_allowed s req → wp (run_request req) s wd (λ _ s' _, wf s' ∧ unsatisfied s').
Proof.
  intros Hwf Hu Harm Hal. assert (Hset : timely s → settled s) by by apply timely_settled.
  destruct req as [cur op hs sg ck fl wh|o op|o count|o cur|now mono|w]; cbn [run_request].
  - destruct Hal as (Ht & _ & Hal). eapply wp_mono; [by apply select_on_settled; auto|].
    intros r s' wd' []. eauto using settled_unsatisfied.
  - destruct Hal as (Ht & x & e & Ho & Ex). eapply wp_mono; [by eapply event_op_settled; eauto|].
    intros r s' wd' (_ & ? & ?). eauto using settled_unsatisfied.
  - destruct Hal as (Ht & Hc & x & m & Ho & Ex). specialize (Hset Ht).
    eapply wp_mono; [by eapply release_semaphore_ok; eauto using settled_ready|].
    intros r s' wd'. cbn beta. destruct (_ <=? _); [intros (_ & _ & Hop & _)|by intros (_ & -> & _)].
    split; [apply Hop|by eapply settled_unsatisfied, op_ok_settled].
  - destruct Hal as (Ht & x & m & Ho & Ex). specialize (Hset Ht).
    pose proof Hwf as [_ Hs]. pose proof (sy_object _ _ Hs o x Ho) as Hm. unfold sync_ok in Hm. rewrite Ex in Hm.
    eapply wp_mono; [eapply do_release_ok; eauto using settled_ready; intros Hown; rewrite Hown in Hm; lia|].
    intros r s' wd'. cbn beta. case_bool_decide; [intros (_ & _ & Hop & _)|by intros (_ & -> & _)].
    split; [apply Hop|by eapply settled_unsatisfied, op_ok_settled].
  - rewrite wp_bind. eapply wp_mono; [by apply set_clock_ok|]. intros u s' wd' Hp. by rewrite wp_ret.
  - destruct Hal as (wt & Hw & Huser & _). rewrite wp_bind.
    eapply wp_mono; [apply (thread_timeout_ok w s wd wt); eauto|]. intros u s' wd' Hp. by rewrite wp_ret.
Qed.

Lemma request_keeps s req : request_allowed s req → keeps (run_request req).
Proof.
  destruct req as [cur op hs sg ck fl wh|o op|o count|o cur|now mono|w]; cbn [run_request]; intros Hal; auto with preserves.
  - destruct Hal as (_ & Hck & _). by apply keeps_select_on.
  - apply preserves_bind; [by apply preserves_modify|]. intros _. apply preserves_ret.
  - preserve.
Qed.

(** C1: No wakeup is lost, as long as expired waits are ended before the next request
    of a client is served. Start from a well-formed state in which no thread sleeps
    while what it waits for is there, and let the clock move, timeouts expire and clients
    send requests to wait on existing objects, to set, reset and pulse events and to
    release semaphores and mutexes, at times when no expired wait remains to be ended
    ([expired_wait_steals_wakeup] shows that this matters). A client that waits names no
    object twice if it waits for all, signals no object that it also waits for, and
    signals one only with no wait of its own in progress; mutexes are not acquired 2^32
    times. Then no thread sleeps while what it waits for is there, every wait that is
    not ended is one whose check says so, and every step completes: it fails no
    assertion, follows no bad pointer and its loops end. *)
Theorem no_lost_wakeup s0 s req wd
    (Hwf : wf s0) (Hu : unsatisfied s0) (Harm : armed s0) (Hr : reachable s0 s) (Hal : request_allowed s req) :
  unsatisfied s ∧ (timely s → settled s) ∧
  wp (run_request req) s wd (λ _ s' _, reachable s0 s' ∧ wf s' ∧ unsatisfied s' ∧ (timely s' → settled s')).
Proof.
  assert (Hs : wf s ∧ unsatisfied s ∧ armed s).
  { clear Hal. induction Hr as [|s req' wd' b s' wd2 Hr IH Hal E]; [done|]. destruct IH as (Hwf' & Hu' & Ha').
    pose proof (request_unsatisfied s req' wd' Hwf' Hu' Ha' Hal) as H'. unfold wp in H'. rewrite E in H'.
    split_and!; [apply H'|apply H'|]. by eapply request_keeps. }
  destruct Hs as (Hwf' & Hu' & Ha'). split; [done|]. split; [by apply timely_settled|].
  pose proof (request_unsatisfied s req wd Hwf' Hu' Ha' Hal) as H'.
  destruct (wp_elim _ _ _ _ H') as (b & s' & wd' & E & Hw & Hu2). rewrite (wp_run _ _ _ _ _ _ E).
  split; [by eapply reachable_step|]. split_and!; [done|done|by apply timely_settled].
Qed.
End Requests.

(** ** A state where nothing waits *)

Definition idle_sync (x : sync) : Prop :=
  match x with
  | Event _ => True
  | Semaphore m => 0 ≤ sem_count m ≤ sem_max m ∧ sem_max m ≤ INT_MAX
  | Mutex m => mtx_owner m = None ∧ mtx_count m = 0
  end.

Lemma idle_ok s :
  s_waits s = ∅ → (∀ o x, s_objects s !! o = Some x → o_queue x = [] ∧ idle_sync (o_sync x)) →
  (∀ t th, s_threads s !! t = Some th → th_wait th = [] ∧ th_mutexes th = []) → wf s ∧ settled s.
Proof.
  intros Hw Ho Ht. split; [split; split|].
  - intros t l. unfold stacks. rewrite lookup_fmap. destruct (s_threads s !! t) as [th|] eqn:E; [|done].
    intros [= <-]. destruct (Ht t th E) as [-> _]. split; [constructor|set_solver].
  - intros w wt. unfold wviews. rewrite Hw, fmap_empty, lookup_empty. done.
  - intros o q. unfold queues. rewrite lookup_fmap. destruct (s_objects s !! o) as [x|] eqn:E; [|done].
    intros [= <-]. destruct (Ho o x E) as [-> _]. split; [constructor|set_solver].
  - intros o x E. destruct (Ho o x E) as [Hq Hi]. unfold sync_ok, idle_sync in *. rewrite Hq.
    destruct (o_sync x) as [|m|m]; [done|done|]. destruct Hi as [-> ->]. cbn. lia.
  - intros t th E. destruct (Ht t th E) as [_ ->]. split; [constructor|set_solver].
  - intros t th w rest wt E Hth. destruct (Ht t th E). congruence.
Qed.

Definition running : thread := Thread [] 0 false 0 false false None 0 [] [].
Definition demo_state : sync_state :=
  SyncState (<[1 := Object (Event (EventSync false false)) []]> (<[2 := Object (Event (EventSync false false)) []]>
              {[3 := Object (Semaphore (SemaphoreSync 1 5)) []]}))
            ∅ (<[10 := running]> {[20 := running]}) ∅ 50 50.

(** Handles that name objects 1 to 3 with full access. *)
#[local] Instance demo_handles : HandleLookup := {
  lookup_handle h a := if (1 <=? h) && (h <=? 3) then inr h else inl STATUS_INVALID_HANDLE;
  handle_access h := 0x1f0003
}.

Lemma demo_object o x : s_objects demo_state !! o = Some x →
  o = 1 ∧ x = Object (Event (EventSync false false)) [] ∨ o = 2 ∧ x = Object (Event (EventSync false false)) [] ∨
  o = 3 ∧ x = Object (Semaphore (SemaphoreSync 1 5)) [].
Proof.
  cbn. intros [[<- <-]|[_ [[<- <-]|[_ [<- <-]%lookup_singleton_Some]]%lookup_insert_Some]]%lookup_insert_Some; auto.
Qed.

Lemma demo_idle : wf demo_state ∧ settled demo_state.
Proof.
  apply idle_ok; [done| |].
  - intros o x [[-> ->]|[[-> ->]|[-> ->]]]%demo_object; cbn; unfold INT_MAX; split; done || lia.
  - cbn. intros t th [[<- <-]|[_ [<- <-]%lookup_singleton_Some]]%lookup_insert_Some; done.
Qed.

Lemma demo_may_wait op : may_wait demo_state op [1].
Proof.
  split_and!.
  - intros o ->%list_elem_of_singleton. by eexists.
  - by cbn.
  - intros. apply NoDup_singleton.
  - intros o x m [[-> ->]|[[-> ->]|[-> ->]]]%demo_object; done.
Qed.

Lemma demo_timely : timely demo_state.
Proof.
  intros t th w rest wt. cbn. by intros [[<- <-]|[_ [<- <-]%lookup_singleton_Some]]%lookup_insert_Some.
Qed.

Lemma demo_select t wh : t = 10 ∨ t = 20 →
  request_allowed demo_state (ReqSelect t SELECT_WAIT [1] 0 7 0 wh).
Proof.
  intros Ht. split; [apply demo_timely|]. split; [done|]. split_and!.
  - destruct Ht as [-> | ->]; by eexists.
  - split_and!; [set_solver|done|intros; constructor|].
    intros o x m [[-> ->]|[[-> ->]|[-> ->]]]%demo_object; done.
  - intros objs. cbn. intros [= <-]. apply demo_may_wait.
  - intros h a e. cbn. destruct (_ && _); [done|]. intros [= <-]. done.
  - done.
Qed.

(** Thread 10 waits for event 1, until time 100 if it says so. *)
Definition waiting_state (wh : Z) : sync_state :=
  match run_request (ReqSelect 10 SELECT_WAIT [1] 0 7 0 wh) demo_state (World 0 []) with
  | Some (_, s, _) => s
  | None => demo_state
  end.

Lemma waiting_state_reachable wh : wh = 100 ∨ wh = TIMEOUT_INFINITE → reachable demo_state (waiting_state wh).
Proof.
  intros Hwh. eapply (reachable_step demo_state demo_state _ (World 0 []));
    [apply reachable_start|apply (demo_select 10 wh); auto|].
  unfold waiting_state. destruct Hwh as [-> | ->]; vm_compute; reflexivity.
Qed.

(** The time comes, and the timeout of the wait is the next step. *)
Lemma no_lost_wakeup_witness :
  let s := SyncState (s_objects (waiting_state 100)) (s_waits (waiting_state 100)) (s_threads (waiting_state 100))
             (s_process_suspend (waiting_state 100)) 100 100 in
  unsatisfied s ∧ (timely s → settled s) ∧
  wp (run_request (TimeoutExpired 1)) s (World 0 [])
     (λ _ s' _, reachable demo_state s' ∧ wf s' ∧ unsatisfied s' ∧ (timely s' → settled s')).
Proof.
  intros s. apply (no_lost_wakeup demo_state s (TimeoutExpired 1) (World 0 [])).
  - apply demo_idle.
  - apply settled_unsatisfied, demo_idle.
  - intros w wt. done.
  - eapply (reachable_step demo_state (waiting_state 100) (ClockSet 100 100) (World 0 []));
      [apply waiting_state_reachable; auto|done|reflexivity].
  - eexists. split; [vm_compute; reflexivity|]. split; vm_compute; reflexivity.
Defined.

(** ** An expired wait can steal a wakeup

    [wake_up] counts as a wake of [max] a thread whose wait on the object ends for
    another reason. After the server has polled it updates the current time and
    serves the pending requests before it runs the expired timeouts, so this happens:
    thread 10 waits for both events 1 and 2 until time 100, thread 20 waits for
    event 1; at time 100, event 1 is set. *)
Definition stolen_run : Y bool :=
  select_on SELECT_WAIT_ALL [1; 2] 0 7 0 100 10 >>
  select_on SELECT_WAIT [1] 0 8 0 TIMEOUT_INFINITE 20 >>
  set_clock 100 100 >>
  req_event_op 1 SET_EVENT.

(** A wakeup is lost when the wait of an earlier thread has expired: in the
    run above, setting the auto-reset event 1 only wakes thread 10, with a timeout;
    the event stays signaled and thread 20 stays asleep though its wait is satisfied. *)
Theorem expired_wait_steals_wakeup :
  match stolen_run demo_state (World 0 []) with
  | Some (_, s, _) =>
      th_replies <$> s_threads s !! 10 = Some [(7, STATUS_TIMEOUT)] ∧
      th_replies <$> s_threads s !! 20 = Some [] ∧ object_signaled s 20 1 = true ∧
      th_wait <$> s_threads s !! 20 = Some [2] ∧ ¬ settled s ∧
      (∀ w, match check_wait 20 s w with Some (r, _, _) => r = 0 | None => False end)
  | None => False
  end.
Proof.
  assert (E : ∃ s w th wt, stolen_run demo_state (World 0 []) = Some (false, s, w) ∧
    th_replies <$> s_threads s !! 10 = Some [(7, STATUS_TIMEOUT)] ∧
    th_replies <$> s_threads s !! 20 = Some [] ∧ object_signaled s 20 1 = true ∧
    s_threads s !! 20 = Some th ∧ th_wait th = [2] ∧ s_waits s !! 2 = Some wt ∧
    w_objs wt = [1] ∧ check_wait_with (object_signaled s 20) s th wt = 0 ∧ is_Some (s_objects s !! 1)).
  { do 4 eexists. split; [vm_compute; reflexivity|]. repeat (split; [vm_compute; reflexivity|]).
    vm_compute. eauto. }
  destruct E as (s & w & th & wt & -> & E1 & E2 & E3 & Ht & Hth & Hw & Ho & Hc & Hx).
  split_and!; [done|done|done|by rewrite Ht; cbn; rewrite Hth| |].
  - intros Hset. specialize (Hset 20 th 2 [] wt Ht Hth Hw).
    rewrite (check_wait_with_ext (object_signaled s 20)) in Hset; [congruence|done].
  - intros w'. unfold check_wait, read_thread, read_wait, read_at, bind, get, c_assert, ret.
    rewrite Ht. cbn. rewrite Hth, Hw, Ho. cbn. rewrite bool_decide_eq_true_2 by done. by cbn.
Qed.

(** A client can make the server fail an assertion: waiting for all of two
    handles to the same semaphore, whose count is 1, is satisfied according to
    [check_wait], and [end_wait] then takes the semaphore twice. *)
Theorem wait_all_same_semaphore_asserts :
  check_wait_with (object_signaled demo_state 10) demo_state running
    (ThreadWait 10 [3; 3] 0 false SELECT_WAIT_ALL 0 TIMEOUT_INFINITE false) = 0 ∧
  select_on SELECT_WAIT_ALL [3; 3] 0 7 0 TIMEOUT_INFINITE 10 demo_state (World 0 []) = None.
Proof. split; vm_compute; reflexivity. Qed.

(** ** What a set event, a timeout and a dying thread do *)

(** With [max] = 1 the scan stops at the first thread that wakes. *)
Lemma wake_queue_one n o entries s wd q dn :
  wf s → queues s !! o = Some q → q = dn ++ entries → (length entries < n)%nat → counted s o = true →
  (∀ t, blocked s (except o) t) →
  wp (wake_queue n o entries 1) s wd (λ _ s' wd', wd' = wd ∧ wf s' ∧
    (s' = s ∨ ∃ t, others t s s' ∧ consumes s s' ∧ (size (wviews s') < size (wviews s))%nat ∧ tokens s' o < tokens s o)).
Proof.
  revert entries dn. induction n as [|n IH]; intros entries dn Hwf Hq Eq Hn Hc Hb; [lia|].
  destruct entries as [|[w i] entries]; cbn [wake_queue]; [rewrite wp_ret; auto|].
  assert (Hin : (w, i) ∈ q) by (subst q; set_solver).
  pose proof Hwf as [Hl _]. destruct (lk_queue _ _ _ Hl o q Hq) as [_ Hqw]. destruct (Hqw w i Hin) as (wv & Hwv & Ho).
  destruct (lk_wait _ _ _ Hl w wv Hwv) as ((l & Hl' & _) & _).
  unfold wviews in Hwv. rewrite lookup_fmap in Hwv. destruct (s_waits s !! w) as [wt|] eqn:Hw; [|done].
  injection Hwv as <-. change (w_thread (wait_view wt)) with (w_thread wt) in Hl'.
  rewrite wp_bind. eapply wp_read_at; [done|]. rewrite wp_bind. unfold wake_thread.
  pose proof Hl' as Hth. unfold stacks in Hth. rewrite lookup_fmap in Hth.
  destruct (s_threads s !! w_thread wt) as [th|] eqn:Hths; [|done]. injection Hth as Hth.
  rewrite wp_bind. eapply wp_read_at; [done|]. rewrite Hth.
  eapply wp_mono; [apply (wake_loop_ok _ (w_thread wt) 0 s wd l); [done|done|lia|lia]|].
  intros r s1 wd1 (-> & _ & Hpost). rewrite Z.sub_0_r in Hpost. destruct Hpost as (Hwk & _ & _ & Hrz & Hrn).
  destruct (Z.eqb_spec r 0) as [->|Hr].
  - rewrite (Hrz eq_refl). apply (IH entries (dn ++ [(w, i)])); try done; [by rewrite <- app_assoc|cbn in Hn; lia].
  - rewrite wp_bind, wp_assert. split; [done|]. cbn. destruct (Hrn Hr) as [Hsz Htok].
    apply wp_ret. split_and!; [done|apply Hwk|right]. exists (w_thread wt). split_and!; [apply Hwk|apply Hwk|done|]. by apply Htok.
Qed.

Lemma set_event_settled o x e s wd :
  wf s → settled s → s_objects s !! o = Some x → o_sync x = Event e → wp (set_event o) s wd (λ _ s' _, settled s').
Proof.
  intros Hwf Hset Ho Ex. unfold set_event, signal_sync. rewrite wp_bind.
  eapply wp_mono; [by eapply event_sync_signal_ok, settled_ready|].
  intros r s' wd' (_ & _ & Hop & _). rewrite wp_ret. by eapply op_ok_settled.
Qed.

(** C38: Setting an auto-reset event that is not signaled, in a settled state (no wait is
    satisfied or has expired without being ended), satisfies the waits of at most one
    thread: either every thread is as before and the event is signaled, or a single
    thread [t] was woken, the others are as before, and the event is reset. The state is
    settled again, so the event only stays signaled if no running thread waits for it alone. *)
Theorem set_event_wakes_one o x s wd
    (Hwf : wf s) (Hset : settled s) (Ho : s_objects s !! o = Some x)
    (Ex : o_sync x = Event (EventSync false false)) :
  wp (set_event o) s wd (λ _ s' _,
    (∀ t, object_signaled s' t o = true) ∧ s_threads s' = s_threads s ∧ s_waits s' = s_waits s ∨
    ∃ t, (∀ t', t' ≠ t → s_threads s' !! t' = s_threads s !! t') ∧
         (size (s_waits s') < size (s_waits s))%nat ∧ ∀ t', object_signaled s' t' o = false) ∧
  wp (set_event o) s wd (λ _ s' _, settled s').
Proof.
  split; [|by eapply set_event_settled].
  unfold set_event, signal_sync, event_sync_signal. rewrite wp_bind, wp_bind. eapply wp_read_at; [done|].
  rewrite Ex. cbn [ev_manual when]. unfold put_obj. rewrite wp_bind, wp_modify.
  set (y := Event (EventSync false true)). fold (with_sync o y x s). set (s1 := with_sync o y x s).
  assert (Hwf1 : wf s1) by (apply with_sync_wf; [done|done|by rewrite Ex|done]).
  assert (Hx1 : s_objects s1 !! o = Some (set_sync y x)) by apply lookup_insert_eq.
  unfold wake_up. rewrite wp_bind, wp_bind, wp_get, wp_bind. eapply wp_read_at; [done|].
  eapply wp_mono; [apply (wake_queue_one _ o _ s1 wd (o_queue x) []); try done|].
  - unfold queues. by rewrite lookup_fmap, Hx1.
  - unfold wake_fuel, wviews. cbn. lia.
  - unfold s1. by rewrite with_sync_counted, Z.eqb_refl.
  - intros t. apply with_sync_blocked; [done| |apply Hset]. unfold except. by rewrite Z.eqb_refl.
  - intros _ s' wd' (-> & Hwf' & Hs'). rewrite !wp_ret. destruct Hs' as [->|(t & Hot & Hc & Hsz & Htok)].
    + left. split_and!; [|done|done]. intros t. unfold s1. by rewrite with_sync_signaled, Z.eqb_refl.
    + right. exists t. split_and!; [done|unfold wviews in Hsz; by rewrite !map_size_fmap in Hsz|].
      destruct (at_object s1 o _ Hx1) as (Etok & Ecnt & _). cbn in Etok, Ecnt.
      intros t'. apply exhausted; [by rewrite (consumes_counted _ _ _ Hc)|lia].
Qed.

Lemma waiting_settled : wf (waiting_state TIMEOUT_INFINITE) ∧ settled (waiting_state TIMEOUT_INFINITE).
Proof.
  destruct demo_idle as [Hwf Hset]. destruct (demo_select 10 TIMEOUT_INFINITE ltac:(auto)) as (_ & _ & Hal).
  pose proof (select_on_settled SELECT_WAIT [1] 0 7 0 TIMEOUT_INFINITE 10 demo_state (World 0 []) Hwf Hset Hal) as H.
  apply wp_elim in H as (r & s' & wd' & E & H). unfold waiting_state. cbn [run_request]. by rewrite E.
Qed.

(** Thread 10, which waits for the event, is told, and the event is reset. *)
Lemma set_event_wakes_one_witness :
  let s := waiting_state TIMEOUT_INFINITE in
  (wp (set_event 1) s (World 0 []) (λ _ s' _,
    (∀ t, object_signaled s' t 1 = true) ∧ s_threads s' = s_threads s ∧ s_waits s' = s_waits s ∨
    ∃ t, (∀ t', t' ≠ t → s_threads s' !! t' = s_threads s !! t') ∧
         (size (s_waits s') < size (s_waits s))%nat ∧ ∀ t', object_signaled s' t' 1 = false) ∧
  wp (set_event 1) s (World 0 []) (λ _ s' _, settled s')) ∧
  wp (set_event 1) s (World 0 []) (λ _ s' _,
    th_wait <$> s_threads s !! 10 = Some [1] ∧ th_replies <$> s_threads s' !! 10 = Some [(7, 0)] ∧
    th_wait <$> s_threads s' !! 10 = Some []).
Proof.
  split; [|vm_compute; auto].
  apply (set_event_wakes_one 1 (Object (Event (EventSync false false)) [(1, 0%nat)])); [apply waiting_settled|apply waiting_settled|vm_compute; reflexivity|reflexivity].
Defined.
