(* ===== verification/Handles.v ===== *)
(** * Handle tables and object references (server/handle.c, object.c)

    A process has a table of handles; an entry holds a reference on an object and
    the granted access. A handle is four times the index of its entry plus one. The
    server also has a global table, whose handles are obfuscated so that they
    differ from the handles of a process.

    A table is known by its owner: [None] for [global_table], [Some p] for
    [process->handles] of the process object [p]; a table that is absent from the
    map is a NULL pointer. The memory of a table is a list; an element is [None]
    while it is uninitialised. Objects are known by their address. What
    [obj->ops->destroy] does besides freeing the object is up to its component. *)

From S2P Require Import Prelude.

Definition MAXIMUM_ALLOWED : Z := 0x02000000.
Definition GENERIC_ALL : Z := 0x10000000.
Definition HANDLE_FLAG_INHERIT : Z := 1.
Definition HANDLE_FLAG_PROTECT_FROM_CLOSE : Z := 2.
Definition OBJ_PROTECT_CLOSE : Z := 1.
Definition OBJ_INHERIT : Z := 2.
Definition DUPLICATE_CLOSE_SOURCE : Z := 1.
Definition DUPLICATE_SAME_ACCESS : Z := 2.
Definition DUPLICATE_SAME_ATTRIBUTES : Z := 4.
Definition DUPLICATE_MAKE_GLOBAL : Z := 0x80000000.
Definition PROCESS_DUP_HANDLE : Z := 0x40.

Definition RESERVED_SHIFT : Z := 26.
Definition RESERVED_INHERIT : Z := Z.shiftl HANDLE_FLAG_INHERIT RESERVED_SHIFT.
Definition RESERVED_CLOSE_PROTECT : Z := Z.shiftl HANDLE_FLAG_PROTECT_FROM_CLOSE RESERVED_SHIFT.
Definition RESERVED_ALL : Z := Z.lor RESERVED_INHERIT RESERVED_CLOSE_PROTECT.
Definition MIN_HANDLE_ENTRIES : Z := 32.
Definition MAX_HANDLE_ENTRIES : Z := 0x00ffffff.
Definition HANDLE_OBFUSCATOR : Z := 0x544a4def.

Record handle_entry := HandleEntry { e_ptr : option Z; e_access : Z }.
Record handle_table := HandleTable {
  t_process : option Z; t_count : Z; t_last : Z; t_free : Z; t_entries : list (option handle_entry)
}.
(** The handle counts of [struct type_descr]. *)
Record type_descr := TypeDescr { ty_handle_count : Z; ty_handle_max : Z }.
Record object := Object { o_refcount : Z; o_handle_count : Z; o_ops : Z; o_permanent : bool }.

(** The thread that makes the request: its object, its process and its
    impersonation token. *)
Record current_thread := CurrentThread { cur_thread : Z; cur_process : Z; cur_token : option Z }.

Record handles := Handles {
  h_objects : gmap Z object; h_types : gmap Z type_descr;
  h_tables : gmap (option Z) handle_table; h_process_token : gmap Z Z; h_current : current_thread
}.

Abbreviation H := (M handles).

Definition on_objects (f : gmap Z object → gmap Z object) (s : handles) : handles :=
  Handles (f (h_objects s)) (h_types s) (h_tables s) (h_process_token s) (h_current s).
Definition on_types (f : gmap Z type_descr → gmap Z type_descr) (s : handles) : handles :=
  Handles (h_objects s) (f (h_types s)) (h_tables s) (h_process_token s) (h_current s).
Definition on_tables (f : gmap (option Z) handle_table → gmap (option Z) handle_table) (s : handles) : handles :=
  Handles (h_objects s) (h_types s) (f (h_tables s)) (h_process_token s) (h_current s).

Definition set_refs (r h : Z) (x : object) : object := Object r h (o_ops x) (o_permanent x).
Definition set_permanent (b : bool) (x : object) : object := Object (o_refcount x) (o_handle_count x) (o_ops x) b.
Definition set_last (last : Z) (t : handle_table) : handle_table :=
  HandleTable (t_process t) (t_count t) last (t_free t) (t_entries t).
Definition set_free (free : Z) (t : handle_table) : handle_table :=
  HandleTable (t_process t) (t_count t) (t_last t) free (t_entries t).
Definition set_entry (i : Z) (e : handle_entry) (t : handle_table) : handle_table :=
  HandleTable (t_process t) (t_count t) (t_last t) (t_free t) (<[Z.to_nat i := Some e]> (t_entries t)).

(** What the objects of the server provide to their handles: the operations of
    [obj->ops], where an operations table has an address, and the access check
    on their security descriptor. *)
Class ObjectOps := {
  ops_type : Z → Z;
  ops_map_access : Z → Z → Z;
  (** [obj->ops->close_handle( obj, process, handle )]: may the handle be closed? *)
  ops_close_handle : Z → Z → Z → Z → H bool;
  (** [check_object_access( token, obj, &access )]: the granted access, if any. *)
  check_object_access : option Z → Z → Z → option Z;
  process_ops : Z
}.

(** ** Object references (object.c) *)

Definition of_option {A} (a : option A) : H A := match a with Some a => ret a | None => crash end.
Definition read_obj (o : Z) : H object := let* s := get in of_option (h_objects s !! o).
Definition put_obj (o : Z) (x : object) : H unit := modify (on_objects (<[o := x]>)).

Definition grab_object (o : Z) : H unit :=
  let* x := read_obj o in
  c_assert (o_refcount x <? INT_MAX) >>
  put_obj o (set_refs (o_refcount x + 1) (o_handle_count x) x).

Definition release_object (o : Z) : H unit :=
  let* x := read_obj o in
  c_assert (negb (o_refcount x =? 0)) >>
  if o_refcount x - 1 =? 0 then
    c_assert (o_handle_count x =? 0) >>
    modify (on_objects (delete o))
  else put_obj o (set_refs (o_refcount x - 1) (o_handle_count x) x).

Section Handles.
Context `{ObjectOps}.

Definition on_type (o : Z) (f : type_descr → type_descr) : H unit :=
  let* x := read_obj o in
  let* s := get in
  let* ty := of_option (h_types s !! ops_type (o_ops x)) in
  modify (on_types (<[ops_type (o_ops x) := f ty]>)).

Definition grab_object_for_handle (o : Z) : H unit :=
  let* x := read_obj o in
  put_obj o (set_refs (o_refcount x) (u32 (o_handle_count x + 1)) x) >>
  on_type o (λ ty, let c := u32 (ty_handle_count ty + 1) in TypeDescr c (Z.max (ty_handle_max ty) c)) >>
  grab_object o.

Definition release_object_from_handle (o : Z) : H unit :=
  let* x := read_obj o in
  c_assert (negb (o_handle_count x =? 0)) >>
  on_type o (λ ty, TypeDescr (u32 (ty_handle_count ty - 1)) (ty_handle_max ty)) >>
  put_obj o (set_refs (o_refcount x) (o_handle_count x - 1) x) >>
  release_object o.

(** ** Handles *)

Definition index_to_handle (i : Z) : Z := u32 (Z.shiftl (i + 1) 2).
Definition handle_to_index (handle : Z) : Z := s32 (u32 (Z.shiftr handle 2 - 1)).

Definition handle_is_global (handle : Z) : bool :=
  Z.lxor handle HANDLE_OBFUSCATOR <=? Z.shiftl MAX_HANDLE_ENTRIES 2.
Definition handle_local_to_global (handle : Z) : Z :=
  if handle =? 0 then 0 else Z.lxor handle HANDLE_OBFUSCATOR.
Definition handle_global_to_local (handle : Z) : Z := Z.lxor handle HANDLE_OBFUSCATOR.

Definition read_table (k : option Z) : H handle_table := let* s := get in of_option (h_tables s !! k).
Definition put_table (k : option Z) (t : handle_table) : H unit := modify (on_tables (<[k := t]>)).

(** The entry at an index, if it lies in the table and is initialised. *)
Definition entry_at (t : handle_table) (i : Z) : option handle_entry :=
  if 0 <=? i then mjoin (t_entries t !! Z.to_nat i) else None.
(** A write to [table->entries[i]]. *)
Definition write_entry (k : option Z) (i : Z) (e : handle_entry) : H unit :=
  let* t := read_table k in
  c_assert ((0 <=? i) && (i <? Z.of_nat (length (t_entries t)))) >>
  put_table k (set_entry i e t).

(** A new table, not yet stored: the object of the table itself is left out. *)
Definition alloc_handle_table (process : option Z) (count : Z) : H (option handle_table) :=
  let count := Z.max count MIN_HANDLE_ENTRIES in
  let* ok := mem_alloc in
  if negb ok then ret None else
  let* ok := mem_alloc in
  if negb ok then ret None else
  ret (Some (HandleTable process count (-1) 0 (replicate (Z.to_nat count) None))).

Definition grow_handle_table (k : option Z) : H bool :=
  let* t := read_table k in
  let count := Z.min (t_count t * 2) MAX_HANDLE_ENTRIES in
  if count =? t_count t then set_error STATUS_INSUFFICIENT_RESOURCES >> ret false else
  let* ok := malloc in
  if negb ok then set_error STATUS_INSUFFICIENT_RESOURCES >> ret false else
  put_table k (HandleTable (t_process t) count (t_last t) (t_free t)
                 (resize (Z.to_nat count) None (t_entries t))) >>
  ret true.

(** The scan of [alloc_entry] over [n] entries from [i]: the first free one, or the
    index after them. *)
Fixpoint scan_free (t : handle_table) (i : Z) (n : nat) : option Z :=
  match n with
  | O => Some i
  | S n' =>
      match entry_at t i with
      | None => None
      | Some e => match e_ptr e with None => Some i | Some _ => scan_free t (i + 1) n' end
      end
  end.

Definition alloc_entry (k : option Z) (obj access : Z) : H Z :=
  let* t := read_table k in
  let* i := of_option (scan_free t (t_free t) (Z.to_nat (t_last t + 1 - t_free t))) in
  let* ok :=
    (if i <=? t_last t then ret true
     else
       let* ok := (if t_count t <=? i then grow_handle_table k else ret true) in
       if negb ok then ret false else
       let* t := read_table k in put_table k (set_last i t) >> ret true) in
  if negb ok then ret 0 else
  let* t := read_table k in
  put_table k (set_free (i + 1) t) >>
  grab_object_for_handle obj >>
  write_entry k i (HandleEntry (Some obj) access) >>
  ret (index_to_handle i).

Definition alloc_handle_entry (process obj access attr : Z) : H Z :=
  c_assert (negb (has access RESERVED_ALL)) >>
  let access := if has attr OBJ_INHERIT then Z.lor access RESERVED_INHERIT else access in
  let* s := get in
  match h_tables s !! Some process with
  | None => set_error STATUS_PROCESS_IS_TERMINATING >> ret 0
  | Some _ => alloc_entry (Some process) obj access
  end.

(** [obj->ops->map_access( obj, access ) & ~RESERVED_ALL]. *)
Definition map_access (obj access : Z) : H Z :=
  let* x := read_obj obj in ret (Z.ldiff (ops_map_access (o_ops x) access) RESERVED_ALL).

(** [check_object_access( token, obj, &access )], with the error it sets. *)
Definition checked_access (token : option Z) (obj access : Z) : H (option Z) :=
  match check_object_access token obj access with
  | Some a => ret (Some a)
  | None => set_error STATUS_ACCESS_DENIED >> ret None
  end.

Definition alloc_handle_no_access_check (process obj access attr : Z) : H Z :=
  let access := if has access MAXIMUM_ALLOWED then GENERIC_ALL else access in
  let* access := map_access obj access in
  alloc_handle_entry process obj access attr.

Definition alloc_handle (process obj access attr : Z) : H Z :=
  let* access := map_access obj access in
  if access =? 0 then set_error STATUS_ACCESS_DENIED >> ret 0 else
  let* a := checked_access None obj access in
  match a with
  | None => ret 0
  | Some access => alloc_handle_entry process obj access attr
  end.

Definition alloc_global_handle_no_access_check (obj access : Z) : H Z :=
  let* s := get in
  let* ok :=
    (match h_tables s !! None with
     | Some _ => ret true
     | None =>
         let* t := alloc_handle_table None 0 in
         match t with
         | None => ret false
         | Some t => put_table None t >> ret true
         end
     end) in
  if negb ok then ret 0 else
  let* h := alloc_entry None obj access in
  ret (handle_local_to_global h).

Definition alloc_global_handle (obj access : Z) : H Z :=
  if truth access then
    let* a := checked_access None obj access in
    match a with
    | None => ret 0
    | Some access => alloc_global_handle_no_access_check obj access
    end
  else alloc_global_handle_no_access_check obj access.

(** [get_handle] returns a pointer to an entry: the table, the index of the
    entry and its value. *)
Definition handle_slot (process handle : Z) : option Z * Z :=
  if handle_is_global handle then (None, handle_to_index (handle_global_to_local handle))
  else (Some process, handle_to_index handle).
Definition get_handle (process handle : Z) : H (option (option Z * Z * handle_entry)) :=
  let (k, index) := handle_slot process handle in
  let* s := get in
  match h_tables s !! k with
  | None => ret None
  | Some t =>
      if (index <? 0) || (t_last t <? index) then ret None else
      let* e := of_option (entry_at t index) in
      ret (match e_ptr e with None => None | Some _ => Some (k, index, e) end)
  end.

(** [entry] moves down with [last]: it is the entry at [last]. *)
Fixpoint trim_last (t : handle_table) (last : Z) (n : nat) : option Z :=
  match n with
  | O => Some last
  | S n' =>
      match entry_at t last with
      | None => None
      | Some e => match e_ptr e with Some _ => Some last | None => trim_last t (last - 1) n' end
      end
  end.

Definition shrink_handle_table (t : handle_table) : H handle_table :=
  let* last := of_option (trim_last t (t_last t) (Z.to_nat (t_last t + 1))) in
  let t := set_last last t in
  if Z.quot (t_count t) 4 <=? last then ret t else
  if t_count t <? MIN_HANDLE_ENTRIES * 2 then ret t else
  let count := Z.quot (t_count t) 2 in
  let* ok := malloc in
  if negb ok then ret t else
  ret (HandleTable (t_process t) count last (t_free t) (take (Z.to_nat count) (t_entries t))).

(** [table] is the table of the child, which is not yet stored. *)
Definition inherit_handle (parent handle : Z) (table : handle_table) : H handle_table :=
  let* src := get_handle parent handle in
  match src with
  | None => ret table
  | Some (_, _, e) =>
      if negb (has (e_access e) RESERVED_INHERIT) then ret table else
      let index := handle_to_index handle in
      let* dst := of_option (entry_at table index) in
      match e_ptr dst, e_ptr e with
      | Some _, _ => ret table
      | None, None => crash
      | None, Some obj =>
          grab_object_for_handle obj >>
          ret (set_last (Z.max (t_last table) index) (set_entry index e table))
      end
  end.

Fixpoint inherit_handles (parent : Z) (l : list Z) (table : handle_table) : H handle_table :=
  match l with
  | [] => ret table
  | h :: l' => let* table := inherit_handle parent h table in inherit_handles parent l' table
  end.

(** The copy of the entries of the parent when no list is given. *)
Fixpoint inherit_all (l : list (option handle_entry)) : H (list (option handle_entry)) :=
  match l with
  | [] => ret []
  | None :: _ => crash
  | Some e :: l' =>
      let* e' :=
        (match e_ptr e with
         | None => ret e
         | Some obj =>
             if has (e_access e) RESERVED_INHERIT then grab_object_for_handle obj >> ret e
             else ret (HandleEntry None (e_access e))
         end) in
      let* r := inherit_all l' in
      ret (Some e' :: r)
  end.

Definition copy_handle_table (process parent : Z) (handles : option (list Z)) (std_handles : list Z) :
    H (option handle_table) :=
  let* parent_table := read_table (Some parent) in
  let* table := alloc_handle_table (Some process) (t_count parent_table) in
  match table with
  | None => ret None
  | Some table =>
      let* table :=
        (match handles with
         | Some l =>
             let n := Z.to_nat (t_count parent_table) in
             let zeroed := replicate n (Some (HandleEntry None 0)) ++ drop n (t_entries table) in
             let* table := inherit_handles parent l
               (HandleTable (t_process table) (t_count table) (t_last table) (t_free table) zeroed) in
             inherit_handles parent std_handles table
         | None =>
             let last := t_last parent_table in
             if 0 <=? last then
               let n := Z.to_nat (last + 1) in
               let* copied := inherit_all (take n (t_entries parent_table)) in
               ret (HandleTable (t_process table) (t_count table) last (t_free table)
                      (copied ++ drop n (t_entries table)))
             else ret (set_last last table)
         end) in
      let* table := shrink_handle_table table in
      ret (Some table)
  end.

Definition close_handle (process handle : Z) : H Z :=
  let index := handle_to_index handle in
  let* entry := get_handle process handle in
  match entry with
  | None => ret STATUS_INVALID_HANDLE
  | Some (_, _, e) =>
      if has (e_access e) RESERVED_CLOSE_PROTECT then ret STATUS_HANDLE_NOT_CLOSABLE else
      let* obj := of_option (e_ptr e) in
      let* x := read_obj obj in
      let* closable := ops_close_handle (o_ops x) obj process handle in
      if negb closable then ret STATUS_HANDLE_NOT_CLOSABLE else
      let k := if handle_is_global handle then None else Some process in
      let* t := read_table k in
      let* old := of_option (entry_at t index) in
      write_entry k index (HandleEntry None (e_access old)) >>
      let* t := read_table k in
      let t := if index <? t_free t then set_free index t else t in
      put_table k t >>
      (if index =? t_last t then
         let* t := shrink_handle_table t in put_table k t
       else ret tt) >>
      release_object_from_handle obj >>
      ret STATUS_SUCCESS
  end.

(** The loop of [handle_table_destroy] over the entries from index [i]. *)
Fixpoint destroy_entries (process : option Z) (l : list (option handle_entry)) (i : Z) : H unit :=
  match l with
  | [] => ret tt
  | None :: _ => crash
  | Some e :: l' =>
      (match e_ptr e with
       | None => ret tt
       | Some obj =>
           let* x := read_obj obj in
           (match process with
            | Some p => ops_close_handle (o_ops x) obj p (index_to_handle i) >> ret tt
            | None => ret tt
            end) >>
           release_object_from_handle obj
       end) >>
      destroy_entries process l' (i + 1)
  end.
Definition handle_table_destroy (t : handle_table) : H unit :=
  destroy_entries (t_process t) (take (Z.to_nat (t_last t + 1)) (t_entries t)) 0.

Definition close_process_handles (process : Z) : H unit :=
  let* s := get in
  match h_tables s !! Some process with
  | None => ret tt
  | Some t => modify (on_tables (delete (Some process))) >> handle_table_destroy t
  end.

(** ** Using handles *)

Definition magic_handle (s : handles) (handle : Z) : option Z :=
  let c := h_current s in
  let token := h_process_token s !! cur_process c in
  if handle =? 0xfffffffa then match cur_token c with Some t => Some t | None => token end
  else if handle =? 0xfffffffb then cur_token c
  else if handle =? 0xfffffffc then token
  else if handle =? 0xfffffffe then Some (cur_thread c)
  else if (handle =? 0x7fffffff) || (handle =? 0xffffffff) then Some (cur_process c)
  else None.
Definition get_magic_handle (handle : Z) : H (option Z) := let* s := get in ret (magic_handle s handle).

(** The object comes with a new reference. *)
Definition get_handle_obj (process handle access : Z) (ops : option Z) : H (option Z) :=
  let* magic := get_magic_handle handle in
  let* obj :=
    (match magic with
     | None =>
         let* entry := get_handle process handle in
         match entry with
         | None => set_error STATUS_INVALID_HANDLE >> ret None
         | Some (_, _, e) =>
             let* obj := of_option (e_ptr e) in
             let* x := read_obj obj in
             if negb (bool_decide (default (o_ops x) ops = o_ops x)) then
               set_error STATUS_OBJECT_TYPE_MISMATCH >> ret None
             else if negb (Z.land (e_access e) access =? access) then
               set_error STATUS_ACCESS_DENIED >> ret None
             else ret (Some obj)
         end
     | Some obj =>
         let* x := read_obj obj in
         if negb (bool_decide (default (o_ops x) ops = o_ops x)) then
           set_error STATUS_OBJECT_TYPE_MISMATCH >> ret None
         else ret (Some obj)
     end) in
  match obj with
  | None => ret None
  | Some obj => grab_object obj >> ret (Some obj)
  end.

Definition get_handle_access (process handle : Z) : H Z :=
  let* magic := get_magic_handle handle in
  match magic with
  | Some _ => ret (Z.ldiff 0xffffffff RESERVED_ALL)
  | None =>
      let* entry := get_handle process handle in
      ret (match entry with
           | None => 0
           | Some (_, _, e) => Z.ldiff (e_access e) RESERVED_ALL
           end)
  end.

(** The index of the first entry that satisfies [p], which may read the objects. *)
Fixpoint find_entry (p : handle_entry → H bool) (l : list (option handle_entry)) (i : Z) : H (option Z) :=
  match l with
  | [] => ret None
  | None :: _ => crash
  | Some e :: l' => let* b := p e in if b then ret (Some i) else find_entry p l' (i + 1)
  end.
Definition used_entries (t : handle_table) : list (option handle_entry) :=
  take (Z.to_nat (t_last t + 1)) (t_entries t).

Definition find_inherited_handle (process ops : Z) : H Z :=
  let* s := get in
  match h_tables s !! Some process with
  | None => ret 0
  | Some t =>
      let* i := find_entry (λ e, match e_ptr e with
                                 | None => ret false
                                 | Some obj => let* x := read_obj obj in
                                               ret ((o_ops x =? ops) && has (e_access e) RESERVED_INHERIT)
                                 end) (used_entries t) 0 in
      ret (match i with None => 0 | Some i => index_to_handle i end)
  end.

(** The number of entries that name an object. *)
Definition names (obj : Z) (e : option handle_entry) : bool := bool_decide ((e ≫= e_ptr) = Some obj).
Definition count_entries (obj : Z) (l : list (option handle_entry)) : Z :=
  Z.of_nat (length (filter (λ e, names obj e = true) l)).
Definition get_obj_handle_count (process obj : Z) : H Z :=
  let* s := get in
  ret (match h_tables s !! Some process with
       | None => 0
       | Some t => u32 (count_entries obj (used_entries t))
       end).

Definition get_handle_table_count (process : Z) : H Z :=
  let* s := get in ret (match h_tables s !! Some process with None => 0 | Some t => t_count t end).

(** Returns the old flags, or -1. *)
Definition set_handle_flags (process handle mask flags : Z) : H Z :=
  let* magic := get_magic_handle handle in
  match magic with
  | Some _ => when (truth mask) (set_error STATUS_ACCESS_DENIED) >> ret 0
  | None =>
      let* entry := get_handle process handle in
      match entry with
      | None => set_error STATUS_INVALID_HANDLE >> ret (-1)
      | Some (k, i, e) =>
          let mask := Z.land (u32 (Z.shiftl mask RESERVED_SHIFT)) RESERVED_ALL in
          let flags := Z.land (u32 (Z.shiftl flags RESERVED_SHIFT)) mask in
          write_entry k i (HandleEntry (e_ptr e) (Z.lor (Z.ldiff (e_access e) mask) flags)) >>
          ret (Z.shiftr (Z.land (e_access e) RESERVED_ALL) RESERVED_SHIFT)
      end
  end.

(** [dst] is [None] for a NULL pointer; [get_handle] reads [process->handles] first,
    so that setting the flags of the new handle also reads through it. *)
Definition duplicate_handle (src src_handle : Z) (dst : option Z) (access attr options : Z) : H Z :=
  let* obj := get_handle_obj src src_handle 0 None in
  match obj with
  | None => ret 0
  | Some obj =>
      let* entry := get_handle src src_handle in
      let* x := read_obj obj in
      let src_access := match entry with
                        | Some (_, _, e) => e_access e
                        | None => ops_map_access (o_ops x) GENERIC_ALL
                        end in
      let src_flags := Z.shiftr (Z.land src_access RESERVED_ALL) RESERVED_SHIFT in
      let src_access := Z.ldiff src_access RESERVED_ALL in
      let access := if has options DUPLICATE_SAME_ACCESS then src_access
                    else Z.ldiff (ops_map_access (o_ops x) access) RESERVED_ALL in
      let* s := get in
      let* res :=
        (if truth (Z.ldiff access src_access) then
           let* a := (match cur_token (h_current s) with
                      | Some token => checked_access (Some token) obj access
                      | None => ret (Some access)
                      end) in
           let* a := (match a with
                      | None => ret None
                      | Some access =>
                          let* dst := of_option dst in
                          checked_access (h_process_token s !! dst) obj access
                      end) in
           match a with
           | None => ret None
           | Some access =>
               let* res := (if has options DUPLICATE_MAKE_GLOBAL then alloc_global_handle obj access
                            else let* dst := of_option dst in
                                 alloc_handle_no_access_check dst obj access attr) in
               ret (Some res)
           end
         else
           let* res :=
             (if has options DUPLICATE_MAKE_GLOBAL then alloc_global_handle_no_access_check obj access
              else match (if has options DUPLICATE_CLOSE_SOURCE && bool_decide (dst = Some src)
                          then entry else None) with
                   | Some (k, i, e) =>
                       if negb (has (e_access e) RESERVED_CLOSE_PROTECT) then
                         let access := if has attr OBJ_INHERIT then Z.lor access RESERVED_INHERIT else access in
                         write_entry k i (HandleEntry (e_ptr e) access) >>
                         ret src_handle
                       else let* dst := of_option dst in alloc_handle_entry dst obj access attr
                   | None => let* dst := of_option dst in alloc_handle_entry dst obj access attr
                   end) in
           ret (Some res)) in
      match res with
      | None => release_object obj >> ret 0
      | Some res =>
          when (truth res && has options DUPLICATE_SAME_ATTRIBUTES)
            (let* dst := of_option dst in set_handle_flags dst res 0xffffffff src_flags >> ret tt) >>
          release_object obj >>
          ret res
      end
  end.

(** ** Requests *)

Definition get_process_from_handle (handle access : Z) : H (option Z) :=
  let* s := get in get_handle_obj (cur_process (h_current s)) handle access (Some process_ops).

Definition req_close_handle (handle : Z) : H unit :=
  let* s := get in
  let* err := close_handle (cur_process (h_current s)) handle in
  set_error err.

Definition req_set_handle_info (handle mask flags : Z) : H Z :=
  let* s := get in set_handle_flags (cur_process (h_current s)) handle mask flags.

Definition req_dup_handle (src_process src_handle dst_process access attributes options : Z) : H Z :=
  let* src := get_process_from_handle src_process PROCESS_DUP_HANDLE in
  match src with
  | None => ret 0
  | Some src =>
      let* r :=
        (if has options DUPLICATE_MAKE_GLOBAL then
           let* h := duplicate_handle src src_handle None access attributes options in ret (h, None)
         else
           let* dst := get_process_from_handle dst_process PROCESS_DUP_HANDLE in
           match dst with
           | None => ret (0, None)
           | Some dst =>
               let* h := duplicate_handle src src_handle (Some dst) access attributes options in
               release_object dst >>
               ret (h, Some dst)
           end) in
      let (h, dst) := r in
      when (has options DUPLICATE_CLOSE_SOURCE && (negb (bool_decide (Some src = dst)) || negb (src_handle =? h)))
        (close_handle src src_handle >> ret tt) >>
      release_object src >>
      ret h
  end.

(** The reply: access, reference count and handle count. *)
Definition req_get_object_info (handle : Z) : H (option (Z * Z * Z)) :=
  let* s := get in
  let process := cur_process (h_current s) in
  let* obj := get_handle_obj process handle 0 None in
  match obj with
  | None => ret None
  | Some obj =>
      let* access := get_handle_access process handle in
      let* x := read_obj obj in
      release_object obj >>
      ret (Some (access, o_refcount x, o_handle_count x))
  end.

Definition DELETE : Z := 0x00010000.

(** [make_object_permanent] and [make_object_temporary] set the flag of the object. *)
Definition req_set_object_permanence (handle : Z) (permanent : bool) : H unit :=
  let access := if permanent then 0 else DELETE in
  let* s := get in
  let* obj := get_handle_obj (cur_process (h_current s)) handle access None in
  match obj with
  | None => ret tt
  | Some obj =>
      let* x := read_obj obj in
      (if permanent && negb (o_permanent x) then
         grab_object obj >>
         let* x := read_obj obj in put_obj obj (set_permanent true x)
       else if negb permanent && o_permanent x then
         put_obj obj (set_permanent false x) >>
         release_object obj
       else ret tt) >>
      release_object obj
  end.

Definition req_compare_objects (first second : Z) : H unit :=
  let* s := get in
  let process := cur_process (h_current s) in
  let* obj1 := get_handle_obj process first 0 None in
  match obj1 with
  | None => ret tt
  | Some obj1 =>
      let* obj2 := get_handle_obj process second 0 None in
      match obj2 with
      | None => release_object obj1
      | Some obj2 =>
          when (negb (obj1 =? obj2)) (set_error STATUS_NOT_SAME_OBJECT) >>
          release_object obj2 >>
          release_object obj1
      end
  end.

(** What [get_system_handles] reports of an entry. *)
Record handle_info := HandleInfo { hi_owner : Z; hi_handle : Z; hi_access : Z; hi_attributes : Z; hi_type : Z }.
Fixpoint enum_entries (owner : Z) (l : list (option handle_entry)) (i : Z) : H (list handle_info) :=
  match l with
  | [] => ret []
  | None :: _ => crash
  | Some e :: l' =>
      match e_ptr e with
      | None => enum_entries owner l' (i + 1)
      | Some obj =>
          let* x := read_obj obj in
          let* r := enum_entries owner l' (i + 1) in
          ret (HandleInfo owner (index_to_handle i) (Z.ldiff (e_access e) RESERVED_ALL)
                 (Z.lor (if has (e_access e) RESERVED_INHERIT then OBJ_INHERIT else 0)
                        (if has (e_access e) RESERVED_CLOSE_PROTECT then OBJ_PROTECT_CLOSE else 0))
                 (ops_type (o_ops x)) :: r)
      end
  end.
(** [id] is [process->id]. *)
Definition enum_handles (process id : Z) : H (list handle_info) :=
  let* s := get in
  match h_tables s !! Some process with
  | None => ret []
  | Some t => enum_entries id (used_entries t) 0
  end.
End Handles.

(** ** The abstract view of the tables *)

(** The object and the access that index [i] of a table stands for. *)
Definition slot (t : handle_table) (i : Z) : option (Z * Z) :=
  if i <=? t_last t then
    match entry_at t i with
    | Some (HandleEntry (Some o) a) => Some (o, a)
    | _ => None
    end
  else None.
Definition slots (s : handles) (k : option Z) (i : Z) : option (Z * Z) := h_tables s !! k ≫= λ t, slot t i.

Record table_ok (t : handle_table) : Prop := {
  tk_length : Z.of_nat (length (t_entries t)) = t_count t;
  tk_count : MIN_HANDLE_ENTRIES ≤ t_count t ≤ MAX_HANDLE_ENTRIES;
  tk_last : -1 ≤ t_last t < t_count t;
  tk_free : 0 ≤ t_free t ≤ t_last t + 1;
  tk_init : ∀ i, 0 ≤ i ≤ t_last t → is_Some (entry_at t i);
  tk_used : ∀ i, 0 ≤ i < t_free t → is_Some (slot t i)
}.

(** The entries that name [o] are [n] in number. *)
Definition counts (s : handles) (o : Z) (n : Z) : Prop :=
  ∃ U : gset (option Z * Z), (∀ k i, (k, i) ∈ U ↔ ∃ a, slots s k i = Some (o, a)) ∧ n = Z.of_nat (size U).

(** [extra o] handles on [o] are kept in tables that are not stored, and [held o]
    references on [o] do not come from handles. *)
Record inv `{ObjectOps} (extra held : Z → Z) (s : handles) : Prop := {
  inv_tables : ∀ k t, h_tables s !! k = Some t → table_ok t;
  inv_counts : ∀ o x, h_objects s !! o = Some x →
    counts s o (o_handle_count x - extra o) ∧ o_handle_count x + held o ≤ o_refcount x ≤ INT_MAX ∧ 0 < o_refcount x;
  inv_types : ∀ o x, h_objects s !! o = Some x → is_Some (h_types s !! ops_type (o_ops x));
  inv_named : ∀ k i o a, slots s k i = Some (o, a) → is_Some (h_objects s !! o);
  inv_extra : ∀ o, 0 ≤ extra o ∧ (0 < extra o → is_Some (h_objects s !! o));
  inv_held : ∀ o, 0 ≤ held o ∧ (0 < held o → is_Some (h_objects s !! o))
}.

(** At least [n] references can be taken on every object. *)
Definition room (n : Z) (s : handles) : Prop := ∀ o x, h_objects s !! o = Some x → o_refcount x + n ≤ INT_MAX.

Definition bump (o : Z) (f : Z → Z) : Z → Z := λ o', f o' + Z.b2z (o' =? o).
Definition drop_one (o : Z) (f : Z → Z) : Z → Z := λ o', f o' - Z.b2z (o' =? o).
Definition zero : Z → Z := λ _, 0.

(** ** Entries *)

Lemma entry_at_lookup t i : 0 ≤ i → entry_at t i = mjoin (t_entries t !! Z.to_nat i).
Proof. intros. unfold entry_at. by rewrite (proj2 (Z.leb_le 0 i)). Qed.

Lemma entry_at_range t i e : entry_at t i = Some e → 0 ≤ i < Z.of_nat (length (t_entries t)).
Proof.
  unfold entry_at. destruct (Z.leb_spec 0 i); [|done]. intros E.
  destruct (t_entries t !! Z.to_nat i) as [x|] eqn:E'; [|done]. apply lookup_lt_Some in E'. lia.
Qed.

Lemma slot_range t i v : slot t i = Some v → 0 ≤ i ≤ t_last t.
Proof.
  unfold slot. destruct (Z.leb_spec i (t_last t)); [|done].
  destruct (entry_at t i) as [e|] eqn:E; [|done]. apply entry_at_range in E. lia.
Qed.

Lemma slot_entry t i o a : slot t i = Some (o, a) ↔ i ≤ t_last t ∧ entry_at t i = Some (HandleEntry (Some o) a).
Proof.
  unfold slot. destruct (Z.leb_spec i (t_last t)); [|naive_solver lia].
  destruct (entry_at t i) as [[[o'|] a']|]; naive_solver.
Qed.

(** An index in use that names nothing. *)
Lemma slot_free t i : table_ok t → 0 ≤ i ≤ t_last t → slot t i = None →
  ∃ a, entry_at t i = Some (HandleEntry None a).
Proof.
  intros Ht Hi. unfold slot. rewrite (proj2 (Z.leb_le i _)) by lia. destruct (tk_init _ Ht i Hi) as [[[o|] a] ->]; eauto. done.
Qed.

Lemma entry_at_set t i e j : 0 ≤ i < Z.of_nat (length (t_entries t)) →
  entry_at (set_entry i e t) j = if decide (j = i) then Some e else entry_at t j.
Proof.
  intros Hi. destruct (decide (j = i)) as [->|Hne].
  - rewrite entry_at_lookup by lia. cbn. by rewrite list_lookup_insert_eq by lia.
  - unfold entry_at. destruct (Z.leb_spec 0 j); [|done]. cbn. by rewrite list_lookup_insert_ne by lia.
Qed.

Lemma slot_set t i o a j : 0 ≤ i < Z.of_nat (length (t_entries t)) → i ≤ t_last t →
  slot (set_entry i (HandleEntry o a) t) j =
    if decide (j = i) then (λ o, (o, a)) <$> o else slot t j.
Proof.
  intros Hi Hl. unfold slot. rewrite entry_at_set by done. cbn. destruct (decide (j = i)) as [->|]; [|done].
  rewrite (proj2 (Z.leb_le i _)) by lia. by destruct o.
Qed.

Lemma slots_table s k t i : h_tables s !! k = Some t → slots s k i = slot t i.
Proof. unfold slots. by intros ->. Qed.

(** ** Finding a free index *)

Lemma scan_free_ok t i n : table_ok t → 0 ≤ i → i + Z.of_nat n = t_last t + 1 →
  ∃ r, scan_free t i n = Some r ∧ i ≤ r ≤ t_last t + 1 ∧ (∀ j, i ≤ j < r → is_Some (slot t j)) ∧ slot t r = None.
Proof.
  intros Ht. revert i. induction n as [|n IH]; intros i Hi Hn; cbn [scan_free].
  - exists i. split_and!; [done|lia|lia|intros; lia|]. unfold slot. by rewrite (proj2 (Z.leb_gt i _)) by lia.
  - destruct (tk_init _ Ht i) as [[[o|] a] E]; [lia| |]; rewrite E; cbn.
    + destruct (IH (i + 1)) as (r & -> & Hr & Hu & Hn'); [lia|lia|]. exists r. split_and!; [done|lia|lia| |done].
      intros j Hj. destruct (decide (j = i)) as [->|]; [|apply Hu; lia].
      exists (o, a). apply slot_entry. split; [lia|done].
    + exists i. split_and!; [done|lia|lia|intros; lia|]. unfold slot. by rewrite (proj2 (Z.leb_le i _)), E by lia.
Qed.

(** The least index that names nothing. *)
Definition first_free (t : handle_table) (r : Z) : Prop :=
  0 ≤ r ≤ t_last t + 1 ∧ (∀ j, 0 ≤ j < r → is_Some (slot t j)) ∧ slot t r = None.

Lemma scan_free_first t : table_ok t →
  ∃ r, scan_free t (t_free t) (Z.to_nat (t_last t + 1 - t_free t)) = Some r ∧ first_free t r.
Proof.
  intros Ht. pose proof (tk_free _ Ht) as Hf. destruct (scan_free_ok t (t_free t) (Z.to_nat (t_last t + 1 - t_free t)))
    as (r & E & Hr & Hu & Hn); [done|lia|lia|]. exists r. split; [done|]. split_and!; [lia|lia| |done].
  intros j Hj. destruct (decide (j < t_free t)); [apply (tk_used _ Ht); lia|apply Hu; lia].
Qed.

(** ** References *)

Lemma counts_ext s s' o n : (∀ k i, slots s' k i = slots s k i) → counts s o n → counts s' o n.
Proof. intros E (U & HU & ->). exists U. split; [|done]. intros. rewrite HU. by rewrite E. Qed.

Lemma counts_zero s o n k i a : counts s o n → slots s k i = Some (o, a) → 0 < n.
Proof.
  intros (U & HU & ->) E. assert ((k, i) ∈ U) by (apply HU; eauto).
  assert (size U ≠ 0%nat); [|lia]. intros ?%size_empty_inv. set_solver.
Qed.

Lemma counts_nonneg s o n : counts s o n → 0 ≤ n.
Proof. intros (U & _ & ->). lia. Qed.

Lemma counts_fun s o n m : counts s o n → counts s o m → n = m.
Proof.
  intros (U & HU & ->) (V & HV & ->). do 2 f_equal. apply set_eq. intros [k i]. by rewrite HU, HV.
Qed.

(** Only the object [o] changes. *)
Definition only (o : Z) (s s' : handles) : Prop :=
  h_tables s' = h_tables s ∧ h_process_token s' = h_process_token s ∧ h_current s' = h_current s ∧
  ∀ o', o' ≠ o → h_objects s' !! o' = h_objects s !! o'.

Lemma only_slots o s s' k i : only o s s' → slots s' k i = slots s k i.
Proof. intros (E & _). unfold slots. by rewrite E. Qed.

Section References.
Context `{ObjectOps}.

Lemma inv_ext (e e' h h' : Z → Z) s :
  (∀ o, e' o = e o) → (∀ o, h' o = h o) → inv e h s → inv e' h' s.
Proof.
  intros E1 E2 I. constructor; try apply I.
  - intros o x Hx. rewrite E1, E2. by apply (inv_counts _ _ _ I).
  - intros o. rewrite E1. by apply (inv_extra _ _ _ I).
  - intros o. rewrite E2. by apply (inv_held _ _ _ I).
Qed.

(** Changing the counts of one object. *)
Lemma inv_only e h e' h' s s' o x r c :
  inv e h s → only o s s' → h_objects s !! o = Some x → h_objects s' !! o = Some (set_refs r c x) →
  (∀ i, is_Some (h_types s !! i) → is_Some (h_types s' !! i)) →
  (∀ o', o' ≠ o → e' o' = e o' ∧ h' o' = h o') →
  c - e' o = o_handle_count x - e o → 0 ≤ e' o → 0 ≤ h' o → c + h' o ≤ r ≤ INT_MAX → 0 < r →
  inv e' h' s'.
Proof.
  intros I Ho Hx Hx' Hty Hoth Hc He Hh Hr Hp. pose proof Ho as (Et & _ & _ & Eo).
  assert (Hex : ∀ o', is_Some (h_objects s !! o') → is_Some (h_objects s' !! o')).
  { intros o' Hs. destruct (decide (o' = o)) as [->|Hne]; [by eexists|by rewrite Eo]. }
  constructor.
  - rewrite Et. apply I.
  - intros o' y Hy. destruct (decide (o' = o)) as [->|Hne].
    + rewrite Hx' in Hy. injection Hy as <-. cbn. destruct (inv_counts _ _ _ I o x Hx) as (Hn & _ & _).
      split_and!; [|lia|lia|lia]. eapply counts_ext; [by intros; apply (only_slots o)|]. by rewrite Hc.
    + rewrite Eo in Hy by done. destruct (inv_counts _ _ _ I o' y Hy) as (Hn & H1 & H2).
      destruct (Hoth o' Hne) as [-> ->]. split_and!; [|lia|lia|lia].
      eapply counts_ext; [by intros; apply (only_slots o)|done].
  - intros o' y Hy. destruct (decide (o' = o)) as [->|Hne].
    + rewrite Hx' in Hy. injection Hy as <-. apply Hty. by apply (inv_types _ _ _ I o x).
    + rewrite Eo in Hy by done. apply Hty. by apply (inv_types _ _ _ I o' y).
  - intros k i o' a Hs. rewrite (only_slots o s) in Hs by done. apply Hex. by eapply (inv_named _ _ _ I).
  - intros o'. destruct (decide (o' = o)) as [->|Hne].
    + split; [done|]. intros _. by eexists.
    + destruct (Hoth o' Hne) as [-> _]. destruct (inv_extra _ _ _ I o'). auto.
  - intros o'. destruct (decide (o' = o)) as [->|Hne].
    + split; [done|]. intros _. by eexists.
    + destruct (Hoth o' Hne) as [_ ->]. destruct (inv_held _ _ _ I o'). auto.
Qed.

(** Freeing an object that nothing refers to. *)
Lemma inv_free e h e' h' s s' o x :
  inv e h s → only o s s' → h_objects s !! o = Some x → h_objects s' !! o = None →
  (∀ i, is_Some (h_types s !! i) → is_Some (h_types s' !! i)) →
  (∀ o', o' ≠ o → e' o' = e o' ∧ h' o' = h o') →
  o_handle_count x = e o → e' o = 0 → h' o = 0 → inv e' h' s'.
Proof.
  intros I Ho Hx Hx' Hty Hoth Hc He Hh. pose proof Ho as (Et & _ & _ & Eo).
  constructor.
  - rewrite Et. apply I.
  - intros o' y Hy. destruct (decide (o' = o)) as [->|Hne]; [congruence|].
    rewrite Eo in Hy by done. destruct (inv_counts _ _ _ I o' y Hy) as (Hn & H1 & H2).
    destruct (Hoth o' Hne) as [-> ->]. split_and!; [|lia|lia|lia].
    eapply counts_ext; [by intros; apply (only_slots o)|done].
  - intros o' y Hy. destruct (decide (o' = o)) as [->|Hne]; [congruence|].
    rewrite Eo in Hy by done. apply Hty. by apply (inv_types _ _ _ I o' y).
  - intros k i o' a Hs. rewrite (only_slots o s) in Hs by done. destruct (decide (o' = o)) as [->|Hne].
    + destruct (inv_counts _ _ _ I o x Hx) as (Hn & _). pose proof (counts_zero _ _ _ _ _ _ Hn Hs). lia.
    + rewrite Eo by done. by eapply (inv_named _ _ _ I).
  - intros o'. destruct (decide (o' = o)) as [->|Hne]; [lia|].
    destruct (Hoth o' Hne) as [-> _]. rewrite Eo by done. apply I.
  - intros o'. destruct (decide (o' = o)) as [->|Hne]; [lia|].
    destruct (Hoth o' Hne) as [_ ->]. rewrite Eo by done. apply I.
Qed.

Lemma wp_read_obj o x s w Q : h_objects s !! o = Some x → Q x s w → wp (read_obj o) s w Q.
Proof. intros E HQ. unfold read_obj. rewrite wp_bind, wp_get, E. done. Qed.

Lemma wp_read_table k t s w Q : h_tables s !! k = Some t → Q t s w → wp (read_table k) s w Q.
Proof. intros E HQ. unfold read_table. rewrite wp_bind, wp_get, E. done. Qed.

Lemma wp_on_type o x f s w Q :
  h_objects s !! o = Some x → is_Some (h_types s !! ops_type (o_ops x)) →
  (∀ ty, Q tt (on_types (<[ops_type (o_ops x) := ty]>) s) w) → wp (on_type o f) s w Q.
Proof.
  intros E [ty Ety] HQ. unfold on_type. rewrite wp_bind. eapply wp_read_obj; [done|].
  rewrite wp_bind, wp_get, wp_bind, Ety. cbn. apply wp_ret. by rewrite wp_modify.
Qed.

Lemma bump_eq o f : bump o f o = f o + 1.
Proof. unfold bump. by rewrite Z.eqb_refl. Qed.

Lemma bump_ne o f o' : o' ≠ o → bump o f o' = f o'.
Proof. intros. unfold bump. destruct (Z.eqb_spec o' o); [done|]. cbn. lia. Qed.

Lemma drop_one_eq o f : drop_one o f o = f o - 1.
Proof. unfold drop_one. by rewrite Z.eqb_refl. Qed.

Lemma drop_one_ne o f o' : o' ≠ o → drop_one o f o' = f o'.
Proof. intros. unfold drop_one. destruct (Z.eqb_spec o' o); [done|]. cbn. lia. Qed.

Lemma drop_bump o f o' : drop_one o (bump o f) o' = f o'.
Proof. unfold drop_one, bump. lia. Qed.

Lemma grab_object_ok e h s w o x :
  inv e h s → h_objects s !! o = Some x → o_refcount x < INT_MAX →
  wp (grab_object o) s w (λ _ s' w', w' = w ∧ inv e (bump o h) s' ∧ only o s s' ∧
    h_objects s' !! o = Some (set_refs (o_refcount x + 1) (o_handle_count x) x)).
Proof.
  intros I Hx Hr. unfold grab_object, put_obj. rewrite wp_bind. eapply wp_read_obj; [done|].
  rewrite wp_bind, wp_assert. split; [lia|]. rewrite wp_modify. set (s' := on_objects _ s).
  assert (Ho : only o s s').
  { split_and!; try done. intros. cbn. by rewrite lookup_insert_ne. }
  assert (Hx' : h_objects s' !! o = Some (set_refs (o_refcount x + 1) (o_handle_count x) x)) by apply lookup_insert_eq.
  split_and!; try done.
  destruct (inv_counts _ _ _ I o x Hx) as (_ & ? & ?). pose proof (inv_extra _ _ _ I o). pose proof (inv_held _ _ _ I o).
  eapply inv_only; [done|done|done|done|done| |rewrite ?bump_eq; lia..].
  intros o' Hne. by rewrite bump_ne.
Qed.

Lemma release_object_ok e h s w o x :
  inv e h s → h_objects s !! o = Some x → 0 < h o →
  wp (release_object o) s w (λ _ s' w', w' = w ∧ inv e (drop_one o h) s' ∧ only o s s' ∧
    h_objects s' !! o = if o_refcount x =? 1 then None
                        else Some (set_refs (o_refcount x - 1) (o_handle_count x) x)).
Proof.
  intros I Hx Hh. unfold release_object, put_obj. rewrite wp_bind. eapply wp_read_obj; [done|].
  destruct (inv_counts _ _ _ I o x Hx) as (Hn & Hr & Hp). pose proof (counts_nonneg _ _ _ Hn).
  pose proof (inv_extra _ _ _ I o) as [He _].
  rewrite wp_bind, wp_assert. split; [lia|]. replace (o_refcount x - 1 =? 0) with (o_refcount x =? 1) by lia.
  assert (Hd : ∀ o', o' ≠ o → e o' = e o' ∧ drop_one o h o' = h o') by (intros; by rewrite drop_one_ne).
  destruct (Z.eqb_spec (o_refcount x) 1) as [E1|].
  - rewrite wp_bind, wp_assert. split; [lia|]. rewrite wp_modify.
    assert (Ho : only o s (on_objects (delete o) s)).
    { split_and!; try done. intros. cbn. by rewrite lookup_delete_ne. }
    split_and!; [done| |done|apply lookup_delete_eq].
    eapply (inv_free e h e _ s _ o x); [done|done|done|apply lookup_delete_eq|done|exact Hd|rewrite ?drop_one_eq; lia..].
  - rewrite wp_modify. set (s' := on_objects _ s).
    assert (Ho : only o s s').
    { split_and!; try done. intros. cbn. by rewrite lookup_insert_ne. }
    assert (Hx' : h_objects s' !! o = Some (set_refs (o_refcount x - 1) (o_handle_count x) x)) by apply lookup_insert_eq.
    split_and!; try done.
    eapply (inv_only e h e _ s s' o x); [done|done|done|done|done|exact Hd|rewrite ?drop_one_eq; lia..].
Qed.

Lemma on_types_objects f s : h_objects (on_types f s) = h_objects s.
Proof. done. Qed.

Lemma types_kept i ty (s : handles) j : is_Some (h_types s !! j) → is_Some (<[i := ty]> (h_types s) !! j).
Proof. intros. destruct (decide (j = i)) as [->|]; [rewrite lookup_insert_eq|rewrite lookup_insert_ne by done]; eauto. Qed.

Lemma grab_object_for_handle_ok e h s w o x :
  inv e h s → h_objects s !! o = Some x → o_refcount x < INT_MAX →
  wp (grab_object_for_handle o) s w (λ _ s' w', w' = w ∧ inv (bump o e) h s' ∧ only o s s' ∧
    h_objects s' !! o = Some (set_refs (o_refcount x + 1) (o_handle_count x + 1) x)).
Proof.
  intros I Hx Hr. destruct (inv_counts _ _ _ I o x Hx) as (Hn & Hb & Hp). pose proof (counts_nonneg _ _ _ Hn).
  pose proof (inv_extra _ _ _ I o) as [He _]. pose proof (inv_held _ _ _ I o) as [Hh _].
  pose proof (inv_types _ _ _ I o x Hx) as Hty.
  unfold grab_object_for_handle, put_obj. rewrite wp_bind. eapply wp_read_obj; [done|].
  rewrite wp_bind, wp_modify, u32_small by (unfold INT_MAX in *; lia). set (s1 := on_objects _ s).
  set (x1 := set_refs (o_refcount x) (o_handle_count x + 1) x).
  assert (Hx1 : h_objects s1 !! o = Some x1) by apply lookup_insert_eq.
  rewrite wp_bind. eapply (wp_on_type o x1); [done|done|]. intros ty.
  unfold grab_object, put_obj. rewrite wp_bind. eapply (wp_read_obj o x1); [done|].
  rewrite wp_bind, wp_assert. split; [cbn; lia|]. rewrite wp_modify. cbn [o_refcount o_handle_count x1 set_refs].
  set (s' := on_objects _ _).
  assert (Ho : only o s s').
  { split_and!; try done. intros. cbn. by rewrite !lookup_insert_ne. }
  assert (Hx' : h_objects s' !! o = Some (set_refs (o_refcount x + 1) (o_handle_count x + 1) x)).
  { cbn. by rewrite lookup_insert_eq. }
  split_and!; [done| |done|done].
  eapply (inv_only e h _ _ s s' o x); [done|done|done|done| | |rewrite ?bump_eq; lia..].
  - intros j Hj. exact (types_kept _ _ s j Hj).
  - intros o' Hne. by rewrite bump_ne.
Qed.

Lemma release_object_from_handle_ok e h s w o x :
  inv e h s → h_objects s !! o = Some x → 0 < e o →
  wp (release_object_from_handle o) s w (λ _ s' w', w' = w ∧ inv (drop_one o e) h s' ∧ only o s s' ∧
    h_objects s' !! o = if o_refcount x =? 1 then None
                        else Some (set_refs (o_refcount x - 1) (o_handle_count x - 1) x)).
Proof.
  intros I Hx Hpos. destruct (inv_counts _ _ _ I o x Hx) as (Hn & Hb & Hp). pose proof (counts_nonneg _ _ _ Hn).
  pose proof (inv_held _ _ _ I o) as [Hh _]. pose proof (inv_types _ _ _ I o x Hx) as Hty.
  unfold release_object_from_handle, put_obj. rewrite wp_bind. eapply wp_read_obj; [done|].
  rewrite wp_bind, wp_assert. split; [lia|]. rewrite wp_bind. eapply wp_on_type; [done|done|]. intros ty.
  rewrite wp_bind, wp_modify. set (x1 := set_refs (o_refcount x) (o_handle_count x - 1) x).
  unfold release_object, put_obj. rewrite wp_bind. eapply (wp_read_obj o x1); [apply lookup_insert_eq|].
  rewrite wp_bind, wp_assert. split; [cbn; lia|]. cbn [o_refcount o_handle_count x1 set_refs].
  replace (o_refcount x - 1 =? 0) with (o_refcount x =? 1) by lia.
  assert (Hd : ∀ o', o' ≠ o → drop_one o e o' = e o' ∧ h o' = h o') by (intros; by rewrite drop_one_ne).
  destruct (Z.eqb_spec (o_refcount x) 1) as [E1|].
  - rewrite wp_bind, wp_assert. split; [lia|]. rewrite wp_modify. set (s' := on_objects _ _).
    assert (Ho : only o s s').
    { split_and!; try done. intros. cbn. by rewrite lookup_delete_ne, lookup_insert_ne. }
    split_and!; [done| |done|apply lookup_delete_eq].
    eapply (inv_free e h _ _ s s' o x); [done|done|done|apply lookup_delete_eq| |done|rewrite ?drop_one_eq; lia..].
    intros j Hj. exact (types_kept _ _ s j Hj).
  - rewrite wp_modify. set (s' := on_objects _ _).
    assert (Ho : only o s s').
    { split_and!; try done. intros. cbn. by rewrite !lookup_insert_ne. }
    assert (Hx' : h_objects s' !! o = Some (set_refs (o_refcount x - 1) (o_handle_count x - 1) x)).
    { cbn. by rewrite lookup_insert_eq. }
    split_and!; [done| |done|done].
    eapply (inv_only e h _ _ s s' o x); [done|done|done|done| |done|rewrite ?drop_one_eq; lia..].
    intros j Hj. exact (types_kept _ _ s j Hj).
Qed.
End References.

(** ** Storing a table *)

Lemma slots_put k t s k' i : slots (on_tables (<[k := t]>) s) k' i = if decide (k' = k) then slot t i else slots s k' i.
Proof.
  unfold slots. cbn. destruct (decide (k' = k)) as [->|]; [by rewrite lookup_insert_eq|by rewrite lookup_insert_ne].
Qed.

(** A slot of a table is filled or emptied. *)
Lemma counts_add s s' o n k i a :
  counts s o n → slots s k i = None → slots s' k i = Some (o, a) →
  (∀ k' i', (k', i') ≠ (k, i) → slots s' k' i' = slots s k' i') → counts s' o (n + 1).
Proof.
  intros (U & HU & ->) E E' Hs. assert (Hni : (k, i) ∉ U) by (rewrite HU, E; naive_solver).
  exists ({[(k, i)]} ∪ U). split.
  - intros k' i'. rewrite elem_of_union, elem_of_singleton. destruct (decide ((k', i') = (k, i))) as [[= -> ->]|Hne].
    + split; [eauto|auto].
    + rewrite (Hs k' i') by done. rewrite <- HU. naive_solver.
  - rewrite size_union, size_singleton; [lia|]. set_solver.
Qed.

Lemma counts_remove s s' o n k i a :
  counts s o n → slots s k i = Some (o, a) → slots s' k i = None →
  (∀ k' i', (k', i') ≠ (k, i) → slots s' k' i' = slots s k' i') → counts s' o (n - 1).
Proof.
  intros (U & HU & ->) E E' Hs. assert (Hi : (k, i) ∈ U) by (rewrite HU, E; eauto).
  exists (U ∖ {[(k, i)]}). split.
  - intros k' i'. rewrite elem_of_difference, elem_of_singleton. destruct (decide ((k', i') = (k, i))) as [[= -> ->]|Hne].
    + rewrite E'. naive_solver.
    + rewrite (Hs k' i') by done. rewrite <- HU. naive_solver.
  - assert (Hsz : size (U ∖ {[(k, i)]} ∪ {[(k, i)]}) = (size (U ∖ {[(k, i)]}) + 1)%nat).
    { rewrite size_union, size_singleton by set_solver. done. }
    rewrite difference_union_L in Hsz.
    assert (EU : U ∪ {[(k, i)]} = U) by set_solver. rewrite EU in Hsz. lia.
Qed.

Lemma counts_same s s' o n k i :
  counts s o n → (∀ a, slots s k i ≠ Some (o, a)) → (∀ a, slots s' k i ≠ Some (o, a)) →
  (∀ k' i', (k', i') ≠ (k, i) → slots s' k' i' = slots s k' i') → counts s' o n.
Proof.
  intros (U & HU & ->) E E' Hs. exists U. split; [|done]. intros k' i'. rewrite HU.
  destruct (decide ((k', i') = (k, i))) as [[= -> ->]|Hne]; [naive_solver|by rewrite Hs].
Qed.

Section Tables.
Context `{ObjectOps}.

Lemma inv_put e e' h s k t :
  inv e h s → table_ok t →
  (∀ o n, counts s o n → counts (on_tables (<[k := t]>) s) o (n + (e o - e' o))) →
  (∀ i o a, slot t i = Some (o, a) → is_Some (h_objects s !! o)) →
  (∀ o, 0 ≤ e' o ∧ (0 < e' o → is_Some (h_objects s !! o))) →
  inv e' h (on_tables (<[k := t]>) s).
Proof.
  intros I Ht Hc Hn He. constructor; try apply I.
  - cbn. intros k' t' [[-> ->]|[? Hk']]%lookup_insert_Some; [done|by eapply (inv_tables _ _ _ I)].
  - intros o x Hx. destruct (inv_counts _ _ _ I o x Hx) as (H1 & H2 & H3). split_and!; [|lia|lia|lia].
    apply Hc in H1. replace (o_handle_count x - e' o) with (o_handle_count x - e o + (e o - e' o)) by lia. done.
  - intros k' i o a. rewrite slots_put. cbn. destruct (decide (k' = k)); [apply Hn|apply (inv_named _ _ _ I)].
  - done.
Qed.

(** Where the old table agrees with the new one. *)
Definition differs_at (s : handles) (k : option Z) (t : handle_table) (i : Z) : Prop :=
  ∀ j, j ≠ i → slot t j = slots s k j.

Lemma differs_slots s k t i : differs_at s k t i →
  ∀ k' i', (k', i') ≠ (k, i) → slots (on_tables (<[k := t]>) s) k' i' = slots s k' i'.
Proof.
  intros Hd k' i' Hne. rewrite slots_put. destruct (decide (k' = k)) as [->|]; [|done]. apply Hd. congruence.
Qed.

Lemma inv_put_same e h s k t :
  inv e h s → table_ok t → (∀ i, slot t i = slots s k i) → inv e h (on_tables (<[k := t]>) s).
Proof.
  intros I Ht Hs. apply (inv_put e); [done|done| | |apply I].
  - intros o n Hn. rewrite Z.sub_diag, Z.add_0_r. eapply counts_ext; [|done]. intros k' i. rewrite slots_put.
    destruct (decide (k' = k)) as [->|]; [apply Hs|done].
  - intros i o a. rewrite Hs. apply (inv_named _ _ _ I).
Qed.

Lemma inv_put_fill e h s k t i o a :
  inv e h s → table_ok t → differs_at s k t i → slots s k i = None → slot t i = Some (o, a) → 0 < e o →
  inv (drop_one o e) h (on_tables (<[k := t]>) s).
Proof.
  intros I Ht Hd Ho Hn He. apply (inv_put e); [done|done| | |].
  - intros o' n Hc. assert (Hs' : slots (on_tables (<[k := t]>) s) k i = Some (o, a)).
    { rewrite slots_put. by rewrite decide_True. }
    pose proof (differs_slots _ _ _ _ Hd) as Hoth. destruct (decide (o' = o)) as [->|Hne].
    + rewrite drop_one_eq. replace (n + (e o - (e o - 1))) with (n + 1) by lia. by eapply counts_add.
    + rewrite drop_one_ne by done. rewrite Z.sub_diag, Z.add_0_r. eapply counts_same; [done| | |done].
      * rewrite Ho. done.
      * rewrite Hs'. congruence.
  - intros j o' a' Hj. destruct (decide (j = i)) as [->|Hne].
    + rewrite Hn in Hj. injection Hj as <- <-. by apply (inv_extra _ _ _ I).
    + rewrite Hd in Hj by done. by eapply (inv_named _ _ _ I).
  - intros o'. destruct (inv_extra _ _ _ I o') as [? Hx]. destruct (decide (o' = o)) as [->|Hne];
      [rewrite drop_one_eq|by rewrite drop_one_ne]. split; [lia|]. intros. apply Hx. lia.
Qed.

Lemma inv_put_clear e h s k t i o a :
  inv e h s → table_ok t → differs_at s k t i → slots s k i = Some (o, a) → slot t i = None →
  inv (bump o e) h (on_tables (<[k := t]>) s).
Proof.
  intros I Ht Hd Ho Hn. pose proof (inv_named _ _ _ I _ _ _ _ Ho) as Hex. apply (inv_put e); [done|done| | |].
  - intros o' n Hc. assert (Hs' : slots (on_tables (<[k := t]>) s) k i = None).
    { rewrite slots_put. by rewrite decide_True. }
    pose proof (differs_slots _ _ _ _ Hd) as Hoth. destruct (decide (o' = o)) as [->|Hne].
    + rewrite bump_eq. replace (n + (e o - (e o + 1))) with (n - 1) by lia. by eapply counts_remove.
    + rewrite bump_ne by done. rewrite Z.sub_diag, Z.add_0_r. eapply counts_same; [done| | |done].
      * rewrite Ho. congruence.
      * by rewrite Hs'.
  - intros j o' a' Hj. destruct (decide (j = i)) as [->|Hne]; [congruence|].
    rewrite Hd in Hj by done. by eapply (inv_named _ _ _ I).
  - intros o'. pose proof (inv_extra _ _ _ I o'). destruct (decide (o' = o)) as [->|Hne];
      [rewrite bump_eq|by rewrite bump_ne]. split; [lia|]. done.
Qed.

Lemma inv_put_access e h s k t i o a a' :
  inv e h s → table_ok t → differs_at s k t i → slots s k i = Some (o, a) → slot t i = Some (o, a') →
  inv e h (on_tables (<[k := t]>) s).
Proof.
  intros I Ht Hd Ho Hn. apply (inv_put e); [done|done| | |apply I].
  - intros o' n (U & HU & ->). rewrite Z.sub_diag, Z.add_0_r. exists U. split; [|done]. intros k' i'. rewrite HU.
    destruct (decide ((k', i') = (k, i))) as [[= -> ->]|Hne]; [|by rewrite (differs_slots _ _ _ _ Hd)].
    rewrite slots_put, decide_True by done. rewrite Hn, Ho. naive_solver.
  - intros j o' a'' Hj. destruct (decide (j = i)) as [->|Hne].
    + rewrite Hn in Hj. injection Hj as <- <-. by eapply (inv_named _ _ _ I).
    + rewrite Hd in Hj by done. by eapply (inv_named _ _ _ I).
Qed.

(** ** Changes of a table *)

Lemma grow_table_ok t n : table_ok t → t_count t ≤ n ≤ MAX_HANDLE_ENTRIES →
  let t' := HandleTable (t_process t) n (t_last t) (t_free t) (resize (Z.to_nat n) None (t_entries t)) in
  table_ok t' ∧ ∀ i, slot t' i = slot t i.
Proof.
  intros Ht Hn t'. pose proof (tk_length _ Ht). pose proof (tk_count _ Ht). pose proof (tk_last _ Ht).
  assert (He : ∀ i, i ≤ t_last t → entry_at t' i = entry_at t i).
  { intros i Hi. unfold entry_at. destruct (Z.leb_spec 0 i); [|done]. cbn. rewrite lookup_resize by lia. done. }
  assert (Hs : ∀ i, slot t' i = slot t i).
  { intros i. unfold slot. cbn. destruct (Z.leb_spec i (t_last t)); [|done]. by rewrite He. }
  split; [|done]. constructor; cbn.
  - rewrite length_resize. lia.
  - unfold MIN_HANDLE_ENTRIES in *. lia.
  - lia.
  - apply Ht.
  - intros i Hi. rewrite He by lia. by apply (tk_init _ Ht).
  - intros i Hi. rewrite Hs. by apply (tk_used _ Ht).
Qed.

(** What writing the first free index does to a table. *)
Lemma fill_table_ok t i o a : table_ok t → first_free t i → i < t_count t →
  let t' := set_entry i (HandleEntry (Some o) a) (set_free (i + 1) (set_last (Z.max i (t_last t)) t)) in
  table_ok t' ∧ slot t' i = Some (o, a) ∧ ∀ j, j ≠ i → slot t' j = slot t j.
Proof.
  intros Ht (Hi & Hu & Hf) Hc t'. pose proof (tk_length _ Ht). pose proof (tk_last _ Ht).
  assert (He : ∀ j, entry_at t' j = if decide (j = i) then Some (HandleEntry (Some o) a) else entry_at t j).
  { intros j. unfold t'. rewrite entry_at_set; [done|cbn; lia]. }
  assert (Hsi : slot t' i = Some (o, a)).
  { apply slot_entry. cbn. split; [lia|]. by rewrite He, decide_True. }
  assert (Hs : ∀ j, j ≠ i → slot t' j = slot t j).
  { intros j Hj. unfold slot. rewrite He, decide_False by done. cbn.
    destruct (Z.leb_spec j (Z.max i (t_last t))), (Z.leb_spec j (t_last t)); try done; lia. }
  split_and!; [|done|done]. constructor; cbn.
  - rewrite length_insert. lia.
  - apply Ht.
  - lia.
  - lia.
  - intros j Hj. rewrite He. destruct (decide (j = i)); [by eexists|]. apply (tk_init _ Ht). lia.
  - intros j Hj. destruct (decide (j = i)) as [->|]; [by rewrite Hsi|]. rewrite Hs by done. apply Hu. lia.
Qed.

Lemma clear_table_ok t i o a : table_ok t → slot t i = Some (o, a) →
  let t' := (λ t, if i <? t_free t then set_free i t else t) (set_entry i (HandleEntry None a) t) in
  table_ok t' ∧ slot t' i = None ∧ (∀ j, j ≠ i → slot t' j = slot t j) ∧ t_last t' = t_last t.
Proof.
  intros Ht Hs t'. pose proof (tk_length _ Ht). pose proof (tk_last _ Ht). pose proof (slot_range _ _ _ Hs) as Hi.
  pose proof (tk_free _ Ht).
  assert (He : ∀ j, entry_at t' j = if decide (j = i) then Some (HandleEntry None a) else entry_at t j).
  { intros j. unfold t'. assert (Hset : entry_at (set_entry i (HandleEntry None a) t) j =
      if decide (j = i) then Some (HandleEntry None a) else entry_at t j) by (apply entry_at_set; lia).
    cbn. destruct (_ <? _); done. }
  assert (El : t_last t' = t_last t) by (unfold t'; cbn; by destruct (_ <? _)).
  assert (Ef : t_free t' = Z.min i (t_free t)).
  { unfold t'. cbn. destruct (Z.ltb_spec i (t_free t)); cbn; lia. }
  assert (Hsi : slot t' i = None).
  { unfold slot. rewrite He, decide_True by done. by case_match. }
  assert (Hsj : ∀ j, j ≠ i → slot t' j = slot t j).
  { intros j Hj. unfold slot. by rewrite He, decide_False, El. }
  split_and!; [|done|done|done]. constructor.
  - unfold t'. cbn. destruct (_ <? _); cbn; rewrite length_insert; lia.
  - unfold t'. cbn. destruct (_ <? _); apply Ht.
  - rewrite El. unfold t'. cbn. destruct (_ <? _); apply Ht.
  - lia.
  - intros j Hj. rewrite He. destruct (decide (j = i)); [by eexists|]. apply (tk_init _ Ht). lia.
  - intros j Hj. rewrite Hsj by lia. apply (tk_used _ Ht). lia.
Qed.

Lemma access_table_ok t i o a a' : table_ok t → slot t i = Some (o, a) →
  let t' := set_entry i (HandleEntry (Some o) a') t in
  table_ok t' ∧ slot t' i = Some (o, a') ∧ (∀ j, j ≠ i → slot t' j = slot t j).
Proof.
  intros Ht Hs t'. pose proof (tk_length _ Ht). pose proof (tk_last _ Ht). pose proof (slot_range _ _ _ Hs) as Hi.
  assert (Hsl : ∀ j, slot t' j = if decide (j = i) then Some (o, a') else slot t j).
  { intros j. unfold t'. rewrite slot_set by lia. done. }
  split_and!; [|by rewrite Hsl, decide_True|intros; by rewrite Hsl, decide_False]. constructor; cbn.
  - rewrite length_insert. lia.
  - apply Ht.
  - apply Ht.
  - apply Ht.
  - intros j Hj. unfold t'. rewrite entry_at_set by lia. destruct (decide (j = i)); [by eexists|]. by apply (tk_init _ Ht).
  - intros j Hj. rewrite Hsl. destruct (decide (j = i)); [by eexists|]. by apply (tk_used _ Ht).
Qed.

Lemma trim_last_ok t last n : table_ok t → last = Z.of_nat n - 1 → last ≤ t_last t →
  (∀ i, last < i → slot t i = None) →
  ∃ r, trim_last t last n = Some r ∧ -1 ≤ r ≤ last ∧ (∀ i, r < i → slot t i = None) ∧ (0 ≤ r → is_Some (slot t r)).
Proof.
  intros Ht. revert last. induction n as [|n IH]; intros last El Hl Hu; cbn [trim_last].
  - exists last. split_and!; [done|lia|lia|done|lia].
  - destruct (tk_init _ Ht last) as [[[o|] a] E]; [lia| |]; rewrite E; cbn.
    + exists last. split_and!; [done|lia|lia|done|]. intros _. exists (o, a). by apply slot_entry.
    + destruct (IH (last - 1)) as (r & -> & Hr & Hs & Hp); [lia|lia| |].
      * intros i Hi. destruct (decide (i = last)) as [->|]; [|apply Hu; lia].
        unfold slot. rewrite E. by case_match.
      * exists r. split_and!; [done|lia|lia|done|done].
Qed.

Lemma shrink_handle_table_ok t s w : table_ok t →
  wp (shrink_handle_table t) s w (λ t' s' w', s' = s ∧ w_error w' = w_error w ∧ table_ok t' ∧ ∀ i, slot t' i = slot t i).
Proof.
  intros Ht. pose proof (tk_length _ Ht). pose proof (tk_last _ Ht). pose proof (tk_count _ Ht). pose proof (tk_free _ Ht).
  unfold shrink_handle_table. rewrite wp_bind.
  destruct (trim_last_ok t (t_last t) (Z.to_nat (t_last t + 1))) as (r & -> & Hr & Hs & Hp); [done|lia|lia| |].
  { intros i Hi. unfold slot. by rewrite (proj2 (Z.leb_gt i _)). }
  cbn. apply wp_ret. cbn. set (t1 := set_last r t).
  assert (Hf : t_free t ≤ r + 1).
  { destruct (decide (t_free t ≤ r + 1)); [done|]. destruct (tk_used _ Ht (r + 1)) as [v Hv]; [lia|].
    rewrite Hs in Hv by lia. done. }
  assert (Hs1 : ∀ i, slot t1 i = slot t i).
  { intros i. destruct (decide (i ≤ r)) as [Hi|Hi].
    - unfold slot. cbn. by rewrite !(proj2 (Z.leb_le i _)) by lia.
    - rewrite (Hs i) by lia. unfold slot. cbn. by rewrite (proj2 (Z.leb_gt i _)) by lia. }
  assert (Ht1 : table_ok t1).
  { constructor; cbn; try done; try lia; try apply Ht.
    - intros i Hi. apply (tk_init _ Ht). lia.
    - intros i Hi. rewrite Hs1. by apply (tk_used _ Ht). }
  destruct (Z.leb_spec (Z.quot (t_count t) 4) r); [by apply wp_ret|].
  unfold MIN_HANDLE_ENTRIES, MAX_HANDLE_ENTRIES in *.
  destruct (Z.ltb_spec (t_count t) (32 * 2)); [by apply wp_ret|].
  rewrite wp_bind. apply wp_malloc. intros [] w' Hw _; cbn; [|by apply wp_ret]. apply wp_ret.
  rewrite Z.quot_div_nonneg in * by lia.
  set (n := t_count t / 2). assert (Hn : 32 ≤ n ∧ r < n ∧ n ≤ t_count t).
  { unfold n. Z.div_mod_to_equations. lia. }
  assert (He : ∀ i, i ≤ r → entry_at (HandleTable (t_process t) n r (t_free t) (take (Z.to_nat n) (t_entries t))) i
                          = entry_at t1 i).
  { intros i Hi. unfold entry_at. destruct (Z.leb_spec 0 i); [|done]. cbn. by rewrite lookup_take_lt by lia. }
  assert (Hs2 : ∀ i, slot (HandleTable (t_process t) n r (t_free t) (take (Z.to_nat n) (t_entries t))) i = slot t i).
  { intros i. rewrite <- Hs1. unfold slot. cbn. destruct (Z.leb_spec i r); [|done]. by rewrite He by lia. }
  split_and!; [done|done| |done]. constructor; cbn; try done; try lia.
  - rewrite length_take. lia.
  - unfold MIN_HANDLE_ENTRIES, MAX_HANDLE_ENTRIES. lia.
  - intros i Hi. rewrite He by lia. by apply (tk_init _ Ht1).
  - intros i Hi. rewrite Hs2. by apply (tk_used _ Ht).
Qed.
End Tables.

(** ** Allocating an entry *)

(** Entry [i] of table [k] becomes [v]; nothing else changes in the tables. *)
Definition assigned (k : option Z) (i : Z) (v : option (Z * Z)) (s s' : handles) : Prop :=
  (∀ k' i', slots s' k' i' = if decide ((k', i') = (k, i)) then v else slots s k' i') ∧
  (∀ k', is_Some (h_tables s' !! k') ↔ is_Some (h_tables s !! k')) ∧
  h_process_token s' = h_process_token s ∧ h_current s' = h_current s.

(** The references of [o] become [x]; no other object changes. *)
Definition recounted (o : Z) (x : option object) (s s' : handles) : Prop :=
  h_objects s' !! o = x ∧ ∀ o', o' ≠ o → h_objects s' !! o' = h_objects s !! o'.

Definition one_more (x : object) : object := set_refs (o_refcount x + 1) (o_handle_count x + 1) x.
Definition one_less (x : object) : option object :=
  if o_refcount x =? 1 then None else Some (set_refs (o_refcount x - 1) (o_handle_count x - 1) x).

Section Alloc.
Context `{ObjectOps}.

Definition grabbed (o : Z) (x : object) (ty : type_descr) (s : handles) : handles :=
  Handles (<[o := one_more x]> (h_objects s)) (<[ops_type (o_ops x) := ty]> (h_types s))
    (h_tables s) (h_process_token s) (h_current s).

Lemma grab_object_for_handle_run o x ty s w :
  h_objects s !! o = Some x → h_types s !! ops_type (o_ops x) = Some ty → 0 ≤ o_handle_count x < INT_MAX →
  o_refcount x < INT_MAX →
  ∃ ty', grab_object_for_handle o s w = Some (tt, grabbed o x ty' s, w).
Proof.
  intros Hx Hty Hc Hr. eexists. apply wp_exact. unfold grab_object_for_handle, put_obj. rewrite wp_bind.
  eapply wp_read_obj; [done|]. rewrite wp_bind, wp_modify, u32_small by (unfold INT_MAX in *; lia). rewrite wp_bind.
  unfold on_type. rewrite wp_bind. eapply wp_read_obj; [apply lookup_insert_eq|].
  rewrite wp_bind, wp_get, wp_bind. cbn. rewrite Hty. apply wp_ret. rewrite wp_modify.
  unfold grab_object, put_obj. rewrite wp_bind. eapply wp_read_obj; [apply lookup_insert_eq|].
  rewrite wp_bind, wp_assert. split; [cbn; lia|]. rewrite wp_modify. split_and!; [done| |done].
  unfold on_objects, grabbed. cbn. by rewrite insert_insert_eq.
Qed.

Lemma grabbed_inv e h s o x ty :
  inv e h s → h_objects s !! o = Some x → o_refcount x < INT_MAX →
  inv (bump o e) h (grabbed o x ty s).
Proof.
  intros I Hx Hr. destruct (inv_counts _ _ _ I o x Hx) as (Hn & Hb & Hp). pose proof (counts_nonneg _ _ _ Hn).
  pose proof (inv_extra _ _ _ I o) as [He _]. pose proof (inv_held _ _ _ I o) as [Hh _].
  eapply (inv_only e h _ _ s _ o x); [done| |done|apply lookup_insert_eq| | |rewrite ?bump_eq; lia..].
  - split_and!; try done. intros. cbn. by rewrite lookup_insert_ne.
  - intros j Hj. exact (types_kept _ _ s j Hj).
  - intros o' Hne. by rewrite bump_ne.
Qed.

(** The end of [alloc_entry], in a state [s] whose table [t2] is [t1] with room for
    index [i]; [s0] is the state before. *)
Lemma store_entry_ok e h s0 s w k t t1 i o a x :
  inv e h s0 → h_tables s0 !! k = Some t → (∀ T, on_tables (<[k := T]>) s = on_tables (<[k := T]>) s0) →
  table_ok t1 → (∀ j, slot t1 j = slot t j) → first_free t1 i → i < t_count t1 →
  h_tables s !! k = Some (set_last (Z.max i (t_last t1)) t1) →
  h_objects s0 !! o = Some x → o_refcount x < INT_MAX →
  wp (let* t := read_table k in put_table k (set_free (i + 1) t) >>
      grab_object_for_handle o >> write_entry k i (HandleEntry (Some o) a) >> ret (index_to_handle i)) s w
     (λ r s' w', w' = w ∧ r = index_to_handle i ∧ inv e h s' ∧ assigned k i (Some (o, a)) s0 s' ∧
        recounted o (Some (one_more x)) s0 s').
Proof.
  intros I Hk Hs Ht1 Hs1 Hff Hc Hk2 Hx Hr. pose proof (tk_length _ Ht1) as Hlen.
  assert (Eo : h_objects s = h_objects s0) by apply (f_equal h_objects (Hs t)).
  assert (Ey : h_types s = h_types s0) by apply (f_equal h_types (Hs t)).
  assert (Ep : h_process_token s = h_process_token s0) by apply (f_equal h_process_token (Hs t)).
  assert (Ec : h_current s = h_current s0) by apply (f_equal h_current (Hs t)).
  destruct (inv_types _ _ _ I o x Hx) as [ty Hty]. destruct (inv_counts _ _ _ I o x Hx) as (Hn & Hb & Hp).
  pose proof (counts_nonneg _ _ _ Hn). pose proof (inv_extra _ _ _ I o) as [He _].
  pose proof (inv_held _ _ _ I o) as [Hh _].
  rewrite wp_bind. eapply wp_read_table; [done|]. unfold put_table at 1. rewrite wp_bind, wp_modify.
  set (t2 := set_free _ _). set (s1 := on_tables _ s).
  destruct (grab_object_for_handle_run o x ty s1 w) as [ty' E]; [by cbn; rewrite Eo|by cbn; rewrite Ey|lia|done|].
  rewrite wp_bind, (wp_run _ _ _ _ _ _ E). rewrite wp_bind. unfold write_entry. rewrite wp_bind.
  eapply (wp_read_table _ t2); [apply lookup_insert_eq|]. pose proof Hff as (Hi & Hu & Hf).
  rewrite wp_bind, wp_assert. split; [cbn; lia|]. unfold put_table. rewrite wp_modify. apply wp_ret.
  destruct (fill_table_ok t1 i o a Ht1) as (Ht' & Hsi & Hsj); [done|done|]. fold t2 in Ht', Hsi, Hsj.
  set (t' := set_entry i (HandleEntry (Some o) a) t2) in *.
  assert (Es : on_tables <[k:=t']> (grabbed o x ty' s1) = on_tables <[k:=t']> (grabbed o x ty' s0)).
  { pose proof (f_equal h_tables (Hs t')) as Et. cbn in Et.
    unfold on_tables, grabbed, s1. cbn. by rewrite insert_insert_eq, Eo, Ey, Ep, Ec, Et. }
  rewrite Es. assert (Hsl : ∀ j, slots (grabbed o x ty' s0) k j = slot t j).
  { intros j. by apply slots_table. }
  split_and!; [done|done| | |].
  - eapply (inv_ext (drop_one o (bump o e)) _ h); [intros; by rewrite drop_bump|done|].
    eapply (inv_put_fill _ _ _ _ _ i); [by eapply grabbed_inv|done| | |done|].
    + intros j Hj. rewrite Hsl, Hsj by done. apply Hs1.
    + rewrite Hsl, <- Hs1. done.
    + rewrite bump_eq. lia.
  - split_and!; [| |done|done].
    + intros k' i'. rewrite slots_put. destruct (decide (k' = k)) as [->|].
      * destruct (decide (i' = i)) as [->|]; [by rewrite decide_True|]. rewrite decide_False by congruence.
        rewrite Hsj, Hs1 by done. by rewrite (slots_table s0 k t).
      * by rewrite decide_False by congruence.
    + intros k'. cbn. destruct (decide (k' = k)) as [->|]; [rewrite lookup_insert_eq, Hk; split; by eexists|].
      by rewrite lookup_insert_ne.
  - split; [apply lookup_insert_eq|]. intros. cbn. by rewrite lookup_insert_ne.
Qed.

Lemma first_free_ext t t' i : (∀ j, slot t' j = slot t j) → t_last t' = t_last t → first_free t i → first_free t' i.
Proof. intros E El (H1 & H2 & H3). split_and!; [lia|lia| |by rewrite E]. intros. rewrite E. auto. Qed.

(** No free index and no room to grow. *)
Definition full (t : handle_table) : Prop :=
  t_count t = MAX_HANDLE_ENTRIES ∧ ∀ i, 0 ≤ i < MAX_HANDLE_ENTRIES → is_Some (slot t i).

Definition alloc_post (e h : Z → Z) (k : option Z) (t : handle_table) (o a : Z) (x : object) (s : handles) (w : world)
    (r : Z) (s' : handles) (w' : world) : Prop :=
  (r = 0 ∧ s' = s ∧ w_error w' = STATUS_INSUFFICIENT_RESOURCES ∧ (full t ∨ w_mem w ≠ [])) ∨
  (∃ i, r = index_to_handle i ∧ first_free t i ∧ i < MAX_HANDLE_ENTRIES ∧ w_error w' = w_error w ∧
     inv e h s' ∧ assigned k i (Some (o, a)) s s' ∧ recounted o (Some (one_more x)) s s').

Lemma alloc_entry_ok e h s w k t o a x :
  inv e h s → h_tables s !! k = Some t → h_objects s !! o = Some x → o_refcount x < INT_MAX →
  wp (alloc_entry k o a) s w (alloc_post e h k t o a x s w).
Proof.
  intros I Hk Hx Hr. pose proof (inv_tables _ _ _ I _ _ Hk) as Ht. pose proof (tk_length _ Ht).
  pose proof (tk_count _ Ht). pose proof (tk_last _ Ht).
  unfold alloc_entry. rewrite wp_bind. eapply wp_read_table; [done|]. rewrite wp_bind.
  destruct (scan_free_first t Ht) as (i & -> & Hff). cbn. apply wp_ret. pose proof Hff as (Hi & Hu & Hf).
  rewrite wp_bind. destruct (Z.leb_spec i (t_last t)).
  - apply wp_ret. eapply wp_mono; [apply (store_entry_ok e h s s w k t t i o a x); try done; [lia|]|].
    + rewrite Z.max_r by lia. by destruct t.
    + intros r s' w' (-> & -> & Hpost). right. exists i. split_and!; try done; lia || apply Hpost.
  - assert (i = t_last t + 1) as -> by lia.
    (* the table has room, perhaps after it has grown *)
    assert (Hgo : ∀ s1 w1 t1, (∀ T, on_tables (<[k := T]>) s1 = on_tables (<[k := T]>) s) → h_tables s1 !! k = Some t1 →
        table_ok t1 → (∀ j, slot t1 j = slot t j) → t_last t1 = t_last t → t_last t + 1 < t_count t1 →
        w_error w1 = w_error w →
        wp (let* t' := read_table k in put_table k (set_last (t_last t + 1) t') >> ret true) s1 w1
          (λ ok s' w', wp (if negb ok then ret 0 else
            let* t' := read_table k in put_table k (set_free (t_last t + 1 + 1) t') >> grab_object_for_handle o >>
            write_entry k (t_last t + 1) (HandleEntry (Some o) a) >> ret (index_to_handle (t_last t + 1)))
           s' w' (alloc_post e h k t o a x s w))).
    { intros s1 w1 t1 Hs1 Hk1 Ht1 Hsl El Hroom Hw. rewrite wp_bind. eapply wp_read_table; [done|].
      unfold put_table at 1. rewrite wp_bind, wp_modify. apply wp_ret.
      change (negb true) with false. cbv iota.
      eapply wp_mono; [apply (store_entry_ok e h s _ w1 k t t1 (t_last t + 1) o a x); try done|].
      - intros T. rewrite <- Hs1. unfold on_tables. cbn. by rewrite insert_insert_eq.
      - by eapply first_free_ext.
      - cbn. rewrite lookup_insert_eq. do 2 f_equal. lia.
      - intros r s' w' (-> & -> & Hpost). right. exists (t_last t + 1).
        pose proof (tk_count _ Ht1). split_and!; try done; lia || apply Hpost. }
    destruct (Z.leb_spec (t_count t) (t_last t + 1)).
    + unfold grow_handle_table. rewrite wp_bind, wp_bind. eapply wp_read_table; [done|].
      destruct (Z.eqb_spec (Z.min (t_count t * 2) MAX_HANDLE_ENTRIES) (t_count t)) as [Ec|Ec].
      * wp_run. apply wp_ret. left. split_and!; try done. left. split; [unfold MIN_HANDLE_ENTRIES in *; lia|].
        intros j Hj. apply Hu. unfold MIN_HANDLE_ENTRIES in *. lia.
      * set (n := Z.min (t_count t * 2) MAX_HANDLE_ENTRIES) in *. rewrite wp_bind. apply wp_malloc.
        intros ok w1 Hw1 Hm. destruct ok; cbn [negb]; [|rewrite wp_bind, wp_set_error; do 2 apply wp_ret; left; split_and!; try done; right; intros Hw; by destruct (Hm Hw)].
        unfold put_table at 1. rewrite wp_bind, wp_modify. apply wp_ret.
        destruct (grow_table_ok t n Ht) as [Ht1 Hs1]; [unfold n, MIN_HANDLE_ENTRIES in *; lia|].
        eapply (Hgo _ w1 (HandleTable (t_process t) n (t_last t) (t_free t) (resize (Z.to_nat n) None (t_entries t))));
          try done.
        -- intros T. unfold on_tables. cbn. by rewrite insert_insert_eq.
        -- apply lookup_insert_eq.
        -- cbn. unfold n, MIN_HANDLE_ENTRIES in *. lia.
    + rewrite wp_bind. apply wp_ret. cbn [negb]. eapply Hgo; done.
Qed.
End Alloc.

(** ** The encoding of handles *)

Lemma index_to_handle_eq i : 0 ≤ i < MAX_HANDLE_ENTRIES → index_to_handle i = (i + 1) * 4.
Proof.
  unfold MAX_HANDLE_ENTRIES. intros. unfold index_to_handle. rewrite Z.shiftl_mul_pow2 by lia. change (2 ^ 2) with 4.
  apply u32_small. lia.
Qed.

Lemma handle_to_index_eq h : 0 ≤ h < 4294967296 → handle_to_index h = h / 4 - 1.
Proof.
  intros. unfold handle_to_index. rewrite Z.shiftr_div_pow2 by lia. change (2 ^ 2) with 4.
  destruct (decide (h / 4 = 0)) as [->|]; [done|].
  rewrite u32_small; [apply s32_small|]; Z.div_mod_to_equations; lia.
Qed.

Lemma handle_roundtrip i : 0 ≤ i < MAX_HANDLE_ENTRIES → handle_to_index (index_to_handle i) = i.
Proof.
  intros Hi. rewrite index_to_handle_eq by done. unfold MAX_HANDLE_ENTRIES in Hi.
  rewrite handle_to_index_eq by lia. rewrite Z.div_mul by lia. lia.
Qed.

(** A number below 2^26 has no bit in common with the top bits of the obfuscator. *)
Lemma obfuscated h : 0 ≤ h < 2 ^ 26 → 2 ^ 26 ≤ Z.lxor h HANDLE_OBFUSCATOR.
Proof.
  intros Hh. destruct (Z.leb_spec (2 ^ 26) (Z.lxor h HANDLE_OBFUSCATOR)) as [|Hlt]; [done|].
  assert (Hpos : 0 ≤ Z.lxor h HANDLE_OBFUSCATOR) by (apply Z.lxor_nonneg; split; intros; unfold HANDLE_OBFUSCATOR; lia).
  assert (Hb : ∀ n z, 0 ≤ z < 2 ^ 26 → 26 ≤ n → Z.testbit z n = false).
  { intros n z Hz Hn. apply Z.bits_above_log2; [lia|]. destruct (decide (z = 0)) as [->|]; [cbn; lia|].
    apply (Z.lt_le_trans _ 26); [apply Z.log2_lt_pow2; lia|done]. }
  pose proof (Hb 26 _ (conj Hpos Hlt) ltac:(lia)) as E. rewrite Z.lxor_spec, (Hb 26 h Hh) in E by lia.
  vm_compute in E. done.
Qed.

Lemma local_not_global h : 0 ≤ h ≤ Z.shiftl MAX_HANDLE_ENTRIES 2 → handle_is_global h = false.
Proof.
  intros Hh. change (Z.shiftl MAX_HANDLE_ENTRIES 2) with 67108860 in Hh. unfold handle_is_global.
  change (Z.shiftl MAX_HANDLE_ENTRIES 2) with 67108860. apply Z.leb_gt.
  pose proof (obfuscated h). change (2 ^ 26) with 67108864 in *. lia.
Qed.

Lemma lxor_lxor_same a b : Z.lxor (Z.lxor a b) b = a.
Proof. by rewrite Z.lxor_assoc, Z.lxor_nilpotent, Z.lxor_0_r. Qed.

(** The handles of a process and the global handles are apart: for every index
    of a table, the local handle is not global, is not a pseudo-handle and gives
    back the index; its global form is global, is never 0 and gives back the handle. *)
Theorem handle_encoding i (Hi : 0 ≤ i < MAX_HANDLE_ENTRIES) :
  let h := index_to_handle i in
  let g := handle_local_to_global h in
  0 < h < 2 ^ 26 ∧ handle_to_index h = i ∧ handle_is_global h = false ∧
  handle_is_global g = true ∧ handle_global_to_local g = h ∧ 2 ^ 26 ≤ g < 2 ^ 31 ∧
  handle_slot 0 g = (None, i) ∧ handle_slot 0 h = (Some 0, i).
Proof.
  intros h g. assert (Eh : h = (i + 1) * 4) by by apply index_to_handle_eq.
  unfold MAX_HANDLE_ENTRIES in Hi. assert (Hh : 0 < h < 67108864) by lia.
  assert (Eg : g = Z.lxor h HANDLE_OBFUSCATOR).
  { unfold g, handle_local_to_global. by rewrite (proj2 (Z.eqb_neq h 0)) by lia. }
  assert (Hl : handle_is_global h = false).
  { apply local_not_global. change (Z.shiftl MAX_HANDLE_ENTRIES 2) with 67108860. lia. }
  assert (Hg : handle_is_global g = true).
  { unfold handle_is_global. rewrite Eg, lxor_lxor_same. apply Z.leb_le.
    change (Z.shiftl MAX_HANDLE_ENTRIES 2) with 67108860. lia. }
  assert (Hi' : handle_to_index h = i) by by apply handle_roundtrip.
  assert (El : handle_global_to_local g = h).
  { unfold handle_global_to_local. by rewrite Eg, lxor_lxor_same. }
  assert (Hb : 2 ^ 26 ≤ g < 2 ^ 31).
  { split; [rewrite Eg; apply obfuscated; change (2 ^ 26) with 67108864; lia|]. rewrite Eg.
    assert (0 ≤ Z.lxor h HANDLE_OBFUSCATOR) by (apply Z.lxor_nonneg; unfold HANDLE_OBFUSCATOR; lia).
    destruct (decide (Z.lxor h HANDLE_OBFUSCATOR = 0)) as [->|]; [done|]. apply Z.log2_lt_pow2; [lia|].
    eapply Z.le_lt_trans; [apply Z.log2_lxor; unfold HANDLE_OBFUSCATOR; lia|].
    apply Z.max_lub_lt; [|done]. apply Z.log2_lt_pow2; [lia|]. change (2 ^ 31) with 2147483648. lia. }
  change (2 ^ 26) with 67108864 in *. split_and!; try done; try lia.
  - unfold handle_slot. by rewrite Hg, El, Hi'.
  - unfold handle_slot. by rewrite Hl, Hi'.
Qed.

Lemma handle_encoding_witness :
  0 ≤ 7 < MAX_HANDLE_ENTRIES ∧ handle_slot 0 (handle_local_to_global (index_to_handle 7)) = (None, 7).
Proof. split; [done|]. apply (handle_encoding 7). done. Defined.

Lemma index_range i : 0 ≤ i < MAX_HANDLE_ENTRIES → 0 < index_to_handle i ≤ 67108860.
Proof. intros. rewrite index_to_handle_eq by done. unfold MAX_HANDLE_ENTRIES in *. lia. Qed.

Lemma slot_local p i : 0 ≤ i < MAX_HANDLE_ENTRIES → handle_slot p (index_to_handle i) = (Some p, i).
Proof.
  intros Hi. pose proof (index_range i Hi). unfold handle_slot. rewrite local_not_global, handle_roundtrip; [done|done|].
  change (Z.shiftl MAX_HANDLE_ENTRIES 2) with 67108860. lia.
Qed.

Lemma slot_global p i : 0 ≤ i < MAX_HANDLE_ENTRIES →
  handle_slot p (handle_local_to_global (index_to_handle i)) = (None, i).
Proof.
  intros Hi. pose proof (index_range i Hi). unfold handle_local_to_global.
  rewrite (proj2 (Z.eqb_neq (index_to_handle i) 0)) by lia. unfold handle_slot, handle_is_global, handle_global_to_local.
  rewrite lxor_lxor_same. change (Z.shiftl MAX_HANDLE_ENTRIES 2) with 67108860.
  rewrite (proj2 (Z.leb_le _ _)) by lia. by rewrite handle_roundtrip.
Qed.

Definition pseudo_handles : list Z := [0xfffffffa; 0xfffffffb; 0xfffffffc; 0xfffffffe; 0x7fffffff; 0xffffffff].

Section Operations.
Context `{ObjectOps}.

(** A [close_handle] operation that leaves handles and references alone, as
    [no_close_handle], [winstation_close_handle] and [desktop_close_handle] do. Those of
    jobs, keys, device files and some others do more, and are not covered below. *)
Definition plain_close (ops : Z) : Prop := ∀ o p hd s w, wp (ops_close_handle ops o p hd) s w (λ _ s' _, s' = s).

(** [get_handle] finds what the slot holds. *)
Lemma get_handle_run e h s w p hd k i :
  inv e h s → handle_slot p hd = (k, i) →
  get_handle p hd s w = Some ((λ '(o, a), (k, i, HandleEntry (Some o) a)) <$> slots s k i, s, w).
Proof.
  intros I Hk. apply wp_exact. unfold get_handle. rewrite Hk, wp_bind, wp_get. unfold slots.
  destruct (h_tables s !! k) as [t|] eqn:Et; [|done]. cbn [mbind option_bind].
  pose proof (inv_tables _ _ _ I _ _ Et) as Ht.
  destruct (Z.ltb_spec i 0); cbn [orb].
  - apply wp_ret. split_and!; [|done|done]. destruct (slot t i) eqn:E; [|done]. apply slot_range in E. lia.
  - destruct (Z.ltb_spec (t_last t) i).
    + apply wp_ret. split_and!; [|done|done]. destruct (slot t i) eqn:E; [|done]. apply slot_range in E. lia.
    + destruct (tk_init _ Ht i) as [[o a] Ee]; [lia|]. rewrite wp_bind, Ee. cbn. apply wp_ret. apply wp_ret. cbn.
      split_and!; [|done|done]. unfold slot. rewrite (proj2 (Z.leb_le _ _)), Ee by lia. by destruct o.
Qed.

Lemma assigned_refl k i v s : slots s k i = v → assigned k i v s s.
Proof.
  intros E. split_and!; try done. intros k' i'. destruct (decide ((k', i') = (k, i))) as [[= -> ->]|]; done.
Qed.

(** Storing a changed table, and then changing references. *)
Lemma assigned_put k i v t T s s1 s' :
  h_tables s !! k = Some t → (∀ j, j ≠ i → slot T j = slot t j) → slot T i = v →
  h_tables s1 = <[k := T]> (h_tables s) → h_process_token s1 = h_process_token s → h_current s1 = h_current s →
  (∃ o, only o s1 s') → assigned k i v s s'.
Proof.
  intros Hk Hj Hi E1 E2 E3 (o & F1 & F2 & F3 & _).
  assert (Es : ∀ k' i', slots s' k' i' = slots (on_tables (<[k := T]>) s) k' i').
  { intros. unfold slots. cbn. by rewrite F1, E1. }
  split_and!; [| |congruence|congruence].
  - intros k' i'. rewrite Es, slots_put. destruct (decide (k' = k)) as [->|].
    + destruct (decide (i' = i)) as [->|]; [by rewrite decide_True|]. rewrite decide_False by congruence.
      rewrite Hj by done. by rewrite (slots_table s k t).
    + by rewrite decide_False by congruence.
  - intros k'. rewrite F1, E1. destruct (decide (k' = k)) as [->|]; [rewrite lookup_insert_eq, Hk; split; by eexists|].
    by rewrite lookup_insert_ne.
Qed.

(** Clearing a slot: the entry is emptied, [free] moves down, and the table is
    shrunk when the last entry was closed. *)
Definition close_entry (k : option Z) (index : Z) (a : Z) : H unit :=
  write_entry k index (HandleEntry None a) >>
  let* t := read_table k in
  let t := if index <? t_free t then set_free index t else t in
  put_table k t >>
  (if index =? t_last t then let* t := shrink_handle_table t in put_table k t else ret tt).

Lemma close_entry_ok e h s w k t i o a :
  inv e h s → h_tables s !! k = Some t → slot t i = Some (o, a) →
  wp (close_entry k i a) s w (λ _ s' w', w_error w' = w_error w ∧ inv (bump o e) h s' ∧
    ∃ T, s' = on_tables (<[k := T]>) s ∧ slot T i = None ∧ ∀ j, j ≠ i → slot T j = slot t j).
Proof.
  intros I Hk Hs. pose proof (inv_tables _ _ _ I _ _ Hk) as Ht. pose proof (slot_range _ _ _ Hs) as Hi.
  pose proof (tk_length _ Ht). pose proof (tk_last _ Ht).
  destruct (clear_table_ok t i o a Ht Hs) as (HT & Hni & Hnj & El). pose (T := let t := set_entry i (HandleEntry None a) t in if i <? t_free t then set_free i t else t).
  change (table_ok T) in HT. change (slot T i = None) in Hni. change (∀ j, j ≠ i → slot T j = slot t j) in Hnj.
  unfold close_entry, write_entry. rewrite wp_bind, wp_bind. eapply wp_read_table; [done|].
  rewrite wp_bind, wp_assert. split; [lia|]. unfold put_table. rewrite wp_modify, wp_bind.
  eapply wp_read_table; [apply lookup_insert_eq|]. rewrite wp_bind, wp_modify. fold T.
  assert (Eput : ∀ T', on_tables (<[k := T']>) (on_tables (<[k := set_entry i (HandleEntry None a) t]>) s) =
                       on_tables (<[k := T']>) s).
  { intros T'. unfold on_tables. cbn. by rewrite insert_insert_eq. }
  assert (Hfin : ∀ T', table_ok T' → (∀ j, slot T' j = slot T j) →
    inv (bump o e) h (on_tables (<[k := T']>) s) ∧ slot T' i = None ∧ ∀ j, j ≠ i → slot T' j = slot t j).
  { intros T' HT' HsT'. split_and!.
    - eapply (inv_put_clear e h s k T' i); [done|done| |by rewrite (slots_table s k t)|by rewrite HsT'].
      intros j Hj. rewrite HsT', Hnj by done. symmetry. by apply slots_table.
    - by rewrite HsT'.
    - intros j Hj. rewrite HsT'. by apply Hnj. }
  rewrite Eput. destruct (i =? _).
  - rewrite wp_bind. eapply wp_mono; [by apply shrink_handle_table_ok|]. cbn.
    intros T' s' w' (-> & Hw & HT' & HsT'). rewrite wp_modify.
    assert (E2 : on_tables (<[k := T']>) (on_tables (<[k := T]>) s) = on_tables (<[k := T']>) s).
    { unfold on_tables. cbn. by rewrite insert_insert_eq. }
    rewrite E2. destruct (Hfin T' HT' HsT') as (? & ? & ?). split_and!; [done|done|]. by exists T'.
  - apply wp_ret. destruct (Hfin T HT (λ _, eq_refl)) as (? & ? & ?). split_and!; [done|done|]. by exists T.
Qed.

Definition close_post (e h : Z → Z) (p i : Z) (s : handles) (r : Z) (s' : handles) : Prop :=
  match slots s (Some p) i with
  | None => r = STATUS_INVALID_HANDLE ∧ s' = s
  | Some (o, a) =>
      (r = STATUS_HANDLE_NOT_CLOSABLE ∧ s' = s) ∨
      (r = STATUS_SUCCESS ∧ has a RESERVED_CLOSE_PROTECT = false ∧ inv e h s' ∧ assigned (Some p) i None s s' ∧
       ∃ x, h_objects s !! o = Some x ∧ recounted o (one_less x) s s')
  end.

(** The handle, if it is one, names an object that only has such an operation. *)
Definition plain_handle (s : handles) (p hd : Z) : Prop :=
  ∀ o a x, slots s (Some p) (handle_to_index hd) = Some (o, a) → h_objects s !! o = Some x → plain_close (o_ops x).

Lemma close_handle_ok e h s w p hd :
  inv e h s → handle_is_global hd = false → plain_handle s p hd →
  wp (close_handle p hd) s w (λ r s' _, close_post e h p (handle_to_index hd) s r s').
Proof.
  intros I Hg Hplain. unfold plain_handle in Hplain. set (i := handle_to_index hd) in *. assert (Hk : handle_slot p hd = (Some p, i)).
  { unfold handle_slot. by rewrite Hg. }
  unfold close_handle, close_post. rewrite wp_bind, (wp_run _ _ _ _ _ _ (get_handle_run e h s w p hd _ _ I Hk)).
  destruct (slots s (Some p) i) as [[o a]|] eqn:Es; cbn; [|by apply wp_ret].
  destruct (has a RESERVED_CLOSE_PROTECT) eqn:Ea; [apply wp_ret; auto|].
  rewrite wp_bind. apply wp_ret. rewrite wp_bind.
  destruct (inv_named _ _ _ I _ _ _ _ Es) as [x Hx]. eapply wp_read_obj; [done|].
  rewrite wp_bind. eapply wp_mono; [by eapply Hplain|]. intros [] s1 w1 ->; cbn; [|apply wp_ret; auto].
  rewrite Hg. fold i. rewrite wp_bind. destruct (h_tables s !! Some p) as [t|] eqn:Ht; [|by unfold slots in Es; rewrite Ht in Es].
  eapply wp_read_table; [done|]. rewrite (slots_table _ _ _ _ Ht) in Es. pose proof Es as Es'.
  apply slot_entry in Es' as [_ ->]. rewrite wp_bind. apply wp_ret. cbn [e_access].
  pose proof (close_entry_ok e h s w1 (Some p) t i o a I Ht Es) as Hc. unfold close_entry in Hc.
  rewrite wp_bind in Hc. rewrite wp_bind. eapply wp_mono; [exact Hc|]. clear Hc. cbn. intros _ s2 w2 Hc.
  rewrite wp_bind in Hc. rewrite wp_bind. eapply wp_mono; [exact Hc|]. clear Hc. cbn. intros t2 s3 w3 Hc.
  rewrite wp_bind in Hc. rewrite wp_bind. eapply wp_mono; [exact Hc|]. clear Hc. cbn. intros _ s4 w4 Hc.
  rewrite wp_bind. eapply wp_mono; [exact Hc|]. clear Hc. cbn. intros _ s5 w5 (_ & I5 & T & -> & Hni & Hnj).
  rewrite wp_bind. eapply wp_mono; [apply (release_object_from_handle_ok _ _ _ _ o x I5)|].
  - done.
  - rewrite bump_eq. pose proof (inv_extra _ _ _ I o). lia.
  - intros _ s6 w6 (-> & I6 & Ho & Hx6). apply wp_ret. right. split_and!; [done|done| | |].
    + eapply inv_ext; [|done|done]. intros. by rewrite drop_bump.
    + eapply (assigned_put _ _ _ t T s (on_tables (<[Some p := T]>) s) s6); [done|done|done|done|done|done|by exists o].
    + exists x. split; [done|]. split; [done|]. intros o' Hne. by rewrite (proj2 (proj2 (proj2 Ho))).
Qed.

(** ** Resolving a handle *)

(** The objects that pseudo-handles stand for are referenced elsewhere. *)
Definition current_ok (h : Z → Z) (s : handles) : Prop :=
  0 < h (cur_thread (h_current s)) ∧ 0 < h (cur_process (h_current s)) ∧
  (∀ t, cur_token (h_current s) = Some t → 0 < h t) ∧ (∀ p t, h_process_token s !! p = Some t → 0 < h t).

Lemma magic_held h s hd o : current_ok h s → magic_handle s hd = Some o → 0 < h o.
Proof.
  intros (C1 & C2 & C3 & C4). unfold magic_handle. intros E.
  repeat case_match; naive_solver.
Qed.

Lemma magic_index s i : 0 ≤ i < MAX_HANDLE_ENTRIES → magic_handle s (index_to_handle i) = None.
Proof.
  intros Hi. pose proof (index_range i Hi). unfold magic_handle.
  by rewrite !(proj2 (Z.eqb_neq (index_to_handle i) _)) by lia.
Qed.

(** The object of a handle with the access of its entry; pseudo-handles have none. *)
Definition target (s : handles) (p hd : Z) : option (Z * option Z) :=
  match magic_handle s hd with
  | Some o => Some (o, None)
  | None => let (k, i) := handle_slot p hd in (λ '(o, a), (o, Some a)) <$> slots s k i
  end.
Definition resolve (s : handles) (p hd access : Z) (ops : option Z) : Z + Z :=
  match target s p hd with
  | None => inl STATUS_INVALID_HANDLE
  | Some (o, acc) =>
      match h_objects s !! o with
      | None => inl 0
      | Some x =>
          if negb (bool_decide (default (o_ops x) ops = o_ops x)) then inl STATUS_OBJECT_TYPE_MISMATCH
          else match acc with
               | Some a => if Z.land a access =? access then inr o else inl STATUS_ACCESS_DENIED
               | None => inr o
               end
      end
  end.

Definition same_refs (s s' : handles) : Prop :=
  (∀ k i, slots s' k i = slots s k i) ∧ (∀ k, is_Some (h_tables s' !! k) ↔ is_Some (h_tables s !! k)) ∧
  h_process_token s' = h_process_token s ∧ h_current s' = h_current s.

Lemma target_exists e h s p hd o acc :
  inv e h s → current_ok h s → target s p hd = Some (o, acc) → is_Some (h_objects s !! o).
Proof.
  intros I Hc. unfold target. destruct (magic_handle s hd) as [o'|] eqn:E.
  - intros [= -> <-]. apply (inv_held _ _ _ I). by eapply magic_held.
  - destruct (handle_slot p hd) as [k i]. destruct (slots s k i) as [[o' a]|] eqn:E'; [|done].
    intros [= -> <-]. by eapply (inv_named _ _ _ I).
Qed.

Lemma get_handle_obj_ok e h s w p hd access ops :
  inv e h s → current_ok h s → room 1 s →
  wp (get_handle_obj p hd access ops) s w (λ r s' w',
    match resolve s p hd access ops with
    | inl err => r = None ∧ s' = s ∧ w' = World err (w_mem w)
    | inr o => r = Some o ∧ w' = w ∧ inv e (bump o h) s' ∧ only o s s' ∧
               ∃ x, h_objects s !! o = Some x ∧ h_objects s' !! o = Some (set_refs (o_refcount x + 1) (o_handle_count x) x)
    end).
Proof.
  intros I Hc Hroom. pose proof (target_exists e h s p hd) as Hex. unfold resolve.
  assert (Hgrab : ∀ o x, h_objects s !! o = Some x →
    wp (grab_object o >> ret (Some o)) s w (λ r s' w', r = Some o ∧ w' = w ∧ inv e (bump o h) s' ∧ only o s s' ∧
      ∃ x, h_objects s !! o = Some x ∧ h_objects s' !! o = Some (set_refs (o_refcount x + 1) (o_handle_count x) x))).
  { intros o x Hx. rewrite wp_bind. eapply wp_mono.
    - apply (grab_object_ok e h s w o x); [done|done|]. specialize (Hroom o x Hx). lia.
    - intros _ s' w' (-> & I' & Ho & Hx'). apply wp_ret. eauto 10. }
  unfold get_handle_obj. rewrite wp_bind. unfold get_magic_handle. rewrite wp_bind, wp_get. apply wp_ret. unfold target in *.
  rewrite wp_bind. destruct (magic_handle s hd) as [o|] eqn:Em.
  - destruct (Hex o None I Hc eq_refl) as [x Hx]. rewrite Hx. rewrite wp_bind. eapply wp_read_obj; [done|].
    destruct (bool_decide _); cbn [negb]; [apply wp_ret; by eapply Hgrab|]. wp_run. done.
  - destruct (handle_slot p hd) as [k i] eqn:Ek.
    rewrite wp_bind, (wp_run _ _ _ _ _ _ (get_handle_run e h s w p hd k i I Ek)).
    destruct (slots s k i) as [[o a]|] eqn:Es; cbn [fmap option_fmap option_map]; [|by wp_run].
    destruct (Hex o (Some a) I Hc eq_refl) as [x Hx]. rewrite Hx. rewrite wp_bind. apply wp_ret.
    rewrite wp_bind. eapply wp_read_obj; [done|].
    destruct (bool_decide _); cbn [negb]; [|by wp_run]. destruct (_ =? _); cbn [negb]; [|by wp_run].
    apply wp_ret. by eapply Hgrab.
Qed.

(** Dropping the reference that [get_handle_obj] took. *)
Lemma release_temp e h s w o x :
  inv e (bump o h) s → h_objects s !! o = Some x → (∀ o, 0 ≤ h o) →
  wp (release_object o) s w (λ _ s' w', w' = w ∧ inv e h s' ∧ only o s s' ∧
    h_objects s' !! o = if o_refcount x =? 1 then None else Some (set_refs (o_refcount x - 1) (o_handle_count x) x)).
Proof.
  intros I Hx Hh. eapply wp_mono; [apply (release_object_ok e _ s w o x I Hx); rewrite bump_eq; specialize (Hh o); lia|].
  intros _ s' w' (-> & I' & Ho & Hx'). split_and!; [done| |done|done].
  eapply inv_ext; [done| |done]. intros. by rewrite drop_bump.
Qed.

(** ** Changing flags, and new handles *)

Lemma write_access_ok e h s w k i o a a' :
  inv e h s → slots s k i = Some (o, a) →
  wp (write_entry k i (HandleEntry (Some o) a')) s w (λ _ s' w', w' = w ∧ inv e h s' ∧
    assigned k i (Some (o, a')) s s' ∧ h_objects s' = h_objects s).
Proof.
  intros I Es. unfold slots in Es. destruct (h_tables s !! k) as [t|] eqn:Et; [|done]. cbn in Es.
  pose proof (inv_tables _ _ _ I _ _ Et) as Ht. pose proof (slot_range _ _ _ Es) as Hi.
  pose proof (tk_length _ Ht). pose proof (tk_last _ Ht).
  destruct (access_table_ok t i o a a' Ht Es) as (HT & Hsi & Hsj).
  unfold write_entry. rewrite wp_bind. eapply wp_read_table; [done|]. rewrite wp_bind, wp_assert. split; [lia|].
  unfold put_table. rewrite wp_modify. split_and!; [done| | |done].
  - eapply (inv_put_access e h s k _ i o a a'); [done|done| |by rewrite (slots_table _ _ _ _ Et)|done].
    intros j Hj. rewrite Hsj by done. symmetry. by apply slots_table.
  - set (T := set_entry _ _ t) in *.
    apply (assigned_put k i _ t T s (on_tables (<[k := T]>) s)); [done|exact Hsj|exact Hsi|done|done|done|].
    exists 0. by split_and!.
Qed.

Definition with_flags (mask flags a : Z) : Z :=
  let mask := Z.land (u32 (Z.shiftl mask RESERVED_SHIFT)) RESERVED_ALL in
  Z.lor (Z.ldiff a mask) (Z.land (u32 (Z.shiftl flags RESERVED_SHIFT)) mask).

Lemma set_handle_flags_ok e h s w p hd k i mask flags :
  inv e h s → magic_handle s hd = None → handle_slot p hd = (k, i) →
  wp (set_handle_flags p hd mask flags) s w (λ r s' w',
    match slots s k i with
    | None => r = -1 ∧ s' = s ∧ w' = World STATUS_INVALID_HANDLE (w_mem w)
    | Some (o, a) => r = Z.shiftr (Z.land a RESERVED_ALL) RESERVED_SHIFT ∧ w' = w ∧ inv e h s' ∧
        assigned k i (Some (o, with_flags mask flags a)) s s' ∧ h_objects s' = h_objects s
    end).
Proof.
  intros I Hm Hk. unfold set_handle_flags, get_magic_handle. rewrite wp_bind, wp_bind, wp_get. apply wp_ret. rewrite Hm.
  rewrite wp_bind, (wp_run _ _ _ _ _ _ (get_handle_run e h s w p hd k i I Hk)).
  destruct (slots s k i) as [[o a]|] eqn:Es; cbn [fmap option_fmap option_map]; [|by wp_run].
  rewrite wp_bind. eapply wp_mono; [by eapply write_access_ok|]. intros _ s' w' (-> & HI & Ha & Ho). apply wp_ret. done.
Qed.

(** The inheritance flag that [attr] asks for. *)
Definition with_attr (attr a : Z) : Z := if has attr OBJ_INHERIT then Z.lor a RESERVED_INHERIT else a.

Definition alloc_ok (e h : Z → Z) (p o a : Z) (x : object) (s : handles) (w : world) (r : Z) (s' : handles) (w' : world) : Prop :=
  (r = 0 ∧ s' = s ∧
     (h_tables s !! Some p = None ∧ w_error w' = STATUS_PROCESS_IS_TERMINATING ∨
      ∃ t, h_tables s !! Some p = Some t ∧ w_error w' = STATUS_INSUFFICIENT_RESOURCES ∧ (full t ∨ w_mem w ≠ []))) ∨
  (∃ t i, h_tables s !! Some p = Some t ∧ r = index_to_handle i ∧ first_free t i ∧ i < MAX_HANDLE_ENTRIES ∧
     w_error w' = w_error w ∧ inv e h s' ∧ assigned (Some p) i (Some (o, a)) s s' ∧ recounted o (Some (one_more x)) s s').

Lemma alloc_handle_entry_ok e h s w p o a attr x :
  inv e h s → h_objects s !! o = Some x → o_refcount x < INT_MAX → has a RESERVED_ALL = false →
  wp (alloc_handle_entry p o a attr) s w (alloc_ok e h p o (with_attr attr a) x s w).
Proof.
  intros I Hx Hr Ha. unfold alloc_handle_entry. rewrite wp_bind, wp_assert. split; [by rewrite Ha|].
  rewrite wp_bind, wp_get. destruct (h_tables s !! Some p) as [t|] eqn:Ht.
  - eapply wp_mono; [by apply (alloc_entry_ok e h s w (Some p) t o _ x)|]. intros r s' w' Hpost. unfold alloc_ok.
    rewrite Ht. destruct Hpost as [(-> & -> & ? & ?)|(i & -> & ? & ? & ? & ? & ? & ?)].
    + left. split_and!; [done|done|]. right. exists t. done.
    + right. exists t, i. done.
  - wp_run. left. split_and!; [done|done|]. auto.
Qed.

Lemma unreserved a : has (Z.ldiff a RESERVED_ALL) RESERVED_ALL = false.
Proof.
  unfold has. replace (Z.land (Z.ldiff a RESERVED_ALL) RESERVED_ALL) with 0; [done|]. z_bits.
Qed.

Lemma wp_map_access o x a s w Q :
  h_objects s !! o = Some x → Q (Z.ldiff (ops_map_access (o_ops x) a) RESERVED_ALL) s w → wp (map_access o a) s w Q.
Proof. intros E HQ. unfold map_access. rewrite wp_bind. eapply wp_read_obj; [done|]. by apply wp_ret. Qed.

Lemma wp_checked_access token o a s w (Q : option Z → handles → world → Prop) :
  (∀ a', check_object_access token o a = Some a' → Q (Some a') s w) →
  (check_object_access token o a = None → Q None s (World STATUS_ACCESS_DENIED (w_mem w))) →
  wp (checked_access token o a) s w Q.
Proof. intros H1' H2'. unfold checked_access. destruct (check_object_access token o a); [apply wp_ret; auto|]. wp_run. auto. Qed.

(** Allocating a handle, on every branch. Without access, or when the access
    check refuses, nothing changes and the error is [STATUS_ACCESS_DENIED]. If the
    process has lost its table, or its table is full or cannot grow, nothing changes
    either. Otherwise the new handle is the one of the least free index; it names
    the object with exactly the access that was granted and the inheritance flag that
    was asked for, the object gains one reference and one handle, all other handles
    and objects are as before and the invariant holds. The access check must not
    grant a reserved bit (see [reserved_access_asserts]). *)
Theorem alloc_handle_correct e h s w p o access attr x
    (I : inv e h s) (Hx : h_objects s !! o = Some x) (Hroom : room 1 s)
    (Hgrant : ∀ a', check_object_access None o (Z.ldiff (ops_map_access (o_ops x) access) RESERVED_ALL) = Some a' → has a' RESERVED_ALL = false) :
  let mapped := Z.ldiff (ops_map_access (o_ops x) access) RESERVED_ALL in
  wp (alloc_handle p o access attr) s w (λ r s' w',
    if mapped =? 0 then r = 0 ∧ s' = s ∧ w_error w' = STATUS_ACCESS_DENIED else
    match check_object_access None o mapped with
    | None => r = 0 ∧ s' = s ∧ w_error w' = STATUS_ACCESS_DENIED
    | Some granted => alloc_ok e h p o (with_attr attr granted) x s w r s' w'
    end).
Proof.
  intros mapped. unfold alloc_handle. rewrite wp_bind. eapply wp_map_access; [done|]. fold mapped.
  destruct (mapped =? 0); [by wp_run|]. rewrite wp_bind. apply wp_checked_access.
  - intros a' Ea. rewrite Ea. apply alloc_handle_entry_ok; [done|done| |].
    + specialize (Hroom o x Hx). lia.
    + by eapply Hgrant.
  - intros ->. by apply wp_ret.
Qed.

(** [check_object_access] comes after the reserved bits have been cleared, and an entry
    of the security descriptor may grant them again, when the client asks for
    [MAXIMUM_ALLOWED]: then the server fails its assertion. *)
Theorem reserved_access_asserts s w p o access attr x a
    (Hx : h_objects s !! o = Some x) (Ha : has a RESERVED_ALL = true) :
  let mapped := Z.ldiff (ops_map_access (o_ops x) access) RESERVED_ALL in
  mapped ≠ 0 → check_object_access None o mapped = Some a → alloc_handle p o access attr s w = None.
Proof.
  intros mapped Hm Hc. unfold alloc_handle.
  rewrite (bind_run _ _ s w mapped s w) by (unfold map_access, read_obj, bind, get; by rewrite Hx).
  rewrite (proj2 (Z.eqb_neq _ _)) by done. unfold checked_access. rewrite Hc. rewrite (bind_run _ _ s w (Some a) s w) by done.
  unfold alloc_handle_entry. by rewrite Ha.
Qed.

(** ** Duplicating a handle *)

Lemma only_same o s s' : only o s s' → same_refs s s'.
Proof. intros Ho. pose proof Ho as (E1 & E2 & E3 & _). split_and!; [by intros; apply (only_slots o)|by rewrite E1|done|done]. Qed.

Lemma same_refs_refl s : same_refs s s.
Proof. by split_and!. Qed.

Lemma same_refs_trans s s1 s2 : same_refs s s1 → same_refs s1 s2 → same_refs s s2.
Proof.
  intros (A1 & A2 & A3 & A4) (B1 & B2 & B3 & B4).
  split_and!; [intros; by rewrite B1|intros; by rewrite B2|congruence|congruence].
Qed.

Lemma assigned_same_l k i v s s1 s2 : same_refs s s1 → assigned k i v s1 s2 → assigned k i v s s2.
Proof.
  intros (A1 & A2 & A3 & A4) (B1 & B2 & B3 & B4).
  split_and!; [intros; by rewrite B1, A1|intros; by rewrite B2|congruence|congruence].
Qed.

Lemma assigned_same_r k i v s s1 s2 : assigned k i v s s1 → same_refs s1 s2 → assigned k i v s s2.
Proof.
  intros (A1 & A2 & A3 & A4) (B1 & B2 & B3 & B4).
  split_and!; [intros; by rewrite B1|intros; by rewrite B2|congruence|congruence].
Qed.

Lemma assigned_twice k i v v' s s1 s2 : assigned k i v s s1 → assigned k i v' s1 s2 → assigned k i v' s s2.
Proof.
  intros (A1 & A2 & A3 & A4) (B1 & B2 & B3 & B4).
  split_and!; [|intros; by rewrite B2|congruence|congruence].
  intros k' i'. rewrite B1. destruct (decide _) as [|Hne]; [done|]. by rewrite A1, decide_False.
Qed.

Lemma assigned_slot k i v s s' : assigned k i v s s' → slots s' k i = v.
Proof. intros (A & _). by rewrite A, decide_True. Qed.

(** The two reserved bits are apart from the granted access. *)
Lemma with_attr_access attr a : Z.ldiff (with_attr attr a) RESERVED_ALL = Z.ldiff a RESERVED_ALL.
Proof. unfold with_attr, RESERVED_ALL. destruct (has attr OBJ_INHERIT); [|done]. z_bits. Qed.

Lemma with_flags_access mask flags a : Z.ldiff (with_flags mask flags a) RESERVED_ALL = Z.ldiff a RESERVED_ALL.
Proof. unfold with_flags. z_bits. Qed.

Lemma ldiff_twice a b : Z.ldiff (Z.ldiff a b) b = Z.ldiff a b.
Proof. z_bits. Qed.

(** A pseudo-handle names no entry. *)
Lemma magic_no_slot e h s p hd o k i :
  inv e h s → magic_handle s hd = Some o → handle_slot p hd = (k, i) → slots s k i = None.
Proof.
  intros I Hm Hk. assert (Hin : hd ∈ pseudo_handles).
  { unfold magic_handle in Hm. unfold pseudo_handles.
    repeat match type of Hm with context [?a =? ?b] => destruct (Z.eqb_spec a b) as [->|]; [set_solver|] end. done. }
  destruct (slots s k i) as [[o' a]|] eqn:E; [|done]. unfold slots in E.
  destruct (h_tables s !! k) as [t|] eqn:Et; [|done]. cbn in E. apply slot_range in E.
  pose proof (inv_tables _ _ _ I _ _ Et) as Ht. pose proof (tk_last _ Ht). pose proof (tk_count _ Ht).
  unfold MAX_HANDLE_ENTRIES in *.
  unfold pseudo_handles in Hin. rewrite !elem_of_cons in Hin.
  destruct Hin as [->|[->|[->|[->|[->|[->|[]%not_elem_of_nil]]]]]]; vm_compute in Hk; injection Hk as <- <-; lia.
Qed.

Lemma alloc_handle_no_access_check_ok e h s w p o a attr x :
  inv e h s → h_objects s !! o = Some x → o_refcount x < INT_MAX →
  wp (alloc_handle_no_access_check p o a attr) s w
     (alloc_ok e h p o (with_attr attr (Z.ldiff
        (ops_map_access (o_ops x) (if has a MAXIMUM_ALLOWED then GENERIC_ALL else a)) RESERVED_ALL)) x s w).
Proof.
  intros I Hx Hr. unfold alloc_handle_no_access_check. rewrite wp_bind. eapply wp_map_access; [done|].
  apply alloc_handle_entry_ok; [done|done|done|apply unreserved].
Qed.

(** What is granted by a request for [access] on the object [x] at [o], to a holder of
    [src_access]: without a check never more than [src_access]; more only after the
    access check with the token of the caller and of the receiving process [d]. *)
Definition wanted_access (x : object) (src_access access options : Z) : Z :=
  if has options DUPLICATE_SAME_ACCESS then Z.ldiff src_access RESERVED_ALL
  else Z.ldiff (ops_map_access (o_ops x) access) RESERVED_ALL.
Definition may_grant (s : handles) (d o : Z) (x : object) (src_access wanted granted : Z) : Prop :=
  (Z.ldiff wanted (Z.ldiff src_access RESERVED_ALL) = 0 ∧ granted = wanted) ∨
  (∃ a1 a2, match cur_token (h_current s) with
            | Some token => check_object_access (Some token) o wanted = Some a1
            | None => a1 = wanted
            end ∧
     check_object_access (h_process_token s !! d) o a1 = Some a2 ∧
     granted = Z.ldiff (ops_map_access (o_ops x) (if has a2 MAXIMUM_ALLOWED then GENERIC_ALL else a2)) RESERVED_ALL).

Definition source_access (x : object) (acc : option Z) : Z :=
  match acc with Some a => a | None => ops_map_access (o_ops x) GENERIC_ALL end.

(** The outcome of [duplicate_handle] into the table of process [d]. *)
Definition duplicated (e h : Z → Z) (src hd d access attr options : Z) (s : handles) (r : Z) (s' : handles) : Prop :=
  inv e h s' ∧
  (r = 0 ∧ same_refs s s' ∨
   ∃ o acc x k i a, target s src hd = Some (o, acc) ∧ h_objects s !! o = Some x ∧
     handle_slot d r = (k, i) ∧ assigned k i (Some (o, a)) s s' ∧
     (slots s k i = None ∨ r = hd ∧ src = d ∧ has options DUPLICATE_CLOSE_SOURCE = true) ∧
     may_grant s d o x (source_access x acc) (wanted_access x (source_access x acc) access options)
       (Z.ldiff a RESERVED_ALL)).

Lemma wanted_masked x src access options :
  Z.ldiff (wanted_access x src access options) RESERVED_ALL = wanted_access x src access options.
Proof. unfold wanted_access. destruct (has options DUPLICATE_SAME_ACCESS); apply ldiff_twice. Qed.

Lemma wanted_unreserved x src access options : has (wanted_access x src access options) RESERVED_ALL = false.
Proof. rewrite <- wanted_masked. apply unreserved. Qed.

Lemma magic_same s s' hd : same_refs s s' → magic_handle s' hd = magic_handle s hd.
Proof. intros (_ & _ & E1 & E2). unfold magic_handle. by rewrite E1, E2. Qed.

(** The flags are copied, and the temporary reference is dropped. *)
Lemma duplicate_end e h s s1 s2 w d res k i o a b flags :
  same_refs s s1 → inv e (bump o h) s2 → (∀ o, 0 ≤ h o) → truth res = true → magic_handle s2 res = None →
  handle_slot d res = (k, i) → assigned k i (Some (o, a)) s1 s2 →
  wp (when (truth res && b) (let* d := of_option (Some d) in set_handle_flags d res 0xffffffff flags >> ret tt) >>
      release_object o >> ret res) s2 w
     (λ r s' _, r = res ∧ inv e h s' ∧ ∃ a', assigned k i (Some (o, a')) s s' ∧ Z.ldiff a' RESERVED_ALL = Z.ldiff a RESERVED_ALL).
Proof.
  intros Hs I Hh Ht Hm Hk Ha. rewrite Ht. cbn [andb].
  assert (Hend : ∀ s3 w3 a', inv e (bump o h) s3 → assigned k i (Some (o, a')) s1 s3 →
    Z.ldiff a' RESERVED_ALL = Z.ldiff a RESERVED_ALL →
    wp (release_object o >> ret res) s3 w3 (λ r s' _, r = res ∧ inv e h s' ∧
      ∃ a', assigned k i (Some (o, a')) s s' ∧ Z.ldiff a' RESERVED_ALL = Z.ldiff a RESERVED_ALL)).
  { intros s3 w3 a' I3 Ha' El. destruct (inv_held _ _ _ I3 o) as [_ [x Hx]]; [rewrite bump_eq; specialize (Hh o); lia|].
    rewrite wp_bind. eapply wp_mono; [by eapply (release_temp e h s3 w3 o x)|]. intros _ s4 w4 (-> & I4 & Ho & _).
    apply wp_ret. split_and!; [done|done|]. exists a'. split; [|done].
    eapply assigned_same_l; [done|]. eapply assigned_same_r; [done|]. by eapply only_same. }
  rewrite wp_bind. destruct b; cbn [when]; [|apply wp_ret; by eapply Hend].
  rewrite wp_bind. apply wp_ret. rewrite wp_bind.
  eapply wp_mono; [by apply (set_handle_flags_ok e _ s2 w d res k i 0xffffffff flags I)|].
  intros r s3 w3. rewrite (assigned_slot _ _ _ _ _ Ha). intros (_ & _ & I3 & Ha3 & _). apply wp_ret.
  eapply (Hend s3 w3); [done|by eapply assigned_twice|]. apply with_flags_access.
Qed.

Lemma resolve_target s p hd access ops o :
  resolve s p hd access ops = inr o → ∃ acc x, target s p hd = Some (o, acc) ∧ h_objects s !! o = Some x.
Proof.
  unfold resolve. destruct (target s p hd) as [[o' acc]|]; [|done].
  destruct (h_objects s !! o') as [x|] eqn:E; [|done]. destruct (negb _); [done|].
  intros Hr. exists acc, x. destruct acc; [destruct (_ =? _)|]; naive_solver.
Qed.

(** The entry that [get_handle] finds is the one that [target] tells. *)
Lemma target_entry e h s p hd o acc k i :
  inv e h s → target s p hd = Some (o, acc) → handle_slot p hd = (k, i) →
  match acc with
  | Some a => magic_handle s hd = None ∧ slots s k i = Some (o, a)
  | None => slots s k i = None
  end.
Proof.
  intros I Ht Hk. unfold target in Ht. destruct (magic_handle s hd) as [o'|] eqn:Em.
  - injection Ht as -> <-. by eapply magic_no_slot.
  - rewrite Hk in Ht. destruct (slots s k i) as [[o' a]|]; [|done]. by injection Ht as -> <-.
Qed.

(** A new entry for the duplicate, in the state [s1] where the object is held. *)
Lemma duplicate_new e h s s1 w w1 src hd d access attr options o acc x x1 a r s2 b flags :
  only o s s1 → (∀ o, 0 ≤ h o) → target s src hd = Some (o, acc) → h_objects s !! o = Some x →
  inv e (bump o h) s1 → alloc_ok e (bump o h) d o a x1 s1 w r s2 w1 →
  may_grant s d o x (source_access x acc) (wanted_access x (source_access x acc) access options) (Z.ldiff a RESERVED_ALL) →
  wp (when (truth r && b) (let* d := of_option (Some d) in set_handle_flags d r 0xffffffff flags >> ret tt) >>
      release_object o >> ret r) s2 w1 (λ r s' _, duplicated e h src hd d access attr options s r s').
Proof.
  intros Ho Hh Ht Hx I1 Hal Hg. pose proof (only_same _ _ _ Ho) as Hs.
  destruct Hal as [(-> & -> & _)|(t & i & Htab & -> & Hff & Hi & _ & I2 & Ha & _)].
  - rewrite wp_bind. change (truth 0 && b) with false. apply wp_ret.
    destruct (inv_held _ _ _ I1 o) as [_ [y Hy]]; [rewrite bump_eq; specialize (Hh o); lia|].
    rewrite wp_bind. eapply wp_mono; [by eapply release_temp|]. intros _ s3 w3 (-> & I3 & Ho3 & _). apply wp_ret.
    split; [done|]. left. split; [done|]. eapply same_refs_trans; [done|by eapply only_same].
  - destruct Hff as (Hi0 & _ & Hf). assert (Hi' : 0 ≤ i < MAX_HANDLE_ENTRIES) by lia.
    eapply wp_mono; [apply (duplicate_end e h s s1 s2 w1 d _ (Some d) i o a)|]; try done.
    + unfold truth. pose proof (index_range i Hi'). by rewrite (proj2 (Z.eqb_neq _ _)) by lia.
    + by apply magic_index.
    + by apply slot_local.
    + intros r s' w' (-> & I' & a' & Ha' & El). split; [done|]. right. exists o, acc, x, (Some d), i, a'.
      split_and!; [done|done|by apply slot_local|done| |by rewrite El]. left. destruct Hs as [Hs _].
      rewrite <- Hs. by rewrite (slots_table _ _ _ _ Htab).
Qed.

Lemma duplicate_handle_ok e h s w src hd d access attr options
    (I : inv e h s) (Hc : current_ok h s) (Hroom : room 2 s) (Hglob : has options DUPLICATE_MAKE_GLOBAL = false) :
  wp (duplicate_handle src hd (Some d) access attr options) s w
     (λ r s' _, duplicated e h src hd d access attr options s r s').
Proof.
  unfold duplicate_handle. rewrite wp_bind.
  assert (Hroom1 : room 1 s) by (intros o x Hx; specialize (Hroom o x Hx); lia).
  eapply wp_mono; [by apply (get_handle_obj_ok e h s w src hd 0 None)|].
  intros r s1 w1. destruct (resolve s src hd 0 None) as [err|o] eqn:Er.
  { intros (-> & -> & ->). apply wp_ret. split; [done|]. left. split; [done|apply same_refs_refl]. }
  intros (-> & -> & I1 & Ho & x & Hx & Hx1). destruct (resolve_target _ _ _ _ _ _ Er) as (acc & x' & Ht & Hx').
  assert (x' = x) as -> by congruence. clear Hx' Er.
  assert (Hh : ∀ o, 0 ≤ h o) by (intros o'; apply (inv_held _ _ _ I)).
  destruct (handle_slot src hd) as [k i] eqn:Ek. pose proof (target_entry _ _ _ _ _ _ _ _ _ I Ht Ek) as Hent.
  rewrite wp_bind, (wp_run _ _ _ _ _ _ (get_handle_run _ _ _ w src hd k i I1 Ek)).
  rewrite (only_slots _ _ _ k i Ho), wp_bind. eapply wp_read_obj; [done|]. rewrite wp_bind, wp_get, wp_bind.
  rewrite Hglob. set (x1 := set_refs _ _ x) in *.
  assert (Hr1 : o_refcount x1 < INT_MAX) by (specialize (Hroom o x Hx); cbn; lia).
  assert (Esrc : match (λ '(o, a), (k, i, HandleEntry (Some o) a)) <$> slots s k i with
                 | Some (_, _, e) => e_access e
                 | None => ops_map_access (o_ops x1) GENERIC_ALL
                 end = source_access x acc).
  { destruct acc; [destruct Hent as [_ ->]|rewrite Hent]; done. }
  rewrite Esrc. change (o_ops x1) with (o_ops x).
  fold (wanted_access x (source_access x acc) access options).
  set (wanted := wanted_access x (source_access x acc) access options).
  set (src_access := Z.ldiff (source_access x acc) RESERVED_ALL).
  set (flags := Z.shiftr (Z.land (source_access x acc) RESERVED_ALL) RESERVED_SHIFT).
  assert (Ecur : h_current s1 = h_current s) by apply Ho. assert (Etok : h_process_token s1 = h_process_token s) by apply Ho.
  assert (Hfail : ∀ w, wp (release_object o >> ret 0) s1 w (λ r s' _, duplicated e h src hd d access attr options s r s')).
  { intros w'. rewrite wp_bind. eapply wp_mono; [by eapply release_temp|]. intros _ s3 w3 (-> & I3 & Ho3 & _).
    apply wp_ret. split; [done|]. left. split; [done|]. eapply same_refs_trans; by eapply only_same. }
  destruct (truth (Z.ldiff wanted src_access)) eqn:Emore.
  - (* more than the source has: the access checks *)
    rewrite wp_bind. assert (Hgo : ∀ a1, match cur_token (h_current s) with
        | Some token => check_object_access (Some token) o wanted = Some a1 | None => a1 = wanted end →
      ∀ w, wp (let* dst := of_option (Some d) in checked_access (h_process_token s1 !! dst) o a1) s1 w (λ a s' w',
        wp match a with
           | Some access0 =>
               let* res := (let* dst := of_option (Some d) in alloc_handle_no_access_check dst o access0 attr) in ret (Some res)
           | None => ret None
           end s' w' (λ res s' w', wp match res with
             | Some res => when (truth res && has options DUPLICATE_SAME_ATTRIBUTES)
                 (let* dst := of_option (Some d) in set_handle_flags dst res 0xffffffff flags >> ret tt) >>
                 release_object o >> ret res
             | None => release_object o >> ret 0
             end s' w' (λ r s' _, duplicated e h src hd d access attr options s r s')))).
    { intros a1 Ha1 w1. rewrite wp_bind. apply wp_ret. apply wp_checked_access; [|intros _; apply wp_ret; apply Hfail].
      intros a2 Ha2. rewrite wp_bind, wp_bind. apply wp_ret.
      eapply wp_mono; [by apply (alloc_handle_no_access_check_ok e _ s1 w1 d o a2 attr x1 I1)|].
      intros r s2 w2 Hal. apply wp_ret. eapply (duplicate_new e h s s1 w1); [done..|]. right. exists a1, a2.
      rewrite <- Etok. split_and!; [done|done|]. by rewrite with_attr_access, ldiff_twice. }
    rewrite Ecur. destruct (cur_token (h_current s)) as [token|] eqn:Et.
    + apply wp_checked_access; [intros a1 Ha1|intros _]; rewrite wp_bind; [by apply Hgo|].
      do 2 apply wp_ret. apply Hfail.
    + apply wp_ret. rewrite wp_bind. by apply Hgo.
  - (* covered by the source *)
    assert (Hcov : Z.ldiff wanted src_access = 0) by (unfold truth in Emore; lia).
    assert (Hw : has wanted RESERVED_ALL = false) by apply wanted_unreserved.
    assert (Ew : Z.ldiff (with_attr attr wanted) RESERVED_ALL = wanted).
    { rewrite with_attr_access. apply wanted_masked. }
    assert (Hgrant : may_grant s d o x (source_access x acc) wanted wanted) by (left; done).
    assert (Hnew : ∀ w, wp (alloc_handle_entry d o wanted attr) s1 w (λ res s' w',
        wp (when (truth res && has options DUPLICATE_SAME_ATTRIBUTES)
              (let* dst := of_option (Some d) in set_handle_flags dst res 0xffffffff flags >> ret tt) >>
            release_object o >> ret res) s' w' (λ r s' _, duplicated e h src hd d access attr options s r s'))).
    { intros w1. eapply wp_mono; [by apply (alloc_handle_entry_ok e _ s1 w1 d o wanted attr x1 I1)|].
      intros r s2 w2 Hal. eapply (duplicate_new e h s s1 w1); [done..|]. by rewrite Ew. }
    rewrite wp_bind. destruct (has options DUPLICATE_CLOSE_SOURCE && bool_decide (Some d = Some src)) eqn:Ecl.
    2: { rewrite wp_bind. apply wp_ret. eapply wp_mono; [apply Hnew|]. intros. by apply wp_ret. }
    apply andb_true_iff in Ecl as [Ecl Esame]. apply bool_decide_eq_true in Esame. injection Esame as ->.
    destruct acc as [a|]; [destruct Hent as [Hm Hent]; rewrite Hent|rewrite Hent]; cbn [fmap option_fmap option_map].
    2: { rewrite wp_bind. apply wp_ret. eapply wp_mono; [apply Hnew|]. intros. by apply wp_ret. }
    cbn [e_access e_ptr]. destruct (has a RESERVED_CLOSE_PROTECT); cbn [negb].
    { rewrite wp_bind. apply wp_ret. eapply wp_mono; [apply Hnew|]. intros. by apply wp_ret. }
    rewrite wp_bind. fold (with_attr attr wanted).
    eapply wp_mono; [apply (write_access_ok e _ s1 w k i o a (with_attr attr wanted) I1); by rewrite (only_slots _ _ _ k i Ho)|].
    intros _ s2 w2 (-> & I2 & Ha2 & Eo2). do 2 apply wp_ret. pose proof (only_same _ _ _ Ho) as Hs1.
    eapply wp_mono; [apply (duplicate_end e h s s1 s2 w src hd k i o (with_attr attr wanted)); try done|].
    + unfold truth. destruct (Z.eqb_spec hd 0) as [->|]; [|done]. exfalso. vm_compute in Ek. injection Ek as <- <-.
      unfold slots in Hent. destruct (h_tables s !! Some src); [|done]. cbn in Hent. apply slot_range in Hent. lia.
    + destruct Ha2 as (_ & _ & A3 & A4). unfold magic_handle in *. by rewrite A3, A4, Ecur, Etok.
    + intros r s' w' (-> & I' & a' & Ha' & El). split; [done|]. right. exists o, (Some a), x, k, i, a'.
      split_and!; try done; [by right|]. fold wanted. rewrite El, Ew. done.
Qed.


(** C29: Closing a handle in the table of a process, whose object has a [close_handle]
    operation that leaves handles and references alone (those of jobs, keys, device files
    and some others do not), on every branch: an unknown handle and a protected one are
    refused, and so is a handle that the object wants to keep, with no change. Otherwise
    the entry is emptied, all other entries are as before even when the table shrinks,
    and the object loses one handle and one reference: it is freed exactly when that was
    the last reference. *)
Theorem close_handle_correct e h s w p hd
    (I : inv e h s) (Hl : handle_is_global hd = false) (Hplain : plain_handle s p hd) :
  wp (close_handle p hd) s w (λ r s' _, close_post e h p (handle_to_index hd) s r s').
Proof. by apply close_handle_ok. Qed.

(** Closing a global handle goes wrong: [close_handle] takes the index from the
    obfuscated handle, which is beyond the end of every table, so that the server
    writes outside the memory of the global table. *)
Theorem close_global_handle_out_of_bounds e h s w p i o a
    (I : inv e h s) (Hi : 0 ≤ i < MAX_HANDLE_ENTRIES) (Hs : slots s None i = Some (o, a))
    (Ha : has a RESERVED_CLOSE_PROTECT = false)
    (Hclose : ∀ ops hd s w, ∃ w', ops_close_handle ops o p hd s w = Some (true, s, w')) :
  close_handle p (handle_local_to_global (index_to_handle i)) s w = None.
Proof.
  set (g := handle_local_to_global (index_to_handle i)). pose proof (slot_global p i Hi) as Hk. fold g in Hk.
  pose proof (index_range i Hi) as Hr.
  assert (Hgl : handle_is_global g = true).
  { unfold handle_slot in Hk. by destruct (handle_is_global g). }
  assert (Eg : g = Z.lxor (index_to_handle i) HANDLE_OBFUSCATOR).
  { unfold g, handle_local_to_global. by rewrite (proj2 (Z.eqb_neq _ 0)) by lia. }
  assert (Hg : 67108864 ≤ g < 4294967296).
  { split; [rewrite Eg; apply obfuscated; change (2 ^ 26) with 67108864; lia|]. rewrite Eg.
    assert (0 ≤ Z.lxor (index_to_handle i) HANDLE_OBFUSCATOR) by (apply Z.lxor_nonneg; unfold HANDLE_OBFUSCATOR; lia).
    destruct (decide (Z.lxor (index_to_handle i) HANDLE_OBFUSCATOR = 0)) as [->|]; [done|].
    change 4294967296 with (2 ^ 32). apply Z.log2_lt_pow2; [lia|].
    eapply Z.le_lt_trans; [apply Z.log2_lxor; unfold HANDLE_OBFUSCATOR; lia|].
    apply Z.max_lub_lt; [|done]. apply Z.log2_lt_pow2; [lia|]. change (2 ^ 32) with 4294967296. lia. }
  destruct (inv_named _ _ _ I _ _ _ _ Hs) as [x Hx].
  destruct (h_tables s !! None) as [t|] eqn:Et; [|by unfold slots in Hs; rewrite Et in Hs].
  pose proof (inv_tables _ _ _ I _ _ Et) as Ht. pose proof (tk_length _ Ht). pose proof (tk_count _ Ht).
  unfold close_handle, bind at 1. rewrite (get_handle_run e h s w p g None i I Hk), Hs. cbn [fmap option_fmap option_map e_access].
  rewrite Ha. unfold bind, of_option, ret, read_obj, get, read_table. cbn [e_ptr]. unfold bind. rewrite Hx. cbn.
  unfold ret at 1. destruct (Hclose (o_ops x) g s w) as (w' & ->). cbn. rewrite Hgl, Et. cbn. unfold ret at 1.
  destruct (entry_at t (handle_to_index g)) as [en|] eqn:En; [|done]. apply entry_at_range in En.
  rewrite handle_to_index_eq in En by lia. unfold MAX_HANDLE_ENTRIES in *. Z.div_mod_to_equations. lia.
Qed.

(** Asking for a global duplicate of a handle with more access than the source
    has makes the server read [dst->token] through a NULL pointer: the request does
    so for every thread that does not impersonate. *)
Theorem duplicate_global_null_dereference e h s w src hd access attr options o acc x
    (I : inv e h s) (Hc : current_ok h s) (Hroom : room 1 s)
    (Ht : target s src hd = Some (o, acc)) (Hx : h_objects s !! o = Some x)
    (Himp : cur_token (h_current s) = None)
    (Hmore : Z.ldiff (wanted_access x (source_access x acc) access options)
               (Z.ldiff (source_access x acc) RESERVED_ALL) ≠ 0) :
  duplicate_handle src hd None access attr options s w = None.
Proof.
  unfold duplicate_handle, bind at 1. pose proof (get_handle_obj_ok e h s w src hd 0 None I Hc Hroom) as Hget.
  assert (Er : resolve s src hd 0 None = inr o).
  { unfold resolve. rewrite Ht, Hx. cbn [default]. rewrite bool_decide_eq_true_2 by done. cbn [negb].
    destruct acc; [by rewrite Z.land_0_r|done]. }
  rewrite Er in Hget. destruct (wp_elim _ _ _ _ Hget) as (r & s1 & w1 & -> & -> & -> & I1 & Ho & x' & Hx' & Hx1).
  assert (x' = x) as -> by congruence. destruct (handle_slot src hd) as [k i] eqn:Ek.
  pose proof (target_entry _ _ _ _ _ _ _ _ _ I Ht Ek) as Hent.
  unfold bind at 1. rewrite (get_handle_run _ _ _ w src hd k i I1 Ek), (only_slots _ _ _ k i Ho).
  unfold bind at 1, read_obj, bind at 1, get at 1. rewrite Hx1. unfold of_option at 1, ret at 1.
  set (x1 := set_refs _ _ x).
  assert (Esrc : match (λ '(o, a), (k, i, HandleEntry (Some o) a)) <$> slots s k i with
                 | Some (_, _, e) => e_access e
                 | None => ops_map_access (o_ops x1) GENERIC_ALL
                 end = source_access x acc).
  { destruct acc; [destruct Hent as [_ ->]|rewrite Hent]; done. }
  rewrite Esrc. change (o_ops x1) with (o_ops x). fold (wanted_access x (source_access x acc) access options).
  unfold bind at 1, get at 1. unfold truth at 1. rewrite (proj2 (Z.eqb_neq _ 0)) by done. cbn [negb].
  assert (Ecur : h_current s1 = h_current s) by apply Ho. rewrite Ecur, Himp. done.
Qed.

(** ** What closing a handle may assume of all objects *)

Definition all_plain (s : handles) : Prop := ∀ o x, h_objects s !! o = Some x → plain_close (o_ops x).
#[local] Abbreviation keeps := (preserves all_plain).

Lemma wp_preserves {A} (m : H A) s w Q : keeps m → all_plain s → wp m s w Q → wp m s w (λ r s' w', Q r s' w' ∧ all_plain s').
Proof. intros Hm Hs Hw. apply wp_elim in Hw as (r & s' & w' & E & HQ). rewrite (wp_run _ _ _ _ _ _ E). split; [done|]. by eapply Hm. Qed.

(** An object that is read is one of them, and stays so when its counts change. *)
Lemma keeps_with_object {A} o (f : object → H A) : (∀ x, plain_close (o_ops x) → keeps (f x)) → keeps (let* x := read_obj o in f x).
Proof.
  intros Hf s w r s' w'. unfold read_obj, bind, get. destruct (h_objects s !! o) as [x|] eqn:E; [|done]. cbn.
  intros Er Hs. eapply Hf; [by eapply Hs|exact Er|done].
Qed.
Lemma keeps_object o x : plain_close (o_ops x) → keeps (put_obj o x).
Proof. intros Hx. apply preserves_modify. intros s Hs o' y. cbn. intros [[<- <-]|[_ Hy]]%lookup_insert_Some; [done|by eapply Hs]. Qed.
Lemma keeps_removed o : keeps (modify (on_objects (delete o))).
Proof. apply preserves_modify. intros s Hs o' y. cbn. intros [_ Hy]%lookup_delete_Some. by eapply Hs. Qed.
Lemma keeps_on_types f : keeps (modify (on_types f)).
Proof. by apply preserves_modify. Qed.
Lemma keeps_put_table k t : keeps (put_table k t).
Proof. by apply preserves_modify. Qed.
Lemma keeps_of_option {A} (a : option A) : keeps (of_option a).
Proof. destruct a; cbn; auto with preserves. Qed.
Lemma keeps_close {A} ops o p hd (f : bool → H A) : plain_close ops → (∀ b, keeps (f b)) → keeps (let* b := ops_close_handle ops o p hd in f b).
Proof.
  intros Hops Hf s w r s' w'. unfold bind. specialize (Hops o p hd s w). unfold wp in Hops.
  destruct (ops_close_handle ops o p hd s w) as [[[b s1] w1]|]; [|done]. subst s1. apply Hf.
Qed.
#[local] Hint Resolve keeps_object keeps_removed keeps_on_types keeps_put_table keeps_of_option : preserves.
Ltac keep :=
  repeat match goal with
  | |- preserves _ (bind (read_obj _) _) => apply keeps_with_object; intros ? ?
  | |- preserves _ (bind (ops_close_handle _ _ _ _) _) => apply keeps_close; [done|intros ?]
  | |- preserves _ (bind _ _) => apply preserves_bind; [|intros ?]
  | |- preserves _ (if ?b then _ else _) => destruct b
  | |- preserves _ (when ?b _) => destruct b; cbn [when]
  | |- preserves _ (match ?x with _ => _ end) => destruct x
  | |- preserves _ (let _ := _ in _) => cbv zeta
  end; auto with preserves.

Lemma keeps_grab o : keeps (grab_object o).
Proof. unfold grab_object. keep. Qed.
Lemma keeps_release o : keeps (release_object o).
Proof. unfold release_object. keep. Qed.
Lemma keeps_on_type o f : keeps (on_type o f).
Proof. unfold on_type. keep. Qed.
Lemma keeps_read_table k : keeps (read_table k).
Proof. unfold read_table. keep. Qed.
#[local] Hint Resolve keeps_grab keeps_release keeps_on_type keeps_read_table : preserves.
Lemma keeps_grab_for_handle o : keeps (grab_object_for_handle o).
Proof. unfold grab_object_for_handle. keep. Qed.
Lemma keeps_release_from_handle o : keeps (release_object_from_handle o).
Proof. unfold release_object_from_handle. keep. Qed.
Lemma keeps_get_handle p hd : keeps (get_handle p hd).
Proof. unfold get_handle. keep. Qed.
Lemma keeps_write_entry k i e : keeps (write_entry k i e).
Proof. unfold write_entry. keep. Qed.
#[local] Hint Resolve keeps_grab_for_handle keeps_release_from_handle keeps_get_handle keeps_write_entry : preserves.
Lemma keeps_shrink t : keeps (shrink_handle_table t).
Proof. unfold shrink_handle_table. keep. Qed.
Lemma keeps_alloc_entry k o a : keeps (alloc_entry k o a).
Proof. unfold alloc_entry, grow_handle_table. keep. Qed.
Lemma keeps_get_handle_obj p hd a ops : keeps (get_handle_obj p hd a ops).
Proof. unfold get_handle_obj, get_magic_handle. keep. Qed.
#[local] Hint Resolve keeps_shrink keeps_alloc_entry keeps_get_handle_obj : preserves.
Lemma keeps_close_handle p hd : keeps (close_handle p hd).
Proof. unfold close_handle. keep. Qed.
Lemma keeps_alloc_handle p o a attr : keeps (alloc_handle_no_access_check p o a attr).
Proof. unfold alloc_handle_no_access_check, map_access, alloc_handle_entry. keep. Qed.
Lemma keeps_alloc_handle_entry p o a attr : keeps (alloc_handle_entry p o a attr).
Proof. unfold alloc_handle_entry. keep. Qed.
Lemma keeps_checked_access token o a : keeps (checked_access token o a).
Proof. unfold checked_access. keep. Qed.
Lemma keeps_set_flags p hd mask flags : keeps (set_handle_flags p hd mask flags).
Proof. unfold set_handle_flags, get_magic_handle. keep. Qed.
Lemma keeps_alloc_global o a : keeps (alloc_global_handle o a).
Proof. unfold alloc_global_handle, checked_access, alloc_global_handle_no_access_check, alloc_handle_table. keep. Qed.
Lemma keeps_alloc_global_unchecked o a : keeps (alloc_global_handle_no_access_check o a).
Proof. unfold alloc_global_handle_no_access_check, alloc_handle_table. keep. Qed.
#[local] Hint Resolve keeps_close_handle keeps_alloc_handle keeps_alloc_handle_entry keeps_checked_access keeps_set_flags
  keeps_alloc_global keeps_alloc_global_unchecked : preserves.
Lemma keeps_duplicate src hd d a attr options : keeps (duplicate_handle src hd d a attr options).
Proof. unfold duplicate_handle. keep. Qed.

(** ** Sequences of requests *)

Inductive handle_request :=
  | ReqClose (hd : Z) | ReqSetInfo (hd mask flags : Z)
  | ReqDup (src_process src_handle dst_process access attr options : Z)
  | ReqInfo (hd : Z) | ReqCompare (first second : Z)
  | SwitchThread (c : current_thread).

Definition set_current (c : current_thread) (s : handles) : handles :=
  Handles (h_objects s) (h_types s) (h_tables s) (h_process_token s) c.
Definition run_request (r : handle_request) : H unit :=
  match r with
  | ReqClose hd => req_close_handle hd
  | ReqSetInfo hd mask flags => req_set_handle_info hd mask flags >> ret tt
  | ReqDup sp sh dp access attr options => req_dup_handle sp sh dp access attr options >> ret tt
  | ReqInfo hd => req_get_object_info hd >> ret tt
  | ReqCompare a b => req_compare_objects a b
  | SwitchThread c => modify (set_current c)
  end.

(** Global handles are neither closed nor made, and counts are far from overflow. The
    next request may come from any thread that, with its process and its token, the
    server holds ([h] counts the references that are not handles). *)
Definition thread_held (h : Z → Z) (c : current_thread) : Prop :=
  0 < h (cur_thread c) ∧ 0 < h (cur_process c) ∧ ∀ t, cur_token c = Some t → 0 < h t.
Definition request_allowed (h : Z → Z) (s : handles) (r : handle_request) : Prop :=
  room 4 s ∧
  match r with
  | ReqClose hd => handle_is_global hd = false
  | ReqDup _ sh _ _ _ options => has options DUPLICATE_MAKE_GLOBAL = false ∧ handle_is_global sh = false
  | SwitchThread c => thread_held h c
  | _ => True
  end.

Inductive reachable (h : Z → Z) (s0 : handles) : handles → Prop :=
  | reachable_start : reachable h s0 s0
  | reachable_step s r w s' w' :
      reachable h s0 s → request_allowed h s r → run_request r s w = Some (tt, s', w') → reachable h s0 s'.

(** The invariant, with what the pseudo-handles and closing handles need. *)
Definition safe (h : Z → Z) (s : handles) : Prop := inv zero h s ∧ current_ok h s ∧ all_plain s.

Lemma safe_bump h o s : current_ok h s → current_ok (bump o h) s.
Proof.
  assert (Hb : ∀ o', h o' ≤ bump o h o').
  { intros o'. unfold bump. destruct (o' =? o); cbn; lia. }
  intros (C1 & C2 & C3 & C4). split_and!.
  - specialize (Hb (cur_thread (h_current s))). lia.
  - specialize (Hb (cur_process (h_current s))). lia.
  - intros t E. specialize (C3 t E). specialize (Hb t). lia.
  - intros p t E. specialize (C4 p t E). specialize (Hb t). lia.
Qed.

Lemma inv_current e h s c : inv e h s → inv e h (set_current c s).
Proof. intros I. destruct I. constructor; try done. Qed.

Lemma current_same h s s' :
  h_process_token s' = h_process_token s → h_current s' = h_current s → current_ok h s → current_ok h s'.
Proof. unfold current_ok. by intros -> ->. Qed.

Lemma room_grab n o x s s' :
  room (n + 1) s → only o s s' → h_objects s !! o = Some x →
  h_objects s' !! o = Some (set_refs (o_refcount x + 1) (o_handle_count x) x) → room n s'.
Proof.
  intros Hr (_ & _ & _ & Ho) Hx Hx' o' y Hy. destruct (decide (o' = o)) as [->|Hne].
  - rewrite Hx' in Hy. injection Hy as <-. specialize (Hr o x Hx). cbn. lia.
  - rewrite Ho in Hy by done. specialize (Hr o' y Hy). lia.
Qed.

Lemma room_mono n m s : m ≤ n → room n s → room m s.
Proof. intros Hl Hr o x Hx. specialize (Hr o x Hx). lia. Qed.

(** [get_handle_obj], for a client that only wants to hold the object. *)
Lemma hold_object h s w p hd access ops n (Q : option Z → handles → world → Prop) :
  safe h s → room (n + 1) s → 0 ≤ n →
  (∀ w', Q None s w') → (∀ o s' w', safe (bump o h) s' → room n s' → only o s s' → Q (Some o) s' w') →
  wp (get_handle_obj p hd access ops) s w Q.
Proof.
  intros (I & Hc & Hpl) Hr Hn HN HS. eapply wp_mono.
  { apply wp_preserves; [apply keeps_get_handle_obj|done|].
    apply (get_handle_obj_ok zero h s w p hd access ops I Hc). eapply room_mono; [|done]. lia. }
  intros r s' w' [H' Hpl']. revert H'. destruct (resolve s p hd access ops) as [err|o].
  - intros (-> & -> & ->). apply HN.
  - intros (-> & -> & I' & Ho & x & Hx & Hx'). apply HS; [split_and!; [done| |done]|by eapply room_grab|done].
    apply safe_bump. eapply current_same; [apply Ho|apply Ho|done].
Qed.

(** [release_object], for such a client. *)
Lemma drop_object h s w o (Q : unit → handles → world → Prop) :
  safe (bump o h) s → current_ok h s → (∀ o, 0 ≤ h o) →
  (∀ s' w', safe h s' → h_process_token s' = h_process_token s ∧ h_current s' = h_current s → Q tt s' w') →
  wp (release_object o) s w Q.
Proof.
  intros (I & _ & Hpl) Hc Hh HQ. destruct (inv_held _ _ _ I o) as [_ [x Hx]]; [rewrite bump_eq; specialize (Hh o); lia|].
  eapply wp_mono; [apply wp_preserves; [apply keeps_release|done|by apply (release_temp zero h s w o x I Hx Hh)]|].
  intros [] s' w' [(-> & I' & Ho & _) Hpl'].
  apply HQ; [|split; apply Ho]. split_and!; [done| |done]. eapply current_same; [apply Ho|apply Ho|done].
Qed.

Lemma close_safe h s w p hd (Q : Z → handles → world → Prop) :
  safe h s → handle_is_global hd = false →
  (∀ r s' w', safe h s' → h_process_token s' = h_process_token s ∧ h_current s' = h_current s → Q r s' w') →
  wp (close_handle p hd) s w Q.
Proof.
  intros (I & Hc & Hpl) Hg HQ. eapply wp_mono.
  { apply wp_preserves; [apply keeps_close_handle|done|]. apply (close_handle_ok zero h s w p hd I Hg).
    intros o a x _ Hx. by eapply Hpl. }
  intros r s' w' [H' Hpl']. revert H'. unfold close_post. destruct (slots s (Some p) _) as [[o a]|]; [|intros [_ ->]; by apply HQ].
  intros [[_ ->]|(_ & _ & I' & Ha & _)]; [by apply HQ|]. destruct Ha as (_ & _ & E1 & E2).
  apply HQ; [|done]. split_and!; [done| |done]. by eapply current_same.
Qed.

Lemma duplicate_safe h s w src hd d access attr options (Q : Z → handles → world → Prop) :
  safe h s → room 2 s → has options DUPLICATE_MAKE_GLOBAL = false →
  (∀ r s' w', safe h s' → h_process_token s' = h_process_token s ∧ h_current s' = h_current s → Q r s' w') →
  wp (duplicate_handle src hd (Some d) access attr options) s w Q.
Proof.
  intros (I & Hc & Hpl) Hr Hg HQ. eapply wp_mono.
  { apply wp_preserves; [apply keeps_duplicate|done|by apply (duplicate_handle_ok zero h s w)]. }
  intros r s' w' [[I' Hd] Hpl'].
  assert (E : h_process_token s' = h_process_token s ∧ h_current s' = h_current s).
  { destruct Hd as [[_ Hs]|(o & acc & x & k & i & a & _ & _ & _ & Ha & _)]; [apply Hs|apply Ha]. }
  apply HQ; [|done]. split_and!; [done| |done]. by eapply current_same; [apply E|apply E|].
Qed.

Lemma dup_request_safe h s w sp sh dp access attr options :
  safe h s → room 4 s → has options DUPLICATE_MAKE_GLOBAL = false → handle_is_global sh = false →
  wp (req_dup_handle sp sh dp access attr options) s w (λ _ s' _, safe h s').
Proof.
  intros Hs Hr Hg Hl. assert (Hh : ∀ o, 0 ≤ h o) by (intros o; destruct Hs as (I & _); apply (inv_held _ _ _ I)).
  assert (Hb : ∀ o o', 0 ≤ bump o h o') by (intros o o'; specialize (Hh o'); unfold bump; destruct (o' =? o); cbn; lia).
  unfold req_dup_handle, get_process_from_handle. rewrite wp_bind, wp_bind, wp_get.
  eapply (hold_object h s w _ _ _ _ 3); [done|done|lia|intros; by apply wp_ret|].
  intros src s1 w1 Hs1 Hr1 Ho1. rewrite wp_bind, Hg. pose proof Hs as (_ & Hc & _).
  assert (Hc1 : current_ok h s1) by (eapply current_same; [apply Ho1|apply Ho1|done]).
  (* the end of the request *)
  assert (Hend : ∀ r dst s2 w2, safe (bump src h) s2 → current_ok h s2 →
    wp (when (has options DUPLICATE_CLOSE_SOURCE && (negb (bool_decide (Some src = dst)) || negb (sh =? r)))
          (close_handle src sh >> ret tt) >> release_object src >> ret r) s2 w2 (λ _ s' _, safe h s')).
  { intros r dst s2 w2 Hs2 Hc2. assert (Hrel : ∀ s3 w3, safe (bump src h) s3 → current_ok h s3 →
      wp (release_object src >> ret r) s3 w3 (λ _ s' _, safe h s')).
    { intros s3 w3 Hs3 Hc3. rewrite wp_bind. apply (drop_object h s3 w3 src); [done|done|done|]. intros. by apply wp_ret. }
    rewrite wp_bind. destruct (_ && _); cbn [when]; [|apply wp_ret; by apply Hrel].
    rewrite wp_bind. apply (close_safe (bump src h)); [done|done|]. intros _ s3 w3 Hs3 [E1 E2].
    apply wp_ret. apply Hrel; [done|]. by eapply current_same. }
  rewrite wp_bind, wp_bind, wp_get. eapply (hold_object (bump src h) s1 w1 _ _ _ _ 2); [done|done|lia| |].
  { intros w2. apply wp_ret. by apply Hend. }
  intros dst s2 w2 Hs2 Hr2 Ho2. assert (Hc2 : current_ok (bump src h) s2).
  { eapply current_same; [apply Ho2|apply Ho2|]. by apply safe_bump. }
  rewrite wp_bind. apply (duplicate_safe (bump dst (bump src h))); [done|done|done|]. intros r s3 w3 Hs3 [E1 E2].
  rewrite wp_bind. apply (drop_object (bump src h)); [done|by eapply current_same|done|]. intros s4 w4 Hs4 [E3 E4].
  apply wp_ret. apply Hend; [done|]. destruct Ho2 as (_ & E5 & E6 & _). eapply (current_same h s1); [congruence|congruence|done].
Qed.

Lemma info_request_safe h s w hd :
  safe h s → room 4 s → wp (req_get_object_info hd) s w (λ _ s' _, safe h s').
Proof.
  intros Hs Hr. assert (Hh : ∀ o, 0 ≤ h o) by (intros o; destruct Hs as (I & _); apply (inv_held _ _ _ I)).
  unfold req_get_object_info. rewrite wp_bind, wp_get, wp_bind.
  eapply (hold_object h s w _ _ _ _ 3); [done|done|lia|intros; by apply wp_ret|].
  intros o s1 w1 Hs1 _ Ho. pose proof Hs as (_ & Hc & _). pose proof Hs1 as (I1 & _).
  assert (Hc1 : current_ok h s1) by (eapply current_same; [apply Ho|apply Ho|done]).
  destruct (inv_held _ _ _ I1 o) as [_ [x Hx]]; [rewrite bump_eq; specialize (Hh o); lia|].
  assert (Hend : ∀ a : Z, wp (let* x := read_obj o in release_object o >> ret (Some (a, o_refcount x, o_handle_count x))) s1 w1
                       (λ _ s' _, safe h s')).
  { intros a. rewrite wp_bind. eapply wp_read_obj; [done|]. rewrite wp_bind.
    apply (drop_object h); [done|done|done|]. intros. by apply wp_ret. }
  unfold get_handle_access, get_magic_handle. rewrite wp_bind, wp_bind, wp_bind, wp_get. apply wp_ret.
  destruct (magic_handle s1 hd); [apply wp_ret; apply Hend|].
  destruct (handle_slot (cur_process (h_current s)) hd) as [k i] eqn:Ek.
  rewrite wp_bind, (wp_run _ _ _ _ _ _ (get_handle_run _ _ s1 w1 _ hd k i I1 Ek)). apply wp_ret. apply Hend.
Qed.

Lemma compare_request_safe h s w first second :
  safe h s → room 4 s → wp (req_compare_objects first second) s w (λ _ s' _, safe h s').
Proof.
  intros Hs Hr. assert (Hh : ∀ o, 0 ≤ h o) by (intros o; destruct Hs as (I & _); apply (inv_held _ _ _ I)).
  pose proof Hs as (_ & Hc & _). unfold req_compare_objects. rewrite wp_bind, wp_get, wp_bind.
  eapply (hold_object h s w _ _ _ _ 3); [done|done|lia|intros; by apply wp_ret|].
  intros o1 s1 w1 Hs1 Hr1 Ho1. assert (Hc1 : current_ok h s1) by (eapply current_same; [apply Ho1|apply Ho1|done]).
  rewrite wp_bind. eapply (hold_object (bump o1 h) s1 w1 _ _ _ _ 2); [done|done|lia| |].
  { intros w2. apply (drop_object h); done. }
  intros o2 s2 w2 Hs2 Hr2 Ho2. assert (Hc2 : current_ok h s2) by (eapply current_same; [apply Ho2|apply Ho2|done]).
  assert (Hrel : ∀ w, wp (release_object o2 >> release_object o1) s2 w (λ _ s' _, safe h s')).
  { intros w3. rewrite wp_bind. apply (drop_object (bump o1 h)); [done|by apply safe_bump| |].
    - intros o'. specialize (Hh o'). unfold bump. destruct (_ =? _); cbn; lia.
    - intros s3 w4 Hs3 [E1 E2]. apply (drop_object h); [done|by eapply current_same|done|done]. }
  rewrite wp_bind. unfold when. destruct (negb _); [rewrite wp_set_error|apply wp_ret]; apply Hrel.
Qed.

Lemma request_safe h s r w : safe h s → request_allowed h s r → wp (run_request r) s w (λ _ s' _, safe h s').
Proof.
  intros Hs [Hr Hal]. pose proof Hs as (I & Hc & Hpl). destruct r as [hd|hd mask flags|sp sh dp access attr options|hd|a b|c];
    cbn [run_request].
  - unfold req_close_handle. rewrite wp_bind, wp_get, wp_bind. apply (close_safe h); [done|done|].
    intros r s' w' Hs' _. rewrite wp_set_error. done.
  - unfold req_set_handle_info. rewrite wp_bind, wp_bind, wp_get.
    destruct (magic_handle s hd) as [o|] eqn:Em.
    + unfold set_handle_flags, get_magic_handle. rewrite wp_bind, wp_bind, wp_get. apply wp_ret. rewrite Em, wp_bind.
      unfold when. destruct (truth mask); [rewrite wp_set_error|apply wp_ret]; do 2 apply wp_ret; done.
    + destruct (handle_slot (cur_process (h_current s)) hd) as [k i] eqn:Ek.
      eapply wp_mono; [apply wp_preserves; [apply keeps_set_flags|done|by apply (set_handle_flags_ok zero h s w _ hd k i mask flags I Em Ek)]|].
      intros r s' w' [H' Hpl']. revert H'. destruct (slots s k i) as [[o a]|]; [|intros (_ & -> & _); by apply wp_ret].
      intros (_ & _ & I' & (_ & _ & E1 & E2) & _). apply wp_ret. split_and!; [done| |done]. by eapply current_same.
  - destruct Hal as [Hg Hl]. rewrite wp_bind. eapply wp_mono; [by apply dup_request_safe|]. intros. by apply wp_ret.
  - rewrite wp_bind. eapply wp_mono; [by apply info_request_safe|]. intros. by apply wp_ret.
  - by apply compare_request_safe.
  - rewrite wp_modify. destruct Hal as (H1 & H2 & H3). destruct Hc as (_ & _ & _ & H4). split_and!; [|by split_and!|done].
    by eapply inv_current.
Qed.

(** C24: No handle dangles. Take any sequence of requests, from any threads of a fixed set of
    processes, that close local handles, set the flags of handles, duplicate local ones
    without [DUPLICATE_MAKE_GLOBAL], and query and compare objects, where all objects have
    [close_handle] operations that leave handles and references alone (not those of jobs,
    keys or device files), and counts stay in range. Then every handle of every table
    names an object that is still there, the handle count of each object is the number
    of its handles, and its reference count is at least that; the next such request
    completes in such a state again, so that no count underflows and no entry outside
    a table is read. *)
Theorem handle_requests_safe h s0 s r w
    (Hs0 : safe h s0) (Hreach : reachable h s0 s) (Hal : request_allowed h s r) :
  (∀ k i o a, slots s k i = Some (o, a) → ∃ x, h_objects s !! o = Some x ∧ 0 < o_handle_count x ≤ o_refcount x) ∧
  (∀ o x, h_objects s !! o = Some x → counts s o (o_handle_count x)) ∧
  wp (run_request r) s w (λ _ s' _, safe h s' ∧ reachable h s0 s').
Proof.
  assert (Hs : safe h s).
  { clear Hal. induction Hreach as [|s r' w' s' w2 Hreach IH Hal E]; [done|].
    pose proof (request_safe h s r' w' IH Hal) as H'. unfold wp in H'. by rewrite E in H'. }
  pose proof Hs as (I & _).
  assert (Hn : ∀ o x, h_objects s !! o = Some x → counts s o (o_handle_count x)).
  { intros o x Hx. destruct (inv_counts _ _ _ I o x Hx) as (Hn & _). by rewrite Z.sub_0_r in Hn. }
  split_and!; [|done|].
  - intros k i o a E. destruct (inv_named _ _ _ I _ _ _ _ E) as [x Hx]. exists x. split; [done|].
    destruct (inv_counts _ _ _ I o x Hx) as (_ & Hb & _). pose proof (counts_zero _ _ _ _ _ _ (Hn o x Hx) E).
    pose proof (inv_held _ _ _ I o). lia.
  - pose proof (request_safe h s r w Hs Hal) as H'. destruct (wp_elim _ _ _ _ H') as ([] & s' & w' & E & Hp).
    rewrite (wp_run _ _ _ _ _ _ E). split; [done|]. by eapply reachable_step.
Qed.
End Operations.

(** ** A concrete state *)

(** An object grants 0x1f0003; every check succeeds; handles may be closed. *)
#[local] Instance demo_ops : ObjectOps := {
  ops_type _ := 0;
  ops_map_access _ a := if a =? GENERIC_ALL then 0x1f0003 else a;
  ops_close_handle _ _ _ _ := ret true;
  check_object_access _ _ a := Some a;
  process_ops := 1
}.

Lemma demo_plain ops : plain_close ops.
Proof. intros o p hd s w. by apply wp_ret. Qed.

Definition demo_table (p : option Z) (l : list handle_entry) : handle_table :=
  HandleTable p 32 (Z.of_nat (length l) - 1) (Z.of_nat (length l)) ((Some <$> l) ++ replicate (32 - length l) None).

(** Process 1 with thread 2 has a handle on itself and one on the event 3, on which
    there is also a global handle. *)
Definition demo_state : handles :=
  Handles (<[1 := Object 2 1 1 false]> (<[2 := Object 1 0 2 false]> {[3 := Object 2 2 3 false]}))
    {[0 := TypeDescr 3 3]}
    (<[Some 1 := demo_table (Some 1) [HandleEntry (Some 1) 0x1fffff; HandleEntry (Some 3) 3]]>
       {[None := demo_table None [HandleEntry (Some 3) 3]]})
    ∅ (CurrentThread 2 1 None).
Definition demo_held (o : Z) : Z := if (o =? 1) || (o =? 2) then 1 else 0.

Lemma demo_slots k i o a : slots demo_state k i = Some (o, a) ↔
  (k, i, o, a) = (Some 1, 0, 1, 0x1fffff) ∨ (k, i, o, a) = (Some 1, 1, 3, 3) ∨ (k, i, o, a) = (None, 0, 3, 3).
Proof.
  split; [|by intros [[= -> -> -> ->]|[[= -> -> -> ->]|[= -> -> -> ->]]]].
  unfold slots. cbn -[demo_table]. destruct (decide (k = Some 1)) as [->|].
  - rewrite lookup_insert_eq. cbn -[demo_table]. intros E. pose proof (slot_range _ _ _ E) as Hi. cbn in Hi.
    assert (i = 0 ∨ i = 1) as [-> | ->] by lia; vm_compute in E; injection E as <- <-; auto.
  - rewrite lookup_insert_ne by done. destruct (decide (k = None)) as [->|].
    + rewrite lookup_singleton_eq. cbn -[demo_table]. intros E. pose proof (slot_range _ _ _ E) as Hi. cbn in Hi.
      assert (i = 0) as -> by lia; vm_compute in E; injection E as <- <-; auto.
    + by rewrite lookup_singleton_ne by done.
Qed.

Lemma demo_objects o x : h_objects demo_state !! o = Some x →
  (o, x) = (1, Object 2 1 1 false) ∨ (o, x) = (2, Object 1 0 2 false) ∨ (o, x) = (3, Object 2 2 3 false).
Proof.
  cbn. intros [[<- <-]|[_ H]]%lookup_insert_Some; [auto|]. apply lookup_insert_Some in H as [[<- <-]|[_ H]]; [auto|].
  apply lookup_singleton_Some in H as [<- <-]. auto.
Qed.

Lemma demo_table_ok p l : (length l ≤ 32)%nat → Forall (λ e, is_Some (e_ptr e)) l → table_ok (demo_table p l).
Proof.
  intros Hl Hf.
  assert (He : ∀ i, 0 ≤ i < Z.of_nat (length l) → ∃ o a, entry_at (demo_table p l) i = Some (HandleEntry (Some o) a)).
  { intros i Hi. unfold demo_table. rewrite entry_at_lookup by lia. cbn.
    rewrite lookup_app_l by (rewrite length_fmap; lia). rewrite list_lookup_fmap.
    destruct (lookup_lt_is_Some_2 l (Z.to_nat i)) as [[o a] El]; [lia|]. rewrite El. cbn.
    rewrite Forall_lookup in Hf. destruct (Hf _ _ El) as [o' Eo]. cbn in Eo. subst o. eauto. }
  constructor; cbn.
  - rewrite length_app, length_fmap, length_replicate. lia.
  - unfold MIN_HANDLE_ENTRIES, MAX_HANDLE_ENTRIES. lia.
  - lia.
  - lia.
  - intros i Hi. destruct (He i) as (o & a & ->); [lia|by eexists].
  - intros i Hi. destruct (He i) as (o & a & E); [lia|]. exists (o, a). apply slot_entry. cbn. split; [lia|done].
Qed.

Lemma demo_safe : safe demo_held demo_state.
Proof.
  split; [constructor|].
  - cbn -[demo_table]. intros k t [[<- <-]|[_ H]]%lookup_insert_Some; [|apply lookup_singleton_Some in H as [<- <-]];
      (apply demo_table_ok; [cbn; lia|repeat constructor; by eexists]).
  - intros o x Hx; apply demo_objects in Hx as [[= -> ->]|[[= -> ->]|[= -> ->]]]; unfold zero, demo_held, INT_MAX; cbn; (split; [|lia]).
    + exists {[(Some 1, 0)]}. split; [|by vm_compute]. intros k i. rewrite elem_of_singleton.
      setoid_rewrite demo_slots. naive_solver.
    + exists ∅. split; [|done]. intros k i. setoid_rewrite demo_slots. split; [set_solver|naive_solver].
    + exists {[(Some 1, 1); (None, 0)]}. split; [|by vm_compute]. intros k i.
      rewrite elem_of_union, !elem_of_singleton. setoid_rewrite demo_slots. naive_solver.
  - intros o x _. by eexists.
  - intros k i o a. rewrite demo_slots. intros [[= -> -> -> ->]|[[= -> -> -> ->]|[= -> -> -> ->]]]; by eexists.
  - intros o. split; [done|]. unfold zero. lia.
  - intros o. unfold demo_held. destruct (Z.eqb_spec o 1) as [->|]; cbn; [split; [done|by eexists]|].
    destruct (Z.eqb_spec o 2) as [->|]; cbn; [split; [done|by eexists]|]. split; [done|lia].
  - split; [by split_and!|]. intros o x _. apply demo_plain.
Qed.

Lemma demo_room n : n ≤ 1000 → room n demo_state.
Proof. intros Hn o x [[= -> ->]|[[= -> ->]|[= -> ->]]]%demo_objects; unfold INT_MAX; cbn; lia. Qed.

Lemma alloc_handle_correct_witness :
  wp (alloc_handle 1 3 2 OBJ_INHERIT) demo_state (World 0 [])
     (λ r s' w', alloc_ok zero demo_held 1 3 (with_attr OBJ_INHERIT 2) (Object 2 2 3 false) demo_state (World 0 []) r s' w').
Proof.
  eapply wp_mono.
  - apply (alloc_handle_correct zero demo_held demo_state (World 0 []) 1 3 2 OBJ_INHERIT (Object 2 2 3 false)).
    + apply demo_safe.
    + reflexivity.
    + by apply demo_room.
    + by intros a' [= <-].
  - intros r s' w'. assert (E : Z.ldiff (ops_map_access 3 2) RESERVED_ALL = 2) by reflexivity.
    cbn [o_ops]. rewrite E. cbn [Z.eqb check_object_access demo_ops]. done.
Defined.


Lemma close_handle_correct_witness :
  wp (close_handle 1 8) demo_state (World 0 []) (λ r s' _, close_post zero demo_held 1 1 demo_state r s').
Proof. apply (close_handle_correct zero demo_held demo_state (World 0 []) 1 8); [apply demo_safe|reflexivity|]. intros o a x _ _. apply demo_plain. Defined.

Lemma close_global_handle_out_of_bounds_witness :
  close_handle 1 (handle_local_to_global (index_to_handle 0)) demo_state (World 0 []) = None.
Proof.
  apply (close_global_handle_out_of_bounds zero demo_held demo_state (World 0 []) 1 0 3 3).
  - apply demo_safe.
  - done.
  - reflexivity.
  - reflexivity.
  - intros ops hd s w. by exists w.
Defined.

Lemma duplicate_global_null_dereference_witness :
  duplicate_handle 1 8 None 0x10003 0 DUPLICATE_MAKE_GLOBAL demo_state (World 0 []) = None.
Proof.
  apply (duplicate_global_null_dereference zero demo_held demo_state (World 0 []) 1 8 0x10003 0 DUPLICATE_MAKE_GLOBAL
           3 (Some 3) (Object 2 2 3 false)).
  - apply demo_safe.
  - apply demo_safe.
  - by apply demo_room.
  - reflexivity.
  - reflexivity.
  - reflexivity.
  - done.
Defined.

Lemma handle_requests_safe_witness :
  wp (run_request (ReqDup 0xffffffff 8 4 0 OBJ_INHERIT DUPLICATE_SAME_ACCESS)) demo_state (World 0 [])
     (λ _ s' _, safe demo_held s' ∧ reachable demo_held demo_state s').
Proof.
  apply (handle_requests_safe demo_held demo_state demo_state); [apply demo_safe|apply reachable_start|].
  split; [by apply demo_room|done].
Defined.
