(* ===== verification/Registry.v ===== *)
(** * The registry (server/registry.c)

    A key has a sorted array of subkeys and a sorted array of values, both looked
    up by binary search on the case-folded name. Arrays are lists of the elements
    in use ([last_subkey + 1] of them); [nb_subkeys] and [nb_values] are the
    allocated sizes, and a write beyond them fails. Keys are known by their address.

    What is left out: reference counts of keys (component Handles) and their
    memory, security descriptors. Setting an event is appending it to [r_events]. *)

From stdpp Require Import sorting.
From S2P Require Import Prelude Unicode.

Definition KEY_VOLATILE : Z := 0x0001.
Definition KEY_DELETED : Z := 0x0002.
Definition KEY_DIRTY : Z := 0x0004.
Definition KEY_SYMLINK : Z := 0x0008.
Definition KEY_WOWSHARE : Z := 0x0010.
Definition KEY_PREDEF : Z := 0x0020.
Definition MIN_SUBKEYS : Z := 8.
Definition MIN_VALUES : Z := 8.
Definition MAX_NAME_LEN : Z := 256.
Definition MAX_VALUE_LEN : Z := 16383.
Definition REG_NONE : Z := 0.
Definition REG_SZ : Z := 1.
Definition REG_EXPAND_SZ : Z := 2.
Definition REG_BINARY : Z := 3.
Definition REG_DWORD : Z := 4.
Definition REG_LINK : Z := 6.
Definition REG_MULTI_SZ : Z := 7.
Definition REG_NOTIFY_CHANGE_NAME : Z := 0x01.
Definition REG_NOTIFY_CHANGE_LAST_SET : Z := 0x04.
Definition STATUS_NAME_TOO_LONG : Z := 0xC0000106.
Definition STATUS_CANNOT_DELETE : Z := 0xC0000121.
Definition STATUS_KEY_DELETED : Z := 0xC000017C.
Definition STATUS_CHILD_MUST_BE_VOLATILE : Z := 0xC0000181.

Definition wide (s : string) : list Z := bytes_of s.
Definition wow6432node : list Z := wide "Wow6432Node".
Definition symlink_value : list Z := wide "SymbolicLinkValue".

(** The bytes of a string of UTF-16 units. *)
Definition utf16le (s : list Z) : list Z := concat (map (λ c, [Z.land c 0xff; Z.land (Z.shiftr c 8) 0xff]) s).

(** [data] is NULL exactly when [v_data] is empty; [v_type] is [None] while it is
    not initialised. *)
Record key_value := KeyValue { v_name : list Z; v_type : option Z; v_data : list Z }.
#[global] Instance key_value_eq_dec : EqDecision key_value.
Proof. solve_decision. Defined.

Record notify := Notify {
  n_events : list Z; n_subtree : bool; n_filter : Z; n_hkey : Z; n_process : Z
}.

(** [k_name] is [obj.name]: the name and the parent key, if the parent is a key; it
    is [None] once the key is unlinked. *)
Record key := Key {
  k_name : option (list Z * option Z);
  k_class : list Z;
  k_subkeys : list Z; k_nb_subkeys : Z; k_wow6432node : option Z;
  k_values : list key_value; k_nb_values : Z;
  k_flags : Z; k_modif : Z; k_notify : list notify
}.

Record registry := Registry { r_keys : gmap Z key; r_events : list Z; r_time : Z }.

Abbreviation G := (M registry).

Definition on_keys (f : gmap Z key → gmap Z key) (s : registry) : registry :=
  Registry (f (r_keys s)) (r_events s) (r_time s).
Definition read_key (k : Z) : G key := let* s := get in match r_keys s !! k with Some x => ret x | None => crash end.
Definition put_key (k : Z) (x : key) : G unit := modify (on_keys (<[k := x]>)).
Definition of_option {A} (a : option A) : G A := match a with Some a => ret a | None => crash end.

Definition set_name (n : option (list Z * option Z)) (x : key) : key :=
  Key n (k_class x) (k_subkeys x) (k_nb_subkeys x) (k_wow6432node x) (k_values x) (k_nb_values x) (k_flags x) (k_modif x) (k_notify x).
Definition set_subkeys (l : list Z) (n : Z) (x : key) : key :=
  Key (k_name x) (k_class x) l n (k_wow6432node x) (k_values x) (k_nb_values x) (k_flags x) (k_modif x) (k_notify x).
Definition set_wow (w : option Z) (x : key) : key :=
  Key (k_name x) (k_class x) (k_subkeys x) (k_nb_subkeys x) w (k_values x) (k_nb_values x) (k_flags x) (k_modif x) (k_notify x).
Definition set_values (l : list key_value) (n : Z) (x : key) : key :=
  Key (k_name x) (k_class x) (k_subkeys x) (k_nb_subkeys x) (k_wow6432node x) l n (k_flags x) (k_modif x) (k_notify x).
Definition set_flags (f : Z) (x : key) : key :=
  Key (k_name x) (k_class x) (k_subkeys x) (k_nb_subkeys x) (k_wow6432node x) (k_values x) (k_nb_values x) f (k_modif x) (k_notify x).
Definition set_modif (m : Z) (x : key) : key :=
  Key (k_name x) (k_class x) (k_subkeys x) (k_nb_subkeys x) (k_wow6432node x) (k_values x) (k_nb_values x) (k_flags x) m (k_notify x).
Definition set_notify (l : list notify) (x : key) : key :=
  Key (k_name x) (k_class x) (k_subkeys x) (k_nb_subkeys x) (k_wow6432node x) (k_values x) (k_nb_values x) (k_flags x) (k_modif x) l.

Section Registry.
Variable casemap : Z → Z.

(** ** Binary search

    The comparison of the two searches: [memicmp_strW] on the shorter length, then
    the difference of the lengths, an unsigned difference stored in an [int]. *)
Definition compare_names (a b : list Z) : option Z :=
  match memicmp_strW casemap a b (Z.min (wlen a) (wlen b)) with
  | None => None
  | Some res => Some (if res =? 0 then s32 (u32 (wlen a - wlen b)) else res)
  end.

(** The loop of [find_subkey] and [find_value] on names: whether the name was found,
    and [*index]. The bounds get closer at each turn, so their distance is enough
    fuel. *)
Fixpoint search (n : nat) (names : list (list Z)) (name : list Z) (min max : Z) : option (bool * Z) :=
  if max <? min then Some (false, min) else
  match n with
  | O => None
  | S n' =>
      let i := Z.quot (min + max) 2 in
      match names !! Z.to_nat i with
      | None => None
      | Some a =>
          match compare_names a name with
          | None => None
          | Some res =>
              if res =? 0 then Some (true, i)
              else if 0 <? res then search n' names name min (i - 1)
              else search n' names name (i + 1) max
          end
      end
  end.
Definition find_name (names : list (list Z)) (name : list Z) : option (bool * Z) :=
  search (length names) names name 0 (Z.of_nat (length names) - 1).

Definition find_value (x : key) (name : list Z) : G (option key_value * Z) :=
  let* r := of_option (find_name (v_name <$> k_values x) name) in
  ret (if r.1 then k_values x !! Z.to_nat r.2 else None, r.2).

(** The names of the subkeys, which must not have been unlinked. *)
Definition subkey_name (s : registry) (k : Z) : option (list Z) :=
  match r_keys s !! k with
  | Some x => fst <$> k_name x
  | None => None
  end.
Definition find_subkey (x : key) (name : list Z) : G (option Z * Z) :=
  let* s := get in
  let* names := of_option (mapM (subkey_name s) (k_subkeys x)) in
  let* r := of_option (find_name names name) in
  ret (if r.1 then k_subkeys x !! Z.to_nat r.2 else None, r.2).

(** ** Growing and shrinking the arrays *)

Definition grow (nb min : Z) : G (option Z) :=
  if truth nb then
    let* ok := malloc in
    if ok then ret (Some (nb + Z.quot nb 2)) else set_error STATUS_NO_MEMORY >> ret None
  else
    let* ok := mem_alloc in
    ret (if ok then Some min else None).
Definition shrink (nb last min : Z) : G Z :=
  if (min <? nb) && (last <? Z.quot nb 2) then
    let nb' := nb - Z.quot nb 3 in
    let nb' := if nb' <? min then min else nb' in
    let* ok := malloc in
    ret (if ok then nb' else nb)
  else ret nb.

Definition grow_subkeys (k : Z) : G bool :=
  let* x := read_key k in
  let* nb := grow (k_nb_subkeys x) MIN_SUBKEYS in
  match nb with
  | None => ret false
  | Some nb => put_key k (set_subkeys (k_subkeys x) nb x) >> ret true
  end.
Definition grow_values (k : Z) : G bool :=
  let* x := read_key k in
  let* nb := grow (k_nb_values x) MIN_VALUES in
  match nb with
  | None => ret false
  | Some nb => put_key k (set_values (k_values x) nb x) >> ret true
  end.

(** [for (i = ++last; i > index; i--) a[i] = a[i-1]; a[index] = x]. *)
Definition insert_at {A} (index : Z) (a : A) (l : list A) : list A :=
  take (Z.to_nat index) l ++ a :: drop (Z.to_nat index) l.
(** [for (i = index; i < last; i++) a[i] = a[i+1]; last--]. *)
Definition delete_at {A} (index : Z) (l : list A) : list A :=
  take (Z.to_nat index) l ++ drop (Z.to_nat index + 1) l.

(** ** Changes and notifications *)

Definition get_parent (k : Z) : G (option Z) :=
  let* x := read_key k in
  match k_name x with Some (_, p) => ret p | None => crash end.

(** Walks up the parents; a path has no more keys than the registry. *)
Fixpoint dirty_loop (n : nat) (k : option Z) : G unit :=
  match k, n with
  | None, _ => ret tt
  | Some _, O => crash
  | Some k, S n' =>
      let* x := read_key k in
      if has (k_flags x) (Z.lor KEY_DIRTY KEY_VOLATILE) then ret tt else
      put_key k (set_flags (Z.lor (k_flags x) KEY_DIRTY) x) >>
      let* p := get_parent k in
      dirty_loop n' p
  end.
Definition make_dirty (k : Z) : G unit := let* s := get in dirty_loop (size (r_keys s)) (Some k).

(** Recurses into the subkeys. *)
Fixpoint make_clean (n : nat) (k : Z) : G unit :=
  match n with
  | O => crash
  | S n' =>
      let* x := read_key k in
      if has (k_flags x) KEY_VOLATILE then ret tt else
      if negb (has (k_flags x) KEY_DIRTY) then ret tt else
      put_key k (set_flags (Z.ldiff (k_flags x) KEY_DIRTY) x) >>
      foldr (λ sub m, make_clean n' sub >> m) (ret tt) (k_subkeys x)
  end.

(** [do_notification( key, notify, 0 )] sets the events and forgets them. *)
Definition do_notification (n : notify) : list Z * notify :=
  (n_events n, Notify [] (n_subtree n) (n_filter n) (n_hkey n) (n_process n)).
Definition due (change : Z) (not_subtree : bool) (n : notify) : bool :=
  (not_subtree || n_subtree n) && has change (n_filter n).
Definition due_events (change : Z) (not_subtree : bool) (x : key) : list Z :=
  concat (map (λ n, if due change not_subtree n then (do_notification n).1 else []) (k_notify x)).
Definition check_notify (k change : Z) (not_subtree : bool) : G unit :=
  let* x := read_key k in
  modify (λ s, Registry (r_keys s) (r_events s ++ due_events change not_subtree x) (r_time s)) >>
  put_key k (set_notify (map (λ n, if due change not_subtree n then (do_notification n).2 else n) (k_notify x)) x).

Fixpoint notify_parents (n : nat) (k : option Z) (change : Z) : G unit :=
  match k, n with
  | None, _ => ret tt
  | Some _, O => crash
  | Some k, S n' =>
      check_notify k change false >>
      let* p := get_parent k in
      notify_parents n' p change
  end.
Definition touch_key (k change : Z) : G unit :=
  let* x := read_key k in
  let* s := get in
  put_key k (set_modif (r_time s) x) >>
  make_dirty k >>
  check_notify k change true >>
  let* p := get_parent k in
  notify_parents (size (r_keys s)) p change.

(** ** Values *)

(** The value is stored with no type and no data; its caller sets them. *)
Definition insert_value (k : Z) (name : list Z) (index : Z) : G bool :=
  if MAX_VALUE_LEN * 2 <? wlen name then set_error STATUS_NAME_TOO_LONG >> ret false else
  let* x := read_key k in
  let* ok := (if Z.of_nat (length (k_values x)) =? k_nb_values x then grow_values k else ret true) in
  if negb ok then ret false else
  let* ok := (if truth (wlen name) then mem_alloc else ret true) in
  if negb ok then ret false else
  let* x := read_key k in
  c_assert ((0 <=? index) && (index <=? Z.of_nat (length (k_values x))) &&
            (Z.of_nat (length (k_values x)) <? k_nb_values x)) >>
  put_key k (set_values (insert_at index (KeyValue name None []) (k_values x)) (k_nb_values x) x) >>
  ret true.

(** A write through the pointer to value [index]. *)
Definition write_value (k index : Z) (v : key_value) : G unit :=
  let* x := read_key k in
  c_assert ((0 <=? index) && (index <? Z.of_nat (length (k_values x)))) >>
  put_key k (set_values (<[Z.to_nat index := v]> (k_values x)) (k_nb_values x) x).

Definition set_value (k : Z) (name : list Z) (type : Z) (data : list Z) : G unit :=
  let* x := read_key k in
  if has (k_flags x) KEY_PREDEF then set_error STATUS_INVALID_HANDLE else
  let* r := find_value x name in
  let (value, index) := r in
  if (match value with
      | Some v => bool_decide (v_type v = Some type) && bool_decide (v_data v = data) && negb (bool_decide (v_data v = []))
      | None => false
      end) then ret tt else
  if has (k_flags x) KEY_SYMLINK &&
     (negb (type =? REG_LINK) || negb (wlen name =? wlen symlink_value) ||
      negb (bool_decide (memicmp_strW casemap name symlink_value (wlen name) = Some 0)))
  then set_error STATUS_ACCESS_DENIED else
  let* ok := (match data with [] => ret true | _ => mem_alloc end) in
  if negb ok then ret tt else
  let* ok := (match value with Some _ => ret true | None => insert_value k name index end) in
  if negb ok then ret tt else
  let stored := match value with Some v => v_name v | None => name end in
  write_value k index (KeyValue stored (Some type) data) >>
  touch_key k REG_NOTIFY_CHANGE_LAST_SET.

(** The data of the reply; empty if it cannot be allocated. *)
Definition set_reply_data (data : list Z) : G (list Z) :=
  match data with
  | [] => ret []
  | _ => let* ok := mem_alloc in ret (if ok then data else [])
  end.

(** The reply: the type, the length and the data, cut to the size of the reply. *)
Definition get_value (k : Z) (name : list Z) (max : Z) : G (option Z * Z * list Z) :=
  let* x := read_key k in
  if has (k_flags x) KEY_PREDEF then set_error STATUS_INVALID_HANDLE >> ret (Some 0, 0, []) else
  let* r := find_value x name in
  match r.1 with
  | Some v =>
      let len := Z.of_nat (length (v_data v)) in
      let* data := set_reply_data (take (Z.to_nat (Z.min len max)) (v_data v)) in
      ret (v_type v, len, data)
  | None => set_error STATUS_OBJECT_NAME_NOT_FOUND >> ret (Some (-1), 0, [])
  end.

Definition KeyValueBasicInformation : Z := 0.
Definition KeyValueFullInformation : Z := 1.
Definition KeyValuePartialInformation : Z := 2.

(** The reply: the type, the total size, the length of the name and the data. *)
Definition enum_value (k i info_class max : Z) : G (option Z * Z * Z * list Z) :=
  let nothing := (Some 0, 0, 0, []) in
  let* x := read_key k in
  if has (k_flags x) KEY_PREDEF then set_error STATUS_INVALID_HANDLE >> ret nothing else
  if (i <? 0) || (Z.of_nat (length (k_values x)) - 1 <? i) then set_error STATUS_NO_MORE_ENTRIES >> ret nothing else
  let* v := of_option (k_values x !! Z.to_nat i) in
  let len := Z.of_nat (length (v_data v)) in
  let namelen := wlen (v_name v) in
  let name := utf16le (v_name v) in
  match (if info_class =? KeyValueBasicInformation then Some (namelen, namelen)
         else if info_class =? KeyValueFullInformation then Some (u32 (namelen + len), namelen)
         else if info_class =? KeyValuePartialInformation then Some (len, 0)
         else None) with
  | None => set_error STATUS_INVALID_PARAMETER >> ret (v_type v, 0, 0, [])
  | Some (total, namelen) =>
      let maxlen := Z.min total max in
      if maxlen =? 0 then ret (v_type v, total, 0, []) else
      let* ok := mem_alloc in
      if negb ok then ret (v_type v, total, 0, []) else
      if namelen <? maxlen then
        ret (v_type v, total, namelen, take (Z.to_nat namelen) name ++ take (Z.to_nat (maxlen - namelen)) (v_data v))
      else ret (v_type v, total, maxlen, take (Z.to_nat maxlen) name)
  end.

Definition delete_value (k : Z) (name : list Z) : G unit :=
  let* x := read_key k in
  if has (k_flags x) KEY_PREDEF then set_error STATUS_INVALID_HANDLE else
  let* r := find_value x name in
  match r.1 with
  | None => set_error STATUS_OBJECT_NAME_NOT_FOUND
  | Some _ =>
      put_key k (set_values (delete_at r.2 (k_values x)) (k_nb_values x) x) >>
      touch_key k REG_NOTIFY_CHANGE_LAST_SET >>
      let* x := read_key k in
      let* nb := shrink (k_nb_values x) (Z.of_nat (length (k_values x)) - 1) MIN_VALUES in
      put_key k (set_values (k_values x) nb x)
  end.
End Registry.

(** ** The order of names *)

Fixpoint lex (a b : list Z) : comparison :=
  match a, b with
  | [], [] => Eq
  | [], _ :: _ => Lt
  | _ :: _, [] => Gt
  | x :: a', y :: b' => match x ?= y with Eq => lex a' b' | c => c end
  end.

Lemma lex_refl a : lex a a = Eq.
Proof. induction a as [|x a IH]; [done|]. cbn. by rewrite Z.compare_refl. Qed.

Lemma lex_eq a b : lex a b = Eq ↔ a = b.
Proof.
  split; [|intros ->; apply lex_refl]. revert b. induction a as [|x a IH]; intros [|y b]; try done. cbn.
  destruct (Z.compare_spec x y) as [->| |]; try done. intros H. by rewrite (IH b H).
Qed.

Lemma lex_antisym a b : lex b a = CompOpp (lex a b).
Proof.
  revert b. induction a as [|x a IH]; intros [|y b]; try done. cbn.
  rewrite (Z.compare_antisym x y). destruct (x ?= y); cbn; [apply IH|done|done].
Qed.

Lemma lex_trans a b c : lex a b = Lt → lex b c = Lt → lex a c = Lt.
Proof.
  revert b c. induction a as [|x a IH]; intros [|y b] [|z c]; try done. cbn.
  destruct (Z.compare_spec x y), (Z.compare_spec y z); subst; try done; intros H1 H2.
  - rewrite Z.compare_refl. by eapply IH.
  - by rewrite (proj2 (Z.compare_lt_iff _ _)).
  - by rewrite (proj2 (Z.compare_lt_iff _ _)).
  - by rewrite (proj2 (Z.compare_lt_iff x z)) by lia.
Qed.

Lemma shrink_ok (s : registry) w nb last min :
  0 ≤ min → -1 ≤ last → nb = 0 ∨ min ≤ nb → last < nb →
  wp (shrink nb last min) s w (λ nb' s' w', s' = s ∧ w_error w' = w_error w ∧ last < nb' ∧ (nb' = 0 ∨ min ≤ nb')).
Proof.
  intros Hmin Hlast Hnb Hlt. unfold shrink. destruct ((min <? nb) && _) eqn:E; [|by apply wp_ret].
  apply andb_true_iff in E as [H1%Z.ltb_lt H2%Z.ltb_lt]. rewrite Z.quot_div_nonneg in * by lia.
  rewrite wp_bind. apply wp_malloc. intros ok w' Hw _. apply wp_ret. split_and!; [done|done| |]; destruct ok; try lia;
    destruct (Z.ltb_spec (nb - nb / 3) min); try lia; Z.div_mod_to_equations; lia.
Qed.

Lemma grow_ok (s : registry) w nb min :
  2 ≤ min → nb = 0 ∨ min ≤ nb →
  wp (grow nb min) s w (λ r s' w', s' = s ∧ outcome w w' (bool_decide (is_Some r)) ∧ ∀ nb', r = Some nb' → nb < nb' ∧ min ≤ nb').
Proof.
  intros Hmin Hnb. unfold grow, truth. destruct (Z.eqb_spec nb 0) as [->|]; cbn [negb].
  - rewrite wp_bind. apply wp_mem_alloc_outcome. intros [] w' Ho; apply wp_ret; split_and!; try done. intros nb' [= <-]. lia.
  - rewrite wp_bind. apply wp_malloc. intros ok w' He Hm. destruct ok; wp_run; (split; [done|]; split; [|try done]).
    + split; [done|]. intros. by apply Hm.
    + intros nb' [= <-]. rewrite Z.quot_div_nonneg by lia. Z.div_mod_to_equations. lia.
    + split; [done|]. intros Hw. by destruct (Hm Hw).
Qed.

Section Order.
Variable casemap : Z → Z.
#[local] Abbreviation fold := (fold_case casemap).

Definition name_lt (a b : list Z) : Prop := lex (fold a) (fold b) = Lt.
(** Lengths in bytes are far from overflow. *)
Definition short (a : list Z) : Prop := wlen a < 2147483648.

#[global] Instance name_lt_trans : Transitive name_lt.
Proof. intros a b c. apply lex_trans. Qed.

Lemma name_lt_irrefl a b : fold a = fold b → ¬ name_lt a b.
Proof. unfold name_lt. intros ->. by rewrite lex_refl. Qed.

Lemma name_order_cases a b : name_lt a b ∨ fold a = fold b ∨ name_lt b a.
Proof.
  unfold name_lt. destruct (lex (fold a) (fold b)) eqn:E; [right; left; by apply lex_eq|auto|].
  right; right. by rewrite lex_antisym, E.
Qed.

Lemma name_lt_fold_l a b c : fold a = fold b → name_lt a c → name_lt b c.
Proof. unfold name_lt. by intros ->. Qed.

Lemma name_lt_fold_r a b c : fold a = fold b → name_lt c a → name_lt c b.
Proof. unfold name_lt. by intros ->. Qed.

Lemma memicmp_loop_lex a b :
  ∃ r, memicmp_loop casemap a b (Nat.min (length a) (length b)) = Some r ∧
    lex (fold a) (fold b) = if r =? 0 then Nat.compare (length a) (length b) else r ?= 0.
Proof.
  revert b. induction a as [|x a IH]; intros b; [exists 0; destruct b; done|].
  destruct b as [|y b]; [by exists 0|]. cbn [length Nat.min memicmp_loop fold_case map lex].
  destruct (IH b) as (r & Er & El). unfold truth. destruct (Z.eqb_spec (to_lower casemap x - to_lower casemap y) 0) as [E|E];
    cbn [negb].
  - exists r. split; [done|]. rewrite (proj2 (Z.compare_eq_iff _ _)) by lia. exact El.
  - exists (to_lower casemap x - to_lower casemap y). split; [done|]. rewrite (proj2 (Z.eqb_neq _ 0)) by done.
    destruct (Z.compare_spec (to_lower casemap x) (to_lower casemap y)); [lia| |]; symmetry; [apply Z.compare_lt_iff|apply Z.compare_gt_iff]; lia.
Qed.

(** The result of the comparison has the sign of the order on names. *)
Lemma compare_names_lex a b : short a → short b →
  ∃ r, compare_names casemap a b = Some r ∧ lex (fold a) (fold b) = (r ?= 0).
Proof.
  intros Ha Hb. destruct (memicmp_loop_lex a b) as (r & Er & El). unfold compare_names, memicmp_strW.
  assert (En : Z.to_nat (Z.min (wlen a) (wlen b) / 2) = Nat.min (length a) (length b)).
  { unfold wlen. replace (Z.min _ _) with (Z.of_nat (Nat.min (length a) (length b)) * 2) by lia.
    by rewrite Z.div_mul, Nat2Z.id by lia. }
  rewrite En, Er. destruct (Z.eqb_spec r 0) as [->|]; [|by exists r].
  eexists. split; [done|]. rewrite El. cbn. unfold short, wlen in *.
  assert (Es : s32 (u32 (2 * Z.of_nat (length a) - 2 * Z.of_nat (length b))) =
          2 * Z.of_nat (length a) - 2 * Z.of_nat (length b)).
  { unfold s32. rewrite u32_idemp. unfold u32.
    destruct (Z.leb_spec 0 (2 * Z.of_nat (length a) - 2 * Z.of_nat (length b))).
    - rewrite Z.mod_small by lia. by rewrite (proj2 (Z.ltb_lt _ _)) by lia.
    - rewrite <- (Z.mod_add _ 1), Z.mod_small by lia. rewrite (proj2 (Z.ltb_ge _ _)) by lia. lia. }
  rewrite Es. destruct (Nat.compare_spec (length a) (length b)); symmetry;
    [apply Z.compare_eq_iff|apply Z.compare_lt_iff|apply Z.compare_gt_iff]; lia.
Qed.

(** ** The binary search *)

Definition names_sorted (names : list (list Z)) : Prop := StronglySorted name_lt names.

(** Where a name is, or where it belongs. *)
Definition located (names : list (list Z)) (name : list Z) (found : bool) (i : Z) : Prop :=
  0 ≤ i ≤ Z.of_nat (length names) ∧
  if found then ∃ a, names !! Z.to_nat i = Some a ∧ fold a = fold name
  else (∀ j a, 0 ≤ j < i → names !! Z.to_nat j = Some a → name_lt a name) ∧
       (∀ j a, i ≤ j → names !! Z.to_nat j = Some a → name_lt name a).

Lemma sorted_lookup names i j a b :
  names_sorted names → names !! i = Some a → names !! j = Some b → (i < j)%nat → name_lt a b.
Proof.
  intros Hs Ha Hb Hij. unfold names_sorted in Hs. rewrite <- (take_drop (S i) names) in Hs.
  eapply StronglySorted_app_1_elem_of; [exact Hs| |].
  - apply list_elem_of_lookup. exists i. by rewrite lookup_take_lt by lia.
  - apply list_elem_of_lookup. exists (j - S i)%nat. rewrite lookup_drop. by replace (S i + (j - S i))%nat with j by lia.
Qed.

Lemma search_ok n names name min max :
  names_sorted names → Forall short names → short name →
  0 ≤ min → max < Z.of_nat (length names) → max - min + 1 ≤ Z.of_nat n → min ≤ max + 1 →
  (∀ j a, 0 ≤ j < min → names !! Z.to_nat j = Some a → name_lt a name) →
  (∀ j a, max < j → names !! Z.to_nat j = Some a → name_lt name a) →
  ∃ found i, search casemap n names name min max = Some (found, i) ∧ located names name found i.
Proof.
  intros Hs Hsh Hn. revert min max. induction n as [|n IH]; intros min max H0 Hm Hf Hmm Hlo Hhi; cbn [search].
  { rewrite (proj2 (Z.ltb_lt max min)) by lia. exists false, min. split; [done|]. split; [lia|]. split; [done|].
    intros j a Hj. apply Hhi. lia. }
  destruct (Z.ltb_spec max min).
  { exists false, min. split; [done|]. split; [lia|]. split; [done|]. intros j a Hj. apply Hhi. lia. }
  set (i := Z.quot (min + max) 2). assert (Hi : min ≤ i ≤ max).
  { unfold i. rewrite Z.quot_div_nonneg by lia. Z.div_mod_to_equations. lia. }
  destruct (lookup_lt_is_Some_2 names (Z.to_nat i)) as [a Ea]; [lia|]. rewrite Ea.
  assert (Ha : short a) by (eapply Forall_lookup_1; done).
  destruct (compare_names_lex a name Ha Hn) as (r & -> & El).
  destruct (Z.eqb_spec r 0) as [->|Hr].
  { exists true, i. split; [done|]. split; [lia|]. exists a. split; [done|]. by apply lex_eq. }
  destruct (Z.ltb_spec 0 r).
  - assert (Hgt : name_lt name a).
    { unfold name_lt. rewrite lex_antisym, El. by rewrite (proj2 (Z.compare_gt_iff r 0)). }
    apply IH; [lia|lia|lia|lia|done|]. intros j b Hj Hb. destruct (decide (j = i)) as [->|]; [congruence|].
    destruct (decide (i < j)); [|lia]. transitivity a; [done|].
    apply (sorted_lookup names (Z.to_nat i) (Z.to_nat j)); [done|done|done|lia].
  - assert (Hlt : name_lt a name).
    { unfold name_lt. rewrite El. apply Z.compare_lt_iff. lia. }
    apply IH; [lia|lia|lia|lia| |done]. intros j b Hj Hb. destruct (decide (j = i)) as [->|]; [congruence|].
    transitivity a; [|done]. apply (sorted_lookup names (Z.to_nat j) (Z.to_nat i)); [done|done|done|lia].
Qed.

Lemma find_name_ok names name :
  names_sorted names → Forall short names → short name →
  ∃ found i, find_name casemap names name = Some (found, i) ∧ located names name found i.
Proof.
  intros Hs Hsh Hn. apply search_ok; try done; try lia.
  intros j a Hj Ha. apply lookup_lt_Some in Ha. lia.
Qed.

(** Inserting where the search points keeps the names sorted, and so does deleting. *)
Lemma insert_sorted names name i :
  names_sorted names → located names name false i → names_sorted (insert_at i name names).
Proof.
  intros Hs (Hi & Hlo & Hhi). unfold names_sorted, insert_at in *.
  rewrite <- (take_drop (Z.to_nat i) names) in Hs. apply StronglySorted_app in Hs as (Hc & Hl & Hr).
  assert (Hbelow : ∀ a, a ∈ take (Z.to_nat i) names → name_lt a name).
  { intros a (j & Ha)%list_elem_of_lookup. apply lookup_take_Some in Ha as [Ha Hj].
    apply (Hlo (Z.of_nat j)); [lia|by rewrite Nat2Z.id]. }
  assert (Habove : ∀ a, a ∈ drop (Z.to_nat i) names → name_lt name a).
  { intros a (j & Ha)%list_elem_of_lookup. rewrite lookup_drop in Ha.
    apply (Hhi (Z.of_nat (Z.to_nat i + j))); [lia|by rewrite Nat2Z.id]. }
  apply StronglySorted_app. split_and!; [|done|].
  - intros a b Ha [-> | Hb]%elem_of_cons; [by apply Hbelow|by apply Hc].
  - constructor; [done|]. by apply Forall_forall.
Qed.

Lemma delete_sorted names i : names_sorted names → names_sorted (delete_at i names).
Proof.
  unfold names_sorted, delete_at. intros Hs. rewrite <- (take_drop (Z.to_nat i) names) in Hs.
  apply StronglySorted_app in Hs as (Hc & Hl & Hr). rewrite <- drop_drop.
  rewrite <- (take_drop 1 (drop (Z.to_nat i) names)) in Hr, Hc. apply StronglySorted_app in Hr as (_ & _ & Hr).
  apply StronglySorted_app. split_and!; [|done|done]. intros a b Ha Hb. apply Hc; [done|]. apply elem_of_app. by right.
Qed.

(** C39: The binary search of [find_subkey] and [find_value] is a linear search. On
    sorted names it ends without a read outside the array; it finds the name exactly
    when some element is equal to it but for the case, and gives the only such index;
    otherwise it gives the index where inserting the name keeps the array sorted. *)
Theorem find_name_correct names name
    (Hs : names_sorted names) (Hsh : Forall short names) (Hn : short name) :
  ∃ found i, find_name casemap names name = Some (found, i) ∧ 0 ≤ i ≤ Z.of_nat (length names) ∧
    (found = true ↔ Exists (λ a, fold a = fold name) names) ∧
    (found = true → ∀ j a, names !! j = Some a → fold a = fold name → j = Z.to_nat i) ∧
    (found = false → names_sorted (insert_at i name names)).
Proof.
  destruct (find_name_ok names name Hs Hsh Hn) as (found & i & E & Hi & Hloc). exists found, i.
  split_and!; [done|lia|lia| | |].
  - rewrite Exists_exists. destruct found; split; try done.
    + intros _. destruct Hloc as (a & Ha & Ef). exists a. split; [by eapply list_elem_of_lookup_2|done].
    + intros (a & [j Ha]%list_elem_of_lookup & Ef). destruct Hloc as [Hlo Hhi].
      destruct (decide (Z.of_nat j < i)).
      * destruct (name_lt_irrefl a name Ef). apply (Hlo (Z.of_nat j)); [lia|by rewrite Nat2Z.id].
      * destruct (name_lt_irrefl name a (eq_sym Ef)). apply (Hhi (Z.of_nat j)); [lia|by rewrite Nat2Z.id].
  - intros -> j b Hb Ef. destruct Hloc as (a & Ha & Ea).
    destruct (lt_eq_lt_dec j (Z.to_nat i)) as [[Hlt| ->]|Hlt]; [|done|].
    + destruct (name_lt_irrefl b a ltac:(congruence)). by eapply sorted_lookup.
    + destruct (name_lt_irrefl a b ltac:(congruence)). by eapply sorted_lookup.
  - intros ->. by apply insert_sorted.
Qed.

(** ** Keys and their parents *)

Definition parent_of (s : registry) (k : Z) : option (option Z) :=
  match r_keys s !! k with
  | Some x => snd <$> k_name x
  | None => None
  end.

(** [l] is the path from [k] up to a key with no parent key. *)
Inductive path (s : registry) : Z → list Z → Prop :=
  | path_root k : parent_of s k = Some None → path s k [k]
  | path_step k p l : parent_of s k = Some (Some p) → path s p l → path s k (k :: l).

Lemma path_fun s k l l' : path s k l → path s k l' → l = l'.
Proof.
  intros Hp. revert l'. induction Hp as [k E|k p l E Hp IH]; intros l' Hp'; inversion Hp'; subst; try congruence.
  f_equal. apply IH. congruence.
Qed.

Lemma path_suffix s k l k' : path s k l → k' ∈ l → ∃ l1 l2, l = l1 ++ l2 ∧ path s k' l2.
Proof.
  intros Hp. induction Hp as [k E|k p l E Hp IH].
  - intros ->%list_elem_of_singleton. exists [], [k]. split; [done|by apply path_root].
  - intros [-> |Hin]%elem_of_cons; [exists [], (k :: l); split; [done|by eapply path_step]|].
    destruct (IH Hin) as (l1 & l2 & -> & Hp2). by exists (k :: l1), l2.
Qed.

Lemma path_nodup s k l : path s k l → NoDup l.
Proof.
  intros Hp. induction Hp as [k E|k p l E Hp IH]; [apply NoDup_singleton|].
  apply NoDup_cons. split; [|done]. intros Hin. destruct (path_suffix _ _ _ _ Hp Hin) as (l1 & l2 & -> & Hp2).
  assert (Hk : path s k (k :: l1 ++ l2)) by by eapply path_step.
  pose proof (path_fun _ _ _ _ Hk Hp2) as El. apply (f_equal length) in El. cbn in El. rewrite length_app in El. lia.
Qed.

Lemma path_present s k l k' : path s k l → k' ∈ l → is_Some (r_keys s !! k').
Proof.
  intros Hp Hin. destruct (path_suffix _ _ _ _ Hp Hin) as (_ & l2 & _ & Hp2).
  unfold parent_of in *. inversion Hp2 as [? E|? ? ? E ?]; subst; unfold parent_of in E; destruct (r_keys s !! k'); by eauto.
Qed.

Lemma path_length s k l : path s k l → (length l ≤ size (r_keys s))%nat.
Proof.
  intros Hp. apply nodup_length_size; [by eapply path_nodup|]. intros k' Hk'. by eapply path_present.
Qed.

(** What changes when a key is touched: the time, the dirty flag, pending events. *)
Definition touched (x y : key) : Prop :=
  k_name y = k_name x ∧ k_class y = k_class x ∧ k_subkeys y = k_subkeys x ∧ k_nb_subkeys y = k_nb_subkeys x ∧
  k_wow6432node y = k_wow6432node x ∧ k_values y = k_values x ∧ k_nb_values y = k_nb_values x ∧
  (k_flags y = k_flags x ∨ k_flags y = Z.lor (k_flags x) KEY_DIRTY).
Definition touched_only (s s' : registry) : Prop :=
  r_time s' = r_time s ∧
  ∀ k, match r_keys s !! k, r_keys s' !! k with
       | Some x, Some y => touched x y
       | None, None => True
       | _, _ => False
       end.

Lemma touched_refl x : touched x x.
Proof. repeat split; by left. Qed.

Lemma touched_only_refl s : touched_only s s.
Proof. split; [done|]. intros k. destruct (r_keys s !! k); [apply touched_refl|done]. Qed.

Lemma lor_twice a b : Z.lor (Z.lor a b) b = Z.lor a b.
Proof. z_bits. Qed.

Lemma touched_trans x y z : touched x y → touched y z → touched x z.
Proof.
  intros (A1 & A2 & A3 & A4 & A5 & A6 & A7 & A8) (B1 & B2 & B3 & B4 & B5 & B6 & B7 & B8).
  repeat (split; [congruence|]). destruct A8 as [A8|A8], B8 as [B8|B8]; rewrite B8, A8; auto.
  right. apply lor_twice.
Qed.

Lemma touched_only_trans s1 s2 s3 : touched_only s1 s2 → touched_only s2 s3 → touched_only s1 s3.
Proof.
  intros [A1 A2] [B1 B2]. split; [congruence|]. intros k. specialize (A2 k). specialize (B2 k).
  destruct (r_keys s1 !! k), (r_keys s2 !! k), (r_keys s3 !! k); try done. by eapply touched_trans.
Qed.

Lemma touched_only_put s k x y :
  r_keys s !! k = Some x → touched x y → touched_only s (on_keys (<[k := y]>) s).
Proof.
  intros Hx Ht. split; [done|]. intros k'. cbn. destruct (decide (k' = k)) as [->|].
  - by rewrite Hx, lookup_insert_eq.
  - rewrite lookup_insert_ne by done. destruct (r_keys s !! k'); [apply touched_refl|done].
Qed.

Lemma touched_parent s s' k : touched_only s s' → parent_of s' k = parent_of s k.
Proof.
  intros [_ Ht]. specialize (Ht k). unfold parent_of. destruct (r_keys s !! k), (r_keys s' !! k); try done.
  destruct Ht as (E & _). by rewrite E.
Qed.

Lemma touched_path s s' k l : touched_only s s' → path s k l → path s' k l.
Proof.
  intros Ht Hp. induction Hp as [k E|k p l E Hp IH]; [apply path_root|eapply path_step]; try done;
    by rewrite (touched_parent s).
Qed.

Lemma touched_size s s' : touched_only s s' → size (r_keys s') = size (r_keys s).
Proof.
  intros [_ Ht]. rewrite <- !size_dom. f_equal. apply set_eq. intros k. rewrite !elem_of_dom. specialize (Ht k).
  destruct (r_keys s !! k), (r_keys s' !! k); try done; split; intros [? ?]; eauto; done.
Qed.

Lemma touched_key s s' k x : touched_only s s' → r_keys s !! k = Some x → ∃ y, r_keys s' !! k = Some y ∧ touched x y.
Proof. intros [_ Ht] Hx. specialize (Ht k). rewrite Hx in Ht. destruct (r_keys s' !! k); [eauto|done]. Qed.

Lemma wp_read_key k x s w Q : r_keys s !! k = Some x → Q x s w → wp (read_key k) s w Q.
Proof. intros E HQ. unfold read_key. rewrite wp_bind, wp_get, E. done. Qed.

Lemma wp_get_parent k s w p Q : parent_of s k = Some p → Q p s w → wp (get_parent k) s w Q.
Proof.
  unfold parent_of. intros E HQ. destruct (r_keys s !! k) as [x|] eqn:Hx; [|done]. unfold get_parent. rewrite wp_bind.
  eapply wp_read_key; [done|]. destruct (k_name x) as [[n p']|]; [|done]. injection E as ->. by apply wp_ret.
Qed.

(** Dirty keys are found from above when the registry is saved: unless it is
    volatile, the parent of a dirty key is dirty. *)
Definition marked (s : registry) (k : Z) : Prop :=
  ∀ x, r_keys s !! k = Some x → has (k_flags x) (Z.lor KEY_DIRTY KEY_VOLATILE) = true.
Definition dirty_ok (s : registry) : Prop :=
  ∀ k x p, r_keys s !! k = Some x → has (k_flags x) KEY_DIRTY = true → has (k_flags x) KEY_VOLATILE = false →
    parent_of s k = Some (Some p) → marked s p.

(** The same, but for the children of [k]. *)
Definition dirty_but (k : Z) (s : registry) : Prop :=
  ∀ k' x p, r_keys s !! k' = Some x → has (k_flags x) KEY_DIRTY = true → has (k_flags x) KEY_VOLATILE = false →
    parent_of s k' = Some (Some p) → p = k ∨ marked s p.

Lemma dirty_ok_but s k : dirty_ok s → dirty_but k s.
Proof. intros Hd k' x p Hx H1 H2 Ep. right. by eapply Hd. Qed.

Lemma has_lor_mask a b : has (Z.lor a b) b = truth b.
Proof. unfold has, truth. f_equal. f_equal. z_bits. Qed.

Lemma has_mask_lor a b c : has a (Z.lor b c) = has a b || has a c.
Proof.
  unfold has. destruct (Z.eqb_spec (Z.land a b) 0) as [Eb|Eb], (Z.eqb_spec (Z.land a c) 0) as [Ec|Ec];
    rewrite Z.land_lor_distr_r; cbn.
  - by rewrite Eb, Ec.
  - rewrite Eb, Z.lor_0_l. by rewrite (proj2 (Z.eqb_neq _ _)).
  - rewrite Ec, Z.lor_0_r. by rewrite (proj2 (Z.eqb_neq _ _)).
  - rewrite (proj2 (Z.eqb_neq _ _)); [done|]. intros [E _]%Z.lor_eq_0_iff. done.
Qed.

Lemma has_lor a b c : has (Z.lor a b) c = has a c || has b c.
Proof. unfold has. rewrite Z.land_comm, Z.land_lor_distr_r, (Z.land_comm c a), (Z.land_comm c b).
  destruct (Z.eqb_spec (Z.land a c) 0) as [E|E], (Z.eqb_spec (Z.land b c) 0) as [E'|E']; cbn.
  - by rewrite E, E'.
  - rewrite E, Z.lor_0_l. by rewrite (proj2 (Z.eqb_neq _ _)).
  - rewrite E', Z.lor_0_r. by rewrite (proj2 (Z.eqb_neq _ _)).
  - rewrite (proj2 (Z.eqb_neq _ _)); [done|]. intros [? _]%Z.lor_eq_0_iff. done.
Qed.

Lemma marked_mono s s' k : touched_only s s' → marked s k → marked s' k.
Proof.
  intros [_ Ht] Hm y Hy. specialize (Ht k). rewrite Hy in Ht. destruct (r_keys s !! k) as [x|] eqn:Hx; [|done].
  specialize (Hm x Hx). destruct Ht as (_ & _ & _ & _ & _ & _ & _ & [E|E]); rewrite E; [done|]. rewrite has_lor, Hm. done.
Qed.

(** Notifications and times are as before. *)
Definition same_watch (s s' : registry) : Prop :=
  ∀ k, (λ x, (k_notify x, k_modif x)) <$> r_keys s' !! k = (λ x, (k_notify x, k_modif x)) <$> r_keys s !! k.

(** [make_dirty] terminates and marks the key and, up to the first volatile one, its
    ancestors: the registry is [dirty_ok] again if it was, but for the key itself. *)
Lemma dirty_loop_ok n k l s w :
  path s k l → (length l ≤ n)%nat → dirty_but k s →
  wp (dirty_loop n (Some k)) s w (λ _ s' w', w' = w ∧ touched_only s s' ∧ r_events s' = r_events s ∧
    same_watch s s' ∧ marked s' k ∧ dirty_ok s').
Proof.
  revert n s k. induction l as [|k0 l IH]; intros n s k Hp Hn Hd; [inversion Hp|].
  assert (k0 = k) as -> by by inversion Hp. destruct n as [|n]; [cbn in Hn; lia|]. cbn [dirty_loop].
  destruct (path_present _ _ _ k Hp) as [x Hx]; [set_solver|]. rewrite wp_bind. eapply wp_read_key; [done|].
  destruct (has (k_flags x) (Z.lor KEY_DIRTY KEY_VOLATILE)) eqn:Em.
  { apply wp_ret. assert (Hmk : marked s k) by (intros y Hy; congruence). split_and!; try done; [apply touched_only_refl|].
    intros k' y p Hy H1 H2 Ep. destruct (Hd k' y p Hy H1 H2 Ep) as [-> |]; done. }
  rewrite wp_bind. unfold put_key. rewrite wp_modify. set (y := set_flags _ x). set (s1 := on_keys _ s).
  assert (Ht1 : touched_only s s1).
  { apply touched_only_put with x; [done|]. repeat split. by right. }
  assert (Hw1 : same_watch s s1).
  { intros k'. cbn. destruct (decide (k' = k)) as [->|]; [by rewrite lookup_insert_eq, Hx|by rewrite lookup_insert_ne]. }
  assert (Hmk1 : marked s1 k).
  { intros y' Hy'. cbn in Hy'. rewrite lookup_insert_eq in Hy'. injection Hy' as <-. cbn. rewrite has_mask_lor, has_lor_mask. done. }
  assert (Hd1 : ∀ k' x p, r_keys s1 !! k' = Some x → has (k_flags x) KEY_DIRTY = true → has (k_flags x) KEY_VOLATILE = false →
     parent_of s1 k' = Some (Some p) → parent_of s1 k = Some (Some p) ∨ marked s1 p).
  { intros k' x' p Hx' H1 H2 Ep. destruct (decide (k' = k)) as [->|Hne]; [by left|]. right.
    cbn in Hx'. rewrite lookup_insert_ne in Hx' by done. rewrite (touched_parent s s1) in Ep by done.
    destruct (Hd k' x' p Hx' H1 H2 Ep) as [-> |Hm]; [done|]. by eapply marked_mono. }
  rewrite wp_bind. inversion Hp as [? E|? p ? E Hp']; subst.
  - eapply (wp_get_parent k s1 w None); [by rewrite (touched_parent s s1)|]. destruct n; apply wp_ret;
      (split_and!; try done; intros k' x' p Hx' H1 H2 Ep; destruct (Hd1 k' x' p Hx' H1 H2 Ep) as [Ep'|]; [|done];
       rewrite (touched_parent s s1) in Ep' by done; congruence).
  - eapply (wp_get_parent k s1 w (Some p)); [by rewrite (touched_parent s s1)|].
    eapply wp_mono; [apply (IH n s1 p); [by eapply touched_path|cbn in Hn; lia|]|].
    + intros k' x' p' Hx' H1 H2 Ep. destruct (Hd1 k' x' p' Hx' H1 H2 Ep) as [Ep'|]; [|by right].
      rewrite (touched_parent s s1) in Ep' by done. left. congruence.
    + intros _ s2 w2 (-> & Ht2 & He & Hw2 & Hm2 & Hd2). split_and!; try done.
      * by eapply touched_only_trans.
      * intros k'. by rewrite Hw2.
      * by eapply marked_mono.
Qed.

(** ** Touching a key *)

Definition same_flags (s s' : registry) : Prop := ∀ k, k_flags <$> r_keys s' !! k = k_flags <$> r_keys s !! k.

Lemma same_flags_marked s s' k : same_flags s s' → marked s k → marked s' k.
Proof.
  intros E Hm y Hy. specialize (E k). rewrite Hy in E. destruct (r_keys s !! k) as [x|] eqn:Hx; [|done].
  injection E as ->. by apply Hm.
Qed.

Lemma same_flags_dirty_ok s s' : same_flags s s' → touched_only s s' → dirty_ok s → dirty_ok s'.
Proof.
  intros E Ht Hd k y p Hy H1 H2 Ep. rewrite (touched_parent s s') in Ep by done.
  pose proof (E k) as Ek. rewrite Hy in Ek. destruct (r_keys s !! k) as [x|] eqn:Hx; [|done]. injection Ek as Ek.
  rewrite Ek in H1, H2. eapply same_flags_marked; [done|]. by eapply Hd.
Qed.

Lemma same_flags_dirty_but s s' k : same_flags s s' → touched_only s s' → dirty_but k s → dirty_but k s'.
Proof.
  intros E Ht Hd k1 y p Hy H1 H2 Ep. rewrite (touched_parent s s') in Ep by done.
  pose proof (E k1) as Ek. rewrite Hy in Ek. destruct (r_keys s !! k1) as [x|] eqn:Hx; [|done]. injection Ek as Ek.
  rewrite Ek in H1, H2. destruct (Hd k1 x p Hx H1 H2 Ep) as [->|Hm]; [by left|right]. by eapply same_flags_marked.
Qed.

Lemma same_flags_put s k x y : r_keys s !! k = Some x → k_flags y = k_flags x → same_flags s (on_keys (<[k := y]>) s).
Proof.
  intros Hx E k'. cbn. destruct (decide (k' = k)) as [->|]; [by rewrite lookup_insert_eq, Hx; cbn; rewrite E|by rewrite lookup_insert_ne].
Qed.

(** The events that a change sets at a key. *)
Definition due_at (s : registry) (change : Z) (not_subtree : bool) (k : Z) : list Z :=
  from_option (due_events change not_subtree) [] (r_keys s !! k).

Lemma check_notify_ok s w k x change b :
  r_keys s !! k = Some x →
  wp (check_notify k change b) s w (λ _ s' w', w' = w ∧ touched_only s s' ∧ same_flags s s' ∧
    r_events s' = r_events s ++ due_at s change b k ∧ (∀ k', k' ≠ k → r_keys s' !! k' = r_keys s !! k') ∧
    k_modif <$> r_keys s' !! k = Some (k_modif x)).
Proof.
  intros Hx. unfold check_notify. rewrite wp_bind. eapply wp_read_key; [done|]. rewrite wp_bind, wp_modify.
  unfold put_key. rewrite wp_modify. split_and!; try done.
  - destruct (touched_only_put s k x (set_notify (map (λ n, if due change b n then (do_notification n).2 else n) (k_notify x)) x))
      as [_ Ht]; [done|repeat split; by left|]. by split.
  - exact (same_flags_put s k x (set_notify _ x) Hx eq_refl).
  - cbn. unfold due_at. by rewrite Hx.
  - intros k' Hne. cbn. by rewrite lookup_insert_ne.
  - cbn. by rewrite lookup_insert_eq.
Qed.

Lemma notify_parents_ok n k l s w change :
  path s k l → (length l ≤ n)%nat →
  wp (notify_parents n (Some k) change) s w (λ _ s' w', w' = w ∧ touched_only s s' ∧ same_flags s s' ∧
    r_events s' = r_events s ++ concat (map (due_at s change false) l) ∧ ∀ k', k' ∉ l → r_keys s' !! k' = r_keys s !! k').
Proof.
  revert n s k. induction l as [|k0 l IH]; intros n s k Hp Hn; [inversion Hp|].
  assert (k0 = k) as -> by by inversion Hp. pose proof (path_nodup _ _ _ Hp) as Hnd. apply NoDup_cons in Hnd as [Hnk _].
  destruct n as [|n]; [cbn in Hn; lia|]. cbn [notify_parents].
  destruct (path_present _ _ _ k Hp) as [x Hx]; [set_solver|]. rewrite wp_bind.
  eapply wp_mono; [by apply (check_notify_ok s w k x change false Hx)|].
  intros _ s1 w1 (-> & Ht1 & Hf1 & He1 & Ho1 & _). rewrite wp_bind. inversion Hp as [? E|? p ? E Hp']; subst.
  - eapply (wp_get_parent k s1 w None); [by rewrite (touched_parent s s1)|]. destruct n; apply wp_ret;
      (split_and!; try done; [by rewrite He1; cbn; rewrite app_nil_r|]; intros k' Hk'; apply Ho1; set_solver).
  - eapply (wp_get_parent k s1 w (Some p)); [by rewrite (touched_parent s s1)|].
    eapply wp_mono; [apply (IH n s1 p); [by eapply touched_path|cbn in Hn; lia]|].
    intros _ s2 w2 (-> & Ht2 & Hf2 & He2 & Ho2). split_and!; [done|by eapply touched_only_trans| | |].
    + intros k'. by rewrite Hf2.
    + rewrite He2, He1. cbn. rewrite <- app_assoc. do 3 f_equal. apply map_ext_in. intros k' Hk'%list_elem_of_In.
      unfold due_at. rewrite Ho1; [done|]. by intros ->.
    + intros k' Hk'. rewrite Ho2, Ho1 by set_solver. done.
Qed.

(** The parents of a key, from the nearest on. *)
Definition ancestors (l : list Z) : list Z := tail l.

Lemma touch_key_ok s w k l x change :
  path s k l → r_keys s !! k = Some x → dirty_but k s →
  wp (touch_key k change) s w (λ _ s' w', w' = w ∧ touched_only s s' ∧ dirty_ok s' ∧ marked s' k ∧
    (∀ y, r_keys s' !! k = Some y → k_modif y = r_time s) ∧
    r_events s' = r_events s ++ due_at s change true k ++ concat (map (due_at s change false) (ancestors l))).
Proof.
  intros Hp Hx Hd. pose proof (path_nodup _ _ _ Hp) as Hnd. unfold touch_key. rewrite wp_bind. eapply wp_read_key; [done|].
  rewrite wp_bind, wp_get, wp_bind. unfold put_key. rewrite wp_modify. set (y := set_modif _ x). set (s1 := on_keys _ s).
  assert (Ht1 : touched_only s s1) by (apply touched_only_put with x; [done|]; repeat split; by left).
  assert (Hf1 : same_flags s s1) by by eapply same_flags_put.
  assert (Hd1 : dirty_but k s1) by by eapply same_flags_dirty_but.
  assert (Hp1 : path s1 k l) by by eapply touched_path.
  rewrite wp_bind. unfold make_dirty. rewrite wp_bind, wp_get.
  eapply wp_mono; [apply (dirty_loop_ok _ k l s1 w Hp1)|].
  { rewrite (touched_size s s1) by done. by eapply path_length. }
  { done. }
  intros _ s2 w2 (-> & Ht2 & He2 & Hw2 & Hm2 & Hd2). destruct (touched_key _ _ _ _ Ht2 (lookup_insert_eq _ _ _)) as (y2 & Hy2 & _).
  assert (Edue : ∀ b k', due_at s2 change b k' = due_at s change b k').
  { intros b k'. unfold due_at, due_events. specialize (Hw2 k'). unfold s1 in Hw2. cbn in Hw2.
    destruct (decide (k' = k)) as [->|].
    - rewrite Hy2, lookup_insert_eq in Hw2. injection Hw2 as En _. rewrite Hy2, Hx. cbn. by rewrite En.
    - rewrite lookup_insert_ne in Hw2 by done. destruct (r_keys s2 !! k'), (r_keys s !! k'); try done.
      injection Hw2 as En _. cbn. by rewrite En. }
  assert (Emod : k_modif y2 = r_time s).
  { specialize (Hw2 k). unfold s1 in Hw2. cbn in Hw2. rewrite Hy2, lookup_insert_eq in Hw2. by injection Hw2. }
  rewrite wp_bind. eapply wp_mono; [by apply (check_notify_ok s2 w k y2 change true Hy2)|].
  intros _ s3 w3 (-> & Ht3 & Hf3 & He3 & Ho3 & Hmod3). rewrite Edue, He2 in He3.
  assert (Ht03 : touched_only s s3) by (do 2 (eapply touched_only_trans; [done|]); done).
  assert (Hd3 : dirty_ok s3) by by eapply same_flags_dirty_ok.
  assert (Hm3 : marked s3 k) by by eapply same_flags_marked.
  rewrite wp_bind. inversion Hp as [? E|? p l' E Hp']; subst; cbn [ancestors tail map concat].
  - eapply (wp_get_parent k s3 w None); [by rewrite (touched_parent s s3)|].
    assert (Hend : ∀ n, wp (notify_parents n None change) s3 w (λ _ s' w', w' = w ∧ s' = s3)) by (intros []; by apply wp_ret).
    eapply wp_mono; [apply Hend|]. intros _ s4 w4 [-> ->]. split_and!; try done.
    + intros y' Hy'. rewrite Hy' in Hmod3. injection Hmod3 as ->. done.
    + by rewrite He3, app_nil_r.
  - eapply (wp_get_parent k s3 w (Some p)); [by rewrite (touched_parent s s3)|].
    assert (Hp3 : path s3 p l') by (eapply touched_path; [exact Ht03|done]).
    eapply wp_mono; [apply (notify_parents_ok _ p l' s3 w change Hp3)|].
    { pose proof (path_length _ _ _ Hp). cbn [length] in *. lia. }
    apply NoDup_cons in Hnd as [Hnk _].
    intros _ s4 w4 (-> & Ht4 & Hf4 & He4 & Ho4). split_and!.
    + done.
    + by eapply touched_only_trans.
    + by eapply same_flags_dirty_ok.
    + by eapply same_flags_marked.
    + intros y' Hy'. rewrite Ho4 in Hy' by done. rewrite Hy' in Hmod3. injection Hmod3 as ->. done.
    + rewrite He4, He3. rewrite <- app_assoc. do 3 f_equal. apply map_ext_in. intros k' Hk'%list_elem_of_In.
      rewrite <- Edue. unfold due_at. rewrite Ho3; [done|]. by intros ->.
Qed.

(** ** Values as a map from folded names *)

Definition named_map {A} (f : A → list Z) (l : list A) : gmap (list Z) A := list_to_map ((λ v, (fold (f v), v)) <$> l).
Definition value_map : list key_value → gmap (list Z) key_value := named_map v_name.

Record wf_values (x : key) : Prop := {
  wv_sorted : names_sorted (v_name <$> k_values x);
  wv_short : Forall short (v_name <$> k_values x);
  wv_room : Z.of_nat (length (k_values x)) ≤ k_nb_values x;
  wv_alloc : k_nb_values x = 0 ∨ MIN_VALUES ≤ k_nb_values x
}.

Lemma sorted_nodup {A} (f : A → list Z) l : names_sorted (f <$> l) → NoDup ((λ v, (fold (f v), v)) <$> l).*1.
Proof.
  unfold names_sorted. intros Hs. rewrite <- list_fmap_compose. apply NoDup_alt. intros i j n Hi Hj. rewrite !list_lookup_fmap in Hi, Hj. cbn in Hi, Hj.
  destruct (l !! i) as [v|] eqn:Ei; [|done]. destruct (l !! j) as [v'|] eqn:Ej; [|done].
  injection Hi as Hi. injection Hj as Hj.
  assert (Hlt : ∀ i j v v', l !! i = Some v → l !! j = Some v' → (i < j)%nat → name_lt (f v) (f v')).
  { clear -Hs. intros i j v v' Ei Ej Hij. apply (sorted_lookup (f <$> l) i j); [done| | |done]; rewrite list_lookup_fmap; [by rewrite Ei|by rewrite Ej]. }
  destruct (lt_eq_lt_dec i j) as [[Hij| ->]|Hij]; [|done|].
  - destruct (name_lt_irrefl (f v) (f v')); [congruence|]. by eapply Hlt.
  - destruct (name_lt_irrefl (f v') (f v)); [congruence|]. by eapply Hlt.
Qed.

Lemma insert_at_fmap {A B} (f : A → B) i a l : f <$> insert_at i a l = insert_at i (f a) (f <$> l).
Proof. unfold insert_at. by rewrite fmap_app, fmap_cons, fmap_take, fmap_drop. Qed.

Lemma delete_at_fmap {A B} (f : A → B) i l : f <$> delete_at i l = delete_at i (f <$> l).
Proof. unfold delete_at. by rewrite fmap_app, fmap_take, fmap_drop. Qed.

Lemma insert_at_perm {A} i (a : A) l : insert_at i a l ≡ₚ a :: l.
Proof. unfold insert_at. rewrite <- Permutation_middle, take_drop. done. Qed.

Lemma delete_at_perm {A} i (a : A) l : 0 ≤ i → l !! Z.to_nat i = Some a → a :: delete_at i l ≡ₚ l.
Proof.
  intros Hi Ha. unfold delete_at. rewrite Permutation_middle, Nat.add_1_r. by rewrite take_drop_middle.
Qed.

Lemma named_map_insert {A} (f : A → list Z) i v l :
  names_sorted (f <$> insert_at i v l) → named_map f (insert_at i v l) = <[fold (f v) := v]> (named_map f l).
Proof.
  intros Hs. unfold named_map. rewrite <- list_to_map_cons. apply list_to_map_proper; [by apply sorted_nodup|].
  rewrite insert_at_fmap. apply insert_at_perm.
Qed.

Lemma located_value {A} (f : A → list Z) l name i :
  located (f <$> l) name true i → ∃ v, l !! Z.to_nat i = Some v ∧ fold (f v) = fold name.
Proof.
  intros (_ & a & Ha & Ef). rewrite list_lookup_fmap in Ha. destruct (l !! Z.to_nat i) as [v|]; [|done].
  injection Ha as <-. by exists v.
Qed.

Lemma named_map_lookup {A} (f : A → list Z) l name found i :
  names_sorted (f <$> l) → located (f <$> l) name found i →
  named_map f l !! fold name = if found then l !! Z.to_nat i else None.
Proof.
  intros Hs Hl. destruct found.
  - destruct (located_value _ _ _ _ Hl) as (v & Hv & Ef). rewrite Hv. apply elem_of_list_to_map; [by apply sorted_nodup|].
    apply list_elem_of_fmap. exists v. rewrite Ef. split; [done|]. by eapply list_elem_of_lookup_2.
  - apply not_elem_of_list_to_map. rewrite <- list_fmap_compose. intros (v & Ev & [j Hj]%list_elem_of_lookup)%list_elem_of_fmap.
    cbn in Ev. destruct Hl as (_ & Hlo & Hhi).
    assert (Ha : (f <$> l) !! j = Some (f v)) by (rewrite list_lookup_fmap, Hj; done).
    destruct (decide (Z.of_nat j < i)).
    + destruct (name_lt_irrefl (f v) name (eq_sym Ev)). apply (Hlo (Z.of_nat j)); [lia|by rewrite Nat2Z.id].
    + destruct (name_lt_irrefl name (f v) Ev). apply (Hhi (Z.of_nat j)); [lia|by rewrite Nat2Z.id].
Qed.

Lemma named_map_delete {A} (f : A → list Z) l name i :
  names_sorted (f <$> l) → located (f <$> l) name true i →
  named_map f (delete_at i l) = delete (fold name) (named_map f l).
Proof.
  intros Hs Hl. destruct (located_value _ _ _ _ Hl) as (v & Hv & Ef). destruct Hl as [Hi _].
  pose proof (delete_at_perm i v l (proj1 Hi) Hv) as Hp. pose proof (sorted_nodup f l Hs) as Hnd.
  pose proof (fmap_Permutation (λ v, (fold (f v), v)) _ _ Hp) as Hp'. rewrite fmap_cons in Hp'.
  assert (El : named_map f l = <[fold name := v]> (named_map f (delete_at i l))).
  { unfold named_map. rewrite <- Ef, <- list_to_map_cons. apply list_to_map_proper; [done|]. by symmetry. }
  rewrite El, delete_insert_id; [done|]. apply not_elem_of_list_to_map.
  rewrite <- Hp', fmap_cons in Hnd. apply NoDup_cons in Hnd as [Hnd _]. by rewrite <- Ef.
Qed.

Lemma value_map_write l name i v v' :
  names_sorted (v_name <$> l) → located (v_name <$> l) name true i → l !! Z.to_nat i = Some v → v_name v' = v_name v →
  v_name <$> <[Z.to_nat i := v']> l = v_name <$> l ∧ value_map (<[Z.to_nat i := v']> l) = <[fold name := v']> (value_map l).
Proof.
  intros Hs Hl Hv En. destruct (located_value _ _ _ _ Hl) as (v0 & Hv0 & Ef). assert (v0 = v) as -> by congruence.
  assert (Efm : v_name <$> <[Z.to_nat i := v']> l = v_name <$> l).
  { rewrite list_fmap_insert, En. apply list_insert_id. by rewrite list_lookup_fmap, Hv. }
  split; [done|]. assert (Hs' : names_sorted (v_name <$> <[Z.to_nat i := v']> l)) by by rewrite Efm.
  assert (Hl' : located (v_name <$> <[Z.to_nat i := v']> l) name true i) by by rewrite Efm.
  pose proof (named_map_delete _ _ _ _ Hs Hl) as Ed. pose proof (named_map_delete _ _ _ _ Hs' Hl') as Ed'.
  assert (Edel : delete_at i (<[Z.to_nat i := v']> l) = delete_at i l).
  { unfold delete_at. rewrite take_insert_ge by lia. by rewrite drop_insert_lt by lia. }
  rewrite Edel in Ed'. pose proof (named_map_lookup _ _ _ _ _ Hs' Hl') as Elk. cbn in Elk.
  rewrite list_lookup_insert_eq in Elk by (by eapply lookup_lt_Some).
  change (named_map v_name) with value_map in *. apply map_eq. intros n. destruct (decide (n = fold name)) as [->|Hne]; [by rewrite lookup_insert_eq|].
  rewrite lookup_insert_ne by done. rewrite <- (lookup_delete_ne _ (fold name)) by done. rewrite <- Ed', Ed.
  by rewrite lookup_delete_ne.
Qed.

Lemma find_value_ok x name s w :
  wf_values x → short name →
  ∃ found i, located (v_name <$> k_values x) name found i ∧
    find_value casemap x name s w = Some ((if found then k_values x !! Z.to_nat i else None, i), s, w) ∧
    value_map (k_values x) !! fold name = if found then k_values x !! Z.to_nat i else None.
Proof.
  intros [Hs Hsh _ _] Hn. destruct (find_name_ok _ name Hs Hsh Hn) as (found & i & E & Hl).
  exists found, i. split_and!; [done| |by apply (named_map_lookup v_name)]. unfold find_value, bind, of_option. by rewrite E.
Qed.

Lemma get_value_ok s w k x name max
    (Hx : r_keys s !! k = Some x) (Hwf : wf_values x) (Hn : short name) :
  wp (get_value casemap k name max) s w (λ r s' w', s' = s ∧
    if has (k_flags x) KEY_PREDEF then w_error w' = STATUS_INVALID_HANDLE else
    match value_map (k_values x) !! fold name with
    | Some v => r.1 = (v_type v, Z.of_nat (length (v_data v))) ∧
        (w_error w' = w_error w ∧ r.2 = take (Z.to_nat (Z.min (Z.of_nat (length (v_data v))) max)) (v_data v) ∨
         w_error w' = STATUS_NO_MEMORY ∧ w_mem w ≠ [] ∧ r.2 = [])
    | None => w_error w' = STATUS_OBJECT_NAME_NOT_FOUND ∧ r = (Some (-1), 0, [])
    end).
Proof.
  unfold get_value. rewrite wp_bind. eapply wp_read_key; [done|].
  destruct (has (k_flags x) KEY_PREDEF); [by wp_run|].
  destruct (find_value_ok x name s w Hwf Hn) as (found & i & Hl & E & Em). rewrite wp_bind, (wp_run _ _ _ _ _ _ E), Em. cbn [fst].
  destruct found; [|by wp_run]. destruct (located_value _ _ _ _ Hl) as (v & -> & _). rewrite wp_bind.
  unfold set_reply_data. destruct (take _ _); [apply wp_ret, wp_ret; auto|].
  rewrite wp_bind. apply wp_mem_alloc_outcome. intros ok w' Ho. do 2 apply wp_ret. split; [done|]. split; [done|].
  destruct ok, Ho; auto.
Qed.

(** Looking a value up finds it whatever the case of the name, gives its type and
    its data cut to the size of the reply, or no data when memory runs out; otherwise
    it sets [STATUS_OBJECT_NAME_NOT_FOUND]. The registry does not change. *)
Theorem get_value_correct s w k x name max
    (Hx : r_keys s !! k = Some x) (Hwf : wf_values x) (Hn : short name) :
  wp (get_value casemap k name max) s w (λ r s' w', s' = s ∧
    if has (k_flags x) KEY_PREDEF then w_error w' = STATUS_INVALID_HANDLE else
    match value_map (k_values x) !! fold name with
    | Some v => r.1 = (v_type v, Z.of_nat (length (v_data v))) ∧
        (w_error w' = w_error w ∧ r.2 = take (Z.to_nat (Z.min (Z.of_nat (length (v_data v))) max)) (v_data v) ∨
         w_error w' = STATUS_NO_MEMORY ∧ w_mem w ≠ [] ∧ r.2 = [])
    | None => w_error w' = STATUS_OBJECT_NAME_NOT_FOUND ∧ r = (Some (-1), 0, [])
    end).
Proof. exact (get_value_ok s w k x name max Hx Hwf Hn). Qed.

(** The other keys, when the values of key [k] change. *)
Definition others_touched (k : Z) (s s' : registry) : Prop :=
  r_time s' = r_time s ∧ ∀ k', k' ≠ k → match r_keys s !! k', r_keys s' !! k' with
                 | Some y, Some y' => touched y y'
                 | None, None => True
                 | _, _ => False
                 end.

Lemma path_put s k x y l : r_keys s !! k = Some x → k_name y = k_name x → ∀ k', path s k' l → path (on_keys (<[k := y]>) s) k' l.
Proof.
  intros Hx En k' Hp. assert (Ep : ∀ k', parent_of (on_keys (<[k := y]>) s) k' = parent_of s k').
  { intros j. unfold parent_of. cbn. destruct (decide (j = k)) as [->|]; [by rewrite lookup_insert_eq, Hx, En|by rewrite lookup_insert_ne]. }
  induction Hp as [j E|j p l E Hp IH]; [apply path_root|eapply path_step]; try done; by rewrite Ep.
Qed.

Lemma dirty_ok_put s k x y :
  r_keys s !! k = Some x → k_name y = k_name x → k_flags y = k_flags x → dirty_ok s → dirty_ok (on_keys (<[k := y]>) s).
Proof.
  intros Hx En Ef Hd. assert (Hf : same_flags s (on_keys (<[k := y]>) s)) by by eapply same_flags_put.
  intros j z p Hz H1 H2 Ep. eapply same_flags_marked; [done|].
  assert (Ep' : parent_of s j = Some (Some p)).
  { unfold parent_of in *. cbn in Ep. destruct (decide (j = k)) as [->|]; [by rewrite lookup_insert_eq, En in Ep; rewrite Hx|by rewrite lookup_insert_ne in Ep]. }
  pose proof (Hf j) as Ej. rewrite Hz in Ej. destruct (r_keys s !! j) as [z'|] eqn:Hz'; [|done]. injection Ej as Ej.
  rewrite Ej in H1, H2. by eapply Hd.
Qed.

(** Changing the values of a key and touching it. *)
Lemma change_values_ok s w k x l vals nb :
  r_keys s !! k = Some x → path s k l → dirty_ok s →
  wp (touch_key k REG_NOTIFY_CHANGE_LAST_SET) (on_keys (<[k := set_values vals nb x]>) s) w (λ _ s' w', w' = w ∧
    (∃ y, r_keys s' !! k = Some y ∧ k_values y = vals ∧ k_nb_values y = nb ∧ k_modif y = r_time s ∧ touched (set_values vals nb x) y) ∧
    others_touched k s s' ∧ dirty_ok s' ∧ marked s' k ∧
    r_events s' = r_events s ++ due_at s REG_NOTIFY_CHANGE_LAST_SET true k ++
                  concat (map (due_at s REG_NOTIFY_CHANGE_LAST_SET false) (ancestors l))).
Proof.
  intros Hx Hp Hd. set (s1 := on_keys _ s). pose proof (path_nodup _ _ _ Hp) as Hnd.
  assert (Hx1 : r_keys s1 !! k = Some (set_values vals nb x)) by apply lookup_insert_eq.
  eapply wp_mono; [apply (touch_key_ok s1 w k l (set_values vals nb x))|].
  - by eapply path_put.
  - done.
  - by eapply dirty_ok_but, dirty_ok_put.
  - intros _ s' w' (-> & Ht & Hd' & Hm & Hmod & He). split_and!; [done| | |done|done|].
    + destruct (touched_key _ _ _ _ Ht Hx1) as (y & Hy & T).
      exists y. pose proof T as (_ & _ & _ & _ & _ & T6 & T7 & _). split_and!; [done|by rewrite T6|by rewrite T7|by apply Hmod|done].
    + split; [apply Ht|]. intros k' Hne. pose proof (proj2 Ht k') as Hk'. cbn in Hk'. by rewrite lookup_insert_ne in Hk'.
    + rewrite He. do 2 f_equal.
      * unfold due_at. by rewrite Hx1, Hx.
      * f_equal. apply map_ext_in. intros k' Hk'%list_elem_of_In. unfold due_at. cbn. rewrite lookup_insert_ne; [done|].
        intros <-. inversion Hp; subst; cbn in Hk'; [by apply not_elem_of_nil in Hk'|]. apply NoDup_cons in Hnd as [? _]. done.
Qed.

(** Storing a value: [m] is the map of values before. *)
Definition stored_post (s s' : registry) (k : Z) (l : list Z) (m : gmap (list Z) key_value) : Prop :=
  (∃ x y, r_keys s !! k = Some x ∧ r_keys s' !! k = Some y ∧ wf_values y ∧ value_map (k_values y) = m ∧
     k_modif y = r_time s ∧ touched (set_values (k_values y) (k_nb_values y) x) y) ∧
  others_touched k s s' ∧ dirty_ok s' ∧ marked s' k ∧
  r_events s' = r_events s ++ due_at s REG_NOTIFY_CHANGE_LAST_SET true k ++
                concat (map (due_at s REG_NOTIFY_CHANGE_LAST_SET false) (ancestors l)).

Lemma delete_value_ok s w k x l name
    (Hx : r_keys s !! k = Some x) (Hwf : wf_values x) (Hn : short name) (Hp : path s k l) (Hd : dirty_ok s) :
  wp (delete_value casemap k name) s w (λ _ s' w',
    if has (k_flags x) KEY_PREDEF then s' = s ∧ w_error w' = STATUS_INVALID_HANDLE else
    match value_map (k_values x) !! fold name with
    | None => s' = s ∧ w_error w' = STATUS_OBJECT_NAME_NOT_FOUND
    | Some _ => w_error w' = w_error w ∧ stored_post s s' k l (delete (fold name) (value_map (k_values x)))
    end).
Proof.
  unfold delete_value. rewrite wp_bind. eapply wp_read_key; [done|]. destruct (has (k_flags x) KEY_PREDEF); [by wp_run|].
  destruct (find_value_ok x name s w Hwf Hn) as (found & i & Hl & E & Em). rewrite wp_bind, (wp_run _ _ _ _ _ _ E), Em. cbn [fst snd].
  destruct found; [|by wp_run]. destruct (located_value _ _ _ _ Hl) as (v & Hv & _). rewrite Hv. pose proof Hwf as [Hs Hsh Hr Ha].
  rewrite wp_bind. unfold put_key at 1. rewrite wp_modify, wp_bind.
  eapply wp_mono; [by apply (change_values_ok s w k x l (delete_at i (k_values x)) (k_nb_values x))|].
  intros _ s1 w1 (-> & (y & Hy & Ev & Enb & Emod & Htou) & Hoth & Hd1 & Hm1 & He1).
  rewrite wp_bind. eapply wp_read_key; [done|]. rewrite wp_bind.
  assert (Hlen : S (length (delete_at i (k_values x))) = length (k_values x)).
  { destruct Hl as [Hi _]. exact (Permutation_length (delete_at_perm i v (k_values x) (proj1 Hi) Hv)). }
  assert (Hfin : ∀ nb w', Z.of_nat (length (k_values y)) ≤ nb → nb = 0 ∨ MIN_VALUES ≤ nb → w_error w' = w_error w →
    w_error w' = w_error w ∧ stored_post s (on_keys (<[k := set_values (k_values y) nb y]>) s1) k l
      (delete (fold name) (value_map (k_values x)))).
  { intros nb w' Hnb Hmin Hw. split; [done|]. split_and!.
    - exists x, (set_values (k_values y) nb y). cbn. rewrite lookup_insert_eq. split_and!; [done|done| | |done|destruct Htou as (? & ? & ? & ? & ? & _ & _ & ?); by repeat split].
      + constructor; cbn; try done; rewrite Ev, delete_at_fmap; [by apply delete_sorted|].
        unfold delete_at. apply Forall_app. split; [by apply Forall_take|by apply Forall_drop].
      + rewrite Ev. by apply (named_map_delete v_name).
    - destruct Hoth as [Htime Hoth]. split; [done|]. intros k' Hne. specialize (Hoth k' Hne). cbn. by rewrite lookup_insert_ne.
    - by eapply dirty_ok_put.
    - eapply same_flags_marked; [by eapply same_flags_put|done].
    - done. }
  rewrite Ev, Enb in *. unfold MIN_VALUES in *.
  eapply wp_mono; [apply shrink_ok; lia|]. intros nb s2 w2 (-> & Hw & Hnb & Hmin). unfold put_key. rewrite wp_modify.
  apply Hfin; [lia|done|done].
Qed.

(** Deleting a value removes exactly the binding of its name, case apart, marks the
    key and its ancestors dirty, sets the events that wait for such a change and
    keeps the array sorted; an unknown name changes nothing. *)
Theorem delete_value_correct s w k x l name
    (Hx : r_keys s !! k = Some x) (Hwf : wf_values x) (Hn : short name) (Hp : path s k l) (Hd : dirty_ok s) :
  wp (delete_value casemap k name) s w (λ _ s' w',
    if has (k_flags x) KEY_PREDEF then s' = s ∧ w_error w' = STATUS_INVALID_HANDLE else
    match value_map (k_values x) !! fold name with
    | None => s' = s ∧ w_error w' = STATUS_OBJECT_NAME_NOT_FOUND
    | Some _ => w_error w' = w_error w ∧ stored_post s s' k l (delete (fold name) (value_map (k_values x)))
    end).
Proof. exact (delete_value_ok s w k x l name Hx Hwf Hn Hp Hd). Qed.

(** The state when the values of key [k], which was [x], have changed. *)
Definition with_values (s : registry) (k : Z) (x : key) (vals : list key_value) (nb : Z) : registry :=
  on_keys (<[k := set_values vals nb x]>) s.

(** Only the size of the array may have changed. *)
Definition same_values (s s' : registry) (k : Z) (x : key) : Prop :=
  ∃ nb, s' = with_values s k x (k_values x) nb ∧ Z.of_nat (length (k_values x)) ≤ nb ∧ (nb = 0 ∨ MIN_VALUES ≤ nb).

Lemma with_values_id s k x : r_keys s !! k = Some x → with_values s k x (k_values x) (k_nb_values x) = s.
Proof. intros Hx. unfold with_values, on_keys. destruct s, x. cbn in *. by rewrite insert_id. Qed.

Lemma with_values_twice s k x vals nb vals' nb' :
  on_keys (<[k := set_values vals' nb' (set_values vals nb x)]>) (with_values s k x vals nb) = with_values s k x vals' nb'.
Proof. unfold with_values, on_keys. cbn. by rewrite insert_insert_eq. Qed.

(** Storage is refused for a long name or for lack of memory. *)
Definition refused (w w' : world) (name : list Z) (new : bool) : Prop :=
  (w_error w' = STATUS_NAME_TOO_LONG ∧ new = true ∧ MAX_VALUE_LEN * 2 < wlen name) ∨
  (w_error w' = STATUS_NO_MEMORY ∧ w_mem w ≠ []).

Lemma grow_values_ok s w k x nb :
  Z.of_nat (length (k_values x)) = nb → nb = 0 ∨ MIN_VALUES ≤ nb →
  wp (grow_values k) (with_values s k x (k_values x) nb) w (λ ok s' w', outcome w w' ok ∧
    if ok then ∃ nb', s' = with_values s k x (k_values x) nb' ∧ nb < nb' ∧ MIN_VALUES ≤ nb'
    else s' = with_values s k x (k_values x) nb).
Proof.
  intros Hl Hnb. unfold grow_values. rewrite wp_bind. eapply wp_read_key; [by apply lookup_insert_eq|].
  cbn [k_nb_values k_values set_values]. rewrite wp_bind. eapply wp_mono; [apply grow_ok; [done|exact Hnb]|].
  intros [nb'|] s' w' (-> & Ho & Hr); [|by apply wp_ret]. rewrite wp_bind. unfold put_key. rewrite wp_modify. apply wp_ret.
  rewrite with_values_twice. split; [done|]. exists nb'. split; [done|]. by apply Hr.
Qed.

Lemma same_values_refl s k x : r_keys s !! k = Some x → wf_values x → same_values s s k x.
Proof. intros Hx Hwf. exists (k_nb_values x). split; [by rewrite with_values_id|]. split; apply Hwf. Qed.

Lemma insert_value_ok s w k x name i :
  r_keys s !! k = Some x → wf_values x → located (v_name <$> k_values x) name false i →
  wp (insert_value k name i) s w (λ ok s' w',
    if ok then outcome w w' true ∧ wlen name ≤ MAX_VALUE_LEN * 2 ∧ ∃ nb,
      s' = with_values s k x (insert_at i (KeyValue name None []) (k_values x)) nb ∧
      Z.of_nat (length (k_values x)) < nb ∧ MIN_VALUES ≤ nb
    else refused w w' name true ∧ same_values s s' k x).
Proof.
  intros Hx Hwf (Hi & _). pose proof (same_values_refl s k x Hx Hwf) as Hrefl. destruct Hwf as [Hs Hsh Hr Ha].
  rewrite length_fmap in Hi. unfold insert_value. pose proof (with_values_id s k x Hx) as Eid.
  destruct (Z.ltb_spec (MAX_VALUE_LEN * 2) (wlen name)) as [Hlen|Hlen].
  { wp_run. split; [by left|done]. }
  rewrite wp_bind. eapply wp_read_key; [done|]. rewrite wp_bind.
  set (last := Z.of_nat (length (k_values x))) in *.
  apply wp_mono with (Q := λ ok s1 w1, outcome w w1 ok ∧ if ok then ∃ nb, s1 = with_values s k x (k_values x) nb ∧ last < nb ∧ MIN_VALUES ≤ nb
                                 else s1 = s).
  { destruct (Z.eqb_spec last (k_nb_values x)) as [E|E].
    - rewrite <- Eid at 1. eapply wp_mono; [by apply grow_values_ok|]. intros [] s1 w1 [Ho Hs1]; split; try done; [|by rewrite Hs1].
      destruct Hs1 as (nb & -> & H1 & H2). exists nb. split_and!; [done|lia|done].
    - apply wp_ret. split; [apply outcome_refl|]. exists (k_nb_values x). split_and!; [done|lia|lia]. }
  intros [] s1 w1 [Ho Hs1].
  - destruct Hs1 as (nb & -> & H1 & H2). cbn [negb]. rewrite wp_bind.
    apply wp_mono with (Q := λ ok s2 w2, outcome w w2 ok ∧ s2 = with_values s k x (k_values x) nb).
    { destruct (truth (wlen name)); [|by apply wp_ret]. apply wp_mem_alloc_outcome. intros ok w2 Ho2. split; [by eapply outcome_trans|done]. }
    intros [] s2 w2 [Ho2 ->]; cbn [negb].
    + rewrite wp_bind. eapply wp_read_key; [by apply lookup_insert_eq|]. rewrite wp_bind, wp_assert. cbn [k_values k_nb_values set_values].
      fold last. split; [lia|]. rewrite wp_bind. unfold put_key. rewrite wp_modify. apply wp_ret.
      split_and!; [done|done|]. exists nb. rewrite with_values_twice. by split_and!.
    + apply wp_ret. destruct Ho2. split; [by right|]. exists nb. split_and!; [done|lia|by right].
  - subst s1. cbn [negb]. apply wp_ret. destruct Ho. split; [by right|done].
Qed.

(** The comparison of the name with that of the value of a symbolic link. *)
Lemma is_symlink_name name :
  negb (wlen name =? wlen symlink_value) || negb (bool_decide (memicmp_strW casemap name symlink_value (wlen name) = Some 0)) =
  negb (bool_decide (fold name = fold symlink_value)).
Proof.
  unfold wlen at 1 2. destruct (Z.eqb_spec (2 * Z.of_nat (length name)) (2 * Z.of_nat (length symlink_value))) as [E|E]; cbn [negb orb].
  - f_equal. apply bool_decide_ext. apply memicmp_strW_eq. lia.
  - rewrite bool_decide_eq_false_2; [done|]. intros Ef. apply (f_equal length) in Ef. unfold fold_case in Ef. rewrite !length_map in Ef. lia.
Qed.

(** Writing the found or inserted value, and touching the key. *)
Lemma store_value_ok s w k x l vals nb i v m :
  r_keys s !! k = Some x → path s k l → dirty_ok s → 0 ≤ i < Z.of_nat (length vals) →
  wf_values (set_values (<[Z.to_nat i := v]> vals) nb x) → value_map (<[Z.to_nat i := v]> vals) = m →
  wp (write_value k i v >> touch_key k REG_NOTIFY_CHANGE_LAST_SET) (with_values s k x vals nb) w
     (λ _ s' w', w' = w ∧ stored_post s s' k l m).
Proof.
  intros Hx Hp Hd Hi Hwf Hm. rewrite wp_bind. unfold write_value. rewrite wp_bind. eapply wp_read_key; [by apply lookup_insert_eq|].
  rewrite wp_bind, wp_assert. cbn [k_values set_values]. split; [lia|]. unfold put_key. rewrite wp_modify. cbn [k_nb_values].
  rewrite with_values_twice. unfold with_values. eapply wp_mono; [by apply (change_values_ok s w k x l)|].
  intros _ s' w' (-> & (y & Hy & Ev & Enb & Emod & Htou) & Hrest). split; [done|]. split; [|exact Hrest]. exists x, y.
  split_and!; [done|done| |by rewrite Ev|done|by rewrite Ev, Enb].
  destruct Hwf as [W1 W2 W3 W4]. cbn in W1, W2, W3, W4. constructor; by rewrite ?Ev, ?Enb.
Qed.

Lemma set_value_ok s w k x l name type data
    (Hx : r_keys s !! k = Some x) (Hwf : wf_values x) (Hn : short name) (Hp : path s k l) (Hd : dirty_ok s) :
  wp (set_value casemap k name type data) s w (λ _ s' w',
    let m := value_map (k_values x) in
    let old := m !! fold name in
    let spelling := match old with Some v => v_name v | None => name end in
    if has (k_flags x) KEY_PREDEF then s' = s ∧ w_error w' = STATUS_INVALID_HANDLE else
    if bool_decide (data ≠ [] ∧ old = Some (KeyValue spelling (Some type) data)) then s' = s ∧ w' = w else
    if has (k_flags x) KEY_SYMLINK && negb (bool_decide (type = REG_LINK ∧ fold name = fold symlink_value))
    then s' = s ∧ w_error w' = STATUS_ACCESS_DENIED else
    (w_error w' = w_error w ∧ (old = None → wlen name ≤ MAX_VALUE_LEN * 2) ∧
     stored_post s s' k l (<[fold name := KeyValue spelling (Some type) data]> m)) ∨
    (refused w w' name (bool_decide (old = None)) ∧ same_values s s' k x)).
Proof.
  unfold set_value. rewrite wp_bind. eapply wp_read_key; [done|]. destruct (has (k_flags x) KEY_PREDEF); [by wp_run|].
  destruct (find_value_ok x name s w Hwf Hn) as (found & i & Hl & E & Em). rewrite wp_bind, (wp_run _ _ _ _ _ _ E), Em.
  set (old := if found then k_values x !! Z.to_nat i else None) in *. cbn zeta. set (spelling := match old with Some v => v_name v | None => name end).
  assert (Esame : match old with
      | Some v => bool_decide (v_type v = Some type) && bool_decide (v_data v = data) && negb (bool_decide (v_data v = []))
      | None => false end = bool_decide (data ≠ [] ∧ old = Some (KeyValue spelling (Some type) data))).
  { unfold spelling. destruct old as [[n t d]|]; cbn; [|by rewrite bool_decide_eq_false_2 by naive_solver].
    repeat case_bool_decide; naive_solver. }
  rewrite Esame. case_bool_decide; [by apply wp_ret|].
  rewrite <- orb_assoc, is_symlink_name, <- negb_andb.
  replace ((type =? REG_LINK) && bool_decide (fold name = fold symlink_value)) with (bool_decide (type = REG_LINK ∧ fold name = fold symlink_value))
    by (destruct (Z.eqb_spec type REG_LINK); repeat case_bool_decide; naive_solver).
  destruct (has (k_flags x) KEY_SYMLINK && _); [by wp_run|]. rewrite wp_bind.
  apply wp_mono with (Q := λ ok s1 w1, s1 = s ∧ outcome w w1 ok).
  { destruct data; [by apply wp_ret|]. by apply wp_mem_alloc_outcome. }
  intros [] s1 w1 [-> Ho]; cbn [negb]; [|apply wp_ret; right; destruct Ho; split; [by right|by apply same_values_refl]].
  destruct Ho as [Ho Hom]. rewrite wp_bind. pose proof Hwf as [Hs Hsh Hr Ha]. destruct found.
  - destruct (located_value _ _ _ _ Hl) as (v & Hv & Ef). assert (Eo : old = Some v) by done.
    assert (Esp : spelling = v_name v) by (unfold spelling; by rewrite Eo). clear Em E Esame. clearbody spelling old. subst old spelling. apply wp_ret. cbn [negb].
    destruct (value_map_write _ _ _ v (KeyValue (v_name v) (Some type) data) Hs Hl Hv eq_refl) as [En Evm].
    rewrite <- (with_values_id s k x Hx) at 1. eapply wp_mono; [apply (store_value_ok s w1 k x l); [done|done|done| | |exact Evm]|].
    + apply lookup_lt_Some in Hv. destruct Hl as [? _]. lia.
    + constructor; cbn; rewrite ?En, ?length_insert; done.
    + intros _ s' w' [-> Hpost]. left. split_and!; [done|done|done].
  - assert (Eo : old = None) by done. assert (Esp : spelling = name) by (unfold spelling; by rewrite Eo).
    clear Em E Esame. clearbody spelling old. subst old spelling. eapply wp_mono; [by apply (insert_value_ok s w1 k x name i)|].
    intros [] s2 w2; cbn [negb].
    + intros (Ho2 & Hlen & nb & -> & Hnb & Hmin). destruct Ho2 as [Ho2 _].
      set (v := KeyValue name (Some type) data).
      assert (Ei : <[Z.to_nat i := v]> (insert_at i (KeyValue name None []) (k_values x)) = insert_at i v (k_values x)).
      { destruct Hl as [Hi _]. rewrite length_fmap in Hi. unfold insert_at. rewrite insert_app_r_alt by (rewrite length_take; lia).
        rewrite length_take, Nat.min_l by lia. by rewrite Nat.sub_diag. }
      assert (Hsort : names_sorted (v_name <$> insert_at i v (k_values x))).
      { rewrite insert_at_fmap. by apply insert_sorted. }
      assert (Hlen' : length (insert_at i v (k_values x)) = S (length (k_values x))) by (by rewrite insert_at_perm).
      eapply wp_mono; [apply (store_value_ok s w2 k x l _ nb i v); [done|done|done| | |rewrite Ei; by apply (named_map_insert v_name)]|].
      * destruct Hl as [Hi _]. rewrite length_fmap in Hi. rewrite insert_at_perm. cbn. lia.
      * constructor; cbn [k_values set_values k_nb_values]; rewrite ?Ei; [done| |rewrite Hlen'; lia|by right].
        rewrite insert_at_fmap, insert_at_perm. by constructor.
      * intros _ s' w' [-> Hpost]. left. split_and!; [congruence|done|done].
    + intros [Href Hsame]. apply wp_ret. right. rewrite bool_decide_eq_true_2 by done. split; [|done].
      destruct Href as [?|[? Hne]]; [by left|right]. split; [done|]. intros Hw. by rewrite (Hom Hw) in Hne.
Qed.

(** From a marked key all ancestors are found dirty, if none of them is volatile. *)
Lemma marked_path s k l : path s k l → dirty_ok s → marked s k →
  (∀ c x, c ∈ l → r_keys s !! c = Some x → has (k_flags x) KEY_VOLATILE = false) →
  ∀ c x, c ∈ l → r_keys s !! c = Some x → has (k_flags x) KEY_DIRTY = true.
Proof.
  intros Hp Hd. assert (Hk : ∀ k' l', marked s k' → (∀ c x, c ∈ k' :: l' → r_keys s !! c = Some x → has (k_flags x) KEY_VOLATILE = false) →
    ∀ x, r_keys s !! k' = Some x → has (k_flags x) KEY_DIRTY = true).
  { intros k' l' Hm Hv x Hx. specialize (Hm x Hx). rewrite has_mask_lor, (Hv k' x), orb_false_r in Hm; [done|set_solver|done]. }
  induction Hp as [k E|k p l E Hp IH]; intros Hm Hv c x Hc Hx.
  - apply list_elem_of_singleton in Hc as ->. by eapply Hk.
  - apply elem_of_cons in Hc as [->|Hc]; [by eapply Hk|]. assert (Hmp : marked s p); [|apply (IH Hmp) with c; [|done|done]; intros c' x' Hc'; apply Hv; set_solver].
    destruct (path_present s k (k :: l) k) as [y Hy]; [by eapply path_step|set_solver|].
    apply (Hd k y p); [done|by eapply Hk|apply (Hv k y); [set_solver|done]|done].
Qed.

Definition permanent_path (s : registry) (l : list Z) : Prop :=
  ∀ c x, c ∈ l → r_keys s !! c = Some x → has (k_flags x) KEY_VOLATILE = false.

Lemma stored_dirty s s' k l m : path s k l → permanent_path s l → stored_post s s' k l m →
  ∀ c y, c ∈ l → r_keys s' !! c = Some y → has (k_flags y) KEY_DIRTY = true.
Proof.
  intros Hp Hperm ((x & y & Hx & Hy & _ & _ & _ & Ht) & [_ Ho] & Hd & Hm & _).
  assert (Hflags : ∀ c u', r_keys s' !! c = Some u' → ∃ u, r_keys s !! c = Some u ∧ k_name u' = k_name u ∧
    (k_flags u' = k_flags u ∨ k_flags u' = Z.lor (k_flags u) KEY_DIRTY)).
  { intros c u' Hu'. destruct (decide (c = k)) as [->|Hne].
    - assert (u' = y) as -> by congruence. exists x. destruct Ht as (En & _ & _ & _ & _ & _ & _ & Ef). done.
    - specialize (Ho c Hne). rewrite Hu' in Ho. destruct (r_keys s !! c) as [u|]; [|done]. exists u.
      destruct Ho as (En & _ & _ & _ & _ & _ & _ & Ef). done. }
  assert (Hp' : path s' k l).
  { assert (Epar : ∀ c, is_Some (r_keys s !! c) → parent_of s' c = parent_of s c).
    { intros c [u Hu]. assert (Hc : is_Some (r_keys s' !! c)).
      { destruct (decide (c = k)) as [->|Hne]; [eauto|]. specialize (Ho c Hne). rewrite Hu in Ho. by destruct (r_keys s' !! c). }
      destruct Hc as [u' Hu']. destruct (Hflags c u' Hu') as (u2 & Hu2 & En & _). assert (u2 = u) as -> by congruence.
      unfold parent_of. by rewrite Hu', Hu, En. }
    clear - Hp Epar. induction Hp as [k E|k p l E Hp IH].
    - apply path_root. rewrite Epar; [done|]. unfold parent_of in E. by destruct (r_keys s !! k).
    - apply path_step with p; [|done]. rewrite Epar; [done|]. unfold parent_of in E. by destruct (r_keys s !! k). }
  eapply marked_path; [done..|]. intros c u' Hc Hu'. destruct (Hflags c u' Hu') as (u & Hu & _ & [-> | ->]); [by eapply Hperm|].
  unfold has. rewrite Z.land_lor_distr_l. change (Z.land KEY_DIRTY KEY_VOLATILE) with 0. rewrite Z.lor_0_r. by eapply Hperm.
Qed.

(** C40: Setting a value, in a registry where dirty keys that are not volatile have dirty or
    volatile parents (creating a key through an absolute path breaks this), binds its
    name, case apart, to the type and the data and keeps every other value; a stored
    value keeps the spelling of its name. If neither the key nor an ancestor is volatile,
    the key and all its ancestors are marked dirty; the events that wait for such a
    change are set. Storing what is already there changes nothing; on a symbolic link
    only its target can be set; a refused value leaves the values as they were. *)
Theorem set_value_correct s w k x l name type data
    (Hx : r_keys s !! k = Some x) (Hwf : wf_values x) (Hn : short name) (Hp : path s k l) (Hd : dirty_ok s) :
  wp (set_value casemap k name type data) s w (λ _ s' w',
    let m := value_map (k_values x) in
    let old := m !! fold name in
    let spelling := match old with Some v => v_name v | None => name end in
    if has (k_flags x) KEY_PREDEF then s' = s ∧ w_error w' = STATUS_INVALID_HANDLE else
    if bool_decide (data ≠ [] ∧ old = Some (KeyValue spelling (Some type) data)) then s' = s ∧ w' = w else
    if has (k_flags x) KEY_SYMLINK && negb (bool_decide (type = REG_LINK ∧ fold name = fold symlink_value))
    then s' = s ∧ w_error w' = STATUS_ACCESS_DENIED else
    (w_error w' = w_error w ∧ (old = None → wlen name ≤ MAX_VALUE_LEN * 2) ∧
     stored_post s s' k l (<[fold name := KeyValue spelling (Some type) data]> m) ∧
     (permanent_path s l → ∀ c y, c ∈ l → r_keys s' !! c = Some y → has (k_flags y) KEY_DIRTY = true)) ∨
    (refused w w' name (bool_decide (old = None)) ∧ same_values s s' k x)).
Proof.
  eapply wp_mono; [exact (set_value_ok s w k x l name type data Hx Hwf Hn Hp Hd)|]. cbn zeta. intros u s' w'.
  destruct (has (k_flags x) KEY_PREDEF); [done|]. case_bool_decide; [done|]. destruct (_ && _); [done|].
  intros [(? & ? & Hs)|?]; [left|by right]. split_and!; [done|done|done|]. intros Hv. by eapply stored_dirty.
Qed.
End Order.

(** ** A concrete registry *)

(** A table that lowers the letters A to Z. *)
Definition demo_casemap (i : Z) : Z :=
  if i =? 0 then 0x100 else if i <? 0x100 then 0x200 else
  if i =? 0x104 then 0x300 else if i =? 0x105 then 0x310 else
  if i <? 0x300 then 0x320 else if (0x301 <=? i) && (i <=? 0x31a) then 32 else 0.

Definition demo_values : list key_value :=
  [KeyValue (wide "Alpha") (Some REG_SZ) (wide "one"); KeyValue (wide "beta") (Some REG_DWORD) [1; 0; 0; 0];
   KeyValue (wide "Gamma") (Some REG_SZ) []].
Definition demo_key : key :=
  Key (Some (wide "Software", Some 1)) [] [] 0 None demo_values 8 0 0 [Notify [70] false REG_NOTIFY_CHANGE_LAST_SET 4 9].
Definition demo_root : key :=
  Key (Some (wide "Machine", None)) [] [2] 8 None [] 0 0 0 [Notify [77] true REG_NOTIFY_CHANGE_LAST_SET 4 9].
Definition demo_registry : registry := Registry (<[1 := demo_root]> (<[2 := demo_key]> ∅)) [] 1000.

Lemma demo_wf : wf_values demo_casemap demo_key.
Proof.
  constructor; cbn [demo_key k_values k_nb_values].
  - unfold names_sorted, demo_values. cbn [fmap list_fmap v_name]. repeat constructor; vm_compute; done.
  - unfold demo_values. cbn [fmap list_fmap v_name]. repeat constructor.
  - done.
  - by right.
Qed.

Lemma demo_path : path demo_registry 2 [2; 1].
Proof. apply path_step with 1; [done|]. by apply path_root. Qed.

Lemma demo_dirty : dirty_ok demo_registry.
Proof.
  intros k x p Hx. cbn in Hx. repeat (rewrite lookup_insert in Hx; case_decide; [injection Hx as <-; done|]). done.
Qed.

Lemma find_name_correct_witness :
  names_sorted demo_casemap (v_name <$> demo_values) ∧
  ∃ i, find_name demo_casemap (v_name <$> demo_values) (wide "BETA") = Some (true, i) ∧ i = 1.
Proof.
  pose proof demo_wf as [Hs Hsh _ _]. split; [exact Hs|].
  destruct (find_name_correct demo_casemap (v_name <$> demo_values) (wide "BETA") Hs Hsh eq_refl) as (f & i & E & _).
  exists i. rewrite E. vm_compute in E. injection E as <- <-. done.
Defined.

Lemma get_value_correct_witness :
  wp (get_value demo_casemap 2 (wide "ALPHA") 2) demo_registry (World 0 []) (λ r s' w', s' = demo_registry ∧
    r = (Some REG_SZ, 3, take 2 (wide "one"))).
Proof.
  eapply wp_mono; [apply (get_value_correct demo_casemap demo_registry (World 0 []) 2 demo_key (wide "ALPHA") 2 eq_refl demo_wf eq_refl)|].
  intros [rt rd] s' w' [-> H]. split; [done|]. change (has (k_flags demo_key) KEY_PREDEF) with false in H.
  replace (value_map demo_casemap (k_values demo_key) !! fold_case demo_casemap (wide "ALPHA"))
    with (Some (KeyValue (wide "Alpha") (Some REG_SZ) (wide "one"))) in H by by vm_compute.
  destruct H as [E [[_ E']|(_ & Hm & _)]]; [|by destruct Hm]. cbn [fst snd] in E, E'. by rewrite E, E'.
Defined.

Lemma delete_value_correct_witness :
  wp (delete_value demo_casemap 2 (wide "ALPHA")) demo_registry (World 0 []) (λ _ s' w',
    w_error w' = 0 ∧ r_events s' = [70; 77]).
Proof.
  eapply wp_mono; [apply (delete_value_correct demo_casemap demo_registry (World 0 []) 2 demo_key [2; 1] (wide "ALPHA")
    eq_refl demo_wf eq_refl demo_path demo_dirty)|].
  intros u s' w' H. cbn beta in H. change (has (k_flags demo_key) KEY_PREDEF) with false in H.
  replace (value_map demo_casemap (k_values demo_key) !! fold_case demo_casemap (wide "ALPHA"))
    with (Some (KeyValue (wide "Alpha") (Some REG_SZ) (wide "one"))) in H by by vm_compute.
  destruct H as (Hw & _ & _ & _ & _ & He). split; [exact Hw|]. rewrite He. by vm_compute.
Defined.

Lemma set_value_correct_witness :
  wp (set_value demo_casemap 2 (wide "aleph") REG_SZ (wide "new")) demo_registry (World 0 []) (λ _ s' w',
    w_error w' = 0 ∧ r_events s' = [70; 77]).
Proof.
  eapply wp_mono; [apply (set_value_correct demo_casemap demo_registry (World 0 []) 2 demo_key [2; 1] (wide "aleph") REG_SZ (wide "new")
    eq_refl demo_wf eq_refl demo_path demo_dirty)|].
  intros u s' w' H. cbn beta in H. cbn zeta in H. change (has (k_flags demo_key) KEY_PREDEF) with false in H.
  change (has (k_flags demo_key) KEY_SYMLINK) with false in H.
  replace (value_map demo_casemap (k_values demo_key) !! fold_case demo_casemap (wide "aleph")) with (@None key_value) in H by by vm_compute.
  rewrite bool_decide_eq_false_2 in H by (intros [_ ?]; done). cbn [andb] in H.
  destruct H as [(Hw & _ & (_ & _ & _ & _ & He) & _)|[[(_ & _ & Hlen)|[_ Hne]] _]]; [|by vm_compute in Hlen|done].
  split; [exact Hw|]. rewrite He. by vm_compute.
Defined.
