(* ===== verification/RegistryTree.v ===== *)
(** * The tree of registry keys (server/registry.c, object.c)

    Linking keys below their parent, unlinking, deleting with or without the
    subkeys, renaming, and the link from a key to its Wow6432Node subkey. A deleted
    key stays in the store, flagged and without a name, as long as handles to it
    may be open; its memory is up to the component Handles. *)

From Stdlib Require Import Sorted.
From S2P Require Import Prelude Unicode Registry.

Definition REG_OPTION_VOLATILE : Z := 1.
Definition REG_OPTION_CREATE_LINK : Z := 2.
Definition OBJ_OPENIF : Z := 0x80.
Definition OBJ_OPENLINK : Z := 0x100.
Definition KEY_WOW64_64KEY : Z := 0x100.
Definition STATUS_PREDEFINED_HANDLE : Z := 0x40000016.

(** The length in bytes of the first element of a path. *)
Fixpoint get_path_element (name : list Z) : Z :=
  match name with
  | [] => 0
  | c :: name' => if c =? 92 then 0 else 2 + get_path_element name'
  end.

(** [for (k = i; k < j; k++) l[k] = l[k + 1]] and
    [for (k = j; k > i; k--) l[k] = l[k - 1]]. *)
Definition shift_left {A} (i j : nat) (l : list A) : list A := take i l ++ take (j - i) (drop (S i) l) ++ drop j l.
Definition shift_right {A} (i j : nat) (l : list A) : list A := take (S i) l ++ take (j - i) (drop i l) ++ drop (S j) l.

(** [l[index] = a] where [nb] elements are allocated: a write past the elements in
    use cannot be seen, past the array it fails. *)
Definition store_at {S A} (index : Z) (a : A) (l : list A) (nb : Z) : M S (list A) :=
  if index <? Z.of_nat (length l) then ret (<[Z.to_nat index := a]> l)
  else if index <? nb then ret l else crash.

(** The position of a subkey; a linked key is among the subkeys of its parent. *)
Definition index_of (k : Z) (l : list Z) : option nat := fst <$> list_find (k =.) l.

Section Tree.
Variable casemap : Z → Z.

Definition is_wow6432node (name : list Z) : bool :=
  (get_path_element name =? wlen wow6432node) &&
  bool_decide (memicmp_strW casemap name wow6432node (wlen wow6432node) = Some 0).

(** The name of a key: [name.obj.name->name]. *)
Definition own_name (x : key) : G (list Z) := match k_name x with Some (n, _) => ret n | None => crash end.

(** ** Linking and unlinking *)

(** Gives the new content of [name], with its parent; [None] when it fails. *)
Definition key_link_name (k : Z) (n : list Z) (parent : Z) : G (option (list Z * option Z)) :=
  let* x := read_key parent in
  let* ok := (if Z.of_nat (length (k_subkeys x)) =? k_nb_subkeys x then grow_subkeys parent else ret true) in
  if negb ok then ret None else
  let* x := read_key parent in
  let* r := find_subkey casemap x n in
  c_assert ((0 <=? r.2) && (r.2 <=? Z.of_nat (length (k_subkeys x))) &&
            (Z.of_nat (length (k_subkeys x)) <? k_nb_subkeys x)) >>
  put_key parent (set_subkeys (insert_at r.2 k (k_subkeys x)) (k_nb_subkeys x) x) >>
  let* wow := (if is_wow6432node n then let* pn := own_name x in ret (negb (is_wow6432node pn)) else ret false) in
  (if wow then let* x := read_key parent in put_key parent (set_wow (Some k) x) else ret tt) >>
  ret (Some (n, Some parent)).

Definition key_unlink_name (k : Z) (parent : option Z) : G unit :=
  match parent with
  | None => ret tt
  | Some parent =>
      let* x := read_key parent in
      let* i := of_option (index_of k (k_subkeys x)) in
      let wow := if bool_decide (k_wow6432node x = Some k) then None else k_wow6432node x in
      put_key parent (set_wow wow (set_subkeys (delete_at (Z.of_nat i) (k_subkeys x)) (k_nb_subkeys x) x)) >>
      let* x := read_key parent in
      let* nb := shrink (k_nb_subkeys x) (Z.of_nat (length (k_subkeys x)) - 1) MIN_SUBKEYS in
      put_key parent (set_subkeys (k_subkeys x) nb x)
  end.

Definition unlink_named_object (k : Z) : G unit :=
  let* x := read_key k in
  match k_name x with
  | None => ret tt
  | Some (_, p) => put_key k (set_name None x) >> key_unlink_name k p
  end.

(** [create_object] of object.c for a key: the new key has a name and is linked, its
    other fields are not initialised yet. *)
Definition uninitialised_key (n : option (list Z * option Z)) : key := Key n [] [] 0 None [] 0 0 0 [].
Definition create_object (n : list Z) (parent : Z) : G (option Z) :=
  let* ok := mem_alloc in
  if negb ok then ret None else
  let* ok := mem_alloc in
  if negb ok then ret None else
  let* s := get in
  let k := new_key (r_keys s) in
  let* name := key_link_name k n parent in
  match name with
  | None => ret None
  | Some name => put_key k (uninitialised_key (Some name)) >> ret (Some k)
  end.

(** [create_key_object] once [create_named_object] has made a new key; [rel] tells
    whether the call named a parent key. *)
Definition init_key_object (k : Z) (rel : bool) (options modif : Z) : G (option Z) :=
  let* x := read_key k in
  let flags := if has options REG_OPTION_CREATE_LINK then KEY_SYMLINK else 0 in
  put_key k (Key (k_name x) [] [] 0 None [] 0 flags modif []) >>
  let add_flag f := let* x := read_key k in put_key k (set_flags (Z.lor (k_flags x) f) x) in
  if has options REG_OPTION_VOLATILE then add_flag KEY_VOLATILE >> ret (Some k) else
  let* volatile := (if rel : bool then
                      let* p := get_parent k in
                      let* p := of_option p in
                      let* px := read_key p in
                      ret (has (k_flags px) KEY_VOLATILE)
                    else ret false) in
  if volatile : bool then
    set_error STATUS_CHILD_MUST_BE_VOLATILE >>
    unlink_named_object k >>
    modify (on_keys (delete k)) >>
    ret None
  else add_flag KEY_DIRTY >> ret (Some k).

(** ** Creating a key

    The lookup of a path ends at a key [obj], with what is left of the path in
    [name]: nothing, or the name of the key to create. These are the rests of
    [create_named_object], [create_key_object] and [create_key] from there on. *)
Definition create_named_object (obj : Z) (name : list Z) (attributes : Z) : G (option Z) :=
  match name with
  | [] => if has attributes OBJ_OPENIF then set_error STATUS_OBJECT_NAME_EXISTS >> ret (Some obj)
          else set_error STATUS_OBJECT_NAME_COLLISION >> ret None
  | _ => create_object name obj
  end.
Definition create_key_object (obj : Z) (name : list Z) (rel : bool) (attributes options modif : Z) : G (option Z) :=
  clear_error >>
  let* k := create_named_object obj name attributes in
  match k with
  | None => ret None
  | Some k =>
      let* e := get_error in
      if negb (e =? STATUS_OBJECT_NAME_EXISTS) then init_key_object k rel options modif else ret (Some k)
  end.

(** Wow6432Node: [grab_wow6432node] without the reference counts. *)
Definition grab_wow6432node (k : Z) : G Z :=
  let* x := read_key k in
  match k_wow6432node x with
  | None => ret k
  | Some w => let* wx := read_key w in ret (if has (k_flags wx) KEY_WOWSHARE then k else w)
  end.

Definition create_key (obj : Z) (name : list Z) (rel : bool) (options access attributes : Z) : G (option Z) :=
  let attributes := if has options REG_OPTION_CREATE_LINK then Z.lor (Z.ldiff attributes OBJ_OPENIF) OBJ_OPENLINK else attributes in
  let* s := get in
  let* k := create_key_object obj name rel attributes options (r_time s) in
  match k with
  | None => ret None
  | Some k =>
      let* e := get_error in
      if e =? STATUS_OBJECT_NAME_EXISTS then
        let* x := read_key k in
        when (has (k_flags x) KEY_PREDEF) (set_error STATUS_PREDEFINED_HANDLE) >>
        if negb (has access KEY_WOW64_64KEY) then let* k := grab_wow6432node k in ret (Some k) else ret (Some k)
      else
        (if rel then
           let* p := get_parent k in
           let* p := of_option p in
           touch_key p REG_NOTIFY_CHANGE_NAME
         else ret tt) >>
        ret (Some k)
  end.

(** ** Deleting *)

(** The loop over the subkeys; [delete] deletes one of them. *)
Fixpoint delete_subkeys (delete : Z → G bool) (k : Z) (m : nat) : G bool :=
  let* x := read_key k in
  match last (k_subkeys x), m with
  | None, _ => ret true
  | Some _, O => crash
  | Some sub, S m' =>
      let* ok := delete sub in
      if negb ok then ret false else delete_subkeys delete k m'
  end.

(** The fuel bounds the depth of the tree below the key. *)
Fixpoint delete_key_rec (n : nat) (k : Z) (recurse : bool) : G bool :=
  match n with
  | O => crash
  | S n' =>
      let* x := read_key k in
      if has (k_flags x) KEY_DELETED then ret true else
      let* p := get_parent k in
      match p with
      | None => set_error STATUS_ACCESS_DENIED >> ret false
      | Some parent =>
          if has (k_flags x) KEY_PREDEF then set_error STATUS_INVALID_HANDLE >> ret false else
          let* ok := (if recurse then delete_subkeys (λ sub, delete_key_rec n' sub true) k (length (k_subkeys x))
                      else match k_subkeys x with
                           | [] => ret true
                           | _ => set_error STATUS_ACCESS_DENIED >> ret false
                           end) in
          if negb ok then ret false else
          let* x := read_key k in
          put_key k (set_flags (Z.lor (k_flags x) KEY_DELETED) x) >>
          unlink_named_object k >>
          touch_key parent REG_NOTIFY_CHANGE_NAME >>
          ret true
      end
  end.

Definition delete_key (k : Z) (recurse : bool) : G bool :=
  let* s := get in delete_key_rec (size (r_keys s)) k recurse.

(** ** Renaming *)

(** The moves of the subkeys between the old and the new place of the key; gives also
    the index where the key goes. *)
Definition move_gap (cur_index : nat) (index : Z) (l : list Z) : list Z * Z :=
  let cur := Z.of_nat cur_index in
  if (cur <? index) && (1 <? index - cur) then (shift_left cur_index (Z.to_nat (index - 1)) l, index - 1)
  else if index <? cur then (shift_right (Z.to_nat index) cur_index l, index)
  else (l, index).

Definition rename_key (k : Z) (new_name : list Z) : G unit :=
  let* parent := get_parent k in
  let len := get_path_element new_name in
  if (len =? 0) || negb (len =? wlen new_name) || (MAX_NAME_LEN * 2 <? len) then set_error STATUS_INVALID_PARAMETER else
  match parent with
  | None => set_error STATUS_CANNOT_DELETE
  | Some parent =>
      let* px := read_key parent in
      let* r := find_subkey casemap px new_name in
      let (found, index) := r in
      if (if found is Some _ then true else false) then set_error STATUS_CANNOT_DELETE else
      if bool_decide (k_wow6432node px = Some k) || is_wow6432node new_name then set_error STATUS_INVALID_PARAMETER else
      let* ok := mem_alloc in
      if negb ok then ret tt else
      let* cur_index := of_option (index_of k (k_subkeys px)) in
      let (subkeys, index) := move_gap cur_index index (k_subkeys px) in
      let* subkeys := store_at index k subkeys (k_nb_subkeys px) in
      put_key parent (set_subkeys subkeys (k_nb_subkeys px) px) >>
      let* x := read_key k in
      put_key k (set_name (Some (new_name, Some parent)) x) >>
      touch_key k REG_NOTIFY_CHANGE_NAME
  end.

(** ** Wow6432Node *)

(** Recurses up the parents. *)
Fixpoint get_wow6432node (n : nat) (k : option Z) : G (option Z) :=
  match k, n with
  | None, _ => ret None
  | Some _, O => crash
  | Some k, S n' =>
      let* x := read_key k in
      match k_wow6432node x with
      | Some w => ret (Some w)
      | None =>
          let* parent := get_parent k in
          let* is_node := (match parent with
                           | Some p => let* px := read_key p in ret (bool_decide (k_wow6432node px = Some k))
                           | None => ret false
                           end) in
          if is_node : bool then ret (Some k) else
          let* r := get_wow6432node n' parent in
          match r with
          | None => ret (Some k)
          | Some w =>
              let* n := own_name x in
              let* wx := read_key w in
              let* r := find_subkey casemap wx n in
              ret r.1
          end
      end
  end.
End Tree.

(** ** The tree invariant *)

Section TreeProofs.
Variable casemap : Z → Z.
#[local] Abbreviation fold := (fold_case casemap).

(** The name of a key, for its place among its siblings. *)
Definition kname (s : registry) (c : Z) : list Z := default [] (subkey_name s c).
Definition name_of (s : registry) (c : Z) : option (list Z * option Z) := r_keys s !! c ≫= k_name.

Record wf_key (s : registry) (k : Z) (x : key) : Prop := {
  wk_values : wf_values casemap x;
  wk_sorted : names_sorted casemap (kname s <$> k_subkeys x);
  wk_short : Forall short (kname s <$> k_subkeys x);
  wk_room : Z.of_nat (length (k_subkeys x)) ≤ k_nb_subkeys x;
  wk_alloc : k_nb_subkeys x = 0 ∨ MIN_SUBKEYS ≤ k_nb_subkeys x;
  wk_kids : ∀ c, c ∈ k_subkeys x ↔ ∃ n, name_of s c = Some (n, Some k);
  wk_wow : ∀ c, k_wow6432node x = Some c → c ∈ k_subkeys x;
  wk_deleted : has (k_flags x) KEY_DELETED = true ↔ k_name x = None;
  wk_empty : k_name x = None → k_subkeys x = [];
  wk_path : k_name x ≠ None → ∃ l, path s k l
}.
Definition wf_tree (s : registry) : Prop := ∀ k x, r_keys s !! k = Some x → wf_key s k x.

Lemma name_of_key s k x : r_keys s !! k = Some x → name_of s k = k_name x.
Proof. unfold name_of. by intros ->. Qed.

Lemma parent_of_name s k : parent_of s k = snd <$> name_of s k.
Proof. unfold parent_of, name_of. by destruct (r_keys s !! k). Qed.

Lemma kname_of s k : kname s k = default [] (fst <$> name_of s k).
Proof. unfold kname, subkey_name, name_of. by destruct (r_keys s !! k). Qed.

Lemma parent_present s k p : wf_tree s → parent_of s k = Some (Some p) → is_Some (r_keys s !! p).
Proof.
  intros Hwf Ep. rewrite parent_of_name in Ep. unfold name_of in Ep. destruct (r_keys s !! k) as [x|] eqn:Hx; [|done].
  destruct (wk_path _ _ _ (Hwf k x Hx)) as [l Hl]; [cbn in Ep; intros E; by rewrite E in Ep|].
  assert (Ep' : parent_of s k = Some (Some p)) by (rewrite parent_of_name, (name_of_key _ _ _ Hx); done).
  inversion Hl as [? E|? p' l' E Hp]; subst; [congruence|]. assert (p' = p) as -> by congruence.
  eapply path_present; [exact Hp|]. inversion Hp; subst; set_solver.
Qed.

Lemma kid_named s k x c : wf_tree s → r_keys s !! k = Some x → c ∈ k_subkeys x →
  ∃ y n, r_keys s !! c = Some y ∧ k_name y = Some (n, Some k).
Proof.
  intros Hwf Hx Hc. apply (wk_kids _ _ _ (Hwf k x Hx)) in Hc as [n En]. unfold name_of in En.
  destruct (r_keys s !! c) as [y|]; [|done]. by exists y, n.
Qed.

Lemma kid_of_parent s c n p x : wf_tree s → name_of s c = Some (n, Some p) → r_keys s !! p = Some x → c ∈ k_subkeys x.
Proof. intros Hwf En Hx. apply (wk_kids _ _ _ (Hwf p x Hx)). by exists n. Qed.

Lemma not_own_parent s k l : path s k l → parent_of s k ≠ Some (Some k).
Proof.
  intros Hp E. pose proof (path_nodup _ _ _ Hp) as Hnd. inversion Hp as [? E'|? p l' E' Hp']; subst; [congruence|].
  assert (p = k) as -> by congruence. apply NoDup_cons in Hnd as [Hn _]. destruct Hn. inversion Hp'; subst; set_solver.
Qed.

(** Only what [touch_key] changes. *)
Lemma touched_names s s' c : touched_only s s' → name_of s' c = name_of s c.
Proof.
  intros [_ Ht]. specialize (Ht c). unfold name_of. destruct (r_keys s !! c), (r_keys s' !! c); try done.
  destruct Ht as (E & _). cbn. congruence.
Qed.

Lemma touched_knames s s' : touched_only s s' → ∀ c, kname s' c = kname s c.
Proof. intros Ht c. by rewrite !kname_of, (touched_names s s'). Qed.

Lemma has_dirty_deleted f : has (Z.lor f KEY_DIRTY) KEY_DELETED = has f KEY_DELETED.
Proof. rewrite has_lor. apply orb_false_r. Qed.

Lemma wf_tree_touched s s' : touched_only s s' → wf_tree s → wf_tree s'.
Proof.
  intros Ht Hwf k y Hy. pose proof (proj2 Ht k) as Hk. rewrite Hy in Hk. destruct (r_keys s !! k) as [x|] eqn:Hx; [|done].
  destruct (Hwf k x Hx) as [[V1 V2 V3 V4] W2 W3 W4 W5 W6 W7 W8 W9 W10]. destruct Hk as (T1 & _ & T3 & T4 & T5 & T6 & T7 & T8).
  assert (Ek : kname s' <$> k_subkeys y = kname s <$> k_subkeys x).
  { rewrite T3. apply list_fmap_ext. intros i c _. by apply touched_knames. }
  assert (Ed : has (k_flags y) KEY_DELETED = has (k_flags x) KEY_DELETED) by (destruct T8 as [->| ->]; [done|apply has_dirty_deleted]).
  constructor; rewrite ?Ek, ?T3, ?T4, ?T5, ?T1, ?Ed; try done.
  - constructor; rewrite ?T6, ?T7; done.
  - intros c. rewrite W6. by setoid_rewrite (touched_names s s').
  - intros Hn. destruct (W10 Hn) as [l Hl]. exists l. by eapply touched_path.
Qed.

(** ** Looking a subkey up *)

Lemma subkey_names s k x : wf_tree s → r_keys s !! k = Some x →
  mapM (subkey_name s) (k_subkeys x) = Some (kname s <$> k_subkeys x).
Proof.
  intros Hwf Hx. apply mapM_Some. apply Forall2_fmap_r, Forall_Forall2_diag, Forall_forall. intros c Hc.
  destruct (kid_named s k x c Hwf Hx Hc) as (y & n & Hy & En). 
  assert (E : subkey_name s c = Some n) by (unfold subkey_name; rewrite Hy; cbn; by rewrite En). unfold compose, kname. by rewrite !E.
Qed.

Lemma find_subkey_at s s' w k x x' name :
  wf_tree s → r_keys s !! k = Some x → short name → k_subkeys x' = k_subkeys x → (∀ c, subkey_name s' c = subkey_name s c) →
  ∃ found i, located casemap (kname s <$> k_subkeys x) name found i ∧
    find_subkey casemap x' name s' w = Some ((if found then k_subkeys x !! Z.to_nat i else None, i), s', w).
Proof.
  intros Hwf Hx Hn Esub Enames. destruct (Hwf k x Hx) as [_ Hs Hsh _ _ _ _ _ _ _].
  destruct (find_name_ok casemap _ name Hs Hsh Hn) as (found & i & E & Hl). exists found, i. split; [done|].
  assert (Em : mapM (subkey_name s') (k_subkeys x) = Some (kname s <$> k_subkeys x)).
  { rewrite <- (subkey_names s k x Hwf Hx). clear -Enames. induction (k_subkeys x) as [|c l IH]; [done|]. cbn. by rewrite Enames, IH. }
  unfold find_subkey, bind, get, of_option, ret. rewrite Esub, Em. cbv beta iota. by rewrite E.
Qed.

Lemma find_subkey_ok s w k x name : wf_tree s → r_keys s !! k = Some x → short name →
  ∃ found i, located casemap (kname s <$> k_subkeys x) name found i ∧
    find_subkey casemap x name s w = Some ((if found then k_subkeys x !! Z.to_nat i else None, i), s, w).
Proof. intros Hwf Hx Hn. by apply (find_subkey_at s s w k x x). Qed.

(** The children of a key, by folded name. *)
Definition children (s : registry) (k : Z) : gmap (list Z) Z :=
  match r_keys s !! k with Some x => named_map casemap (kname s) (k_subkeys x) | None => ∅ end.

(** ** Changing the place of one key

    Key [k], a child of [p] or a new key, gets the name [nm]; [l] are the children of
    [p] afterwards. *)
Definition relinked (s : registry) (k : Z) (y : key) (p : Z) (z : key) : registry :=
  on_keys (λ m, <[k := y]> (<[p := z]> m)) s.

Lemma relinked_names s k y p z xp c : k ≠ p → r_keys s !! p = Some xp → k_name z = k_name xp →
  name_of (relinked s k y p z) c = if decide (c = k) then k_name y else name_of s c.
Proof.
  intros Hkp Hxp Ez. unfold name_of. cbn. case_decide as E; [subst; by rewrite lookup_insert_eq|].
  rewrite lookup_insert_ne by done. destruct (decide (c = p)) as [->|]; [rewrite lookup_insert_eq, Hxp; done|by rewrite lookup_insert_ne].
Qed.

Lemma path_parents s s' c l : path s c l → (∀ c', c' ∈ l → parent_of s' c' = parent_of s c') → path s' c l.
Proof.
  intros Hp. induction Hp as [c E|c p l E Hp IH]; intros Hn.
  - apply path_root. by rewrite Hn by set_solver.
  - apply path_step with p; [by rewrite Hn by set_solver|]. apply IH. set_solver.
Qed.

(** A key without children is on no path but its own. *)
Lemma path_avoids s c l k : path s c l → k ∈ l → (∀ c', parent_of s c' ≠ Some (Some k)) → c = k.
Proof.
  intros Hp. induction Hp as [c E|c p l E Hp IH]; intros Hin Hno; [by apply list_elem_of_singleton in Hin|].
  apply elem_of_cons in Hin as [->|Hin]; [done|]. by rewrite (IH Hin Hno) in E; apply Hno in E.
Qed.

Lemma wf_relink s k y p xp l nb wow :
  wf_tree s → k ≠ p → r_keys s !! p = Some xp → k_name xp ≠ None →
  (* before: new, or a child of [p] *)
  match r_keys s !! k with
  | Some xk => (∃ o, k_name xk = Some (o, Some p)) ∧ k_subkeys y = k_subkeys xk ∧ k_nb_subkeys y = k_nb_subkeys xk ∧
               k_wow6432node y = k_wow6432node xk
  | None => k_subkeys y = [] ∧ k_nb_subkeys y = 0 ∧ k_wow6432node y = None
  end →
  (* after: without a name or a child of [p] *)
  match k_name y with
  | Some (_, q) => q = Some p ∧ has (k_flags y) KEY_DELETED = false ∧ (∀ c, c ∈ l ↔ c = k ∨ c ∈ k_subkeys xp)
  | None => k_subkeys y = [] ∧ has (k_flags y) KEY_DELETED = true ∧ (∀ c, c ∈ l ↔ c ≠ k ∧ c ∈ k_subkeys xp)
  end →
  wf_values casemap y →
  let s' := relinked s k y p (set_wow wow (set_subkeys l nb xp)) in
  names_sorted casemap (kname s' <$> l) → Forall short (kname s' <$> l) →
  Z.of_nat (length l) ≤ nb → nb = 0 ∨ MIN_SUBKEYS ≤ nb → (∀ c, wow = Some c → c ∈ l) →
  wf_tree s'.
Proof.
  intros Hwf Hkp Hxp Hnp Hk Hy Hvals s' Hs Hsh Hroom Hnb Hwow.
  assert (En : ∀ c, name_of s' c = if decide (c = k) then k_name y else name_of s c) by (intros c; by eapply relinked_names).
  assert (Ekn : ∀ c, c ≠ k → kname s' c = kname s c) by (intros c Hc; rewrite !kname_of, En; by rewrite decide_False).
  (* the keys below [k], and the paths *)
  assert (Hkids : ∀ c, c ∈ k_subkeys y ↔ ∃ n, name_of s c = Some (n, Some k)).
  { intros c. destruct (r_keys s !! k) as [xk|] eqn:Hxk.
    - destruct Hk as (_ & -> & _). apply (wk_kids _ _ _ (Hwf k xk Hxk)).
    - destruct Hk as (-> & _). rewrite elem_of_nil. split; [done|]. intros [n Ec].
      destruct (parent_present s c k Hwf) as [? E]; [by rewrite parent_of_name, Ec|congruence]. }
  assert (Hself : ∀ n, name_of s k ≠ Some (n, Some k)).
  { intros n E. unfold name_of in E. destruct (r_keys s !! k) as [xk|]; [|done]. destruct Hk as ((o & Eo) & _). cbn in E. congruence. }
  assert (Hpath : ∀ c l', path s c l' → c ≠ k ∨ k_name y ≠ None → path s' c l').
  { intros c l' Hp Hc. apply (path_parents s); [done|]. intros c' Hin. rewrite !parent_of_name, En. case_decide as E; [|done]. subst c'.
    destruct (k_name y) as [[n q]|].
    - destruct Hy as (-> & _). destruct (path_present _ _ _ _ Hp Hin) as [xk Hxk]. rewrite Hxk in Hk. destruct Hk as ((o & Eo) & _).
      by rewrite (name_of_key _ _ _ Hxk), Eo.
    - destruct Hy as (Esub & _). destruct Hc as [Hc|]; [|done]. destruct Hc. apply (path_avoids s c l' k Hp Hin).
      intros c' Ec'. rewrite parent_of_name in Ec'. destruct (name_of s c') as [[n q]|] eqn:En'; [|done]. cbn in Ec'.
      assert (q = Some k) as -> by congruence. assert (Hc' : c' ∈ k_subkeys y) by (apply Hkids; by exists n).
      rewrite Esub in Hc'. by apply not_elem_of_nil in Hc'. }
  destruct (Hwf p xp Hxp) as [P1 P2 P3 P4 P5 P6 P7 P8 P9 P10].
  intros c x Hx. cbn in Hx. destruct (decide (c = k)) as [->|Hck]; [|rewrite lookup_insert_ne in Hx by done; destruct (decide (c = p)) as [->|Hcp]].
  - (* the key itself *)
    rewrite lookup_insert_eq in Hx. injection Hx as <-.
    assert (Ekids : kname s' <$> k_subkeys y = kname s <$> k_subkeys y).
    { apply list_fmap_ext. intros i c Hc. apply Ekn. intros ->. apply list_elem_of_lookup_2, Hkids in Hc as [n Hc]. by apply Hself in Hc. }
    assert (Hnamed : k_name y ≠ None → ∃ l', path s' k l').
    { intros Hn. destruct (P10 Hnp) as [lp Hlp]. exists (k :: lp). apply path_step with p.
      - rewrite parent_of_name, En, decide_True by done. destruct (k_name y) as [[n q]|]; [|done]. by destruct Hy as (-> & _).
      - apply Hpath; auto. }
    assert (Hdel : has (k_flags y) KEY_DELETED = true ↔ k_name y = None).
    { destruct (k_name y) as [[n q]|]; destruct Hy as (_ & -> & _); done. }
    assert (Hk6 : ∀ c, c ∈ k_subkeys y ↔ ∃ n, name_of s' c = Some (n, Some k)).
    { intros c. rewrite Hkids, En. case_decide as E; [|done]. subst c. split; intros [n E]; [by apply Hself in E|].
      rewrite E in Hy. destruct Hy as (Eq & _). congruence. }
    destruct (r_keys s !! k) as [xk|] eqn:Hxk.
    + destruct Hk as (_ & Esub & Enb & Ewow). destruct (Hwf k xk Hxk) as [K1 K2 K3 K4 K5 K6 K7 K8 K9 K10]. rewrite <- Esub in K2, K3, K4, K7.
      constructor; rewrite ?Ekids, ?Enb, ?Ewow; try done. destruct (k_name y) as [[? ?]|]; [done|]. by destruct Hy as (-> & _).
    + destruct Hk as (Esub & Enb & Ewow). constructor; rewrite ?Ekids, ?Esub, ?Enb, ?Ewow; try done; [apply SSorted_nil|by left|].
      intros c. rewrite <- Hk6. by rewrite Esub.
  - (* its parent *)
    rewrite lookup_insert_eq in Hx. injection Hx as <-. destruct P1 as [V1 V2 V3 V4].
    constructor; cbn [k_subkeys k_nb_subkeys k_wow6432node k_flags k_name set_wow set_subkeys]; try done.
    + intros c. rewrite En. case_decide as E.
      * subst c. destruct (k_name y) as [[n q]|].
        -- destruct Hy as (-> & _ & ->). split; [by exists n|by left].
        -- destruct Hy as (_ & _ & ->). split; [by intros []|by intros [? ?]].
      * rewrite <- P6. destruct (k_name y) as [[n q]|]; destruct Hy as (_ & _ & ->); naive_solver.
    + intros _. destruct (P10 Hnp) as [lp Hlp]. exists lp. apply Hpath; [done|]. by left.
  - (* another key *)
    rewrite lookup_insert_ne in Hx by done. destruct (Hwf c x Hx) as [C1 C2 C3 C4 C5 C6 C7 C8 C9 C10].
    assert (Hkc : k ∉ k_subkeys x).
    { intros (n & E)%C6. unfold name_of in E. destruct (r_keys s !! k) as [xk|]; [|done]. destruct Hk as ((o & Eo) & _). cbn in E. congruence. }
    assert (Ekids : kname s' <$> k_subkeys x = kname s <$> k_subkeys x).
    { apply list_fmap_ext. intros i c' Hc'. apply Ekn. intros ->. by apply list_elem_of_lookup_2 in Hc'. }
    constructor; rewrite ?Ekids; try done.
    + intros c'. rewrite En. case_decide as E; [|apply C6]. subst c'. split; [by intros ?|]. intros [n E].
      rewrite E in Hy. destruct Hy as (Eq & _). congruence.
    + intros Hn. destruct (C10 Hn) as [l' Hl']. exists l'. apply Hpath; auto.
Qed.

(** ** Unlinking *)

Lemma index_of_spec k l i : index_of k l = Some i → l !! i = Some k.
Proof.
  unfold index_of. destruct (list_find _ l) as [[j x]|] eqn:E; [|done]. cbn. intros [= <-].
  apply list_find_Some in E as (Hx & Ek & _). by rewrite Hx, Ek.
Qed.

Lemma index_of_elem k l : k ∈ l → ∃ i, index_of k l = Some i.
Proof.
  intros Hk. unfold index_of. destruct (list_find_elem_of (k =.) l k Hk eq_refl) as [[j x] ->]. by exists j.
Qed.

(** Where a subkey was removed. *)
Definition without (k : Z) (wow : option Z) : option Z := if bool_decide (wow = Some k) then None else wow.

Lemma unlink_named_object_ok s w k xk n p xp :
  r_keys s !! k = Some xk → k_name xk = Some (n, Some p) → k ≠ p → r_keys s !! p = Some xp → k ∈ k_subkeys xp →
  Z.of_nat (length (k_subkeys xp)) ≤ k_nb_subkeys xp → k_nb_subkeys xp = 0 ∨ MIN_SUBKEYS ≤ k_nb_subkeys xp →
  wp (unlink_named_object k) s w (λ _ s' w', w_error w' = w_error w ∧ ∃ i nb, k_subkeys xp !! i = Some k ∧
    Z.of_nat (length (k_subkeys xp)) - 1 ≤ nb ∧ (nb = 0 ∨ MIN_SUBKEYS ≤ nb) ∧
    s' = relinked s k (set_name None xk) p
           (set_wow (without k (k_wow6432node xp)) (set_subkeys (delete_at (Z.of_nat i) (k_subkeys xp)) nb xp))).
Proof.
  intros Hk Hn Hkp Hp Hin Hroom Hnb. unfold unlink_named_object. rewrite wp_bind. eapply wp_read_key; [done|]. rewrite Hn.
  rewrite wp_bind. unfold put_key. rewrite wp_modify. unfold key_unlink_name. rewrite wp_bind. eapply wp_read_key; [cbn; by rewrite lookup_insert_ne|].
  destruct (index_of_elem k _ Hin) as [i Hi]. rewrite Hi. cbn [of_option]. rewrite wp_bind, wp_ret, wp_bind. unfold put_key at 1. rewrite wp_modify, wp_bind.
  eapply wp_read_key; [apply lookup_insert_eq|]. rewrite wp_bind. cbn [k_nb_subkeys k_subkeys set_wow set_subkeys].
  apply index_of_spec in Hi.
  assert (Hlen : S (length (delete_at (Z.of_nat i) (k_subkeys xp))) = length (k_subkeys xp)).
  { apply (Permutation_length (delete_at_perm (Z.of_nat i) k (k_subkeys xp) ltac:(lia) ltac:(by rewrite Nat2Z.id))). }
  eapply wp_mono; [apply shrink_ok; unfold MIN_SUBKEYS in *; lia|]. intros nb s' w' (-> & Hw & Hlt & Hmin). unfold put_key. rewrite wp_modify.
  split; [done|]. exists i, nb. split_and!; [done|lia|done|]. unfold relinked, on_keys. cbn. f_equal.
  rewrite insert_insert_eq. by rewrite insert_insert_ne.
Qed.
(** ** Deleting *)

(** What becomes of a key when others are deleted: it is kept, with its place and its
    values, or it is gone. *)
Definition kept (y y' : key) : Prop :=
  k_name y' = k_name y ∧ k_class y' = k_class y ∧ k_values y' = k_values y ∧ k_nb_values y' = k_nb_values y ∧
  (k_flags y' = k_flags y ∨ k_flags y' = Z.lor (k_flags y) KEY_DIRTY).
Definition gone (y : key) : Prop := k_name y = None ∧ has (k_flags y) KEY_DELETED = true.
Definition pruned (s s' : registry) : Prop :=
  r_time s' = r_time s ∧
  ∀ c, match r_keys s !! c, r_keys s' !! c with
       | Some y, Some y' => kept y y' ∨ gone y'
       | None, None => True
       | _, _ => False
       end.
Definition keeps (s s' : registry) (c : Z) : Prop :=
  ∀ y, r_keys s !! c = Some y → ∃ y', r_keys s' !! c = Some y' ∧ kept y y'.
(** [c] is [k] or below it. *)
Definition below (s : registry) (k c : Z) : Prop := ∃ l, path s c l ∧ k ∈ l.

Lemma kept_refl y : kept y y.
Proof. repeat split; by left. Qed.

Lemma kept_trans x y z : kept x y → kept y z → kept x z.
Proof.
  intros (A1 & A2 & A3 & A4 & A5) (B1 & B2 & B3 & B4 & B5). repeat (split; [congruence|]).
  destruct A5 as [A5|A5], B5 as [B5|B5]; rewrite B5, A5; auto. right. apply lor_twice.
Qed.

Lemma kept_gone y y' : kept y y' → gone y → gone y'.
Proof.
  intros (E & _ & _ & _ & Ef) [En Ed]. split; [congruence|]. destruct Ef as [-> | ->]; [done|]. by rewrite has_dirty_deleted.
Qed.

Lemma touched_kept y y' : touched y y' → kept y y'.
Proof. intros (T1 & T2 & T3 & T4 & T5 & T6 & T7 & T8). by repeat split. Qed.

Lemma keeps_trans s1 s2 s3 c : keeps s1 s2 c → keeps s2 s3 c → keeps s1 s3 c.
Proof. intros H1 H2 y Hy. destruct (H1 y Hy) as (y2 & Hy2 & K1). destruct (H2 y2 Hy2) as (y3 & Hy3 & K2). exists y3. split; [done|]. by eapply kept_trans. Qed.

Lemma pruned_trans s1 s2 s3 : pruned s1 s2 → pruned s2 s3 → pruned s1 s3.
Proof.
  intros [A1 A2] [B1 B2]. split; [congruence|]. intros c. specialize (A2 c). specialize (B2 c).
  destruct (r_keys s1 !! c), (r_keys s2 !! c), (r_keys s3 !! c); try done.
  destruct B2 as [B2|B2]; [|by right]. destruct A2 as [A2|A2]; [left; by eapply kept_trans|right; by eapply kept_gone].
Qed.

Lemma touched_only_keeps s s' c : touched_only s s' → keeps s s' c.
Proof. intros Ht y Hy. destruct (touched_key _ _ _ _ Ht Hy) as (y' & Hy' & K). exists y'. split; [done|]. by apply touched_kept. Qed.

Lemma touched_only_pruned s s' : touched_only s s' → pruned s s'.
Proof.
  intros Ht. split; [apply Ht|]. intros c. pose proof (proj2 Ht c) as Hc. destruct (r_keys s !! c), (r_keys s' !! c); try done.
  left. by apply touched_kept.
Qed.

Lemma pruned_refl s : pruned s s.
Proof. apply touched_only_pruned, touched_only_refl. Qed.

Lemma pruned_size s s' : pruned s s' → size (r_keys s') = size (r_keys s).
Proof.
  intros [_ Hp]. rewrite <- !size_dom. f_equal. apply set_eq. intros k. rewrite !elem_of_dom. specialize (Hp k).
  destruct (r_keys s !! k), (r_keys s' !! k); try done; split; intros [? ?]; eauto; done.
Qed.

(** A key that still has a name has kept it. *)
Lemma pruned_name s s' c q : pruned s s' → name_of s' c = Some q → name_of s c = Some q.
Proof.
  intros [_ Hp] E. specialize (Hp c). unfold name_of in *. destruct (r_keys s !! c) as [y|], (r_keys s' !! c) as [y'|]; try done. cbn in *.
  destruct Hp as [(En & _)|[En _]]; congruence.
Qed.

Lemma pruned_path s s' c l : pruned s s' → path s' c l → path s c l.
Proof.
  intros Hpr Hp. induction Hp as [c E|c p l E Hp IH]; [apply path_root|apply path_step with p; [|done]];
    rewrite parent_of_name in *; destruct (name_of s' c) as [q|] eqn:En; try done; by rewrite (pruned_name _ _ _ _ Hpr En).
Qed.

Lemma pruned_below s s' k c : pruned s s' → below s' k c → below s k c.
Proof. intros Hpr (l & Hp & Hk). exists l. split; [by eapply pruned_path|done]. Qed.

Lemma path_head s k l : path s k l → k ∈ l.
Proof. intros Hp. inversion Hp; subst; set_solver. Qed.

Lemma below_self s k l : path s k l → below s k k.
Proof. intros Hp. exists l. split; [done|]. by eapply path_head. Qed.

Lemma below_parent s c p k : parent_of s c = Some (Some p) → below s k c → c = k ∨ below s k p.
Proof.
  intros E (l & Hp & Hk). inversion Hp as [? E'|? p' l' E' Hp']; subst; [congruence|]. assert (p' = p) as -> by congruence.
  apply elem_of_cons in Hk as [->|Hk]; [by left|right]. by exists l'.
Qed.

Lemma below_kid s c n k d : name_of s c = Some (n, Some k) → below s c d → below s k d ∧ d ≠ k.
Proof.
  intros En (l & Hp & Hc). destruct (path_suffix _ _ _ _ Hp Hc) as (l1 & l2 & -> & Hp2).
  inversion Hp2 as [? E|? p l' E Hp']; subst; rewrite parent_of_name, En in E; cbn in E; [done|]. injection E as <-.
  pose proof (path_head _ _ _ Hp') as Hk. split; [exists (l1 ++ c :: l'); split; [done|set_solver]|].
  intros ->. pose proof (path_fun _ _ _ _ Hp Hp') as El. apply (f_equal length) in El. rewrite length_app in El. cbn in El. lia.
Qed.

(** Nothing remains below a key that is gone. *)
Lemma gone_below s s' k c y' : wf_tree s' → pruned s s' → below s k c →
  (∀ z, r_keys s' !! k = Some z → gone z) → r_keys s' !! c = Some y' → gone y'.
Proof.
  intros Hwf Hpr (l & Hp & Hk) Hgone. revert y'. induction Hp as [c E|c p l E Hp IH]; intros y' Hy'.
  { apply list_elem_of_singleton in Hk as ->. by apply Hgone. }
  apply elem_of_cons in Hk as [->|Hk]; [by apply Hgone|]. specialize (IH Hk).
  pose proof (proj2 Hpr c) as Hc. rewrite Hy' in Hc. destruct (r_keys s !! c) as [y|] eqn:Hy; [|done].
  destruct Hc as [(En & _)|]; [exfalso|done]. unfold parent_of in E. rewrite Hy in E. destruct (k_name y) as [[n q]|] eqn:Eny; [|done].
  cbn in E. injection E as ->. assert (Ec : name_of s' c = Some (n, Some p)) by (rewrite (name_of_key _ _ _ Hy'); congruence).
  destruct (parent_present s' c p Hwf) as [z Hz]; [by rewrite parent_of_name, Ec|].
  pose proof (kid_of_parent s' c n p z Hwf Ec Hz) as Hin. destruct (IH z Hz) as [Ezn _].
  rewrite (wk_empty _ _ _ (Hwf p z Hz) Ezn) in Hin. by apply not_elem_of_nil in Hin.
Qed.

Lemma kids_nodup s k x : wf_tree s → r_keys s !! k = Some x → NoDup (k_subkeys x).
Proof.
  intros Hwf Hx. pose proof (sorted_nodup casemap (kname s) _ (wk_sorted _ _ _ (Hwf k x Hx))) as Hnd.
  by do 2 apply NoDup_fmap_1 in Hnd.
Qed.

Lemma delete_at_elem (l : list Z) i k : NoDup l → l !! i = Some k → ∀ c, c ∈ delete_at (Z.of_nat i) l ↔ c ≠ k ∧ c ∈ l.
Proof.
  intros Hnd Hi c. assert (Hperm : k :: delete_at (Z.of_nat i) l ≡ₚ l) by (apply delete_at_perm; [lia|by rewrite Nat2Z.id]).
  assert (Hc : c ∈ k :: delete_at (Z.of_nat i) l ↔ c ∈ l) by by rewrite Hperm.
  assert (Hk : k ∉ delete_at (Z.of_nat i) l) by (assert (Hnd' : NoDup (k :: delete_at (Z.of_nat i) l)) by (by rewrite Hperm); by apply NoDup_cons in Hnd' as [? _]).
  rewrite <- Hc, elem_of_cons. split; [intros Hin; split; [by intros ->|by right]|naive_solver].
Qed.

Lemma name_of_flags s k y f : r_keys s !! k = Some y → ∀ c, name_of (on_keys (<[k := set_flags f y]>) s) c = name_of s c.
Proof.
  intros Hy c. unfold name_of. cbn. destruct (decide (c = k)) as [->|]; [by rewrite lookup_insert_eq, Hy|by rewrite lookup_insert_ne].
Qed.

Lemma relinked_lookup s k y p z c : k ≠ p →
  r_keys (relinked s k y p z) !! c = if decide (c = k) then Some y else if decide (c = p) then Some z else r_keys s !! c.
Proof. intros Hkp. cbn. rewrite !lookup_insert. repeat case_decide; congruence. Qed.

Lemma marked_relink s k y p z xp c :
  k ≠ p → r_keys s !! p = Some xp → k_flags z = k_flags xp → marked s c → c ≠ k → marked (relinked s k y p z) c.
Proof.
  intros Hkp Hp Ez Hm Hc x Hx. rewrite relinked_lookup in Hx by done. rewrite decide_False in Hx by done.
  case_decide; [subst; injection Hx as <-; rewrite Ez; by apply Hm|by apply Hm].
Qed.

(** The end of [delete_key], when no subkey is left. *)
Lemma finish_delete_ok s w k x n p :
  wf_tree s → dirty_ok s → r_keys s !! k = Some x → k_name x = Some (n, Some p) → k_subkeys x = [] →
  wp (put_key k (set_flags (Z.lor (k_flags x) KEY_DELETED) x) >>
      unlink_named_object k >> touch_key p REG_NOTIFY_CHANGE_NAME >> ret true) s w (λ ok s' w',
    ok = true ∧ w_error w' = w_error w ∧ wf_tree s' ∧ dirty_ok s' ∧ pruned s s' ∧ (∀ c, c ≠ k → keeps s s' c) ∧
    (∀ z, r_keys s' !! k = Some z → gone z)).
Proof.
  intros Hwf Hd Hx Hn Hsub. assert (En : name_of s k = Some (n, Some p)) by by rewrite (name_of_key _ _ _ Hx).
  assert (Ep : parent_of s k = Some (Some p)) by by rewrite parent_of_name, En.
  destruct (parent_present s k p Hwf Ep) as [xp Hxp]. pose proof (Hwf k x Hx) as Wk. pose proof (Hwf p xp Hxp) as Wp.
  destruct (wk_path _ _ _ Wk) as [lk Hlk]; [congruence|]. assert (Hkp : k ≠ p) by (intros ->; by apply (not_own_parent s p lk)).
  assert (Hin : k ∈ k_subkeys xp) by (apply (wk_kids _ _ _ Wp); by exists n).
  assert (Hlp : ∃ lp, path s p lp) by (inversion Hlk; subst; [congruence|]; assert (p0 = p) as -> by congruence; eauto).
  destruct Hlp as [lp Hlp].
  assert (Hpn : k_name xp ≠ None) by (intros E; pose proof (wk_empty _ _ _ Wp E) as E'; rewrite E' in Hin; by apply not_elem_of_nil in Hin).
  rewrite wp_bind. unfold put_key. rewrite wp_modify. set (x1 := set_flags _ x). set (s1 := on_keys _ s). rewrite wp_bind.
  eapply wp_mono; [apply (unlink_named_object_ok s1 w k x1 n p xp)|]; try done.
  { apply lookup_insert_eq. }
  { cbn. by rewrite lookup_insert_ne. }
  { apply Wp. }
  { apply Wp. }
  intros _ s2 w2 (Hw2 & i & nb & Hi & Hnb & Hmin & Es2). set (y := set_name None x1) in *.
  set (z := set_wow _ _) in *. assert (E2 : s2 = relinked s k y p z).
  { rewrite Es2. unfold relinked, s1, on_keys. cbn. f_equal. rewrite (insert_insert_ne _ p k) by done. by rewrite insert_insert_eq. }
  clear Es2. assert (Hperm : k :: delete_at (Z.of_nat i) (k_subkeys xp) ≡ₚ k_subkeys xp).
  { apply delete_at_perm; [lia|by rewrite Nat2Z.id]. }
  pose proof (delete_at_elem _ _ _ (kids_nodup s p xp Hwf Hxp) Hi) as Hel.
  assert (Hnames : kname s2 <$> delete_at (Z.of_nat i) (k_subkeys xp) = delete_at (Z.of_nat i) (kname s <$> k_subkeys xp)).
  { rewrite <- delete_at_fmap. apply list_fmap_ext. intros j c Hc%list_elem_of_lookup_2. apply Hel in Hc as [Hc _].
    rewrite !kname_of, E2, (relinked_names s k y p z xp c) by done. by rewrite decide_False. }
  assert (Hwf2 : wf_tree s2).
  { rewrite E2. unfold z. eapply wf_relink; try done.
    - rewrite Hx. split; [by exists n|done].
    - cbn. split_and!; [done|by rewrite has_lor, orb_true_r|done].
    - destruct (wk_values _ _ _ Wk). by constructor.
    - fold z; rewrite <- E2, Hnames. apply delete_sorted, Wp.
    - fold z; rewrite <- E2, Hnames. unfold delete_at. apply Forall_app. split; [apply Forall_take, Wp|apply Forall_drop, Wp].
    - pose proof (Permutation_length Hperm) as El. cbn in El. lia.
    - intros c. unfold without. case_bool_decide; [done|]. intros Ec. apply Hel. split; [congruence|]. by apply (wk_wow _ _ _ Wp). }
  assert (Hd2 : dirty_ok s2).
  { intros c u q Hu H1 H2 Eq. rewrite E2 in Hu, Eq |- *. rewrite parent_of_name, (relinked_names s k y p z xp c) in Eq by done.
    rewrite relinked_lookup in Hu by done. case_decide as Ec; [done|]. rewrite <- parent_of_name in Eq.
    assert (Hqk : q ≠ k).
    { intros ->. rewrite parent_of_name in Eq. destruct (name_of s c) as [[m q]|] eqn:Ecn; [|done]. cbn in Eq. injection Eq as ->.
      pose proof (kid_of_parent s c m k x Hwf Ecn Hx) as Hc. rewrite Hsub in Hc. by apply not_elem_of_nil in Hc. }
    eapply marked_relink; try done. case_decide as Ecp; [|by eapply (Hd c u)]. subst c. injection Hu as <-. by eapply (Hd p xp). }
  assert (Hpr2 : pruned s s2).
  { rewrite E2. split; [done|]. intros c. rewrite relinked_lookup by done. case_decide; [subst c; rewrite Hx; right; split; [done|]|case_decide].
    - cbn. by rewrite has_lor, orb_true_r.
    - subst c. rewrite Hxp. left. repeat split. by left.
    - destruct (r_keys s !! c); [left; apply kept_refl|done]. }
  assert (Hlp2 : path s2 p lp).
  { apply (path_parents s); [done|]. intros c Hc. rewrite E2, !parent_of_name, (relinked_names s k y p z xp c) by done.
    rewrite decide_False; [done|]. intros ->. assert (Hpk : path s k (k :: lp)) by by eapply path_step.
    apply path_nodup, NoDup_cons in Hpk as [? _]. done. }
  rewrite wp_bind. eapply wp_mono; [apply (touch_key_ok casemap s2 w2 p lp z)|]; [done| |by apply dirty_ok_but|].
  { rewrite E2, relinked_lookup by done. rewrite decide_False by done. by rewrite decide_True. }
  intros _ s3 w3 (-> & Ht & Hd3 & _). apply wp_ret. split_and!; [done|done|by eapply wf_tree_touched|done| | |].
  - eapply pruned_trans; [done|]. by apply touched_only_pruned.
  - intros c Hc. apply keeps_trans with s2; [|by apply touched_only_keeps]. intros u Hu. rewrite E2, relinked_lookup by done.
    rewrite decide_False by done. case_decide; [subst c|by exists u; split; [|apply kept_refl]]. exists z. split; [done|].
    rewrite Hxp in Hu. injection Hu as <-. repeat split. by left.
  - intros u Hu. assert (Hy2 : r_keys s2 !! k = Some y) by (rewrite E2, relinked_lookup by done; by rewrite decide_True).
    destruct (touched_only_keeps _ _ k Ht y Hy2) as (u' & Hu' & K). assert (u' = u) as -> by congruence.
    eapply kept_gone; [exact K|]. split; [done|]. cbn. by rewrite has_lor, orb_true_r.
Qed.
(** The state after deleting [k], or what is below it if [strict]: no other key is
    gone, and if it failed there was a predefined key below. *)
Definition predef_below (s : registry) (k : Z) : Prop :=
  ∃ c y, below s k c ∧ r_keys s !! c = Some y ∧ has (k_flags y) KEY_PREDEF = true.
Definition delete_post (strict : bool) (k : Z) (s : registry) (w : world) (ok : bool) (s' : registry) (w' : world) : Prop :=
  wf_tree s' ∧ dirty_ok s' ∧ pruned s s' ∧
  (∀ c, ¬ (below s k c ∧ (strict = true → c ≠ k)) → keeps s s' c) ∧
  if ok then w_error w' = w_error w ∧
    (∀ z, r_keys s' !! k = Some z → if strict then k_subkeys z = [] else gone z)
  else w_error w' = STATUS_INVALID_HANDLE ∧ predef_below s k.

Lemma keeps_name s s' c : keeps s s' c → is_Some (r_keys s !! c) → name_of s' c = name_of s c.
Proof. intros Hk [y Hy]. destruct (Hk y Hy) as (y' & Hy' & (E & _)). by rewrite (name_of_key _ _ _ Hy), (name_of_key _ _ _ Hy'). Qed.

Lemma pruned_predef s s' k : pruned s s' → wf_tree s' → predef_below s' k → predef_below s k.
Proof.
  intros Hpr Hwf (c & y' & Hb & Hy' & Hf). exists c. pose proof (proj2 Hpr c) as Hc. rewrite Hy' in Hc.
  destruct (r_keys s !! c) as [y|] eqn:Hy; [|done]. exists y. split_and!; [by eapply pruned_below|done|].
  destruct Hc as [(_ & _ & _ & _ & [E|E])|[En _]].
  - congruence.
  - rewrite E, has_lor in Hf. by rewrite orb_false_r in Hf.
  - destruct Hb as (l & Hl & _). inversion Hl as [? E|? ? ? E]; subst; unfold parent_of in E; rewrite Hy', En in E; done.
Qed.

Lemma predef_kid s c n k : name_of s c = Some (n, Some k) → predef_below s c → predef_below s k.
Proof. intros En (d & y & Hb & Hy & Hf). exists d, y. split; [by eapply below_kid|done]. Qed.

Lemma delete_subkeys_ok del m s w k l x :
  (∀ s1 w1 c n, wf_tree s1 → dirty_ok s1 → name_of s1 c = Some (n, Some k) → path s1 c (c :: l) →
    size (r_keys s1) = size (r_keys s) → wp (del c) s1 w1 (delete_post false c s1 w1)) →
  wf_tree s → dirty_ok s → path s k l → r_keys s !! k = Some x → (length (k_subkeys x) ≤ m)%nat →
  wp (delete_subkeys del k m) s w (delete_post true k s w).
Proof.
  revert s w x. induction m as [|m IH]; intros s w x Hdel Hwf Hd Hp Hx Hm.
  - destruct (k_subkeys x) as [|? ?] eqn:E; [|cbn in Hm; lia]. cbn [delete_subkeys]. rewrite wp_bind. eapply wp_read_key; [done|]. rewrite E.
    apply wp_ret. split_and!; [done|done|apply pruned_refl| |done|].
    + intros c _ y Hy. exists y. split; [done|apply kept_refl].
    + intros z Hz. congruence.
  - cbn [delete_subkeys]. rewrite wp_bind. eapply wp_read_key; [done|]. destruct (last (k_subkeys x)) as [c|] eqn:El; cycle 1.
    { apply last_None in El. apply wp_ret. split_and!; [done|done|apply pruned_refl| |done|].
      - intros d _ y Hy. exists y. split; [done|apply kept_refl].
      - intros z Hz. congruence. }
    assert (Hc : c ∈ k_subkeys x) by (by apply last_Some_elem_of). destruct (kid_named s k x c Hwf Hx Hc) as (xc & n & Hxc & Enc).
    assert (En : name_of s c = Some (n, Some k)) by by rewrite (name_of_key _ _ _ Hxc).
    rewrite wp_bind. eapply wp_mono; [apply (Hdel s w c n); [done|done|done| |done]|].
    { apply path_step with k; [by rewrite parent_of_name, En|done]. }
    intros ok s1 w1 (Hwf1 & Hd1 & Hpr1 & Hkeep1 & Hok).
    assert (Hkeep : ∀ d, ¬ (below s k d ∧ (true = true → d ≠ k)) → keeps s s1 d).
    { intros d Hd'. apply Hkeep1. intros [Hb _]. destruct Hd'. destruct (below_kid s c n k d En Hb). auto. }
    destruct ok; cbn [negb]; cycle 1.
    { apply wp_ret. destruct Hok as [He Hpre]. split_and!; [done|done|done|done|done|]. by eapply predef_kid. }
    destruct Hok as [Hw1 Hgone]. assert (Hkk : keeps s s1 k) by (apply Hkeep; naive_solver).
    destruct (Hkk x Hx) as (x1 & Hx1 & K1).
    assert (Hp1 : path s1 k l).
    { apply (path_parents s); [done|]. intros d Hin. rewrite !parent_of_name. f_equal. apply keeps_name; [|by eapply path_present].
      apply Hkeep1. intros [Hb _]. destruct (below_kid s c n k d En Hb) as [(ld & Hld & Hkd) Hne].
      destruct (path_suffix _ _ _ _ Hp Hin) as (l1 & l2 & -> & Hd2). pose proof (path_fun _ _ _ _ Hld Hd2) as ->.
      destruct (path_suffix _ _ _ _ Hd2 Hkd) as (l3 & l4 & -> & Hk4). pose proof (path_fun _ _ _ _ Hp Hk4) as Eq.
      apply (f_equal length) in Eq. rewrite !length_app in Eq. assert (l3 = []) as -> by (destruct l3; [done|cbn in Eq; lia]).
      cbn in *. inversion Hld; inversion Hk4; subst; congruence. }
    assert (Hlen : (length (k_subkeys x1) ≤ m)%nat).
    { pose proof (kids_nodup s1 k x1 Hwf1 Hx1) as Hnd. assert (Hnot : c ∉ k_subkeys x1).
      { intros (z & n' & Hz & Ez)%(kid_named s1 k x1 c Hwf1 Hx1). destruct (Hgone z Hz) as [Ez' _]. congruence. }
      assert (Hsub : c :: k_subkeys x1 ⊆+ k_subkeys x).
      { apply NoDup_submseteq; [by apply NoDup_cons|]. intros d [->|Hd']%elem_of_cons; [done|].
        destruct (kid_named s1 k x1 d Hwf1 Hx1 Hd') as (z & n' & Hz & Ez).
        apply (kid_of_parent s d n' k x Hwf); [|done]. apply (pruned_name s s1); [done|]. by rewrite (name_of_key _ _ _ Hz). }
      apply submseteq_length in Hsub. cbn in Hsub. lia. }
    eapply wp_mono; [apply (IH s1 w1 x1); try done|].
    { intros s2 w2 d n' ? ? ? ? Hsz. apply (Hdel s2 w2 d n'); try done. rewrite Hsz. by apply pruned_size. }
    intros ok s2 w2 (Hwf2 & Hd2 & Hpr2 & Hkeep2 & Hok). split_and!; [done|done|by eapply pruned_trans| |].
    + intros d Hnb. apply keeps_trans with s1; [by apply Hkeep|]. apply Hkeep2. intros [Hb Hne]. apply Hnb. split; [by eapply pruned_below|done].
    + destruct ok; destruct Hok as [He Hrest]; [split; [congruence|done]|split; [done|by eapply pruned_predef]].
Qed.
Lemma path_named s k l x : path s k l → r_keys s !! k = Some x → k_name x ≠ None.
Proof. intros Hp Hx E. inversion Hp as [? E'|? ? ? E']; subst; unfold parent_of in E'; by rewrite Hx, E in E'. Qed.

Lemma wp_delete_parent k x n p s w Q :
  r_keys s !! k = Some x → k_name x = Some (n, p) → Q p s w → wp (get_parent k) s w Q.
Proof. intros Hx En HQ. apply wp_get_parent with p; [|done]. unfold parent_of. by rewrite Hx, En. Qed.

Lemma not_deleted s k x : wf_tree s → r_keys s !! k = Some x → k_name x ≠ None → has (k_flags x) KEY_DELETED = false.
Proof. intros Hwf Hx En. apply not_true_iff_false. rewrite (wk_deleted _ _ _ (Hwf k x Hx)). done. Qed.

Lemma refl_delete_post strict k s w : wf_tree s → dirty_ok s → predef_below s k →
  delete_post strict k s w false s (World STATUS_INVALID_HANDLE (w_mem w)).
Proof.
  intros Hwf Hd Hpre. split_and!; [done|done|apply pruned_refl| |done|done]. intros d _ y Hy. exists y. split; [done|apply kept_refl].
Qed.

Lemma delete_key_rec_ok n s w k l x nm p :
  wf_tree s → dirty_ok s → path s k l → r_keys s !! k = Some x → k_name x = Some (nm, Some p) →
  (size (r_keys s) < n + length l)%nat →
  wp (delete_key_rec n k true) s w (delete_post false k s w).
Proof.
  revert s w k l x nm p. induction n as [|n IH]; intros s w k l x nm p Hwf Hd Hp Hx En Hn.
  { pose proof (path_length _ _ _ Hp). lia. }
  cbn [delete_key_rec]. rewrite wp_bind. eapply wp_read_key; [done|]. rewrite (not_deleted s k x) by (done || congruence).
  rewrite wp_bind. eapply wp_delete_parent; [done|done|]. destruct (has (k_flags x) KEY_PREDEF) eqn:Epre.
  { wp_run. apply refl_delete_post; [done|done|]. exists k, x. split_and!; [by eapply below_self|done|done]. }
  rewrite wp_bind. eapply wp_mono; [apply (delete_subkeys_ok _ _ s w k l x)|]; try done.
  { intros s1 w1 c n1 Hwf1 Hd1 En1 Hp1 Hsz. unfold name_of in En1. destruct (r_keys s1 !! c) as [y|] eqn:Hy; [|done].
    eapply IH; try done. rewrite Hsz. cbn [length]. lia. }
  intros ok s1 w1 (Hwf1 & Hd1 & Hpr1 & Hkeep1 & Hok). destruct ok; cbn [negb]; cycle 1.
  { apply wp_ret. destruct Hok. split_and!; try done. intros c Hc. apply Hkeep1. naive_solver. }
  destruct Hok as [Hw1 Hsub]. destruct (Hkeep1 k ltac:(naive_solver) x Hx) as (x1 & Hx1 & K1). rewrite wp_bind. eapply wp_read_key; [done|].
  eapply wp_mono; [apply (finish_delete_ok s1 w1 k x1 nm p); [done|done|done| |by apply Hsub]|]; [by destruct K1 as (-> & _)|].
  intros ok s2 w2 (-> & Hw2 & Hwf2 & Hd2 & Hpr2 & Hkeep2 & Hgone). split_and!; [done|done|by eapply pruned_trans| |congruence|done].
  intros c Hc. assert (Hck : c ≠ k) by (intros ->; apply Hc; split; [by eapply below_self|done]).
  apply keeps_trans with s1; [apply Hkeep1; naive_solver|by apply Hkeep2].
Qed.

Lemma delete_key_ok s w k x recurse
    (Hwf : wf_tree s) (Hd : dirty_ok s) (Hx : r_keys s !! k = Some x) :
  wp (delete_key k recurse) s w (λ ok s' w',
    match k_name x with
    | None => ok = true ∧ s' = s ∧ w' = w
    | Some (_, None) => ok = false ∧ s' = s ∧ w_error w' = STATUS_ACCESS_DENIED
    | Some (_, Some _) =>
        if has (k_flags x) KEY_PREDEF then ok = false ∧ s' = s ∧ w_error w' = STATUS_INVALID_HANDLE else
        if negb recurse && negb (bool_decide (k_subkeys x = [])) then ok = false ∧ s' = s ∧ w_error w' = STATUS_ACCESS_DENIED else
        wf_tree s' ∧ dirty_ok s' ∧ (∀ c, ¬ below s k c → keeps s s' c) ∧
        if ok then w_error w' = w_error w ∧ ∀ c y, r_keys s !! c = Some y → ∃ y', r_keys s' !! c = Some y' ∧
            (below s k c → gone y' ∧ k_subkeys y' = []) ∧
            (¬ below s k c → ∀ d, d ∈ k_subkeys y' ↔ d ∈ k_subkeys y ∧ d ≠ k)
        else recurse = true ∧ w_error w' = STATUS_INVALID_HANDLE ∧ predef_below s k
    end).
Proof.
  destruct (k_name x) as [[nm p]|] eqn:En; cycle 1.
  { unfold delete_key. rewrite wp_bind, wp_get. destruct (size (r_keys s)) as [|n] eqn:Esz.
    { apply map_size_empty_iff in Esz. by rewrite Esz in Hx. }
    cbn [delete_key_rec]. rewrite wp_bind. eapply wp_read_key; [done|].
    rewrite (proj2 (wk_deleted _ _ _ (Hwf k x Hx)) En). by apply wp_ret. }
  destruct (wk_path _ _ _ (Hwf k x Hx)) as [l Hl]; [congruence|]. pose proof (path_length _ _ _ Hl) as Hsz.
  assert (Hlen : (0 < length l)%nat) by (destruct l; [inversion Hl|cbn; lia]).
  assert (Hpost : ∀ ok s' w', delete_post false k s w ok s' w' →
    wf_tree s' ∧ dirty_ok s' ∧ (∀ c, ¬ below s k c → keeps s s' c) ∧
    if ok then w_error w' = w_error w ∧ ∀ c y, r_keys s !! c = Some y → ∃ y', r_keys s' !! c = Some y' ∧
            (below s k c → gone y' ∧ k_subkeys y' = []) ∧
            (¬ below s k c → ∀ d, d ∈ k_subkeys y' ↔ d ∈ k_subkeys y ∧ d ≠ k)
    else w_error w' = STATUS_INVALID_HANDLE ∧ predef_below s k).
  { intros ok s' w' (Hwf' & Hd' & Hpr & Hkeep & Hok). split_and!; [done|done|intros c Hc; apply Hkeep; naive_solver|].
    destruct ok; [|done]. destruct Hok as [Hw Hgone]. split; [done|]. intros c y Hy. pose proof (proj2 Hpr c) as Hc. rewrite Hy in Hc.
    destruct (r_keys s' !! c) as [y'|] eqn:Hy'; [|done]. exists y'. split_and!; [done| |].
    - intros Hb. assert (Hg : gone y') by by eapply gone_below. split; [done|]. by apply (wk_empty _ _ _ (Hwf' c y' Hy')), Hg.
    - intros Hnb d. rewrite (wk_kids _ _ _ (Hwf' c y' Hy')), (wk_kids _ _ _ (Hwf c y Hy)). split.
      + intros [n Ed]. split; [exists n; by eapply pruned_name|]. intros ->. unfold name_of in Ed.
        destruct (r_keys s' !! k) as [z|] eqn:Hz; [|done]. destruct (Hgone z eq_refl) as [Ez _]. cbn in Ed. congruence.
      + intros [[n Ed] Hdk]. exists n. rewrite <- Ed. apply keeps_name.
        * apply Hkeep. intros [Hb _]. destruct (below_parent s d c k) as [?|?]; [by rewrite parent_of_name, Ed|done|done|done].
        * unfold name_of in Ed. destruct (r_keys s !! d); [eauto|done]. }
  unfold delete_key. rewrite wp_bind, wp_get. destruct (size (r_keys s)) as [|n] eqn:Esz; [lia|].
  assert (Hnd : has (k_flags x) KEY_DELETED = false) by (apply (not_deleted s k x); [done|done|congruence]).
  destruct p as [p|]; cycle 1.
  { cbn [delete_key_rec]. rewrite wp_bind. eapply wp_read_key; [done|]. rewrite Hnd, wp_bind.
    eapply wp_delete_parent; [done|done|]. by wp_run. }
  destruct (has (k_flags x) KEY_PREDEF) eqn:Epre.
  { cbn [delete_key_rec]. rewrite wp_bind. eapply wp_read_key; [done|]. rewrite Hnd, wp_bind.
    eapply wp_delete_parent; [done|done|]. rewrite Epre. by wp_run. }
  destruct recurse; cbn [negb andb].
  { eapply wp_mono; [eapply delete_key_rec_ok; try done; lia|]. intros ok s' w' Hp'. apply Hpost in Hp' as (? & ? & ? & ?).
    split_and!; [done|done|done|]. by destruct ok. }
  cbn [delete_key_rec]. rewrite wp_bind. eapply wp_read_key; [done|]. rewrite Hnd, wp_bind.
  eapply wp_delete_parent; [done|done|]. rewrite Epre, wp_bind. destruct (k_subkeys x) as [|c cs] eqn:Esub;
    [rewrite bool_decide_eq_true_2 by done|rewrite bool_decide_eq_false_2 by done; by wp_run]. cbn [negb].
  apply wp_ret. cbn [negb]. rewrite wp_bind. eapply wp_read_key; [done|].
  eapply wp_mono; [by apply (finish_delete_ok s w k x nm p)|].
  intros ok s2 w2 (-> & Hw2 & Hwf2 & Hd2 & Hpr2 & Hkeep2 & Hgone). apply (Hpost true s2 w2).
  split_and!; [done|done|done| |done|done]. intros c Hc. apply Hkeep2. intros ->. apply Hc. split; [by eapply below_self|done].
Qed.

(** C25: Deleting a key, on every branch: a key that is deleted already, the root key, a
    predefined key, and without [recurse] a key with subkeys, are left as they are, with
    the documented errors. Otherwise the tree stays well formed and, on success, exactly
    the key and what is below it are gone; every other key keeps its name, its values
    and its subkeys but the deleted one. Recursion fails only at a predefined key. *)
Theorem delete_key_correct s w k x recurse
    (Hwf : wf_tree s) (Hd : dirty_ok s) (Hx : r_keys s !! k = Some x) :
  wp (delete_key k recurse) s w (λ ok s' w',
    match k_name x with
    | None => ok = true ∧ s' = s ∧ w' = w
    | Some (_, None) => ok = false ∧ s' = s ∧ w_error w' = STATUS_ACCESS_DENIED
    | Some (_, Some _) =>
        if has (k_flags x) KEY_PREDEF then ok = false ∧ s' = s ∧ w_error w' = STATUS_INVALID_HANDLE else
        if negb recurse && negb (bool_decide (k_subkeys x = [])) then ok = false ∧ s' = s ∧ w_error w' = STATUS_ACCESS_DENIED else
        wf_tree s' ∧ dirty_ok s' ∧ (∀ c, ¬ below s k c → keeps s s' c) ∧
        if ok then w_error w' = w_error w ∧ ∀ c y, r_keys s !! c = Some y → ∃ y', r_keys s' !! c = Some y' ∧
            (below s k c → gone y' ∧ k_subkeys y' = []) ∧
            (¬ below s k c → ∀ d, d ∈ k_subkeys y' ↔ d ∈ k_subkeys y ∧ d ≠ k)
        else recurse = true ∧ w_error w' = STATUS_INVALID_HANDLE ∧ predef_below s k
    end).
Proof. exact (delete_key_ok s w k x recurse Hwf Hd Hx). Qed.
(** ** Renaming *)

Lemma shift_left_insert (a b : list Z) k j : (1 ≤ j ≤ length b)%nat →
  <[(length a + j)%nat := k]> (shift_left (length a) (length a + j) (a ++ k :: b)) = a ++ take j b ++ k :: drop j b.
Proof.
  intros Hj. unfold shift_left. replace (length a + j - length a)%nat with j by lia.
  rewrite take_app_length, <- Nat.add_1_r, drop_app_add. cbn [drop]. rewrite drop_app_add.
  destruct j as [|j]; [lia|]. cbn [drop]. rewrite drop_0, !insert_app_r. f_equal.
  rewrite insert_app_r_alt by (rewrite length_take; lia). f_equal. rewrite length_take, Nat.min_l, Nat.sub_diag by lia.
  destruct (drop j b) as [|c d] eqn:Ed; [apply (f_equal length) in Ed; rewrite length_drop in Ed; cbn in Ed; lia|].
  cbn. f_equal. by rewrite <- (Nat.add_1_r j), <- drop_drop, Ed.
Qed.

Lemma shift_right_insert (a1 a2 b : list Z) k : a2 ≠ [] →
  <[length a1 := k]> (shift_right (length a1) (length (a1 ++ a2)) ((a1 ++ a2) ++ k :: b)) = a1 ++ k :: a2 ++ b.
Proof.
  intros Ha. unfold shift_right. rewrite <- (app_assoc a1), drop_app_length.
  rewrite length_app, Nat.add_comm, Nat.add_sub, take_app_length.
  rewrite <- (Nat.add_1_r (length a1)), take_app_add.
  replace (S (length a2 + length a1)) with (length a1 + (length a2 + 1))%nat by lia. rewrite !drop_app_add. cbn [drop].
  destruct a2 as [|c a2]; [done|]. cbn [take app]. rewrite <- app_assoc, insert_app_r_alt by done. rewrite Nat.sub_diag. cbn. done.
Qed.

(** Unless the new place is just after the old one, the key moves to it. *)
Lemma move_gap_ok (s : registry) w l cur index k nb Q :
  l !! cur = Some k → 0 ≤ index ≤ Z.of_nat (length l) → index ≠ Z.of_nat cur + 1 →
  Q (insert_at (if Z.of_nat cur <? index then index - 1 else index) k (delete_at (Z.of_nat cur) l)) s w →
  wp (store_at (S := registry) (move_gap cur index l).2 k (move_gap cur index l).1 nb) s w Q.
Proof.
  intros Hl Hi Hne HQ. pose proof (lookup_lt_Some _ _ _ Hl) as Hlt. pose proof (take_drop_middle _ _ _ Hl) as El.
  set (a := take cur l) in *. set (b := drop (S cur) l) in *.
  assert (Ea : length a = cur) by (unfold a; rewrite length_take; lia).
  assert (Ed : delete_at (Z.of_nat cur) l = a ++ b).
  { unfold delete_at, a, b. rewrite Nat2Z.id. by replace (S cur) with (cur + 1)%nat by lia. }
  rewrite Ed in HQ. clearbody a b. subst l. rewrite length_app in *. cbn [length] in *.
  assert (Hst : ∀ i l', Z.to_nat i = Z.to_nat i → 0 ≤ i < Z.of_nat (length l') → Q (<[Z.to_nat i := k]> l') s w → wp (store_at (S := registry) i k l' nb) s w Q).
  { intros i l' _ Hil HQ'. unfold store_at. rewrite (proj2 (Z.ltb_lt _ _)) by lia. by apply wp_ret. }
  unfold move_gap. destruct (Z.ltb_spec (Z.of_nat cur) index) as [H1|H1]; cbn [andb].
  - rewrite (proj2 (Z.ltb_lt 1 _)) by lia. cbn [fst snd]. set (j := Z.to_nat (index - 1 - Z.of_nat cur)).
    assert (Ej : Z.to_nat (index - 1) = (length a + j)%nat) by lia. rewrite Ej. subst cur.
    apply Hst; [done| |].
    + unfold shift_left. rewrite !length_app, !length_take, !length_drop, length_app. cbn [length]. lia.
    + rewrite Ej, shift_left_insert by lia. unfold insert_at in HQ. rewrite Ej in HQ.
      by rewrite take_app_add, drop_app_add, <- app_assoc in HQ.
  - destruct (Z.ltb_spec index (Z.of_nat cur)) as [H2|H2]; cbn [fst snd].
    + set (i := Z.to_nat index). assert (Hi0 : 0 ≤ index) by lia.
      assert (E1 : length (take i a) = i) by (rewrite length_take; lia).
      assert (E2 : drop i a ≠ []) by (intros E; apply (f_equal length) in E; rewrite length_drop in E; cbn in E; lia).
      rewrite <- (take_drop i a) in HQ, Ea |- *. set (a1 := take i a) in *. set (a2 := drop i a) in *. clear Hl Hi Hlt Ed.
      clearbody a1 a2. subst cur. apply Hst; [done| |].
      * unfold shift_right. rewrite !length_app, !length_take, !length_drop, !length_app in *. cbn [length] in *. lia.
      * fold i. rewrite <- E1. rewrite shift_right_insert by done. unfold insert_at in HQ. fold i in HQ. rewrite <- E1 in HQ.
        by rewrite <- app_assoc, take_app_length, drop_app_length in HQ.
    + assert (index = Z.of_nat cur) as -> by lia. apply Hst; [done|rewrite length_app; cbn; lia|].
      rewrite Nat2Z.id. unfold insert_at in HQ. rewrite Nat2Z.id in HQ. subst cur. rewrite take_app_length, drop_app_length in HQ.
      by rewrite insert_app_r_alt, Nat.sub_diag by done.
Qed.
Lemma delete_at_delete {A} i (l : list A) : delete_at (Z.of_nat i) l = delete i l.
Proof. unfold delete_at. rewrite Nat2Z.id, delete_take_drop. by rewrite Nat.add_1_r. Qed.

(** Removing the old name moves the place of the new one. *)
Lemma located_delete names cur old new index :
  names !! cur = Some old → located casemap names new false index → index ≠ Z.of_nat cur + 1 →
  located casemap (delete_at (Z.of_nat cur) names) new false (if Z.of_nat cur <? index then index - 1 else index).
Proof.
  intros Hc (Hi & Hlo & Hhi) Hne. rewrite delete_at_delete. pose proof (lookup_lt_Some _ _ _ Hc) as Hlt.
  split; [rewrite length_delete by done; destruct (Z.ltb_spec (Z.of_nat cur) index); lia|].
  split; intros j a Hj Ha; destruct (Z.ltb_spec (Z.of_nat cur) index); rewrite list_lookup_delete in Ha; case_decide.
  - apply (Hlo j); [lia|done].
  - apply (Hlo (j + 1)); [lia|]. by replace (Z.to_nat (j + 1)) with (S (Z.to_nat j)) by lia.
  - apply (Hlo j); [lia|done].
  - apply (Hlo (j + 1)); [lia|]. by replace (Z.to_nat (j + 1)) with (S (Z.to_nat j)) by lia.
  - lia.
  - apply (Hhi (j + 1)); [lia|]. by replace (Z.to_nat (j + 1)) with (S (Z.to_nat j)) by lia.
  - apply (Hhi j); [lia|done].
  - apply (Hhi (j + 1)); [lia|]. by replace (Z.to_nat (j + 1)) with (S (Z.to_nat j)) by lia.
Qed.

(** [new] sorts after the name of [k], with no sibling between. *)
Definition sorts_next (s : registry) (k p : Z) (new : list Z) : Prop :=
  name_lt casemap (kname s k) new ∧
  ∀ c n, name_of s c = Some (n, Some p) → ¬ (name_lt casemap (kname s k) n ∧ name_lt casemap n new).

Lemma kid_name s k x i c : wf_tree s → r_keys s !! k = Some x → k_subkeys x !! i = Some c →
  (kname s <$> k_subkeys x) !! i = Some (kname s c) ∧ name_of s c = Some (kname s c, Some k).
Proof.
  intros Hwf Hx Hi. split; [by rewrite list_lookup_fmap, Hi|]. apply list_elem_of_lookup_2 in Hi.
  destruct (kid_named s k x c Hwf Hx Hi) as (y & n & Hy & En). assert (E : name_of s c = Some (n, Some k)) by by rewrite (name_of_key _ _ _ Hy).
  by rewrite kname_of, E.
Qed.

Lemma sorts_next_place s k p xp cur index new : wf_tree s → r_keys s !! p = Some xp → k_subkeys xp !! cur = Some k →
  located casemap (kname s <$> k_subkeys xp) new false index → (index = Z.of_nat cur + 1 ↔ sorts_next s k p new).
Proof.
  intros Hwf Hxp Hcur (Hi & Hlo & Hhi). pose proof (wk_sorted _ _ _ (Hwf p xp Hxp)) as Hs.
  destruct (kid_name s p xp cur k Hwf Hxp Hcur) as [Hck Enk]. rewrite length_fmap in Hi. split.
  - intros ->. split; [by apply (Hlo (Z.of_nat cur)); [lia|rewrite Nat2Z.id]|]. intros c n En [H1 H2].
    pose proof (kid_of_parent s c n p xp Hwf En Hxp) as [j Hj]%list_elem_of_lookup.
    destruct (kid_name s p xp j c Hwf Hxp Hj) as [Hcj Ecj]. assert (kname s c = n) as <- by congruence.
    destruct (lt_eq_lt_dec j cur) as [[Hlt| ->]|Hgt].
    + apply (name_lt_irrefl casemap (kname s c) (kname s c) eq_refl). transitivity (kname s k); [|done]. by eapply sorted_lookup.
    + assert (c = k) as -> by congruence. by apply (name_lt_irrefl casemap (kname s k) (kname s k)).
    + apply (name_lt_irrefl casemap new new eq_refl). transitivity (kname s c); [|done]. apply (Hhi (Z.of_nat j)); [lia|by rewrite Nat2Z.id].
  - intros [Hlt Hno]. destruct (decide (index ≤ Z.of_nat cur)) as [Hle|Hgt].
    + destruct (name_lt_irrefl casemap new new eq_refl). transitivity (kname s k); [|done]. apply (Hhi (Z.of_nat cur)); [lia|by rewrite Nat2Z.id].
    + destruct (decide (index = Z.of_nat cur + 1)); [done|]. exfalso.
      destruct (lookup_lt_is_Some_2 (k_subkeys xp) (S cur)) as [c Hc]; [lia|]. destruct (kid_name s p xp (S cur) c Hwf Hxp Hc) as [Hcc Ec].
      apply (Hno c (kname s c) Ec). split; [eapply (sorted_lookup casemap _ cur (S cur)); [done|done|done|lia]|].
      apply (Hlo (Z.of_nat (S cur))); [lia|by rewrite Nat2Z.id].
Qed.

Lemma get_path_element_spec name : 0 ≤ get_path_element name ∧
  if bool_decide (92 ∈ name) then get_path_element name < wlen name else get_path_element name = wlen name.
Proof.
  unfold wlen. induction name as [|c name IH]; [done|]. cbn [get_path_element length]. destruct (Z.eqb_spec c 92) as [->|Hne].
  - rewrite bool_decide_eq_true_2 by set_solver. lia.
  - assert (E : bool_decide (92 ∈ c :: name) = bool_decide (92 ∈ name)) by (apply bool_decide_ext; set_solver).
    rewrite E. destruct IH as [Hpos IH]. split; [lia|]. destruct (bool_decide (92 ∈ name)); lia.
Qed.

(** Names that are not a single element of at most [MAX_NAME_LEN] characters. *)
Definition bad_name (new : list Z) : bool := bool_decide (new = [] ∨ 92 ∈ new ∨ MAX_NAME_LEN * 2 < wlen new).

Lemma bad_name_spec new :
  (get_path_element new =? 0) || negb (get_path_element new =? wlen new) || (MAX_NAME_LEN * 2 <? get_path_element new) = bad_name new.
Proof.
  unfold bad_name. destruct (get_path_element_spec new) as [H0 H]. destruct (decide (new = [])) as [->|Hne].
  { by rewrite bool_decide_eq_true_2 by auto. }
  assert (Hlen : 0 < wlen new) by (destruct new; [done|unfold wlen; cbn; lia]).
  destruct (decide (92 ∈ new)) as [Hin|Hnot].
  - rewrite (bool_decide_eq_true_2 (_ ∨ _)) by auto. rewrite bool_decide_eq_true_2 in H by done.
    destruct (Z.eqb_spec (get_path_element new) 0), (Z.eqb_spec (get_path_element new) (wlen new)); cbn; try done; lia.
  - rewrite (bool_decide_eq_false_2 (92 ∈ new)) in H by done. rewrite H. rewrite (proj2 (Z.eqb_neq _ 0)), Z.eqb_refl by lia. cbn [negb orb].
    destruct (Z.ltb_spec (MAX_NAME_LEN * 2) (wlen new)); [by rewrite bool_decide_eq_true_2 by auto|].
    rewrite bool_decide_eq_false_2; [done|]. intros [?|[?|?]]; try done; lia.
Qed.

Lemma named_map_ext (f g : Z → list Z) l : (∀ c, c ∈ l → f c = g c) → named_map casemap f l = named_map casemap g l.
Proof. intros H. unfold named_map. f_equal. apply list_fmap_ext. intros i c Hc%list_elem_of_lookup_2. by rewrite H. Qed.

Lemma touched_children s s' p : touched_only s s' → children s' p = children s p.
Proof.
  intros Ht. unfold children. pose proof (proj2 Ht p) as Hp. destruct (r_keys s !! p), (r_keys s' !! p); try done.
  destruct Hp as (_ & _ & -> & _). apply named_map_ext. intros c _. by apply touched_knames.
Qed.
(** The first part of [rename_key], up to the moves. *)
Definition wow_of (s : registry) (p : Z) : option Z := r_keys s !! p ≫= k_wow6432node.

Lemma rename_key_run s w k x n p xp new found index cur (Q : unit → registry → world → Prop) :
  wf_tree s → r_keys s !! k = Some x → k_name x = Some (n, Some p) → r_keys s !! p = Some xp →
  k_subkeys xp !! cur = Some k → bad_name new = false →
  find_subkey casemap xp new s w = Some ((found, index), s, w) →
  (if found is Some _ then Q tt s (World STATUS_CANNOT_DELETE (w_mem w)) else
   if bool_decide (wow_of s p = Some k) || is_wow6432node casemap new then Q tt s (World STATUS_INVALID_PARAMETER (w_mem w)) else
   (∀ w', w_error w' = STATUS_NO_MEMORY → w_mem w ≠ [] → Q tt s w') ∧
   ∀ w', w_error w' = w_error w →
     wp (store_at (move_gap cur index (k_subkeys xp)).2 k (move_gap cur index (k_subkeys xp)).1 (k_nb_subkeys xp)) s w'
       (λ l s1 w1, s1 = s → wp (touch_key k REG_NOTIFY_CHANGE_NAME)
          (relinked s k (set_name (Some (new, Some p)) x) p (set_subkeys l (k_nb_subkeys xp) xp)) w1 Q)) →
  wp (rename_key casemap k new) s w Q.
Proof.
  intros Hwf Hx Hn Hxp Hcur Hbad Hfind HQ. assert (Hkp : k ≠ p).
  { intros ->. destruct (wk_path _ _ _ (Hwf p x Hx)) as [l Hl]; [congruence|]. apply (not_own_parent s p l Hl).
    by rewrite parent_of_name, (name_of_key _ _ _ Hx), Hn. }
  unfold rename_key. rewrite wp_bind. eapply wp_delete_parent; [done|done|]. rewrite bad_name_spec, Hbad.
  rewrite wp_bind. eapply wp_read_key; [done|]. rewrite wp_bind, (wp_run _ _ _ _ _ _ Hfind).
  destruct found; [by wp_run|]. unfold wow_of in HQ. rewrite Hxp in HQ. cbn [mbind option_bind] in HQ.
  destruct (bool_decide (k_wow6432node xp = Some k) || is_wow6432node casemap new); [by wp_run|]. destruct HQ as [HQ1 HQ2].
  rewrite wp_bind. apply wp_mem_alloc; intros w' He Hm; cbn [negb]; [|by apply wp_ret, HQ1].
  assert (Hidx : index_of k (k_subkeys xp) = Some cur).
  { destruct (index_of_elem k (k_subkeys xp)) as [j Hj]; [by eapply list_elem_of_lookup_2|]. rewrite Hj. f_equal.
    apply index_of_spec in Hj. eapply NoDup_lookup; [by eapply kids_nodup|done|done]. }
  rewrite Hidx. cbn [of_option]. rewrite wp_bind, wp_ret. specialize (HQ2 w' He).
  destruct (move_gap cur index (k_subkeys xp)) as [l' i']. cbn [fst snd] in HQ2. rewrite wp_bind. unfold store_at in *.
  assert (Hend : ∀ l2 w2, wp (touch_key k REG_NOTIFY_CHANGE_NAME)
          (relinked s k (set_name (Some (new, Some p)) x) p (set_subkeys l2 (k_nb_subkeys xp) xp)) w2 Q →
     wp (put_key p (set_subkeys l2 (k_nb_subkeys xp) xp) >>
         let* x1 := read_key k in put_key k (set_name (Some (new, Some p)) x1) >> touch_key k REG_NOTIFY_CHANGE_NAME) s w2 Q).
  { intros l2 w2 H. rewrite wp_bind. unfold put_key at 1. rewrite wp_modify, wp_bind. eapply wp_read_key; [cbn; by rewrite lookup_insert_ne|].
    rewrite wp_bind. unfold put_key. rewrite wp_modify. exact H. }
  destruct (i' <? Z.of_nat (length l')); [by apply wp_ret, Hend, HQ2|]. destruct (i' <? k_nb_subkeys xp); [by apply wp_ret, Hend, HQ2|done].
Qed.

(** Renaming keeps the paths and the dirty marks, whatever becomes of the array. *)
Lemma relinked_rename s k x n p xp new l w (Q : unit → registry → world → Prop) :
  wf_tree s → dirty_ok s → r_keys s !! k = Some x → k_name x = Some (n, Some p) → r_keys s !! p = Some xp →
  let s2 := relinked s k (set_name (Some (new, Some p)) x) p (set_subkeys l (k_nb_subkeys xp) xp) in
  (∀ s', touched_only s2 s' → dirty_ok s' → marked s' k → Q tt s' w) →
  wp (touch_key k REG_NOTIFY_CHANGE_NAME) s2 w Q.
Proof.
  intros Hwf Hd Hx Hn Hxp s2 HQ. destruct (wk_path _ _ _ (Hwf k x Hx)) as [lk Hlk]; [congruence|].
  assert (Hkp : k ≠ p).
  { intros ->. apply (not_own_parent s p lk Hlk). by rewrite parent_of_name, (name_of_key _ _ _ Hx), Hn. }
  set (y := set_name _ x) in *. set (z := set_subkeys _ _ xp) in *.
  assert (Epar : ∀ c, parent_of s2 c = parent_of s c).
  { intros c. rewrite !parent_of_name. unfold s2. rewrite (relinked_names s k y p z xp c) by done. case_decide; [subst|done].
    by rewrite (name_of_key _ _ _ Hx), Hn. }
  assert (Hf : same_flags s s2).
  { intros c. unfold s2. rewrite relinked_lookup by done. case_decide; [subst c; by rewrite Hx|]. case_decide; [subst c; by rewrite Hxp|done]. }
  eapply wp_mono; [apply (touch_key_ok casemap s2 w k lk y)|].
  - apply (path_parents s); [done|]. by intros.
  - unfold s2. rewrite relinked_lookup by done. by rewrite decide_True.
  - intros c u q Hu H1 H2 Eq. right. rewrite Epar in Eq. pose proof (Hf c) as Ec. rewrite Hu in Ec.
    destruct (r_keys s !! c) as [u0|] eqn:Hu0; [|done]. injection Ec as Ec. rewrite Ec in H1, H2.
    eapply same_flags_marked; [done|]. by eapply (Hd c u0).
  - intros [] s' w' (-> & Ht & Hd' & Hm & _). by apply HQ.
Qed.
(** The tree after the key moved in the array of its parent. *)
Lemma renamed_tree s k x n p xp new cur index :
  wf_tree s → r_keys s !! k = Some x → k_name x = Some (n, Some p) → r_keys s !! p = Some xp →
  k_subkeys xp !! cur = Some k → short new → located casemap (kname s <$> k_subkeys xp) new false index → index ≠ Z.of_nat cur + 1 →
  let l := insert_at (if Z.of_nat cur <? index then index - 1 else index) k (delete_at (Z.of_nat cur) (k_subkeys xp)) in
  let s2 := relinked s k (set_name (Some (new, Some p)) x) p (set_subkeys l (k_nb_subkeys xp) xp) in
  wf_tree s2 ∧ children s2 p = <[fold new := k]> (delete (fold n) (children s p)).
Proof.
  intros Hwf Hx Hn Hxp Hcur Hnew Hloc Hne l s2. pose proof (Hwf k x Hx) as Wk. pose proof (Hwf p xp Hxp) as Wp.
  assert (Hkp : k ≠ p).
  { intros ->. destruct (wk_path _ _ _ Wk) as [lk Hlk]; [congruence|]. apply (not_own_parent s p lk Hlk). by rewrite parent_of_name, (name_of_key _ _ _ Hx), Hn. }
  set (y := set_name (Some (new, Some p)) x) in *. set (z := set_subkeys l (k_nb_subkeys xp) xp) in *.
  assert (En : ∀ c, name_of s2 c = if decide (c = k) then Some (new, Some p) else name_of s c).
  { intros c. unfold s2. by rewrite (relinked_names s k y p z xp c). }
  pose proof (delete_at_elem _ _ _ (kids_nodup s p xp Hwf Hxp) Hcur) as Hel.
  assert (Hlen : length l = length (k_subkeys xp)).
  { unfold l. rewrite insert_at_perm. cbn. rewrite delete_at_delete, length_delete by done. apply lookup_lt_Some in Hcur. lia. }
  destruct (kid_name s p xp cur k Hwf Hxp Hcur) as [Hck Eck]. rewrite (name_of_key _ _ _ Hx), Hn in Eck. injection Eck as Eck.
  assert (Hnames : kname s2 <$> delete_at (Z.of_nat cur) (k_subkeys xp) = delete_at (Z.of_nat cur) (kname s <$> k_subkeys xp)).
  { rewrite <- delete_at_fmap. apply list_fmap_ext. intros j c Hc%list_elem_of_lookup_2. apply Hel in Hc as [Hc _].
    rewrite !kname_of, En. by rewrite decide_False. }
  assert (Hkk : kname s2 k = new) by (rewrite kname_of, En; by rewrite decide_True).
  assert (Hsort : names_sorted casemap (kname s2 <$> l)).
  { unfold l. rewrite insert_at_fmap, Hnames, Hkk. apply insert_sorted; [apply delete_sorted, Wp|]. by eapply located_delete. }
  split.
  - assert (Ez : z = set_wow (k_wow6432node xp) z) by done. unfold s2. rewrite Ez. apply wf_relink; try done.
    + intros E. pose proof (wk_empty _ _ _ Wp E) as E'. rewrite E' in Hcur. done.
    + rewrite Hx. split; [by exists n|done].
    + cbn. split_and!; [done|by apply (not_deleted s k); [done|done|congruence]|]. intros c. unfold l. rewrite insert_at_perm, elem_of_cons, Hel.
      split; [naive_solver|]. intros [->|Hc]; [by left|]. destruct (decide (c = k)); [by left|right; done].
    + destruct (wk_values _ _ _ Wk). by constructor.
    + change (Forall short (kname s2 <$> l)). unfold l. rewrite insert_at_fmap, insert_at_perm, Hkk, Hnames. constructor; [done|].
      unfold delete_at. apply Forall_app. split; [apply Forall_take, Wp|apply Forall_drop, Wp].
    + rewrite Hlen. apply Wp.
    + apply Wp.
    + intros c Hc%(wk_wow _ _ _ Wp). unfold l. rewrite insert_at_perm, elem_of_cons, Hel. destruct (decide (c = k)); [by left|right; done].
  - assert (Hz2 : r_keys s2 !! p = Some z) by (unfold s2; rewrite relinked_lookup by done; rewrite decide_False by done; by rewrite decide_True).
    unfold children. rewrite Hz2, Hxp. cbn [k_subkeys z set_subkeys]. unfold l.
    rewrite (named_map_insert casemap (kname s2)) by exact Hsort. rewrite Hkk. f_equal.
    rewrite (named_map_ext (kname s2) (kname s)).
    + rewrite Eck. apply named_map_delete; [apply Wp|]. split; [rewrite length_fmap; apply lookup_lt_Some in Hcur; lia|].
      exists (kname s k). rewrite Nat2Z.id. done.
    + intros c Hc%Hel. rewrite !kname_of, En. destruct Hc. by rewrite decide_False.
Qed.

Lemma bad_name_short new : bad_name new = false → short new.
Proof.
  unfold bad_name. intros Hb%bool_decide_eq_false_1. unfold short, MAX_NAME_LEN in *. destruct (decide (wlen new < 2147483648)); [done|].
  destruct Hb. right; right. lia.
Qed.

Lemma children_lookup s p xp new found i : wf_tree s → r_keys s !! p = Some xp →
  located casemap (kname s <$> k_subkeys xp) new found i →
  children s p !! fold new = if found then k_subkeys xp !! Z.to_nat i else None.
Proof. intros Hwf Hxp Hl. unfold children. rewrite Hxp. apply named_map_lookup; [apply (Hwf p xp Hxp)|done]. Qed.

Lemma kid_index s k x n p xp : wf_tree s → r_keys s !! k = Some x → k_name x = Some (n, Some p) → r_keys s !! p = Some xp →
  ∃ cur, k_subkeys xp !! cur = Some k.
Proof.
  intros Hwf Hx Hn Hxp. apply list_elem_of_lookup. apply (kid_of_parent s k n p xp Hwf); [|done]. by rewrite (name_of_key _ _ _ Hx).
Qed.

Lemma rename_key_ok s w k x n q new
    (Hwf : wf_tree s) (Hd : dirty_ok s) (Hx : r_keys s !! k = Some x) (Hn : k_name x = Some (n, q))
    (Hplace : ∀ p, q = Some p → ¬ sorts_next s k p new) :
  wp (rename_key casemap k new) s w (λ _ s' w',
    let refused e := s' = s ∧ w_error w' = e in
    if bad_name new then refused STATUS_INVALID_PARAMETER else
    match q with
    | None => refused STATUS_CANNOT_DELETE
    | Some p =>
        if children s p !! fold new is Some _ then refused STATUS_CANNOT_DELETE else
        if bool_decide (wow_of s p = Some k) || is_wow6432node casemap new then refused STATUS_INVALID_PARAMETER else
        refused STATUS_NO_MEMORY ∧ w_mem w ≠ [] ∨
        w_error w' = w_error w ∧ wf_tree s' ∧ dirty_ok s' ∧ marked s' k ∧
        children s' p = <[fold new := k]> (delete (fold n) (children s p)) ∧
        ∀ c, name_of s' c = if decide (c = k) then Some (new, Some p) else name_of s c
    end).
Proof.
  destruct (bad_name new) eqn:Hbad.
  { unfold rename_key. rewrite wp_bind. eapply wp_delete_parent; [done|done|]. rewrite bad_name_spec, Hbad. by wp_run. }
  destruct q as [p|].
  2: { unfold rename_key. rewrite wp_bind. eapply wp_delete_parent; [done|done|]. rewrite bad_name_spec, Hbad. by wp_run. }
  assert (Ep : parent_of s k = Some (Some p)) by by rewrite parent_of_name, (name_of_key _ _ _ Hx), Hn.
  destruct (parent_present s k p Hwf Ep) as [xp Hxp]. destruct (kid_index s k x n p xp Hwf Hx Hn Hxp) as [cur Hcur].
  destruct (find_subkey_ok s w p xp new Hwf Hxp (bad_name_short new Hbad)) as (found & i & Hloc & Hfind).
  pose proof (children_lookup s p xp new found i Hwf Hxp Hloc) as Ech.
  eapply rename_key_run; try done. rewrite Ech. destruct found.
  { destruct (located_value casemap _ _ _ _ Hloc) as (c & -> & _). done. }
  destruct (bool_decide (wow_of s p = Some k) || is_wow6432node casemap new); [done|]. split; [intros; left; done|]. intros w' Hw.
  assert (Hne : i ≠ Z.of_nat cur + 1) by (intros E; eapply (Hplace p eq_refl), sorts_next_place; done).
  destruct (renamed_tree s k x n p xp new cur i Hwf Hx Hn Hxp Hcur (bad_name_short new Hbad) Hloc Hne) as [Hwf2 Hch2].
  apply move_gap_ok; [done|destruct Hloc as [Hi _]; by rewrite length_fmap in Hi|done|]. intros _.
  eapply relinked_rename; try done. intros s' Ht Hd' Hm. right. split_and!; [done|by eapply wf_tree_touched|done|done| |].
  - by rewrite (touched_children _ _ p Ht).
  - intros c. rewrite (touched_names _ _ c Ht). eapply relinked_names; [|done|done]. intros ->.
    destruct (wk_path _ _ _ (Hwf p x Hx)) as [lk Hlk]; [congruence|]. by apply (not_own_parent s p lk Hlk).
Qed.

(** C26: Renaming a key, on every branch: a bad name, the root key, a name that is taken,
    case apart, and Wow6432Node, are refused with the documented errors and no change.
    Otherwise, unless the new name sorts just after the old one, the parent finds the
    key under its new name and no longer under the old one, every other key keeps its
    name, and the tree stays well formed; or memory runs out and nothing changes. *)
Theorem rename_key_correct s w k x n q new
    (Hwf : wf_tree s) (Hd : dirty_ok s) (Hx : r_keys s !! k = Some x) (Hn : k_name x = Some (n, q))
    (Hplace : ∀ p, q = Some p → ¬ sorts_next s k p new) :
  wp (rename_key casemap k new) s w (λ _ s' w',
    let refused e := s' = s ∧ w_error w' = e in
    if bad_name new then refused STATUS_INVALID_PARAMETER else
    match q with
    | None => refused STATUS_CANNOT_DELETE
    | Some p =>
        if children s p !! fold new is Some _ then refused STATUS_CANNOT_DELETE else
        if bool_decide (wow_of s p = Some k) || is_wow6432node casemap new then refused STATUS_INVALID_PARAMETER else
        refused STATUS_NO_MEMORY ∧ w_mem w ≠ [] ∨
        w_error w' = w_error w ∧ wf_tree s' ∧ dirty_ok s' ∧ marked s' k ∧
        children s' p = <[fold new := k]> (delete (fold n) (children s p)) ∧
        ∀ c, name_of s' c = if decide (c = k) then Some (new, Some p) else name_of s c
    end).
Proof. exact (rename_key_ok s w k x n q new Hwf Hd Hx Hn Hplace). Qed.

(** If the new name sorts just after the old one, [rename_key] moves nothing but still
    writes the key one index too far. The next sibling is overwritten: it keeps its
    name and its parent but is no subkey any more, and the key is there twice. A last
    key is written behind the last one, outside the array when that is full. *)
Theorem rename_key_overwrites_sibling s w k x n p xp new
    (Hwf : wf_tree s) (Hd : dirty_ok s) (Hx : r_keys s !! k = Some x) (Hn : k_name x = Some (n, Some p))
    (Hxp : r_keys s !! p = Some xp) (Hplace : sorts_next s k p new) (Hfree : children s p !! fold new = None)
    (Hbad : bad_name new = false) (Hwow : wow_of s p ≠ Some k) (Hnode : is_wow6432node casemap new = false) (Hmem : w_mem w = []) :
  ∃ cur, k_subkeys xp !! cur = Some k ∧
  match k_subkeys xp !! S cur with
  | Some c => wp (rename_key casemap k new) s w (λ _ s' w', w_error w' = w_error w ∧ name_of s' c = name_of s c ∧
      ∃ xp', r_keys s' !! p = Some xp' ∧ k_subkeys xp' = <[S cur := k]> (k_subkeys xp) ∧ c ∉ k_subkeys xp')
  | None => k_nb_subkeys xp = Z.of_nat (length (k_subkeys xp)) → rename_key casemap k new s w = None
  end.
Proof.
  destruct (kid_index s k x n p xp Hwf Hx Hn Hxp) as [cur Hcur]. exists cur. split; [done|].
  destruct (find_subkey_ok s w p xp new Hwf Hxp (bad_name_short new Hbad)) as (found & i & Hloc & Hfind).
  pose proof (children_lookup s p xp new found i Hwf Hxp Hloc) as Ech. rewrite Hfree in Ech. destruct found.
  { destruct (located_value casemap _ _ _ _ Hloc) as (c & Ec & _). congruence. }
  assert (i = Z.of_nat cur + 1) as -> by (eapply sorts_next_place; done). pose proof (lookup_lt_Some _ _ _ Hcur) as Hlt.
  assert (Hmove : move_gap cur (Z.of_nat cur + 1) (k_subkeys xp) = (k_subkeys xp, Z.of_nat cur + 1)).
  { unfold move_gap. rewrite (proj2 (Z.ltb_ge 1 _)), andb_false_r by lia. by rewrite (proj2 (Z.ltb_ge _ (Z.of_nat cur))) by lia. }
  assert (Hwow' : bool_decide (wow_of s p = Some k) || is_wow6432node casemap new = false) by (rewrite Hnode, bool_decide_eq_false_2 by done; done).
  destruct (k_subkeys xp !! S cur) as [c|] eqn:Hc.
  - eapply rename_key_run; try done. cbn iota. rewrite Hwow', Hmove. cbn [fst snd]. split; [by intros|]. intros w' Hw.
    apply lookup_lt_Some in Hc as Hlt'. unfold store_at. rewrite (proj2 (Z.ltb_lt _ _)) by lia. apply wp_ret. intros _.
    assert (Hck : c ≠ k) by (intros ->; assert (S cur = cur) by (eapply NoDup_lookup; [by eapply kids_nodup|done|done]); lia).
    assert (Hkp : k ≠ p).
    { intros ->. destruct (wk_path _ _ _ (Hwf p x Hx)) as [lk Hlk]; [congruence|]. apply (not_own_parent s p lk Hlk).
      by rewrite parent_of_name, (name_of_key _ _ _ Hx), Hn. }
    replace (Z.to_nat (Z.of_nat cur + 1)) with (S cur) by lia.
    eapply relinked_rename; try done. intros s' Ht _ _. split_and!; [done| |].
    + rewrite (touched_names _ _ c Ht). erewrite relinked_names by done. by rewrite decide_False.
    + set (z := set_subkeys _ _ xp) in Ht. destruct (touched_key _ _ p z Ht) as (y & Hy & (_ & _ & Es & _)).
      { rewrite relinked_lookup by done. rewrite decide_False by done. by rewrite decide_True. }
      exists y. rewrite Es. split_and!; [done|done|]. cbn [k_subkeys z set_subkeys]. intros [j Hj]%list_elem_of_lookup.
      destruct (decide (j = S cur)) as [->|]; [rewrite list_lookup_insert_eq in Hj by done; congruence|].
      rewrite list_lookup_insert_ne in Hj by done. assert (j = S cur) by (eapply NoDup_lookup; [by eapply kids_nodup|done|done]). done.
  - intros Hfull. apply lookup_ge_None in Hc. unfold rename_key.
    rewrite (bind_run _ _ s w (Some p) s w) by (unfold get_parent; by rewrite (bind_run _ _ s w x s w), Hn by (unfold read_key, bind, get; by rewrite Hx)).
    rewrite bad_name_spec, Hbad, (bind_run _ _ s w xp s w) by (unfold read_key, bind, get; by rewrite Hxp).
    rewrite (bind_run _ _ _ _ _ _ _ Hfind). unfold wow_of in Hwow'. rewrite Hxp in Hwow'. cbn [mbind option_bind] in Hwow'. rewrite Hwow'.
    rewrite (bind_run _ _ s w true s w) by (unfold mem_alloc, malloc, bind; by rewrite Hmem). cbn [negb].
    destruct (index_of_elem k (k_subkeys xp)) as [j Hj]; [by eapply list_elem_of_lookup_2|].
    rewrite (bind_run _ _ s w j s w) by (by rewrite Hj). apply index_of_spec in Hj.
    assert (j = cur) as -> by (eapply NoDup_lookup; [by eapply kids_nodup|done|done]). rewrite Hmove.
    unfold bind at 1, store_at. rewrite !(proj2 (Z.ltb_ge _ _)) by lia. done.
Qed.
(** ** Creating *)

(** A key whose place does not change. *)
Lemma wf_tree_put s p xp z :
  wf_tree s → r_keys s !! p = Some xp → k_name z = k_name xp → k_subkeys z = k_subkeys xp →
  has (k_flags z) KEY_DELETED = has (k_flags xp) KEY_DELETED → wf_values casemap z →
  Z.of_nat (length (k_subkeys xp)) ≤ k_nb_subkeys z → k_nb_subkeys z = 0 ∨ MIN_SUBKEYS ≤ k_nb_subkeys z →
  (∀ c, k_wow6432node z = Some c → c ∈ k_subkeys xp) →
  wf_tree (on_keys (<[p := z]>) s).
Proof.
  intros Hwf Hxp Ezn Ezs Ezd Hvals Hroom Hnb Hwow. set (s' := on_keys _ s).
  assert (En : ∀ c, name_of s' c = name_of s c).
  { intros c. unfold name_of. cbn. destruct (decide (c = p)) as [->|]; [by rewrite lookup_insert_eq, Hxp|by rewrite lookup_insert_ne]. }
  assert (Ekn : ∀ l, kname s' <$> l = kname s <$> l) by (intros l; apply list_fmap_ext; intros; by rewrite !kname_of, En).
  assert (Hpath : ∀ c l, path s c l → path s' c l).
  { intros c l Hl. apply (path_parents s); [done|]. intros c' _. by rewrite !parent_of_name, En. }
  intros c x Hx. cbn in Hx. destruct (decide (c = p)) as [->|Hne].
  - rewrite lookup_insert_eq in Hx. injection Hx as <-. destruct (Hwf p xp Hxp) as [W1 W2 W3 W4 W5 W6 W7 W8 W9 W10].
    constructor; rewrite ?Ezs, ?Ezn, ?Ezd, ?Ekn; try done.
    + intros d. rewrite W6. by setoid_rewrite En.
    + intros Hn. destruct (W10 Hn) as [l Hl]. eauto.
  - rewrite lookup_insert_ne in Hx by done. destruct (Hwf c x Hx) as [W1 W2 W3 W4 W5 W6 W7 W8 W9 W10].
    constructor; rewrite ?Ekn; try done.
    + intros d. rewrite W6. by setoid_rewrite En.
    + intros Hn. destruct (W10 Hn) as [l Hl]. eauto.
Qed.

(** A new key below [p]. *)
Definition new_child (n : list Z) (p : Z) (y : key) : Prop :=
  k_name y = Some (n, Some p) ∧ k_subkeys y = [] ∧ k_nb_subkeys y = 0 ∧ k_wow6432node y = None ∧
  k_values y = [] ∧ k_nb_values y = 0 ∧ has (k_flags y) KEY_DELETED = false.

Lemma new_child_values n p y : new_child n p y → wf_values casemap y.
Proof. intros (_ & _ & _ & _ & Ev & En & _). constructor; rewrite ?Ev, ?En; [apply SSorted_nil|by constructor|done|by left]. Qed.

(** Where the new key goes, and what else [key_link_name] changes. *)
Definition linked_at (s : registry) (k : Z) (n : list Z) (p : Z) (xp : key) (i nb : Z) (wow : option Z) : Prop :=
  located casemap (kname s <$> k_subkeys xp) n false i ∧ Z.of_nat (length (k_subkeys xp)) < nb ∧ MIN_SUBKEYS ≤ nb ∧
  (wow = k_wow6432node xp ∨ wow = Some k).

Lemma linked_tree s k n p xp i nb wow y :
  wf_tree s → r_keys s !! p = Some xp → k_name xp ≠ None → r_keys s !! k = None → short n →
  linked_at s k n p xp i nb wow → new_child n p y →
  let s' := relinked s k y p (set_wow wow (set_subkeys (insert_at i k (k_subkeys xp)) nb xp)) in
  wf_tree s' ∧ children s' p = <[fold n := k]> (children s p).
Proof.
  intros Hwf Hxp Hpn Hk Hn (Hloc & Hnb & Hmin & Hwow) Hy s'. pose proof (new_child_values n p y Hy) as Hvals.
  destruct Hy as (Yn & Ys & Ynb & Yw & Yv & Yvn & Yd). assert (Hkp : k ≠ p) by congruence. pose proof (Hwf p xp Hxp) as Wp.
  set (z := set_wow wow _) in *.
  assert (En : ∀ c, name_of s' c = if decide (c = k) then Some (n, Some p) else name_of s c).
  { intros c. unfold s'. rewrite (relinked_names s k y p z xp c) by done. by rewrite Yn. }
  assert (Hknew : k ∉ k_subkeys xp) by (intros (? & ? & ? & _)%(kid_named s p xp k Hwf Hxp); congruence).
  assert (Hnames : kname s' <$> k_subkeys xp = kname s <$> k_subkeys xp).
  { apply list_fmap_ext. intros j c Hc%list_elem_of_lookup_2. rewrite !kname_of, En. rewrite decide_False; [done|]. by intros ->. }
  assert (Hkk : kname s' k = n) by (rewrite kname_of, En; by rewrite decide_True).
  assert (Hsort : names_sorted casemap (kname s' <$> insert_at i k (k_subkeys xp))).
  { rewrite insert_at_fmap, Hnames, Hkk. apply insert_sorted; [apply Wp|done]. }
  split.
  - apply wf_relink; try done.
    + by rewrite Hk.
    + rewrite Yn. split_and!; [done|done|]. intros c. by rewrite insert_at_perm, elem_of_cons.
    + change (Forall short (kname s' <$> insert_at i k (k_subkeys xp))). rewrite insert_at_fmap, insert_at_perm, Hkk, Hnames.
      constructor; [done|apply Wp].
    + rewrite insert_at_perm. cbn. lia.
    + by right.
    + intros c Ec. rewrite insert_at_perm, elem_of_cons. destruct Hwow as [->| ->]; [right; by apply (wk_wow _ _ _ Wp)|left; congruence].
  - assert (Hz : r_keys s' !! p = Some z) by (unfold s'; rewrite relinked_lookup by done; rewrite decide_False by done; by rewrite decide_True).
    unfold children. rewrite Hz, Hxp. cbn [k_subkeys z set_wow set_subkeys]. rewrite (named_map_insert casemap (kname s')) by exact Hsort.
    rewrite Hkk. f_equal. apply named_map_ext. intros c Hc. rewrite !kname_of, En. rewrite decide_False; [done|]. by intros ->.
Qed.

Lemma key_link_name_ok s w k n p xp :
  wf_tree s → r_keys s !! p = Some xp → k_name xp ≠ None → short n → children s p !! fold n = None →
  wp (key_link_name casemap k n p) s w (λ r s' w', match r with
    | Some nm => nm = (n, Some p) ∧ outcome w w' true ∧ ∃ i nb wow, linked_at s k n p xp i nb wow ∧
        s' = on_keys (<[p := set_wow wow (set_subkeys (insert_at i k (k_subkeys xp)) nb xp)]>) s
    | None => outcome w w' false ∧ s' = s
    end).
Proof.
  intros Hwf Hxp Hpn Hn Hfree. pose proof (Hwf p xp Hxp) as Wp. unfold key_link_name. rewrite wp_bind. eapply wp_read_key; [done|]. rewrite wp_bind.
  set (last := Z.of_nat (length (k_subkeys xp))) in *.
  set (sized nb := on_keys (<[p := set_subkeys (k_subkeys xp) nb xp]>) s).
  assert (Eid : sized (k_nb_subkeys xp) = s).
  { unfold sized, on_keys. destruct s as [m ev t], xp. cbn in *. by rewrite insert_id. }
  apply wp_mono with (Q := λ ok s1 w1, outcome w w1 ok ∧ if ok then ∃ nb, s1 = sized nb ∧ last < nb ∧ MIN_SUBKEYS ≤ nb else s1 = s).
  { destruct (Z.eqb_spec last (k_nb_subkeys xp)) as [E|E].
    - unfold grow_subkeys. rewrite wp_bind. eapply wp_read_key; [done|]. rewrite wp_bind.
      eapply wp_mono; [apply (grow_ok s w (k_nb_subkeys xp) MIN_SUBKEYS); [done|apply Wp]|].
      intros [nb|] s1 w1 (-> & Ho & Hr); [|by apply wp_ret]. rewrite wp_bind. unfold put_key. rewrite wp_modify. apply wp_ret.
      destruct (Hr nb eq_refl). split; [done|]. exists nb. split_and!; [done|lia|done].
    - apply wp_ret. split; [apply outcome_refl|]. exists (k_nb_subkeys xp). split; [done|]. pose proof (wk_room _ _ _ Wp) as Hr.
      destruct (wk_alloc _ _ _ Wp); fold last in Hr; lia. }
  intros [] s1 w1 [Ho Hs1]; cbn [negb]; [|apply wp_ret; done]. destruct Hs1 as (nb & -> & H1 & H2). rewrite wp_bind.
  eapply wp_read_key; [apply lookup_insert_eq|]. rewrite wp_bind.
  destruct (find_subkey_at s (sized nb) w1 p xp (set_subkeys (k_subkeys xp) nb xp) n Hwf Hxp Hn eq_refl) as (found & i & Hloc & Hfind).
  { intros c. unfold subkey_name. cbn. destruct (decide (c = p)) as [->|]; [by rewrite lookup_insert_eq, Hxp|by rewrite lookup_insert_ne]. }
  rewrite (wp_run _ _ _ _ _ _ Hfind). rewrite (children_lookup s p xp n found i Hwf Hxp Hloc) in Hfree. destruct found.
  { destruct (located_value casemap _ _ _ _ Hloc) as (c & Ec & _). congruence. }
  cbn [snd k_subkeys k_nb_subkeys set_subkeys]. fold last. rewrite wp_bind, wp_assert.
  assert (Hi : 0 ≤ i ≤ last) by (destruct Hloc as [Hi _]; by rewrite length_fmap in Hi). split; [lia|].
  rewrite wp_bind. unfold put_key at 1. rewrite wp_modify, wp_bind. set (s2 := on_keys _ _).
  set (z := set_subkeys (insert_at i k (k_subkeys xp)) nb xp).
  assert (E2 : s2 = on_keys (<[p := z]>) s) by (unfold s2, sized, on_keys; cbn; by rewrite insert_insert_eq).
  assert (Hz : r_keys s2 !! p = Some z) by (rewrite E2; apply lookup_insert_eq).
  apply wp_mono with (Q := λ (b : bool) s3 w3, s3 = s2 ∧ w3 = w1).
  { destruct (is_wow6432node casemap n); [|by apply wp_ret]. unfold own_name. cbn [k_name set_subkeys].
    destruct (k_name xp) as [[pn ?]|]; [|done]. by wp_run. }
  intros b s3 w3 [-> ->]. rewrite wp_bind. destruct b.
  - rewrite wp_bind. eapply wp_read_key; [done|]. unfold put_key. rewrite wp_modify. apply wp_ret. split_and!; [done|done|].
    exists i, nb, (Some k). split; [by split_and!; [| | |right]|]. rewrite E2. unfold on_keys. cbn. by rewrite insert_insert_eq.
  - apply wp_ret, wp_ret. split_and!; [done|done|]. exists i, nb, (k_wow6432node xp). split; [by split_and!; [| | |left]|]. by rewrite E2.
Qed.
Lemma create_object_ok s w n p xp :
  wf_tree s → r_keys s !! p = Some xp → k_name xp ≠ None → short n → children s p !! fold n = None →
  wp (create_object casemap n p) s w (λ r s' w', match r with
    | Some k => r_keys s !! k = None ∧ outcome w w' true ∧ ∃ i nb wow, linked_at s k n p xp i nb wow ∧
        s' = relinked s k (uninitialised_key (Some (n, Some p))) p (set_wow wow (set_subkeys (insert_at i k (k_subkeys xp)) nb xp))
    | None => outcome w w' false ∧ s' = s
    end).
Proof.
  intros Hwf Hxp Hpn Hn Hfree. unfold create_object. rewrite wp_bind. apply wp_mem_alloc_outcome. intros [] w1 Ho1; cbn [negb]; [|by apply wp_ret].
  rewrite wp_bind. apply wp_mem_alloc_outcome. intros ok2 w2 Ho2. assert (Ho : outcome w w2 ok2) by eauto with outcome.
  destruct ok2; cbn [negb]; [|by apply wp_ret]. rewrite wp_bind, wp_get, wp_bind.
  eapply wp_mono; [apply (key_link_name_ok s w2 (new_key (r_keys s)) n p xp); done|]. intros [nm|] s' w'; cbn zeta iota.
  - intros (-> & Ho3 & i & nb & wow & Hl & ->). rewrite wp_bind. unfold put_key. rewrite wp_modify. apply wp_ret.
    split_and!; [apply new_key_fresh|eauto with outcome|]. exists i, nb, wow. by split.
  - intros [Ho3 ->]. apply wp_ret. split; [eauto with outcome|done].
Qed.

(** The new key as [create_key_object] leaves it. *)
Definition fresh_key (n : list Z) (p options modif : Z) : key :=
  Key (Some (n, Some p)) [] [] 0 None [] 0
    (Z.lor (if has options REG_OPTION_CREATE_LINK then KEY_SYMLINK else 0)
           (if has options REG_OPTION_VOLATILE then KEY_VOLATILE else KEY_DIRTY)) modif [].

Lemma fresh_new_child n p options modif : new_child n p (fresh_key n p options modif).
Proof. unfold new_child, fresh_key. cbn. destruct (has options REG_OPTION_CREATE_LINK), (has options REG_OPTION_VOLATILE); done. Qed.

Lemma relinked_put s k y p z y' : k ≠ p → on_keys (<[k := y']>) (relinked s k y p z) = relinked s k y' p z.
Proof. intros Hkp. unfold relinked, on_keys. cbn. f_equal. by rewrite insert_insert_eq. Qed.

Lemma delete_insert_at (l : list Z) i j k : 0 ≤ i ≤ Z.of_nat (length l) → k ∉ l →
  insert_at i k l !! j = Some k → delete_at (Z.of_nat j) (insert_at i k l) = l.
Proof.
  intros Hi Hk Hj. assert (j = Z.to_nat i) as ->.
  { unfold insert_at in Hj. rewrite lookup_app, lookup_take in Hj. rewrite length_take, Nat.min_l in Hj by lia.
    destruct (decide (j = Z.to_nat i)); [done|]. exfalso. apply Hk. case_decide.
    - destruct (l !! j) as [a|] eqn:Ea; [injection Hj as ->; by eapply list_elem_of_lookup_2|].
      apply lookup_ge_None in Ea. lia.
    - assert (Ej : (j - Z.to_nat i = S (j - Z.to_nat i - 1))%nat) by lia. rewrite Ej in Hj. cbn in Hj.
      apply list_elem_of_lookup_2 in Hj. rewrite <- (take_drop (Z.to_nat i) l). apply elem_of_app. by right. }
  rewrite delete_at_delete, delete_take_drop. unfold insert_at.
  rewrite take_app_length' by (rewrite length_take; lia). rewrite (drop_app_ge _ _ (S _)) by (rewrite length_take; lia).
  rewrite length_take, Nat.min_l by lia. replace (S (Z.to_nat i) - Z.to_nat i)%nat with 1%nat by lia. cbn [drop]. rewrite drop_0. apply take_drop.
Qed.

Lemma init_key_object_ok s w k n p xp i nb wow y0 rel options modif :
  wf_tree s → dirty_ok s → r_keys s !! p = Some xp → k_name xp ≠ None → r_keys s !! k = None →
  linked_at s k n p xp i nb wow → k_name y0 = Some (n, Some p) →
  let z := set_wow wow (set_subkeys (insert_at i k (k_subkeys xp)) nb xp) in
  wp (init_key_object k rel options modif) (relinked s k y0 p z) w (λ r s' w',
    if rel && has (k_flags xp) KEY_VOLATILE && negb (has options REG_OPTION_VOLATILE)
    then r = None ∧ w_error w' = STATUS_CHILD_MUST_BE_VOLATILE ∧ wf_tree s' ∧ dirty_ok s' ∧ ∀ c, name_of s' c = name_of s c
    else r = Some k ∧ w' = w ∧ s' = relinked s k (fresh_key n p options modif) p z).
Proof.
  intros Hwf Hd Hxp Hpn Hk Hl Hy0 z. pose proof Hl as (Hloc & Hnb & Hmin & Hwow). assert (Hkp : k ≠ p) by congruence.
  assert (Hat : ∀ y, r_keys (relinked s k y p z) !! k = Some y) by (intros y; rewrite relinked_lookup by done; by rewrite decide_True).
  assert (Hatp : ∀ y, r_keys (relinked s k y p z) !! p = Some z).
  { intros y. rewrite relinked_lookup by done. rewrite decide_False by done. by rewrite decide_True. }
  unfold init_key_object. rewrite wp_bind. eapply wp_read_key; [apply Hat|]. rewrite wp_bind. unfold put_key at 1. rewrite wp_modify, relinked_put by done.
  rewrite Hy0. set (y1 := Key _ _ _ _ _ _ _ _ _ _).
  assert (Hadd : ∀ f (Q : option Z → registry → world → Prop),
    Q (Some k) (relinked s k (set_flags (Z.lor (k_flags y1) f) y1) p z) w →
    wp ((let* x := read_key k in put_key k (set_flags (Z.lor (k_flags x) f) x)) >> ret (Some k)) (relinked s k y1 p z) w Q).
  { intros f Q HQ. rewrite !wp_bind. eapply wp_read_key; [apply Hat|]. unfold put_key. rewrite wp_modify, relinked_put by done. by apply wp_ret. }
  destruct (has options REG_OPTION_VOLATILE) eqn:Evol; cbn [negb].
  { rewrite andb_false_r. apply Hadd. split_and!; [done|done|]. unfold fresh_key. by rewrite Evol. }
  rewrite andb_true_r, wp_bind.
  apply wp_mono with (Q := λ b s1 w1, b = rel && has (k_flags xp) KEY_VOLATILE ∧ s1 = relinked s k y1 p z ∧ w1 = w).
  { destruct rel; [|by apply wp_ret]. rewrite wp_bind. eapply (wp_delete_parent k y1 n (Some p)); [apply Hat|done|].
    cbn [of_option]. rewrite wp_bind, wp_ret, wp_bind. eapply wp_read_key; [apply Hatp|]. by apply wp_ret. }
  intros b s1 w1 (-> & -> & ->). destruct (rel && has (k_flags xp) KEY_VOLATILE) eqn:Efail.
  2: { apply Hadd. split_and!; [done|done|]. unfold fresh_key. by rewrite Evol. }
  rewrite wp_bind, wp_set_error, wp_bind.
  assert (Hi : 0 ≤ i ≤ Z.of_nat (length (k_subkeys xp))) by (destruct Hloc as [Hi _]; by rewrite length_fmap in Hi).
  assert (Hknew : k ∉ k_subkeys xp) by (intros (? & ? & ? & _)%(kid_named s p xp k Hwf Hxp); congruence).
  assert (Hlen : length (insert_at i k (k_subkeys xp)) = S (length (k_subkeys xp))) by (by rewrite insert_at_perm).
  eapply wp_mono; [apply (unlink_named_object_ok _ _ k y1 n p z); [apply Hat|done|done|apply Hatp| | |]|].
  { cbn. by rewrite insert_at_perm, elem_of_cons; left. }
  { cbn [k_subkeys z set_wow set_subkeys k_nb_subkeys]. rewrite Hlen. lia. }
  { cbn. by right. }
  intros _ s2 w2 (Hw2 & j & nb2 & Hj & Hnb2 & Hmin2 & ->). rewrite wp_bind, wp_modify. apply wp_ret.
  cbn [k_subkeys k_wow6432node z set_wow set_subkeys] in *. rewrite (delete_insert_at _ i j k Hi Hknew Hj).
  set (z2 := set_wow _ _). assert (Es : on_keys (delete k) (relinked (relinked s k y1 p z) k (set_name None y1) p z2) =
    on_keys (<[p := z2]>) s).
  { unfold relinked, on_keys. cbn. f_equal. rewrite delete_insert_eq, delete_insert_ne by done.
    rewrite delete_insert_eq, delete_insert_ne by done. by rewrite delete_id, insert_insert_eq by done. }
  rewrite Es. split_and!; [done|done| | |].
  - change z2 with (set_wow (without k wow) (set_subkeys (k_subkeys xp) nb2 xp)). eapply wf_tree_put; try done; [destruct (wk_values _ _ _ (Hwf p xp Hxp)); by constructor|cbn; lia|].
    cbn [k_wow6432node set_wow].    intros c. unfold without. case_bool_decide as Ew; [done|]. intros ->. destruct Hwow as [Ec|]; [|congruence].
    by apply (wk_wow _ _ _ (Hwf p xp Hxp)).
  - by apply (dirty_ok_put s p xp z2).
  - intros c. unfold name_of. cbn. destruct (decide (c = p)) as [->|]; [by rewrite lookup_insert_eq, Hxp|by rewrite lookup_insert_ne].
Qed.

Lemma create_key_ok s w p xp n rel options access attributes
    (Hwf : wf_tree s) (Hd : dirty_ok s) (Hxp : r_keys s !! p = Some xp) (Hpn : k_name xp ≠ None)
    (Hn : bad_name n = false) (Hfree : children s p !! fold n = None) :
  wp (create_key casemap p n rel options access attributes) s w (λ r s' w', wf_tree s' ∧ (rel = true → dirty_ok s') ∧
    match r with
    | None => (∀ c, name_of s' c = name_of s c) ∧
        (w_error w' = STATUS_NO_MEMORY ∧ w_mem w ≠ [] ∧ s' = s ∨
         w_error w' = STATUS_CHILD_MUST_BE_VOLATILE ∧ rel = true ∧ has (k_flags xp) KEY_VOLATILE = true ∧
         has options REG_OPTION_VOLATILE = false)
    | Some k => w_error w' = 0 ∧ r_keys s !! k = None ∧ children s' p = <[fold n := k]> (children s p) ∧
        (∀ c, name_of s' c = if decide (c = k) then Some (n, Some p) else name_of s c) ∧
        (∃ y, r_keys s' !! k = Some y ∧ touched (fresh_key n p options (r_time s)) y) ∧ marked s' k ∧
        (if rel then marked s' p ∧ (has (k_flags xp) KEY_VOLATILE = true → has options REG_OPTION_VOLATILE = true)
         else ∀ c y, c ≠ k → r_keys s' !! c = Some y → k_flags <$> r_keys s !! c = Some (k_flags y))
    end).
Proof.
  pose proof (Hwf p xp Hxp) as Wp. destruct (wk_path _ _ _ Wp Hpn) as [lp Hlp]. pose proof (bad_name_short n Hn) as Hshort.
  assert (Hne : n ≠ []) by (intros ->; by vm_compute in Hn).
  unfold create_key. rewrite wp_bind, wp_get, wp_bind. unfold create_key_object. rewrite wp_bind. unfold clear_error. rewrite wp_set_error.
  set (w0 := World 0 (w_mem w)). rewrite wp_bind.
  assert (Eo : ∀ attr, create_named_object casemap p n attr = create_object casemap n p) by (intros; destruct n; done). rewrite Eo.
  eapply wp_mono; [apply (create_object_ok s w0 n p xp); done|]. intros [k|] s1 w1.
  2: { intros [Ho ->]. do 2 apply wp_ret. split_and!; [done|done|done|]. left. by destruct Ho. }
  intros (Hk & [He1 _] & i & nb & wow & Hl & ->). cbn [w_error w0] in He1. assert (Hkp : k ≠ p) by congruence.
  rewrite wp_bind, wp_get_error, He1. cbn [negb Z.eqb]. change (0 =? STATUS_OBJECT_NAME_EXISTS) with false. cbn [negb].
  eapply wp_mono; [apply (init_key_object_ok s w1 k n p xp i nb wow); done|]. intros r s2 w2.
  destruct (rel && has (k_flags xp) KEY_VOLATILE && negb (has options REG_OPTION_VOLATILE)) eqn:Ev.
  { intros (-> & He2 & Hwf2 & Hd2 & Hn2). apply wp_ret. apply andb_true_iff in Ev as [[? ?]%andb_true_iff ?%negb_true_iff]. split_and!; [done|done|done|]. by right. }
  intros (-> & -> & ->). cbn iota. set (y := fresh_key n p options (r_time s)). set (z := set_wow _ _).
  rewrite wp_bind, wp_get_error, He1. change (0 =? STATUS_OBJECT_NAME_EXISTS) with false. cbn iota.
  destruct (linked_tree s k n p xp i nb wow y Hwf Hxp Hpn Hk Hshort Hl (fresh_new_child n p options (r_time s))) as [Hwf2 Hch2].
  fold z in Hwf2, Hch2. set (s2 := relinked s k y p z) in *.
  assert (Hy2 : r_keys s2 !! k = Some y) by (unfold s2; rewrite relinked_lookup by done; by rewrite decide_True).
  assert (Hz2 : r_keys s2 !! p = Some z) by (unfold s2; rewrite relinked_lookup by done; rewrite decide_False by done; by rewrite decide_True).
  assert (En : ∀ c, name_of s2 c = if decide (c = k) then Some (n, Some p) else name_of s c).
  { intros c. unfold s2. by rewrite (relinked_names s k y p z xp c). }
  assert (Hnk : ∀ c, c ∈ lp → c ≠ k) by (intros c Hc ->; destruct (path_present _ _ _ _ Hlp Hc); congruence).
  assert (Hmark : ∀ y3, touched y y3 → has (k_flags y3) (Z.lor KEY_DIRTY KEY_VOLATILE) = true).
  { intros y3 (_ & _ & _ & _ & _ & _ & _ & [Ef|Ef]); rewrite Ef; cbn [y k_flags fresh_key];
      destruct (has options REG_OPTION_CREATE_LINK), (has options REG_OPTION_VOLATILE); done. }
  rewrite wp_bind. destruct rel.
  2: { do 2 apply wp_ret. split_and!; try done.
    - exists y. split; [done|apply touched_refl].
    - intros u Hu. assert (u = y) as -> by congruence. apply Hmark, touched_refl.
    - intros c u Hc Hu. unfold s2 in Hu. rewrite relinked_lookup in Hu by done. rewrite decide_False in Hu by done.
      case_decide; [subst c; injection Hu as <-; by rewrite Hxp|by rewrite Hu]. }
  rewrite !wp_bind. eapply wp_delete_parent; [exact Hy2|done|]. cbn [of_option]. rewrite wp_bind, wp_ret.
  eapply wp_mono; [apply (touch_key_ok casemap s2 w1 p lp z)|].
  - apply (path_parents s); [done|]. intros c Hc. rewrite !parent_of_name, En. rewrite decide_False; [done|by apply Hnk].
  - done.
  - intros c u q Hu H1 H2 Eq. rewrite parent_of_name, En in Eq. unfold s2 in Hu. rewrite relinked_lookup in Hu by done.
    case_decide; [subst c; cbn in Eq; left; congruence|]. right. rewrite <- parent_of_name in Eq.
    assert (Hqk : q ≠ k) by (intros ->; destruct (parent_present s c k Hwf Eq); congruence).
    eapply marked_relink; try done. case_decide; [subst c; injection Hu as <-; by eapply (Hd p xp)|by eapply (Hd c u)].
  - intros _ s3 w3 (-> & Ht & Hd3 & Hm & _). apply wp_ret. destruct (touched_key _ _ _ _ Ht Hy2) as (y3 & Hy3 & T3).
    split; [by eapply wf_tree_touched|]. split; [done|]. split_and!; try done.
    + by rewrite (touched_children _ _ p Ht).
    + intros c. by rewrite (touched_names _ _ c Ht).
    + by exists y3.
    + intros u Hu. assert (u = y3) as -> by congruence. by apply Hmark.
    + intros Hv. rewrite Hv in Ev. by apply negb_false_iff in Ev.
Qed.

(** C27: Creating a subkey with a name that the parent does not have. On success the parent
    finds the new key, empty and with the flags and time that were asked for, under its
    name, case apart; every other key keeps its name and the tree stays well formed. If
    the request names the key relative to an open one, and dirty keys had dirty parents
    before, they still have: the new key and its parent are marked for saving or volatile,
    and so on upwards; a permanent key below a volatile one is refused and leaves no trace
    in the tree. Through an absolute path only the new key is marked, and no other key's
    flags change. When memory runs out nothing changes. *)
Theorem create_key_correct s w p xp n rel options access attributes
    (Hwf : wf_tree s) (Hd : dirty_ok s) (Hxp : r_keys s !! p = Some xp) (Hpn : k_name xp ≠ None)
    (Hn : bad_name n = false) (Hfree : children s p !! fold n = None) :
  wp (create_key casemap p n rel options access attributes) s w (λ r s' w', wf_tree s' ∧ (rel = true → dirty_ok s') ∧
    match r with
    | None => (∀ c, name_of s' c = name_of s c) ∧
        (w_error w' = STATUS_NO_MEMORY ∧ w_mem w ≠ [] ∧ s' = s ∨
         w_error w' = STATUS_CHILD_MUST_BE_VOLATILE ∧ rel = true ∧ has (k_flags xp) KEY_VOLATILE = true ∧
         has options REG_OPTION_VOLATILE = false)
    | Some k => w_error w' = 0 ∧ r_keys s !! k = None ∧ children s' p = <[fold n := k]> (children s p) ∧
        (∀ c, name_of s' c = if decide (c = k) then Some (n, Some p) else name_of s c) ∧
        (∃ y, r_keys s' !! k = Some y ∧ touched (fresh_key n p options (r_time s)) y) ∧ marked s' k ∧
        (if rel then marked s' p ∧ (has (k_flags xp) KEY_VOLATILE = true → has options REG_OPTION_VOLATILE = true)
         else ∀ c y, c ≠ k → r_keys s' !! c = Some y → k_flags <$> r_keys s !! c = Some (k_flags y))
    end).
Proof. exact (create_key_ok s w p xp n rel options access attributes Hwf Hd Hxp Hpn Hn Hfree). Qed.
(** A key that is created through an absolute path, so without a parent key in the
    request, is marked dirty but its parent is not: nobody touches it. The mark that
    saving looks for is missing, and changes below the new key do not set it either,
    because they stop at the first dirty key. *)
Theorem create_key_absolute_not_saved s w p xp n options access attributes
    (Hwf : wf_tree s) (Hd : dirty_ok s) (Hxp : r_keys s !! p = Some xp) (Hpn : k_name xp ≠ None)
    (Hn : bad_name n = false) (Hfree : children s p !! fold n = None) (Hmem : w_mem w = [])
    (Hclean : has (k_flags xp) (Z.lor KEY_DIRTY KEY_VOLATILE) = false) (Hopt : has options REG_OPTION_VOLATILE = false) :
  wp (create_key casemap p n false options access attributes) s w (λ r s' w', ∃ k y, r = Some k ∧ w_error w' = 0 ∧
    r_keys s' !! k = Some y ∧ k_name y = Some (n, Some p) ∧ has (k_flags y) KEY_DIRTY = true ∧
    ¬ marked s' p ∧ ¬ dirty_ok s' ∧ make_dirty k s' w' = Some (tt, s', w')).
Proof.
  pose proof (bad_name_short n Hn) as Hshort. assert (Hne : n ≠ []) by (intros ->; by vm_compute in Hn).
  unfold create_key. rewrite wp_bind, wp_get, wp_bind. unfold create_key_object. rewrite wp_bind. unfold clear_error. rewrite wp_set_error.
  set (w0 := World 0 (w_mem w)). rewrite wp_bind.
  assert (Eo : ∀ attr, create_named_object casemap p n attr = create_object casemap n p) by (intros; destruct n; done). rewrite Eo.
  eapply wp_mono; [apply (create_object_ok s w0 n p xp); done|]. intros [k|] s1 w1; [|by intros [[_ ?] _]].
  intros (Hk & [He1 Hw1] & i & nb & wow & Hl & ->). cbn [w_error w0] in He1. assert (Hkp : k ≠ p) by congruence.
  rewrite wp_bind, wp_get_error, He1. change (0 =? STATUS_OBJECT_NAME_EXISTS) with false. cbn [negb].
  eapply wp_mono; [apply (init_key_object_ok s w1 k n p xp i nb wow); done|]. intros r s2 w2. cbn [andb]. intros (-> & -> & ->).
  cbn iota. rewrite wp_bind, wp_get_error, He1. change (0 =? STATUS_OBJECT_NAME_EXISTS) with false. cbn iota. rewrite wp_bind. do 2 apply wp_ret.
  set (y := fresh_key n p options (r_time s)). set (z := set_wow _ _). set (s2 := relinked s k y p z).
  assert (Hy : r_keys s2 !! k = Some y) by (unfold s2; rewrite relinked_lookup by done; by rewrite decide_True).
  assert (Hz : r_keys s2 !! p = Some z) by (unfold s2; rewrite relinked_lookup by done; rewrite decide_False by done; by rewrite decide_True).
  assert (Hnm : ¬ marked s2 p) by (intros Hm; specialize (Hm z Hz); cbn in Hm; congruence).
  assert (Hyd : has (k_flags y) KEY_DIRTY = true) by (unfold y, fresh_key; cbn; rewrite Hopt; by destruct (has options REG_OPTION_CREATE_LINK)).
  exists k, y. split_and!; try done.
  - intros Hd2. apply Hnm. eapply (Hd2 k y p); [done|done| |].
    + unfold y, fresh_key. cbn. rewrite Hopt. by destruct (has options REG_OPTION_CREATE_LINK).
    + unfold parent_of. by rewrite Hy.
  - unfold make_dirty. rewrite (bind_run _ _ s2 w1 s2 s2 w1) by done. destruct (size (r_keys s2)) as [|m] eqn:Esz.
    { apply map_size_empty_iff in Esz. by rewrite Esz in Hy. }
    cbn [dirty_loop]. rewrite (bind_run _ _ s2 w1 y s2 w1) by (unfold read_key, bind, get; by rewrite Hy).
    by rewrite has_mask_lor, Hyd.
Qed.

(** ** Sequences of requests *)

Lemma wf_tree_stored s s' k l m : wf_tree s → stored_post casemap s s' k l m → wf_tree s'.
Proof.
  intros Hwf ((x & y & Hx & Hy & Hv & _ & _ & Ht) & [Htime Ho] & _).
  set (z := set_values (k_values y) (k_nb_values y) x) in *. set (s1 := on_keys (<[k := z]>) s).
  assert (Hwf1 : wf_tree s1).
  { pose proof (Hwf k x Hx) as W. eapply wf_tree_put; try done; [|apply W|apply W|apply W]. destruct Hv. by constructor. }
  eapply wf_tree_touched; [|exact Hwf1]. split; [done|]. intros c. unfold s1. cbn. destruct (decide (c = k)) as [->|Hne].
  - by rewrite lookup_insert_eq, Hy.
  - rewrite lookup_insert_ne by done. by apply Ho.
Qed.

Inductive registry_op :=
  | SetValue (k : Z) (name : list Z) (type : Z) (data : list Z)
  | GetValue (k : Z) (name : list Z) (max : Z)
  | DeleteValue (k : Z) (name : list Z)
  | CreateKey (parent : Z) (name : list Z) (options access attributes : Z)
  | DeleteKey (k : Z) (recurse : bool)
  | RenameKey (k : Z) (name : list Z).

Definition run_op (op : registry_op) : G unit :=
  match op with
  | SetValue k name type data => set_value casemap k name type data
  | GetValue k name max => let* _ := get_value casemap k name max in ret tt
  | DeleteValue k name => delete_value casemap k name
  | CreateKey p name options access attributes => let* _ := create_key casemap p name true options access attributes in ret tt
  | DeleteKey k recurse => let* _ := delete_key k recurse in ret tt
  | RenameKey k name => rename_key casemap k name
  end.

(** What the callers ensure: the key was found through a handle and is not deleted,
    names come from a request of bounded size, a key is created where the lookup found
    no such name; and, as the code requires, a key is not renamed to the next place. *)
Definition live (s : registry) (k : Z) : Prop := ∃ x, r_keys s !! k = Some x ∧ k_name x ≠ None.
Definition allowed (s : registry) (op : registry_op) : Prop :=
  match op with
  | SetValue k name _ _ | GetValue k name _ | DeleteValue k name => live s k ∧ short name
  | CreateKey p name _ _ _ => live s p ∧ bad_name name = false ∧ children s p !! fold name = None
  | DeleteKey k _ => live s k
  | RenameKey k name => live s k ∧ ∀ p, parent_of s k = Some (Some p) → ¬ sorts_next s k p name
  end.

(** The states that sequences of allowed requests reach, whatever memory is left. *)
Inductive reachable (s0 : registry) : registry → Prop :=
  | reach_start : reachable s0 s0
  | reach_step s w op s' w' : reachable s0 s → allowed s op → run_op op s w = Some (tt, s', w') → reachable s0 s'.
Lemma same_values_tree s s' k x :
  wf_tree s → dirty_ok s → r_keys s !! k = Some x → same_values s s' k x → wf_tree s' ∧ dirty_ok s'.
Proof.
  intros Hwf Hd Hx (nb & -> & Hroom & Hmin). pose proof (Hwf k x Hx) as W. unfold with_values. split; [|by eapply dirty_ok_put].
  eapply wf_tree_put; try done; [|apply W|apply W|apply W]. destruct (wk_values _ _ _ W). by constructor.
Qed.

Definition good (s : registry) : Prop := wf_tree s ∧ dirty_ok s.

Lemma live_path s k : good s → live s k → ∃ x l, r_keys s !! k = Some x ∧ k_name x ≠ None ∧ path s k l ∧ wf_values casemap x.
Proof.
  intros [Hwf _] (x & Hx & Hn). pose proof (Hwf k x Hx) as W. destruct (wk_path _ _ _ W Hn) as [l Hl]. exists x, l. by destruct W.
Qed.

Lemma op_good s w op : good s → allowed s op → wp (run_op op) s w (λ _ s' _, good s').
Proof.
  intros Hg Ha. pose proof Hg as [Hwf Hd]. destruct op as [k name type data|k name max|k name|p name options access attributes|k recurse|k name]; cbn [run_op allowed] in *.
  - destruct Ha as [Hlive Hn]. destruct (live_path s k Hg Hlive) as (x & l & Hx & _ & Hl & Hv).
    eapply wp_mono; [by apply (set_value_ok casemap s w k x l)|]. intros u s' w' H. cbn zeta in H.
    destruct (has (k_flags x) KEY_PREDEF); [by destruct H as [-> _]|]. case_bool_decide; [by destruct H as [-> _]|].
    destruct (has (k_flags x) KEY_SYMLINK && _); [by destruct H as [-> _]|]. destruct H as [(_ & _ & Hs)|[_ Hs]].
    + split; [by eapply wf_tree_stored|apply Hs].
    + by eapply same_values_tree.
  - destruct Ha as [Hlive Hn]. destruct (live_path s k Hg Hlive) as (x & l & Hx & _ & Hl & Hv). rewrite wp_bind.
    eapply wp_mono; [by apply (get_value_ok casemap s w k x name max)|]. intros r s' w' [-> _]. by apply wp_ret.
  - destruct Ha as [Hlive Hn]. destruct (live_path s k Hg Hlive) as (x & l & Hx & _ & Hl & Hv).
    eapply wp_mono; [by apply (delete_value_ok casemap s w k x l)|]. intros u s' w' H. cbn beta in H.
    destruct (has (k_flags x) KEY_PREDEF); [by destruct H as [-> _]|].
    destruct (value_map casemap (k_values x) !! fold name); [|by destruct H as [-> _]]. destruct H as [_ Hs].
    split; [by eapply wf_tree_stored|apply Hs].
  - destruct Ha as [(x & Hx & Hn) [Hbad Hfree]]. rewrite wp_bind.
    eapply wp_mono; [by eapply (create_key_ok s w p x _ true)|]. intros r s' w' (? & ? & _). apply wp_ret. split; auto.
  - destruct Ha as (x & Hx & Hn). rewrite wp_bind. eapply wp_mono; [by apply (delete_key_ok s w k x)|]. intros r s' w' H. apply wp_ret. cbn beta in H.
    destruct (k_name x) as [[n [p|]]|]; [|by destruct H as (_ & -> & _)|done]. destruct (has (k_flags x) KEY_PREDEF); [by destruct H as (_ & -> & _)|].
    destruct (negb recurse && _); [by destruct H as (_ & -> & _)|]. by destruct H as (? & ? & _).
  - destruct Ha as [(x & Hx & Hn) Hplace]. destruct (k_name x) as [[n q]|] eqn:En; [|done].
    eapply wp_mono; [apply (rename_key_ok s w k x n q name); try done|].
    { intros p ->. apply Hplace. by rewrite parent_of_name, (name_of_key _ _ _ Hx), En. }
    intros u s' w' H. cbn zeta beta in H. destruct (bad_name name); [by destruct H as [-> _]|]. destruct q as [p|]; [|by destruct H as [-> _]].
    destruct (children s p !! fold name); [by destruct H as [-> _]|]. destruct (bool_decide _ || _); [by destruct H as [-> _]|].
    destruct H as [[[-> _] _]|(_ & ? & ? & _)]; [done|by split].
Qed.
(** C3: The invariant of the registry, for requests as the handlers pass them on: on keys
    that are not deleted, with names of bounded size. From a well-formed tree where dirty
    keys have dirty parents, take any sequence of requests that set, get and delete
    values, delete keys, create a key relative to an open one where the lookup found
    none, or rename a key to a name that does not sort just after its own. With any
    failures of the allocator the sequence leads to such a tree, and the next such request
    ends without a failed assertion, a bad pointer or an access outside an array. The two
    exclusions are needed: see [rename_key_overwrites_sibling] and
    [create_key_absolute_not_saved]. *)
Theorem registry_requests_safe s0 s op w
    (Hwf : wf_tree s0) (Hd : dirty_ok s0) (Hr : reachable s0 s) (Ha : allowed s op) :
  wp (run_op op) s w (λ _ s' _, wf_tree s' ∧ dirty_ok s').
Proof.
  assert (Hg : good s).
  { clear Ha. induction Hr as [|s1 w1 op1 s2 w2 _ IH Ha1 Hrun]; [by split|]. pose proof (op_good s1 w1 op1 IH Ha1) as Hw.
    by rewrite (wp_run _ _ _ _ _ _ Hrun) in Hw. }
  exact (op_good s w op Hg Ha).
Qed.
End TreeProofs.

(** ** A concrete tree

    Machine with the subkeys Alpha and Gamma, and Sub below Alpha. *)

Definition tree_key (name : string) (parent : option Z) (subkeys : list Z) : key :=
  Key (Some (wide name, parent)) [] subkeys 8 None [] 0 0 0 [].
Definition demo_tree : registry := Registry
  (<[1 := tree_key "Machine" None [2; 3]]> (<[2 := tree_key "Alpha" (Some 1) [4]]>
   (<[3 := tree_key "Gamma" (Some 1) []]> (<[4 := tree_key "Sub" (Some 2) []]> ∅)))) [] 1000.

Ltac demo_cases H :=
  cbn in H; repeat (rewrite lookup_insert in H; case_decide; [subst; injection H as <-|]); try (by rewrite lookup_empty in H).

Lemma demo_tree_path1 : path demo_tree 1 [1].
Proof. by apply path_root. Qed.
Lemma demo_tree_path2 : path demo_tree 2 [2; 1].
Proof. apply path_step with 1; [done|apply demo_tree_path1]. Qed.
Lemma demo_tree_path3 : path demo_tree 3 [3; 1].
Proof. apply path_step with 1; [done|apply demo_tree_path1]. Qed.
Lemma demo_tree_path4 : path demo_tree 4 [4; 2; 1].
Proof. apply path_step with 2; [done|apply demo_tree_path2]. Qed.

Lemma demo_tree_wf : wf_tree demo_casemap demo_tree.
Proof.
  assert (Hkid : ∀ c k, (∃ n, name_of demo_tree c = Some (n, Some k)) ↔ (c = 2 ∧ k = 1) ∨ (c = 3 ∧ k = 1) ∨ (c = 4 ∧ k = 2)).
  { intros c k. split.
    - intros [n E]. unfold name_of in E. destruct (r_keys demo_tree !! c) as [x|] eqn:Hx; [|done]. demo_cases Hx; cbn in E; naive_solver.
    - intros [[-> ->]|[[-> ->]|[-> ->]]]; eexists; by vm_compute. }
  intros k x Hx. assert (Hpath : ∃ l, path demo_tree k l).
  { demo_cases Hx; eauto using demo_tree_path1, demo_tree_path2, demo_tree_path3, demo_tree_path4. }
  demo_cases Hx; constructor; cbn [tree_key k_subkeys k_nb_subkeys k_wow6432node k_flags k_name k_values k_nb_values]; try done;
    try (by right); try (by constructor; [apply SSorted_nil|constructor|done|left]);
    try (repeat constructor; vm_compute; done); try (intros c; rewrite Hkid; set_solver by lia).
Qed.

Lemma demo_tree_dirty : dirty_ok demo_tree.
Proof. intros k x p Hx. demo_cases Hx; done. Qed.

Lemma demo_no_predef k : ¬ predef_below demo_tree k.
Proof. intros (c & y & _ & Hy & Hf). demo_cases Hy; done. Qed.

Lemma demo_child c n p : name_of demo_tree c = Some (n, Some p) →
  (n = wide "Alpha" ∧ p = 1) ∨ (n = wide "Gamma" ∧ p = 1) ∨ (n = wide "Sub" ∧ p = 2).
Proof. intros E. unfold name_of in E. destruct (r_keys demo_tree !! c) as [x|] eqn:Hx; [|done]. demo_cases Hx; cbn in E; naive_solver. Qed.

Lemma demo_next : sorts_next demo_casemap demo_tree 2 1 (wide "Beta").
Proof.
  split; [by vm_compute|]. intros c n [[-> _]|[[-> _]|[_ Ep]]]%demo_child [H1 H2]; [by vm_compute in H1|by vm_compute in H2|done].
Qed.

Lemma demo_not_next p : ¬ sorts_next demo_casemap demo_tree 2 p (wide "Zeta") ∨ p ≠ 1.
Proof.
  destruct (decide (p = 1)) as [->|]; [left|by right]. intros [_ Hno]. apply (Hno 3 (wide "Gamma")); [done|]. by split; vm_compute.
Qed.

Lemma delete_key_correct_witness :
  wp (delete_key 2 true) demo_tree (World 0 []) (λ ok s' w', ok = true ∧ ∃ y, r_keys s' !! 4 = Some y ∧ gone y).
Proof.
  eapply wp_mono; [apply (delete_key_correct demo_casemap demo_tree (World 0 []) 2 (tree_key "Alpha" (Some 1) [4]) true
    demo_tree_wf demo_tree_dirty eq_refl)|].
  intros ok s' w' H. cbn beta iota in H. change (has (k_flags (tree_key "Alpha" (Some 1) [4])) KEY_PREDEF) with false in H.
  cbn [tree_key k_name negb andb] in H. destruct H as (_ & _ & _ & H). destruct ok; [|destruct H as (_ & _ & H); by apply demo_no_predef in H].
  split; [done|]. destruct H as [_ H]. destruct (H 4 _ eq_refl) as (y & Hy & Hb & _). exists y. split; [done|]. apply Hb.
  exists [4; 2; 1]. split; [apply demo_tree_path4|set_solver].
Defined.

Lemma rename_key_correct_witness :
  wp (rename_key demo_casemap 2 (wide "Zeta")) demo_tree (World 0 []) (λ _ s' w', wf_tree demo_casemap s' ∧
    children demo_casemap s' 1 !! fold_case demo_casemap (wide "ZETA") = Some 2).
Proof.
  eapply wp_mono; [apply (rename_key_correct demo_casemap demo_tree (World 0 []) 2 (tree_key "Alpha" (Some 1) [4]) (wide "Alpha") (Some 1) (wide "Zeta")
    demo_tree_wf demo_tree_dirty eq_refl eq_refl)|].
  - intros p [= <-]. by destruct (demo_not_next 1).
  - intros u s' w' H. cbn zeta beta in H. change (bad_name (wide "Zeta")) with false in H. cbn iota in H.
    replace (children demo_casemap demo_tree 1 !! fold_case demo_casemap (wide "Zeta")) with (@None Z) in H by by vm_compute.
    change (bool_decide (wow_of demo_tree 1 = Some 2) || is_wow6432node demo_casemap (wide "Zeta")) with false in H. cbn iota in H.
    destruct H as [[_ Hm]|(_ & Hwf & _ & _ & Hch & _)]; [by destruct Hm|]. split; [done|]. rewrite Hch.
    change (fold_case demo_casemap (wide "ZETA")) with (fold_case demo_casemap (wide "Zeta")). by rewrite lookup_insert_eq.
Defined.

Lemma rename_key_overwrites_sibling_witness :
  wp (rename_key demo_casemap 2 (wide "Beta")) demo_tree (World 0 []) (λ _ s' w', name_of s' 3 = Some (wide "Gamma", Some 1) ∧
    ∃ xp', r_keys s' !! 1 = Some xp' ∧ k_subkeys xp' = [2; 2]).
Proof.
  destruct (rename_key_overwrites_sibling demo_casemap demo_tree (World 0 []) 2 (tree_key "Alpha" (Some 1) [4]) (wide "Alpha") 1
    (tree_key "Machine" None [2; 3]) (wide "Beta") demo_tree_wf demo_tree_dirty eq_refl eq_refl eq_refl demo_next
    ltac:(by vm_compute) ltac:(by vm_compute) ltac:(by vm_compute) ltac:(by vm_compute) eq_refl) as (cur & Hcur & H).
  destruct cur as [|[|cur]]; [|done|done]. cbn in H. eapply wp_mono; [exact H|].
  intros u s' w' (_ & En & xp' & Hxp' & Es & _). split; [by rewrite En|]. by exists xp'.
Defined.

Lemma create_key_correct_witness :
  wp (create_key demo_casemap 2 (wide "New") true 0 0 0) demo_tree (World 0 []) (λ r s' w', wf_tree demo_casemap s' ∧
    ∃ k, r = Some k ∧ children demo_casemap s' 2 !! fold_case demo_casemap (wide "new") = Some k).
Proof.
  eapply wp_mono; [apply (create_key_correct demo_casemap demo_tree (World 0 []) 2 (tree_key "Alpha" (Some 1) [4]) (wide "New") true 0 0 0
    demo_tree_wf demo_tree_dirty eq_refl); [done|by vm_compute|by vm_compute]|].
  intros [k|] s' w' (Hwf & _ & H); (split; [done|]).
  - destruct H as (_ & _ & Hch & _). exists k. split; [done|]. rewrite Hch.
    change (fold_case demo_casemap (wide "new")) with (fold_case demo_casemap (wide "New")). by rewrite lookup_insert_eq.
  - destruct H as [_ [(_ & Hm & _)|(_ & _ & Hv & _)]]; [by destruct Hm|by vm_compute in Hv].
Defined.

Lemma create_key_absolute_not_saved_witness :
  wp (create_key demo_casemap 2 (wide "New") false 0 0 0) demo_tree (World 0 []) (λ r s' w', ¬ marked s' 2).
Proof.
  eapply wp_mono; [apply (create_key_absolute_not_saved demo_casemap demo_tree (World 0 []) 2 (tree_key "Alpha" (Some 1) [4]) (wide "New") 0 0 0
    demo_tree_wf demo_tree_dirty eq_refl); [done|by vm_compute|by vm_compute|done|by vm_compute|by vm_compute]|].
  by intros r s' w' (k & y & _ & _ & _ & _ & _ & Hm & _).
Defined.

Lemma registry_requests_safe_witness :
  wp (run_op demo_casemap (RenameKey 2 (wide "Zeta"))) demo_tree (World 0 [false]) (λ _ s' _, wf_tree demo_casemap s' ∧ dirty_ok s').
Proof.
  apply (registry_requests_safe demo_casemap demo_tree demo_tree _ _ demo_tree_wf demo_tree_dirty (reach_start _ _)).
  split; [by eexists|]. intros p [= <-]. by destruct (demo_not_next 1).
Defined.
