(* ===== verification/Token.v ===== *)
(** * Tokens and access checks (server/token.c, security.h)

    A token holds the SIDs of a user and of groups and the privileges of a process or
    thread. A security descriptor, as clients send it, is a header followed by an owner, a
    group, and two lists of access control entries (ACEs) of variable size; the code walks
    them with pointers, so here they are bytes in memory, [m], and a pointer is an offset.
    A read outside [m] gives [None]. The SIDs of a token are byte lists of their own.

    What is left out: the labels that [set_sd_defaults_from_token] stores, and handles to
    tokens (component Handles). *)

From S2P Require Import Prelude.

Definition MAX_ACL_LEN : Z := 65535.
Definition ACCESS_ALLOWED_ACE_TYPE : Z := 0.
Definition ACCESS_DENIED_ACE_TYPE : Z := 1.
Definition SYSTEM_AUDIT_ACE_TYPE : Z := 2.
Definition SYSTEM_ALARM_ACE_TYPE : Z := 3.
Definition SYSTEM_MANDATORY_LABEL_ACE_TYPE : Z := 0x11.
Definition INHERIT_ONLY_ACE : Z := 0x8.
Definition SE_DACL_PRESENT : Z := 0x4.
Definition GENERIC_READ : Z := 0x80000000.
Definition GENERIC_WRITE : Z := 0x40000000.
Definition GENERIC_EXECUTE : Z := 0x20000000.
Definition GENERIC_ALL : Z := 0x10000000.
Definition MAXIMUM_ALLOWED : Z := 0x02000000.
Definition ACCESS_SYSTEM_SECURITY : Z := 0x01000000.
Definition STANDARD_RIGHTS_REQUIRED : Z := 0x000f0000.
Definition SYNCHRONIZE : Z := 0x00100000.
Definition SE_GROUP_ENABLED_BY_DEFAULT : Z := 0x2.
Definition SE_GROUP_ENABLED : Z := 0x4.
Definition SE_GROUP_USE_FOR_DENY_ONLY : Z := 0x10.
Definition SE_PRIVILEGE_ENABLED_BY_DEFAULT : Z := 0x1.
Definition SE_PRIVILEGE_ENABLED : Z := 0x2.
Definition SE_PRIVILEGE_REMOVED : Z := 0x4.
Definition SE_PRIVILEGE_USED_FOR_ACCESS : Z := 0x80000000.
Definition STATUS_NOT_ALL_ASSIGNED : Z := 0x106.
Definition STATUS_PRIVILEGE_NOT_HELD : Z := 0xC0000061.
Definition STATUS_INVALID_SECURITY_DESCR : Z := 0xC0000079.
Definition STATUS_BAD_IMPERSONATION_LEVEL : Z := 0xC00000A5.
Definition STATUS_INVALID_ACL : Z := 0xC0000077.
Definition STATUS_NO_IMPERSONATION_TOKEN : Z := 0xC000005C.
Definition STATUS_ACCESS_VIOLATION : Z := 0xC0000005.
Definition STATUS_GENERIC_NOT_MAPPED : Z := 0xC00000E6.

(** ** Structures in memory *)

Definition u8_at (m : list Z) (off : Z) : option Z := if off <? 0 then None else m !! Z.to_nat off.
Definition u16_at (m : list Z) (off : Z) : option Z :=
  a ← u8_at m off; b ← u8_at m (off + 1); Some (a + 256 * b).
Definition u32_at (m : list Z) (off : Z) : option Z :=
  a ← u16_at m off; b ← u16_at m (off + 2); Some (a + 65536 * b).
Definition bytes_at (m : list Z) (off len : Z) : option (list Z) :=
  if (0 <=? off) && (0 <=? len) && (off + len <=? Z.of_nat (length m))
  then Some (take (Z.to_nat len) (drop (Z.to_nat off) m)) else None.

(** [struct sid]: revision, sub_count, 6 bytes of authority, sub-authorities. *)
Definition sid_len (m : list Z) (sid : Z) : option Z := n ← u8_at m (sid + 1); Some (8 + 4 * n).
Definition sid_valid_size (m : list Z) (sid size : Z) : option bool :=
  if size <? 8 then Some false else l ← sid_len m sid; Some (l <=? size).
(** [memcmp] reads both SIDs up to the length of the first. *)
Definition equal_sid (s1 : list Z) (m : list Z) (sid : Z) : option bool :=
  c1 ← u8_at s1 1;
  c2 ← u8_at m (sid + 1);
  if c1 =? c2 then
    l ← sid_len s1 0;
    a ← bytes_at s1 0 l;
    b ← bytes_at m sid l;
    Some (bool_decide (a = b))
  else Some false.

(** [struct acl]: revision, pad, size, count, pad; [struct ace]: type, flags, size, mask. *)
Definition acl_count (m : list Z) (acl : Z) : option Z := u16_at m (acl + 4).
Definition ace_first (acl : Z) : Z := acl + 8.
Definition ace_type (m : list Z) (ace : Z) : option Z := u8_at m ace.
Definition ace_flags (m : list Z) (ace : Z) : option Z := u8_at m (ace + 1).
Definition ace_size (m : list Z) (ace : Z) : option Z := u16_at m (ace + 2).
Definition ace_mask (m : list Z) (ace : Z) : option Z := u32_at m (ace + 4).
Definition ace_next (m : list Z) (ace : Z) : option Z := size ← ace_size m ace; Some (ace + size).

(** [struct security_descriptor]: control and the four lengths, then the four parts. *)
Definition sd_control (m : list Z) : option Z := u32_at m 0.
Definition sd_owner_len (m : list Z) : option Z := u32_at m 4.
Definition sd_group_len (m : list Z) : option Z := u32_at m 8.
Definition sd_sacl_len (m : list Z) : option Z := u32_at m 12.
Definition sd_dacl_len (m : list Z) : option Z := u32_at m 16.
Definition sd_get_owner (m : list Z) : option (option Z) :=
  l ← sd_owner_len m; Some (if truth l then Some 20 else None).
Definition sd_get_group (m : list Z) : option (option Z) :=
  l ← sd_group_len m; o ← sd_owner_len m; Some (if truth l then Some (20 + o) else None).
Definition sd_get_sacl (m : list Z) : option (option Z) :=
  l ← sd_sacl_len m; o ← sd_owner_len m; g ← sd_group_len m; Some (if truth l then Some (20 + o + g) else None).
(** Also gives [present]. *)
Definition sd_get_dacl (m : list Z) : option (bool * option Z) :=
  c ← sd_control m; l ← sd_dacl_len m; o ← sd_owner_len m; g ← sd_group_len m; s ← sd_sacl_len m;
  Some (has c SE_DACL_PRESENT, if truth l then Some (20 + o + g + s) else None).

Definition ace_type_known (t : Z) : bool :=
  (t =? ACCESS_DENIED_ACE_TYPE) || (t =? ACCESS_ALLOWED_ACE_TYPE) || (t =? SYSTEM_AUDIT_ACE_TYPE) ||
  (t =? SYSTEM_ALARM_ACE_TYPE) || (t =? SYSTEM_MANDATORY_LABEL_ACE_TYPE).

(** [ace->size - sizeof( *ace )] is converted to an unsigned 32-bit size. *)
Fixpoint acl_loop (m : list Z) (n : nat) (ace size : Z) : option bool :=
  match n with
  | O => Some true
  | S n' =>
      if size <? 8 then Some false else
      l ← ace_size m ace;
      if size <? l then Some false else
      t ← ace_type m ace;
      if negb (ace_type_known t) then Some false else
      ok ← sid_valid_size m (ace + 8) (u32 (l - 8));
      if negb ok then Some false else
      next ← ace_next m ace;
      acl_loop m n' next (size - l)
  end.
Definition acl_is_valid (m : list Z) (acl size : Z) : option bool :=
  if size <? 8 then Some false else
  count ← acl_count m acl;
  acl_loop m (Z.to_nat count) (ace_first acl) (Z.min size MAX_ACL_LEN - 8).

Definition get_sid_count_loop (m : list Z) : nat → Z → Z → option Z :=
  fix loop n sid size :=
    match n with
    | O => None
    | S n' =>
        ok ← sid_valid_size m sid size;
        if negb ok then Some 0 else
        l ← sid_len m sid;
        c ← loop n' (sid + l) (size - l);
        Some (1 + c)
    end.
(** Each SID takes at least 8 bytes. *)
Definition get_sid_count (m : list Z) (sid size : Z) : option Z := get_sid_count_loop m (S (Z.to_nat size)) sid size.

(** 1028 is [offsetof(struct sid, sub_auth[255])]. *)
Definition part_fits (len offset size : Z) : bool := negb ((1028 <=? len) || (size <? offset + len)).
Definition sid_part_ok (m : list Z) (sid : option Z) (len : Z) : option bool :=
  match sid with Some p => sid_valid_size m p len | None => Some true end.
Definition acl_part_ok (m : list Z) (acl : option Z) (len : Z) : option bool :=
  match acl with Some p => acl_is_valid m p len | None => Some true end.
Definition sd_is_valid (m : list Z) (size : Z) : option bool :=
  if size <? 20 then Some false else
  ol ← sd_owner_len m;
  if negb (part_fits ol 20 size) then Some false else
  owner ← sd_get_owner m;
  ok ← sid_part_ok m owner ol;
  if negb ok then Some false else
  gl ← sd_group_len m;
  if negb (part_fits gl (20 + ol) size) then Some false else
  group ← sd_get_group m;
  ok ← sid_part_ok m group gl;
  if negb ok then Some false else
  sl ← sd_sacl_len m;
  if (MAX_ACL_LEN <=? sl) || (size <? 20 + ol + gl + sl) then Some false else
  sacl ← sd_get_sacl m;
  ok ← acl_part_ok m sacl sl;
  if negb ok then Some false else
  dl ← sd_dacl_len m;
  if (MAX_ACL_LEN <=? dl) || (size <? 20 + ol + gl + sl + dl) then Some false else
  dacl ← sd_get_dacl m;
  acl_part_ok m dacl.2 dl.

(** ** Tokens *)

Definition luid : Type := Z * Z.
Record luid_attr := LuidAttr { la_luid : luid; la_attrs : Z }.
Record privilege := Privilege { p_luid : luid; p_enabled : bool; p_def : bool }.
Record group := Group { g_attrs : Z; g_sid : list Z }.

(** [owner] and [primary_group] point to the SID of a group, here its index;
    [t_owner] is [None] while it is not initialised. *)
Record token := Token {
  t_id : luid; t_modified_id : luid;
  t_privileges : list privilege; t_groups : list group;
  t_user : list Z; t_owner : option nat; t_primary_group : option nat;
  t_primary : bool; t_session_id : Z; t_default_dacl : option (list Z);
  t_impersonation_level : Z; t_elevation : Z
}.

Definition SeSecurityPrivilege : luid := (8, 0).
Definition SecurityAnonymous : Z := 0.
Definition SecurityDelegation : Z := 3.

Definition is_equal_luid (a b : luid) : bool := (a.1 =? b.1) && (a.2 =? b.2).

Definition set_privileges (l : list privilege) (t : token) : token :=
  Token (t_id t) (t_modified_id t) l (t_groups t) (t_user t) (t_owner t) (t_primary_group t) (t_primary t)
        (t_session_id t) (t_default_dacl t) (t_impersonation_level t) (t_elevation t).
Definition set_modified_id (i : luid) (t : token) : token :=
  Token (t_id t) i (t_privileges t) (t_groups t) (t_user t) (t_owner t) (t_primary_group t) (t_primary t)
        (t_session_id t) (t_default_dacl t) (t_impersonation_level t) (t_elevation t).
Definition add_group (g : group) (main : bool) (t : token) : token :=
  let i := length (t_groups t) in
  Token (t_id t) (t_modified_id t) (t_privileges t) (t_groups t ++ [g]) (t_user t)
        (if main then Some i else t_owner t) (if main then Some i else t_primary_group t) (t_primary t)
        (t_session_id t) (t_default_dacl t) (t_impersonation_level t) (t_elevation t).
Definition set_default_dacl (d : option (list Z)) (t : token) : token :=
  Token (t_id t) (t_modified_id t) (t_privileges t) (t_groups t) (t_user t) (t_owner t) (t_primary_group t) (t_primary t)
        (t_session_id t) d (t_impersonation_level t) (t_elevation t).

(** *** Privileges *)

Definition luid_and_attr_from_privilege (p : privilege) : luid_attr :=
  LuidAttr (p_luid p) (Z.lor (if p_enabled p then SE_PRIVILEGE_ENABLED else 0)
                             (if p_def p then SE_PRIVILEGE_ENABLED_BY_DEFAULT else 0)).
(** The position of the first privilege with this LUID. *)
Definition find_luid (l : list privilege) (i : luid) : option (nat * privilege) :=
  list_find (λ p, is_equal_luid i (p_luid p) = true) l.
Definition token_find_privilege (t : token) (i : luid) (enabled_only : bool) : option (nat * privilege) :=
  match find_luid (t_privileges t) i with
  | Some (n, p) => if enabled_only && negb (p_enabled p) then None else Some (n, p)
  | None => None
  end.

(** The result, and the array [usedprivs]. *)
Definition check_privilege (t : token) (r : luid_attr) : bool :=
  match token_find_privilege t (la_luid r) true with Some (_, p) => p_enabled p | None => false end.
Definition used_privilege (t : token) (r : luid_attr) : luid_attr :=
  if check_privilege t r then LuidAttr (la_luid r) (Z.lor (la_attrs r) SE_PRIVILEGE_USED_FOR_ACCESS) else r.
Definition token_check_privileges (t : token) (all_required : bool) (reqprivs : list luid_attr) : bool * list luid_attr :=
  let enabled_count := length (filter (λ r, check_privilege t r = true) reqprivs) in
  (if all_required then Nat.eqb enabled_count (length reqprivs) else Nat.ltb 0 enabled_count, map (used_privilege t) reqprivs).

(** [prev_luid_value]. *)
Record tokens := Tokens { prev_luid_value : luid }.
Abbreviation T := (M tokens).
Definition allocate_luid : T luid :=
  let* s := get in
  let l := (u32 ((prev_luid_value s).1 + 1), (prev_luid_value s).2) in
  put (Tokens l) >> ret l.

(** The loop of [token_adjust_privileges]: the token, and the saved previous states. *)
Fixpoint adjust_loop (t : token) (privs : list luid_attr) (room : nat) : T (token * list luid_attr) :=
  match privs with
  | [] => ret (t, [])
  | a :: privs =>
      match token_find_privilege t (la_luid a) false with
      | None => set_error STATUS_NOT_ALL_ASSIGNED >> adjust_loop t privs room
      | Some (n, p) =>
          if has (la_attrs a) SE_PRIVILEGE_REMOVED then adjust_loop (set_privileges (delete n (t_privileges t)) t) privs room
          else
            let p' := Privilege (p_luid p) (has (la_attrs a) SE_PRIVILEGE_ENABLED) (p_def p) in
            let* r := adjust_loop (set_privileges (<[n := p']> (t_privileges t)) t) privs (Nat.pred room) in
            ret (r.1, match room with O => r.2 | S _ => luid_and_attr_from_privilege p :: r.2 end)
      end
  end.
Definition token_adjust_privileges (t : token) (privs : list luid_attr) (mod_privs_count : nat) : T (token * list luid_attr) :=
  let* i := allocate_luid in
  adjust_loop (set_modified_id i t) privs mod_privs_count.
Definition token_disable_privileges (t : token) : T token :=
  let* i := allocate_luid in
  ret (set_privileges (map (λ p, Privilege (p_luid p) false (p_def p)) (t_privileges t)) (set_modified_id i t)).

(** *** Creating and duplicating tokens *)

Definition privilege_add (t : token) (i : luid) (enabled : bool) : T (option token) :=
  let* ok := mem_alloc in
  ret (if ok then Some (set_privileges (t_privileges t ++ [Privilege i enabled enabled]) t) else None).

Fixpoint add_groups (t : token) (groups : list group) (i primary_group : Z) : T (option token) :=
  match groups with
  | [] => ret (Some t)
  | g :: groups =>
      let* ok := mem_alloc in
      if negb ok then ret None else add_groups (add_group g (primary_group =? i) t) groups (i + 1) primary_group
  end.
Fixpoint add_privileges (t : token) (privs : list luid_attr) : T (option token) :=
  match privs with
  | [] => ret (Some t)
  | a :: privs =>
      let* t := privilege_add t (la_luid a) (has (la_attrs a) SE_PRIVILEGE_ENABLED) in
      match t with None => ret None | Some t => add_privileges t privs end
  end.

(** [default_dacl] is the memory that starts with the list; [default_dacl->size] bytes
    of it are copied. *)
Definition create_token (primary : bool) (session_id : Z) (user : list Z) (groups : list group) (privs : list luid_attr)
    (default_dacl : option (list Z)) (modified_id : option luid) (primary_group impersonation_level elevation : Z) : T (option token) :=
  let* ok := mem_alloc in
  if negb ok then ret None else
  let* id := allocate_luid in
  let* mid := (match modified_id with Some i => ret i | None => allocate_luid end) in
  let t := Token id mid [] [] user None None primary session_id None (if primary then -1 else impersonation_level) elevation in
  let* ok := mem_alloc in
  if negb ok then ret None else
  let* t := add_groups t groups 0 primary_group in
  match t with None => ret None | Some t =>
  let* t := add_privileges t privs in
  match t with None => ret None | Some t =>
  match default_dacl with
  | None => ret (Some t)
  | Some d =>
      match (size ← u16_at d 2; bytes_at d 0 size) with
      | None => crash
      | Some acl => let* ok := mem_alloc in ret (if ok then Some (set_default_dacl (Some acl) t) else None)
      end
  end end end.

(** [filter] is an array of SIDs in memory. *)
Fixpoint filter_group (g : group) (m : list Z) (filter : Z) (count : nat) : option bool :=
  match count with
  | O => Some false
  | S n =>
      eq ← equal_sid (g_sid g) m filter;
      if eq : bool then Some true else l ← sid_len m filter; filter_group g m (filter + l) n
  end.
Definition filter_privilege (p : privilege) (filter : list luid_attr) : bool :=
  existsb (λ a, is_equal_luid (p_luid p) (la_luid a)) filter.

Definition deny_only (g : group) : group :=
  Group (Z.lor (Z.ldiff (g_attrs g) (Z.lor SE_GROUP_ENABLED SE_GROUP_ENABLED_BY_DEFAULT)) SE_GROUP_USE_FOR_DENY_ONLY) (g_sid g).
Fixpoint copy_groups (src t : token) (i : nat) (groups : list group) (m : list Z) (filter : Z) (count : nat) : T (option token) :=
  match groups with
  | [] => ret (Some t)
  | g :: groups =>
      let* ok := mem_alloc in
      if negb ok then ret None else
      match filter_group g m filter count with
      | None => crash
      | Some f =>
          let g' := if f : bool then deny_only g else g in
          copy_groups src (add_group g' (bool_decide (t_primary_group src = Some i)) t) (S i) groups m filter count
      end
  end.
Fixpoint copy_privileges (t : token) (privs : list privilege) (filter : list luid_attr) : T (option token) :=
  match privs with
  | [] => ret (Some t)
  | p :: privs =>
      if filter_privilege p filter then copy_privileges t privs filter else
      let* t := privilege_add t (p_luid p) (p_enabled p) in
      match t with None => ret None | Some t => copy_privileges t privs filter end
  end.

(** Up to the security descriptor of the copy. *)
Definition token_duplicate (src : token) (primary : bool) (impersonation_level : Z)
    (remove_privs : list luid_attr) (m : list Z) (remove_groups : Z) (remove_group_count : nat) : T (option token) :=
  if negb primary && ((impersonation_level <? SecurityAnonymous) || (SecurityDelegation <? impersonation_level) ||
                      (negb (t_primary src) && (t_impersonation_level src <? impersonation_level)))
  then set_error STATUS_BAD_IMPERSONATION_LEVEL >> ret None else
  let modified_id := if primary || (impersonation_level =? t_impersonation_level src) then Some (t_modified_id src) else None in
  let* t := create_token primary (t_session_id src) (t_user src) [] [] (t_default_dacl src) modified_id 0 impersonation_level (t_elevation src) in
  match t with None => ret None | Some t =>
  let* t := copy_groups src t 0 (t_groups src) m remove_groups remove_group_count in
  match t with None => ret None | Some t =>
  c_assert (bool_decide (is_Some (t_primary_group t))) >>
  copy_privileges t (t_privileges src) remove_privs
  end end.

(** *** Access checks *)

Fixpoint group_sid_present (groups : list group) (m : list Z) (sid : Z) (deny : bool) : option bool :=
  match groups with
  | [] => Some false
  | g :: groups =>
      if negb (has (g_attrs g) SE_GROUP_ENABLED) then group_sid_present groups m sid deny
      else if negb deny && has (g_attrs g) SE_GROUP_USE_FOR_DENY_ONLY then group_sid_present groups m sid deny
      else eq ← equal_sid (g_sid g) m sid;
           if eq : bool then Some true else group_sid_present groups m sid deny
  end.
Definition token_sid_present (t : token) (m : list Z) (sid : Z) (deny : bool) : option bool :=
  eq ← equal_sid (t_user t) m sid;
  if eq : bool then Some true else group_sid_present (t_groups t) m sid deny.

Record generic_map := GenericMap { gm_read : Z; gm_write : Z; gm_exec : Z; gm_all : Z }.
Definition GENERIC_RIGHTS : Z := Z.lor GENERIC_READ (Z.lor GENERIC_WRITE (Z.lor GENERIC_EXECUTE GENERIC_ALL)).
Definition map_access (access : Z) (mapping : generic_map) : Z :=
  let access := if has access GENERIC_READ then Z.lor access (gm_read mapping) else access in
  let access := if has access GENERIC_WRITE then Z.lor access (gm_write mapping) else access in
  let access := if has access GENERIC_EXECUTE then Z.lor access (gm_exec mapping) else access in
  let access := if has access GENERIC_ALL then Z.lor access (gm_all mapping) else access in
  Z.ldiff access GENERIC_RIGHTS.

(** One round of the loop over the DACL: [current_access], [denied_access], and whether
    the loop ends here, by [goto done] or by the final [break], where [*granted_access]
    is still 0. *)
Definition dacl_step (t : token) (m : list Z) (mapping : generic_map) (desired : Z) (ace current denied : Z) : option (Z * Z * bool) :=
  flags ← ace_flags m ace;
  if has flags INHERIT_ONLY_ACE then Some (current, denied, false) else
  type ← ace_type m ace;
  if type =? ACCESS_DENIED_ACE_TYPE then
    present ← token_sid_present t m (ace + 8) true;
    if negb present then Some (current, denied, desired =? 0) else
    mask ← ace_mask m ace;
    let access := map_access mask mapping in
    if has desired MAXIMUM_ALLOWED then Some (current, Z.lor denied access, desired =? 0)
    else let denied := Z.lor denied (Z.ldiff access current) in
         if has desired access then Some (current, denied, true) else Some (current, denied, desired =? 0)
  else if type =? ACCESS_ALLOWED_ACE_TYPE then
    present ← token_sid_present t m (ace + 8) false;
    if negb present then Some (current, denied, desired =? 0) else
    mask ← ace_mask m ace;
    let access := map_access mask mapping in
    if has desired MAXIMUM_ALLOWED then Some (Z.lor current access, denied, desired =? 0)
    else Some (Z.lor current (Z.ldiff access denied), denied, desired =? 0)
  else Some (current, denied, desired =? 0).
Fixpoint dacl_loop (t : token) (m : list Z) (mapping : generic_map) (desired : Z) (n : nat) (ace current denied : Z) : option (Z * Z) :=
  match n with
  | O => Some (current, denied)
  | S n =>
      r ← dacl_step t m mapping desired ace current denied;
      if r.2 : bool then Some r.1 else
      next ← ace_next m ace;
      dacl_loop t m mapping desired n next r.1.1 r.1.2
  end.

(** What [token_access_check] returns and stores: [*granted_access], [*status],
    [*priv_count] if the pointer is not NULL, and [*privs] if it is written. *)
Record checked := Checked {
  c_return : Z; c_granted : Z; c_status : option Z; c_priv_count : option Z; c_priv : option luid_attr }.
Definition security_priv : luid_attr := LuidAttr SeSecurityPrivilege 0.

(** Steps 3 and 4, and the result. *)
Definition check_dacl (t : token) (m : list Z) (mapping : generic_map) (desired owner dacl current : Z)
    (count : option Z) (priv : option luid_attr) : option checked :=
  is_owner ← token_sid_present t m owner false;
  let current := if is_owner : bool then Z.lor current (Z.lor STANDARD_RIGHTS_REQUIRED SYNCHRONIZE) else current in
  if is_owner && (desired =? current) then Some (Checked STATUS_SUCCESS current (Some STATUS_SUCCESS) count priv) else
  n ← acl_count m dacl;
  r ← dacl_loop t m mapping desired (Z.to_nat n) (ace_first dacl) current 0;
  let granted := if has desired MAXIMUM_ALLOWED then Z.ldiff r.1 r.2
                 else if Z.land r.1 desired =? desired then Z.land r.1 desired else 0 in
  Some (Checked STATUS_SUCCESS granted (Some (if truth granted then STATUS_SUCCESS else STATUS_ACCESS_DENIED)) count priv).

Definition zero_count (priv_count : option Z) : option Z := option_map (λ _, 0) priv_count.
Definition token_access_check (t : token) (m : list Z) (desired : Z) (priv_count : option Z) (mapping : generic_map) : option checked :=
  if has desired GENERIC_RIGHTS then Some (Checked STATUS_GENERIC_NOT_MAPPED 0 None (zero_count priv_count) None) else
  dacl ← sd_get_dacl m;
  owner ← sd_get_owner m;
  group ← sd_get_group m;
  match owner, group with
  | Some owner, Some _ =>
      match dacl with
      | (true, Some dacl) =>
          if has desired ACCESS_SYSTEM_SECURITY then
            let '(held, used) := token_check_privileges t true [security_priv] in
            if held : bool then
              match priv_count with
              | Some n =>
                  if 1 <=? n then
                    if desired =? ACCESS_SYSTEM_SECURITY
                    then Some (Checked STATUS_SUCCESS ACCESS_SYSTEM_SECURITY (Some STATUS_SUCCESS) (Some 1) (head used))
                    else check_dacl t m mapping desired owner dacl ACCESS_SYSTEM_SECURITY (Some 1) (head used)
                  else Some (Checked STATUS_BUFFER_TOO_SMALL 0 None (Some 1) None)
              | None =>
                  if desired =? ACCESS_SYSTEM_SECURITY
                  then Some (Checked STATUS_SUCCESS ACCESS_SYSTEM_SECURITY (Some STATUS_SUCCESS) None None)
                  else check_dacl t m mapping desired owner dacl ACCESS_SYSTEM_SECURITY None None
              end
            else Some (Checked STATUS_SUCCESS 0 (Some STATUS_PRIVILEGE_NOT_HELD) (zero_count priv_count) None)
          else check_dacl t m mapping desired owner dacl 0 (zero_count priv_count) None
      | _ => Some (Checked STATUS_SUCCESS (if has desired MAXIMUM_ALLOWED then gm_all mapping else desired)
                           (Some STATUS_SUCCESS) (zero_count priv_count) None)
      end
  | _, _ => Some (Checked STATUS_INVALID_SECURITY_DESCR 0 None (zero_count priv_count) None)
  end.

(** [sd] is the security descriptor of the object, [map] its [map_access] operation;
    the result, and the new [*access]. *)
Definition check_object_access (t : token) (sd : option (list Z)) (map : Z → Z) (access : Z) : T (bool * Z) :=
  match sd with
  | None => ret (true, if has access MAXIMUM_ALLOWED then map GENERIC_ALL else access)
  | Some m =>
      let mapping := GenericMap (map GENERIC_READ) (map GENERIC_WRITE) (map GENERIC_EXECUTE) (map GENERIC_ALL) in
      match token_access_check t m access None mapping with
      | None => crash
      | Some r =>
          let res := (c_return r =? STATUS_SUCCESS) && bool_decide (c_status r = Some STATUS_SUCCESS) in
          (if res then ret tt else set_error STATUS_ACCESS_DENIED) >>
          ret (res, c_granted r)
      end
  end.

(** ** Requests

    The token is the one that the handle leads to. *)

(** [set_reply_data_size]: did it get the memory it asked for? *)
Definition set_reply_data_size (size : Z) : T bool := if size =? 0 then ret true else mem_alloc.
Definition found_privilege (t : token) (a : luid_attr) : bool := bool_decide (is_Some (token_find_privilege t (la_luid a) false)).

(** The new token, [reply->len] and the entries saved in the reply. *)
Definition req_adjust_token_privileges (t : token) (disable_all get_modified_state : bool) (privs : list luid_attr) (reply_max : Z)
  : T (token * Z * list luid_attr) :=
  let modified := if get_modified_state && negb disable_all
                  then Z.min (Z.of_nat (length (filter (λ a, found_privilege t a = true) privs))) (reply_max / 12) else 0 in
  let* ok := set_reply_data_size (modified * 12) in
  if disable_all then let* t := token_disable_privileges t in ret (t, modified * 12, [])
  else
    let* r := token_adjust_privileges t privs (Z.to_nat modified) in
    c_assert (ok || bool_decide (r.2 = [])) >>
    ret (r.1, modified * 12, r.2).

(** [reply->len] and the reply. *)
Definition req_get_token_privileges (t : token) (reply_max : Z) : T (Z * list luid_attr) :=
  let len := Z.of_nat (length (t_privileges t)) * 12 in
  if len <=? reply_max then
    let* ok := set_reply_data_size len in
    ret (len, if ok then map luid_and_attr_from_privilege (t_privileges t) else [])
  else set_error STATUS_BUFFER_TOO_SMALL >> ret (len, []).

Definition req_check_token_privileges (t : token) (all_required : bool) (privs : list luid_attr) (reply_max : Z) : T (bool * list luid_attr) :=
  if negb (t_primary t) && (t_impersonation_level t <=? SecurityAnonymous) then set_error STATUS_BAD_IMPERSONATION_LEVEL >> ret (false, [])
  else if Z.of_nat (length privs) * 12 <=? reply_max then
    let* ok := set_reply_data_size (Z.of_nat (length privs) * 12) in
    let r := token_check_privileges t all_required privs in
    ret (r.1, if ok then r.2 else [])
  else set_error STATUS_BUFFER_OVERFLOW >> ret (false, []).

(** The access granted, the access status (0 if not stored), [privileges_len] and the
    privileges used. [priv] is cleared first, and copied without a look at the result of
    [set_reply_data_size]. *)
Definition req_access_check (object : T token) (m : list Z) (desired : Z) (mapping : generic_map) (reply_max : Z) : T (Z * Z * Z * list luid_attr) :=
  match sd_is_valid m (Z.of_nat (length m)) with
  | None => crash
  | Some false => set_error STATUS_ACCESS_VIOLATION >> ret (0, 0, 0, [])
  | Some true =>
      let* t := object in
      if t_primary t then set_error STATUS_NO_IMPERSONATION_TOKEN >> ret (0, 0, 0, []) else
      if t_impersonation_level t <=? SecurityAnonymous then set_error STATUS_BAD_IMPERSONATION_LEVEL >> ret (0, 0, 0, []) else
      match token_access_check t m desired (Some 1) mapping with
      | None => crash
      | Some r =>
          let count := default 1 (c_priv_count r) in
          let len := count * 12 in
          let* privs := (if (0 <? count) && (len <=? reply_max) then
                           let* ok := mem_alloc in
                           if ok then ret [default (LuidAttr (0, 0) 0) (c_priv r)] else crash
                         else ret []) in
          set_error (c_return r) >>
          ret (c_granted r, default 0 (c_status r), len, privs)
      end
  end.

Definition listed_groups (t : token) (attr_mask : Z) : list group :=
  filter (λ g, negb (truth attr_mask && negb (has (g_attrs g) attr_mask)) = true) (t_groups t).
(** The lengths of the attributes and of the SIDs, and the reply. *)
Definition req_get_token_groups (t : token) (attr_mask reply_max : Z) : T (Z * Z * list group) :=
  let groups := listed_groups t attr_mask in
  let sid_len := foldr (λ g n, Z.of_nat (length (g_sid g)) + n) 0 groups in
  let attr_len := 4 * Z.of_nat (length groups) in
  if attr_len + sid_len <=? reply_max then
    let* ok := set_reply_data_size (attr_len + sid_len) in
    ret (attr_len, sid_len, if ok then groups else [])
  else set_error STATUS_BUFFER_TOO_SMALL >> ret (attr_len, sid_len, []).

Definition req_get_token_default_dacl (t : token) (reply_max : Z) : T (Z * list Z) :=
  match t_default_dacl t with
  | None => ret (0, [])
  | Some d =>
      match u16_at d 2 with
      | None => crash
      | Some len =>
          if len <=? reply_max then
            let* ok := set_reply_data_size len in
            if negb ok then ret (len, []) else
            match bytes_at d 0 len with Some data => ret (len, data) | None => crash end
          else set_error STATUS_BUFFER_TOO_SMALL >> ret (len, [])
      end
  end.

(** [acl] is the data of the request. *)
Definition req_set_token_default_dacl (object : T token) (acl : list Z) : T (option token) :=
  match (if bool_decide (acl = []) then Some true else acl_is_valid acl 0 (Z.of_nat (length acl))) with
  | None => crash
  | Some false => set_error STATUS_INVALID_ACL >> ret None
  | Some true =>
      let* t := object in
      if bool_decide (acl = []) then ret (Some (set_default_dacl None t)) else
      let* ok := mem_alloc in
      ret (Some (set_default_dacl (if ok then Some acl else None) t))
  end.

Definition luid_attr_at (m : list Z) (off : Z) : option luid_attr :=
  low ← u32_at m off; high ← u32_at m (off + 4); attrs ← u32_at m (off + 8); Some (LuidAttr (low, s32 high) attrs).
Fixpoint luid_attrs_at (m : list Z) (off : Z) (n : nat) : option (list luid_attr) :=
  match n with
  | O => Some []
  | S n => a ← luid_attr_at m off; l ← luid_attrs_at m (off + 12) n; Some (a :: l)
  end.
(** [m] is the data of the request. *)
Definition req_filter_token (src : token) (privileges_size : Z) (m : list Z) : T (option token) :=
  let size := Z.of_nat (length m) in
  let priv_count := Z.min privileges_size size / 12 in
  let groups := priv_count * 12 in
  match (privs ← luid_attrs_at m 0 (Z.to_nat priv_count); n ← get_sid_count m groups (size - groups); Some (privs, n)) with
  | None => crash
  | Some (privs, n) => token_duplicate src (t_primary src) (t_impersonation_level src) privs m groups (Z.to_nat n)
  end.

(** ** Reading memory *)

#[local] Arguments u8_at : simpl never.
#[local] Arguments u16_at : simpl never.
#[local] Arguments u32_at : simpl never.
#[local] Arguments bytes_at : simpl never.
#[local] Arguments sid_len : simpl never.
#[local] Arguments equal_sid : simpl never.
#[local] Arguments token_sid_present : simpl never.
#[local] Arguments map_access : simpl never.
#[local] Arguments get_sid_count : simpl never.
#[local] Arguments find_luid : simpl never.

Definition bytes (m : list Z) : Prop := Forall (λ b, 0 ≤ b < 256) m.

Lemma u8_at_in m off : bytes m → 0 ≤ off < Z.of_nat (length m) → ∃ v, u8_at m off = Some v ∧ 0 ≤ v < 256.
Proof.
  intros Hm Hoff. unfold u8_at. destruct (Z.ltb_spec off 0); [lia|].
  destruct (lookup_lt_is_Some_2 m (Z.to_nat off)) as [v Hv]; [lia|].
  exists v. split; [done|]. by eapply (Forall_lookup_1 _ _ _ _ Hm).
Qed.

Lemma u16_at_in m off : bytes m → 0 ≤ off → off + 2 ≤ Z.of_nat (length m) → ∃ v, u16_at m off = Some v ∧ 0 ≤ v < 65536.
Proof.
  intros Hm ??. unfold u16_at.
  destruct (u8_at_in m off Hm) as (a & -> & ?); [lia|].
  destruct (u8_at_in m (off + 1) Hm) as (b & -> & ?); [lia|]. cbn. eexists. split; [done|]. lia.
Qed.

Lemma u32_at_in m off : bytes m → 0 ≤ off → off + 4 ≤ Z.of_nat (length m) → ∃ v, u32_at m off = Some v ∧ 0 ≤ v < 4294967296.
Proof.
  intros Hm ??. unfold u32_at.
  destruct (u16_at_in m off Hm) as (a & -> & ?); [lia..|].
  destruct (u16_at_in m (off + 2) Hm) as (b & -> & ?); [lia..|]. cbn. eexists. split; [done|]. lia.
Qed.

Lemma u8_at_range m off v : bytes m → u8_at m off = Some v → 0 ≤ off < Z.of_nat (length m) ∧ 0 ≤ v < 256.
Proof.
  intros Hm. unfold u8_at. case_match eqn:E; [done|]. apply Z.ltb_ge in E. intros Hv.
  pose proof (Forall_lookup_1 _ _ _ _ Hm Hv). cbn in *. apply lookup_lt_Some in Hv. lia.
Qed.

Lemma u16_at_range m off v : bytes m → u16_at m off = Some v → 0 ≤ off ∧ off + 2 ≤ Z.of_nat (length m) ∧ 0 ≤ v < 65536.
Proof.
  intros Hm. unfold u16_at. destruct (u8_at m off) eqn:E1; [|done]. destruct (u8_at m (off + 1)) eqn:E2; [|done].
  cbn. intros [= <-]. apply u8_at_range in E1, E2; [|done..]. lia.
Qed.

Lemma u32_at_range m off v : bytes m → u32_at m off = Some v → 0 ≤ off ∧ off + 4 ≤ Z.of_nat (length m) ∧ 0 ≤ v < 4294967296.
Proof.
  intros Hm. unfold u32_at. destruct (u16_at m off) eqn:E1; [|done]. destruct (u16_at m (off + 2)) eqn:E2; [|done].
  cbn. intros [= <-]. apply u16_at_range in E1, E2; [|done..]. lia.
Qed.

Lemma bytes_at_in m off len : 0 ≤ off → 0 ≤ len → off + len ≤ Z.of_nat (length m) →
  bytes_at m off len = Some (take (Z.to_nat len) (drop (Z.to_nat off) m)).
Proof.
  intros. unfold bytes_at.
  rewrite (proj2 (Z.leb_le 0 off)), (proj2 (Z.leb_le 0 len)), (proj2 (Z.leb_le _ _)) by lia. done.
Qed.

Lemma bytes_at_inv m off len l : bytes_at m off len = Some l →
  0 ≤ off ∧ 0 ≤ len ∧ off + len ≤ Z.of_nat (length m) ∧ l = take (Z.to_nat len) (drop (Z.to_nat off) m).
Proof. unfold bytes_at. case_match eqn:E; [|done]. rewrite !andb_true_iff, !Z.leb_le in E. naive_solver. Qed.

Lemma u8_at_bytes m off len l i : bytes_at m off len = Some l → 0 ≤ i < len → u8_at l i = u8_at m (off + i).
Proof.
  intros (?&?&?&->)%bytes_at_inv ?. unfold u8_at. rewrite !(proj2 (Z.ltb_ge _ _)) by lia.
  rewrite lookup_take_lt, lookup_drop by lia. f_equal. lia.
Qed.

(** *** SIDs *)

Definition wf_sid (s : list Z) : Prop := sid_len s 0 = Some (Z.of_nat (length s)) ∧ bytes s.
Definition sid_at (m : list Z) (off : Z) : option (list Z) := l ← sid_len m off; bytes_at m off l.

Lemma sid_at_len m off s : sid_at m off = Some s → sid_len m off = Some (Z.of_nat (length s)).
Proof.
  unfold sid_at. destruct (sid_len m off) as [l|]; [|done]. cbn. intros (?&?&?&->)%bytes_at_inv.
  rewrite length_take, length_drop. f_equal. lia.
Qed.

Lemma wf_sid_at m off s : bytes m → sid_at m off = Some s → wf_sid s.
Proof.
  intros Hm Hs. pose proof (sid_at_len _ _ _ Hs) as Hlen. unfold sid_at in Hs. rewrite Hlen in Hs. cbn in Hs.
  unfold sid_len in Hlen. destruct (u8_at m (off + 1)) as [c|] eqn:Hc; [|done]. cbn in Hlen.
  pose proof (u8_at_range _ _ _ Hm Hc). assert (8 + 4 * c = Z.of_nat (length s)) as Hl by congruence.
  split.
  - unfold sid_len. change (0 + 1) with 1. rewrite (u8_at_bytes _ _ _ _ _ Hs), Hc by lia. cbn. by rewrite Hl.
  - apply bytes_at_inv in Hs as (_ & _ & _ & ->). by apply Forall_take, Forall_drop.
Qed.

Lemma sid_valid_at m off size : bytes m → 0 ≤ off → off + size ≤ Z.of_nat (length m) →
  sid_valid_size m off size = Some true → ∃ s, sid_at m off = Some s.
Proof.
  intros Hm ?? H. unfold sid_valid_size in H. destruct (Z.ltb_spec size 8); [done|]. unfold sid_at.
  destruct (sid_len m off) as [l|] eqn:Hl; [|done]. cbn in H |- *.
  assert (l ≤ size) by (apply Z.leb_le; congruence). unfold sid_len in Hl.
  destruct (u8_at m (off + 1)) eqn:E; [|done]. apply u8_at_range in E; [|done]. cbn in Hl.
  rewrite bytes_at_in by (simplify_eq; lia). eauto.
Qed.

Lemma equal_sid_at s m off s' : bytes m → wf_sid s → sid_at m off = Some s' →
  equal_sid s m off = Some (bool_decide (s = s')).
Proof.
  intros Hm [Hs Hb] Hat. pose proof (sid_at_len _ _ _ Hat) as Hlen. unfold sid_at in Hat. rewrite Hlen in Hat. cbn in Hat.
  unfold equal_sid. rewrite Hs. unfold sid_len in Hs, Hlen. change (0 + 1) with 1 in Hs.
  destruct (u8_at s 1) as [c1|] eqn:Hc1; [|done]. destruct (u8_at m (off + 1)) as [c2|] eqn:Hc2; [|done].
  pose proof (u8_at_range _ _ _ Hm Hc2). cbn in Hs, Hlen |- *.
  destruct (Z.eqb_spec c1 c2) as [->|Hne].
  - assert (length s = length s') as Hl by (simplify_eq; lia).
    rewrite (bytes_at_in s 0) by lia. rewrite Hl, Hat. cbn. by rewrite drop_0, <-Hl, Nat2Z.id, firstn_all.
  - rewrite bool_decide_false; [done|]. intros ->. simplify_eq. lia.
Qed.

(** ** Access checks: the specification

    The entries of an access control list, and the rights that one of them denies or
    allows to a token. *)

Definition wf_token (t : token) : Prop := wf_sid (t_user t) ∧ Forall (λ g, wf_sid (g_sid g)) (t_groups t).

Definition counts (deny : bool) (g : group) : bool :=
  has (g_attrs g) SE_GROUP_ENABLED && (deny || negb (has (g_attrs g) SE_GROUP_USE_FOR_DENY_ONLY)).
Definition sid_held (t : token) (sid : list Z) (deny : bool) : bool :=
  bool_decide (t_user t = sid) || existsb (λ g, counts deny g && bool_decide (g_sid g = sid)) (t_groups t).

Record entry := Entry { e_type : Z; e_flags : Z; e_mask : Z; e_sid : list Z }.
Definition entry_at (m : list Z) (ace : Z) : option entry :=
  type ← ace_type m ace; flags ← ace_flags m ace; mask ← ace_mask m ace; sid ← sid_at m (ace + 8);
  Some (Entry type flags mask sid).
Fixpoint entries (m : list Z) (n : nat) (ace : Z) : option (list entry) :=
  match n with
  | O => Some []
  | S n => e ← entry_at m ace; next ← ace_next m ace; l ← entries m n next; Some (e :: l)
  end.

Section spec.
Context (t : token) (mapping : generic_map).

Definition effect (type : Z) (deny : bool) (e : entry) : Z :=
  if has (e_flags e) INHERIT_ONLY_ACE then 0
  else if (e_type e =? type) && sid_held t (e_sid e) deny then map_access (e_mask e) mapping else 0.
Definition denied : entry → Z := effect ACCESS_DENIED_ACE_TYPE true.
Definition allowed : entry → Z := effect ACCESS_ALLOWED_ACE_TYPE false.
Definition union (f : entry → Z) (es : list entry) : Z := foldr (λ e a, Z.lor (f e) a) 0 es.

(** All of [desired] is allowed before an entry denies a part of it. *)
Definition grantable (desired current : Z) (es : list entry) : Prop :=
  ∃ k, Forall (λ e, Z.land desired (denied e) = 0) (take k es) ∧
       Z.land (Z.lor current (union allowed (take k es))) desired = desired.
End spec.

(** *** Rights as sets of bits *)

Lemma contains_spec x d : Z.land x d = d ↔ ∀ i, 0 ≤ i → Z.testbit d i = true → Z.testbit x i = true.
Proof.
  split.
  - intros <- i ?. rewrite Z.land_spec, andb_true_iff. tauto.
  - intros H. apply Z.bits_inj'. intros i Hi. rewrite Z.land_spec. specialize (H i Hi).
    destruct (Z.testbit d i); [by rewrite H|apply andb_false_r].
Qed.

Lemma disjoint_spec d x : Z.land d x = 0 ↔ ∀ i, 0 ≤ i → Z.testbit d i = true → Z.testbit x i = false.
Proof.
  split.
  - intros H i ? Hd. apply (f_equal (λ z, Z.testbit z i)) in H. by rewrite Z.land_spec, Hd, Z.bits_0 in H.
  - intros H. apply Z.bits_inj'. intros i Hi. rewrite Z.land_spec, Z.bits_0. specialize (H i Hi).
    destruct (Z.testbit d i); [by rewrite H|done].
Qed.

Lemma has_false x m : has x m = false ↔ Z.land x m = 0.
Proof. unfold has. destruct (Z.eqb_spec (Z.land x m) 0); naive_solver. Qed.

Lemma union_cons f e es : union f (e :: es) = Z.lor (f e) (union f es).
Proof. done. Qed.

Lemma grantable_now t mapping d c es : Z.land c d = d → grantable t mapping d c es.
Proof. intros H. exists O. split; [constructor|]. cbn. by rewrite Z.lor_0_r. Qed.

Lemma grantable_nil t mapping d c : grantable t mapping d c [] ↔ Z.land c d = d.
Proof.
  split; [|apply grantable_now]. intros (k & _ & H). rewrite take_nil in H. cbn in H. by rewrite Z.lor_0_r in H.
Qed.

Lemma grantable_denied t mapping d c e es :
  Z.land d (denied t mapping e) ≠ 0 → grantable t mapping d c (e :: es) ↔ Z.land c d = d.
Proof.
  intros Hd. split; [|apply grantable_now]. intros ([|k] & Hk & H).
  - cbn in H. by rewrite Z.lor_0_r in H.
  - by apply Forall_inv in Hk.
Qed.

Lemma grantable_cons t mapping d c c' e es :
  Z.land d (denied t mapping e) = 0 → Z.land c' d = Z.land (Z.lor c (allowed t mapping e)) d →
  grantable t mapping d c (e :: es) ↔ grantable t mapping d c' es.
Proof.
  intros Hd Hc. split.
  - intros ([|k] & Hk & H).
    + apply grantable_now. rewrite Hc. apply contains_spec. intros i ? Hi. cbn in H. rewrite Z.lor_0_r in H.
      rewrite Z.lor_spec. by rewrite (proj1 (contains_spec _ _) H i).
    + exists k. split; [by apply Forall_inv_tail in Hk|]. etransitivity; [|exact H].
      rewrite firstn_cons, union_cons, !Z.land_lor_distr_l, Hc, Z.land_lor_distr_l. z_bits.
  - intros (k & Hk & H). exists (S k). split; [by constructor|]. etransitivity; [|exact H].
    rewrite firstn_cons, union_cons, !Z.land_lor_distr_l, Hc, Z.land_lor_distr_l. z_bits.
Qed.

(** *** The loop over the DACL *)

Lemma token_sid_present_held t m off sid deny : bytes m → wf_token t → sid_at m off = Some sid →
  token_sid_present t m off deny = Some (sid_held t sid deny).
Proof.
  intros Hm [Hu Hg] Hs. unfold token_sid_present, sid_held. rewrite (equal_sid_at _ _ _ sid) by done. cbn.
  case_bool_decide; [done|]. cbn. induction Hg as [|g groups Hwf Hg IH]; [done|]. cbn [group_sid_present existsb].
  rewrite IH, (equal_sid_at _ _ _ sid) by done. unfold counts.
  destruct (has (g_attrs g) SE_GROUP_ENABLED), deny, (has (g_attrs g) SE_GROUP_USE_FOR_DENY_ONLY); cbn; by try case_bool_decide.
Qed.

Lemma entry_at_parts m ace e : entry_at m ace = Some e →
  ace_type m ace = Some (e_type e) ∧ ace_flags m ace = Some (e_flags e) ∧ ace_mask m ace = Some (e_mask e) ∧
  sid_at m (ace + 8) = Some (e_sid e).
Proof. unfold entry_at. intros. repeat case_match; simplify_option_eq; done. Qed.

Lemma dacl_step_max t m mapping d ace e c x : bytes m → wf_token t → entry_at m ace = Some e →
  has d MAXIMUM_ALLOWED = true →
  dacl_step t m mapping d ace c x = Some (Z.lor c (allowed t mapping e), Z.lor x (denied t mapping e), false).
Proof.
  intros Hm Ht (Ety & Efl & Ema & Es)%entry_at_parts Hmax. unfold dacl_step, allowed, denied, effect.
  assert ((d =? 0) = false) as Hd. { apply Z.eqb_neq. intros ->. done. }
  rewrite Efl, Ety, Ema. cbn. rewrite !(token_sid_present_held _ _ _ (e_sid e)), Hmax, Hd by done.
  destruct (has (e_flags e) INHERIT_ONLY_ACE); [by rewrite !Z.lor_0_r|]. cbn.
  destruct (Z.eqb_spec (e_type e) ACCESS_DENIED_ACE_TYPE) as [->|]; cbn.
  { destruct (sid_held _ _ true); cbn; by rewrite ?Z.lor_0_r. }
  rewrite Z.lor_0_r. destruct (e_type e =? ACCESS_ALLOWED_ACE_TYPE); cbn; [|by rewrite Z.lor_0_r].
  destruct (sid_held _ _ false); cbn; by rewrite ?Z.lor_0_r.
Qed.

Lemma dacl_step_some t m mapping d ace e c x : bytes m → wf_token t → entry_at m ace = Some e →
  has d MAXIMUM_ALLOWED = false → Z.land d x = 0 →
  ∃ c' x' stop, dacl_step t m mapping d ace c x = Some (c', x', stop) ∧
    Z.land c' d = Z.land (Z.lor c (allowed t mapping e)) d ∧
    if stop : bool then d = 0 ∨ Z.land d (denied t mapping e) ≠ 0 ∧ c' = c
    else Z.land d x' = 0 ∧ Z.land d (denied t mapping e) = 0.
Proof.
  intros Hm Ht (Ety & Efl & Ema & Es)%entry_at_parts Hmax Hx. unfold dacl_step, allowed, denied, effect.
  rewrite Efl, Ety, Ema. cbn. rewrite !(token_sid_present_held _ _ _ (e_sid e)), Hmax by done.
  assert (Z.land d 0 = 0) as H0 by apply Z.land_0_r.
  destruct (has (e_flags e) INHERIT_ONLY_ACE); [eexists _, _, false; by rewrite Z.lor_0_r|]. cbn.
  assert (∀ a c', Z.land d a = 0 → if d =? 0 then d = 0 ∨ Z.land d a ≠ 0 ∧ c' = c else Z.land d x = 0 ∧ Z.land d a = 0) as Hstop.
  { intros. destruct (Z.eqb_spec d 0); auto. }
  destruct (Z.eqb_spec (e_type e) ACCESS_DENIED_ACE_TYPE) as [->|]; cbn.
  { destruct (sid_held _ _ true); cbn; [|eexists _, _, _; split; [done|]; rewrite Z.lor_0_r; split; [done|by apply Hstop]].
    unfold has at 1. destruct (Z.eqb_spec (Z.land d (map_access (e_mask e) mapping)) 0) as [Ha|]; cbn.
    - eexists _, _, _. split; [done|]. rewrite Z.lor_0_r. split; [done|]. destruct (Z.eqb_spec d 0); [auto|].
      split; [|done]. rewrite Z.land_lor_distr_r, Hx. cbn. apply disjoint_spec. intros i ? Hi. rewrite Z.ldiff_spec.
      by rewrite (proj1 (disjoint_spec _ _) Ha i).
    - eexists _, _, _. split; [done|]. rewrite Z.lor_0_r. auto. }
  destruct (e_type e =? ACCESS_ALLOWED_ACE_TYPE); cbn; [|eexists _, _, _; split; [done|]; rewrite Z.lor_0_r; split; [done|by apply Hstop]].
  destruct (sid_held _ _ false); cbn; [|eexists _, _, _; split; [done|]; rewrite Z.lor_0_r; split; [done|by apply Hstop]].
  eexists _, _, _. split; [done|]. split; [|by apply Hstop].
  apply Z.bits_inj'. intros i Hi. rewrite !Z.land_spec, !Z.lor_spec, Z.ldiff_spec.
  destruct (Z.testbit d i) eqn:E; [|by rewrite !andb_false_r]. rewrite (proj1 (disjoint_spec _ _) Hx i Hi E). cbn. by rewrite !andb_true_r.
Qed.

Lemma entries_cons m n ace es : entries m (S n) ace = Some es →
  ∃ e next l, entry_at m ace = Some e ∧ ace_next m ace = Some next ∧ entries m n next = Some l ∧ es = e :: l.
Proof.
  cbn [entries]. destruct (entry_at m ace) as [e|]; [|done]. destruct (ace_next m ace) as [next|]; [|done].
  cbn. destruct (entries m n next) as [l|] eqn:E; [|done]. cbn. intros [= <-]. by exists e, next, l.
Qed.

Lemma dacl_loop_max t m mapping d n ace es c x : bytes m → wf_token t → entries m n ace = Some es →
  has d MAXIMUM_ALLOWED = true →
  dacl_loop t m mapping d n ace c x = Some (Z.lor c (union (allowed t mapping) es), Z.lor x (union (denied t mapping) es)).
Proof.
  intros Hm Ht He Hd. revert ace es c x He. induction n as [|n IH]; intros ace es c x He.
  { cbn in He |- *. simplify_eq. cbn. by rewrite !Z.lor_0_r. }
  apply entries_cons in He as (e & next & l & He & Hn & Hl & ->). cbn [dacl_loop].
  rewrite (dacl_step_max _ _ _ _ _ e) by done. cbn. rewrite Hn. cbn. by rewrite (IH _ _ _ _ Hl), !Z.lor_assoc.
Qed.

Lemma dacl_loop_some t m mapping d n ace es c x : bytes m → wf_token t → entries m n ace = Some es →
  has d MAXIMUM_ALLOWED = false → Z.land d x = 0 →
  ∃ c' x', dacl_loop t m mapping d n ace c x = Some (c', x') ∧ (Z.land c' d = d ↔ grantable t mapping d c es).
Proof.
  intros Hm Ht He Hd. revert ace es c x He. induction n as [|n IH]; intros ace es c x He Hx.
  { cbn in He |- *. simplify_eq. eexists _, _. split; [done|]. by rewrite grantable_nil. }
  apply entries_cons in He as (e & next & l & He & Hn & Hl & ->). cbn [dacl_loop].
  destruct (dacl_step_some t m mapping d ace e c x) as (c' & x' & stop & -> & Hc & Hstop); [done..|]. cbn.
  destruct stop; cbn.
  - eexists _, _. split; [done|]. destruct Hstop as [->|[Hden ->]]; [|symmetry; by apply grantable_denied].
    split; intros _; [|by rewrite Z.land_0_r]. apply grantable_now. by rewrite Z.land_0_r.
  - rewrite Hn. cbn. destruct Hstop. destruct (IH _ _ c' x' Hl) as (c'' & x'' & -> & Hg); [done|].
    eexists _, _. split; [done|]. rewrite Hg. symmetry. by apply grantable_cons.
Qed.

(** *** Validated descriptors

    [acl_is_valid] does not look whether an entry is at least as large as its header;
    the lists where all are can be read safely. *)

Fixpoint ace_sizes_ok (m : list Z) (n : nat) (ace : Z) : bool :=
  match n with
  | O => true
  | S n => match ace_size m ace with Some l => (8 <=? l) && ace_sizes_ok m n (ace + l) | None => false end
  end.
Definition acl_sizes_ok (m : list Z) (acl : Z) : bool :=
  match acl_count m acl with Some n => ace_sizes_ok m (Z.to_nat n) (ace_first acl) | None => false end.
Definition acl_entries (m : list Z) (acl : Z) : option (list entry) :=
  n ← acl_count m acl; entries m (Z.to_nat n) (ace_first acl).

Lemma acl_loop_entries m n ace size : bytes m → 0 ≤ ace → ace + size ≤ Z.of_nat (length m) →
  acl_loop m n ace size = Some true → ace_sizes_ok m n ace = true → ∃ es, entries m n ace = Some es.
Proof.
  intros Hm. revert ace size. induction n as [|n IH]; intros ace size ?? Hv Hs; [by eexists|].
  cbn in Hv, Hs |- *. destruct (Z.ltb_spec size 8); [done|].
  destruct (ace_size m ace) as [l|] eqn:Hl; [|done]. cbn in Hv. destruct (Z.ltb_spec size l); [done|].
  apply andb_true_iff in Hs as [Hl8%Z.leb_le Hs].
  unfold ace_size in Hl. pose proof (u16_at_range _ _ _ Hm Hl).
  destruct (ace_type m ace) as [ty|] eqn:Hty; [|done]. cbn in Hv.
  destruct (ace_type_known ty); [|done]. cbn in Hv.
  rewrite u32_small in Hv by lia.
  destruct (sid_valid_size m (ace + 8) (l - 8)) as [[]|] eqn:Hsid; [|done..]. cbn in Hv.
  unfold ace_next, ace_size in Hv |- *. rewrite Hl in Hv |- *. cbn in Hv.
  apply sid_valid_at in Hsid as [s Hs']; [|done|lia..].
  destruct (u8_at_in m (ace + 1) Hm) as (fl & Hfl & _); [lia|].
  destruct (u32_at_in m (ace + 4) Hm) as (ma & Hma & _); [lia..|].
  unfold entry_at, ace_flags, ace_mask. rewrite Hty, Hfl, Hma, Hs'. cbn.
  destruct (IH (ace + l) (size - l)) as [es ->]; [lia..|done|done|]. cbn. eauto.
Qed.

Lemma acl_valid_entries m acl size : bytes m → 0 ≤ acl → acl + size ≤ Z.of_nat (length m) →
  acl_is_valid m acl size = Some true → acl_sizes_ok m acl = true → ∃ es, acl_entries m acl = Some es.
Proof.
  intros Hm ?? Hv Hs. unfold acl_is_valid, acl_sizes_ok, acl_entries in *.
  destruct (Z.ltb_spec size 8); [done|]. destruct (acl_count m acl) as [n|]; [|done]. cbn in *.
  eapply acl_loop_entries; [done| |..|exact Hv|exact Hs]; unfold ace_first, MAX_ACL_LEN; lia.
Qed.

(** The parts that the access check uses are inside the descriptor. *)
Lemma sd_is_valid_parts m : bytes m → sd_is_valid m (Z.of_nat (length m)) = Some true →
  (∃ o, sd_get_owner m = Some o ∧ ∀ p, o = Some p → ∃ s, sid_at m p = Some s) ∧
  (∃ g, sd_get_group m = Some g) ∧
  (∃ c d, sd_get_dacl m = Some (c, d) ∧
     ∀ p, d = Some p → acl_sizes_ok m p = true → ∃ es, acl_entries m p = Some es).
Proof.
  intros Hm Hv. unfold sd_is_valid in Hv. destruct (Z.ltb_spec (Z.of_nat (length m)) 20); [done|].
  unfold sd_get_owner, sd_get_group, sd_get_sacl, sd_get_dacl, sd_control, sd_owner_len, sd_group_len, sd_sacl_len, sd_dacl_len in *.
  destruct (u32_at_in m 0 Hm) as (c & Ec & _); [lia..|].
  destruct (u32_at_in m 4 Hm) as (ol & Eol & ?); [lia..|]. destruct (u32_at_in m 8 Hm) as (gl & Egl & ?); [lia..|].
  destruct (u32_at_in m 12 Hm) as (sl & Esl & ?); [lia..|]. destruct (u32_at_in m 16 Hm) as (dl & Edl & ?); [lia..|].
  rewrite Ec, Eol, Egl, Esl, Edl in *. cbn in Hv |- *.
  destruct (part_fits ol _ _) eqn:Hol; [|done]. cbn in Hv.
  apply negb_true_iff, orb_false_iff in Hol as [_ Hol%Z.ltb_ge].
  destruct (sid_part_ok m _ ol) as [[]|] eqn:Hown; [|done..]. cbn in Hv.
  destruct (part_fits gl _ _) eqn:Hgl; [|done]. cbn in Hv.
  destruct (sid_part_ok m _ gl) as [[]|] eqn:Hgrp; [|done..]. cbn in Hv.
  destruct ((MAX_ACL_LEN <=? sl) || _) eqn:Hsl; [done|]. destruct (acl_part_ok m _ sl) as [[]|]; [|done..]. cbn in Hv.
  destruct ((MAX_ACL_LEN <=? dl) || _) eqn:Hdl; [done|]. cbn in Hv. apply orb_false_iff in Hdl as [_ Hdl%Z.ltb_ge].
  split_and!; [eexists; split; [done|]|by eexists|eexists _, _; split; [done|]].
  - intros p Hp. rewrite Hp in Hown. destruct (truth ol); simplify_eq. by eapply sid_valid_at.
  - intros p Hp. rewrite Hp in Hv. destruct (truth dl); simplify_eq. eapply acl_valid_entries; [done|..|exact Hv]; lia.
Qed.

(** *** The access check decides what it means to

    The rights that do not depend on the list, the rights that the whole list leaves, and
    the decision: the result of the routine, the access granted and the access status. *)

Definition holds_privilege (t : token) (i : luid) : bool :=
  match find_luid (t_privileges t) i with Some (_, p) => p_enabled p | None => false end.
Definition own_rights (t : token) (owner : list Z) (desired : Z) : Z :=
  Z.lor (if has desired ACCESS_SYSTEM_SECURITY then ACCESS_SYSTEM_SECURITY else 0)
        (if sid_held t owner false then Z.lor STANDARD_RIGHTS_REQUIRED SYNCHRONIZE else 0).
Definition dacl_rights (t : token) (mapping : generic_map) (desired own : Z) (es : list entry) (granted : Z) : Prop :=
  if has desired MAXIMUM_ALLOWED
  then granted = Z.ldiff (Z.lor own (union (allowed t mapping) es)) (union (denied t mapping) es)
  else grantable t mapping desired own es ∧ granted = desired ∨ ¬ grantable t mapping desired own es ∧ granted = 0.

Inductive protected (m : list Z) : list Z → list entry → Prop :=
  Protected o owner g d es :
    sd_get_owner m = Some (Some o) → sid_at m o = Some owner → sd_get_group m = Some (Some g) →
    sd_get_dacl m = Some (true, Some d) → acl_entries m d = Some es → protected m owner es.
Inductive decision (t : token) (m : list Z) (mapping : generic_map) (desired : Z) : Z → Z → option Z → Prop :=
  | decide_not_mapped :
      has desired GENERIC_RIGHTS = true → decision t m mapping desired STATUS_GENERIC_NOT_MAPPED 0 None
  | decide_invalid :
      has desired GENERIC_RIGHTS = false → sd_get_owner m = Some None ∨ sd_get_group m = Some None →
      decision t m mapping desired STATUS_INVALID_SECURITY_DESCR 0 None
  | decide_unprotected o g present d :
      has desired GENERIC_RIGHTS = false → sd_get_owner m = Some (Some o) → sd_get_group m = Some (Some g) →
      sd_get_dacl m = Some (present, d) → present = false ∨ d = None →
      decision t m mapping desired STATUS_SUCCESS (if has desired MAXIMUM_ALLOWED then gm_all mapping else desired) (Some STATUS_SUCCESS)
  | decide_privilege owner es :
      has desired GENERIC_RIGHTS = false → protected m owner es →
      has desired ACCESS_SYSTEM_SECURITY = true → holds_privilege t SeSecurityPrivilege = false →
      decision t m mapping desired STATUS_SUCCESS 0 (Some STATUS_PRIVILEGE_NOT_HELD)
  | decide_dacl owner es granted :
      has desired GENERIC_RIGHTS = false → protected m owner es →
      (has desired ACCESS_SYSTEM_SECURITY = true → holds_privilege t SeSecurityPrivilege = true) →
      dacl_rights t mapping desired (own_rights t owner desired) es granted →
      decision t m mapping desired STATUS_SUCCESS granted (Some (if truth granted then STATUS_SUCCESS else STATUS_ACCESS_DENIED)).

Lemma check_security_privilege t :
  token_check_privileges t true [security_priv] = (holds_privilege t SeSecurityPrivilege, [used_privilege t security_priv]).
Proof.
  unfold token_check_privileges, holds_privilege. cbn. f_equal. unfold filter. cbn.
  replace (check_privilege t security_priv) with (holds_privilege t SeSecurityPrivilege); unfold holds_privilege.
  - destruct (find_luid _ _) as [[? p]|]; [|done]. by destruct (p_enabled p).
  - unfold check_privilege, token_find_privilege, security_priv. cbn.
    destruct (find_luid _ _) as [[? p]|]; [|done]. cbn. destruct (p_enabled p) eqn:E; cbn; by rewrite ?E.
Qed.

(** Steps 3 and 4, with [own] the rights from step 2. *)
Lemma check_dacl_rights t m mapping d o owner dacl es own count priv :
  bytes m → wf_token t → sid_at m o = Some owner → acl_entries m dacl = Some es →
  own = (if has d ACCESS_SYSTEM_SECURITY then ACCESS_SYSTEM_SECURITY else 0) →
  ∃ r, check_dacl t m mapping d o dacl own count priv = Some r ∧ c_return r = STATUS_SUCCESS ∧
    dacl_rights t mapping d (own_rights t owner d) es (c_granted r) ∧
    c_status r = Some (if truth (c_granted r) then STATUS_SUCCESS else STATUS_ACCESS_DENIED).
Proof.
  intros Hm Ht Ho He Hown. unfold check_dacl. rewrite (token_sid_present_held _ _ _ owner) by done. cbn.
  set (cur := if sid_held t owner false then _ else own).
  assert (cur = own_rights t owner d) as Hcur.
  { unfold cur, own_rights. rewrite <-Hown. destruct (sid_held t owner false); [done|]. by rewrite Z.lor_0_r. }
  destruct (sid_held t owner false && (d =? cur)) eqn:Hnow.
  - apply andb_true_iff in Hnow as [Hheld Hd%Z.eqb_eq]. eexists. split; [done|]. cbn. split; [done|].
    assert (has d MAXIMUM_ALLOWED = false ∧ truth d = true) as [Hmax Htr].
    { rewrite Hd, Hcur. unfold own_rights. rewrite Hheld. by destruct (has d ACCESS_SYSTEM_SECURITY). }
    unfold dacl_rights. rewrite Hmax, <-Hd, Htr, <-Hcur, <-Hd. split; [|done]. left. split; [|done].
    apply grantable_now, Z.land_diag.
  - unfold acl_entries in He. destruct (acl_count m dacl) as [n|]; [|done]. cbn in He |- *.
    destruct (has d MAXIMUM_ALLOWED) eqn:Hmax.
    + rewrite (dacl_loop_max _ _ _ _ _ _ es) by done. cbn. eexists. split; [done|]. cbn. split; [done|]. split; [|done].
      unfold dacl_rights. by rewrite Hmax, Hcur.
    + destruct (dacl_loop_some t m mapping d (Z.to_nat n) (ace_first dacl) es cur 0) as (c' & x' & -> & Hg); [done..|apply Z.land_0_r|].
      cbn. eexists. split; [done|]. cbn. split; [done|]. split; [|done]. unfold dacl_rights. rewrite Hmax, <-Hcur, <-Hg.
      destruct (Z.eqb_spec (Z.land c' d) d); auto.
Qed.

Lemma token_access_check_ok t m desired count mapping :
  bytes m → sd_is_valid m (Z.of_nat (length m)) = Some true → wf_token t →
  (∀ c p, sd_get_dacl m = Some (c, Some p) → acl_sizes_ok m p = true) →
  (∀ n, count = Some n → 1 ≤ n) →
  ∃ r, token_access_check t m desired count mapping = Some r ∧
       decision t m mapping desired (c_return r) (c_granted r) (c_status r).
Proof.
  intros Hm Hv Ht Hsz Hcount. unfold token_access_check. rewrite check_security_privilege.
  destruct (has desired GENERIC_RIGHTS) eqn:Hgen; [eexists; split; [done|]; by constructor|].
  destruct (sd_is_valid_parts m Hm Hv) as ((o & Ho & Howner) & (g & Hg) & (c & d & Hd & Hdacl)). rewrite Hd, Ho, Hg. cbn.
  destruct o as [o|]; [|eexists; split; [done|]; cbn; by apply decide_invalid; auto].
  destruct g as [g|]; [|eexists; split; [done|]; cbn; by apply decide_invalid; auto].
  assert (c = false ∨ d = None ∨ c = true ∧ ∃ p, d = Some p) as [->|[->|[-> [p ->]]]] by (destruct c, d; eauto).
  { eexists; split; [done|]. eapply decide_unprotected; eauto. }
  { destruct c; eexists; (split; [done|]); eapply decide_unprotected; eauto. }
  destruct (Howner o eq_refl) as [owner Hs]. destruct (Hdacl p eq_refl (Hsz _ _ Hd)) as [es Hes].
  assert (protected m owner es) as Hp by by econstructor.
  assert (∀ own count priv, own = (if has desired ACCESS_SYSTEM_SECURITY then ACCESS_SYSTEM_SECURITY else 0) →
    (has desired ACCESS_SYSTEM_SECURITY = true → holds_privilege t SeSecurityPrivilege = true) →
    ∃ r, check_dacl t m mapping desired o p own count priv = Some r ∧ decision t m mapping desired (c_return r) (c_granted r) (c_status r)) as Hcheck.
  { intros own count' priv Hown Hpriv. destruct (check_dacl_rights t m mapping desired o owner p es own count' priv) as (r & -> & Hr & Hrights & Hst); [done..|].
    eexists. split; [done|]. rewrite Hr, Hst. by eapply decide_dacl. }
  destruct (has desired ACCESS_SYSTEM_SECURITY) eqn:Hsec; [|by apply Hcheck].
  destruct (holds_privilege t SeSecurityPrivilege) eqn:Hpriv; [|eexists; split; [done|]; by eapply decide_privilege].
  assert (∀ count priv, ∃ r, (if desired =? ACCESS_SYSTEM_SECURITY
      then Some (Checked STATUS_SUCCESS ACCESS_SYSTEM_SECURITY (Some STATUS_SUCCESS) count priv)
      else check_dacl t m mapping desired o p ACCESS_SYSTEM_SECURITY count priv) = Some r ∧
    decision t m mapping desired (c_return r) (c_granted r) (c_status r)) as Hnow.
  { intros count' priv. destruct (Z.eqb_spec desired ACCESS_SYSTEM_SECURITY) as [->|]; [|by apply Hcheck].
    eexists. split; [done|]. cbn. apply (decide_dacl _ _ _ _ owner es); [done..|]. left. split; [|done].
    apply grantable_now. unfold own_rights. cbn. by destruct (sid_held t owner false). }
  destruct count as [n|]; [|apply Hnow]. rewrite (proj2 (Z.leb_le 1 n)) by (by apply Hcount). apply Hnow.
Qed.

(** ** Copies of tokens *)

(** The SIDs of an array, and the groups of the copy. *)
Fixpoint sids_at (m : list Z) (off : Z) (n : nat) : option (list (list Z)) :=
  match n with
  | O => Some []
  | S n => s ← sid_at m off; l ← sids_at m (off + Z.of_nat (length s)) n; Some (s :: l)
  end.
Definition restrict_group (sids : list (list Z)) (g : group) : group :=
  if bool_decide (g_sid g ∈ sids) then deny_only g else g.
(** [privilege_add] makes the current state the default. *)
Definition copied_privilege (p : privilege) : privilege := Privilege (p_luid p) (p_enabled p) (p_enabled p).
Definition kept_privileges (remove : list luid_attr) (l : list privilege) : list privilege :=
  map copied_privilege (filter (λ p, filter_privilege p remove = false) l).

Lemma filter_group_sids g m off n sids : bytes m → wf_sid (g_sid g) → sids_at m off n = Some sids →
  filter_group g m off n = Some (bool_decide (g_sid g ∈ sids)).
Proof.
  intros Hm Hg. revert off sids. induction n as [|n IH]; intros off sids H; cbn [sids_at filter_group] in *.
  { simplify_eq. rewrite bool_decide_false; [done|]. by apply not_elem_of_nil. }
  destruct (sid_at m off) as [s|] eqn:Hs; [|done]. cbn in H.
  destruct (sids_at m _ n) as [l|] eqn:Hl; [|done]. cbn in H. simplify_eq.
  rewrite (equal_sid_at _ _ _ s), (sid_at_len _ _ s) by done. cbn. rewrite (IH _ _ Hl).
  case_bool_decide as Hes; f_equal; symmetry.
  - apply bool_decide_true. rewrite Hes. left.
  - apply bool_decide_ext. rewrite elem_of_cons. naive_solver.
Qed.

(** What the loops of [create_token] and [token_duplicate] change in the token. *)
Definition with_lists (t : token) (l : list privilege) (groups : list group) (main : option nat) : token :=
  Token (t_id t) (t_modified_id t) l groups (t_user t) main main (t_primary t) (t_session_id t) (t_default_dacl t)
        (t_impersonation_level t) (t_elevation t).

Lemma copy_privileges_spec remove l t s w Q :
  (∀ w', outcome w w' true → Q (Some (set_privileges (t_privileges t ++ kept_privileges remove l) t)) s w') →
  (∀ w', outcome w w' false → Q None s w') → wp (copy_privileges t l remove) s w Q.
Proof.
  revert t w. induction l as [|p l IH]; intros t w HS HN; cbn [copy_privileges].
  { rewrite wp_ret. specialize (HS w (outcome_refl w)). destruct t. unfold set_privileges in HS. cbn in *. by rewrite app_nil_r in HS. }
  unfold kept_privileges in *. rewrite filter_cons in HS.
  destruct (filter_privilege p remove) eqn:Hp; cbn in HS; [by apply IH|].
  unfold privilege_add. wp_run. apply wp_mem_alloc_outcome. intros [] w1 Hw1; wp_run; [|auto].
  apply IH; [|eauto with outcome]. intros w2 Hw2. cbn. rewrite <-app_assoc. apply HS. eauto with outcome.
Qed.

Lemma copy_groups_spec src m off n sids i groups t s w Q :
  bytes m → Forall (λ g, wf_sid (g_sid g)) groups → sids_at m off n = Some sids →
  length (t_groups t) = i →
  t_owner t = t_primary_group t →
  (∀ w' main, outcome w w' true →
     main = match t_primary_group src with
            | Some k => if bool_decide (i ≤ k < i + length groups)%nat then Some k else t_primary_group t
            | None => t_primary_group t
            end →
     Q (Some (with_lists t (t_privileges t) (t_groups t ++ map (restrict_group sids) groups) main)) s w') →
  (∀ w', outcome w w' false → Q None s w') → wp (copy_groups src t i groups m off n) s w Q.
Proof.
  intros Hm Hg Hs. revert i t w. induction Hg as [|g groups Hwf Hg IH]; intros i t w Hi Hown HS HN; cbn [copy_groups].
  { rewrite wp_ret. specialize (HS w (t_primary_group t) (outcome_refl w)). destruct t. cbn in *. unfold with_lists in HS. cbn in HS.
    rewrite app_nil_r in HS. subst. apply HS. destruct (t_primary_group src); [|done]. rewrite bool_decide_false; [done|lia]. }
  wp_run. apply wp_mem_alloc_outcome. intros [] w1 Hw1; wp_run; [|auto].
  rewrite (filter_group_sids g m off n sids) by done.
  assert (∀ f, f = bool_decide (g_sid g ∈ sids) → (if f : bool then deny_only g else g) = restrict_group sids g) as Hf by by intros f ->.
  rewrite Hf by done. apply IH; [cbn; rewrite length_app; cbn; lia|cbn; by rewrite Hown| |eauto with outcome].
  intros w2 main Hw2 Hmain. unfold with_lists, add_group in *. cbn in *. rewrite <-app_assoc. cbn. apply HS; [eauto with outcome|].
  rewrite Hmain. destruct (t_primary_group src) as [k|]; [|rewrite bool_decide_false by done; done].
  rewrite Hi. destruct (decide (k = i)) as [->|].
  - rewrite (bool_decide_true (Some i = Some i)), (bool_decide_false (S i ≤ i < _)%nat) by (done || lia).
    rewrite bool_decide_true; [done|lia].
  - rewrite (bool_decide_false (Some k = Some i)) by congruence. by rewrite (bool_decide_ext (S i ≤ k < S i + length groups)%nat (i ≤ k < i + S (length groups))%nat) by lia.
Qed.

Definition next_luid (i : luid) : luid := (u32 (i.1 + 1), i.2).
(** The default list is as long as its header says, or longer; the copy has that length. *)
Definition wf_dacl (t : token) : Prop :=
  ∀ d, t_default_dacl t = Some d → ∃ n, u16_at d 2 = Some n ∧ 0 ≤ n ≤ Z.of_nat (length d).
Definition copied_dacl (t : token) : option (list Z) :=
  d ← t_default_dacl t; n ← u16_at d 2; Some (take (Z.to_nat n) d).
Definition level_allowed (src : token) (primary : bool) (level : Z) : bool :=
  primary || (SecurityAnonymous <=? level) && (level <=? SecurityDelegation) && (t_primary src || (level <=? t_impersonation_level src)).

(** The token with no groups and privileges that a copy starts from. *)
Definition blank_copy (src : token) (primary : bool) (level : Z) (id mid : luid) : token :=
  Token id mid [] [] (t_user src) None None primary (t_session_id src) (copied_dacl src) (if primary then -1 else level) (t_elevation src).

Lemma create_blank_spec src primary level mid s w Q :
  wf_dacl src →
  (let id := next_luid (prev_luid_value s) in
   (∀ w', outcome w w' true →
      Q (Some (blank_copy src primary level id (default (next_luid id) mid)))
        (Tokens (match mid with Some _ => id | None => next_luid id end)) w') ∧
   (∀ s' w', outcome w w' false → Q None s' w')) →
  wp (create_token primary (t_session_id src) (t_user src) [] [] (t_default_dacl src) mid 0 level (t_elevation src)) s w Q.
Proof.
  intros Hd [HS HN]. unfold create_token. wp_run. apply wp_mem_alloc_outcome. intros [] w1 Hw1; wp_run; [|by apply HN].
  set (id := next_luid (prev_luid_value s)) in *.
  assert (∀ s' mid', default (next_luid id) mid = mid' → s' = Tokens (match mid with Some _ => id | None => next_luid id end) →
    wp (let* ok := mem_alloc in
        if negb ok then ret None else
        let* t := ret (Some (Token id mid' [] [] (t_user src) None None primary (t_session_id src) None (if primary then -1 else level) (t_elevation src))) in
        match t with None => ret None | Some t =>
        let* t := ret (Some t) in
        match t with None => ret None | Some t =>
        match t_default_dacl src with
        | None => ret (Some t)
        | Some d =>
            match (size ← u16_at d 2; bytes_at d 0 size) with
            | None => crash
            | Some acl => let* ok := mem_alloc in ret (if ok then Some (set_default_dacl (Some acl) t) else None)
            end
        end end end) s' w1 Q) as Hrest.
  { intros s' mid' <- ->. wp_run. apply wp_mem_alloc_outcome. intros [] w2 Hw2; wp_run; [|apply HN; eauto with outcome].
    unfold blank_copy, copied_dacl in HS. destruct (t_default_dacl src) as [d|] eqn:Ed; cbn.
    - destruct (Hd d Ed) as (n & Hn & ?). cbn in HS. rewrite Hn in HS |- *. cbn in HS |- *. rewrite bytes_at_in, drop_0 by lia.
      wp_run. apply wp_mem_alloc_outcome. intros [] w3 Hw3; wp_run; [apply HS|apply HN]; eauto with outcome.
    - wp_run. apply HS. eauto with outcome. }
  destruct mid as [i|]; wp_run; by apply Hrest.
Qed.

Lemma token_duplicate_ok src primary level remove m off n sids k s w :
  bytes m → sids_at m off n = Some sids → wf_token src → wf_dacl src →
  t_primary_group src = Some k → (k < length (t_groups src))%nat →
  if level_allowed src primary level then
    wp (token_duplicate src primary level remove m off n) s w (λ r s' w',
      match r with
      | Some t =>
          outcome w w' true ∧
          let id := next_luid (prev_luid_value s) in
          let shared := primary || (level =? t_impersonation_level src) in
          s' = Tokens (if shared then id else next_luid id) ∧
          t = with_lists (blank_copy src primary level id (if shared then t_modified_id src else next_luid id))
                (kept_privileges remove (t_privileges src)) (map (restrict_group sids) (t_groups src)) (Some k)
      | None => outcome w w' false
      end)
  else token_duplicate src primary level remove m off n s w = Some (None, s, World STATUS_BAD_IMPERSONATION_LEVEL (w_mem w)).
Proof.
  intros Hm Hs [Hu Hg] Hd Hk Hlt. unfold token_duplicate.
  replace (_ && _) with (negb (level_allowed src primary level)).
  2: { unfold level_allowed. rewrite !Z.leb_antisym, !Z.ltb_antisym. destruct primary, (t_primary src); cbn;
       destruct (SecurityAnonymous <=? level), (level <=? SecurityDelegation), (level <=? t_impersonation_level src); done. }
  destruct (level_allowed src primary level); [cbn [negb]|done].
  set (shared := primary || _). wp_run.
  apply create_blank_spec; [done|]. cbn zeta. split; [|intros s' w1 Hw1; by wp_run]. intros w1 Hw1. wp_run.
  apply (copy_groups_spec _ _ _ _ sids); [done..|intros w2 main Hw2 Hmain|intros w2 Hw2; wp_run; eauto with outcome].
  rewrite Hk, bool_decide_true in Hmain by lia. subst main. wp_run.
  apply copy_privileges_spec; [|eauto with outcome]. intros w3 Hw3. split; [eauto with outcome|].
  split; [by destruct shared|]. by destruct shared.
Qed.

(** *** Restricted tokens *)

Lemma sid_at_bounds m off s : bytes m → sid_at m off = Some s → 8 ≤ Z.of_nat (length s) ∧ off + Z.of_nat (length s) ≤ Z.of_nat (length m).
Proof.
  intros Hm Hs. pose proof (sid_at_len _ _ _ Hs) as Hl. unfold sid_at in Hs. rewrite Hl in Hs. cbn in Hs. unfold sid_len in Hl.
  destruct (u8_at m (off + 1)) as [c|] eqn:E; [|done]. apply u8_at_range in E; [|done].
  apply bytes_at_inv in Hs as (_ & _ & ? & _). cbn in Hl. simplify_eq. lia.
Qed.

(** The array of SIDs that [get_sid_count] finds, with fuel enough for SIDs of 8 bytes. *)
Lemma get_sid_count_loop_sids m fuel off size : bytes m → 0 ≤ off → 0 ≤ size → off + size ≤ Z.of_nat (length m) → size < 8 * Z.of_nat fuel →
  ∃ n sids, get_sid_count_loop m fuel off size = Some n ∧ 0 ≤ n ∧ sids_at m off (Z.to_nat n) = Some sids.
Proof.
  intros Hm. revert off size. induction fuel as [|fuel IH]; intros off size ????; [lia|]. cbn [get_sid_count_loop].
  destruct (sid_valid_size m off size) as [[]|] eqn:Hv; cbn.
  - destruct (sid_valid_at m off size) as [s Hs]; [done..|].
    pose proof (sid_at_len _ _ _ Hs) as Hl. pose proof (sid_at_bounds _ _ _ Hm Hs).
    assert (Z.of_nat (length s) ≤ size).
    { unfold sid_valid_size in Hv. rewrite Hl in Hv. destruct (size <? 8); [done|]. cbn in Hv. apply Z.leb_le. congruence. }
    rewrite Hl. cbn. destruct (IH (off + Z.of_nat (length s)) (size - Z.of_nat (length s))) as (n & sids & -> & ? & Hn); [lia..|]. cbn.
    exists (1 + n), (s :: sids). split; [done|]. split; [lia|].
    replace (Z.to_nat (1 + n)) with (S (Z.to_nat n)) by lia. cbn [sids_at]. rewrite Hs. cbn. by rewrite Hn.
  - by exists 0, [].
  - exfalso. unfold sid_valid_size in Hv. destruct (Z.ltb_spec size 8); [done|]. unfold sid_len in Hv.
    destruct (u8_at_in m (off + 1) Hm) as (v & E & _); [lia|]. rewrite E in Hv. done.
Qed.

Lemma get_sid_count_sids m off size : bytes m → 0 ≤ off → 0 ≤ size → off + size ≤ Z.of_nat (length m) →
  ∃ n sids, get_sid_count m off size = Some n ∧ sids_at m off (Z.to_nat n) = Some sids.
Proof.
  intros. destruct (get_sid_count_loop_sids m (S (Z.to_nat size)) off size) as (n & sids & ? & ? & ?); [done||lia..|].
  by exists n, sids.
Qed.

Lemma luid_attrs_at_in m off n : bytes m → 0 ≤ off → off + 12 * Z.of_nat n ≤ Z.of_nat (length m) → ∃ l, luid_attrs_at m off n = Some l.
Proof.
  intros Hm. revert off. induction n as [|n IH]; intros off ??; [by eexists|]. cbn [luid_attrs_at]. unfold luid_attr_at.
  destruct (u32_at_in m off Hm) as (? & -> & _); [lia..|]. destruct (u32_at_in m (off + 4) Hm) as (? & -> & _); [lia..|].
  destruct (u32_at_in m (off + 8) Hm) as (? & -> & _); [lia..|]. cbn. destruct (IH (off + 12)) as [l ->]; [lia..|]. by eexists.
Qed.

(** A restricted group counts neither for allow nor for deny. *)
Lemma counts_deny_only deny g : counts deny (deny_only g) = false.
Proof.
  unfold counts, deny_only. cbn. replace (has _ SE_GROUP_ENABLED) with false; [done|]. symmetry. apply has_false.
  apply disjoint_spec. intros i ? Hi. unfold SE_GROUP_ENABLED, SE_GROUP_ENABLED_BY_DEFAULT, SE_GROUP_USE_FOR_DENY_ONLY in *.
  change 4 with (2 ^ 2) in *. rewrite Z.lor_spec, Z.ldiff_spec, Z.lor_spec in Hi. rewrite Z.pow2_bits_eqb by lia. apply Z.eqb_neq. intros <-.
  rewrite Z.pow2_bits_true in Hi by lia. change (Z.testbit 16 2) with false in Hi.
  by rewrite andb_false_r in Hi.
Qed.

Lemma restricted_not_held t sids groups sid deny :
  t_groups t = map (restrict_group sids) groups → sid ∈ sids → t_user t ≠ sid → sid_held t sid deny = false.
Proof.
  intros Hg Hsid Hu. unfold sid_held. rewrite bool_decide_false by done. cbn. rewrite Hg. clear Hg.
  induction groups as [|g groups IH]; [done|]. cbn [map existsb]. rewrite IH, orb_false_r. unfold restrict_group.
  case_bool_decide as Hin; [by rewrite counts_deny_only|]. rewrite bool_decide_false; [apply andb_false_r|]. congruence.
Qed.

Lemma wf_token_restricted t src sids : wf_token src → t_user t = t_user src → t_groups t = map (restrict_group sids) (t_groups src) → wf_token t.
Proof.
  intros [Hu Hg] Eu Eg. split; [by rewrite Eu|]. rewrite Eg. apply Forall_fmap. eapply Forall_impl; [done|].
  intros g Hwf. cbn. unfold restrict_group. by case_bool_decide.
Qed.

(** The SIDs that a request asks to disable. *)
Definition filtered_sids (privileges_size : Z) (m : list Z) : option (list (list Z)) :=
  let groups := Z.min privileges_size (Z.of_nat (length m)) / 12 * 12 in
  n ← get_sid_count m groups (Z.of_nat (length m) - groups); sids_at m groups (Z.to_nat n).

(** A list that denies rights to one SID and then allows them to another. *)
Definition deny_then_allow (mask : Z) (sid user : list Z) : list entry :=
  [Entry ACCESS_DENIED_ACE_TYPE 0 mask sid; Entry ACCESS_ALLOWED_ACE_TYPE 0 mask user].

Lemma deny_then_allow_effect t mapping mask sid :
  map_access mask mapping ≠ 0 → t_user t ≠ sid →
  (sid_held t sid true = true → ¬ grantable t mapping (map_access mask mapping) 0 (deny_then_allow mask sid (t_user t))) ∧
  (sid_held t sid true = false → grantable t mapping (map_access mask mapping) 0 (deny_then_allow mask sid (t_user t))).
Proof.
  intros Hmask Hu. unfold deny_then_allow. set (e := Entry ACCESS_DENIED_ACE_TYPE 0 mask sid).
  assert (denied t mapping e = if sid_held t sid true then map_access mask mapping else 0) as He by done.
  split; intros Hheld; rewrite Hheld in He.
  - rewrite grantable_denied; rewrite ?He, ?Z.land_0_l, ?Z.land_diag; congruence.
  - exists 2%nat. cbn [take]. split.
    + repeat constructor; [by rewrite He, Z.land_0_r|]. change (denied t mapping _) with 0. by rewrite Z.land_0_r.
    + rewrite !union_cons. change (allowed t mapping e) with 0.
      assert (allowed t mapping (Entry ACCESS_ALLOWED_ACE_TYPE 0 mask (t_user t)) = map_access mask mapping) as ->
        by (unfold allowed, effect; cbn; unfold sid_held; by rewrite bool_decide_true).
      cbn. by rewrite Z.lor_0_r, Z.land_diag.
Qed.

Lemma filter_token_ok src psize m s w k :
  bytes m → 0 ≤ psize → wf_token src → wf_dacl src → t_primary_group src = Some k → (k < length (t_groups src))%nat →
  ∃ sids, filtered_sids psize m = Some sids ∧
    wp (req_filter_token src psize m) s w (λ r _ _, ∀ t, r = Some t → ∀ sid, sid ∈ sids → t_user src ≠ sid →
      (∀ m' off deny, bytes m' → sid_at m' off = Some sid → token_sid_present t m' off deny = Some false) ∧
      (∀ mapping mask, map_access mask mapping ≠ 0 → sid_held src sid true = true →
         let es := deny_then_allow mask sid (t_user src) in
         ¬ grantable src mapping (map_access mask mapping) 0 es ∧ grantable t mapping (map_access mask mapping) 0 es)).
Proof.
  intros Hm Hp Ht Hd Hk Hlt. unfold filtered_sids, req_filter_token.
  set (count := Z.min psize _ / 12).
  assert (0 ≤ count * 12 ≤ Z.of_nat (length m)) as Hcount by (unfold count; Z.div_mod_to_equations; lia).
  destruct (luid_attrs_at_in m 0 (Z.to_nat count)) as [privs ->]; [done|lia..|]. cbn.
  destruct (get_sid_count_sids m (count * 12) (Z.of_nat (length m) - count * 12)) as (n & sids & -> & Hsids); [done|lia..|]. cbn.
  exists sids. split; [done|].
  pose proof (token_duplicate_ok src (t_primary src) (t_impersonation_level src) privs m (count * 12) (Z.to_nat n) sids k s w Hm Hsids Ht Hd Hk Hlt) as H.
  destruct (level_allowed src _ _).
  - eapply wp_mono; [exact H|]. intros r s' w' Hr t ->. destruct Hr as (_ & _ & Et). intros sid Hin Hu.
    assert (t_user t = t_user src) as Eu by by rewrite Et.
    assert (t_groups t = map (restrict_group sids) (t_groups src)) as Eg by by rewrite Et.
    clear Et. split.
    + intros m' off deny Hm' Hat. rewrite (token_sid_present_held _ _ _ sid); [|done|by eapply wf_token_restricted|done].
      f_equal. by apply (restricted_not_held _ sids (t_groups src)); rewrite ?Eu.
    + intros mapping mask Hmask Hheld. cbn. split; [by apply deny_then_allow_effect|].
      rewrite <-Eu. apply deny_then_allow_effect; [done|by rewrite Eu|].
      by apply (restricted_not_held _ sids (t_groups src)); rewrite ?Eu.
  - rewrite (wp_run _ _ _ _ _ _ H). done.
Qed.

(** ** Adjusting privileges and back *)

Definition set_enabled (p : privilege) (e : bool) : privilege := Privilege (p_luid p) e (p_def p).
(** The first privilege with this LUID is enabled or disabled. *)
Definition update (l : list privilege) (a : luid_attr) : list privilege :=
  match find_luid l (la_luid a) with
  | Some (n, p) => <[n := set_enabled p (has (la_attrs a) SE_PRIVILEGE_ENABLED)]> l
  | None => l
  end.
Fixpoint saved_states (l : list privilege) (privs : list luid_attr) : list luid_attr :=
  match privs with
  | [] => []
  | a :: privs =>
      match find_luid l (la_luid a) with
      | Some (_, p) => luid_and_attr_from_privilege p :: saved_states (update l a) privs
      | None => saved_states l privs
      end
  end.

Lemma is_equal_luid_spec a b : is_equal_luid a b = true ↔ a = b.
Proof. destruct a, b. unfold is_equal_luid. cbn. rewrite andb_true_iff, !Z.eqb_eq. naive_solver. Qed.

Lemma saved_enabled p : has (la_attrs (luid_and_attr_from_privilege p)) SE_PRIVILEGE_ENABLED = p_enabled p.
Proof. unfold luid_and_attr_from_privilege. cbn. by destruct (p_enabled p), (p_def p). Qed.

Lemma saved_not_removed p : has (la_attrs (luid_and_attr_from_privilege p)) SE_PRIVILEGE_REMOVED = false.
Proof. unfold luid_and_attr_from_privilege. cbn. by destruct (p_enabled p), (p_def p). Qed.

Lemma find_luid_spec l i n p : find_luid l i = Some (n, p) ↔
  l !! n = Some p ∧ p_luid p = i ∧ ∀ j q, l !! j = Some q → (j < n)%nat → p_luid q ≠ i.
Proof.
  unfold find_luid. rewrite list_find_Some, is_equal_luid_spec. split.
  - intros (? & <- & H). split_and!; [done..|]. intros j q Hq Hj E. eapply H; [done..|]. by rewrite is_equal_luid_spec.
  - intros (? & <- & H). split_and!; [done..|]. intros j q Hq Hj E%is_equal_luid_spec. by eapply H.
Qed.

Lemma find_luid_update l a i : find_luid (update l a) i =
  match find_luid l i with
  | Some (n, p) => Some (n, if decide (la_luid a = i) then set_enabled p (has (la_attrs a) SE_PRIVILEGE_ENABLED) else p)
  | None => None
  end.
Proof.
  unfold update. destruct (find_luid l (la_luid a)) as [[n p]|] eqn:Ha; [|by destruct (find_luid l i) as [[]|] eqn:E; [|done]; case_decide; [congruence|]].
  apply find_luid_spec in Ha as (Hn & Hp & Hfirst).
  assert (n < length l)%nat by by eapply lookup_lt_Some.
  destruct (find_luid l i) as [[k q]|] eqn:Hi.
  - apply find_luid_spec in Hi as (Hk & Hq & Hkfirst). apply find_luid_spec. split_and!.
    + case_decide as Hai.
      * assert (k = n) as -> by (destruct (lt_eq_lt_dec k n) as [[Hlt|]|Hlt]; [destruct (Hfirst k q); congruence|done|destruct (Hkfirst n p); congruence]).
        rewrite list_lookup_insert_eq by done. congruence.
      * rewrite list_lookup_insert_ne; [done|]. intros ->. congruence.
    + by case_decide.
    + intros j r Hj Hlt. apply list_lookup_insert_Some in Hj as [(<- & <- & _)|[? Hj]]; cbn; by eapply Hkfirst.
  - apply list_find_None in Hi. apply list_find_None. apply Forall_insert; [done|]. cbn.
    by apply (Forall_lookup_1 _ _ _ _ Hi Hn).
Qed.

Lemma update_other l a b : la_luid a ≠ la_luid b → find_luid (update l a) (la_luid b) = find_luid l (la_luid b).
Proof. intros H. rewrite find_luid_update. destruct (find_luid l (la_luid b)) as [[]|]; [|done]. by rewrite decide_False. Qed.

Lemma update_comm l a b : la_luid a ≠ la_luid b → update (update l a) b = update (update l b) a.
Proof.
  intros H. unfold update at 1 3. rewrite !update_other by done. unfold update.
  destruct (find_luid l (la_luid a)) as [[n p]|] eqn:Ha, (find_luid l (la_luid b)) as [[k q]|] eqn:Hb; try done.
  apply list_insert_insert_ne. apply find_luid_spec in Ha as (? & ? & _), Hb as (? & ? & _). intros <-. congruence.
Qed.

Lemma update_undo l a n p : find_luid l (la_luid a) = Some (n, p) → update (update l a) (luid_and_attr_from_privilege p) = l.
Proof.
  intros Ha. pose proof Ha as (Hn & Hp & _)%find_luid_spec. unfold update at 1.
  change (la_luid (luid_and_attr_from_privilege p)) with (p_luid p). rewrite Hp, find_luid_update, Ha, decide_True, saved_enabled by done.
  unfold update. rewrite Ha, list_insert_insert_eq. apply list_insert_id. rewrite Hn. by destruct p.
Qed.

Lemma update_foldl l a privs : la_luid a ∉ map la_luid privs → update (foldl update l privs) a = foldl update (update l a) privs.
Proof.
  revert l. induction privs as [|b privs IH]; intros l Ha; [done|]. cbn in Ha |- *. apply not_elem_of_cons in Ha as [? ?].
  by rewrite IH, update_comm.
Qed.

Lemma saved_update l a privs : la_luid a ∉ map la_luid privs → saved_states (update l a) privs = saved_states l privs.
Proof.
  revert l. induction privs as [|b privs IH]; intros l Ha; [done|]. cbn in Ha. apply not_elem_of_cons in Ha as [? ?]. cbn.
  rewrite update_other by done. rewrite (update_comm l a b), !IH by done. done.
Qed.

Lemma restore_saved l privs : NoDup (map la_luid privs) → foldl update (foldl update l privs) (saved_states l privs) = l.
Proof.
  revert l. induction privs as [|a privs IH]; intros l Hnd; [done|]. cbn in Hnd. apply NoDup_cons in Hnd as [Ha Hnd]. cbn.
  destruct (find_luid l (la_luid a)) as [[n p]|] eqn:E.
  - cbn. rewrite saved_update by done. pose proof E as (_ & Hp & _)%find_luid_spec.
    rewrite update_foldl by (cbn; by rewrite Hp). rewrite (update_undo _ _ n) by done. by apply IH.
  - assert (update l a = l) as -> by (unfold update; by rewrite E). by apply IH.
Qed.

Lemma found_update l a (privs : list luid_attr) :
  filter (λ b, bool_decide (is_Some (find_luid (update l a) (la_luid b))) = true) privs =
  filter (λ b, bool_decide (is_Some (find_luid l (la_luid b))) = true) privs.
Proof.
  apply list_filter_iff. intros b. rewrite find_luid_update. by destruct (find_luid l (la_luid b)) as [[]|].
Qed.

Lemma saved_found l privs :
  length (saved_states l privs) = length (filter (λ b, bool_decide (is_Some (find_luid l (la_luid b))) = true) privs).
Proof.
  revert l. induction privs as [|a privs IH]; intros l; [done|]. cbn [saved_states]. rewrite filter_cons.
  destruct (find_luid l (la_luid a)) as [[n p]|]; cbn; by rewrite IH, ?found_update.
Qed.

Lemma token_find_luid t i : token_find_privilege t i false = find_luid (t_privileges t) i.
Proof. unfold token_find_privilege. by destruct (find_luid _ _) as [[]|]. Qed.

Definition all_found (l : list privilege) (privs : list luid_attr) : bool := forallb (λ a, bool_decide (is_Some (find_luid l (la_luid a)))) privs.

Lemma all_found_update l a privs : all_found (update l a) privs = all_found l privs.
Proof.
  induction privs as [|b privs IH]; [done|]. unfold all_found in *. cbn [forallb]. rewrite IH, find_luid_update.
  by destruct (find_luid l (la_luid b)) as [[]|].
Qed.

Lemma adjust_loop_spec t privs room s w :
  Forall (λ a, has (la_attrs a) SE_PRIVILEGE_REMOVED = false) privs →
  adjust_loop t privs room s w =
    Some (set_privileges (foldl update (t_privileges t) privs) t, take room (saved_states (t_privileges t) privs), s,
          World (if all_found (t_privileges t) privs then w_error w else STATUS_NOT_ALL_ASSIGNED) (w_mem w)).
Proof.
  intros Hr. revert t room w. induction Hr as [|a privs Ha Hr IH]; intros t room w; cbn [adjust_loop].
  { cbn. rewrite take_nil. by destruct t, w. }
  rewrite token_find_luid, Ha. cbn [saved_states all_found forallb foldl] in *.
  destruct (find_luid (t_privileges t) (la_luid a)) as [[n p]|] eqn:E; cbn.
  - assert (<[n:=set_enabled p (has (la_attrs a) SE_PRIVILEGE_ENABLED)]> (t_privileges t) = update (t_privileges t) a) as Hu
      by (unfold update; by rewrite E).
    fold (set_enabled p (has (la_attrs a) SE_PRIVILEGE_ENABLED)). rewrite Hu. unfold bind.
    rewrite IH. cbn. rewrite all_found_update. by destruct room.
  - unfold bind, set_error. rewrite IH. assert (update (t_privileges t) a = t_privileges t) as -> by (unfold update; by rewrite E).
    cbn. by case_match.
Qed.

Lemma saved_states_good l privs : Forall (λ a, has (la_attrs a) SE_PRIVILEGE_REMOVED = false) (saved_states l privs) ∧
  ∀ l', (∀ i, is_Some (find_luid l i) → is_Some (find_luid l' i)) → all_found l' (saved_states l privs) = true.
Proof.
  revert l. induction privs as [|a privs IH]; intros l; [done|]. cbn [saved_states].
  destruct (find_luid l (la_luid a)) as [[n p]|] eqn:E; [|apply IH]. destruct (IH (update l a)) as [Hr Hf]. split.
  - constructor; [apply saved_not_removed|done].
  - intros l' Hl'. unfold all_found in *. cbn [forallb]. rewrite Hf.
    + rewrite bool_decide_true; [done|]. apply Hl'. pose proof E as (_ & Hp & _)%find_luid_spec. cbn. rewrite Hp, E. by eexists.
    + intros i. rewrite find_luid_update. destruct (find_luid l i) as [[]|] eqn:Ei; [|by intros []]. intros _. apply Hl'. by eexists.
Qed.

Lemma foldl_update_found l privs i : is_Some (find_luid l i) → is_Some (find_luid (foldl update l privs) i).
Proof.
  revert l. induction privs as [|a privs IH]; intros l H; [done|]. cbn. apply IH. rewrite find_luid_update.
  destruct (find_luid l i) as [[]|]; [by eexists|by destruct H].
Qed.

Lemma foldl_update_state l privs a n p : NoDup (map la_luid privs) → a ∈ privs → find_luid l (la_luid a) = Some (n, p) →
  find_luid (foldl update l privs) (la_luid a) = Some (n, set_enabled p (has (la_attrs a) SE_PRIVILEGE_ENABLED)).
Proof.
  revert l. induction privs as [|b privs IH]; intros l Hnd Ha Hf; [by apply not_elem_of_nil in Ha|]. cbn in Hnd |- *.
  apply NoDup_cons in Hnd as [Hb Hnd]. apply elem_of_cons in Ha as [->|Ha].
  - rewrite <-update_foldl, find_luid_update by done.
    assert (find_luid (foldl update l privs) (la_luid b) = Some (n, p)) as ->; [|by rewrite decide_True].
    clear IH Hnd. revert l Hf. induction privs as [|c privs IH]; intros l Hf; [done|]. cbn in Hb |- *.
    apply not_elem_of_cons in Hb as [? ?]. apply IH; [done|]. by rewrite update_other.
  - apply IH; [done..|]. rewrite update_other; [done|]. intros E. rewrite E in Hb. apply Hb. by apply list_elem_of_fmap_2.
Qed.

Lemma foldl_update_length l privs : length (foldl update l privs) = length l.
Proof.
  revert l. induction privs as [|a privs IH]; intros l; [done|]. cbn. rewrite IH. unfold update.
  destruct (find_luid l (la_luid a)) as [[n p]|]; [apply length_insert|done].
Qed.

Lemma foldl_update_rest l privs n p : l !! n = Some p → p_luid p ∉ map la_luid privs → foldl update l privs !! n = Some p.
Proof.
  revert l. induction privs as [|a privs IH]; intros l Hl Hp; [done|]. cbn in Hp |- *.
  apply not_elem_of_cons in Hp as [Ha Hp]. apply IH; [|done]. unfold update.
  destruct (find_luid l (la_luid a)) as [[k q]|] eqn:E; [|done]. apply find_luid_spec in E as (Hk & Hq & _).
  rewrite list_lookup_insert_ne; [done|]. intros ->. congruence.
Qed.

Lemma adjust_privileges_request t privs max s w :
  w_mem w = [] → 12 * Z.of_nat (length privs) ≤ max →
  Forall (λ a, has (la_attrs a) SE_PRIVILEGE_REMOVED = false) privs →
  ∃ i n s', req_adjust_token_privileges t false true privs max s w =
    Some (set_privileges (foldl update (t_privileges t) privs) (set_modified_id i t), n, saved_states (t_privileges t) privs, s',
          World (if all_found (t_privileges t) privs then w_error w else STATUS_NOT_ALL_ASSIGNED) []).
Proof.
  intros Hw Hmax Hr. unfold req_adjust_token_privileges. cbn.
  set (k := length (filter _ privs)).
  assert (k = length (saved_states (t_privileges t) privs)) as Hk.
  { rewrite saved_found. unfold k. f_equal. apply list_filter_iff. intros a. unfold found_privilege. by rewrite token_find_luid. }
  assert (k ≤ length privs)%nat by apply length_filter.
  rewrite Z.min_l by (Z.div_mod_to_equations; lia).
  eexists (next_luid (prev_luid_value s)), _, _. apply wp_exact. unfold set_reply_data_size.
  assert (∀ Q, wp (let* i := allocate_luid in adjust_loop (set_modified_id i t) privs (Z.to_nat (Z.of_nat k))) s w Q ↔
    Q (set_privileges (foldl update (t_privileges t) privs) (set_modified_id (next_luid (prev_luid_value s)) t), saved_states (t_privileges t) privs)
      (Tokens (next_luid (prev_luid_value s))) (World (if all_found (t_privileges t) privs then w_error w else STATUS_NOT_ALL_ASSIGNED) [])) as Hadj.
  { intros Q. apply wp_run. unfold bind, allocate_luid, ret, get, put. cbn. unfold bind. rewrite adjust_loop_spec by done. cbn.
    rewrite firstn_all2 by lia. by rewrite Hw. }
  assert (wp (if Z.of_nat k * 12 =? 0 then ret true else mem_alloc) s w (λ ok s' w', ok = true ∧ s' = s ∧ w' = w)) as Hok.
  { destruct (Z.of_nat k * 12 =? 0); [by apply wp_ret|]. apply wp_mem_alloc; naive_solver. }
  rewrite wp_bind. eapply wp_mono; [exact Hok|]. intros ok s' w' (-> & -> & ->).
  rewrite wp_bind. apply Hadj. cbn. wp_run. done.
Qed.

(** ** A concrete token and descriptor *)

Definition le16 (z : Z) : list Z := [z mod 256; z / 256].
Definition le32 (z : Z) : list Z := le16 (z mod 65536) ++ le16 (z / 65536).
Definition demo_sid (rid : Z) : list Z := [1; 1; 0; 0; 0; 0; 0; 5] ++ le32 rid.
Definition demo_ace (type mask rid : Z) : list Z := [type; 0] ++ le16 20 ++ le32 mask ++ demo_sid rid.
(** Everyone (32) may read and write (3), but members of 33 may not read (1). *)
Definition demo_acl : list Z :=
  [2; 0] ++ le16 48 ++ le16 2 ++ le16 0 ++ demo_ace ACCESS_DENIED_ACE_TYPE 1 33 ++ demo_ace ACCESS_ALLOWED_ACE_TYPE 3 32.
Definition demo_sd : list Z :=
  le32 SE_DACL_PRESENT ++ le32 12 ++ le32 12 ++ le32 0 ++ le32 48 ++ demo_sid 18 ++ demo_sid 18 ++ demo_acl.
Definition demo_privileges : list privilege := [Privilege (23, 0) true true; Privilege (8, 0) false false; Privilege (20, 0) true true].
Definition demo_token : token :=
  Token (1, 0) (2, 0) demo_privileges [Group 7 (demo_sid 32); Group 7 (demo_sid 33)]
        (demo_sid 1000) (Some 0%nat) (Some 0%nat) false 0 (Some demo_acl) 2 1.
Definition demo_mapping : generic_map := GenericMap 1 2 4 7.
Definition demo_tokens : tokens := Tokens (1000, 0).
Definition demo_world : world := World 0 [].

Lemma bytes_by m : bool_decide (Forall (λ b, 0 ≤ b < 256) m) = true → bytes m.
Proof. apply bool_decide_eq_true_1. Qed.

Lemma demo_token_wf : wf_token demo_token.
Proof.
  assert (∀ rid, rid ∈ [32; 33; 1000] → wf_sid (demo_sid rid)) as H.
  { intros rid Hr. rewrite !elem_of_cons in Hr. destruct Hr as [->|[->|[->|Hr]]];
      [split; [reflexivity|apply bytes_by; vm_compute; reflexivity]..|by apply not_elem_of_nil in Hr]. }
  split; [|apply Forall_cons; split; [|apply Forall_singleton]]; apply H; rewrite !elem_of_cons; auto.
Qed.

Lemma demo_token_dacl : wf_dacl demo_token.
Proof. intros d [= <-]. exists 48. vm_compute. done. Qed.

(** ** Theorems *)

(** C4: for every validated security descriptor whose list has no entry smaller than an
    entry's header, and every token, [token_access_check] reads no byte outside the
    descriptor and decides as specified: generic rights are refused, a descriptor without
    owner or group is an error, an object without a list is open, the right to the system
    part needs the privilege, and otherwise an access is granted exactly if every right of
    it is the owner's or allowed by an entry before any entry denies one of them;
    [MAXIMUM_ALLOWED] gets everything allowed and not denied, in any order. *)
Theorem token_access_check_correct t m desired count mapping :
  bytes m → sd_is_valid m (Z.of_nat (length m)) = Some true → wf_token t →
  (∀ c p, sd_get_dacl m = Some (c, Some p) → acl_sizes_ok m p = true) →
  (∀ n, count = Some n → 1 ≤ n) →
  ∃ r, token_access_check t m desired count mapping = Some r ∧
       decision t m mapping desired (c_return r) (c_granted r) (c_status r).
Proof. exact (token_access_check_ok t m desired count mapping). Qed.

Lemma token_access_check_correct_witness :
  token_access_check demo_token demo_sd 2 None demo_mapping = Some (Checked STATUS_SUCCESS 2 (Some STATUS_SUCCESS) None None) ∧
  token_access_check demo_token demo_sd 1 None demo_mapping = Some (Checked STATUS_SUCCESS 0 (Some STATUS_ACCESS_DENIED) None None) ∧
  ∃ r, token_access_check demo_token demo_sd 1 None demo_mapping = Some r ∧
       decision demo_token demo_sd demo_mapping 1 (c_return r) (c_granted r) (c_status r).
Proof.
  split; [vm_compute; reflexivity|]. split; [vm_compute; reflexivity|].
  apply token_access_check_correct; [apply bytes_by; vm_compute; reflexivity|vm_compute; reflexivity|exact demo_token_wf| |done].
  intros c p H. assert (sd_get_dacl demo_sd = Some (true, Some 44)) as E by (vm_compute; reflexivity).
  rewrite E in H. injection H as <- <-. vm_compute. reflexivity.
Defined.

(** C32: a token that [filter_token] makes from another, with some groups disabled, does
    not hold their SIDs, except one that is the SID of the user, and that even for entries
    that deny. So restricting a token can give it access that the token itself is denied:
    of a list that denies rights to a disabled SID which the source holds and then allows
    them to the user, the new token is granted these rights and its source none. *)
Theorem filter_token_drops_denials src psize m s w k :
  bytes m → 0 ≤ psize → wf_token src → wf_dacl src → t_primary_group src = Some k → (k < length (t_groups src))%nat →
  ∃ sids, filtered_sids psize m = Some sids ∧
    wp (req_filter_token src psize m) s w (λ r _ _, ∀ t, r = Some t → ∀ sid, sid ∈ sids → t_user src ≠ sid →
      (∀ m' off deny, bytes m' → sid_at m' off = Some sid → token_sid_present t m' off deny = Some false) ∧
      (∀ mapping mask, map_access mask mapping ≠ 0 → sid_held src sid true = true →
         let es := deny_then_allow mask sid (t_user src) in
         ¬ grantable src mapping (map_access mask mapping) 0 es ∧ grantable t mapping (map_access mask mapping) 0 es)).
Proof. exact (filter_token_ok src psize m s w k). Qed.

Lemma filter_token_drops_denials_witness :
  (option_map c_granted (token_access_check demo_token demo_sd 1 None demo_mapping) = Some 0 ∧
   wp (req_filter_token demo_token 0 (demo_sid 33)) demo_tokens demo_world (λ r _ _,
     match r with
     | Some t => option_map c_granted (token_access_check t demo_sd 1 None demo_mapping) = Some 1
     | None => False
     end) ∧
   demo_sid 33 ∈ [demo_sid 33] ∧ sid_held demo_token (demo_sid 33) true = true) ∧
  ∃ sids, filtered_sids 0 (demo_sid 33) = Some sids ∧
    wp (req_filter_token demo_token 0 (demo_sid 33)) demo_tokens demo_world (λ r _ _, ∀ t, r = Some t → ∀ sid, sid ∈ sids → t_user demo_token ≠ sid →
      (∀ m' off deny, bytes m' → sid_at m' off = Some sid → token_sid_present t m' off deny = Some false) ∧
      (∀ mapping mask, map_access mask mapping ≠ 0 → sid_held demo_token sid true = true →
         let es := deny_then_allow mask sid (t_user demo_token) in
         ¬ grantable demo_token mapping (map_access mask mapping) 0 es ∧ grantable t mapping (map_access mask mapping) 0 es)).
Proof.
  split; [split_and!; [vm_compute; reflexivity..|apply list_elem_of_singleton; reflexivity|vm_compute; reflexivity]|].
  apply (filter_token_drops_denials demo_token 0 (demo_sid 33) demo_tokens demo_world 0).
  - apply bytes_by. vm_compute. reflexivity.
  - reflexivity.
  - exact demo_token_wf.
  - exact demo_token_dacl.
  - reflexivity.
  - vm_compute. auto.
Defined.

(** C30: a copy of a token, when the impersonation level is allowed and memory suffices,
    has exactly the user, session, elevation, default list and groups of the token, in
    order and with the listed groups restricted, and its privileges but the removed ones,
    each enabled as it is in the token, which also becomes its default; owner and primary
    group are the token's primary group, the id is new, and the modified id is the token's
    if the copy is primary or keeps the level. Running out of memory is reported, and a
    level that is out of range, or above that of an impersonation token, is refused and
    changes nothing. The token has a primary group, and a default list, if any, not larger
    than the memory that holds it ([wf_dacl], which [set_token_default_dacl] does not see
    to). *)
Theorem token_duplicate_correct src primary level remove m off n sids k s w :
  bytes m → sids_at m off n = Some sids → wf_token src → wf_dacl src →
  t_primary_group src = Some k → (k < length (t_groups src))%nat →
  if level_allowed src primary level then
    wp (token_duplicate src primary level remove m off n) s w (λ r s' w',
      match r with
      | Some t =>
          outcome w w' true ∧
          let id := next_luid (prev_luid_value s) in
          let shared := primary || (level =? t_impersonation_level src) in
          s' = Tokens (if shared then id else next_luid id) ∧
          t = with_lists (blank_copy src primary level id (if shared then t_modified_id src else next_luid id))
                (kept_privileges remove (t_privileges src)) (map (restrict_group sids) (t_groups src)) (Some k)
      | None => outcome w w' false
      end)
  else token_duplicate src primary level remove m off n s w = Some (None, s, World STATUS_BAD_IMPERSONATION_LEVEL (w_mem w)).
Proof. exact (token_duplicate_ok src primary level remove m off n sids k s w). Qed.

Lemma token_duplicate_correct_witness :
  wp (token_duplicate demo_token true 0 [LuidAttr (8, 0) 0] (demo_sid 33) 0 1) demo_tokens demo_world (λ r s' w',
      match r with
      | Some t =>
          outcome demo_world w' true ∧ s' = Tokens (1001, 0) ∧
          t = with_lists (blank_copy demo_token true 0 (1001, 0) (2, 0))
                (kept_privileges [LuidAttr (8, 0) 0] demo_privileges) [Group 7 (demo_sid 32); Group 17 (demo_sid 33)] (Some 0%nat)
      | None => outcome demo_world w' false
      end) ∧
  token_duplicate demo_token false 3 [] [] 0 0 demo_tokens demo_world = Some (None, demo_tokens, World STATUS_BAD_IMPERSONATION_LEVEL []).
Proof.
  split.
  - refine (token_duplicate_correct demo_token true 0 [LuidAttr (8, 0) 0] (demo_sid 33) 0 1 [demo_sid 33] 0 demo_tokens demo_world
              _ _ demo_token_wf demo_token_dacl _ _).
    + apply bytes_by. vm_compute. reflexivity.
    + vm_compute. reflexivity.
    + reflexivity.
    + vm_compute. auto.
  - refine (token_duplicate_correct demo_token false 3 [] [] 0 0 [] 0 demo_tokens demo_world
              _ _ demo_token_wf demo_token_dacl _ _); [constructor|reflexivity|reflexivity|vm_compute; auto].
Defined.

(** C31: adjusting privileges and then adjusting them with the states that the first
    request saved restores every privilege, when the LUIDs named are distinct, none is to
    be removed, and memory and the replies have room for the saved states: the first
    request puts each of the named privileges that the token has into the requested state,
    leaves every other one as it is, and reports the ones it has not; the second finds all
    that it names. *)
Theorem adjust_privileges_restored t privs max max' s w :
  w_mem w = [] → 12 * Z.of_nat (length privs) ≤ max → 12 * Z.of_nat (length privs) ≤ max' →
  Forall (λ a, has (la_attrs a) SE_PRIVILEGE_REMOVED = false) privs → NoDup (map la_luid privs) →
  wp (req_adjust_token_privileges t false true privs max) s w (λ r s1 w1,
    w_error w1 = (if all_found (t_privileges t) privs then w_error w else STATUS_NOT_ALL_ASSIGNED) ∧
    (∀ a n p, a ∈ privs → find_luid (t_privileges t) (la_luid a) = Some (n, p) →
       find_luid (t_privileges r.1.1) (la_luid a) = Some (n, set_enabled p (has (la_attrs a) SE_PRIVILEGE_ENABLED))) ∧
    length (t_privileges r.1.1) = length (t_privileges t) ∧
    (∀ n p, t_privileges t !! n = Some p → p_luid p ∉ map la_luid privs → t_privileges r.1.1 !! n = Some p) ∧
    wp (req_adjust_token_privileges r.1.1 false true r.2 max') s1 w1 (λ r' _ w2,
      t_privileges r'.1.1 = t_privileges t ∧ w_error w2 = w_error w1)).
Proof.
  intros Hw Hmax Hmax' Hr Hnd.
  destruct (adjust_privileges_request t privs max s w Hw Hmax Hr) as (i & n & s' & H).
  rewrite (wp_run _ _ _ _ _ _ H). cbn. split; [done|]. split; [intros; by apply foldl_update_state|].
  split; [apply foldl_update_length|]. split; [apply foldl_update_rest|].
  destruct (saved_states_good (t_privileges t) privs) as [Hr' Hf].
  assert (length (saved_states (t_privileges t) privs) ≤ length privs)%nat by (rewrite saved_found; apply length_filter).
  set (t1 := set_privileges _ _). set (w1 := World _ []).
  destruct (adjust_privileges_request t1 (saved_states (t_privileges t) privs) max' s' w1) as (i' & n' & s2 & H'); [done|lia|done|].
  rewrite (wp_run _ _ _ _ _ _ H'). cbn.
  rewrite restore_saved, Hf by (done || apply foldl_update_found). done.
Qed.

Lemma adjust_privileges_restored_witness :
  option_map (λ r, (r.1.1.2, w_error r.2))
    (req_adjust_token_privileges demo_token false true [LuidAttr (23, 0) 0; LuidAttr (8, 0) 2; LuidAttr (99, 0) 2] 64 demo_tokens demo_world)
    = Some ([LuidAttr (23, 0) 3; LuidAttr (8, 0) 0], STATUS_NOT_ALL_ASSIGNED) ∧
  wp (req_adjust_token_privileges demo_token false true [LuidAttr (23, 0) 0; LuidAttr (8, 0) 2; LuidAttr (99, 0) 2] 64) demo_tokens demo_world (λ r s1 w1,
    w_error w1 = STATUS_NOT_ALL_ASSIGNED ∧
    (∀ a n p, a ∈ [LuidAttr (23, 0) 0; LuidAttr (8, 0) 2; LuidAttr (99, 0) 2] → find_luid demo_privileges (la_luid a) = Some (n, p) →
       find_luid (t_privileges r.1.1) (la_luid a) = Some (n, set_enabled p (has (la_attrs a) SE_PRIVILEGE_ENABLED))) ∧
    length (t_privileges r.1.1) = 3%nat ∧
    (∀ n p, demo_privileges !! n = Some p → p_luid p ∉ [(23, 0); (8, 0); (99, 0)] → t_privileges r.1.1 !! n = Some p) ∧
    wp (req_adjust_token_privileges r.1.1 false true r.2 64) s1 w1 (λ r' _ w2,
      t_privileges r'.1.1 = demo_privileges ∧ w_error w2 = w_error w1)).
Proof.
  split; [vm_compute; reflexivity|].
  refine (adjust_privileges_restored demo_token [LuidAttr (23, 0) 0; LuidAttr (8, 0) 2; LuidAttr (99, 0) 2] 64 64 demo_tokens demo_world _ _ _ _ _).
  - reflexivity.
  - vm_compute. discriminate.
  - vm_compute. discriminate.
  - repeat constructor.
  - apply (bool_decide_eq_true_1 _). vm_compute. reflexivity.
Defined.

(** C33: [acl_is_valid] does not compare the size of an entry with its header, nor the
    size of the list with the memory that holds it. A single entry of size below 8 makes it
    read behind the end of a list of 16 bytes; and [set_token_default_dacl] stores an empty
    list of 8 bytes, whatever size it claims, so that [get_token_default_dacl] then
    copies memory behind it into its reply. *)
Theorem acl_sizes_unchecked acl :
  bytes acl →
  (∀ l type, length acl = 16%nat → acl_count acl 0 = Some 1 → ace_size acl 8 = Some l → l < 8 →
   ace_type acl 8 = Some type → ace_type_known type = true → acl_is_valid acl 0 16 = None) ∧
  (∀ n t s w max, length acl = 8%nat → acl_count acl 0 = Some 0 → u16_at acl 2 = Some n → w_mem w = [] → 8 < n ≤ max →
   req_set_token_default_dacl (ret t) acl s w = Some (Some (set_default_dacl (Some acl) t), s, w) ∧
   req_get_token_default_dacl (set_default_dacl (Some acl) t) max s w = None).
Proof.
  intros Hm. split.
  - intros l ty Hlen Hc Hl Hl8 Hty Hk. unfold acl_is_valid. rewrite Hc. cbn. unfold ace_size, ace_type, ace_first in *.
    change (Z.to_nat 1) with 1%nat. cbn [acl_loop]. change (0 + 8) with 8. unfold ace_size, ace_type. rewrite Hl. cbn. pose proof (u16_at_range _ _ _ Hm Hl). rewrite (proj2 (Z.ltb_ge _ l)) by (unfold MAX_ACL_LEN; lia).
    rewrite Hty. cbn. rewrite Hk. cbn.
    assert (8 ≤ u32 (l - 8)) by (unfold u32; Z.div_mod_to_equations; lia).
    unfold sid_valid_size. rewrite (proj2 (Z.ltb_ge (u32 (l - 8)) 8)) by done. unfold sid_len.
    destruct (u8_at acl (8 + 8 + 1)) eqn:E; [|done]. apply u8_at_range in E; [|done]. lia.
  - intros n t s w max Hlen Hc Hn Hw Hmax. split.
    + unfold req_set_token_default_dacl. rewrite bool_decide_false by (by intros ->).
      assert (acl_is_valid acl 0 (Z.of_nat (length acl)) = Some true) as -> by (unfold acl_is_valid; rewrite Hlen, Hc; reflexivity).
      apply wp_exact. wp_run. apply wp_mem_alloc; [|by rewrite Hw]. intros w' _ Heq. wp_run. by rewrite Heq.
    + unfold req_get_token_default_dacl. cbn. rewrite Hn, (proj2 (Z.leb_le n max)) by lia.
      unfold set_reply_data_size. destruct (Z.eqb_spec n 0); [lia|].
      unfold bind at 1. unfold mem_alloc, bind at 1, malloc. rewrite Hw. cbn. unfold ret at 1. cbn.
      destruct (bytes_at acl 0 n) eqn:E; [|done]. apply bytes_at_inv in E. lia.
Qed.

Lemma acl_sizes_unchecked_witness :
  acl_is_valid ([2; 0] ++ le16 16 ++ le16 1 ++ le16 0 ++ [0; 0] ++ le16 0 ++ le32 1) 0 16 = None ∧
  req_get_token_default_dacl (set_default_dacl (Some ([2; 0] ++ le16 4096 ++ le32 0)) demo_token) 8192 demo_tokens demo_world = None.
Proof.
  split.
  - refine (proj1 (acl_sizes_unchecked ([2; 0] ++ le16 16 ++ le16 1 ++ le16 0 ++ [0; 0] ++ le16 0 ++ le32 1) _) 0 0 _ _ _ _ _ _).
    + apply bytes_by. vm_compute. reflexivity.
    + reflexivity.
    + vm_compute. reflexivity.
    + vm_compute. reflexivity.
    + lia.
    + vm_compute. reflexivity.
    + vm_compute. reflexivity.
  - refine (proj2 (proj2 (acl_sizes_unchecked ([2; 0] ++ le16 4096 ++ le32 0) _) 4096 demo_token demo_tokens demo_world 8192 _ _ _ _ _)).
    + apply bytes_by. vm_compute. reflexivity.
    + reflexivity.
    + vm_compute. reflexivity.
    + vm_compute. reflexivity.
    + reflexivity.
    + lia.
Defined.
