(* ===== verification/Fd.v ===== *)
(** * Open files: sharing modes and byte-range locks (server/fd.c)

    All open files of one Unix file share an inode object. A lock of a client is kept in
    three lists and, so that other Unix programs respect it, also taken from the system
    with [fcntl]. The system knows one owner, the server: it forgets all locks of a file as
    soon as the server closes any descriptor of it, and an unlocked byte is unlocked for
    every client. So the server delays [close], and unlocks only the bytes that no
    remaining lock covers.

    An inode is known here by the identity of its Unix file (device and number). The system
    is the list of outcomes of the coming [fcntl] calls, [st_results], which succeed once it
    is used up; [st_calls] records the calls that concern locks and the closing of
    descriptors, newest first. [current] is the process whose request is handled.

    [open_fd] starts where [open] and [fstat] have succeeded; what they told is in its
    arguments. What is left out: asynchronous I/O, polling, timeouts, unmounting, renaming,
    names and paths other than the path to unlink, and the counting of references: an fd
    object is destroyed by [fd_destroy] (its last reference, component Handles), a lock
    without owner lives on as long as a handle to it, and an inode lives as long as an fd
    object is open on it.

    The file goes from intervals and holes, through what one call to the system does, to
    the invariant [good] of the lists and of the locks held, which each operation keeps;
    then sharing modes, the sequences of requests, and the theorems. *)

From stdpp Require Import sorting.
From S2P Require Import Prelude.

Definition FILE_POS_T_MAX : Z := 18446744073709551615.
Definition OFF_T_MAX : Z := 9223372036854775807.
Definition FILE_READ_DATA : Z := 0x1.
Definition FILE_WRITE_DATA : Z := 0x2.
Definition FILE_APPEND_DATA : Z := 0x4.
Definition FILE_EXECUTE : Z := 0x20.
Definition DELETE : Z := 0x10000.
Definition FILE_SHARE_READ : Z := 0x1.
Definition FILE_SHARE_WRITE : Z := 0x2.
Definition FILE_SHARE_DELETE : Z := 0x4.
Definition FILE_MAPPING_IMAGE : Z := 0x80000000.
Definition FILE_MAPPING_WRITE : Z := 0x40000000.
Definition FILE_MAPPING_ACCESS : Z := 0x20000000.
Definition FILE_DISPOSITION_DELETE : Z := 0x1.
Definition FILE_DISPOSITION_POSIX_SEMANTICS : Z := 0x2.
Definition FILE_DISPOSITION_ON_CLOSE : Z := 0x8.
Definition FILE_DISPOSITION_IGNORE_READONLY_ATTRIBUTE : Z := 0x10.
Definition FILE_DIRECTORY_FILE : Z := 0x1.
Definition FILE_NON_DIRECTORY_FILE : Z := 0x40.
Definition FILE_DELETE_ON_CLOSE : Z := 0x1000.
Definition STATUS_SHARING_VIOLATION : Z := 0xC0000043.
Definition STATUS_CANNOT_DELETE : Z := 0xC0000121.
Definition STATUS_USER_MAPPED_FILE : Z := 0xC0000243.
Definition STATUS_NOT_A_DIRECTORY : Z := 0xC0000103.
Definition STATUS_FILE_IS_A_DIRECTORY : Z := 0xC00000BA.
Definition STATUS_DISK_FULL : Z := 0xC000007F.
Definition STATUS_NO_SUCH_FILE : Z := 0xC000000F.
Definition STATUS_TOO_MANY_OPENED_FILES : Z := 0xC000011F.
Definition STATUS_ILLEGAL_FUNCTION : Z := 0xC00000AF.
Definition STATUS_DIRECTORY_NOT_EMPTY : Z := 0xC0000101.
Definition STATUS_SECTION_TOO_BIG : Z := 0xC0000040.
Definition STATUS_NO_SUCH_DEVICE : Z := 0xC000000E.
Definition STATUS_NOT_SAME_DEVICE : Z := 0xC00000D4.
Definition STATUS_REPARSE_POINT_NOT_RESOLVED : Z := 0xC0000280.
Definition STATUS_UNSUCCESSFUL : Z := 0xC0000001.
Definition STATUS_INVALID_DEVICE_REQUEST : Z := 0xC0000010.
Definition STATUS_ACCESS_VIOLATION : Z := 0xC0000005.

(** ** The system *)

Inductive errno :=
  | EACCES | EAGAIN | EBADF | EBUSY | EEXIST | EFBIG | EINVAL | EIO | EISDIR | ELOOP | EMFILE | ENFILE | ENODEV | ENOENT
  | ENOLCK | ENOSPC | ENOTDIR | ENOTEMPTY | ENOTSUP | ENXIO | EOVERFLOW | EPERM | EROFS | ESPIPE | ESRCH | ETXTBSY | EXDEV
  | EOTHER.
Inductive lock_type := F_RDLCK | F_WRLCK | F_UNLCK.

(** [i] is the file that the descriptor [unix_fd] belongs to. *)
Inductive sys_call :=
  | Setlk (i unix_fd : Z) (type : lock_type) (start len : Z) (result : option errno)
  | Getlk (i unix_fd : Z) (result : option errno)
  | Close (i unix_fd : Z)
  | Unlink (i : Z) (name : list Z).

(** ** Objects *)

(** [lk_process] is [None] once the lock is removed; [lk_signaled] is the state of [sync],
    a manual-reset event. *)
Record file_lock := Lock {
  lk_fd : Z; lk_shared : bool; lk_start : Z; lk_end : Z; lk_process : option Z; lk_signaled : bool }.
Record closed_fd := ClosedFd { c_unix_fd : Z; c_disp_flags : Z; c_unix_name : list Z }.
(** [fd_closed] is used when there is an inode. *)
Record fd := Fd {
  fd_inode : option Z; fd_closed : closed_fd; fd_locks : list Z; fd_access : Z; fd_sharing : Z; fd_options : Z;
  fd_unix_fd : Z; fd_fs_locks : bool }.
Record inode := Inode { i_open : list Z; i_locks : list Z; i_closed : list closed_fd }.

(** The lists of locks of the processes are [st_procs]. *)
Record fd_state := FdState {
  st_locks : gmap Z file_lock; st_fds : gmap Z fd; st_inodes : gmap Z inode; st_procs : gmap Z (list Z);
  max_unix_offset : Z; st_calls : list sys_call; st_results : list (option errno) }.
Abbreviation F := (M fd_state).

Definition with_locks (m : gmap Z file_lock) (s : fd_state) : fd_state :=
  FdState m (st_fds s) (st_inodes s) (st_procs s) (max_unix_offset s) (st_calls s) (st_results s).
Definition with_fds (m : gmap Z fd) (s : fd_state) : fd_state :=
  FdState (st_locks s) m (st_inodes s) (st_procs s) (max_unix_offset s) (st_calls s) (st_results s).
Definition with_inodes (m : gmap Z inode) (s : fd_state) : fd_state :=
  FdState (st_locks s) (st_fds s) m (st_procs s) (max_unix_offset s) (st_calls s) (st_results s).
Definition with_procs (m : gmap Z (list Z)) (s : fd_state) : fd_state :=
  FdState (st_locks s) (st_fds s) (st_inodes s) m (max_unix_offset s) (st_calls s) (st_results s).
Definition with_max (n : Z) (s : fd_state) : fd_state :=
  FdState (st_locks s) (st_fds s) (st_inodes s) (st_procs s) n (st_calls s) (st_results s).
Definition with_calls (c : list sys_call) (r : list (option errno)) (s : fd_state) : fd_state :=
  FdState (st_locks s) (st_fds s) (st_inodes s) (st_procs s) (max_unix_offset s) c r.

Definition set_fs_locks (b : bool) (x : fd) : fd :=
  Fd (fd_inode x) (fd_closed x) (fd_locks x) (fd_access x) (fd_sharing x) (fd_options x) (fd_unix_fd x) b.
Definition set_fd_locks (l : list Z) (x : fd) : fd :=
  Fd (fd_inode x) (fd_closed x) l (fd_access x) (fd_sharing x) (fd_options x) (fd_unix_fd x) (fd_fs_locks x).
Definition set_sharing (access sharing : Z) (x : fd) : fd :=
  Fd (fd_inode x) (fd_closed x) (fd_locks x) access sharing (fd_options x) (fd_unix_fd x) (fd_fs_locks x).
Definition set_options (options : Z) (x : fd) : fd :=
  Fd (fd_inode x) (fd_closed x) (fd_locks x) (fd_access x) (fd_sharing x) options (fd_unix_fd x) (fd_fs_locks x).
Definition set_disp_flags (flags : Z) (x : fd) : fd :=
  Fd (fd_inode x) (ClosedFd (c_unix_fd (fd_closed x)) flags (c_unix_name (fd_closed x))) (fd_locks x) (fd_access x) (fd_sharing x)
     (fd_options x) (fd_unix_fd x) (fd_fs_locks x).
Definition set_i_open (l : list Z) (y : inode) : inode := Inode l (i_locks y) (i_closed y).
Definition set_i_locks (l : list Z) (y : inode) : inode := Inode (i_open y) l (i_closed y).
Definition set_i_closed (l : list closed_fd) (y : inode) : inode := Inode (i_open y) (i_locks y) l.

(** Following a pointer. *)
Definition of_option {A} (a : option A) : F A := match a with Some a => ret a | None => crash end.
Definition read_lock (k : Z) : F file_lock := let* s := get in of_option (st_locks s !! k).
Definition read_fd (f : Z) : F fd := let* s := get in of_option (st_fds s !! f).
Definition read_inode (i : Z) : F inode := let* s := get in of_option (st_inodes s !! i).
Definition put_lock (k : Z) (l : file_lock) : F unit := modify (λ s, with_locks (<[k := l]> (st_locks s)) s).
Definition put_fd (f : Z) (x : fd) : F unit := modify (λ s, with_fds (<[f := x]> (st_fds s)) s).
Definition put_inode (i : Z) (y : inode) : F unit := modify (λ s, with_inodes (<[i := y]> (st_inodes s)) s).
Definition process_locks (s : fd_state) (p : Z) : list Z := default [] (st_procs s !! p).
Definition put_process (p : Z) (l : list Z) : F unit := modify (λ s, with_procs (<[p := l]> (st_procs s)) s).
Fixpoint read_locks (ks : list Z) : F (list file_lock) :=
  match ks with
  | [] => ret []
  | k :: ks => let* l := read_lock k in let* ls := read_locks ks in ret (l :: ls)
  end.
Definition remove_id (k : Z) (l : list Z) : list Z := filter (λ j, j ≠ k) l.

Definition next_result (s : fd_state) : option errno * list (option errno) :=
  match st_results s with [] => (None, []) | r :: l => (r, l) end.
Definition fcntl_setlk (i unix_fd : Z) (type : lock_type) (start len : Z) : F (option errno) :=
  let* s := get in
  let '(r, l) := next_result s in
  put (with_calls (Setlk i unix_fd type start len r :: st_calls s) l s) >> ret r.
Definition fcntl_getlk (i unix_fd : Z) : F (option errno) :=
  let* s := get in
  let '(r, l) := next_result s in
  put (with_calls (Getlk i unix_fd r :: st_calls s) l s) >> ret r.
Definition record_call (c : sys_call) : F unit := modify (λ s, with_calls (c :: st_calls s) (st_results s) s).
Definition close_unix (i unix_fd : Z) : F unit := when (negb (unix_fd =? -1)) (record_call (Close i unix_fd)).

(** [file_set_error] of file.c. *)
Definition errno_status (e : errno) : Z :=
  match e with
  | ETXTBSY | EAGAIN => STATUS_SHARING_VIOLATION
  | EBADF => STATUS_INVALID_HANDLE
  | ENOSPC => STATUS_DISK_FULL
  | EACCES | ESRCH | EROFS | EPERM => STATUS_ACCESS_DENIED
  | EBUSY => STATUS_FILE_LOCK_CONFLICT
  | ENOENT => STATUS_NO_SUCH_FILE
  | EISDIR => STATUS_FILE_IS_A_DIRECTORY
  | ENFILE | EMFILE => STATUS_TOO_MANY_OPENED_FILES
  | EEXIST => STATUS_OBJECT_NAME_COLLISION
  | EINVAL => STATUS_INVALID_PARAMETER
  | ESPIPE => STATUS_ILLEGAL_FUNCTION
  | ENOTEMPTY => STATUS_DIRECTORY_NOT_EMPTY
  | EIO => STATUS_ACCESS_VIOLATION
  | ENOTDIR => STATUS_NOT_A_DIRECTORY
  | EFBIG => STATUS_SECTION_TOO_BIG
  | ENODEV | ENXIO => STATUS_NO_SUCH_DEVICE
  | EXDEV => STATUS_NOT_SAME_DEVICE
  | ELOOP => STATUS_REPARSE_POINT_NOT_RESOLVED
  | EOVERFLOW => STATUS_INVALID_PARAMETER
  | ENOLCK | ENOTSUP | EOTHER => STATUS_UNSUCCESSFUL
  end.
Definition file_set_error (e : errno) : F unit := set_error (errno_status e).

(** ** Unix locks *)

Definition is_wrlck (type : lock_type) : bool := match type with F_WRLCK => true | _ => false end.
(** The [for] loop; it goes around again at most twice. *)
Fixpoint set_unix_lock_loop (n : nat) (f i : Z) (start end_ : Z) (type : lock_type) : F bool :=
  match n with
  | O => crash
  | S n =>
      let* s := get in
      let max := max_unix_offset s in
      if start =? end_ then ret true else
      if max <? start then ret true else
      let* x := read_fd f in
      let* r := fcntl_setlk i (fd_unix_fd x) type start (if (end_ =? 0) || (max <? end_) then 0 else end_ - start) in
      let no_locking := put_fd f (set_fs_locks false x) >> ret true in
      match r with
      | None => ret true
      | Some EACCES =>
          let* g := fcntl_getlk i (fd_unix_fd x) in
          match g with
          | None => set_error STATUS_FILE_LOCK_CONFLICT >> ret false
          | Some _ => no_locking
          end
      | Some EIO | Some ENOLCK | Some ENOTSUP => no_locking
      | Some EAGAIN => set_error STATUS_FILE_LOCK_CONFLICT >> ret false
      | Some EBADF =>
          if is_wrlck type then set_unix_lock_loop n f i start end_ F_RDLCK
          else set_error STATUS_ACCESS_DENIED >> ret false
      | Some EOVERFLOW =>
          if INT_MAX <? max then modify (with_max INT_MAX) >> set_unix_lock_loop n f i start end_ type
          else file_set_error EOVERFLOW >> ret false
      | Some EINVAL =>
          if INT_MAX <? max then modify (with_max INT_MAX) >> set_unix_lock_loop n f i start end_ type
          else file_set_error EINVAL >> ret false
      | Some e => file_set_error e >> ret false
      end
  end.
(** [i] is the inode of the fd object [f]. *)
Definition set_unix_lock (f i : Z) (start end_ : Z) (type : lock_type) : F bool :=
  let* x := read_fd f in
  if negb (fd_fs_locks x) then ret true else set_unix_lock_loop 3 f i start end_ type.

(** The interval is [[start;end)], up to the end of the file if [end] is 0. *)
Definition lock_overlaps (l : file_lock) (start end_ : Z) : bool :=
  negb (truth (lk_end l) && (lk_end l <=? start)) && negb (truth end_ && (end_ <=? lk_start l)).

(** The list of holes, as a list, with the number of slots of [buffer] in use out of
    [size]; an interval of the list is never empty. One lock is cut out of the holes from
    [cur] on. *)
Fixpoint punch (l : file_lock) (holes : list (Z * Z)) (used size : Z) : option (list (Z * Z) * Z) :=
  match holes with
  | [] => Some ([], used)
  | (s, e) :: rest =>
      if e <=? lk_start l then
        r ← punch l rest used size; Some ((s, e) :: r.1, r.2)
      else if truth (lk_end l) && (lk_end l <=? s) then Some (holes, used)
      else if lk_start l <=? s then
        if truth (lk_end l) && (lk_end l <? e) then Some ((lk_end l, e) :: rest, used)
        else punch l rest used size
      else if negb (truth (lk_end l)) || (e <=? lk_end l) then
        if s <? lk_start l then r ← punch l rest used size; Some ((s, lk_start l) :: r.1, r.2) else None
      else
        if (used <? size) && (lk_end l <? e) && (lk_start l <? lk_end l)
        then Some ((s, lk_start l) :: (lk_end l, e) :: rest, used + 1) else None
  end.
Fixpoint punch_all (ls : list file_lock) (holes : list (Z * Z)) (used size : Z) : option (list (Z * Z)) :=
  match ls with
  | [] => Some holes
  | l :: ls => r ← punch l holes used size; punch_all ls r.1 r.2 size
  end.
Fixpoint unlock_holes (f i : Z) (holes : list (Z * Z)) : F unit :=
  match holes with
  | [] => ret tt
  | (s, e) :: rest => set_unix_lock f i s e F_UNLCK >> unlock_holes f i rest
  end.

Definition touches (start end_ : Z) (l : file_lock) : bool := negb (lk_start l =? lk_end l) && lock_overlaps l start end_.
Definition remove_unix_locks (f : Z) (start end_ : Z) : F unit :=
  let* x := read_fd f in
  match fd_inode x with
  | None => ret tt
  | Some i =>
      if negb (fd_fs_locks x) then ret tt else
      let* s := get in
      let max := max_unix_offset s in
      if (start =? end_) || (max <? start) then ret tt else
      let end_ := if (end_ =? 0) || (max <? end_) then max + 1 else end_ in
      let* y := read_inode i in
      let* ls := read_locks (i_locks y) in
      let ls := filter (λ l, touches start end_ l = true) ls in
      if bool_decide (ls = []) then set_unix_lock f i start end_ F_UNLCK >> ret tt else
      let* ok := malloc in
      if negb ok then ret tt else
      let* holes := of_option (punch_all ls [(start, end_)] 1 (Z.of_nat (length ls) + 1)) in
      unlock_holes f i holes
  end.

(** ** Closing descriptors *)

(** [unlink_closed_fd] makes sure that the path still leads to the file. *)
Definition unlink_closed_fd (i : Z) (c : closed_fd) : F unit := record_call (Unlink i (c_unix_name c)).

Definition deletes (c : closed_fd) : bool := has (c_disp_flags c) FILE_DISPOSITION_DELETE.
Fixpoint close_pending (i : Z) (keep_unlinks : bool) (l : list closed_fd) : F (list closed_fd) :=
  match l with
  | [] => ret []
  | c :: l =>
      close_unix i (c_unix_fd c) >>
      let* r := close_pending i keep_unlinks l in
      ret (if negb keep_unlinks || negb (deletes c) then r else ClosedFd (-1) (c_disp_flags c) (c_unix_name c) :: r)
  end.
Definition inode_close_pending (i : Z) (keep_unlinks : bool) : F unit :=
  let* y := read_inode i in
  let* l := close_pending i keep_unlinks (i_closed y) in
  put_inode i (set_i_closed l y).

Fixpoint destroy_closed (i : Z) (l : list closed_fd) : F unit :=
  match l with
  | [] => ret tt
  | c :: l => close_unix i (c_unix_fd c) >> when (deletes c) (unlink_closed_fd i c) >> destroy_closed i l
  end.
Definition inode_destroy (i : Z) : F unit :=
  let* y := read_inode i in
  c_assert (bool_decide (i_open y = [])) >>
  c_assert (bool_decide (i_locks y = [])) >>
  destroy_closed i (i_closed y) >>
  modify (λ s, with_inodes (delete i (st_inodes s)) s).

Definition inode_has_pending_close (y : inode) (path : list Z) : bool := existsb (λ c, bool_decide (c_unix_name c = path)) (i_closed y).
Definition inode_add_closed_fd (i : Z) (c : closed_fd) : F unit :=
  let* y := read_inode i in
  if negb (bool_decide (i_locks y = [])) then put_inode i (set_i_closed (c :: i_closed y) y)
  else if deletes c && has (c_disp_flags c) FILE_DISPOSITION_POSIX_SEMANTICS then close_unix i (c_unix_fd c) >> unlink_closed_fd i c
  else if deletes c && negb (inode_has_pending_close y (c_unix_name c)) then
    close_unix i (c_unix_fd c) >>
    put_inode i (set_i_closed (ClosedFd (-1) (c_disp_flags c) (c_unix_name c) :: i_closed y) y)
  else close_unix i (c_unix_fd c).

(** ** Locks *)

(** The lock and its event are two objects. *)
Definition add_lock (current f : Z) (shared : bool) (start end_ : Z) : F (option Z) :=
  let* ok := mem_alloc in
  if negb ok then ret None else
  let* ok := mem_alloc in
  if negb ok then ret None else
  let* x := read_fd f in
  let* i := of_option (fd_inode x) in
  let* ok := set_unix_lock f i start end_ (if shared then F_RDLCK else F_WRLCK) in
  if negb ok then ret None else
  let* s := get in
  let k := new_key (st_locks s) in
  put_lock k (Lock f shared start end_ (Some current) false) >>
  let* x := read_fd f in
  put_fd f (set_fd_locks (fd_locks x ++ [k]) x) >>
  let* y := read_inode i in
  put_inode i (set_i_locks (i_locks y ++ [k]) y) >>
  put_process current (process_locks s current ++ [k]) >>
  ret (Some k).

Definition remove_lock (k : Z) (remove_unix : bool) : F unit :=
  let* l := read_lock k in
  let* x := read_fd (lk_fd l) in
  let* i := of_option (fd_inode x) in
  let* p := of_option (lk_process l) in
  put_fd (lk_fd l) (set_fd_locks (remove_id k (fd_locks x)) x) >>
  let* y := read_inode i in
  put_inode i (set_i_locks (remove_id k (i_locks y)) y) >>
  let* s := get in
  put_process p (remove_id k (process_locks s p)) >>
  (if remove_unix then remove_unix_locks (lk_fd l) (lk_start l) (lk_end l) else ret tt) >>
  let* y := read_inode i in
  (if bool_decide (i_locks y = []) then inode_close_pending i true else ret tt) >>
  put_lock k (Lock (lk_fd l) (lk_shared l) (lk_start l) (lk_end l) None true).

Fixpoint remove_process_locks_loop (n : nat) (p : Z) : F unit :=
  let* s := get in
  match process_locks s p with
  | [] => ret tt
  | k :: _ => match n with O => crash | S n => remove_lock k true >> remove_process_locks_loop n p end
  end.
Definition remove_process_locks (p : Z) : F unit :=
  let* s := get in remove_process_locks_loop (length (process_locks s p)) p.

(** [end - 1] wraps around if [end] is 0. *)
Fixpoint remove_fd_locks_loop (n : nat) (f start end_ : Z) : F (Z * Z) :=
  let* x := read_fd f in
  match fd_locks x with
  | [] => ret (start, end_)
  | k :: _ =>
      match n with
      | O => crash
      | S n =>
          let* l := read_lock k in
          let start := if lk_start l <? start then lk_start l else start in
          let end_ := if negb (truth (lk_end l)) || (end_ <? lk_end l) then u64 (lk_end l - 1) else end_ in
          remove_lock k false >> remove_fd_locks_loop n f start end_
      end
  end.
Definition remove_fd_locks (f : Z) : F unit :=
  let* x := read_fd f in
  let* r := remove_fd_locks_loop (length (fd_locks x)) f FILE_POS_T_MAX 0 in
  if r.1 <? r.2 then remove_unix_locks f r.1 (u64 (r.2 + 1)) else ret tt.

(** The first lock that conflicts with the new one. *)
Definition conflicts (f : Z) (shared : bool) (start end_ : Z) (l : file_lock) : bool :=
  lock_overlaps l start end_ && negb (shared && (lk_shared l || (lk_fd l =? f))).
Fixpoint find_conflict (f : Z) (shared : bool) (start end_ : Z) (ks : list Z) : F (option Z) :=
  match ks with
  | [] => ret None
  | k :: ks =>
      let* l := read_lock k in
      if conflicts f shared start end_ l then ret (Some k) else find_conflict f shared start end_ ks
  end.
(** The result is the lock that the caller gets a handle to, to wait on
    ([alloc_handle], component Handles). *)
Definition lock_fd (current f : Z) (start count : Z) (shared wait : bool) : F (option Z) :=
  let* x := read_fd f in
  let end_ := u64 (start + count) in
  match fd_inode x with
  | None => set_error STATUS_INVALID_DEVICE_REQUEST >> ret None
  | Some i =>
      if truth end_ && (end_ <? start) then set_error STATUS_INVALID_PARAMETER >> ret None else
      let* y := read_inode i in
      let* k := find_conflict f shared start end_ (i_locks y) in
      match k with
      | Some k => if wait then set_error STATUS_PENDING >> ret (Some k) else set_error STATUS_FILE_LOCK_CONFLICT >> ret None
      | None =>
          let* r := add_lock current f shared start end_ in
          match r with
          | Some _ => ret None
          | None =>
              let* e := get_error in
              (if (e =? STATUS_FILE_LOCK_CONFLICT) && wait then set_error STATUS_PENDING else ret tt) >> ret None
          end
      end
  end.

Fixpoint find_exact (start end_ : Z) (ks : list Z) : F (option Z) :=
  match ks with
  | [] => ret None
  | k :: ks =>
      let* l := read_lock k in
      if (lk_start l =? start) && (lk_end l =? end_) then ret (Some k) else find_exact start end_ ks
  end.
Definition unlock_fd (f : Z) (start count : Z) : F unit :=
  let* x := read_fd f in
  let* k := find_exact start (u64 (start + count)) (fd_locks x) in
  match k with Some k => remove_lock k true | None => set_error STATUS_FILE_LOCK_CONFLICT end.

(** ** Opening and destroying fd objects *)

Definition read_access : Z := Z.lor FILE_READ_DATA FILE_EXECUTE.
Definition write_access : Z := Z.lor FILE_WRITE_DATA FILE_APPEND_DATA.
Definition all_access : Z := Z.lor read_access (Z.lor write_access DELETE).
Definition FILE_SHARE_ALL : Z := Z.lor FILE_SHARE_READ (Z.lor FILE_SHARE_WRITE FILE_SHARE_DELETE).

(** What the loop of [check_sharing] collects over the other opens of the file. *)
Definition existing (others : list fd) : Z * Z :=
  fold_left (λ r x, (if has (fd_access x) all_access then Z.land r.1 (fd_sharing x) else r.1, Z.lor r.2 (fd_access x)))
            others (FILE_SHARE_ALL, 0).
(** The error, or 0. *)
Definition sharing_error (others : list fd) (access sharing : Z) (trunc : bool) (options : Z) : Z :=
  let '(existing_sharing, existing_access) := existing others in
  if has access read_access && negb (has existing_sharing FILE_SHARE_READ) ||
     has access write_access && negb (has existing_sharing FILE_SHARE_WRITE) ||
     has access DELETE && negb (has existing_sharing FILE_SHARE_DELETE) then STATUS_SHARING_VIOLATION else
  if has existing_access FILE_MAPPING_WRITE && negb (has sharing FILE_SHARE_WRITE) ||
     has existing_access FILE_MAPPING_IMAGE && has access FILE_WRITE_DATA then STATUS_SHARING_VIOLATION else
  if has existing_access FILE_MAPPING_IMAGE && has options FILE_DELETE_ON_CLOSE then STATUS_CANNOT_DELETE else
  if has existing_access FILE_MAPPING_ACCESS && trunc then STATUS_USER_MAPPED_FILE else
  if negb (has access all_access) then 0 else
  if has existing_access read_access && negb (has sharing FILE_SHARE_READ) ||
     has existing_access write_access && negb (has sharing FILE_SHARE_WRITE) ||
     has existing_access DELETE && negb (has sharing FILE_SHARE_DELETE) then STATUS_SHARING_VIOLATION else 0.
Fixpoint read_fds (fs : list Z) : F (list fd) :=
  match fs with
  | [] => ret []
  | f :: fs => let* x := read_fd f in let* xs := read_fds fs in ret (x :: xs)
  end.
(** [trunc] is the flag [O_TRUNC]. *)
Definition check_sharing (f : Z) (access sharing : Z) (trunc : bool) (options : Z) : F Z :=
  let* x := read_fd f in
  put_fd f (set_sharing access sharing x) >>
  let* i := of_option (fd_inode x) in
  let* y := read_inode i in
  let* others := read_fds (remove_id f (i_open y)) in
  ret (sharing_error others access sharing trunc options).

(** [fd_destroy], from [remove_fd_locks] on; the inode goes with its last fd object. *)
Definition fd_destroy (f : Z) : F unit :=
  let* x := read_fd f in
  remove_fd_locks f >>
  match fd_inode x with
  | Some i =>
      let* y := read_inode i in
      put_inode i (set_i_open (remove_id f (i_open y)) y) >>
      inode_add_closed_fd i (fd_closed x) >>
      modify (λ s, with_fds (delete f (st_fds s)) s) >>
      let* y := read_inode i in
      if bool_decide (i_open y = []) then inode_destroy i else ret tt
  | None => modify (λ s, with_fds (delete f (st_fds s)) s)
  end.

(** [get_inode] for the file [i]. *)
Definition get_inode (i : Z) : F bool :=
  let* s := get in
  match st_inodes s !! i with
  | Some _ => ret true
  | None => let* ok := mem_alloc in (if ok then put_inode i (Inode [] [] []) else ret tt) >> ret ok
  end.
Definition new_fd (inode : option Z) (c : closed_fd) (options unix_fd : Z) : F Z :=
  let* s := get in
  let f := new_key (st_fds s) in
  put_fd f (Fd inode c [] 0 0 options unix_fd true) >>
  match inode with
  | Some i => let* y := read_inode i in put_inode i (set_i_open (f :: i_open y) y)
  | None => ret tt
  end >>
  ret f.

(** [open_fd] after [open] gave the descriptor [unix_fd] of the regular file or directory
    [i]; [name] is its real path, [writable] whether anyone may write it. *)
Definition open_fd (i unix_fd : Z) (name : list Z) (is_dir writable creat trunc : bool) (access sharing options : Z) : F (option Z) :=
  let* ok := get_inode i in
  if negb ok then close_unix i unix_fd >> ret None else
  let* f := new_fd (Some i) (ClosedFd unix_fd 0 name) options unix_fd in
  let fail e := set_error e >> fd_destroy f >> ret None in
  if has options FILE_DIRECTORY_FILE && negb is_dir then fail STATUS_NOT_A_DIRECTORY else
  if has options FILE_NON_DIRECTORY_FILE && is_dir then fail STATUS_FILE_IS_A_DIRECTORY else
  let* err := check_sharing f access sharing trunc options in
  if truth err then fail err else
  if has options FILE_DELETE_ON_CLOSE && negb creat && negb writable then fail STATUS_CANNOT_DELETE else
  let* x := read_fd f in
  put_fd f (set_disp_flags (if has options FILE_DELETE_ON_CLOSE then FILE_DISPOSITION_DELETE else 0) x) >>
  if trunc && is_dir then fail STATUS_OBJECT_NAME_COLLISION else ret (Some f).

(** [dup_fd_object], once the fd object and the copies of the names are allocated;
    [unix_fd] is the result of [dup]. *)
Definition dup_fd_object (orig : Z) (unix_fd : Z + errno) (access sharing options : Z) : F (option Z) :=
  let* x := read_fd orig in
  match fd_inode x with
  | None =>
      match unix_fd with
      | inr e => file_set_error e >> ret None
      | inl u => let* f := new_fd None (fd_closed x) options u in ret (Some f)
      end
  | Some i =>
      let* ok := mem_alloc in
      if negb ok then ret None else
      match unix_fd with
      | inr e => file_set_error e >> ret None
      | inl u =>
          let* f := new_fd (Some i) (ClosedFd u 0 (c_unix_name (fd_closed x))) options u in
          let* err := check_sharing f access sharing false options in
          if truth err then set_error err >> fd_destroy f >> ret None else ret (Some f)
      end
  end.
(** What [fstat] and [is_dir_empty] tell about a file; [Regular] says whether anyone may
    write it, [Directory] whether it is empty. *)
Inductive file_stat := StatFailed (e : errno) | Regular (writable : bool) | Directory (empty : bool + errno) | Special.
Definition deletion_error (flags : Z) (opens : list fd) (st : file_stat) : Z :=
  if existsb (λ x, has (fd_access x) FILE_MAPPING_ACCESS) opens then STATUS_CANNOT_DELETE else
  match st with
  | StatFailed e => errno_status e
  | Regular writable => if negb (has flags FILE_DISPOSITION_IGNORE_READONLY_ATTRIBUTE) && negb writable then STATUS_CANNOT_DELETE else 0
  | Directory (inr e) => errno_status e
  | Directory (inl empty) => if empty then 0 else STATUS_DIRECTORY_NOT_EMPTY
  | Special => STATUS_INVALID_PARAMETER
  end.
Definition set_fd_disposition (f flags : Z) (st : file_stat) : F unit :=
  let* x := read_fd f in
  match fd_inode x with
  | None => set_error STATUS_OBJECT_TYPE_MISMATCH
  | Some i =>
      let* err := (if has flags FILE_DISPOSITION_DELETE
                   then let* y := read_inode i in let* opens := read_fds (i_open y) in ret (deletion_error flags opens st)
                   else ret 0) in
      if truth err then set_error err else
      let options := if has flags FILE_DISPOSITION_ON_CLOSE then Z.ldiff (fd_options x) FILE_DELETE_ON_CLOSE else fd_options x in
      put_fd f (set_disp_flags (Z.lor (Z.land flags (Z.lor FILE_DISPOSITION_DELETE FILE_DISPOSITION_POSIX_SEMANTICS))
                                      (if has options FILE_DELETE_ON_CLOSE then FILE_DISPOSITION_DELETE else 0))
                               (set_options options x))
  end.

(** ** Intervals and holes *)

Definition covers (l : file_lock) (b : Z) : Prop := lk_start l ≤ b ∧ (lk_end l = 0 ∨ b < lk_end l).
Definition nonempty (l : file_lock) : Prop := lk_start l ≠ lk_end l.
(** What [lock_fd] lets pass: the interval does not wrap around. *)
Definition lock_range (l : file_lock) : Prop :=
  0 ≤ lk_start l ≤ FILE_POS_T_MAX ∧ 0 ≤ lk_end l ≤ FILE_POS_T_MAX ∧ (lk_end l = 0 ∨ lk_start l ≤ lk_end l).

Definition in_hole (b : Z) (h : Z * Z) : Prop := h.1 ≤ b < h.2.
Definition in_holes (b : Z) (hs : list (Z * Z)) : Prop := Exists (in_hole b) hs.
Fixpoint sorted_holes (lo : Z) (hs : list (Z * Z)) (hi : Z) : Prop :=
  match hs with
  | [] => lo ≤ hi
  | h :: hs => lo ≤ h.1 < h.2 ∧ sorted_holes h.2 hs hi
  end.

Lemma sorted_holes_le lo hs hi : sorted_holes lo hs hi → lo ≤ hi.
Proof. revert lo. induction hs as [|h hs IH]; intros lo H; [done|]. destruct H as [? H%IH]. lia. Qed.

Lemma sorted_holes_lo lo lo' hs hi : lo' ≤ lo → sorted_holes lo hs hi → sorted_holes lo' hs hi.
Proof. destruct hs; cbn; [lia|]. intros ? [? ?]. split; [lia|done]. Qed.

Lemma in_holes_range lo hs hi b : sorted_holes lo hs hi → in_holes b hs → lo ≤ b < hi.
Proof.
  revert lo. induction hs as [|h hs IH]; intros lo Hs Hb; [by apply Exists_nil in Hb|]. destruct Hs as [? Hs].
  apply Exists_cons in Hb as [Hb|Hb]; [apply sorted_holes_le in Hs; unfold in_hole in Hb; lia|].
  apply (IH _ Hs) in Hb. lia.
Qed.

Lemma in_holes_cons b h hs : in_holes b (h :: hs) ↔ h.1 ≤ b < h.2 ∨ in_holes b hs.
Proof. apply Exists_cons. Qed.

(** A lock is cut out of the holes; at most one more slot is used. *)
Lemma punch_ok l hs lo hi used size : lock_range l → nonempty l → sorted_holes lo hs hi → 0 ≤ lo → used < size →
  ∃ hs' used', punch l hs used size = Some (hs', used') ∧ used ≤ used' ≤ used + 1 ∧ sorted_holes lo hs' hi ∧
    ∀ b, in_holes b hs' ↔ in_holes b hs ∧ ¬ covers l b.
Proof.
  intros (Hs & He & Hle) Hne. revert lo. induction hs as [|[s e] hs IH]; intros lo Hsort Hlo Hused.
  { exists [], used. split_and!; [done|lia..|done|]. intros b. unfold in_holes. rewrite Exists_nil. tauto. }
  cbn in Hsort. destruct Hsort as [? Hsort]. cbn [punch]. unfold nonempty in Hne.
  assert (∀ b, in_holes b hs → e ≤ b) as Hafter by (intros b Hb; apply (in_holes_range _ _ _ _ Hsort) in Hb; lia).
  unfold covers, truth. destruct (Z.leb_spec e (lk_start l)).
  { destruct (IH e Hsort) as (hs' & used' & -> & ? & ? & Hin); [lia..|]. cbn. eexists _, _. split; [done|]. split; [done|].
    split; [done|]. intros b. rewrite !in_holes_cons, Hin. cbn. unfold covers. intuition lia. }
  destruct (Z.eqb_spec (lk_end l) 0) as [E0|E0]; cbn [negb andb].
  - destruct (Z.leb_spec (lk_start l) s).
    + destruct (IH e Hsort) as (hs' & used' & -> & ? & ? & Hin); [lia..|]. cbn. eexists _, _. split; [done|]. split; [done|].
      split; [by eapply sorted_holes_lo; [|done]; lia|]. intros b. rewrite in_holes_cons, Hin. cbn. unfold covers. intuition lia.
    + cbn [orb]. destruct (Z.ltb_spec s (lk_start l)); [|lia].
      destruct (IH e Hsort) as (hs' & used' & -> & ? & ? & Hin); [lia..|]. cbn. eexists _, _. split; [done|]. split; [done|].
      split; [cbn; split; [lia|by eapply sorted_holes_lo; [|done]; lia]|]. intros b. rewrite !in_holes_cons, Hin. cbn. unfold covers.
      specialize (Hafter b). intuition lia.
  - destruct (Z.leb_spec (lk_end l) s); cbn [andb].
    { eexists _, _. split; [done|]. split; [lia|]. split; [by cbn|]. intros b. rewrite in_holes_cons. cbn. specialize (Hafter b). intuition lia. }
    destruct (Z.leb_spec (lk_start l) s).
    + destruct (Z.ltb_spec (lk_end l) e).
      * eexists _, _. split; [done|]. split; [lia|]. split; [cbn; split; [lia|done]|]. intros b. rewrite !in_holes_cons. cbn.
        specialize (Hafter b). intuition lia.
      * destruct (IH e Hsort) as (hs' & used' & -> & ? & ? & Hin); [lia..|]. cbn. eexists _, _. split; [done|]. split; [done|].
        split; [by eapply sorted_holes_lo; [|done]; lia|]. intros b. rewrite in_holes_cons, Hin. cbn. unfold covers. intuition lia.
    + cbn [orb]. destruct (Z.leb_spec e (lk_end l)).
      * destruct (Z.ltb_spec s (lk_start l)); [|lia].
        destruct (IH e Hsort) as (hs' & used' & -> & ? & ? & Hin); [lia..|]. cbn. eexists _, _. split; [done|]. split; [done|].
        split; [cbn; split; [lia|by eapply sorted_holes_lo; [|done]; lia]|]. intros b. rewrite !in_holes_cons, Hin. cbn. unfold covers.
        specialize (Hafter b). intuition lia.
      * rewrite (proj2 (Z.ltb_lt used size)), (proj2 (Z.ltb_lt (lk_end l) e)), (proj2 (Z.ltb_lt (lk_start l) (lk_end l))) by lia. cbn.
        eexists _, _. split; [done|]. split; [lia|]. split; [cbn; split_and!; [lia..|done]|]. intros b. rewrite !in_holes_cons. cbn.
        specialize (Hafter b). intuition lia.
Qed.

Lemma punch_all_ok ls hs lo hi used size :
  Forall (λ l, lock_range l ∧ nonempty l) ls → sorted_holes lo hs hi → 0 ≤ lo → used + Z.of_nat (length ls) ≤ size →
  ∃ hs', punch_all ls hs used size = Some hs' ∧ sorted_holes lo hs' hi ∧
    ∀ b, in_holes b hs' ↔ in_holes b hs ∧ Forall (λ l, ¬ covers l b) ls.
Proof.
  intros Hls. revert hs used. induction Hls as [|l ls [Hr Hne] Hls IH]; intros hs used Hs Hlo Hused; cbn [punch_all].
  { exists hs. split_and!; [done..|]. intros b. rewrite Forall_nil. tauto. }
  cbn [length] in Hused. destruct (punch_ok l hs lo hi used size) as (hs1 & used1 & -> & ? & Hs1 & Hin1); [done..|lia|]. cbn.
  destruct (IH hs1 used1) as (hs2 & -> & Hs2 & Hin2); [done..|lia|]. exists hs2. split_and!; [done..|].
  intros b. rewrite Hin2, Hin1, Forall_cons. tauto.
Qed.

(** ** What the system holds

    The locks of the server on the file [i], from the record of its calls: the last
    successful [fcntl] on a byte counts, and closing any descriptor of the file releases
    all of them. *)
Definition is_unlock (type : lock_type) : bool := match type with F_UNLCK => true | _ => false end.
Fixpoint held (cs : list sys_call) (i b : Z) : bool :=
  match cs with
  | [] => false
  | Setlk j _ type start len None :: cs =>
      if (j =? i) && (start <=? b) && ((len =? 0) || (b <? start + len)) then negb (is_unlock type) else held cs i b
  | Close j _ :: cs => if j =? i then false else held cs i b
  | _ :: cs => held cs i b
  end.
Definition interval (start end_ b : Z) : Prop := start ≤ b ∧ (end_ = 0 ∨ b < end_).

(** What a call to the system for [f] may change besides the locks held. *)
Definition sys_step (f : Z) (s s' : fd_state) : Prop :=
  ∃ x fs n cs rs, st_fds s !! f = Some x ∧ (fs = true → fd_fs_locks x = true) ∧ n ≤ max_unix_offset s ∧
    s' = FdState (st_locks s) (<[f := set_fs_locks fs x]> (st_fds s)) (st_inodes s) (st_procs s) n cs rs.

Lemma set_fs_locks_same x : set_fs_locks (fd_fs_locks x) x = x.
Proof. by destruct x. Qed.

Lemma sys_step_refl f s x : st_fds s !! f = Some x → sys_step f s s.
Proof.
  intros Hx. exists x, (fd_fs_locks x), (max_unix_offset s), (st_calls s), (st_results s). split_and!; [done..|lia|].
  rewrite set_fs_locks_same, insert_id by done. by destruct s.
Qed.

Lemma sys_step_trans f s1 s2 s3 : sys_step f s1 s2 → sys_step f s2 s3 → sys_step f s1 s3.
Proof.
  intros (x & fs & n & cs & rs & Hx & Hfs & Hn & ->) (x' & fs' & n' & cs' & rs' & Hx' & Hfs' & Hn' & ->). cbn in *.
  rewrite lookup_insert_eq in Hx'. simplify_eq. exists x, fs', n', cs', rs'. split_and!; [done|auto|lia|].
  f_equal. rewrite insert_insert_eq. by destruct x.
Qed.

Lemma sys_step_calls f s x cs rs n : st_fds s !! f = Some x → n ≤ max_unix_offset s →
  sys_step f s (FdState (st_locks s) (st_fds s) (st_inodes s) (st_procs s) n cs rs).
Proof.
  intros Hx Hn. exists x, (fd_fs_locks x), n, cs, rs. split_and!; [done..|]. by rewrite set_fs_locks_same, insert_id.
Qed.

(** What [set_unix_lock] does: outside of the interval nothing changes, success gives the
    lock unless locking is turned off, and failure changes nothing. Bytes that the system
    does not support are not considered. *)
Definition lock_post (f i start end_ : Z) (type : lock_type) (s : fd_state) (w : world) (ok : bool) (s' : fd_state) (w' : world) : Prop :=
  sys_step f s s' ∧ w_mem w' = w_mem w ∧ (ok = true → w' = w) ∧
  (∀ j b, b ≤ max_unix_offset s' → j ≠ i ∨ ¬ interval start end_ b → held (st_calls s') j b = held (st_calls s) j b) ∧
  (ok = true → start ≠ end_ → (∃ x, st_fds s' !! f = Some x ∧ fd_fs_locks x = true) →
     ∀ b, interval start end_ b → b ≤ max_unix_offset s' → held (st_calls s') i b = negb (is_unlock type)) ∧
  (∀ b, held (st_calls s') i b = true → held (st_calls s) i b = true ∨ is_unlock type = false) ∧
  (∀ b, held (st_calls s) i b = true → held (st_calls s') i b = true ∨ is_unlock type = true) ∧
  (ok = false → ∀ j b, held (st_calls s') j b = held (st_calls s) j b).

Lemma lock_post_same f i start end_ type s w ok s' w' :
  sys_step f s s' → w_mem w' = w_mem w → (ok = true → w' = w) →
  (∀ j b, held (st_calls s') j b = held (st_calls s) j b) →
  (ok = true → start = end_ ∨ max_unix_offset s' < start ∨ ∀ x, st_fds s' !! f = Some x → fd_fs_locks x = false) →
  lock_post f i start end_ type s w ok s' w'.
Proof.
  intros Hs Hm Hw Hh Hok. split_and!; [done..| | | | |done]; intros; [by rewrite Hh| |left; by rewrite <-Hh|left; by rewrite Hh].
  destruct Hok as [|[|Hfs]]; [done..| |]; unfold interval in *; [lia|]. destruct H1 as (x & Hx & Hx'). rewrite (Hfs x Hx) in Hx'. done.
Qed.

Lemma lock_post_retry f i start end_ type type' s w ok s1 s' w' :
  sys_step f s s1 → (∀ j b, held (st_calls s1) j b = held (st_calls s) j b) → is_unlock type' = is_unlock type →
  lock_post f i start end_ type' s1 w ok s' w' → lock_post f i start end_ type s w ok s' w'.
Proof.
  intros Hs Hh Ht (Hs' & Hm & Hw & Hout & Hin & Hun & Hkeep & Hfail). rewrite Ht in *.
  split_and!; [by eapply sys_step_trans|done..| | | | |]; intros; [by rewrite <-Hh, Hout|by apply Hin| | |by rewrite <-Hh, Hfail].
  - rewrite <-Hh. by apply Hun.
  - apply Hkeep. by rewrite Hh.
Qed.

Lemma set_unix_lock_loop_ok n f i start end_ type s w x :
  st_fds s !! f = Some x → end_ = 0 ∨ start ≤ end_ →
  ((if is_wrlck type then 1 else 0) + (if (INT_MAX <? max_unix_offset s)%Z then 1 else 0) < n)%nat →
  wp (set_unix_lock_loop n f i start end_ type) s w (lock_post f i start end_ type s w).
Proof.
  revert type s. induction n as [|n IH]; intros type s Hx Hend Hn; [lia|]. cbn [set_unix_lock_loop]. wp_run.
  destruct (Z.eqb_spec start end_) as [|Hne]; wp_run; [apply lock_post_same; by eauto using sys_step_refl|].
  destruct (Z.ltb_spec (max_unix_offset s) start); wp_run; [apply lock_post_same; by eauto using sys_step_refl|].
  unfold read_fd. wp_run. rewrite Hx. cbn. unfold fcntl_setlk. wp_run. destruct (next_result s) as [r rs]. wp_run.
  set (len := if _ || _ then 0 else _). set (s1 := with_calls _ rs s).
  assert (sys_step f s s1) as Hs1 by by eapply sys_step_calls.
  destruct r as [e|].
  - assert (∀ j b, held (st_calls s1) j b = held (st_calls s) j b) as Hh by done.
    assert (Hnolock : ∀ s2, sys_step f s s2 → st_fds s2 = st_fds s → (∀ j b, held (st_calls s2) j b = held (st_calls s) j b) →
      wp (put_fd f (set_fs_locks false x) >> ret true) s2 w (lock_post f i start end_ type s w)).
    { intros s2 Hs2 Hf Hh2. unfold put_fd. wp_run. apply lock_post_same; [|done..|].
      - eapply sys_step_trans; [exact Hs2|]. exists x, false, (max_unix_offset s2), (st_calls s2), (st_results s2).
        rewrite Hf. split_and!; [done..|lia|]. by rewrite <-Hf.
      - intros _. right; right. cbn. intros x'. rewrite lookup_insert_eq. by intros [= <-]. }
    assert (Hfail : ∀ e s2, sys_step f s s2 → (∀ j b, held (st_calls s2) j b = held (st_calls s) j b) →
      wp (set_error e >> ret false) s2 w (lock_post f i start end_ type s w)).
    { intros e' s2 Hs2 Hh2. wp_run. by apply lock_post_same. }
    assert (Hshrink : ∀ e, wp (if INT_MAX <? max_unix_offset s then modify (with_max INT_MAX) >> set_unix_lock_loop n f i start end_ type
                                else file_set_error e >> ret false) s1 w (lock_post f i start end_ type s w)).
    { intros e'. destruct (Z.ltb_spec INT_MAX (max_unix_offset s)); [|by apply Hfail]. wp_run. eapply wp_mono.
      - apply IH; [done..|]. cbn. lia.
      - intros ok s2 w2. apply lock_post_retry; [|done..]. eapply sys_step_trans; [done|]. eapply sys_step_calls; [done|cbn; lia]. }
    destruct e; try (by apply Hfail); try (by apply Hnolock); try apply Hshrink.
    + unfold fcntl_getlk. wp_run. destruct (next_result s1) as [g rs']. wp_run.
      destruct g; [apply Hnolock|apply Hfail]; try done; (eapply sys_step_trans; [done|]); by eapply sys_step_calls.
    + destruct (is_wrlck type) eqn:Hty; [|by apply Hfail]. eapply wp_mono.
      * apply IH; [done..|]. cbn. lia.
      * intros ok s2 w2. apply lock_post_retry; [done..|]. by destruct type.
  - wp_run. split; [done|]. split; [done|]. split; [done|].
    assert (Hhit : ∀ j b, b ≤ max_unix_offset s →
      ((j =? i) && (start <=? b) && ((len =? 0) || (b <? start + len)) = true ↔ j = i ∧ interval start end_ b)).
    { intros j b Hb. rewrite !andb_true_iff, orb_true_iff, Z.eqb_eq, Z.leb_le, Z.eqb_eq, Z.ltb_lt. unfold interval, len.
      destruct (Z.eqb_spec end_ 0); cbn; [lia|]. destruct (Z.ltb_spec (max_unix_offset s) end_); lia. }
    change (max_unix_offset s1) with (max_unix_offset s).
    change (st_calls s1) with (Setlk i (fd_unix_fd x) type start len None :: st_calls s). cbn [held].
    split_and!.
    + intros j b Hb Hout. specialize (Hhit j b Hb). rewrite (Z.eqb_sym i j).
      destruct ((j =? i) && _ && _); [|done]. destruct (proj1 Hhit eq_refl). naive_solver.
    + intros _ _ _ b Hb Hmax. specialize (Hhit i b Hmax). by rewrite (proj2 Hhit (conj eq_refl Hb)).
    + intros b. destruct ((i =? i) && _ && _); [|by left]. right. by apply negb_true_iff.
    + intros b. destruct ((i =? i) && _ && _); [|by left]. destruct (is_unlock type); auto.
    + done.
Qed.

Lemma set_unix_lock_ok f i start end_ type s w x :
  st_fds s !! f = Some x → end_ = 0 ∨ start ≤ end_ →
  wp (set_unix_lock f i start end_ type) s w (lock_post f i start end_ type s w).
Proof.
  intros Hx Hend. unfold set_unix_lock. rewrite wp_bind. unfold read_fd. rewrite wp_bind, wp_get, Hx. apply wp_ret.
  destruct (fd_fs_locks x) eqn:Hfs; cbn [negb].
  - eapply set_unix_lock_loop_ok; [done..|]. destruct (is_wrlck type), (INT_MAX <? max_unix_offset s)%Z; lia.
  - apply wp_ret. apply lock_post_same; [by eapply sys_step_refl|done..|]. intros _. right; right. by intros ? [= <-]%(eq_trans (eq_sym Hx)).
Qed.

(** ** Removing Unix locks *)

Definition are_locks (s : fd_state) (ks : list Z) (ls : list file_lock) : Prop := Forall2 (λ k l, st_locks s !! k = Some l) ks ls.
Definition covered (ls : list file_lock) (b : Z) : Prop := Exists (λ l, nonempty l ∧ covers l b) ls.

Lemma wp_read_locks s w ks ls (Q : list file_lock → fd_state → world → Prop) :
  are_locks s ks ls → Q ls s w → wp (read_locks ks) s w Q.
Proof.
  intros H. revert Q. induction H as [|k l ks ls Hk H IH]; intros Q HQ; cbn [read_locks]; [by apply wp_ret|].
  rewrite wp_bind. unfold read_lock. rewrite wp_bind, wp_get, Hk. apply wp_ret. rewrite wp_bind. apply IH. by apply wp_ret.
Qed.

Lemma touches_covers l start end_ b : nonempty l → covers l b → interval start end_ b → touches start end_ l = true.
Proof.
  unfold nonempty, covers, interval, touches, lock_overlaps, truth. intros Hne Hc Hi.
  rewrite andb_true_iff, negb_true_iff, Z.eqb_neq. split; [done|].
  destruct (Z.eqb_spec (lk_end l) 0), (Z.eqb_spec end_ 0), (Z.leb_spec (lk_end l) start), (Z.leb_spec end_ (lk_start l)); cbn; lia.
Qed.

Lemma touching_locks ls start end_ : Forall lock_range ls →
  Forall (λ l, lock_range l ∧ nonempty l) (filter (λ l, touches start end_ l = true) ls).
Proof.
  intros H. apply Forall_forall. intros l Hl. apply list_elem_of_filter in Hl as [Ht Hl].
  split; [by eapply Forall_forall|]. unfold touches in Ht. apply andb_true_iff in Ht as [Ht _].
  by apply negb_true_iff, Z.eqb_neq in Ht.
Qed.

Lemma touching_covered ls start end_ b : interval start end_ b →
  Forall (λ l, ¬ covers l b) (filter (λ l, touches start end_ l = true) ls) ↔ ¬ covered ls b.
Proof.
  intros Hi. unfold covered. rewrite <-Forall_Exists_neg, !Forall_forall. split.
  - intros H l Hl [Hne Hc]. apply (H l); [|done]. apply list_elem_of_filter. split; [by eapply touches_covers|done].
  - intros H l Hl Hc. apply list_elem_of_filter in Hl as [Ht Hl]. apply (H l Hl). split; [|done].
    unfold touches in Ht. apply andb_true_iff in Ht as [Ht _]. by apply negb_true_iff, Z.eqb_neq in Ht.
Qed.

(** Holes of the area, for any outcome of the allocation: the result of the loops. *)
Lemma punched_area ls start end_ : Forall lock_range ls → 0 ≤ start → start < end_ →
  ∃ hs, punch_all (filter (λ l, touches start end_ l = true) ls) [(start, end_)] 1
          (Z.of_nat (length (filter (λ l, touches start end_ l = true) ls)) + 1) = Some hs ∧
    sorted_holes start hs end_ ∧ ∀ b, in_holes b hs ↔ start ≤ b < end_ ∧ ¬ covered ls b.
Proof.
  intros Hr ??. destruct (punch_all_ok (filter (λ l, touches start end_ l = true) ls) [(start, end_)] start end_ 1
    (Z.of_nat (length (filter (λ l, touches start end_ l = true) ls)) + 1)) as (hs & -> & Hs & Hin);
    [by apply touching_locks|cbn; lia|lia..|].
  exists hs. split_and!; [done..|]. intros b. rewrite Hin, in_holes_cons. unfold in_holes. rewrite Exists_nil. cbn.
  split; intros [Hb Hc].
  - split; [lia|]. rewrite touching_covered in Hc; [done|unfold interval; lia].
  - split; [left; lia|]. rewrite touching_covered; [done|unfold interval; lia].
Qed.

(** Unlocking never takes a lock; bytes outside of [P] keep theirs. *)
Definition unlock_post (f i : Z) (P : Z → Prop) (s s' : fd_state) : Prop :=
  sys_step f s s' ∧
  (∀ j b, b ≤ max_unix_offset s' → j ≠ i ∨ ¬ P b → held (st_calls s') j b = held (st_calls s) j b) ∧
  (∀ b, held (st_calls s') i b = true → held (st_calls s) i b = true).

Lemma unlock_post_refl f i P s x : st_fds s !! f = Some x → unlock_post f i P s s.
Proof. intros Hx. split_and!; [by eapply sys_step_refl|done..]. Qed.

Lemma sys_step_max f s s' : sys_step f s s' → max_unix_offset s' ≤ max_unix_offset s.
Proof. intros (x & fs & n & cs & rs & _ & _ & Hn & ->). done. Qed.

Lemma sys_step_fd f s s' x : sys_step f s s' → st_fds s !! f = Some x →
  ∃ fs, st_fds s' !! f = Some (set_fs_locks fs x) ∧ (fs = true → fd_fs_locks x = true).
Proof. intros (x' & fs & n & cs & rs & Hx & Hfs & _ & ->) Hx'. simplify_eq. exists fs. cbn. by rewrite lookup_insert_eq. Qed.

Lemma unlock_holes_ok f i hs lo hi s w x (P : Z → Prop) : st_fds s !! f = Some x → 0 ≤ lo → sorted_holes lo hs hi → (∀ b, in_holes b hs → P b) →
  wp (unlock_holes f i hs) s w (λ _ s' _, unlock_post f i P s s').
Proof.
  revert lo s w x. induction hs as [|[a e] hs IH]; intros lo s w x Hx Hlo Hs HP; cbn [unlock_holes].
  { apply wp_ret. by eapply unlock_post_refl. }
  cbn in Hs. destruct Hs as [? Hs]. rewrite wp_bind. eapply wp_mono; [eapply set_unix_lock_ok; [done|lia]|].
  intros ok s1 w1 (Hs1 & _ & _ & Hout & _ & Hun & _ & _). destruct (sys_step_fd _ _ _ _ Hs1 Hx) as (fs & Hx1 & _).
  eapply wp_mono; [eapply (IH e); [done|lia|done|]|].
  - intros b Hb. apply HP, in_holes_cons. auto.
  - intros _ s2 w2 (Hs2 & Hout2 & Hun2). pose proof (sys_step_max _ _ _ Hs2). split_and!.
    + by eapply sys_step_trans.
    + intros j b Hb Hj. rewrite Hout2, Hout; [done|lia| |done|done].
      destruct Hj as [|Hj]; [by left|right]. intros Hi. apply Hj, HP, in_holes_cons. left. unfold interval in Hi. cbn. lia.
    + intros b Hb. apply Hun2, Hun in Hb as [|]; [done|]. done.
Qed.

(** On every path the bytes of remaining locks, and those outside of the area, stay. *)
Lemma remove_unix_locks_safe f start end_ s w x i y ls :
  st_fds s !! f = Some x → fd_inode x = Some i → st_inodes s !! i = Some y → are_locks s (i_locks y) ls → Forall lock_range ls →
  0 ≤ start → end_ = 0 ∨ start ≤ end_ → 
  wp (remove_unix_locks f start end_) s w (λ _ s' _, unlock_post f i (λ b, interval start end_ b ∧ ¬ covered ls b) s s').
Proof.
  intros Hx Hi Hy Hls Hr Hstart Hend. unfold remove_unix_locks, read_fd. rewrite wp_bind, wp_bind, wp_get, Hx. apply wp_ret. rewrite Hi.
  assert (Hrefl : ∀ w', wp (ret tt) s w' (λ _ s' _, unlock_post f i (λ b, interval start end_ b ∧ ¬ covered ls b) s s'))
    by (intros; by apply wp_ret; eapply unlock_post_refl).
  destruct (fd_fs_locks x); cbn [negb]; [|apply Hrefl]. rewrite wp_bind, wp_get.
  destruct ((start =? end_) || _) eqn:E; [apply Hrefl|]. apply orb_false_iff in E as [Hne%Z.eqb_neq Hmax%Z.ltb_ge].
  set (e := if (end_ =? 0) || (max_unix_offset s <? end_) then max_unix_offset s + 1 else end_).
  assert (He : start < e ∧ ∀ b, b ≤ max_unix_offset s → start ≤ b < e ↔ interval start end_ b).
  { unfold e, interval. destruct (Z.eqb_spec end_ 0); cbn; [split; [lia|]; intros; lia|].
    destruct (Z.ltb_spec (max_unix_offset s) end_); (split; [lia|]); intros; lia. }
  destruct He as [Hlt He]. cbn zeta. fold e. unfold read_inode. rewrite wp_bind, wp_bind, wp_get, Hy. apply wp_ret.
  rewrite wp_bind. apply (wp_read_locks _ _ _ ls); [done|]. cbn zeta.
  destruct (punched_area ls start e Hr Hstart Hlt) as (hs & Hhs & Hsort & Hin).
  assert (Hweak : ∀ s', unlock_post f i (λ b, start ≤ b < e ∧ ¬ covered ls b) s s' →
    unlock_post f i (λ b, interval start end_ b ∧ ¬ covered ls b) s s').
  { intros s' (Hs & Hout & Hun). split_and!; [done| |done]. intros j b Hb Hj. apply Hout; [done|].
    destruct Hj as [|Hj]; [by left|right]. pose proof (sys_step_max _ _ _ Hs). rewrite He by lia. done. }
  case_bool_decide as Hnone.
  - rewrite wp_bind. eapply wp_mono; [eapply set_unix_lock_ok; [done|lia]|].
    intros ok s1 w1 (Hs1 & _ & _ & Hout & _ & Hun & _ & _). apply wp_ret. apply Hweak. split_and!; [done| |].
    + intros j b Hb Hj. apply Hout; [done|]. destruct Hj as [|Hj]; [by left|right]. intros [? Hi']. apply Hj.
      split; [lia|]. pose proof (touching_covered ls start e b) as Ht. rewrite Hnone, Forall_nil in Ht.
      apply Ht; [unfold interval; lia|done].
    + intros b Hb. by destruct (Hun b Hb).
  - rewrite wp_bind. apply wp_malloc. intros ok w' _ _. destruct ok; cbn [negb]; [|apply Hrefl].
    rewrite Hhs. rewrite wp_bind. apply wp_ret. eapply wp_mono.
    + eapply (unlock_holes_ok f i hs start e _ _ _ (λ b, start ≤ b < e ∧ ¬ covered ls b)); [done..|]. intros b Hb. by apply Hin.
    + intros ? s' ? Hs'. by apply Hweak.
Qed.

(** When the system grants every request, exactly the bytes of [P] are unlocked. *)
Definition unlocks (i : Z) (P : Z → Prop) (s s' : fd_state) : Prop :=
  ∃ cs, s' = with_calls (cs ++ st_calls s) [] s ∧
  ∀ j b, b ≤ max_unix_offset s →
    (j = i ∧ P b → held (st_calls s') j b = false) ∧ (j ≠ i ∨ ¬ P b → held (st_calls s') j b = held (st_calls s) j b).

Lemma set_unix_lock_granted f i start end_ s w x :
  st_fds s !! f = Some x → fd_fs_locks x = true → st_results s = [] → 0 ≤ start < end_ → start ≤ max_unix_offset s →
  wp (set_unix_lock f i start end_ F_UNLCK) s w (λ _ s' w', w' = w ∧ unlocks i (λ b, start ≤ b < end_) s s').
Proof.
  intros Hx Hfs Hr ??. unfold set_unix_lock, read_fd. rewrite !wp_bind, wp_get, Hx. apply wp_ret. rewrite Hfs. cbn [negb].
  cbn [set_unix_lock_loop]. rewrite wp_bind, wp_get. rewrite (proj2 (Z.eqb_neq start end_)), (proj2 (Z.ltb_ge _ start)) by lia.
  unfold read_fd. rewrite !wp_bind, wp_get, Hx. apply wp_ret. unfold fcntl_setlk, next_result. rewrite !wp_bind, wp_get, Hr.
  rewrite !wp_bind, wp_put. apply wp_ret, wp_ret. split; [done|].
  set (len := if _ || _ then 0 else _). exists [Setlk i (fd_unix_fd x) F_UNLCK start len None]. split; [done|].
  intros j b Hb. cbn [st_calls with_calls app held].
  assert ((i =? j) && (start <=? b) && ((len =? 0) || (b <? start + len)) = true ↔ j = i ∧ start ≤ b < end_) as Hhit.
  { rewrite !andb_true_iff, orb_true_iff, Z.eqb_eq, Z.leb_le, Z.eqb_eq, Z.ltb_lt. unfold len.
    destruct (Z.eqb_spec end_ 0); cbn; [lia|]. destruct (Z.ltb_spec (max_unix_offset s) end_); lia. }
  destruct ((i =? j) && _ && _); split; intros Hj; try done.
  - destruct (proj1 Hhit eq_refl). naive_solver.
  - by apply Hhit in Hj.
Qed.

Lemma unlocks_trans i P Q s1 s2 s3 : unlocks i P s1 s2 → unlocks i Q s2 s3 → unlocks i (λ b, P b ∨ Q b) s1 s3.
Proof.
  intros (cs & -> & H1) (cs' & -> & H2). exists (cs' ++ cs). cbn in *. split; [by rewrite app_assoc|].
  intros j b Hb. destruct (H1 j b Hb) as [H1a H1b], (H2 j b Hb) as [H2a H2b]. split.
  - intros [-> HPQ]. destruct (decide (held (cs' ++ cs ++ st_calls s1) i b = false)) as [|Hn]; [done|].
    destruct HPQ; [|by apply H2a]. destruct (decide (held (cs' ++ cs ++ st_calls s1) i b = held (cs ++ st_calls s1) i b)) as [E|E].
    + rewrite E. by apply H1a.
    + exfalso. apply E, H2b. right. intros HQ. by apply Hn, H2a.
  - intros Hj. rewrite H2b, H1b; [done|naive_solver..].
Qed.

Lemma unlocks_ext i P Q s s' : (∀ b, b ≤ max_unix_offset s → P b ↔ Q b) → unlocks i P s s' → unlocks i Q s s'.
Proof.
  intros HPQ (cs & -> & H). exists cs. split; [done|]. intros j b Hb. rewrite <-(HPQ b Hb). by apply H.
Qed.

Lemma unlock_holes_granted f i hs lo hi s w x :
  st_fds s !! f = Some x → fd_fs_locks x = true → st_results s = [] → 0 ≤ lo → sorted_holes lo hs hi → hi ≤ max_unix_offset s + 1 →
  wp (unlock_holes f i hs) s w (λ _ s' w', w' = w ∧ unlocks i (λ b, in_holes b hs) s s').
Proof.
  revert lo s. induction hs as [|[a e] hs IH]; intros lo s Hx Hfs Hr Hlo Hs Hhi; cbn [unlock_holes].
  { apply wp_ret. split; [done|]. exists []. split; [destruct s; cbn in Hr; by subst|]. intros j b _. split; [|done].
    intros [_ H]. by apply Exists_nil in H. }
  cbn in Hs. destruct Hs as [? Hs]. pose proof (sorted_holes_le _ _ _ Hs). rewrite wp_bind.
  eapply wp_mono; [eapply set_unix_lock_granted; [done..|lia|lia]|].
  intros ok s1 w1 (-> & H1). destruct (H1) as (cs & -> & _). eapply wp_mono; [eapply (IH e); try done; cbn; lia|].
  intros [] s2 w2 (-> & H2). split; [done|]. eapply unlocks_ext; [|by eapply unlocks_trans].
  intros b _. by rewrite in_holes_cons.
Qed.

Lemma remove_unix_locks_granted f start end_ s w x i y ls :
  st_fds s !! f = Some x → fd_inode x = Some i → fd_fs_locks x = true → st_inodes s !! i = Some y →
  are_locks s (i_locks y) ls → Forall lock_range ls → 0 ≤ start → end_ = 0 ∨ start ≤ end_ → st_results s = [] → w_mem w = [] →
  wp (remove_unix_locks f start end_) s w (λ _ s' w', w' = w ∧ unlocks i (λ b, start ≠ end_ ∧ interval start end_ b ∧ ¬ covered ls b) s s').
Proof.
  intros Hx Hi Hfs Hy Hls Hr Hstart Hend Hres Hw. unfold remove_unix_locks, read_fd. rewrite wp_bind, wp_bind, wp_get, Hx. apply wp_ret.
  rewrite Hi, Hfs. cbn [negb]. rewrite wp_bind, wp_get.
  destruct ((start =? end_) || _) eqn:E.
  { apply wp_ret. split; [done|]. exists []. split; [destruct s; cbn in Hres; by subst|]. intros j b Hb. split; [|done].
    unfold interval. apply orb_true_iff in E as [E%Z.eqb_eq|E%Z.ltb_lt]; intros (-> & ? & ? & ?); [done|lia]. }
  apply orb_false_iff in E as [Hne%Z.eqb_neq Hmax%Z.ltb_ge].
  set (e := if (end_ =? 0) || (max_unix_offset s <? end_) then max_unix_offset s + 1 else end_).
  assert (He : start < e ≤ max_unix_offset s + 1 ∧ ∀ b, b ≤ max_unix_offset s → start ≤ b < e ↔ interval start end_ b).
  { unfold e, interval. destruct (Z.eqb_spec end_ 0); cbn; [split; [lia|]; intros; lia|].
    destruct (Z.ltb_spec (max_unix_offset s) end_); (split; [lia|]); intros; lia. }
  destruct He as [[Hlt Hle] He]. cbn zeta. fold e. unfold read_inode. rewrite wp_bind, wp_bind, wp_get, Hy. apply wp_ret.
  rewrite wp_bind. apply (wp_read_locks _ _ _ ls); [done|]. cbn zeta.
  destruct (punched_area ls start e Hr Hstart Hlt) as (hs & Hhs & Hsort & Hin).
  case_bool_decide as Hnone.
  - rewrite wp_bind. eapply wp_mono; [eapply set_unix_lock_granted; [done..|lia|lia]|].
    intros ok s1 w1 [-> Hs1]. apply wp_ret. split; [done|]. eapply unlocks_ext; [|done]. intros b Hb. rewrite (He b Hb).
    split; [|tauto]. intros Hb'. split_and!; [done..|]. rewrite <-(touching_covered ls start e b), Hnone; [constructor|].
    apply (He b Hb) in Hb'. unfold interval. lia.
  - rewrite wp_bind. apply wp_malloc. intros ok w' _ Heq. destruct (Heq Hw) as [-> ->]. cbn [negb].
    rewrite Hhs. rewrite wp_bind. apply wp_ret. eapply wp_mono.
    + by eapply (unlock_holes_granted f i hs start e).
    + intros [] s' w' [-> Hs']. split; [done|]. eapply unlocks_ext; [|done]. intros b Hb. rewrite Hin, (He b Hb). tauto.
Qed.

(** ** The invariant

    The three lists of locks agree, locks do not conflict, and what a lock covers is held
    from the system unless locking does not work there. *)

Definition compatible (s : fd_state) (k1 k2 : Z) : Prop :=
  ∀ l1 l2, st_locks s !! k1 = Some l1 → st_locks s !! k2 = Some l2 →
    conflicts (lk_fd l2) (lk_shared l2) (lk_start l2) (lk_end l2) l1 = false.
(** The lock [k] of the file [i]. *)
Definition listed (s : fd_state) (i k : Z) : Prop := ∃ y, st_inodes s !! i = Some y ∧ k ∈ i_locks y.
Definition owned (s : fd_state) (i k : Z) (l : file_lock) (x : fd) (p : Z) : Prop :=
  st_locks s !! k = Some l ∧ lk_process l = Some p ∧ st_fds s !! lk_fd l = Some x ∧ fd_inode x = Some i.
Record wf (s : fd_state) : Prop := {
  wf_open f x i : st_fds s !! f = Some x → fd_inode x = Some i → ∃ y, st_inodes s !! i = Some y ∧ f ∈ i_open y;
  wf_fd f x k : st_fds s !! f = Some x → k ∈ fd_locks x →
    ∃ i l p, listed s i k ∧ owned s i k l x p ∧ lk_fd l = f;
  wf_process p k : k ∈ process_locks s p → ∃ i l x, listed s i k ∧ owned s i k l x p;
  wf_inode i y : st_inodes s !! i = Some y →
    NoDup (i_open y) ∧ NoDup (i_locks y) ∧ StronglySorted (compatible s) (i_locks y) ∧
    ∀ f, f ∈ i_open y → ∃ x, st_fds s !! f = Some x ∧ fd_inode x = Some i;
  wf_listed i k : listed s i k →
    ∃ l x p, owned s i k l x p ∧ lock_range l ∧ k ∈ fd_locks x ∧ k ∈ process_locks s p
}.
Definition protected (s : fd_state) : Prop :=
  ∀ i k l x p b, listed s i k → owned s i k l x p → fd_fs_locks x = true → nonempty l → covers l b → b ≤ max_unix_offset s →
    held (st_calls s) i b = true.

(** The lists and locks as they were, files with fewer [fs_locks]. *)
Lemma sys_step_fds f s s' g x : sys_step f s s' → st_fds s' !! g = Some x →
  ∃ x', st_fds s !! g = Some x' ∧ x = set_fs_locks (fd_fs_locks x) x' ∧ (fd_fs_locks x = true → fd_fs_locks x' = true).
Proof.
  intros (x0 & fs & n & cs & rs & Hx & Hfs & _ & ->) H. cbn in H. apply lookup_insert_Some in H as [[-> <-]|[Hne H]].
  - by exists x0.
  - exists x. by rewrite set_fs_locks_same.
Qed.

Lemma sys_step_fds' f s s' g x : sys_step f s s' → st_fds s !! g = Some x → ∃ fs, st_fds s' !! g = Some (set_fs_locks fs x).
Proof.
  intros (x0 & fs & n & cs & rs & Hx & Hfs & _ & ->) H. cbn. destruct (decide (f = g)) as [->|].
  - rewrite lookup_insert_eq. simplify_eq. by eexists.
  - rewrite lookup_insert_ne by done. exists (fd_fs_locks x). by rewrite set_fs_locks_same.
Qed.

Lemma sys_step_lists f s s' : sys_step f s s' → st_locks s' = st_locks s ∧ st_inodes s' = st_inodes s ∧ st_procs s' = st_procs s.
Proof. by intros (x & fs & n & cs & rs & _ & _ & _ & ->). Qed.

Lemma sys_step_owned f s s' i k l x p : sys_step f s s' → owned s' i k l x p →
  ∃ x', owned s i k l x' p ∧ x = set_fs_locks (fd_fs_locks x) x' ∧ (fd_fs_locks x = true → fd_fs_locks x' = true).
Proof.
  intros Hs (Hl & Hp & Hx & Hi). destruct (sys_step_lists _ _ _ Hs) as (El & _ & _).
  destruct (sys_step_fds _ _ _ _ _ Hs Hx) as (x' & Hx' & E & Hfs). exists x'. split; [|done]. split_and!; [by rewrite <-El|done..|].
  by rewrite E in Hi.
Qed.

Lemma sys_step_owned' f s s' i k l x p : sys_step f s s' → owned s i k l x p → ∃ fs, owned s' i k l (set_fs_locks fs x) p.
Proof.
  intros Hs (Hl & Hp & Hx & Hi). destruct (sys_step_lists _ _ _ Hs) as (El & _ & _).
  destruct (sys_step_fds' _ _ _ _ _ Hs Hx) as (fs & Hx'). exists fs. split_and!; [by rewrite El|done..].
Qed.

Lemma sys_step_wf f s s' : sys_step f s s' → wf s → wf s'.
Proof.
  intros Hs [Hopen Hfd Hproc Hino Hlist]. destruct (sys_step_lists _ _ _ Hs) as (El & Ei & Ep).
  assert (Hl : ∀ i k, listed s' i k ↔ listed s i k) by (intros; unfold listed; by rewrite Ei).
  split.
  - intros g x i Hx Hi. destruct (sys_step_fds _ _ _ _ _ Hs Hx) as (x' & Hx' & E & _). rewrite Ei. apply (Hopen g x'); [done|]. by rewrite E in Hi.
  - intros g x k Hx Hk. destruct (sys_step_fds _ _ _ _ _ Hs Hx) as (x' & Hx' & E & _). rewrite E in Hk.
    destruct (Hfd g x' k Hx' Hk) as (i & l & p & Hli & How & Eg). exists i, l, p. rewrite Hl. split_and!; [done| |done].
    destruct How as (? & ? & ? & ?). subst g. split_and!; [by rewrite El|done..|by rewrite E].
  - intros p k Hk. unfold process_locks in Hk. rewrite Ep in Hk. destruct (Hproc p k Hk) as (i & l & x & Hli & How).
    destruct (sys_step_owned' _ _ _ _ _ _ _ _ Hs How) as [fs Hfs]. exists i, l. eexists. by rewrite Hl.
  - intros i y Hy. rewrite Ei in Hy. destruct (Hino i y Hy) as (? & ? & Hc & Ho). split_and!; [done..| |].
    + eapply sorted_weaken; [|exact Hc]. intros ? ? _ _. unfold compatible. by rewrite El.
    + intros g Hg. destruct (Ho g Hg) as (x & Hx & Hi). destruct (sys_step_fds' _ _ _ _ _ Hs Hx) as [fs Hfs]. by eexists.
  - intros i k Hk%Hl. destruct (Hlist i k Hk) as (l & x & p & How & ? & ? & ?).
    destruct (sys_step_owned' _ _ _ _ _ _ _ _ Hs How) as [fs Hfs]. exists l. eexists _, p. split_and!; [done..|].
    unfold process_locks. by rewrite Ep.
Qed.

Definition good (s : fd_state) : Prop := wf s ∧ protected s.

Lemma wf_are_locks s i y : wf s → st_inodes s !! i = Some y →
  ∃ ls, are_locks s (i_locks y) ls ∧ Forall lock_range ls ∧
    ∀ b, covered ls b ↔ ∃ k l, k ∈ i_locks y ∧ st_locks s !! k = Some l ∧ nonempty l ∧ covers l b.
Proof.
  intros Hwf Hy. assert (H : ∀ k, k ∈ i_locks y → ∃ l, st_locks s !! k = Some l ∧ lock_range l).
  { intros k Hk. destruct (wf_listed s Hwf i k) as (l & x & p & (Hl & _) & Hr & _); [by exists y|]. eauto. }
  clear Hy. induction (i_locks y) as [|k ks IH].
  { exists []. split; [constructor|]. split; [constructor|]. intros b. unfold covered. rewrite Exists_nil. split; [done|].
    by intros (? & ? & ?%not_elem_of_nil & _). }
  destruct IH as (ls & Hls & Hr & Hc); [intros k' Hk'; apply H; by right|].
  destruct (H k) as (l & Hl & Hrl); [left|]. exists (l :: ls). split; [by constructor|]. split; [by constructor|].
  intros b. unfold covered in *. rewrite Exists_cons, Hc. split.
  - intros [[? ?]|(k' & l' & ? & ?)]; [exists k, l; split; [left|done]|exists k', l'; split; [by right|done]].
  - intros (k' & l' & [->|Hk']%elem_of_cons & Hl' & ?); [left; by simplify_eq|right; by exists k', l'].
Qed.

(** The lists without the lock [k]. *)
Definition without (k : Z) (x x' : fd) : Prop :=
  x' = set_fs_locks (fd_fs_locks x') (set_fd_locks (remove_id k (fd_locks x)) x) ∧ (fd_fs_locks x' = true → fd_fs_locks x = true).
Record unlisted (k : Z) (s s' : fd_state) : Prop := {
  un_locks k' : k' ≠ k → st_locks s' !! k' = st_locks s !! k';
  un_fds f : option_Forall2 (without k) (st_fds s !! f) (st_fds s' !! f);
  un_inodes i : option_Forall2 (λ y y', i_open y' = i_open y ∧ i_locks y' = remove_id k (i_locks y)) (st_inodes s !! i) (st_inodes s' !! i);
  un_procs p : process_locks s' p = remove_id k (process_locks s p);
  un_max : max_unix_offset s' ≤ max_unix_offset s
}.

Lemma elem_of_remove_id k k' l : k' ∈ remove_id k l ↔ k' ≠ k ∧ k' ∈ l.
Proof. unfold remove_id. by rewrite list_elem_of_filter. Qed.

Lemma remove_id_absent k l : k ∉ l → remove_id k l = l.
Proof. intros H. apply filter_all. intros j Hj ->. done. Qed.

Lemma remove_id_idem k l : remove_id k (remove_id k l) = remove_id k l.
Proof. apply remove_id_absent. rewrite elem_of_remove_id. tauto. Qed.

Lemma unlisted_fd k s s' f x : unlisted k s s' → st_fds s !! f = Some x → ∃ x', st_fds s' !! f = Some x' ∧ without k x x'.
Proof. intros H Hx. pose proof (un_fds _ _ _ H f) as Hf. rewrite Hx in Hf. inversion Hf. eauto. Qed.

Lemma unlisted_fd' k s s' f x' : unlisted k s s' → st_fds s' !! f = Some x' → ∃ x, st_fds s !! f = Some x ∧ without k x x'.
Proof. intros H Hx. pose proof (un_fds _ _ _ H f) as Hf. rewrite Hx in Hf. inversion Hf. eauto. Qed.

Lemma without_inode k x x' : without k x x' → fd_inode x' = fd_inode x ∧ fd_locks x' = remove_id k (fd_locks x).
Proof. intros [-> _]. done. Qed.

Lemma unlisted_inode k s s' i y : unlisted k s s' → st_inodes s !! i = Some y →
  ∃ y', st_inodes s' !! i = Some y' ∧ i_open y' = i_open y ∧ i_locks y' = remove_id k (i_locks y).
Proof. intros H Hx. pose proof (un_inodes _ _ _ H i) as Hf. rewrite Hx in Hf. inversion Hf. eauto. Qed.

Lemma unlisted_inode' k s s' i y' : unlisted k s s' → st_inodes s' !! i = Some y' →
  ∃ y, st_inodes s !! i = Some y ∧ i_open y' = i_open y ∧ i_locks y' = remove_id k (i_locks y).
Proof. intros H Hx. pose proof (un_inodes _ _ _ H i) as Hf. rewrite Hx in Hf. inversion Hf. eauto. Qed.

Lemma unlisted_listed k s s' i k' : unlisted k s s' → listed s' i k' ↔ k' ≠ k ∧ listed s i k'.
Proof.
  intros H. split.
  - intros (y' & Hy' & Hk'). destruct (unlisted_inode' _ _ _ _ _ H Hy') as (y & Hy & _ & E). rewrite E, elem_of_remove_id in Hk'.
    split; [tauto|]. exists y. tauto.
  - intros [Hne (y & Hy & Hk')]. destruct (unlisted_inode _ _ _ _ _ H Hy) as (y' & Hy' & _ & E). exists y'.
    by rewrite E, elem_of_remove_id.
Qed.

Lemma unlisted_owned k s s' i k' l x p : unlisted k s s' → k' ≠ k → owned s i k' l x p → ∃ x', owned s' i k' l x' p ∧ without k x x'.
Proof.
  intros H Hne (Hl & Hp & Hx & Hi). destruct (unlisted_fd _ _ _ _ _ H Hx) as (x' & Hx' & Hw). exists x'. split; [|done].
  destruct (without_inode _ _ _ Hw) as [E _]. split_and!; [by rewrite (un_locks _ _ _ H)|done..|]. by rewrite E.
Qed.

Lemma unlisted_owned' k s s' i k' l x' p : unlisted k s s' → k' ≠ k → owned s' i k' l x' p → ∃ x, owned s i k' l x p ∧ without k x x'.
Proof.
  intros H Hne (Hl & Hp & Hx & Hi). destruct (unlisted_fd' _ _ _ _ _ H Hx) as (x & Hx' & Hw). exists x. split; [|done].
  destruct (without_inode _ _ _ Hw) as [E _]. split_and!; [by rewrite <-(un_locks _ _ _ H)|done..|]. by rewrite <-E.
Qed.

Lemma unlisted_wf k s s' : unlisted k s s' → wf s → wf s'.
Proof.
  intros H [Hopen Hfd Hproc Hino Hlist]. split.
  - intros f x' i Hx' Hi. destruct (unlisted_fd' _ _ _ _ _ H Hx') as (x & Hx & [E _]%without_inode). rewrite E in Hi.
    destruct (Hopen f x i Hx Hi) as (y & Hy & Hf). destruct (unlisted_inode _ _ _ _ _ H Hy) as (y' & Hy' & Eo & _).
    exists y'. by rewrite Eo.
  - intros f x' k' Hx' Hk'. destruct (unlisted_fd' _ _ _ _ _ H Hx') as (x & Hx & Hw). destruct (without_inode _ _ _ Hw) as [_ E].
    rewrite E, elem_of_remove_id in Hk'. destruct Hk' as [Hne Hk']. destruct (Hfd f x k' Hx Hk') as (i & l & p & Hli & How & Ef).
    destruct (unlisted_owned _ _ _ _ _ _ _ _ H Hne How) as (x2 & How2 & _). exists i, l, p. rewrite (unlisted_listed k) by done.
    assert (x2 = x') as -> by (destruct How2 as (_ & _ & Hx2 & _); congruence). done.
  - intros p k' Hk'. rewrite (un_procs _ _ _ H), elem_of_remove_id in Hk'. destruct Hk' as [Hne Hk'].
    destruct (Hproc p k' Hk') as (i & l & x & Hli & How). destruct (unlisted_owned _ _ _ _ _ _ _ _ H Hne How) as (x' & How' & _).
    exists i, l, x'. by rewrite (unlisted_listed k).
  - intros i y' Hy'. destruct (unlisted_inode' _ _ _ _ _ H Hy') as (y & Hy & Eo & El). rewrite Eo, El.
    destruct (Hino i y Hy) as (? & Hnd & Hs & Ho). split; [done|]. split; [by apply NoDup_filter|]. split.
    + eapply sorted_weaken; [|by apply sorted_filter]. intros k1 k2 [? _]%elem_of_remove_id [? _]%elem_of_remove_id.
      unfold compatible. by rewrite !(un_locks _ _ _ H).
    + intros f Hf. destruct (Ho f Hf) as (x & Hx & Hi). destruct (unlisted_fd _ _ _ _ _ H Hx) as (x' & Hx' & [E _]%without_inode).
      exists x'. by rewrite E.
  - intros i k' [Hne Hk']%(unlisted_listed _ _ _ _ _ H). destruct (Hlist i k' Hk') as (l & x & p & How & Hr & Hf & Hp).
    destruct (unlisted_owned _ _ _ _ _ _ _ _ H Hne How) as (x' & How' & Hw). exists l, x', p. split; [done|]. split; [done|].
    destruct (without_inode _ _ _ Hw) as [_ ->]. by rewrite (un_procs _ _ _ H), !elem_of_remove_id.
Qed.

Lemma unlisted_protected k s s' : unlisted k s s' → protected s →
  (∀ i k' l b, k' ≠ k → listed s i k' → st_locks s !! k' = Some l → nonempty l → covers l b → b ≤ max_unix_offset s' →
     held (st_calls s) i b = true → held (st_calls s') i b = true) →
  protected s'.
Proof.
  intros H Hp Hheld i k' l x' p b [Hne Hli]%(unlisted_listed _ _ _ _ _ H) How Hfs Hn Hc Hb.
  destruct (unlisted_owned' _ _ _ _ _ _ _ _ H Hne How) as (x & How' & [_ Hfs']). pose proof (un_max _ _ _ H).
  apply (Hheld i k' l b); [done|done|by destruct How'|done..|]. apply (Hp i k' l x p b); [done|done|by apply Hfs'|done|done|lia].
Qed.

(** ** Closing descriptors *)

(** Only calls that concern the file [i] were made. *)
Definition closes (i : Z) (s s' : fd_state) : Prop :=
  ∃ cs, s' = with_calls (cs ++ st_calls s) (st_results s) s ∧
    ∀ j b, j ≠ i → held (cs ++ st_calls s) j b = held (st_calls s) j b.

Lemma closes_refl i s : closes i s s.
Proof. exists []. by destruct s. Qed.

Lemma closes_trans i s1 s2 s3 : closes i s1 s2 → closes i s2 s3 → closes i s1 s3.
Proof.
  intros (cs & -> & H1) (cs' & -> & H2). exists (cs' ++ cs). cbn in *. split; [by rewrite app_assoc|].
  intros j b Hj. by rewrite <-app_assoc, H2, H1.
Qed.

Lemma record_closes i u s w (Q : unit → fd_state → world → Prop) :
  (∀ s', closes i s s' → Q tt s' w) → wp (close_unix i u) s w Q.
Proof.
  intros H. unfold close_unix, when. destruct (negb _); [|apply wp_ret, H, closes_refl]. unfold record_call. rewrite wp_modify. apply H.
  exists [Close i u]. split; [done|]. intros j b Hj. cbn. by rewrite (proj2 (Z.eqb_neq i j)).
Qed.

Lemma record_unlink i c s w (Q : unit → fd_state → world → Prop) :
  (∀ s', closes i s s' → Q tt s' w) → wp (unlink_closed_fd i c) s w Q.
Proof. intros H. unfold unlink_closed_fd, record_call. rewrite wp_modify. apply H. by exists [Unlink i (c_unix_name c)]. Qed.

Lemma close_pending_ok i b l s w (Q : list closed_fd → fd_state → world → Prop) :
  (∀ l' s', closes i s s' → Q l' s' w) → wp (close_pending i b l) s w Q.
Proof.
  revert s Q. induction l as [|c l IH]; intros s Q H; cbn [close_pending]; [apply wp_ret, H, closes_refl|].
  rewrite wp_bind. apply record_closes. intros s1 Hs1. rewrite wp_bind. apply IH. intros l' s2 Hs2. apply wp_ret, H.
  by eapply closes_trans.
Qed.

Lemma destroy_closed_ok i l s w (Q : unit → fd_state → world → Prop) :
  (∀ s', closes i s s' → Q tt s' w) → wp (destroy_closed i l) s w Q.
Proof.
  revert s Q. induction l as [|c l IH]; intros s Q H; cbn [destroy_closed]; [apply wp_ret, H, closes_refl|].
  rewrite wp_bind. apply record_closes. intros s1 Hs1. rewrite wp_bind. unfold when.
  destruct (deletes c); [apply record_unlink; intros s2 Hs2|apply wp_ret]; apply IH; intros s3 Hs3; apply H;
    eauto using closes_trans.
Qed.

(** ** Removing a lock *)

Lemma listed_owned s i k l : wf s → listed s i k → st_locks s !! k = Some l → ∃ x p, owned s i k l x p ∧ lock_range l ∧ k ∈ fd_locks x ∧ k ∈ process_locks s p.
Proof.
  intros Hwf Hk Hl. destruct (wf_listed s Hwf i k Hk) as (l' & x & p & How & H). destruct (How) as (Hl' & _). simplify_eq. by exists x, p.
Qed.

Lemma listed_file s i j k : wf s → listed s i k → listed s j k → i = j.
Proof.
  intros Hwf Hi Hj. destruct (wf_listed s Hwf i k Hi) as (l & x & p & (Hl & _ & Hx & Hxi) & _).
  destruct (listed_owned s j k l Hwf Hj Hl) as (x' & p' & (_ & _ & Hx' & Hxj) & _). congruence.
Qed.

(** The state after [k] is taken off the three lists. *)
Lemma take_off s i k l x y p : wf s → st_inodes s !! i = Some y → k ∈ i_locks y → owned s i k l x p →
  unlisted k s (with_procs (<[p := remove_id k (process_locks s p)]> (st_procs s))
                 (with_inodes (<[i := set_i_locks (remove_id k (i_locks y)) y]> (st_inodes s))
                   (with_fds (<[lk_fd l := set_fd_locks (remove_id k (fd_locks x)) x]> (st_fds s)) s))).
Proof.
  intros Hwf Hy Hk (Hl & Hp & Hx & Hi). assert (listed s i k) as Hli by by exists y. split; [done|..|done]; cbn.
  - intros f. destruct (decide (f = lk_fd l)) as [->|Hne].
    + rewrite lookup_insert_eq, Hx. constructor. split; [|done]. by destruct x.
    + rewrite lookup_insert_ne by done. destruct (st_fds s !! f) as [x'|] eqn:Hx'; constructor. split; [|done].
      rewrite remove_id_absent; [by destruct x'|]. intros Hk'.
      destruct (wf_fd s Hwf f x' k Hx' Hk') as (? & l' & ? & _ & (Hl' & _) & <-). congruence.
  - intros j. destruct (decide (i = j)) as [->|Hne].
    + rewrite lookup_insert_eq, Hy. by constructor.
    + rewrite lookup_insert_ne by done. destruct (st_inodes s !! j) as [y'|] eqn:Hy'; constructor. split; [done|].
      rewrite remove_id_absent; [done|]. intros Hk'. apply Hne. apply (listed_file s i j k); [done..|]. by exists y'.
  - intros p'. unfold process_locks. cbn. destruct (decide (p = p')) as [->|Hne]; [by rewrite lookup_insert_eq|].
    rewrite lookup_insert_ne by done. fold (process_locks s p'). rewrite remove_id_absent; [done|]. intros Hk'.
    destruct (wf_process s Hwf p' k Hk') as (j & l' & x' & _ & (Hl' & Hp' & _)). congruence.
Qed.

Lemma unlisted_step k f s s1 s2 : unlisted k s s1 → sys_step f s1 s2 → unlisted k s s2.
Proof.
  intros H Hs. pose proof (sys_step_max _ _ _ Hs). destruct (sys_step_lists _ _ _ Hs) as (El & Ei & Ep). split.
  - rewrite El. apply (un_locks _ _ _ H).
  - intros g. pose proof (un_fds _ _ _ H g) as Hg. destruct (st_fds s !! g) as [x|] eqn:Hx; inversion Hg as [? x1 Hw E1 E2|E1 E2].
    + symmetry in E2. destruct (sys_step_fds' _ _ _ _ _ Hs E2) as (fs & Hx2). rewrite Hx2. constructor.
      destruct (sys_step_fds _ _ _ _ _ Hs Hx2) as (x1' & Hx1' & _ & Hfs). rewrite E2 in Hx1'. simplify_eq. cbn in *.
      destruct Hw as [Hw Hw']. split; [by rewrite Hw|]. auto.
    + destruct (st_fds s2 !! g) as [x2|] eqn:Hx2; [|constructor]. destruct (sys_step_fds _ _ _ _ _ Hs Hx2) as (x1 & Hx1 & _). congruence.
  - rewrite Ei. apply (un_inodes _ _ _ H).
  - intros p. unfold process_locks. rewrite Ep. apply (un_procs _ _ _ H).
  - pose proof (un_max _ _ _ H). lia.
Qed.

Lemma unlisted_put k s s1 l' : unlisted k s s1 → unlisted k s (with_locks (<[k := l']> (st_locks s1)) s1).
Proof.
  intros H. split; cbn; [|apply H..]. intros k' Hne. rewrite lookup_insert_ne by done. by apply H.
Qed.

Lemma unlisted_closed k s s1 s2 i y c : unlisted k s s1 → closes i s1 s2 → st_inodes s1 !! i = Some y →
  unlisted k s (with_inodes (<[i := set_i_closed c y]> (st_inodes s2)) s2).
Proof.
  intros H (cs & -> & _) Hy. split; cbn; try apply H. intros j. destruct (decide (i = j)) as [->|].
  - rewrite lookup_insert_eq. pose proof (un_inodes _ _ _ H j) as Hj. rewrite Hy in Hj. inversion Hj. by constructor.
  - rewrite lookup_insert_ne by done. apply H.
Qed.

Lemma remove_lock_ok s w k b i l x p : good s → listed s i k → owned s i k l x p →
  wp (remove_lock k b) s w (λ _ s' _, good s' ∧ unlisted k s s').
Proof.
  intros [Hwf Hprot] Hk How. destruct (How) as (Hl & Hp & Hx & Hi). destruct (Hk) as (y & Hy & Hky).
  assert (lock_range l) as Hr by (by destruct (listed_owned s i k l) as (? & ? & _ & ? & _)).
  unfold remove_lock, read_lock, read_fd, read_inode. rewrite wp_bind, wp_bind, wp_get, Hl. apply wp_ret.
  rewrite wp_bind, wp_bind, wp_get, Hx. apply wp_ret. rewrite wp_bind, Hi. apply wp_ret. rewrite wp_bind, Hp. apply wp_ret.
  rewrite wp_bind. unfold put_fd. rewrite wp_modify. rewrite wp_bind, wp_bind, wp_get. cbn [st_inodes with_fds]. rewrite Hy. apply wp_ret.
  rewrite wp_bind. unfold put_inode. rewrite wp_modify. rewrite wp_bind, wp_get, wp_bind. unfold put_process. rewrite wp_modify.
  pose proof (take_off s i k l x y p Hwf Hy Hky How) as Hun. cbn in Hun |- *.
  set (s1 := with_procs _ _) in *.
  assert (Hy1 : st_inodes s1 !! i = Some (set_i_locks (remove_id k (i_locks y)) y)) by apply lookup_insert_eq.
  pose proof (unlisted_wf k s s1 Hun Hwf) as Hwf1.
  destruct (wf_are_locks s1 i _ Hwf1 Hy1) as (ls & Hls & Hrls & Hcov).
  assert (Hun1 : wp (if b then remove_unix_locks (lk_fd l) (lk_start l) (lk_end l) else ret tt) s1 w (λ _ s2 _,
    unlock_post (lk_fd l) i (λ b, interval (lk_start l) (lk_end l) b ∧ ¬ covered ls b) s1 s2)).
  { assert (st_fds s1 !! lk_fd l = Some (set_fd_locks (remove_id k (fd_locks x)) x)) as Hx1 by apply lookup_insert_eq.
    destruct b; [|apply wp_ret; by eapply unlock_post_refl]. destruct Hr as ([? _] & _ & ?).
    by eapply remove_unix_locks_safe. }
  rewrite wp_bind. eapply wp_mono; [exact Hun1|]. intros [] s2 w2 (Hs2 & Hout & _).
  pose proof (unlisted_step _ _ _ _ _ Hun Hs2) as Hun2. destruct (sys_step_lists _ _ _ Hs2) as (_ & Ei2 & _).
  rewrite wp_bind, wp_bind, wp_get, Ei2, Hy1. apply wp_ret. cbn [i_locks set_i_locks].
  assert (Hprot2 : ∀ s3, unlisted k s s3 → max_unix_offset s3 = max_unix_offset s2 →
    (∀ j b, j ≠ i ∨ remove_id k (i_locks y) ≠ [] → held (st_calls s3) j b = held (st_calls s2) j b) → good s3).
  { intros s3 Hun3 Hmax Hheld. split; [by eapply unlisted_wf|]. eapply (unlisted_protected k s); [done..|].
    intros j k' l' b' Hne Hj Hl' Hn Hc Hb Hh. rewrite Hmax in Hb.
    assert (listed s1 j k') as (y' & Hy' & Hk') by by apply (unlisted_listed k s).
    rewrite Hheld.
    - rewrite Hout; [done|done|]. destruct (decide (j = i)) as [->|]; [right|by left]. intros [_ Hnc]. apply Hnc, Hcov.
      exists k', l'. rewrite Hy1 in Hy'. simplify_eq. split_and!; [done| |done..]. by rewrite (un_locks _ _ _ Hun).
    - destruct (decide (j = i)) as [->|]; [right|by left]. rewrite Hy1 in Hy'. simplify_eq. intros E. cbn in Hk'. rewrite E in Hk'.
      by apply not_elem_of_nil in Hk'. }
  rewrite wp_bind. case_bool_decide as Hnil.
  - unfold inode_close_pending, read_inode. rewrite wp_bind, wp_bind, wp_get, Ei2, Hy1. apply wp_ret. rewrite wp_bind.
    apply close_pending_ok. intros c s3 Hs3. unfold put_inode, put_lock. rewrite wp_modify, wp_modify.
    pose proof (unlisted_closed k s s2 s3 i _ c Hun2 Hs3 ltac:(by rewrite Ei2)) as Hun3.
    split; [|by apply (unlisted_put _ _ _ _ Hun3)]. destruct Hs3 as (cs & -> & Hcs).
    apply Hprot2; [by apply (unlisted_put _ _ _ _ Hun3)|done|]. cbn. intros j b' [|]; [by apply Hcs|done].
  - apply wp_ret. unfold put_lock. rewrite wp_modify. split; [|by apply unlisted_put]. by apply Hprot2; [apply unlisted_put|..].
Qed.

(** ** Removing the locks of a process or of an fd object *)

(** Fd objects stay; only their locks and the use of system locks change. *)
Definition same_file (x x' : fd) : Prop := x' = set_fs_locks (fd_fs_locks x') (set_fd_locks (fd_locks x') x).
Definition same_files (s s' : fd_state) : Prop := ∀ f, option_Forall2 same_file (st_fds s !! f) (st_fds s' !! f).

Lemma same_file_refl x : same_file x x.
Proof. by destruct x. Qed.

Lemma same_files_refl s : same_files s s.
Proof. intros f. destruct (st_fds s !! f); constructor. apply same_file_refl. Qed.

Lemma same_files_trans s1 s2 s3 : same_files s1 s2 → same_files s2 s3 → same_files s1 s3.
Proof.
  intros H1 H2 f. specialize (H1 f). specialize (H2 f). inversion H1 as [x1 x2 E1 F1 F2|]; inversion H2 as [y2 y3 E2 G1 G2|]; try congruence;
    constructor. assert (y2 = x2) as -> by congruence. unfold same_file in *. rewrite E2, E1. by destruct x1.
Qed.

Lemma same_files_fd s s' f x : same_files s s' → st_fds s !! f = Some x → ∃ x', st_fds s' !! f = Some x' ∧ same_file x x'.
Proof. intros H Hx. specialize (H f). rewrite Hx in H. inversion H. eauto. Qed.

Lemma same_files_fd' s s' f x' : same_files s s' → st_fds s' !! f = Some x' → ∃ x, st_fds s !! f = Some x ∧ same_file x x'.
Proof. intros H Hx. specialize (H f). rewrite Hx in H. inversion H. eauto. Qed.

Lemma same_file_parts x x' : same_file x x' →
  fd_inode x' = fd_inode x ∧ fd_closed x' = fd_closed x ∧ fd_access x' = fd_access x ∧ fd_sharing x' = fd_sharing x.
Proof. by intros ->. Qed.

Lemma unlisted_same_files k s s' : unlisted k s s' → same_files s s'.
Proof.
  intros H f. pose proof (un_fds _ _ _ H f) as Hf. inversion Hf as [x x' [E _]|]; constructor. rewrite E. by destruct x.
Qed.

Lemma sys_step_same_files f s s' : sys_step f s s' → same_files s s'.
Proof.
  intros (x & fs & n & cs & rs & Hx & _ & _ & ->) g. cbn. destruct (decide (f = g)) as [->|].
  - rewrite Hx, lookup_insert_eq. constructor. by destruct x.
  - rewrite lookup_insert_ne by done. apply same_files_refl.
Qed.

Lemma length_remove_head k l : (length (remove_id k (k :: l)) ≤ length l)%nat.
Proof. unfold remove_id. rewrite filter_cons_False by auto. apply length_filter. Qed.

Lemma remove_process_locks_ok s w p : good s →
  wp (remove_process_locks p) s w (λ _ s' _, good s' ∧ same_files s s' ∧ process_locks s' p = []).
Proof.
  intros Hg. unfold remove_process_locks. rewrite wp_bind, wp_get. pose proof (Nat.le_refl (length (process_locks s p))) as Hn.
  revert Hn. generalize (length (process_locks s p)) at 2 3 as n. intros n. revert s w Hg.
  induction n as [|n IH]; intros s w Hg Hn; cbn [remove_process_locks_loop]; rewrite wp_bind, wp_get;
    destruct (process_locks s p) as [|k l] eqn:E; try (apply wp_ret; by eauto using same_files_refl); [cbn in Hn; lia|].
  destruct (wf_process s (proj1 Hg) p k) as (i & lk & x & Hk & How); [rewrite E; left|].
  rewrite wp_bind. eapply wp_mono; [by eapply remove_lock_ok|]. intros [] s1 w1 (Hg1 & Hun).
  eapply wp_mono; [apply IH; [done|]|].
  - rewrite (un_procs _ _ _ Hun), E. pose proof (length_remove_head k l). cbn in Hn. lia.
  - intros [] s2 w2 (Hg2 & Hs & Hnil). split_and!; [done| |done]. eapply same_files_trans; [by eapply unlisted_same_files|done].
Qed.

Lemma u64_pred z : 0 ≤ z ≤ FILE_POS_T_MAX → 0 ≤ u64 (z - 1) ≤ FILE_POS_T_MAX.
Proof. intros _. unfold u64, FILE_POS_T_MAX. pose proof (Z.mod_pos_bound (z - 1) 18446744073709551616). lia. Qed.

Lemma remove_fd_locks_loop_ok n s w f x start end_ : good s → st_fds s !! f = Some x → (length (fd_locks x) ≤ n)%nat →
  0 ≤ start ≤ FILE_POS_T_MAX → 0 ≤ end_ ≤ FILE_POS_T_MAX →
  wp (remove_fd_locks_loop n f start end_) s w (λ r s' _,
    good s' ∧ same_files s s' ∧ 0 ≤ r.1 ≤ FILE_POS_T_MAX ∧ 0 ≤ r.2 ≤ FILE_POS_T_MAX ∧ ∃ x', st_fds s' !! f = Some x' ∧ fd_locks x' = []).
Proof.
  revert s w x start end_. induction n as [|n IH]; intros s w x start end_ Hg Hx Hn Hs He; cbn [remove_fd_locks_loop];
    unfold read_fd; rewrite !wp_bind, wp_get, Hx; apply wp_ret.
  { destruct (fd_locks x) as [|k l] eqn:E; [|cbn in Hn; lia]. apply wp_ret. split_and!; [done|apply same_files_refl|cbn; lia..|by exists x]. }
  destruct (fd_locks x) as [|k l] eqn:E; [apply wp_ret; split_and!; [done|apply same_files_refl|cbn; lia..|by exists x]|].
  destruct (wf_fd s (proj1 Hg) f x k Hx) as (i & lk & p & Hk & How & <-); [rewrite E; left|]. destruct (How) as (Hl & _).
  assert (lock_range lk) as (Hr1 & Hr2 & _) by (by destruct (listed_owned s i k lk (proj1 Hg)) as (? & ? & _ & ? & _)).
  unfold read_lock. rewrite wp_bind, wp_bind, wp_get, Hl. apply wp_ret. cbn zeta. rewrite wp_bind.
  eapply wp_mono; [by eapply remove_lock_ok|]. intros [] s1 w1 (Hg1 & Hun).
  destruct (unlisted_fd _ _ _ _ _ Hun Hx) as (x1 & Hx1 & [_ Ex1]%without_inode).
  eapply wp_mono; [eapply (IH s1 _ x1); [done|done| | |]|].
  - rewrite Ex1, E. pose proof (length_remove_head k l). cbn in Hn. lia.
  - case_match; lia.
  - case_match; [by apply u64_pred|lia].
  - intros r s2 w2 (? & ? & H). split_and!; [done| |apply H..]. eapply same_files_trans; [by eapply unlisted_same_files|done].
Qed.

(** A call to the system that takes nothing from a lock keeps the invariant. *)
Lemma sys_good f s s' : good s → sys_step f s s' →
  (∀ i k l b, listed s i k → st_locks s !! k = Some l → nonempty l → covers l b → b ≤ max_unix_offset s' →
     held (st_calls s) i b = true → held (st_calls s') i b = true) → good s'.
Proof.
  intros [Hwf Hp] Hs Hheld. split; [by eapply sys_step_wf|].
  intros i k l x p b Hk How Hfs Hn Hc Hb. destruct (sys_step_lists _ _ _ Hs) as (_ & Ei & _). pose proof (sys_step_max _ _ _ Hs).
  assert (listed s i k) as Hk' by (unfold listed in *; by rewrite <-Ei).
  destruct (sys_step_owned _ _ _ _ _ _ _ _ Hs How) as (x' & How' & _ & Hfs').
  apply (Hheld i k l b); [done|by destruct How'|done..|]. apply (Hp i k l x' p b); [done|done|by apply Hfs'|done|done|lia].
Qed.

Lemma unlock_good f i P s s' : good s → unlock_post f i P s s' → (∀ k l b, listed s i k → st_locks s !! k = Some l → nonempty l → covers l b → ¬ P b) → good s'.
Proof.
  intros Hg (Hs & Hout & _) HP. eapply sys_good; [done..|]. intros j k l b Hk Hl Hn Hc Hb Hh. rewrite Hout; [done..|].
  destruct (decide (j = i)) as [->|]; [right; by eapply HP|by left].
Qed.

Lemma remove_fd_locks_ok s w f x : good s → st_fds s !! f = Some x →
  wp (remove_fd_locks f) s w (λ _ s' _, good s' ∧ same_files s s' ∧ ∃ x', st_fds s' !! f = Some x' ∧ fd_locks x' = []).
Proof.
  intros Hg Hx. unfold remove_fd_locks, read_fd. rewrite wp_bind, wp_bind, wp_get, Hx. apply wp_ret. rewrite wp_bind.
  eapply wp_mono; [eapply remove_fd_locks_loop_ok; [done|exact Hx|done|unfold FILE_POS_T_MAX; lia..]|].
  intros [a e] s1 w1 (Hg1 & Hs1 & Ha & He & x1 & Hx1 & E1). cbn in Ha, He |- *.
  destruct (Z.ltb_spec a e); [|apply wp_ret; eauto].
  destruct (fd_inode x1) as [i|] eqn:Hi.
  - destruct (wf_open s1 (proj1 Hg1) f x1 i Hx1 Hi) as (y & Hy & _).
    destruct (wf_are_locks s1 i y (proj1 Hg1) Hy) as (ls & Hls & Hr & Hcov).
    eapply wp_mono; [eapply (remove_unix_locks_safe f a (u64 (e + 1)) s1 w1 x1 i y ls); try done; [lia|]|].
    + unfold u64, FILE_POS_T_MAX in *. destruct (decide (e = 18446744073709551615)) as [->|]; [by left|right].
      rewrite Z.mod_small by lia. lia.
    + intros [] s2 w2 Hs2. destruct (Hs2) as (Hst & _). destruct (sys_step_fd _ _ _ _ Hst Hx1) as (fs & Hx2 & _). split_and!.
      * eapply unlock_good; [done..|]. intros k l b (y' & Hy' & Hk) Hl Hn Hc [_ Hnc]. apply Hnc, Hcov. exists k, l.
        rewrite Hy in Hy'. by simplify_eq.
      * eapply same_files_trans; [done|by eapply sys_step_same_files].
      * by eexists.
  - unfold remove_unix_locks, read_fd. rewrite wp_bind, wp_bind, wp_get, Hx1. apply wp_ret. rewrite Hi. apply wp_ret. eauto.
Qed.

(** ** Opening and closing

    What these operations change are the open lists and fd objects without locks. *)

Definition opens_ok (s : fd_state) : Prop :=
  (∀ f x i, st_fds s !! f = Some x → fd_inode x = Some i → ∃ y, st_inodes s !! i = Some y ∧ f ∈ i_open y) ∧
  (∀ i y, st_inodes s !! i = Some y → NoDup (i_open y) ∧ ∀ f, f ∈ i_open y → ∃ x, st_fds s !! f = Some x ∧ fd_inode x = Some i).
Definition same_owner (x x' : fd) : Prop := fd_inode x' = fd_inode x ∧ fd_locks x' = fd_locks x ∧ fd_fs_locks x' = fd_fs_locks x.

Lemma wf_opens s : wf s → opens_ok s.
Proof. intros [Ho _ _ Hi _]. split; [done|]. intros i y Hy. by destruct (Hi i y Hy) as (? & _ & _ & ?). Qed.

(** Objects with locks stay as they are. *)
Record regood_rel (s s' : fd_state) : Prop := {
  re_locks : st_locks s' = st_locks s;
  re_procs : st_procs s' = st_procs s;
  re_max : max_unix_offset s' = max_unix_offset s;
  re_fds f x : st_fds s !! f = Some x → fd_locks x ≠ [] → ∃ x', st_fds s' !! f = Some x' ∧ same_owner x x';
  re_fds' f x' : st_fds s' !! f = Some x' → fd_locks x' ≠ [] → ∃ x, st_fds s !! f = Some x ∧ same_owner x x';
  re_inodes i y : st_inodes s !! i = Some y → i_locks y ≠ [] → ∃ y', st_inodes s' !! i = Some y' ∧ i_locks y' = i_locks y;
  re_inodes' i y' : st_inodes s' !! i = Some y' → i_locks y' ≠ [] → ∃ y, st_inodes s !! i = Some y ∧ i_locks y' = i_locks y;
  re_held i y b : st_inodes s !! i = Some y → i_locks y ≠ [] → held (st_calls s') i b = held (st_calls s) i b
}.

Lemma elem_not_nil {A} (a : A) l : a ∈ l → l ≠ [].
Proof. by intros H ->; apply not_elem_of_nil in H. Qed.

Lemma regood_listed s s' i k : regood_rel s s' → listed s' i k ↔ listed s i k.
Proof.
  intros H. split; intros (y & Hy & Hk).
  - destruct (re_inodes' _ _ H i y Hy (elem_not_nil _ _ Hk)) as (y' & Hy' & E). exists y'. by rewrite <-E.
  - destruct (re_inodes _ _ H i y Hy (elem_not_nil _ _ Hk)) as (y' & Hy' & E). exists y'. by rewrite E.
Qed.

Lemma regood_owned s s' i k l x p : regood_rel s s' → owned s i k l x p → k ∈ fd_locks x → ∃ x', owned s' i k l x' p ∧ same_owner x x'.
Proof.
  intros H (Hl & Hp & Hx & Hi) Hk. destruct (re_fds _ _ H _ _ Hx (elem_not_nil _ _ Hk)) as (x' & Hx' & Hs). exists x'. split; [|done].
  split_and!; [by rewrite (re_locks _ _ H)|done..|]. destruct Hs as (-> & _). done.
Qed.

Lemma regood_good s s' : good s → regood_rel s s' → opens_ok s' → good s'.
Proof.
  intros [Hwf Hp] H [Hopen Hino].
  assert (Hown : ∀ i k, listed s i k → ∃ l x p x', owned s i k l x p ∧ owned s' i k l x' p ∧ same_owner x x' ∧
    lock_range l ∧ k ∈ fd_locks x ∧ k ∈ process_locks s p).
  { intros i k Hk. destruct (wf_listed s Hwf i k Hk) as (l & x & p & How & ? & Hkx & ?).
    destruct (regood_owned _ _ _ _ _ _ _ H How Hkx) as (x' & How' & ?). by exists l, x, p, x'. }
  split; [split|].
  - done.
  - intros f x' k Hx' Hk. destruct (re_fds' _ _ H _ _ Hx' (elem_not_nil _ _ Hk)) as (x & Hx & (_ & E & _)). rewrite E in Hk.
    destruct (wf_fd s Hwf f x k Hx Hk) as (i & l & p & Hki & How & Ef).
    destruct (regood_owned _ _ _ _ _ _ _ H How Hk) as (x2 & How2 & _). exists i, l, p. rewrite regood_listed by done.
    split; [done|]. split; [|done]. destruct (How2) as (? & ? & Hx2 & ?). rewrite Ef, Hx' in Hx2. by simplify_eq.
  - intros p k Hk. unfold process_locks in Hk. rewrite (re_procs _ _ H) in Hk. destruct (wf_process s Hwf p k Hk) as (i & l & x & Hki & How).
    destruct (Hown i k Hki) as (l1 & x1 & p1 & x' & How1 & How' & _). destruct How as (Hl & Hlp & _), How1 as (Hl1 & Hlp1 & _).
    exists i, l1, x'. rewrite regood_listed by done. split; [done|]. by simplify_eq.
  - intros i y' Hy'. destruct (Hino i y' Hy') as [Hnd Ho]. split; [done|]. destruct (decide (i_locks y' = [])) as [->|Hne].
    { split; [constructor|]. split; [constructor|done]. }
    destruct (re_inodes' _ _ H i y' Hy' Hne) as (y & Hy & ->). destruct (wf_inode s Hwf i y Hy) as (_ & ? & Hc & _).
    split_and!; [done| |done]. eapply sorted_weaken; [|done]. intros ? ? _ _. unfold compatible. by rewrite (re_locks _ _ H).
  - intros i k Hk%(regood_listed _ _ _ _ H). destruct (Hown i k Hk) as (l & x & p & x' & _ & How' & (_ & E & _) & ? & ? & ?).
    exists l, x', p. split; [done|]. split; [done|]. split; [by rewrite E|]. unfold process_locks. by rewrite (re_procs _ _ H).
  - intros i k l x' p b Hk%(regood_listed _ _ _ _ H) How Hfs Hn Hc Hb. destruct (Hk) as (y & Hy & Hky).
    rewrite (re_held _ _ H i y b Hy (elem_not_nil _ _ Hky)). destruct (Hown i k Hk) as (l1 & x & p1 & x1 & How1 & How1' & (_ & _ & E) & _).
    destruct How as (Hl & Hlp & Hx' & _), How1' as (Hl1 & Hlp1 & Hx1 & _). simplify_eq.
    eapply (Hp i k); [done|exact How1|congruence|done|done|]. by rewrite <-(re_max _ _ H).
Qed.

(** Putting back an fd object with another sharing mode, disposition or options. *)
Lemma put_fd_good s f x x' : good s → st_fds s !! f = Some x → same_owner x x' → good (with_fds (<[f := x']> (st_fds s)) s).
Proof.
  intros Hg Hx Hs. pose proof (wf_opens s (proj1 Hg)) as [Hopen Hino].
  assert (Hfwd : ∀ g y, st_fds s !! g = Some y → ∃ y', <[f := x']> (st_fds s) !! g = Some y' ∧ same_owner y y').
  { intros g y Hy. destruct (decide (f = g)) as [->|]; [rewrite lookup_insert_eq; simplify_eq; by eexists|].
    rewrite lookup_insert_ne by done. by exists y. }
  assert (Hbwd : ∀ g y', <[f := x']> (st_fds s) !! g = Some y' → ∃ y, st_fds s !! g = Some y ∧ same_owner y y').
  { intros g y' [[-> <-]|[? Hy]]%lookup_insert_Some; [by exists x|by exists y']. }
  apply (regood_good s); [done|split; cbn; try done; eauto|split; cbn].
  - intros g y' i Hy' Hi. destruct (Hbwd g y' Hy') as (y & Hy & (E & _)). apply (Hopen g y); [done|]. by rewrite <-E.
  - intros i y Hy. destruct (Hino i y Hy) as [? Ho]. split; [done|]. intros g Hg'. destruct (Ho g Hg') as (z & Hz & Hzi).
    destruct (Hfwd g z Hz) as (z' & ? & (E & _)). exists z'. by rewrite E.
Qed.

(** An fd object without locks leaves, with its place on the open list. *)
Lemma detach_good s s' f x : good s → st_fds s !! f = Some x → fd_locks x = [] →
  st_locks s' = st_locks s → st_procs s' = st_procs s → max_unix_offset s' = max_unix_offset s →
  st_fds s' = delete f (st_fds s) →
  (∀ i, option_Forall2 (λ y y', i_open y' = remove_id f (i_open y) ∧ i_locks y' = i_locks y) (st_inodes s !! i) (st_inodes s' !! i)) →
  (∀ i y b, st_inodes s !! i = Some y → i_locks y ≠ [] → held (st_calls s') i b = held (st_calls s) i b) →
  good s'.
Proof.
  intros Hg Hx Hnil El Ep Em Ef Hino Hheld. pose proof (wf_opens s (proj1 Hg)) as [Hopen Hopened].
  apply (regood_good s); [done|split|split].
  - done. - done. - done.
  - intros g y Hy Hne. exists y. rewrite Ef, lookup_delete_ne by (intros ->; congruence). done.
  - intros g y Hy Hne. rewrite Ef, lookup_delete_Some in Hy. exists y. by destruct Hy.
  - intros i y Hy _. specialize (Hino i). rewrite Hy in Hino. inversion Hino as [? y' [_ E]|]. by exists y'.
  - intros i y' Hy _. specialize (Hino i). rewrite Hy in Hino. inversion Hino as [y ? [_ E]|]. by exists y.
  - done.
  - intros g z i Hz Hi. rewrite Ef in Hz. apply lookup_delete_Some in Hz as [Hne Hz].
    destruct (Hopen g z i Hz Hi) as (y & Hy & Hgy). specialize (Hino i). rewrite Hy in Hino. inversion Hino as [? y' [E _]|].
    exists y'. split; [done|]. rewrite E, elem_of_remove_id. auto.
  - intros i y' Hy'. specialize (Hino i). rewrite Hy' in Hino. inversion Hino as [y ? [E _] Hy|]. destruct (Hopened i y) as [? Ho]; [done|].
    rewrite E. split; [by apply NoDup_filter|]. intros g [? Hg']%elem_of_remove_id. destruct (Ho g Hg') as (z & ? & ?).
    exists z. rewrite Ef, lookup_delete_ne by done. done.
Qed.

(** The inode without opens leaves. *)
Lemma drop_inode_good s s' i y : good s → st_inodes s !! i = Some y → i_open y = [] → i_locks y = [] → closes i s s' →
  good (with_inodes (delete i (st_inodes s')) s').
Proof.
  intros Hg Hy Hopn Hl (cs & -> & Hcs). pose proof (wf_opens s (proj1 Hg)) as [Hopen Hopened].
  apply (regood_good s); [done|split|split]; cbn; try done.
  - intros g x ??. by exists x.
  - intros g x ??. by exists x.
  - intros j z Hz Hne. exists z. rewrite lookup_delete_ne by (intros ->; congruence). done.
  - intros j z [? Hz]%lookup_delete_Some _. by exists z.
  - intros j z b Hz Hne. apply Hcs. intros ->. congruence.
  - intros g x j Hx Hj. destruct (Hopen g x j Hx Hj) as (z & Hz & Hgz). exists z. rewrite lookup_delete_ne; [done|].
    intros ->. simplify_eq. rewrite Hopn in Hgz. by apply not_elem_of_nil in Hgz.
  - intros j z [? Hz]%lookup_delete_Some. by apply Hopened.
Qed.

Lemma add_closed_ok i c s w y (Q : unit → fd_state → world → Prop) : st_inodes s !! i = Some y →
  (∀ l cs, (∀ j b, j ≠ i → held (cs ++ st_calls s) j b = held (st_calls s) j b) → (i_locks y ≠ [] → cs = []) →
     Q tt (with_calls (cs ++ st_calls s) (st_results s) (with_inodes (<[i := set_i_closed l y]> (st_inodes s)) s)) w) →
  wp (inode_add_closed_fd i c) s w Q.
Proof.
  intros Hy H. unfold inode_add_closed_fd, read_inode, put_inode. rewrite wp_bind, wp_bind, wp_get, Hy. apply wp_ret.
  assert (Hid : with_inodes (<[i := set_i_closed (i_closed y) y]> (st_inodes s)) s = s).
  { assert (set_i_closed (i_closed y) y = y) as -> by by destruct y. rewrite insert_id by done. by destruct s. }
  case_bool_decide as Hnil; cbn [negb].
  2: { rewrite wp_modify. by apply (H _ []). }
  assert (Hclose : ∀ s1, closes i s s1 → Q tt s1 w).
  { intros s1 (cs & -> & Hcs). specialize (H (i_closed y) cs Hcs). rewrite Hid in H. by apply H. }
  destruct (deletes c && _); [|destruct (deletes c && _)].
  - rewrite wp_bind. apply record_closes. intros s1 Hs1. apply record_unlink. intros s2 Hs2. apply Hclose. by eapply closes_trans.
  - rewrite wp_bind. apply record_closes. intros s1 (cs & -> & Hcs). rewrite wp_modify.
    by apply (H (ClosedFd (-1) (c_disp_flags c) (c_unix_name c) :: i_closed y) cs).
  - apply record_closes. intros s1 Hs1. by apply Hclose.
Qed.

(** The fd objects that are left are as they were. *)
Definition fewer_files (f : Z) (s s' : fd_state) : Prop :=
  ∀ g x', st_fds s' !! g = Some x' → g ≠ f ∧ ∃ x, st_fds s !! g = Some x ∧ same_file x x'.

Lemma inode_destroy_ok i y s w (Q : unit → fd_state → world → Prop) :
  st_inodes s !! i = Some y → i_open y = [] → i_locks y = [] →
  (∀ s', closes i s s' → Q tt (with_inodes (delete i (st_inodes s')) s') w) → wp (inode_destroy i) s w Q.
Proof.
  intros Hy Ho Hl H. unfold inode_destroy, read_inode. rewrite wp_bind, wp_bind, wp_get, Hy. apply wp_ret.
  rewrite Ho, Hl, wp_bind, wp_assert. split; [done|]. rewrite wp_bind, wp_assert. split; [done|]. rewrite wp_bind.
  apply destroy_closed_ok. intros s' Hs'. rewrite wp_modify. by apply H.
Qed.

Lemma open_of_lock s i y : wf s → st_inodes s !! i = Some y → i_open y = [] → i_locks y = [].
Proof.
  intros Hwf Hy Ho. destruct (i_locks y) as [|k l] eqn:E; [done|]. exfalso.
  destruct (wf_listed s Hwf i k) as (lk & x & p & (_ & _ & Hx & Hi) & _); [exists y; rewrite E; split; [done|left]|].
  destruct (wf_open s Hwf _ _ _ Hx Hi) as (y' & Hy' & Hf). simplify_eq. rewrite Ho in Hf. by apply not_elem_of_nil in Hf.
Qed.

Lemma fd_destroy_ok s w f x : good s → st_fds s !! f = Some x → wp (fd_destroy f) s w (λ _ s' _, good s' ∧ fewer_files f s s').
Proof.
  intros Hg Hx. unfold fd_destroy. unfold read_fd at 1. rewrite wp_bind, wp_bind, wp_get, Hx. apply wp_ret. rewrite wp_bind.
  eapply wp_mono; [by eapply remove_fd_locks_ok|]. intros [] s1 w1 (Hg1 & Hs1 & x1 & Hx1 & Hnil).
  destruct (same_files_fd _ _ _ _ Hs1 Hx) as (x1' & Hx1' & (Ei & Ec & _)%same_file_parts). simplify_eq.
  assert (Hfew : ∀ s', st_fds s' = delete f (st_fds s1) → fewer_files f s s').
  { intros s' E g z Hz. rewrite E, lookup_delete_Some in Hz. destruct Hz as [? Hz]. split; [done|]. by apply (same_files_fd' s s1). }
  destruct (fd_inode x) as [i|] eqn:Hi.
  - destruct (wf_open s1 (proj1 Hg1) f x1 i Hx1 Ei) as (y & Hy & Hf).
    unfold read_inode, put_inode. rewrite wp_bind, wp_bind, wp_get, Hy. apply wp_ret. rewrite wp_bind, wp_modify, wp_bind.
    eapply add_closed_ok; [apply lookup_insert_eq|]. cbn. intros l cs Hcs Hno. rewrite wp_bind, wp_modify, wp_bind, wp_bind, wp_get. cbn.
    rewrite insert_insert_eq, lookup_insert_eq. apply wp_ret. cbn.
    set (y2 := set_i_closed l _). match goal with |- wp _ ?s _ _ => set (s2 := s) end.
    assert (good s2) as Hg2.
    { apply (detach_good s1 s2 f x1); try done; cbn.
      - intros j. destruct (decide (i = j)) as [->|Hj].
        + rewrite lookup_insert_eq, Hy. by constructor.
        + rewrite lookup_insert_ne by done. destruct (st_inodes s1 !! j) as [z|] eqn:Hz; constructor. split; [|done].
          rewrite remove_id_absent; [done|]. intros Hfz. destruct (wf_inode s1 (proj1 Hg1) j z Hz) as (_ & _ & _ & Ho).
          destruct (Ho f Hfz) as (x2 & Hx2 & Hj2). congruence.
      - intros j z b Hz Hne. destruct (decide (j = i)) as [->|]; [|by apply Hcs]. simplify_eq. by rewrite Hno. }
    case_bool_decide as Hop; [|apply wp_ret; by split; [|apply Hfew]].
    assert (st_inodes s2 !! i = Some y2) as Hy2 by apply lookup_insert_eq.
    eapply inode_destroy_ok; [exact Hy2|done|by eapply open_of_lock; [apply Hg2|..]|]. intros s3 Hs3.
    split; [by eapply drop_inode_good; [..|by eapply open_of_lock; [apply Hg2|..]|]|]. apply Hfew. by destruct Hs3 as (? & -> & _).
  - rewrite wp_modify. split; [|by apply Hfew]. apply (detach_good s1 _ f x1); try done; cbn.
    intros j. destruct (st_inodes s1 !! j) as [z|] eqn:Hz; constructor. split; [|done].
    rewrite remove_id_absent; [done|]. intros Hfz. destruct (wf_inode s1 (proj1 Hg1) j z Hz) as (_ & _ & _ & Ho).
    destruct (Ho f Hfz) as (x2 & Hx2 & Hj2). congruence.
Qed.

(** ** Sharing modes *)

Definition allows (access sharing : Z) : bool :=
  (negb (has access read_access) || has sharing FILE_SHARE_READ) &&
  (negb (has access write_access) || has sharing FILE_SHARE_WRITE) &&
  (negb (has access DELETE) || has sharing FILE_SHARE_DELETE).
(** Two opens agree when each one's access is shared by the other; an open that asks
    neither for data nor for deletion does not take part. *)
Definition modes_agree (access1 sharing1 access2 sharing2 : Z) : Prop :=
  has access1 all_access = true → has access2 all_access = true → allows access1 sharing2 = true ∧ allows access2 sharing1 = true.
(** What mappings of the file forbid to a new open. *)
Definition mappings_agree (access sharing : Z) (trunc : bool) (options mapped : Z) : Prop :=
  (has mapped FILE_MAPPING_WRITE = true → has sharing FILE_SHARE_WRITE = true) ∧
  (has mapped FILE_MAPPING_IMAGE = true → has access FILE_WRITE_DATA = false ∧ has options FILE_DELETE_ON_CLOSE = false) ∧
  (has mapped FILE_MAPPING_ACCESS = true → trunc = false).
Definition may_open (access sharing : Z) (trunc : bool) (options : Z) (x : fd) : Prop :=
  modes_agree access sharing (fd_access x) (fd_sharing x) ∧ mappings_agree access sharing trunc options (fd_access x).

Lemma has_lor_l a b m : has (Z.lor a b) m = has a m || has b m.
Proof.
  unfold has. rewrite Z.land_lor_distr_l. apply eq_true_iff_eq. rewrite orb_true_iff, !negb_true_iff, !Z.eqb_neq, Z.lor_eq_0_iff. lia.
Qed.

Lemma has_lor_r a m m' : has a (Z.lor m m') = has a m || has a m'.
Proof. unfold has. rewrite !(Z.land_comm a). apply has_lor_l. Qed.

Lemma has_bit a n : 0 ≤ n → has a (2 ^ n) = Z.testbit a n.
Proof.
  intros Hn. unfold has. apply eq_true_iff_eq. rewrite negb_true_iff, Z.eqb_neq. split.
  - intros H. destruct (Z.testbit a n) eqn:E; [done|]. exfalso. apply H. apply Z.bits_inj'. intros k Hk.
    rewrite Z.land_spec, Z.pow2_bits_eqb, Z.bits_0 by done. destruct (Z.eqb_spec n k) as [->|]; [by rewrite E|by rewrite andb_false_r].
  - intros H E. apply (f_equal (λ z, Z.testbit z n)) in E. rewrite Z.land_spec, Z.pow2_bits_true, H, Z.bits_0 in E; done.
Qed.

Lemma has_land a b n : 0 ≤ n → has (Z.land a b) (2 ^ n) = has a (2 ^ n) && has b (2 ^ n).
Proof. intros Hn. rewrite !has_bit by done. apply Z.land_spec. Qed.

Lemma existing_access others m : has (existing others).2 m = existsb (λ x, has (fd_access x) m) others.
Proof.
  unfold existing. generalize (FILE_SHARE_ALL). assert (∀ l r, has (fold_left (λ r x, (if has (fd_access x) all_access then Z.land r.1 (fd_sharing x)
    else r.1, Z.lor r.2 (fd_access x))) l r).2 m = has r.2 m || existsb (λ x, has (fd_access x) m) l) as H.
  { induction l as [|x l IH]; intros r; cbn; [by rewrite orb_false_r|]. rewrite IH; cbn. by rewrite has_lor_l, orb_assoc. }
  intros z. rewrite H. unfold has at 1. by rewrite Z.land_0_l.
Qed.

Lemma existing_sharing others n : 0 ≤ n → has FILE_SHARE_ALL (2 ^ n) = true →
  has (existing others).1 (2 ^ n) = forallb (λ x, negb (has (fd_access x) all_access) || has (fd_sharing x) (2 ^ n)) others.
Proof.
  intros Hn Hall. unfold existing. revert Hall. generalize 0, (FILE_SHARE_ALL). induction others as [|x l IH]; intros z r Hr; cbn; [done|].
  destruct (has (fd_access x) all_access) eqn:Ha; cbn; [|by rewrite IH].
  destruct (has (fd_sharing x) (2 ^ n)) eqn:Hs; cbn; [by rewrite IH; [|rewrite has_land, Hr by done]|].
  assert (∀ r z, has r (2 ^ n) = false → has (fold_left (λ r x, (if has (fd_access x) all_access then Z.land r.1 (fd_sharing x)
    else r.1, Z.lor r.2 (fd_access x))) l (r, z)).1 (2 ^ n) = false) as H.
  { clear -Hn. induction l as [|x l IH]; intros r z Hr; cbn; [done|]. apply IH. destruct (has (fd_access x) all_access); [|done].
    by rewrite has_land, Hr by done. }
  apply H. by rewrite has_land, Hr, Hs by done.
Qed.

Lemma if_error (b : bool) e t : e ≠ 0 → (if b then e else t) = 0 ↔ b = false ∧ t = 0.
Proof. destruct b; naive_solver. Qed.

Lemma andb_negb_false a b : a && negb b = false ↔ (a = true → b = true).
Proof. destruct a, b; naive_solver. Qed.

Lemma andb_false_imp a b : a && b = false ↔ (a = true → b = false).
Proof. destruct a, b; naive_solver. Qed.

Lemma existsb_imp {A} (p : A → bool) (l : list A) (b v : bool) : (existsb p l = true → b = v) ↔ Forall (λ a, p a = true → b = v) l.
Proof.
  rewrite Forall_forall. setoid_rewrite existsb_exists. setoid_rewrite list_elem_of_In. naive_solver.
Qed.

Lemma forallb_imp {A} (p : A → bool) (l : list A) (b : bool) : (b = true → forallb p l = true) ↔ Forall (λ a, b = true → p a = true) l.
Proof. rewrite Forall_forall. setoid_rewrite forallb_forall. setoid_rewrite list_elem_of_In. naive_solver. Qed.

Lemma has_all a : has a all_access = has a read_access || has a write_access || has a DELETE.
Proof. unfold all_access. by rewrite !has_lor_r, orb_assoc. Qed.

Lemma allows_iff a s : allows a s = true ↔
  (has a read_access = true → has s FILE_SHARE_READ = true) ∧ (has a write_access = true → has s FILE_SHARE_WRITE = true) ∧
  (has a DELETE = true → has s FILE_SHARE_DELETE = true).
Proof.
  unfold allows. destruct (has a read_access), (has a write_access), (has a DELETE), (has s FILE_SHARE_READ), (has s FILE_SHARE_WRITE),
    (has s FILE_SHARE_DELETE); naive_solver.
Qed.

Lemma unless_error (b p : bool) e : e ≠ 0 → (if negb b then 0 else if p then e else 0) = 0 ↔ (b = true → p = false).
Proof. destruct b, p; naive_solver. Qed.

Lemma imp_and (P Q R : Prop) : (P → Q ∧ R) ↔ (P → Q) ∧ (P → R).
Proof. naive_solver. Qed.

Lemma imp_Forall {A} (P : Prop) (Q : A → Prop) l : (P → Forall Q l) ↔ Forall (λ a, P → Q a) l.
Proof. rewrite !Forall_forall. naive_solver. Qed.

(** The loop over the other opens decides whether the new one agrees with each of them. *)
Lemma sharing_error_ok others access sharing trunc options :
  sharing_error others access sharing trunc options = 0 ↔ Forall (may_open access sharing trunc options) others.
Proof.
  unfold sharing_error. pose proof (existing_access others) as Ea. pose proof (existing_sharing others) as Es.
  destruct (existing others) as [es ea]. cbn in Ea, Es. rewrite !if_error, unless_error, !orb_false_iff, !andb_negb_false, !andb_false_imp by done.
  change FILE_SHARE_READ with (2 ^ 0). change FILE_SHARE_WRITE with (2 ^ 1). change FILE_SHARE_DELETE with (2 ^ 2).
  rewrite !Ea, !Es by done. rewrite !imp_and, !existsb_imp, !forallb_imp, !imp_Forall, <-!Forall_and. apply Forall_iff. intros x.
  unfold may_open, modes_agree, mappings_agree. rewrite !allows_iff, !has_all.
  change FILE_SHARE_READ with (2 ^ 0). change FILE_SHARE_WRITE with (2 ^ 1). change FILE_SHARE_DELETE with (2 ^ 2).
  destruct (has access read_access), (has access write_access), (has access DELETE), (has (fd_access x) read_access),
    (has (fd_access x) write_access), (has (fd_access x) DELETE); cbn; naive_solver.
Qed.

(** The sharing modes of the opens of each file, [but] one, agree. *)
Definition modes_ok_but (but : option Z) (s : fd_state) : Prop :=
  ∀ f g x x' i, f ≠ g → but ≠ Some f → but ≠ Some g → st_fds s !! f = Some x → st_fds s !! g = Some x' →
    fd_inode x = Some i → fd_inode x' = Some i → modes_agree (fd_access x) (fd_sharing x) (fd_access x') (fd_sharing x').
Definition modes_ok : fd_state → Prop := modes_ok_but None.

Definition same_mode (x x' : fd) : Prop := fd_inode x' = fd_inode x ∧ fd_access x' = fd_access x ∧ fd_sharing x' = fd_sharing x.

Lemma modes_agree_sym a1 s1 a2 s2 : modes_agree a1 s1 a2 s2 → modes_agree a2 s2 a1 s1.
Proof. unfold modes_agree. naive_solver. Qed.

Lemma modes_ok_sub but s s' : modes_ok_but but s →
  (∀ f x', st_fds s' !! f = Some x' → but ≠ Some f ∧ ∃ x, st_fds s !! f = Some x ∧ same_mode x x') → modes_ok s'.
Proof.
  intros H Hsub f g x x' i Hne _ _ Hx Hx' Hi Hi'. destruct (Hsub f x Hx) as (? & z & Hz & (E1 & -> & ->)).
  destruct (Hsub g x' Hx') as (? & z' & Hz' & (E1' & -> & ->)). rewrite E1 in Hi. rewrite E1' in Hi'. by eapply (H f g).
Qed.

Lemma same_files_modes s s' : same_files s s' → modes_ok s → modes_ok s'.
Proof.
  intros Hs H. eapply modes_ok_sub; [done|]. intros f x' Hx'. split; [done|]. destruct (same_files_fd' _ _ _ _ Hs Hx') as (x & Hx & Hf).
  exists x. split; [done|]. by destruct (same_file_parts _ _ Hf) as (? & _ & ? & ?).
Qed.

Lemma fewer_files_modes f s s' : fewer_files f s s' → modes_ok_but (Some f) s → modes_ok s'.
Proof.
  intros Hs H. eapply modes_ok_sub; [done|]. intros g x' Hx'. destruct (Hs g x' Hx') as (? & x & Hx & Hf). split; [congruence|].
  exists x. split; [done|]. by destruct (same_file_parts _ _ Hf) as (? & _ & ? & ?).
Qed.

Lemma modes_ok_insert f s s' x : modes_ok s → st_fds s' = <[f := x]> (st_fds s) → modes_ok_but (Some f) s'.
Proof.
  intros H E g h y z i Hne ?? Hy Hz. rewrite E, lookup_insert_ne in Hy, Hz by congruence. by apply (H g h).
Qed.

Lemma modes_ok_but_insert f s s' x : modes_ok_but (Some f) s → st_fds s' = <[f := x]> (st_fds s) → modes_ok_but (Some f) s'.
Proof.
  intros H E g h y z i Hne ?? Hy Hz. rewrite E, lookup_insert_ne in Hy, Hz by congruence. by apply (H g h).
Qed.

(** An fd object without inode, or with a mode that was checked before. *)
Lemma modes_ok_put f s s' x : modes_ok_but (Some f) s → st_fds s' = <[f := x]> (st_fds s) →
  fd_inode x = None ∨ modes_ok s ∧ (∃ x0, st_fds s !! f = Some x0 ∧ same_mode x0 x) → modes_ok s'.
Proof.
  intros Hbut E [Hn|[H (x0 & Hx0 & Hs)]].
  - intros g h y z i Hne _ _ Hy Hz Hi Hj. rewrite E in Hy, Hz. apply lookup_insert_Some in Hy as [[-> <-]|[? Hy]]; [congruence|].
    apply lookup_insert_Some in Hz as [[-> <-]|[? Hz]]; [congruence|]. eapply (Hbut g h); by eauto || congruence.
  - eapply modes_ok_sub; [exact H|]. intros g z Hz. split; [done|]. rewrite E in Hz.
    apply lookup_insert_Some in Hz as [[-> <-]|[? Hz]]; [by exists x0|by exists z].
Qed.

(** ** Opening a file *)

Lemma get_inode_ok i s w : good s → wp (get_inode i) s w (λ ok s' _,
  good s' ∧ st_fds s' = st_fds s ∧ is_Some (st_inodes s' !! i) ∧ ok = true ∨ s' = s ∧ st_inodes s !! i = None ∧ ok = false).
Proof.
  intros Hg. unfold get_inode. rewrite wp_bind, wp_get. destruct (st_inodes s !! i) as [y|] eqn:Hy; [apply wp_ret; left; eauto|].
  rewrite wp_bind. apply wp_mem_alloc; intros w' _ _; rewrite wp_bind; [|apply wp_ret, wp_ret; by right].
  unfold put_inode. rewrite wp_modify. apply wp_ret. left. split; [|split_and!; [done|cbn; rewrite lookup_insert_eq; eauto|done]].
  pose proof (wf_opens s (proj1 Hg)) as [Hopen Hopened]. apply (regood_good s); [done|split|split]; cbn; try done.
  - intros g x ??. by exists x.
  - intros g x ??. by exists x.
  - intros j z Hz Hne. exists z. rewrite lookup_insert_ne by congruence. done.
  - intros j z [[-> <-]|[? Hz]]%lookup_insert_Some Hne; [done|]. by exists z.
  - intros g x j Hx Hj. destruct (Hopen g x j Hx Hj) as (z & Hz & ?). exists z. rewrite lookup_insert_ne by congruence. done.
  - intros j z [[-> <-]|[? Hz]]%lookup_insert_Some; [split; [constructor|]; intros g []%not_elem_of_nil|by apply Hopened].
Qed.

Lemma new_fd_ok inode c o u s w : good s → (∀ i, inode = Some i → is_Some (st_inodes s !! i)) →
  wp (new_fd inode c o u) s w (λ f s' w', w' = w ∧ good s' ∧ st_fds s !! f = None ∧
    st_fds s' = <[f := Fd inode c [] 0 0 o u true]> (st_fds s)).
Proof.
  intros Hg Hin. pose proof (wf_opens s (proj1 Hg)) as [Hopen Hopened]. pose proof (new_key_fresh (st_fds s)) as Hf.
  unfold new_fd. rewrite wp_bind, wp_get. cbn zeta. set (f := new_key (st_fds s)) in *. set (x := Fd inode c [] 0 0 o u true).
  unfold put_fd. rewrite wp_bind, wp_modify.
  assert (Hfwd : ∀ g z, st_fds s !! g = Some z → fd_locks z ≠ [] → ∃ z', <[f := x]> (st_fds s) !! g = Some z' ∧ same_owner z z').
  { intros g z Hz _. exists z. rewrite lookup_insert_ne by congruence. done. }
  assert (Hbwd : ∀ g z, <[f := x]> (st_fds s) !! g = Some z → fd_locks z ≠ [] → ∃ z', st_fds s !! g = Some z' ∧ same_owner z' z).
  { intros g z [[-> <-]|[? Hz]]%lookup_insert_Some Hne; [done|]. by exists z. }
  assert (Hold : ∀ j y' g, st_inodes s !! j = Some y' → g ∈ i_open y' → ∃ z, <[f := x]> (st_fds s) !! g = Some z ∧ fd_inode z = Some j).
  { intros j y' g Hy' Hg'. destruct (Hopened j y' Hy') as [_ Ho]. destruct (Ho g Hg') as (z & Hz & ?). exists z.
    rewrite lookup_insert_ne by congruence. done. }
  rewrite wp_bind. destruct inode as [i|].
  - destruct (Hin i eq_refl) as [y Hy]. unfold read_inode, put_inode. rewrite wp_bind, wp_bind, wp_get. cbn [st_inodes with_fds]. rewrite Hy.
    apply wp_ret. rewrite wp_modify. apply wp_ret. split_and!; [done| |done..].
    apply (regood_good s); [done|split|split]; cbn; try done.
    + intros j z Hz Hne. destruct (decide (i = j)) as [->|]; [rewrite lookup_insert_eq; simplify_eq; by eexists|].
      rewrite lookup_insert_ne by done. by exists z.
    + intros j z [[-> <-]|[? Hz]]%lookup_insert_Some Hne; [by exists y|by exists z].
    + intros g z j [[-> <-]|[? Hz]]%lookup_insert_Some Hj.
      * cbn in Hj. injection Hj as <-. eexists. rewrite lookup_insert_eq. split; [done|]. left.
      * destruct (Hopen g z j Hz Hj) as (y' & Hy' & ?). destruct (decide (i = j)) as [->|].
        -- simplify_eq. eexists. rewrite lookup_insert_eq. split; [done|]. by right.
        -- exists y'. by rewrite lookup_insert_ne.
    + intros j z [[-> <-]|[? Hz]]%lookup_insert_Some; cbn.
      * split; [constructor; [|by apply (Hopened j y)]|].
        -- intros Hfy. destruct (Hopened j y Hy) as [_ Ho]. destruct (Ho f Hfy) as (? & ? & _). congruence.
        -- intros g [->|Hg']%elem_of_cons; [exists x; by rewrite lookup_insert_eq|by eapply Hold].
      * split; [by apply (Hopened j z)|]. intros g Hg'. by eapply Hold.
  - apply wp_ret, wp_ret. split_and!; [done| |done..]. apply (regood_good s); [done|split|split]; cbn; try done.
    + eauto.
    + eauto.
    + intros g z j [[-> <-]|[? Hz]]%lookup_insert_Some Hj; [done|]. by apply (Hopen g z).
    + intros j z Hz. split; [by apply (Hopened j z)|]. intros g Hg'. by eapply Hold.
Qed.

Definition are_fds (s : fd_state) (fs : list Z) (xs : list fd) : Prop := Forall2 (λ f x, st_fds s !! f = Some x) fs xs.

Lemma wp_read_fds s w fs (Q : list fd → fd_state → world → Prop) : (∀ f, f ∈ fs → is_Some (st_fds s !! f)) →
  (∀ xs, are_fds s fs xs → Q xs s w) → wp (read_fds fs) s w Q.
Proof.
  revert Q. induction fs as [|f fs IH]; intros Q Hfs HQ; cbn [read_fds]; [apply wp_ret, HQ; constructor|].
  destruct (Hfs f) as [x Hx]; [left|]. rewrite wp_bind. unfold read_fd. rewrite wp_bind, wp_get, Hx. apply wp_ret.
  rewrite wp_bind. apply IH; [intros g Hg; apply Hfs; by right|]. intros xs Hxs. apply wp_ret, HQ. by constructor.
Qed.

Lemma check_sharing_ok f access sharing trunc options s w x i (Q : Z → fd_state → world → Prop) :
  wf s → st_fds s !! f = Some x → fd_inode x = Some i →
  (∀ y others, st_inodes s !! i = Some y → are_fds s (remove_id f (i_open y)) others →
     Q (sharing_error others access sharing trunc options) (with_fds (<[f := set_sharing access sharing x]> (st_fds s)) s) w) →
  wp (check_sharing f access sharing trunc options) s w Q.
Proof.
  intros Hwf Hx Hi HQ. destruct (wf_open s Hwf f x i Hx Hi) as (y & Hy & _). destruct (wf_inode s Hwf i y Hy) as (_ & _ & _ & Ho).
  unfold check_sharing, read_fd, put_fd, read_inode. rewrite wp_bind, wp_bind, wp_get, Hx. apply wp_ret. rewrite wp_bind, wp_modify, wp_bind, Hi.
  apply wp_ret. rewrite wp_bind, wp_bind, wp_get. cbn [st_inodes with_fds]. rewrite Hy. apply wp_ret. rewrite wp_bind. apply wp_read_fds.
  - intros g [Hne Hg]%elem_of_remove_id. destruct (Ho g Hg) as (z & Hz & _). exists z. cbn. by rewrite lookup_insert_ne.
  - intros others Hot. apply wp_ret, (HQ y); [done|]. unfold are_fds in *. rewrite Forall2_lookup in *. intros n.
    specialize (Hot n). inversion Hot as [g z Hz Hg Hz'|]; constructor. cbn in Hz. rewrite lookup_insert_ne in Hz; [done|].
    symmetry in Hg. apply list_elem_of_lookup_2, elem_of_remove_id in Hg as [? _]. auto.
Qed.

(** A check that succeeds makes the new modes agree with all others. *)
Lemma checked_modes s f x i y others access sharing trunc options :
  wf s → modes_ok_but (Some f) s → st_fds s !! f = Some x → fd_inode x = Some i → st_inodes s !! i = Some y →
  are_fds s (remove_id f (i_open y)) others → sharing_error others access sharing trunc options = 0 →
  modes_ok (with_fds (<[f := set_sharing access sharing x]> (st_fds s)) s).
Proof.
  intros Hwf Hm Hx Hi Hy Hot Herr%sharing_error_ok.
  assert (H : ∀ g z, f ≠ g → st_fds s !! g = Some z → fd_inode z = Some i → modes_agree access sharing (fd_access z) (fd_sharing z)).
  { intros g z Hne Hz Hzi. destruct (wf_open s Hwf g z i Hz Hzi) as (y' & Hy' & Hg). simplify_eq.
    assert (g ∈ remove_id f (i_open y)) as Hg' by (apply elem_of_remove_id; auto).
    apply list_elem_of_lookup in Hg' as [n Hn]. destruct (Forall2_lookup_l _ _ _ _ _ Hot Hn) as (z' & Hz' & E). simplify_eq.
    by destruct (Forall_lookup_1 _ _ _ _ Herr Hz') as [? _]. }
  intros g h z z' j Hne _ _ Hz Hz' Hj Hj'. cbn in Hz, Hz'.
  destruct (decide (f = g)) as [<-|], (decide (f = h)) as [<-|]; rewrite ?lookup_insert_eq, ?lookup_insert_ne in Hz by done;
    rewrite ?lookup_insert_eq, ?lookup_insert_ne in Hz' by done; simplify_eq; cbn in *; simplify_eq.
  - by eapply H.
  - apply modes_agree_sym. by eapply H.
  - eapply (Hm g h); by eauto || congruence.
Qed.

Lemma open_fails e f x s w : good s → modes_ok_but (Some f) s → st_fds s !! f = Some x →
  wp (set_error e >> fd_destroy f >> ret (@None Z)) s w (λ _ s' _, good s' ∧ modes_ok s').
Proof.
  intros Hg Hm Hx. rewrite wp_bind, wp_set_error, wp_bind. eapply wp_mono; [by eapply fd_destroy_ok|].
  intros [] s' w' [Hg' Hs]. apply wp_ret. split; [done|]. by eapply fewer_files_modes.
Qed.

(** The check of the modes for a new fd object, and what follows when it is accepted. *)
Lemma checked_open f i c o u access sharing trunc options s w (next : F (option Z)) :
  good s → modes_ok_but (Some f) s → st_fds s !! f = Some (Fd (Some i) c [] 0 0 o u true) →
  (∀ s' w', good s' → modes_ok s' → st_fds s' !! f = Some (Fd (Some i) c [] access sharing o u true) →
     wp next s' w' (λ _ s' _, good s' ∧ modes_ok s')) →
  wp (let* err := check_sharing f access sharing trunc options in if truth err then set_error err >> fd_destroy f >> ret None else next)
     s w (λ _ s' _, good s' ∧ modes_ok s').
Proof.
  intros Hg Hm Hx Hnext. rewrite wp_bind. eapply check_sharing_ok; [apply Hg|done..|]. intros y others Hy Hot.
  assert (Hg' : good (with_fds (<[f := Fd (Some i) c [] access sharing o u true]> (st_fds s)) s)) by by eapply put_fd_good.
  destruct (truth _) eqn:E.
  - eapply open_fails; [exact Hg'| |apply lookup_insert_eq]. by eapply modes_ok_but_insert.
  - apply Hnext; [done| |apply lookup_insert_eq]. change (Fd (Some i) c [] access sharing o u true) with
      (set_sharing access sharing (Fd (Some i) c [] 0 0 o u true)). eapply checked_modes; [apply Hg|done..|exact Hy|exact Hot|].
    by apply negb_false_iff, Z.eqb_eq in E.
Qed.


Lemma closes_good i s s' : good s → st_inodes s !! i = None → closes i s s' → good s'.
Proof.
  intros Hg Hi (cs & -> & Hcs). apply (regood_good s); [done|split|exact (wf_opens s (proj1 Hg))]; cbn; try done; eauto.
  - intros f x ??. by exists x.
  - intros f x ??. by exists x.
  - intros j y b Hy _. apply Hcs. intros ->. congruence.
Qed.

Lemma open_fd_ok i u name is_dir writable creat trunc access sharing options s w : good s → modes_ok s →
  wp (open_fd i u name is_dir writable creat trunc access sharing options) s w (λ _ s' _, good s' ∧ modes_ok s').
Proof.
  intros Hg Hm. unfold open_fd. rewrite wp_bind. eapply wp_mono; [by apply get_inode_ok|].
  intros ok s1 w1 [(Hg1 & Ef & Hin & ->)|(-> & Hno & ->)]; cbn [negb].
  2: { rewrite wp_bind. apply record_closes. intros s' Hs'. apply wp_ret. split; [by eapply closes_good|].
       destruct Hs' as (cs & -> & _). exact Hm. }
  assert (Hm1 : modes_ok s1) by (unfold modes_ok, modes_ok_but; by rewrite Ef).
  rewrite wp_bind. eapply wp_mono; [apply new_fd_ok; [done|by intros ? [= <-]]|]. intros f s2 w2 (-> & Hg2 & Hf & Ef2). cbn zeta.
  assert (Hm2 : modes_ok_but (Some f) s2) by by eapply modes_ok_insert.
  assert (Hx2 : st_fds s2 !! f = Some (Fd (Some i) (ClosedFd u 0 name) [] 0 0 options u true)) by by rewrite Ef2, lookup_insert_eq.
  destruct (_ && _); [by eapply open_fails|]. destruct (_ && _); [by eapply open_fails|].
  eapply checked_open; [done..|]. intros s3 w3 Hg3 Hm3 Hx3.
  assert (Hb3 : modes_ok_but (Some f) s3) by (intros ? ? ? ? ? ? _ _; by apply Hm3).
  destruct (_ && _ && _); [by eapply open_fails|]. unfold read_fd, put_fd. rewrite wp_bind, wp_bind, wp_get, Hx3. apply wp_ret.
  rewrite wp_bind, wp_modify. set (x4 := set_disp_flags _ _).
  pose proof (put_fd_good s3 f _ x4 Hg3 Hx3 ltac:(done)) as Hg4.
  destruct (_ && _).
  - eapply open_fails; [done|by eapply modes_ok_but_insert|apply lookup_insert_eq].
  - apply wp_ret. split; [done|]. eapply modes_ok_put; [exact Hb3|done|]. right. split; [done|]. by eexists.
Qed.

Lemma dup_fd_object_ok f r access sharing options s w x : good s → modes_ok s → st_fds s !! f = Some x →
  wp (dup_fd_object f r access sharing options) s w (λ _ s' _, good s' ∧ modes_ok s').
Proof.
  intros Hg Hm Hx. unfold dup_fd_object, read_fd. rewrite wp_bind, wp_bind, wp_get, Hx. apply wp_ret. destruct (fd_inode x) as [i|] eqn:Hi.
  - rewrite wp_bind. apply wp_mem_alloc; intros w' _ _; cbn [negb]; [|by apply wp_ret].
    destruct r as [u|e]; [|unfold file_set_error; rewrite wp_bind, wp_set_error; by apply wp_ret].
    destruct (wf_open s (proj1 Hg) f x i Hx Hi) as (y & Hy & _).
    rewrite wp_bind. eapply wp_mono; [apply new_fd_ok; [done|intros ? [= <-]; eauto]|]. intros g s2 w2 (-> & Hg2 & Hf & Ef2).
    eapply checked_open; [done|by eapply modes_ok_insert|by rewrite Ef2, lookup_insert_eq|]. intros. by apply wp_ret.
  - destruct r as [u|e]; [|unfold file_set_error; rewrite wp_bind, wp_set_error; by apply wp_ret].
    rewrite wp_bind. eapply wp_mono; [by apply new_fd_ok|]. intros g s2 w2 (-> & Hg2 & Hf & Ef2). apply wp_ret. split; [done|].
    eapply modes_ok_put; [|exact Ef2|by left]. intros ? ? ? ? ? ? _ _. by apply Hm.
Qed.

Lemma set_fd_disposition_ok f flags st s w x : good s → modes_ok s → st_fds s !! f = Some x →
  wp (set_fd_disposition f flags st) s w (λ _ s' _, good s' ∧ modes_ok s').
Proof.
  intros Hg Hm Hx. unfold set_fd_disposition. unfold read_fd at 1. rewrite wp_bind, wp_bind, wp_get, Hx. apply wp_ret.
  destruct (fd_inode x) as [i|] eqn:Hi; [|by rewrite wp_set_error].
  rewrite wp_bind. apply (wp_mono _ _ _ (λ _ s' w', s' = s ∧ w' = w)).
  - case_match; [|by apply wp_ret]. destruct (wf_open s (proj1 Hg) f x i Hx Hi) as (y & Hy & _).
    destruct (wf_inode s (proj1 Hg) i y Hy) as (_ & _ & _ & Ho). unfold read_inode. rewrite wp_bind, wp_bind, wp_get, Hy. apply wp_ret.
    rewrite wp_bind. apply wp_read_fds; [|intros; by apply wp_ret]. intros g Hg'. destruct (Ho g Hg') as (z & ? & _). eauto.
  - intros err ?? [-> ->]. case_match; [by rewrite wp_set_error|]. cbn zeta. unfold put_fd. rewrite wp_modify.
    split; [by eapply put_fd_good|]. eapply modes_ok_put; [|done|].
    + intros ? ? ? ? ? ? _ _. by apply Hm.
    + right. split; [done|]. by eexists.
Qed.

(** ** Locking and unlocking *)

(** The state after [k] is put on the three lists. *)
Definition enlist (k : Z) (l : file_lock) (i p : Z) (x : fd) (y : inode) (s : fd_state) : fd_state :=
  with_procs (<[p := process_locks s p ++ [k]]> (st_procs s))
    (with_inodes (<[i := set_i_locks (i_locks y ++ [k]) y]> (st_inodes s))
      (with_fds (<[lk_fd l := set_fd_locks (fd_locks x ++ [k]) x]> (st_fds s))
        (with_locks (<[k := l]> (st_locks s)) s))).

Section Enlist.
Context (s : fd_state) (k : Z) (l : file_lock) (i p : Z) (x : fd) (y : inode).
Context (Hg : good s) (Hk : st_locks s !! k = None) (Hx : st_fds s !! lk_fd l = Some x) (Hi : fd_inode x = Some i)
  (Hy : st_inodes s !! i = Some y) (Hp : lk_process l = Some p) (Hr : lock_range l).
#[local] Abbreviation s' := (enlist k l i p x y s).

Lemma enlist_listed j k' : listed s' j k' ↔ listed s j k' ∨ j = i ∧ k' = k.
Proof.
  unfold listed. cbn. destruct (decide (i = j)) as [<-|Hne].
  - rewrite lookup_insert_eq. split.
    + intros (y' & [= <-] & H). cbn in H. apply elem_of_app in H as [?| ->%list_elem_of_singleton]; [left; by exists y|by right].
    + intros [(y' & Hy' & ?)|[_ ->]]; eexists; (split; [done|]); cbn; apply elem_of_app; [left; by simplify_eq|right; left].
  - rewrite lookup_insert_ne by done. split; [by left|]. intros [?|[-> _]]; done.
Qed.

Lemma enlist_fd g z : st_fds s' !! g = Some z → ∃ z0, st_fds s !! g = Some z0 ∧ fd_inode z = fd_inode z0 ∧ fd_fs_locks z = fd_fs_locks z0 ∧
  ∀ k', k' ∈ fd_locks z ↔ k' ∈ fd_locks z0 ∨ k' = k ∧ g = lk_fd l.
Proof.
  cbn. intros [[<- <-]|[? Hz]]%lookup_insert_Some.
  - exists x. split_and!; [done..|]. intros k'. cbn. rewrite elem_of_app, list_elem_of_singleton. naive_solver.
  - exists z. split_and!; [done..|]. intros k'. naive_solver.
Qed.

Lemma enlist_fd' g z0 : st_fds s !! g = Some z0 → ∃ z, st_fds s' !! g = Some z ∧ fd_inode z = fd_inode z0 ∧ fd_fs_locks z = fd_fs_locks z0 ∧
  ∀ k', k' ∈ fd_locks z ↔ k' ∈ fd_locks z0 ∨ k' = k ∧ g = lk_fd l.
Proof.
  intros Hz. destruct (decide (lk_fd l = g)) as [<-|].
  - eexists. cbn. rewrite lookup_insert_eq. simplify_eq. split_and!; [done..|]. intros k'. cbn. rewrite elem_of_app, list_elem_of_singleton. naive_solver.
  - exists z0. cbn. rewrite lookup_insert_ne by done. split_and!; [done..|]. intros k'. naive_solver.
Qed.

Lemma enlist_process q k' : k' ∈ process_locks s' q ↔ k' ∈ process_locks s q ∨ k' = k ∧ q = p.
Proof.
  unfold process_locks at 1. cbn. destruct (decide (p = q)) as [<-|].
  - rewrite lookup_insert_eq. cbn. rewrite elem_of_app, list_elem_of_singleton. naive_solver.
  - rewrite lookup_insert_ne by done. fold (process_locks s q). naive_solver.
Qed.

Lemma enlist_owned j k' l' z q : owned s j k' l' z q → ∃ z', owned s' j k' l' z' q ∧ fd_fs_locks z' = fd_fs_locks z ∧
  ∀ k2, k2 ∈ fd_locks z' ↔ k2 ∈ fd_locks z ∨ k2 = k ∧ lk_fd l' = lk_fd l.
Proof.
  intros (Hl & Hq & Hz & Hj). destruct (enlist_fd' _ _ Hz) as (z' & Hz' & Ei & ? & ?). exists z'. split; [|done].
  split_and!; [|done..|by rewrite Ei]. cbn. rewrite lookup_insert_ne; [done|]. intros ->. congruence.
Qed.

Lemma enlist_new : ∃ z, owned s' i k l z p ∧ k ∈ fd_locks z ∧ fd_fs_locks z = fd_fs_locks x.
Proof.
  destruct (enlist_fd' _ _ Hx) as (z & Hz & Ei & ? & Hks). exists z. split; [split_and!; [|done|done|by rewrite Ei]|].
  - cbn. by rewrite lookup_insert_eq.
  - split; [|done]. apply Hks. by right.
Qed.

Lemma listed_old j k' : listed s j k' → k' ≠ k.
Proof. intros H ->. destruct (wf_listed s (proj1 Hg) j k H) as (? & ? & ? & (? & _) & _). congruence. Qed.

Lemma enlist_wf : Forall (λ k', ∀ l', st_locks s !! k' = Some l' → conflicts (lk_fd l) (lk_shared l) (lk_start l) (lk_end l) l' = false) (i_locks y) →
  wf s'.
Proof.
  intros Hc. destruct Hg as [Hwf _]. pose proof (wf_opens s Hwf) as [Hopen Hopened]. destruct enlist_new as (z1 & Hown1 & Hk1 & _). split.
  - intros g z j Hz Hj. destruct (enlist_fd _ _ Hz) as (z0 & Hz0 & E & _). rewrite E in Hj. destruct (Hopen g z0 j Hz0 Hj) as (y' & Hy' & ?).
    cbn. destruct (decide (i = j)) as [<-|]; [rewrite lookup_insert_eq; simplify_eq; by eexists|rewrite lookup_insert_ne by done; by eexists].
  - intros g z k' Hz Hk'. destruct (enlist_fd _ _ Hz) as (z0 & Hz0 & _ & _ & E). rewrite E in Hk'. destruct Hk' as [Hk'|[-> ->]].
    + destruct (wf_fd s Hwf g z0 k' Hz0 Hk') as (j & l' & q & Hj & How & Hf). destruct (enlist_owned _ _ _ _ _ How) as (z' & How' & _).
      exists j, l', q. rewrite enlist_listed. split; [by left|]. split; [|done]. destruct (How') as (? & ? & Hz' & ?). rewrite Hf in Hz'. by simplify_eq.
    + exists i, l, p. rewrite enlist_listed. split; [by right|]. split; [|done]. destruct (Hown1) as (? & ? & Hz' & ?). by simplify_eq.
  - intros q k' [Hq|[-> ->]]%enlist_process.
    + destruct (wf_process s Hwf q k' Hq) as (j & l' & z & Hj & How). destruct (enlist_owned _ _ _ _ _ How) as (z' & How' & _).
      exists j, l', z'. rewrite enlist_listed. auto.
    + exists i, l, z1. rewrite enlist_listed. auto.
  - assert (Ho : ∀ j y', st_inodes s !! j = Some y' → NoDup (i_open y') ∧ ∀ g, g ∈ i_open y' → ∃ z, st_fds s' !! g = Some z ∧ fd_inode z = Some j).
    { intros j y' Hy'. destruct (Hopened j y' Hy') as [? Ho]. split; [done|]. intros g Hg'. destruct (Ho g Hg') as (z & Hz & ?).
      destruct (enlist_fd' _ _ Hz) as (z' & ? & E & _). exists z'. by rewrite E. }
    assert (Hcomp : ∀ j y', st_inodes s !! j = Some y' → StronglySorted (compatible s') (i_locks y')).
    { intros j y' Hy'. destruct (wf_inode s Hwf j y' Hy') as (_ & _ & Hs & _). eapply sorted_weaken; [|exact Hs].
      assert (∀ a, a ∈ i_locks y' → a ≠ k) as Hold by (intros a Ha; apply (listed_old j); by exists y').
      intros a b Ha%Hold Hb%Hold Hab l1 l2. cbn. rewrite !lookup_insert_ne by done. apply Hab. }
    intros j y' Hy'. cbn in Hy'. apply lookup_insert_Some in Hy' as [[<- <-]|[? Hy']]; cbn.
    + destruct (Ho i y Hy). destruct (wf_inode s Hwf i y Hy) as (_ & Hnd & _). split; [done|]. split; [|split; [|done]].
      * apply NoDup_app. split; [done|]. split; [|apply NoDup_singleton]. intros a Ha ->%list_elem_of_singleton.
        by apply (listed_old i k); [exists y|].
      * apply sorted_snoc; [by apply (Hcomp i)|]. rewrite Forall_forall in *. intros a Ha l1 l2. cbn. rewrite lookup_insert_eq.
        intros Hl1 [= <-]. rewrite lookup_insert_ne in Hl1 by (intros <-; by apply (listed_old i k); [exists y|]). by apply (Hc a).
    + destruct (Ho j y' Hy'). destruct (wf_inode s Hwf j y' Hy') as (_ & Hnd & _). split_and!; [done..|by apply (Hcomp j)|done].
  - intros j k' [Hj|[-> ->]]%enlist_listed.
    + destruct (wf_listed s Hwf j k' Hj) as (l' & z & q & How & ? & Hkz & Hq). destruct (enlist_owned _ _ _ _ _ How) as (z' & How' & _ & E).
      exists l', z', q. rewrite E, enlist_process. auto.
    + exists l, z1, p. rewrite enlist_process. auto 6.
Qed.

Lemma enlist_protected : (fd_fs_locks x = true → nonempty l → ∀ b, covers l b → b ≤ max_unix_offset s → held (st_calls s) i b = true) →
  protected s'.
Proof.
  intros Hheld j k' l' z q b [Hj|[-> ->]]%enlist_listed (Hl & Hq & Hz & Hzj) Hfs Hn Hc Hb; cbn in Hl, Hb |- *.
  - rewrite lookup_insert_ne in Hl by (intros <-; by apply (listed_old j k)). destruct (enlist_fd _ _ Hz) as (z0 & Hz0 & Ei & Ef & _).
    apply (proj2 Hg j k' l' z0 q b); [done|split_and!; [done..|by rewrite <-Ei]|by rewrite <-Ef|done..].
  - rewrite lookup_insert_eq in Hl. injection Hl as <-. destruct (enlist_fd _ _ Hz) as (z0 & Hz0 & Ei & Ef & _).
    assert (z0 = x) as -> by congruence. apply Hheld; [by rewrite <-Ef|done..].
Qed.
End Enlist.

Lemma lock_good f i start end_ type s w ok s' w' : good s → is_unlock type = false → lock_post f i start end_ type s w ok s' w' → good s'.
Proof.
  intros Hg Ht (Hs & _ & _ & Hout & _ & _ & Hkeep & _). eapply sys_good; [done..|]. intros j k l b Hk Hl Hn Hc Hb Hh.
  destruct (decide (j = i)) as [->|]; [|by rewrite Hout; auto]. destruct (Hkeep b Hh) as [?|E]; [done|]. by rewrite Ht in E.
Qed.

(** The locks of the file, none of which conflicts. *)
Definition no_conflict (s : fd_state) (f : Z) (shared : bool) (start end_ : Z) (ks : list Z) : Prop :=
  Forall (λ k, ∀ l, st_locks s !! k = Some l → conflicts f shared start end_ l = false) ks.

Lemma add_lock_ok p f shared start end_ s w x i y : good s → st_fds s !! f = Some x → fd_inode x = Some i → st_inodes s !! i = Some y →
  lock_range (Lock f shared start end_ (Some p) false) → no_conflict s f shared start end_ (i_locks y) →
  wp (add_lock p f shared start end_) s w (λ r s' _, good s' ∧ same_files s s' ∧ match r with
    | Some k => st_locks s' !! k = Some (Lock f shared start end_ (Some p) false) ∧ listed s' i k
    | None => st_locks s' = st_locks s ∧ st_inodes s' = st_inodes s ∧ ∀ j b, held (st_calls s') j b = held (st_calls s) j b
    end).
Proof.
  intros Hg Hx Hi Hy Hr Hc. unfold add_lock. pose proof (same_files_refl s).
  rewrite wp_bind. apply wp_mem_alloc; intros w1 _ _; cbn [negb]; [|by apply wp_ret].
  rewrite wp_bind. apply wp_mem_alloc; intros w2 _ _; cbn [negb]; [|by apply wp_ret].
  unfold read_fd at 1. rewrite wp_bind, wp_bind, wp_get, Hx. apply wp_ret. rewrite wp_bind, Hi. apply wp_ret.
  rewrite wp_bind. set (type := if shared then F_RDLCK else F_WRLCK). assert (is_unlock type = false) as Ht by by destruct shared.
  destruct (Hr) as (_ & _ & Hr3). eapply wp_mono; [eapply set_unix_lock_ok; [done|exact Hr3]|].
  intros ok s1 w3 Hpost. pose proof (lock_good _ _ _ _ _ _ _ _ _ _ Hg Ht Hpost) as Hg1.
  destruct Hpost as (Hs1 & _ & _ & _ & Hin & _ & _ & Hfail). destruct (sys_step_lists _ _ _ Hs1) as (El & Ei & Ep).
  pose proof (sys_step_same_files _ _ _ Hs1) as Hsf.
  destruct ok; cbn [negb]; [|apply wp_ret; by split_and!; [..|apply Hfail]].
  destruct (sys_step_fd _ _ _ _ Hs1 Hx) as (fs & Hx1 & _). set (x1 := set_fs_locks fs x) in *.
  rewrite wp_bind, wp_get. cbn zeta. set (k := new_key (st_locks s1)). set (l := Lock f shared start end_ (Some p) false) in *.
  unfold put_lock, read_fd, put_fd, read_inode, put_inode, put_process. rewrite wp_bind, wp_modify.
  rewrite wp_bind, wp_bind, wp_get. cbn [st_fds with_locks]. rewrite Hx1. apply wp_ret. rewrite wp_bind, wp_modify.
  rewrite wp_bind, wp_bind, wp_get. cbn [st_inodes with_fds with_locks]. rewrite Ei, Hy. apply wp_ret. rewrite wp_bind, wp_modify, wp_bind, wp_modify.
  apply wp_ret. rewrite <-Ei in Hy.
  match goal with |- good ?s' ∧ _ => change s' with (enlist k l i p x1 y s1) end.
  assert (Hk : st_locks s1 !! k = None) by apply new_key_fresh. split; [split|split_and!].
  - apply enlist_wf; try done. by rewrite El.
  - apply enlist_protected; try done. intros Hfs Hn b Hb Hm. rewrite Hin; [by rewrite Ht|done|done|by exists x1|done|done].
  - eapply same_files_trans; [exact Hsf|]. intros g. cbn. destruct (decide (f = g)) as [<-|].
    + rewrite lookup_insert_eq, Hx1. by constructor.
    + rewrite lookup_insert_ne by done. apply same_files_refl.
  - cbn. by rewrite lookup_insert_eq.
  - rewrite enlist_listed by done. by right.
Qed.

Lemma wp_find_conflict f shared start end_ ks s w (Q : option Z → fd_state → world → Prop) :
  Forall (λ k, is_Some (st_locks s !! k)) ks →
  (∀ k l, k ∈ ks → st_locks s !! k = Some l → conflicts f shared start end_ l = true → Q (Some k) s w) →
  (no_conflict s f shared start end_ ks → Q None s w) → wp (find_conflict f shared start end_ ks) s w Q.
Proof.
  intros Hks. induction Hks as [|k ks [l Hl] Hks IH]; intros Hyes Hno; cbn [find_conflict]; [apply wp_ret, Hno; constructor|].
  unfold read_lock. rewrite wp_bind, wp_bind, wp_get, Hl. apply wp_ret. destruct (conflicts _ _ _ _ l) eqn:E.
  - apply wp_ret. eapply Hyes; [left|done..].
  - apply IH; [intros k' l' ?; apply Hyes; by right|]. intros Hn. apply Hno. constructor; [|done]. intros l' Hl'. by simplify_eq.
Qed.

Lemma lock_fd_ok p f start count shared wait s w x : good s → st_fds s !! f = Some x →
  0 ≤ start ≤ FILE_POS_T_MAX → 0 ≤ count ≤ FILE_POS_T_MAX →
  wp (lock_fd p f start count shared wait) s w (λ _ s' _, good s' ∧ same_files s s').
Proof.
  intros Hg Hx Hs Hc. pose proof (same_files_refl s). unfold lock_fd, read_fd. rewrite wp_bind, wp_bind, wp_get, Hx. apply wp_ret.
  assert (0 ≤ u64 (start + count) ≤ FILE_POS_T_MAX) as He.
  { unfold u64, FILE_POS_T_MAX. pose proof (Z.mod_pos_bound (start + count) 18446744073709551616). lia. }
  cbn zeta. set (e := u64 (start + count)) in *. destruct (fd_inode x) as [i|] eqn:Hi; [|rewrite wp_bind, wp_set_error; by apply wp_ret].
  destruct (truth e && (e <? start)) eqn:Hov; [rewrite wp_bind, wp_set_error; by apply wp_ret|].
  assert (Hr : lock_range (Lock f shared start e (Some p) false)).
  { split_and!; cbn; try lia. apply andb_false_iff in Hov as [Hov%negb_false_iff%Z.eqb_eq|Hov%Z.ltb_ge]; lia. }
  destruct (wf_open s (proj1 Hg) f x i Hx Hi) as (y & Hy & _).
  unfold read_inode. rewrite wp_bind, wp_bind, wp_get, Hy. apply wp_ret. rewrite wp_bind. apply wp_find_conflict.
  - apply Forall_forall. intros k Hk. destruct (wf_listed s (proj1 Hg) i k) as (l & ? & ? & (Hl & _) & _); [by exists y|]. eauto.
  - intros k l _ _ _. destruct wait; rewrite wp_bind, wp_set_error; by apply wp_ret.
  - intros Hno. rewrite wp_bind. eapply wp_mono; [by eapply add_lock_ok|]. intros r s1 w1 (Hg1 & Hs1 & _).
    destruct r; [by apply wp_ret|]. rewrite wp_bind, wp_get_error, wp_bind. case_match; [rewrite wp_set_error|apply wp_ret]; by apply wp_ret.
Qed.

Lemma wp_find_exact start end_ ks s w (Q : option Z → fd_state → world → Prop) :
  Forall (λ k, is_Some (st_locks s !! k)) ks → (∀ k, k ∈ ks → Q (Some k) s w) → Q None s w → wp (find_exact start end_ ks) s w Q.
Proof.
  intros Hks. induction Hks as [|k ks [l Hl] Hks IH]; intros Hyes Hno; cbn [find_exact]; [by apply wp_ret|].
  unfold read_lock. rewrite wp_bind, wp_bind, wp_get, Hl. apply wp_ret. case_match.
  - apply wp_ret, Hyes. left.
  - apply IH; [intros ??; apply Hyes; by right|done].
Qed.

Lemma unlock_fd_ok f start count s w x : good s → st_fds s !! f = Some x →
  wp (unlock_fd f start count) s w (λ _ s' _, good s' ∧ same_files s s').
Proof.
  intros Hg Hx. unfold unlock_fd, read_fd. rewrite wp_bind, wp_bind, wp_get, Hx. apply wp_ret. rewrite wp_bind. apply wp_find_exact.
  - apply Forall_forall. intros k Hk. destruct (wf_fd s (proj1 Hg) f x k Hx Hk) as (? & l & ? & _ & (Hl & _) & _). eauto.
  - intros k Hk. destruct (wf_fd s (proj1 Hg) f x k Hx Hk) as (i & l & p & Hli & How & _).
    eapply wp_mono; [by eapply remove_lock_ok|]. intros [] s' w' [Hg' Hun]. split; [done|]. by eapply unlisted_same_files.
  - rewrite wp_set_error. split; [done|apply same_files_refl].
Qed.

(** ** Requests *)

Inductive file_op :=
  | OpenFile (i unix_fd : Z) (name : list Z) (is_dir writable creat trunc : bool) (access sharing options : Z)
  | AnonymousFile (unix_fd options : Z)
  | DupFile (f : Z) (unix_fd : Z + errno) (access sharing options : Z)
  | CloseFile (f : Z)
  | LockFile (p f start count : Z) (shared wait : bool)
  | UnlockFile (f start count : Z)
  | ExitProcess (p : Z)
  | SetDisposition (f flags : Z) (st : file_stat).

Definition run_op (op : file_op) : F unit :=
  match op with
  | OpenFile i u name is_dir writable creat trunc access sharing options =>
      open_fd i u name is_dir writable creat trunc access sharing options >> ret tt
  | AnonymousFile u options => new_fd None (ClosedFd u 0 []) options u >> ret tt
  | DupFile f r access sharing options => dup_fd_object f r access sharing options >> ret tt
  | CloseFile f => fd_destroy f
  | LockFile p f start count shared wait => lock_fd p f start count shared wait >> ret tt
  | UnlockFile f start count => unlock_fd f start count
  | ExitProcess p => remove_process_locks p
  | SetDisposition f flags st => set_fd_disposition f flags st
  end.
(** The fd object exists; the offset and count of a lock are 64-bit numbers. *)
Definition allowed (s : fd_state) (op : file_op) : Prop :=
  match op with
  | OpenFile _ _ _ _ _ _ _ _ _ _ | AnonymousFile _ _ | ExitProcess _ => True
  | DupFile f _ _ _ _ | CloseFile f | UnlockFile f _ _ | SetDisposition f _ _ => is_Some (st_fds s !! f)
  | LockFile _ f start count _ _ => is_Some (st_fds s !! f) ∧ 0 ≤ start ≤ FILE_POS_T_MAX ∧ 0 ≤ count ≤ FILE_POS_T_MAX
  end.

Definition no_files (results : list (option errno)) : fd_state := FdState ∅ ∅ ∅ ∅ OFF_T_MAX [] results.
Inductive reachable : fd_state → Prop :=
  | reach_start results : reachable (no_files results)
  | reach_step s w op s' w' : reachable s → allowed s op → run_op op s w = Some (tt, s', w') → reachable s'.

Lemma no_files_good results : good (no_files results) ∧ modes_ok (no_files results).
Proof.
  split; [split; [split|]|]; unfold process_locks; cbn; try (intros; set_solver).
  - intros i k (y & Hy & _). by cbn in Hy.
  - intros i k l x p b (y & Hy & _). by cbn in Hy.
  - by intros f g x x' i _ _ _ Hx.
Qed.

Lemma run_op_ok op s w : good s → modes_ok s → allowed s op → wp (run_op op) s w (λ _ s' _, good s' ∧ modes_ok s').
Proof.
  intros Hg Hm Ha. assert (Hsame : ∀ s', good s' ∧ same_files s s' → good s' ∧ modes_ok s').
  { intros s' [? Hs]. split; [done|]. by eapply same_files_modes. }
  destruct op; cbn [run_op]; cbn in Ha.
  - rewrite wp_bind. eapply wp_mono; [by apply open_fd_ok|]. intros. by apply wp_ret.
  - rewrite wp_bind. eapply wp_mono; [by apply new_fd_ok|]. intros f s' w' (_ & Hg' & _ & Ef). apply wp_ret. split; [done|].
    eapply modes_ok_put; [|exact Ef|by left]. intros ? ? ? ? ? ? _ _. by apply Hm.
  - destruct Ha as [x Hx]. rewrite wp_bind. eapply wp_mono; [by eapply dup_fd_object_ok|]. intros. by apply wp_ret.
  - destruct Ha as [x Hx]. eapply wp_mono; [by eapply fd_destroy_ok|]. intros [] s' w' [? Hs]. split; [done|].
    eapply fewer_files_modes; [done|]. intros ? ? ? ? ? ? _ _. by apply Hm.
  - destruct Ha as ([x Hx] & ? & ?). rewrite wp_bind. eapply wp_mono; [by eapply lock_fd_ok|]. intros. by apply wp_ret, Hsame.
  - destruct Ha as [x Hx]. eapply wp_mono; [by eapply unlock_fd_ok|]. intros. by apply Hsame.
  - eapply wp_mono; [by apply remove_process_locks_ok|]. intros [] s' w' (? & ? & _). by apply Hsame.
  - destruct Ha as [x Hx]. by eapply set_fd_disposition_ok.
Qed.

Lemma reachable_ok s : reachable s → good s ∧ modes_ok s.
Proof.
  induction 1 as [results|s w op s' w' _ [Hg Hm] Ha E]; [apply no_files_good|].
  pose proof (run_op_ok op s w Hg Hm Ha) as H. by rewrite (wp_run _ _ _ _ _ _ E) in H.
Qed.

(** ** What the locks of a file guarantee *)

Lemma sorted_either {A} (R : A → A → Prop) (l : list A) a b : StronglySorted R l → a ∈ l → b ∈ l → a ≠ b → R a b ∨ R b a.
Proof.
  intros Hl. induction l as [|c l IH]; [by intros ?%not_elem_of_nil|]. apply StronglySorted_cons in Hl as [Hc Hl].
  rewrite Forall_forall in Hc. intros [->|Ha]%elem_of_cons [->|Hb]%elem_of_cons Hne; [done|left; auto|right; auto|by apply IH].
Qed.

Lemma compatible_covers s k1 k2 l1 l2 b : compatible s k1 k2 → st_locks s !! k1 = Some l1 → st_locks s !! k2 = Some l2 →
  covers l1 b → covers l2 b → lk_shared l2 = true ∧ (lk_shared l1 = true ∨ lk_fd l1 = lk_fd l2).
Proof.
  intros Hc Hl1 Hl2 [Hs1 He1] [Hs2 He2]. specialize (Hc l1 l2 Hl1 Hl2). unfold conflicts in Hc.
  assert (lock_overlaps l1 (lk_start l2) (lk_end l2) = true) as Ho.
  { unfold lock_overlaps, truth. destruct (Z.eqb_spec (lk_end l1) 0), (Z.eqb_spec (lk_end l2) 0), (Z.leb_spec (lk_end l1) (lk_start l2)),
      (Z.leb_spec (lk_end l2) (lk_start l1)); cbn; lia. }
  rewrite Ho in Hc. cbn in Hc. apply negb_false_iff, andb_true_iff in Hc as [? [?|?%Z.eqb_eq]%orb_true_iff]; auto.
Qed.

Lemma locks_exclude s i k1 k2 l1 l2 b : wf s → listed s i k1 → listed s i k2 → k1 ≠ k2 → st_locks s !! k1 = Some l1 → st_locks s !! k2 = Some l2 →
  covers l1 b → covers l2 b → lk_shared l1 || lk_shared l2 = true ∧ (lk_fd l1 ≠ lk_fd l2 → lk_shared l1 && lk_shared l2 = true).
Proof.
  intros Hwf (y & Hy & H1) (y' & Hy' & H2) Hne Hl1 Hl2 Hc1 Hc2. simplify_eq. destruct (wf_inode s Hwf i _ Hy) as (_ & _ & Hs & _).
  destruct (sorted_either _ _ k1 k2 Hs H1 H2 Hne) as [H|H]; [destruct (compatible_covers s k1 k2 l1 l2 b) as [E [E'|E']]|
    destruct (compatible_covers s k2 k1 l2 l1 b) as [E [E'|E']]]; try done; rewrite E, ?E'; rewrite ?orb_true_r; naive_solver.
Qed.

(** C5: Byte-range locks. After any sequence of requests, whatever the system answers to
    [fcntl] and however allocations fail: two locks of one file that cover the same byte
    belong to the same fd object or are both shared, and are never both exclusive; every
    byte that a lock covers is also locked in the system, up to the greatest supported
    offset and unless locks do not work for that fd object; and the next request on an
    existing fd object ends without failed assertion or bad pointer. *)
Theorem file_requests_safe s op w (Hr : reachable s) (Ha : allowed s op) :
  (∀ i k1 k2 l1 l2 b, listed s i k1 → listed s i k2 → k1 ≠ k2 → st_locks s !! k1 = Some l1 → st_locks s !! k2 = Some l2 →
     covers l1 b → covers l2 b → lk_shared l1 || lk_shared l2 = true ∧ (lk_fd l1 ≠ lk_fd l2 → lk_shared l1 && lk_shared l2 = true)) ∧
  (∀ i k l x b, listed s i k → st_locks s !! k = Some l → st_fds s !! lk_fd l = Some x → fd_fs_locks x = true →
     nonempty l → covers l b → b ≤ max_unix_offset s → held (st_calls s) i b = true) ∧
  wp (run_op op) s w (λ _ s' _, reachable s').
Proof.
  destruct (reachable_ok s Hr) as [[Hwf Hp] Hm]. split; [|split].
  - intros i k1 k2 l1 l2 b. by apply locks_exclude.
  - intros i k l x b Hk Hl Hx. destruct (listed_owned s i k l Hwf Hk Hl) as (x' & p & (? & ? & Hx' & ?) & _). simplify_eq.
    by apply (Hp i k l x p b).
  - destruct (wp_elim _ _ _ _ (run_op_ok op s w (conj Hwf Hp) Hm Ha)) as ([] & s' & w' & E & _).
    rewrite (wp_run _ _ _ _ _ _ E). by eapply reach_step.
Qed.

(** C16: Sharing modes. After any sequence of requests, if two fd objects are open on one
    file, the sharing mode of each one that has access to data or for deletion allows what
    the other may do: a file opened so without [FILE_SHARE_WRITE] is not open for writing
    elsewhere. (Without such access the sharing mode is ignored, as the code says.) *)
Theorem sharing_modes_respected s f g x x' i (Hr : reachable s) (Hne : f ≠ g)
    (Hx : st_fds s !! f = Some x) (Hx' : st_fds s !! g = Some x') (Hi : fd_inode x = Some i) (Hi' : fd_inode x' = Some i)
    (Ha : has (fd_access x) all_access = true) :
  (has (fd_access x') read_access = true → has (fd_sharing x) FILE_SHARE_READ = true) ∧
  (has (fd_access x') write_access = true → has (fd_sharing x) FILE_SHARE_WRITE = true) ∧
  (has (fd_access x') DELETE = true → has (fd_sharing x) FILE_SHARE_DELETE = true).
Proof.
  destruct (reachable_ok s Hr) as [_ Hm]. pose proof (Hm f g x x' i Hne ltac:(done) ltac:(done) Hx Hx' Hi Hi' Ha) as H.
  assert (H' : has (fd_access x') all_access = true → allows (fd_access x') (fd_sharing x) = true) by (intros E; apply H, E).
  rewrite allows_iff, has_all in H'. split_and!; intros E; apply H'; by rewrite ?E, ?orb_true_r.
Qed.

(** C34: The loop over the other opens, which only collects two masks, is equivalent to
    comparing the new open with each of them: [check_sharing] gives no error exactly if
    every other fd object of the file agrees with the new mode and has no mapping that
    forbids it; the mode is stored in any case. *)
Theorem check_sharing_correct s w f x i access sharing trunc options
    (Hr : reachable s) (Hx : st_fds s !! f = Some x) (Hi : fd_inode x = Some i) :
  wp (check_sharing f access sharing trunc options) s w (λ err s' w',
    w' = w ∧ s' = with_fds (<[f := set_sharing access sharing x]> (st_fds s)) s ∧
    (err = 0 ↔ ∀ g z, g ≠ f → st_fds s !! g = Some z → fd_inode z = Some i → may_open access sharing trunc options z)).
Proof.
  destruct (reachable_ok s Hr) as [[Hwf _] _]. eapply check_sharing_ok; [done..|]. intros y others Hy Hot. split; [done|]. split; [done|].
  rewrite sharing_error_ok, Forall_forall. split.
  - intros H g z Hne Hz Hzi. destruct (wf_open s Hwf g z i Hz Hzi) as (y' & Hy' & Hg). simplify_eq.
    assert (g ∈ remove_id f (i_open y)) as [n Hn]%list_elem_of_lookup by by apply elem_of_remove_id.
    destruct (Forall2_lookup_l _ _ _ _ _ Hot Hn) as (z' & Hz' & E). simplify_eq. apply H. by eapply list_elem_of_lookup_2.
  - intros H z [n Hn]%list_elem_of_lookup. destruct (Forall2_lookup_r _ _ _ _ _ Hot Hn) as (g & Hg & E).
    apply list_elem_of_lookup_2, elem_of_remove_id in Hg as [Hne Hg]. destruct (wf_inode s Hwf i y Hy) as (_ & _ & _ & Ho).
    destruct (Ho g Hg) as (z' & Hz' & ?). simplify_eq. by apply (H g).
Qed.

(** C15: [remove_unix_locks] unlocks exactly the bytes of the area that no lock of the file
    covers any more, when locks work for the fd object, the system grants every request
    and memory does not run out; nothing else changes, and no assertion on the holes
    fails. *)
Theorem remove_unix_locks_correct s w f x i start end_ (Hwf : wf s) (Hx : st_fds s !! f = Some x) (Hi : fd_inode x = Some i)
    (Hfs : fd_fs_locks x = true) (Hstart : 0 ≤ start) (Hend : end_ = 0 ∨ start ≤ end_) (Hres : st_results s = []) (Hmem : w_mem w = []) :
  wp (remove_unix_locks f start end_) s w (λ _ s' w',
    w' = w ∧ (∃ cs, s' = with_calls (cs ++ st_calls s) [] s) ∧
    ∀ j b, b ≤ max_unix_offset s →
      let unlocked := j = i ∧ start ≠ end_ ∧ interval start end_ b ∧
        ∀ k l, listed s i k → st_locks s !! k = Some l → nonempty l → ¬ covers l b in
      (unlocked → held (st_calls s') j b = false) ∧ (¬ unlocked → held (st_calls s') j b = held (st_calls s) j b)).
Proof.
  destruct (wf_open s Hwf f x i Hx Hi) as (y & Hy & _). destruct (wf_are_locks s i y Hwf Hy) as (ls & Hls & Hr & Hcov).
  eapply wp_mono; [by eapply (remove_unix_locks_granted f start end_ s w x i y ls)|].
  intros [] s' w' [-> (cs & -> & Hb)]. split; [done|]. split; [by exists cs|]. intros j b Hmax unlocked.
  assert (Hno : ¬ covered ls b ↔ ∀ k l, listed s i k → st_locks s !! k = Some l → nonempty l → ¬ covers l b).
  { rewrite Hcov. split.
    - intros H k l (y' & Hy' & Hk) Hl Hn Hc. simplify_eq. apply H. by exists k, l.
    - intros H (k & l & Hk & Hl & Hn & Hc). apply (H k l); [by exists y|done..]. }
  destruct (Hb j b Hmax) as [Hyes Hkeep]. unfold unlocked. rewrite <-Hno. split.
  - intros (-> & ? & ? & ?). by apply Hyes.
  - intros H. apply Hkeep. destruct (decide (j = i)) as [->|]; [right|by left]. intros (? & ? & ?). by apply H.
Qed.

Lemma wp_and {S A} (m : M S A) s w (Q R : A → S → world → Prop) : wp m s w Q → wp m s w R → wp m s w (λ a s' w', Q a s' w' ∧ R a s' w').
Proof. unfold wp. destruct (m s w) as [[[]]|]; auto. Qed.

(** Without [remove_unix], a lock that is not the last one goes without a system call. *)
Lemma remove_lock_quiet s w k i l x p y : owned s i k l x p → st_inodes s !! i = Some y → remove_id k (i_locks y) ≠ [] →
  wp (remove_lock k false) s w (λ _ s' _, st_calls s' = st_calls s).
Proof.
  intros (Hl & Hp & Hx & Hi) Hy Hne. unfold remove_lock, read_lock, read_fd, read_inode.
  rewrite wp_bind, wp_bind, wp_get, Hl. apply wp_ret. rewrite wp_bind, wp_bind, wp_get, Hx. apply wp_ret. rewrite wp_bind, Hi. apply wp_ret.
  rewrite wp_bind, Hp. apply wp_ret. rewrite wp_bind. unfold put_fd. rewrite wp_modify. rewrite wp_bind, wp_bind, wp_get.
  cbn [st_inodes with_fds]. rewrite Hy. apply wp_ret. rewrite wp_bind. unfold put_inode. rewrite wp_modify. rewrite wp_bind, wp_get, wp_bind.
  unfold put_process. rewrite wp_modify. rewrite wp_bind. apply wp_ret. rewrite wp_bind, wp_bind, wp_get.
  cbn [st_inodes with_inodes with_procs]. rewrite lookup_insert_eq. apply wp_ret. cbn [i_locks set_i_locks].
  rewrite bool_decide_eq_false_2 by done. rewrite wp_bind. apply wp_ret. unfold put_lock. by rewrite wp_modify.
Qed.

Lemma remove_one_byte s w f x i k l y : good s → st_fds s !! f = Some x → fd_inode x = Some i → st_inodes s !! i = Some y →
  fd_locks x = [k] → st_locks s !! k = Some l → lk_end l = lk_start l + 1 → remove_id k (i_locks y) ≠ [] →
  wp (remove_fd_locks f) s w (λ _ s' _, good s' ∧ unlisted k s s' ∧ st_calls s' = st_calls s).
Proof.
  intros Hg Hx Hi Hy Hks Hl Hend Hne. destruct (wf_fd s (proj1 Hg) f x k Hx) as (j & l' & p & Hk & How & Ef); [rewrite Hks; left|].
  destruct (How) as (Hl' & _ & _ & Hj). rewrite Hl' in Hl. injection Hl as ->. rename Hl' into Hl. assert (j = i) as -> by congruence.
  destruct (listed_owned s i k l (proj1 Hg) Hk Hl) as (_ & _ & _ & ([? _] & [_ ?] & _) & _).
  unfold remove_fd_locks, read_fd at 1. rewrite wp_bind, wp_bind, wp_get, Hx. apply wp_ret. rewrite wp_bind, Hks. cbn [length remove_fd_locks_loop].
  unfold read_fd at 1. rewrite wp_bind, wp_bind, wp_get, Hx. apply wp_ret. rewrite Hks. unfold read_lock at 1.
  rewrite wp_bind, wp_bind, wp_get, Hl. apply wp_ret. cbn zeta.
  assert (E1 : lk_start l <? FILE_POS_T_MAX = true) by (apply Z.ltb_lt; lia). rewrite E1.
  assert (E2 : negb (truth (lk_end l)) || (0 <? lk_end l) = true) by (apply orb_true_iff; right; apply Z.ltb_lt; lia). rewrite E2.
  rewrite wp_bind. eapply wp_mono; [apply wp_and; [by eapply remove_lock_ok|by eapply remove_lock_quiet]|].
  intros [] s1 w1 [[Hg1 Hun] Hcalls]. cbn beta in Hcalls. destruct (unlisted_fd _ _ _ _ _ Hun Hx) as (x1 & Hx1 & [_ Hk1]%without_inode).
  cbn [remove_fd_locks_loop]. unfold read_fd. rewrite wp_bind, wp_bind, wp_get, Hx1. apply wp_ret.
  rewrite Hk1, Hks. unfold remove_id. rewrite filter_cons_False, filter_nil by auto. apply wp_ret. cbn [fst snd].
  assert (E3 : u64 (lk_end l - 1) = lk_start l) by (unfold u64, FILE_POS_T_MAX in *; rewrite Z.mod_small; lia).
  rewrite E3, Z.ltb_irrefl. by apply wp_ret.
Qed.

(** A defect. [remove_fd_locks] computes the last byte of the locks of the fd object and
    removes their Unix locks only if it comes after the first one, so nothing is removed
    when the fd object has one exclusive lock, of one byte. Unless this was the last lock of
    the file, which lets the server close the descriptor, the byte stays locked in the
    system although no lock of a client covers it. *)
Theorem one_byte_lock_stays s w f x i k l k2 (Hr : reachable s) (Hx : st_fds s !! f = Some x) (Hi : fd_inode x = Some i)
    (Hfs : fd_fs_locks x = true) (Hks : fd_locks x = [k]) (Hl : st_locks s !! k = Some l) (Hex : lk_shared l = false)
    (Hend : lk_end l = lk_start l + 1) (Hmax : lk_start l ≤ max_unix_offset s) (Hk2 : listed s i k2) (Hne : k2 ≠ k) :
  wp (fd_destroy f) s w (λ _ s' _, held (st_calls s') i (lk_start l) = true ∧
    ∀ k' l', listed s' i k' → st_locks s' !! k' = Some l' → ¬ covers l' (lk_start l)).
Proof.
  destruct (reachable_ok s Hr) as [Hg _]. destruct (Hk2) as (y & Hy & Hk2y).
  destruct (wf_fd s (proj1 Hg) f x k Hx) as (j & l1 & p & Hk & How & Ef); [rewrite Hks; left|].
  destruct (How) as (Hl1 & _ & _ & Hj). rewrite Hl1 in Hl. injection Hl as ->. rename Hl1 into Hl. subst f. assert (j = i) as -> by congruence.
  assert (Hcov : covers l (lk_start l)) by (split; lia).
  assert (Hoth : ∀ k' l', listed s i k' → k' ≠ k → st_locks s !! k' = Some l' → lk_fd l' ≠ lk_fd l ∧ ¬ covers l' (lk_start l)).
  { intros k' l' Hk' Hne' Hl'. destruct (listed_owned s i k' l' (proj1 Hg) Hk' Hl') as (x' & p' & (_ & _ & Hx' & _) & _ & Hkx & _).
    assert (lk_fd l' ≠ lk_fd l) as Hd.
    { intros E. rewrite E in Hx'. simplify_eq. rewrite Hks in Hkx. by apply list_elem_of_singleton in Hkx. }
    split; [done|]. intros Hc. destruct (locks_exclude s i k' k l' l _ (proj1 Hg) Hk' Hk Hne' Hl' Hl Hc Hcov) as [_ H].
    specialize (H Hd). rewrite Hex, andb_false_r in H. done. }
  destruct (wf_listed s (proj1 Hg) i k2 Hk2) as (l2 & x2 & p2 & (Hl2 & _ & Hx2 & Hi2) & _).
  destruct (wf_open s (proj1 Hg) _ _ _ Hx2 Hi2) as (y' & Hy' & Hop). rewrite Hy in Hy'. injection Hy' as <-.
  destruct (Hoth k2 l2 Hk2 Hne Hl2) as [Hd2 _].
  assert (Hleft : remove_id k (i_locks y) ≠ []) by (eapply elem_not_nil, elem_of_remove_id; eauto).
  assert (Hopn : remove_id (lk_fd l) (i_open y) ≠ []) by (eapply elem_not_nil, elem_of_remove_id; eauto).
  unfold fd_destroy, read_fd at 1. rewrite wp_bind, wp_bind, wp_get, Hx. apply wp_ret. rewrite wp_bind.
  eapply wp_mono; [by eapply remove_one_byte|]. intros [] s1 w1 (Hg1 & Hun & Hcalls). cbn beta. rewrite Hi.
  destruct (unlisted_inode _ _ _ _ _ Hun Hy) as (y1 & Hy1 & Eo & El).
  unfold read_inode at 1, put_inode at 1. rewrite wp_bind, wp_bind, wp_get, Hy1. apply wp_ret. rewrite wp_bind, wp_modify, wp_bind.
  eapply add_closed_ok; [apply lookup_insert_eq|]. cbn. intros c cs _ Hcs. rewrite El in Hcs. rewrite (Hcs Hleft).
  rewrite wp_bind, wp_modify. unfold read_inode. rewrite wp_bind, wp_bind, wp_get. cbn. rewrite lookup_insert_eq. apply wp_ret. cbn.
  rewrite Eo, bool_decide_eq_false_2 by done. apply wp_ret. cbn. rewrite Hcalls. split.
  - apply (proj2 Hg i k l x p); try done. unfold nonempty. lia.
  - intros k' l' (z & Hz & Hk') Hl'. cbn in Hz, Hl'. rewrite lookup_insert_eq in Hz. simplify_eq. cbn in Hk'.
    rewrite El, elem_of_remove_id in Hk'. destruct Hk' as [Hne' Hk']. rewrite (un_locks _ _ _ Hun) in Hl' by done.
    apply (Hoth k' l'); [by exists y|done..].
Qed.

(** ** Two opens of a file, with a lock each *)

Definition after (op : file_op) (s : fd_state) : fd_state :=
  match run_op op s (World 0 []) with Some (_, s', _) => s' | None => s end.

Lemma after_reachable op s : reachable s → allowed s op → reachable (after op s).
Proof.
  intros Hr Ha. unfold after. destruct (run_op op s (World 0 [])) as [[[[] s'] w']|] eqn:E; [|done]. by eapply reach_step.
Qed.

Definition demo_open (unix_fd : Z) : file_op :=
  OpenFile 7 unix_fd [65] false true false false (Z.lor FILE_READ_DATA FILE_WRITE_DATA) (Z.lor FILE_SHARE_READ FILE_SHARE_WRITE) 0.
Definition demo_opens : fd_state := after (demo_open 11) (after (demo_open 10) (no_files [])).
Definition demo_locks : fd_state := after (LockFile 100 2 10 5 false false) (after (LockFile 100 1 3 1 false false) demo_opens).

Lemma demo_reachable : reachable demo_locks.
Proof.
  assert (∀ f s, bool_decide (is_Some (st_fds s !! f)) = true → is_Some (st_fds s !! f)) as Hsome by (intros; by eapply bool_decide_eq_true_1).
  unfold demo_locks, demo_opens. apply after_reachable; [apply after_reachable; [apply after_reachable; [apply after_reachable|]|]|]; cbn [allowed].
  - apply reach_start.
  - done.
  - done.
  - split; [apply Hsome; vm_compute; reflexivity|unfold FILE_POS_T_MAX; lia].
  - split; [apply Hsome; vm_compute; reflexivity|unfold FILE_POS_T_MAX; lia].
Qed.

Lemma demo_listed k : bool_decide (k ∈ [1; 2]) = true → listed demo_locks 7 k.
Proof. intros H%bool_decide_eq_true_1. eexists. split; [vm_compute; reflexivity|]. exact H. Qed.

Lemma file_requests_safe_witness :
  held (st_calls demo_locks) 7 12 = true ∧ wp (run_op (CloseFile 2)) demo_locks (World 0 []) (λ _ s' _, reachable s').
Proof.
  destruct (file_requests_safe demo_locks (CloseFile 2) (World 0 [])) as (_ & Hheld & Hwp).
  - apply demo_reachable.
  - eexists. vm_compute. reflexivity.
  - split; [|exact Hwp]. eapply (Hheld 7 2).
    + by apply demo_listed.
    + vm_compute. reflexivity.
    + vm_compute. reflexivity.
    + reflexivity.
    + by vm_compute.
    + split; [by vm_compute|]. right. reflexivity.
    + by vm_compute.
Defined.

Lemma sharing_modes_respected_witness : ∃ x, st_fds demo_locks !! 1 = Some x ∧ has (fd_sharing x) FILE_SHARE_WRITE = true.
Proof.
  eexists. split; [vm_compute; reflexivity|]. refine (proj1 (proj2 (sharing_modes_respected demo_locks 1 2 _ _ 7 _ _ _ _ _ _ _)) _).
  - apply demo_reachable.
  - done.
  - vm_compute. reflexivity.
  - vm_compute. reflexivity.
  - reflexivity.
  - reflexivity.
  - reflexivity.
  - reflexivity.
Defined.

Lemma check_sharing_correct_witness : ∃ x, st_fds demo_locks !! 2 = Some x ∧
  wp (check_sharing 2 FILE_READ_DATA FILE_SHARE_READ false 0) demo_locks (World 0 []) (λ err s' w',
    w' = World 0 [] ∧ s' = with_fds (<[2 := set_sharing FILE_READ_DATA FILE_SHARE_READ x]> (st_fds demo_locks)) demo_locks ∧
    (err = 0 ↔ ∀ g z, g ≠ 2 → st_fds demo_locks !! g = Some z → fd_inode z = Some 7 → may_open FILE_READ_DATA FILE_SHARE_READ false 0 z)).
Proof.
  eexists. split; [vm_compute; reflexivity|]. apply check_sharing_correct.
  - apply demo_reachable.
  - vm_compute. reflexivity.
  - reflexivity.
Defined.

Lemma remove_unix_locks_correct_witness :
  wp (remove_unix_locks 2 3 12) demo_locks (World 0 []) (λ _ s' _, held (st_calls s') 7 11 = held (st_calls demo_locks) 7 11).
Proof.
  eapply wp_mono; [eapply (remove_unix_locks_correct demo_locks (World 0 []) 2 _ 7 3 12)|].
  - apply reachable_ok, demo_reachable.
  - vm_compute. reflexivity.
  - reflexivity.
  - reflexivity.
  - lia.
  - lia.
  - vm_compute. reflexivity.
  - reflexivity.
  - intros [] s' w' (_ & _ & H). apply H; [by vm_compute|]. intros (_ & _ & _ & Hno).
    eapply (Hno 2); [by apply demo_listed|vm_compute; reflexivity|by vm_compute|].
    split; [by vm_compute|]. right. reflexivity.
Defined.

Lemma one_byte_lock_stays_witness :
  wp (fd_destroy 1) demo_locks (World 0 []) (λ _ s' _, held (st_calls s') 7 3 = true ∧
    ∀ k' l', listed s' 7 k' → st_locks s' !! k' = Some l' → ¬ covers l' 3).
Proof.
  eapply (one_byte_lock_stays demo_locks (World 0 []) 1 _ 7 1 (Lock 1 false 3 4 (Some 100) false) 2).
  - apply demo_reachable.
  - vm_compute. reflexivity.
  - reflexivity.
  - reflexivity.
  - reflexivity.
  - vm_compute. reflexivity.
  - reflexivity.
  - reflexivity.
  - by vm_compute.
  - by apply demo_listed.
  - done.
Defined.
