(* ===== verification/Namespace.v ===== *)
(** * The object namespace (server/object.c, directory.c, symlink.c)

    Directories map names to objects, in hash buckets; a name is looked up element by
    element, symbolic links are followed by looking up their target from the root
    directory, which may meet links again. Objects are counted by references: a handle, a
    named child, and being permanent each hold one.

    The objects here are directories, symbolic links, and the objects of types whose
    lookup is [no_lookup_name] (events, mutexes, semaphores and so on), which differ only
    in their operations table. [ns_handles] has the object of every handle of a client,
    as component Handles keeps them; whether [alloc_handle] succeeds is an argument of the
    requests. A security descriptor is a block of memory that may fail to be allocated.

    A [unicode_str] is [None] for a NULL pointer, which has length 0. *)

From S2P Require Import Prelude Unicode.

Definition OBJ_PERMANENT : Z := 0x10.
Definition OBJ_CASE_INSENSITIVE : Z := 0x40.
Definition OBJ_OPENIF : Z := 0x80.
Definition OBJ_OPENLINK : Z := 0x100.
Definition HASH_SIZE : Z := 7.
Definition STATUS_INFO_LENGTH_MISMATCH : Z := 0xC0000004.
Definition STATUS_OBJECT_PATH_NOT_FOUND : Z := 0xC000003A.
Definition STATUS_OBJECT_PATH_SYNTAX_BAD : Z := 0xC000003B.
Definition backslash : Z := 92.

Abbreviation ustr := (option (list Z)).
Definition units (u : ustr) : list Z := default [] u.

(** A bucket lists the objects whose names are in it. *)
Record namespace := Namespace { hash_size : Z; names : list (list Z) }.
Inductive object_ops := directory_ops | symlink_ops | other_ops (type : Z).
#[global] Instance object_ops_eq_dec : EqDecision object_ops.
Proof. solve_decision. Defined.
(** The memory behind the object header; [entries] and [target] may be NULL. *)
Inductive object_data :=
  | Directory (entries : option namespace)
  | Symlink (target : ustr) (len : Z)
  | Other (type : Z).
(** [n_name] is the name and the parent of a named object. Wait queues are in component
    Sync, handle counts in component Handles. *)
Record object := Object { n_refcount : Z; n_permanent : bool; n_name : option (list Z * Z); n_data : object_data }.
Definition n_ops (x : object) : object_ops :=
  match n_data x with Directory _ => directory_ops | Symlink _ _ => symlink_ops | Other t => other_ops t end.

Record ns_state := NsState { ns_objects : gmap Z object; root_directory : Z; recursion_count : Z; ns_handles : list Z }.
Abbreviation N := (M ns_state).

Definition on_objects (f : gmap Z object → gmap Z object) (s : ns_state) : ns_state :=
  NsState (f (ns_objects s)) (root_directory s) (recursion_count s) (ns_handles s).
Definition set_recursion (n : Z) (s : ns_state) : ns_state := NsState (ns_objects s) (root_directory s) n (ns_handles s).
Definition set_handles (l : list Z) (s : ns_state) : ns_state := NsState (ns_objects s) (root_directory s) (recursion_count s) l.
Definition set_refcount (n : Z) (x : object) : object := Object n (n_permanent x) (n_name x) (n_data x).
Definition set_permanent (b : bool) (x : object) : object := Object (n_refcount x) b (n_name x) (n_data x).
Definition set_data (d : object_data) (x : object) : object := Object (n_refcount x) (n_permanent x) (n_name x) d.

Definition of_option {A} (a : option A) : N A := match a with Some a => ret a | None => crash end.
Definition read_object (o : Z) : N object := let* s := get in of_option (ns_objects s !! o).
Definition put_object (o : Z) (x : object) : N unit := modify (on_objects (<[o := x]>)).

(** ** References *)

Definition grab_object (o : Z) : N unit :=
  let* x := read_object o in
  c_assert (n_refcount x <? INT_MAX) >>
  put_object o (set_refcount (n_refcount x + 1) x).

(** [default_unlink_name], [list_remove] on the entry of the object [o] in its parent. *)
Definition unlink_entry (o : Z) (x : object) : object :=
  match n_data x with
  | Directory (Some ns) => set_data (Directory (Some (Namespace (hash_size ns) (map (filter (λ i, i ≠ o)) (names ns))))) x
  | _ => x
  end.
(** [release_object] with [unlink_named_object]. The memory of the object is freed before
    its parent is released; in the code it is freed afterwards, but not used any more. *)
Fixpoint release_loop (n : nat) (o : Z) : N unit :=
  match n with
  | O => crash
  | S n =>
      let* x := read_object o in
      c_assert (negb (n_refcount x =? 0)) >>
      if n_refcount x - 1 =? 0 then
        modify (on_objects (delete o)) >>
        match n_name x with
        | None => ret tt
        | Some (_, parent) =>
            let* p := read_object parent in
            put_object parent (unlink_entry o p) >>
            release_loop n parent
        end
      else put_object o (set_refcount (n_refcount x - 1) x)
  end.
Definition release_object (o : Z) : N unit := let* s := get in release_loop (S (size (ns_objects s))) o.

Section Casemap.
Variable casemap : Z → Z.

(** ** Names in a directory *)

Definition same_name (attributes : Z) (name1 name2 : list Z) : N bool :=
  if negb (wlen name1 =? wlen name2) then ret false else
  if has attributes OBJ_CASE_INSENSITIVE then
    let* r := of_option (memicmp_strW casemap name1 name2 (wlen name2)) in ret (r =? 0)
  else ret (bool_decide (name1 = name2)).
Fixpoint find_in_bucket (l : list Z) (name : list Z) (attributes : Z) : N (option Z) :=
  match l with
  | [] => ret None
  | o :: l =>
      let* x := read_object o in
      let* ptr := of_option (n_name x) in
      let* b := same_name attributes (ptr.1) name in
      if b : bool then grab_object o >> ret (Some o) else find_in_bucket l name attributes
  end.
Definition find_object (ns : option namespace) (name : list Z) (attributes : Z) : N (option Z) :=
  match name with
  | [] => ret None
  | _ =>
      let* ns := of_option ns in
      let* l := of_option (names ns !! Z.to_nat (hash_strW casemap name (hash_size ns))) in
      find_in_bucket l name attributes
  end.

(** The first element of a path, and what follows it. *)
Fixpoint path_element (name : list Z) : list Z * list Z :=
  match name with
  | [] => ([], [])
  | c :: l => if c =? backslash then ([], name) else let '(a, r) := path_element l in (c :: a, r)
  end.

(** The [lookup_name] operations give the object found and the name that is left; [name]
    is [None] for a NULL pointer to a string. *)
Definition directory_lookup_name (entries : option namespace) (name : option ustr) (attr : Z) : N (option Z * option ustr) :=
  match name with
  | None => ret (None, None)
  | Some u =>
      let '(tmp, rest) := path_element (units u) in
      let* found := find_object entries tmp attr in
      match found with
      | Some o => ret (Some o, Some (match rest with [] => None | _ :: l => Some l end))
      | None =>
          match u, tmp, rest with
          | None, _, _ => ret tt
          | Some _, [], _ => set_error STATUS_OBJECT_NAME_INVALID
          | Some _, _ :: _, _ :: _ => set_error STATUS_OBJECT_PATH_NOT_FOUND
          | Some _, _ :: _, [] => ret tt
          end >>
          ret (None, name)
      end
  end.
Definition no_lookup_name (name : option ustr) : N (option Z * option ustr) :=
  when (bool_decide (name = None)) (set_error STATUS_OBJECT_TYPE_MISMATCH) >> ret (None, name).

(** [lookup] is [lookup_named_object] from the root directory. *)
Definition symlink_lookup_name (lookup : list Z → Z → N (option (Z * list Z)))
    (o : Z) (target : ustr) (len : Z) (name : option ustr) (attr root : Z) : N (option Z * option ustr) :=
  match name with
  | None => ret (None, None)
  | Some u =>
      if bool_decide (units u = []) && has attr OBJ_OPENLINK then ret (None, name) else
      if o =? root then ret (None, name) else
      if len =? 0 then
        let* s := get in grab_object (root_directory s) >> ret (Some (root_directory s), name)
      else
        let* t := of_option target in
        let* r := lookup t attr in
        match r with
        | None => ret (None, name)
        | Some (target, rest) =>
            if bool_decide (rest = []) then ret (Some target, name)
            else release_object target >> set_error STATUS_OBJECT_PATH_NOT_FOUND >> ret (None, name)
        end
  end.

(** [lookup_named_object], given its [while] loop. *)
Definition lookup_with (loop : Z → option ustr → Z → Z → N (Z * option ustr))
    (root : option Z) (name : list Z) (attr : Z) : N (option (Z * list Z)) :=
  let* s := get in
  let* start :=
    (match root, name with
     | Some _, c :: _ => if c =? backslash then set_error STATUS_OBJECT_PATH_SYNTAX_BAD >> ret None else ret (Some name)
     | Some _, [] => ret (Some name)
     | None, c :: l => if c =? backslash then ret (Some l) else set_error STATUS_OBJECT_PATH_SYNTAX_BAD >> ret None
     | None, [] => set_error STATUS_OBJECT_PATH_SYNTAX_BAD >> ret None
     end) in
  match start with
  | None => ret None
  | Some name =>
      let parent := default (root_directory s) root in
      grab_object parent >>
      if 32 <? recursion_count s then set_error STATUS_INVALID_PARAMETER >> release_object parent >> ret None else
      modify (set_recursion (recursion_count s + 1)) >>
      clear_error >>
      let* r := loop parent (match name with [] => None | _ => Some (Some name) end) attr parent in
      let* s := get in
      modify (set_recursion (recursion_count s - 1)) >>
      let* e := get_error in
      if truth e then release_object (r.1) >> ret None
      else ret (Some (r.1, match r.2 with Some u => units u | None => [] end))
  end.

(** One fuel serves the steps of the loop and the links within links. *)
Fixpoint lookup_loop (n : nat) (parent : Z) (ptr : option ustr) (attr root : Z) : N (Z * option ustr) :=
  match n with
  | O => crash
  | S n =>
      let* x := read_object parent in
      let* r :=
        (match n_data x with
         | Directory entries => directory_lookup_name entries ptr attr
         | Symlink target len => symlink_lookup_name (λ t a, lookup_with (lookup_loop n) None t a) parent target len ptr attr root
         | Other _ => no_lookup_name ptr
         end) in
      match r.1 with
      | None => ret (parent, r.2)
      | Some o => release_object parent >> lookup_loop n o (r.2) attr root
      end
  end.

(** The length of the longest target of a link. *)
Definition longest_target (s : ns_state) : nat :=
  map_fold (λ _ x m, match n_data x with Symlink (Some t) _ => Nat.max (length t) m | _ => m end) O (ns_objects s).
Definition lookup_fuel (s : ns_state) (name : list Z) : nat := 2 * length name + 2 + 33 * (2 * longest_target s + 4).
Definition lookup_named_object (root : option Z) (name : list Z) (attr : Z) : N (option (Z * list Z)) :=
  let* s := get in lookup_with (lookup_loop (lookup_fuel s name)) root name attr.

(** ** Creating and opening named objects *)

Definition directory_link_name (o : Z) (name : list Z) (parent : Z) : N bool :=
  let* p := read_object parent in
  match n_data p with
  | Directory entries =>
      let* ns := of_option entries in
      let h := Z.to_nat (hash_strW casemap name (hash_size ns)) in
      let* l := of_option (names ns !! h) in
      put_object parent (set_data (Directory (Some (Namespace (hash_size ns) (<[h := o :: l]> (names ns))))) p) >>
      grab_object parent >>
      ret true
  | _ => set_error STATUS_OBJECT_TYPE_MISMATCH >> ret false
  end.

(** The memory of a new object, before its type initialises it. *)
Definition new_data (ops : object_ops) : object_data :=
  match ops with directory_ops => Directory None | symlink_ops => Symlink None 0 | other_ops t => Other t end.
Definition new_object (name : option (list Z * Z)) (ops : object_ops) : object := Object 1 false name (new_data ops).

(** [sd] tells whether there is a security descriptor to copy. *)
Definition set_sd (sd : bool) : N bool := if sd then mem_alloc else ret true.
Definition create_object (parent : Z) (ops : object_ops) (name : list Z) (sd : bool) : N (option Z) :=
  let* ok := mem_alloc in
  if negb ok then ret None else
  let* ok := mem_alloc in
  if negb ok then ret None else
  let* ok := set_sd sd in
  if negb ok then ret None else
  let* s := get in
  let o := new_key (ns_objects s) in
  let* ok := directory_link_name o name parent in
  if negb ok then ret None else put_object o (new_object (Some (name, parent)) ops) >> ret (Some o).

Definition create_named_object (parent : option Z) (ops : object_ops) (name : list Z) (attributes : Z) (sd : bool) : N (option Z) :=
  clear_error >>
  let* r :=
    (match name with
     | [] =>
         let* ok := mem_alloc in
         if negb ok then ret (None, false) else
         let* ok := set_sd sd in
         if negb ok then ret (None, false) else
         let* s := get in
         let o := new_key (ns_objects s) in
         put_object o (new_object None ops) >> ret (Some o, true)
     | _ =>
         let* r := lookup_named_object parent name attributes in
         match r with
         | None => ret (None, false)
         | Some (o, []) =>
             let* x := read_object o in
             if has attributes OBJ_OPENIF && bool_decide (n_ops x = ops) then set_error STATUS_OBJECT_NAME_EXISTS >> ret (Some o, false) else
             release_object o >>
             set_error (if has attributes OBJ_OPENIF then STATUS_OBJECT_TYPE_MISMATCH else STATUS_OBJECT_NAME_COLLISION) >>
             ret (None, false)
         | Some (o, new_name) =>
             let* c := create_object o ops new_name sd in
             release_object o >> ret (c, bool_decide (is_Some c))
         end
     end) in
  match r with
  | (Some o, true) =>
      (if has attributes OBJ_PERMANENT then
         let* x := read_object o in
         put_object o (set_permanent true x) >> grab_object o
       else ret tt) >>
      ret (Some o)
  | (o, _) => ret o
  end.

Definition open_named_object (parent : option Z) (ops : option object_ops) (name : list Z) (attributes : Z) : N (option Z) :=
  let* r := lookup_named_object parent name attributes in
  match r with
  | None => ret None
  | Some (o, rest) =>
      let* x := read_object o in
      let error :=
        if negb (bool_decide (rest = [])) then STATUS_OBJECT_NAME_NOT_FOUND
        else if bool_decide (ops = None ∨ ops = Some (n_ops x)) then 0 else STATUS_OBJECT_TYPE_MISMATCH in
      if truth error then set_error error >> release_object o >> ret None else ret (Some o)
  end.

Definition create_namespace (size : Z) : N (option namespace) :=
  let* ok := mem_alloc in
  ret (if ok : bool then Some (Namespace size (replicate (Z.to_nat size) [])) else None).

Definition create_directory (root : option Z) (name : list Z) (attr size : Z) (sd : bool) : N (option Z) :=
  let* r := create_named_object root directory_ops name attr sd in
  let* e := get_error in
  match r with
  | Some dir =>
      if e =? STATUS_OBJECT_NAME_EXISTS then ret r else
      let* entries := create_namespace size in
      let* x := read_object dir in
      put_object dir (set_data (Directory entries) x) >>
      match entries with
      | None => release_object dir >> ret None
      | Some _ => ret r
      end
  | None => ret None
  end.

Definition create_symlink (root : option Z) (name : list Z) (attr : Z) (target : list Z) (sd : bool) : N (option Z) :=
  if bool_decide (target = []) then set_error STATUS_INVALID_PARAMETER >> ret None else
  let* r := create_named_object root symlink_ops name (Z.lor attr OBJ_OPENLINK) sd in
  let* e := get_error in
  match r with
  | Some symlink =>
      if e =? STATUS_OBJECT_NAME_EXISTS then ret r else
      let* ok := mem_alloc in
      let* x := read_object symlink in
      put_object symlink (set_data (Symlink (if ok : bool then Some target else None) (wlen target)) x) >>
      if ok then ret r else release_object symlink >> ret None
  | None => ret None
  end.

(** The two loops of [default_get_full_name]: the elements of the path. *)
Fixpoint full_name_loop (n : nat) (o : Z) (acc : list Z) : N (list Z) :=
  let* x := read_object o in
  match n_name x with
  | None => ret acc
  | Some (name, parent) =>
      match n with
      | O => crash
      | S n => full_name_loop n parent (backslash :: name ++ acc)
      end
  end.
(** [max] in bytes. *)
Definition default_get_full_name (o max : Z) : N ustr :=
  let* s := get in
  let* name := full_name_loop (size (ns_objects s)) o [] in
  if bool_decide (name = []) then ret None else
  let* ok := malloc in
  if negb ok then ret None else
  when (max <? wlen name) (set_error STATUS_INFO_LENGTH_MISMATCH) >> ret (Some name).

(** ** Requests

    [error] is 0 if [alloc_handle] gives a handle, or the error that it sets. *)

Fixpoint remove_one (o : Z) (l : list Z) : list Z :=
  match l with [] => [] | i :: l => if i =? o then l else i :: remove_one o l end.
Definition alloc_handle (o error : Z) : N unit :=
  if error =? 0 then grab_object o >> modify (λ s, set_handles (o :: ns_handles s) s) else set_error error.
Definition reply_handle (r : option Z) (error : Z) : N unit :=
  match r with Some o => alloc_handle o error >> release_object o | None => ret tt end.
(** The root directory of a request, taken from a handle. *)
Definition with_root (root : option Z) (m : N unit) : N unit :=
  match root with None => m | Some r => grab_object r >> m >> release_object r end.

(** [get_req_object_attributes]: the root is looked up only for a name. *)
Definition name_root (root : option Z) (name : list Z) : option Z := match name with [] => None | _ => root end.
Definition with_attributes (root : option Z) (name : list Z) (m : option Z → N unit) : N unit :=
  if 65534 <=? wlen name then set_error STATUS_OBJECT_NAME_INVALID
  else with_root (name_root root name) (m (name_root root name)).

Definition req_create_directory (root : option Z) (name : list Z) (attr error : Z) (sd : bool) : N unit :=
  with_attributes root name (λ root, let* r := create_directory root name attr HASH_SIZE sd in reply_handle r error).
Definition req_create_symlink (root : option Z) (name : list Z) (attr : Z) (target : list Z) (error : Z) (sd : bool) : N unit :=
  with_attributes root name (λ root,
    let* r := create_symlink root name attr target sd in
    let* e := get_error in
    when (bool_decide (is_Some r) && (e =? STATUS_OBJECT_NAME_EXISTS)) clear_error >>
    reply_handle r error).
(** The other types do the same, and initialise their objects. *)
Definition req_create_other (type : Z) (root : option Z) (name : list Z) (attr error : Z) (sd : bool) : N unit :=
  with_attributes root name (λ root, let* r := create_named_object root (other_ops type) name attr sd in reply_handle r error).
Definition open_object (root : option Z) (ops : option object_ops) (name : list Z) (attr error : Z) : N unit :=
  if 65534 <=? wlen name then set_error STATUS_OBJECT_NAME_INVALID else
  let m := with_root root (let* r := open_named_object root ops name attr in reply_handle r error) in
  match root, name with
  | Some r, _ :: _ =>
      let* x := read_object r in
      if bool_decide (n_ops x = directory_ops) then m else set_error STATUS_OBJECT_TYPE_MISMATCH
  | _, _ => m
  end.
Definition close_handle (o : Z) : N unit := modify (λ s, set_handles (remove_one o (ns_handles s)) s) >> release_object o.
Definition set_object_permanence (o : Z) (permanent : bool) : N unit :=
  grab_object o >>
  let* x := read_object o in
  (if permanent && negb (n_permanent x) then
     grab_object o >> let* x := read_object o in put_object o (set_permanent true x)
   else if negb permanent && n_permanent x then
     put_object o (set_permanent false x) >> release_object o
   else ret tt) >>
  release_object o.
End Casemap.

(** ** Counting references *)

Definition bump (k o : Z) (s : ns_state) : ns_state := on_objects (alter (λ x, set_refcount (n_refcount x + k) x) o) s.

Lemma alter_id_present {A} (f : A → A) (m : gmap Z A) i : (∀ x, m !! i = Some x → f x = x) → alter f i m = m.
Proof.
  intros H. apply map_eq. intros j. destruct (decide (i = j)) as [->|]; [|by rewrite lookup_alter_ne].
  rewrite lookup_alter_eq. destruct (m !! j) as [x|] eqn:E; [|done]. cbn. by rewrite H.
Qed.

Lemma bump_bump k k' o s : bump k o (bump k' o s) = bump (k' + k) o s.
Proof.
  unfold bump, on_objects. cbn. f_equal. apply map_eq. intros i. rewrite !lookup_alter.
  repeat case_decide; subst; try done. destruct (ns_objects s !! i) as [x|]; cbn; [|done]. unfold set_refcount. cbn. do 2 f_equal. lia.
Qed.

Lemma bump_0 o s : bump 0 o s = s.
Proof.
  destruct s. unfold bump, on_objects. cbn. f_equal. apply alter_id_present. intros [] _. unfold set_refcount. cbn. f_equal. lia.
Qed.

Lemma bump_comm k k' o o' s : bump k o (bump k' o' s) = bump k' o' (bump k o s).
Proof.
  destruct (decide (o = o')) as [->|Hne]; [by rewrite !bump_bump, Z.add_comm|]. unfold bump, on_objects. cbn. f_equal.
  apply map_eq. intros i. rewrite !lookup_alter. repeat case_decide; congruence.
Qed.

Lemma bump_lookup k o s i : ns_objects (bump k o s) !! i =
  (if decide (o = i) then (λ x, set_refcount (n_refcount x + k) x) <$> ns_objects s !! i else ns_objects s !! i).
Proof. unfold bump. cbn. case_decide as E; [subst; apply lookup_alter_eq|by apply lookup_alter_ne]. Qed.

Lemma bump_object k o s x : ns_objects s !! o = Some x → ns_objects (bump k o s) !! o = Some (set_refcount (n_refcount x + k) x).
Proof. intros H. by rewrite bump_lookup, decide_True, H. Qed.

Lemma bump_insert k o s x : ns_objects s !! o = Some x → bump k o s = on_objects (<[o := set_refcount (n_refcount x + k) x]>) s.
Proof. intros H. unfold bump, on_objects. by rewrite (alter_present _ _ _ x). Qed.

(** Names and data, without the counts. *)
Definition shape_of (x : object) : option (list Z * Z) * object_data := (n_name x, n_data x).
Definition shape (s : ns_state) : gmap Z (option (list Z * Z) * object_data) := shape_of <$> ns_objects s.

Lemma shape_bump k o s : shape (bump k o s) = shape s.
Proof.
  apply map_eq. intros i. unfold shape. rewrite !lookup_fmap, bump_lookup. case_decide; [|done]. by destruct (ns_objects s !! i) as [[]|].
Qed.

Lemma shape_lookup s o x : ns_objects s !! o = Some x → shape s !! o = Some (shape_of x).
Proof. intros H. unfold shape. by rewrite lookup_fmap, H. Qed.

Lemma shape_object s o p : shape s !! o = Some p → ∃ x, ns_objects s !! o = Some x ∧ shape_of x = p.
Proof. unfold shape. rewrite lookup_fmap. intros (x & ? & ->)%fmap_Some. eauto. Qed.

(** Every count is positive and far from its limit. *)
Definition counts_fit (k : Z) (s : ns_state) : Prop :=
  ∀ o x, ns_objects s !! o = Some x → 1 ≤ n_refcount x ∧ n_refcount x + k < INT_MAX.

Lemma counts_fit_bump k o s : counts_fit (k + 1) s → counts_fit k (bump 1 o s).
Proof.
  intros H i x Hx. rewrite bump_lookup in Hx. case_decide; [|specialize (H i x Hx); lia].
  apply fmap_Some in Hx as (y & Hy & ->). specialize (H i y Hy). cbn. lia.
Qed.

Lemma wp_grab o s w k (Q : unit → ns_state → world → Prop) : counts_fit k s → 0 ≤ k → is_Some (shape s !! o) →
  Q tt (bump 1 o s) w → wp (grab_object o) s w Q.
Proof.
  intros Hc Hk [p (x & Hx & _)%shape_object] HQ. unfold grab_object, read_object. rewrite !wp_bind, wp_get, Hx. apply wp_ret.
  rewrite wp_bind, wp_assert. specialize (Hc o x Hx). split; [apply Z.ltb_lt; lia|]. unfold put_object. rewrite wp_modify.
  by rewrite <-(bump_insert 1).
Qed.

(** Giving back a reference that was taken before. *)
Lemma wp_release o s w k (Q : unit → ns_state → world → Prop) : counts_fit k s → is_Some (shape s !! o) →
  Q tt s w → wp (release_object o) (bump 1 o s) w Q.
Proof.
  intros Hc [p (x & Hx & _)%shape_object] HQ. unfold release_object. rewrite wp_bind, wp_get. cbn [release_loop].
  unfold read_object. rewrite !wp_bind, wp_get, (bump_object _ _ _ _ Hx). apply wp_ret. rewrite wp_bind, wp_assert. specialize (Hc o x Hx). cbn [n_refcount set_refcount].
  split; [apply negb_true_iff, Z.eqb_neq; lia|]. rewrite (proj2 (Z.eqb_neq _ 0)) by lia. unfold put_object. rewrite wp_modify.
  match goal with |- Q tt ?s' w => replace s' with s; [done|] end.
  rewrite <-(bump_0 o s) at 1. rewrite (bump_insert 0 _ _ x Hx), (bump_insert 1 _ _ x Hx). unfold on_objects. cbn. f_equal.
  rewrite insert_insert_eq. f_equal. unfold set_refcount. cbn. f_equal. lia.
Qed.

Lemma wp_move p o s w k (Q : unit → ns_state → world → Prop) : counts_fit (k + 1) s → is_Some (shape s !! p) →
  Q tt (bump 1 o s) w → wp (release_object p) (bump 1 o (bump 1 p s)) w Q.
Proof.
  intros Hc Hp HQ. rewrite bump_comm. eapply wp_release; [by eapply counts_fit_bump|by rewrite shape_bump|done].
Qed.

(** ** The tree of names *)

Definition element (name : list Z) : Prop := name ≠ [] ∧ (backslash ∉ name).

Lemma path_element_spec name : ∀ a r, path_element name = (a, r) →
  name = a ++ r ∧ (backslash ∉ a) ∧ (r = [] ∨ ∃ l, r = backslash :: l).
Proof.
  induction name as [|c name IH]; intros a r; cbn [path_element].
  - intros [= <- <-]. split_and!; [done|by intros ?%not_elem_of_nil|by left].
  - destruct (Z.eqb_spec c backslash) as [->|Hc].
    + intros [= <- <-]. split_and!; [done|by intros ?%not_elem_of_nil|right; by eexists].
    + destruct (path_element name) as [a' r'] eqn:E. intros [= <- <-]. destruct (IH _ _ eq_refl) as (-> & ? & ?).
      split_and!; [done| |done]. intros [?|?]%elem_of_cons; congruence.
Qed.

Section Tree.
Variable casemap : Z → Z.
#[local] Abbreviation hash := (λ name, Z.to_nat (hash_strW casemap name HASH_SIZE)).
#[local] Abbreviation tree := (gmap Z (option (list Z * Z) * object_data)).

(** The directory [d] with its buckets. *)
Definition is_dir (T : tree) (d : Z) (ns : namespace) : Prop := ∃ nm, T !! d = Some (nm, Directory (Some ns)).
Definition is_link (T : tree) (o : Z) : Prop := ∃ nm t len, T !! o = Some (nm, Symlink t len).
Definition child (T : tree) (d o : Z) (name : list Z) : Prop := ∃ data, T !! o = Some (Some (name, d), data).

(** Directories and links are initialised, names are in the bucket of their hash, and a
    name occurs once in a directory. A child is younger than its parent. *)
Record tree_ok (root : Z) (T : tree) : Prop := {
  tr_root : ∃ ns, T !! root = Some (None, Directory (Some ns));
  tr_dir d nm e : T !! d = Some (nm, Directory e) → ∃ ns, e = Some ns ∧ hash_size ns = HASH_SIZE ∧ Z.of_nat (length (names ns)) = HASH_SIZE;
  tr_bucket d ns h l : is_dir T d ns → names ns !! h = Some l → NoDup l ∧ ∀ o, o ∈ l → ∃ name, child T d o name ∧ h = hash name;
  tr_child d o name : child T d o name → element name ∧ d < o ∧ ∃ ns l, is_dir T d ns ∧ names ns !! hash name = Some l ∧ o ∈ l;
  tr_unique d o o' name : child T d o name → child T d o' name → o = o';
  tr_link o nm t len : T !! o = Some (nm, Symlink t len) → len = 0 ∨ ∃ t', t = Some t' ∧ t' ≠ [] ∧ len = wlen t'
}.

Lemma hash_range name : (hash name < 7)%nat.
Proof. pose proof (hash_strW_range casemap name HASH_SIZE ltac:(done)) as H. unfold HASH_SIZE in *. lia. Qed.

(** Two names are the same for a search with these attributes. *)
Definition matches (attr : Z) (name1 name2 : list Z) : Prop :=
  if has attr OBJ_CASE_INSENSITIVE then fold_case casemap name1 = fold_case casemap name2 else name1 = name2.
#[global] Instance matches_dec attr name1 name2 : Decision (matches attr name1 name2).
Proof. unfold matches. destruct (has attr OBJ_CASE_INSENSITIVE); apply _. Defined.

Lemma matches_hash attr name1 name2 : matches attr name1 name2 → hash name1 = hash name2.
Proof. unfold matches. case_match; [|by intros ->]. intros E. cbn. by rewrite (hash_strW_fold casemap name1 name2). Qed.

Lemma matches_refl attr name : matches attr name name.
Proof. unfold matches. by case_match. Qed.

Lemma fold_case_length name1 name2 : fold_case casemap name1 = fold_case casemap name2 → length name1 = length name2.
Proof. intros H%(f_equal length). unfold fold_case in H. by rewrite !length_map in H. Qed.

Lemma wp_same_name attr name1 name2 s w (Q : bool → ns_state → world → Prop) :
  (matches attr name1 name2 → Q true s w) → (¬ matches attr name1 name2 → Q false s w) → wp (same_name casemap attr name1 name2) s w Q.
Proof.
  intros Hyes Hno. unfold same_name, matches in *. destruct (Z.eqb_spec (wlen name1) (wlen name2)) as [Hl|Hl]; cbn [negb].
  - destruct (has attr OBJ_CASE_INSENSITIVE).
    + assert (length name1 = length name2) as Hl' by (unfold wlen in Hl; lia).
      destruct (memicmp_loop_total casemap name1 name2 (Z.to_nat (wlen name2 / 2))) as [r Hr].
      1,2: unfold wlen; rewrite Z.mul_comm, Z.div_mul by lia; lia.
      pose proof (memicmp_strW_eq casemap _ _ Hl') as Heq. rewrite Hl in Heq. unfold memicmp_strW in *. rewrite Hr in *.
      rewrite wp_bind. apply wp_ret, wp_ret. destruct (Z.eqb_spec r 0) as [->|Hr0]; [by apply Hyes, Heq|].
      apply Hno. intros E%Heq. congruence.
    + apply wp_ret. case_bool_decide; auto.
  - apply wp_ret, Hno. intros E. apply Hl. unfold wlen. case_match; [by rewrite (fold_case_length _ _ E)|by rewrite E].
Qed.

Lemma child_object s d o name : child (shape s) d o name → ∃ x, ns_objects s !! o = Some x ∧ n_name x = Some (name, d).
Proof. intros [data (x & Hx & [= E _])%shape_object]. eauto. Qed.

(** The first match of the bucket is found. *)
Lemma wp_find_in_bucket d l name attr s w k (Q : option Z → ns_state → world → Prop) :
  counts_fit k s → 0 ≤ k → (∀ o, o ∈ l → ∃ nm, child (shape s) d o nm) →
  (∀ o nm, o ∈ l → child (shape s) d o nm → matches attr nm name → Q (Some o) (bump 1 o s) w) →
  ((∀ o nm, o ∈ l → child (shape s) d o nm → ¬ matches attr nm name) → Q None s w) →
  wp (find_in_bucket casemap l name attr) s w Q.
Proof.
  intros Hc Hk. induction l as [|o l IH]; intros Hl Hyes Hno; cbn [find_in_bucket].
  { apply wp_ret, Hno. by intros ?? ?%not_elem_of_nil. }
  destruct (Hl o) as [nm Ho]; [left|]. destruct (child_object _ _ _ _ Ho) as (x & Hx & Hn).
  unfold read_object. rewrite wp_bind, wp_bind, wp_get, Hx. apply wp_ret. rewrite wp_bind, Hn. apply wp_ret. cbn [fst].
  rewrite wp_bind. apply wp_same_name; intros Hm.
  - rewrite wp_bind. eapply wp_grab; [done|done|destruct Ho; eauto|]. apply wp_ret. eapply Hyes; [left|done..].
  - apply IH; [intros; apply Hl; by right|intros; eapply Hyes; [by right|done..]|]. intros Hno'. apply Hno.
    intros o' nm' [->|?]%elem_of_cons Hc'; [|by eapply Hno']. destruct Ho as [? Ho], Hc' as [? Hc']. congruence.
Qed.

Lemma wp_find_object root d ns name attr s w k (Q : option Z → ns_state → world → Prop) :
  tree_ok root (shape s) → is_dir (shape s) d ns → counts_fit k s → 0 ≤ k →
  (∀ o nm, name ≠ [] → child (shape s) d o nm → matches attr nm name → Q (Some o) (bump 1 o s) w) →
  ((∀ o nm, name ≠ [] → child (shape s) d o nm → ¬ matches attr nm name) → Q None s w) →
  wp (find_object casemap (Some ns) name attr) s w Q.
Proof.
  intros HT Hd Hc Hk Hyes Hno. unfold find_object. destruct name as [|c name]; [apply wp_ret, Hno; by intros ?? ?|].
  set (nm := c :: name) in *. rewrite wp_bind. apply wp_ret. destruct (Hd) as [dn Hd'].
  destruct (tr_dir _ _ HT _ _ _ Hd') as (ns' & [= <-] & -> & Hlen).
  destruct (lookup_lt_is_Some_2 (names ns) (hash nm)) as [l Hl]; [pose proof (hash_range nm); unfold HASH_SIZE in *; lia|].
  rewrite wp_bind, Hl. apply wp_ret. destruct (tr_bucket _ _ HT _ _ _ _ Hd Hl) as [_ Hb].
  apply (wp_find_in_bucket d _ _ _ _ _ k); [done|done| | |].
  - intros o Ho. destruct (Hb o Ho) as (? & ? & _). eauto.
  - intros o n' Ho. by apply Hyes.
  - intros Hno'. apply Hno. intros o n' _ Hch Hm. destruct (tr_child _ _ HT _ _ _ Hch) as (_ & _ & ns' & l' & [? Hd2] & Hl' & Ho).
    rewrite Hd' in Hd2. simplify_eq. eapply (Hno' o n'); [|done..]. pose proof (matches_hash _ _ _ Hm) as E. cbn in E. rewrite E in Hl'. by simplify_eq.
Qed.

(** ** Looking up a path *)

Definition left_of (ptr : option ustr) : list Z := match ptr with Some u => units u | None => [] end.

(** The part of the name that the loop starts with. *)
Definition path_start (root : option Z) (name : list Z) : option (list Z) :=
  match root, name with
  | Some _, c :: _ => if c =? backslash then None else Some name
  | Some _, [] => Some name
  | None, c :: l => if c =? backslash then Some l else None
  | None, [] => None
  end.
Definition start_ptr (name : list Z) : option ustr := match name with [] => None | _ => Some (Some name) end.

(** What a path names, without fuel, references and the error register: the object where the
    lookup ends and what is left of the path, or the error that it reports. *)
Inductive result := Found (o : Z) (rest : list Z) | Failed (e : Z).

Definition absent (attr : Z) (T : tree) (d : Z) (el : list Z) : Prop := ∀ o nm, child T d o nm → ¬ matches attr nm el.
(** A directory ends the lookup at the end of the path, or at a last element that it does
    not have; it refuses empty elements, and elements that it does not have further up. *)
Definition dir_stops (attr : Z) (T : tree) (d : Z) (ptr : option ustr) : Prop :=
  (∀ l, ptr ≠ Some (Some l)) ∨ element (left_of ptr) ∧ absent attr T d (left_of ptr).
Definition dir_refuses (attr : Z) (T : tree) (d : Z) (ptr : option ustr) (e : Z) : Prop :=
  ∃ l el r, ptr = Some (Some l) ∧ path_element l = (el, r) ∧
    (el = [] ∧ e = STATUS_OBJECT_NAME_INVALID ∨ element el ∧ r ≠ [] ∧ absent attr T d el ∧ e = STATUS_OBJECT_PATH_NOT_FOUND).
Definition next_ptr (r : list Z) : option ustr := Some (match r with [] => None | _ :: l => Some l end).
(** A link is not followed when it is itself what is opened, or where the lookup started. *)
Definition followed (attr start o : Z) (ptr : option ustr) : Prop :=
  ptr ≠ None ∧ o ≠ start ∧ ¬ (left_of ptr = [] ∧ has attr OBJ_OPENLINK = true).

(** [walk n start o ptr] goes on from [o], in the [n]-th lookup that is in progress, which
    started at [start]; [top] is the root directory. *)
Inductive walk (attr : Z) (T : tree) (top : Z) : Z → Z → Z → option ustr → result → Prop :=
  | walk_dir_stops n start d ptr ns : is_dir T d ns → dir_stops attr T d ptr → walk attr T top n start d ptr (Found d (left_of ptr))
  | walk_dir_refuses n start d ptr ns e : is_dir T d ns → dir_refuses attr T d ptr e → walk attr T top n start d ptr (Failed e)
  | walk_child n start d ptr ns el r o nm res : is_dir T d ns → path_element (left_of ptr) = (el, r) → element el →
      child T d o nm → matches attr nm el → walk attr T top n start o (next_ptr r) res → walk attr T top n start d ptr res
  | walk_no_names n start o ptr nm ty : T !! o = Some (nm, Other ty) → ptr ≠ None → walk attr T top n start o ptr (Found o (left_of ptr))
  | walk_no_directory n start o nm ty : T !! o = Some (nm, Other ty) → walk attr T top n start o None (Failed STATUS_OBJECT_TYPE_MISMATCH)
  | walk_link_itself n start o ptr : is_link T o → ¬ followed attr start o ptr → walk attr T top n start o ptr (Found o (left_of ptr))
  | walk_link_top n start o ptr nm t res : T !! o = Some (nm, Symlink t 0) → followed attr start o ptr →
      walk attr T top n start top ptr res → walk attr T top n start o ptr res
  | walk_link n start o ptr nm t len o' res : T !! o = Some (nm, Symlink (Some t) len) → len ≠ 0 → followed attr start o ptr →
      resolves attr T top n None t (Found o' []) → walk attr T top n start o' ptr res → walk attr T top n start o ptr res
  | walk_link_rest n start o ptr nm t len o' rest : T !! o = Some (nm, Symlink (Some t) len) → len ≠ 0 → followed attr start o ptr →
      resolves attr T top n None t (Found o' rest) → rest ≠ [] → walk attr T top n start o ptr (Failed STATUS_OBJECT_PATH_NOT_FOUND)
  | walk_link_fails n start o ptr nm t len e : T !! o = Some (nm, Symlink (Some t) len) → len ≠ 0 → followed attr start o ptr →
      resolves attr T top n None t (Failed e) → walk attr T top n start o ptr (Failed e)
(** [resolves n root name] is a lookup of [name] while [n] others are in progress. *)
with resolves (attr : Z) (T : tree) (top : Z) : Z → option Z → list Z → result → Prop :=
  | resolves_syntax n root name : path_start root name = None → resolves attr T top n root name (Failed STATUS_OBJECT_PATH_SYNTAX_BAD)
  | resolves_deep n root name name' : path_start root name = Some name' → 32 < n →
      resolves attr T top n root name (Failed STATUS_INVALID_PARAMETER)
  | resolves_walk n root name name' res : path_start root name = Some name' → n ≤ 32 →
      walk attr T top (n + 1) (default top root) (default top root) (start_ptr name') res → resolves attr T top n root name res.

Scheme walk_mind := Induction for walk Sort Prop
  with resolves_mind := Induction for resolves Sort Prop.
Combined Scheme walk_resolves_ind from walk_mind, resolves_mind.

(** The three ways out of a directory exclude each other. *)
Lemma dir_exclusive attr T d ptr : has attr OBJ_CASE_INSENSITIVE = false →
  (dir_stops attr T d ptr → ∀ e, ¬ dir_refuses attr T d ptr e) ∧
  (∀ el r o nm, path_element (left_of ptr) = (el, r) → element el → child T d o nm → matches attr nm el →
     ¬ dir_stops attr T d ptr ∧ ∀ e, ¬ dir_refuses attr T d ptr e) ∧
  (∀ e e', dir_refuses attr T d ptr e → dir_refuses attr T d ptr e' → e = e').
Proof.
  intros Hcase. assert (Hpe : ∀ el, element el → path_element el = (el, [])).
  { intros el [_ Hb]. induction el as [|c el IH]; [done|]. cbn. apply not_elem_of_cons in Hb as [Hc Hb].
    rewrite (proj2 (Z.eqb_neq c backslash)), IH by done. done. }
  split_and!.
  - intros [Hno|[Hel Hab]] e (l & el & r & -> & E & Hr); [by apply (Hno l)|]. cbn in Hel, Hab. rewrite (Hpe l Hel) in E. injection E as <- <-.
    destruct Hr as [[-> _]|(_ & ? & _)]; [by destruct Hel|done].
  - intros el r o nm E Hel Hch Hm. split.
    + intros [Hno|[Hel' Hab]].
      * destruct ptr as [[l|]|]; [by apply (Hno l)|cbn in E; injection E as <- _; by destruct Hel..].
      * rewrite (Hpe _ Hel') in E. injection E as <- _. by apply (Hab o nm).
    + intros e (l & el' & r' & -> & E' & Hr). cbn in E. rewrite E in E'. injection E' as <- <-.
      destruct Hr as [[-> _]|(_ & _ & Hab & _)]; [by destruct Hel|]. by apply (Hab o nm).
  - intros e e' (l & el & r & -> & E & Hr) (l' & el' & r' & [= <-] & E' & Hr'). rewrite E in E'. injection E' as <- <-.
    destruct Hr as [[-> ->]|(Hel & _ & _ & ->)], Hr' as [[H2 ->]|(Hel' & _ & _ & ->)]; try done; [by destruct Hel'|subst el; by destruct Hel].
Qed.

Ltac walk_cases :=
  repeat match goal with
  | H : is_dir _ _ _ |- _ => destruct H
  | H : is_link _ _ |- _ => destruct H as (? & ? & ? & ?)
  end; simplify_eq; try done.

(** A name occurs once in a directory, so a path leads to one result. *)
Lemma walk_unique attr T top : tree_ok top T → has attr OBJ_CASE_INSENSITIVE = false →
  (∀ n start o ptr res, walk attr T top n start o ptr res → ∀ res', walk attr T top n start o ptr res' → res = res') ∧
  (∀ n root name res, resolves attr T top n root name res → ∀ res', resolves attr T top n root name res' → res = res').
Proof.
  intros HT Hcase. assert (Hm : ∀ n1 n2, matches attr n1 n2 → n1 = n2) by (intros ??; unfold matches; by rewrite Hcase).
  assert (Hdir := λ d ptr, dir_exclusive attr T d ptr Hcase).
  apply (walk_resolves_ind attr T top
    (λ n start o ptr res _, ∀ res', walk attr T top n start o ptr res' → res = res')
    (λ n root name res _, ∀ res', resolves attr T top n root name res' → res = res')); intros.
  all: match goal with H : walk _ _ _ _ _ _ _ ?r |- _ = ?r => destruct (Hdir ltac:(match type of H with walk _ _ _ _ _ ?o _ _ => exact o end) ltac:(match type of H with walk _ _ _ _ _ _ ?p _ => exact p end)) as (D1 & D2 & D3); inversion H; subst | H : resolves _ _ _ _ _ _ ?r |- _ => inversion H; subst end.
  all: walk_cases.
  all: try match goal with
    | F : followed _ _ _ _, N : ¬ followed _ _ _ _ |- _ => destruct (N F)
    | A : dir_stops _ _ _ _, B : dir_refuses _ _ _ _ ?e |- _ => destruct (D1 A e B)
    | A : dir_refuses _ _ _ _ ?e, B : dir_refuses _ _ _ _ ?e' |- _ => by rewrite (D3 e e' A B)
    | IH : ∀ res', resolves _ _ _ _ _ _ res' → _ = res', R : resolves _ _ _ _ _ _ _ |- _ => pose proof (IH _ R); simplify_eq; by auto
    end.
  all: try match goal with
    | E : path_element _ = (?el, ?r), L : element ?el, C : child _ _ ?o ?nm, M : matches _ ?nm ?el |- _ =>
        destruct (D2 el r o nm E L C M) as [D4 D5];
        match goal with A : dir_stops _ _ _ _ |- _ => destruct (D4 A) | A : dir_refuses _ _ _ _ ?e |- _ => destruct (D5 e A) end
    end.
  all: try by auto.
  all: try lia.
  repeat match goal with M : matches _ ?b ?c |- _ => apply Hm in M end. subst.
  match goal with A : path_element ?x = _, B : path_element ?x = _ |- _ => rewrite A in B; injection B as -> -> end.
  match goal with C1 : child T ?d ?a ?nm, C2 : child T ?d ?b ?nm |- _ => assert (a = b) as -> by exact (tr_unique _ _ HT _ _ _ _ C1 C2) end. auto.
Qed.

Lemma dir_stops_rest attr T d ptr : dir_stops attr T d ptr → left_of ptr = [] ∨ element (left_of ptr) ∧ absent attr T d (left_of ptr).
Proof. intros [Hno|?]; [left|by right]. destruct ptr as [[l|]|]; [by destruct (Hno l)|done..]. Qed.

Lemma wp_directory_lookup root d ns ptr attr s w k (Q : option Z * option ustr → ns_state → world → Prop) :
  tree_ok root (shape s) → is_dir (shape s) d ns → counts_fit k s → 0 ≤ k →
  (∀ o nm el r, path_element (left_of ptr) = (el, r) → element el → child (shape s) d o nm → matches attr nm el →
     Q (Some o, next_ptr r) (bump 1 o s) w) →
  (∀ w', w_mem w' = w_mem w → w_error w' ≠ 0 → dir_refuses attr (shape s) d ptr (w_error w') → Q (None, ptr) s w') →
  (dir_stops attr (shape s) d ptr → Q (None, ptr) s w) →
  wp (directory_lookup_name casemap (Some ns) ptr attr) s w Q.
Proof.
  intros HT Hd Hc Hk Hyes Herr Hno. unfold directory_lookup_name. destruct ptr as [u|]; [|apply wp_ret, Hno; by left].
  cbn [left_of] in *. destruct (path_element (units u)) as [el r] eqn:E. destruct (path_element_spec _ _ _ E) as (Eu & Hb & Hr).
  rewrite wp_bind. eapply wp_find_object; [exact HT|exact Hd|exact Hc|exact Hk|intros o nm Hne Hch Hm; apply wp_ret; by eapply Hyes|].
  intros Hnone. rewrite wp_bind. destruct u as [l|]; [|apply wp_ret, wp_ret, Hno; by left]. cbn [units default] in *.
  destruct el as [|c el].
  { rewrite wp_set_error. apply wp_ret, Herr; [done|done|]. exists l, [], r. split_and!; [done|done|by left]. }
  destruct r as [|c' r].
  2: { rewrite wp_set_error. apply wp_ret, Herr; [done|done|]. exists l, (c :: el), (c' :: r). split_and!; [done|done|right].
       split_and!; [by split|done| |done]. intros o nm. by apply Hnone. }
  apply wp_ret, wp_ret, Hno. right. rewrite app_nil_r in Eu. cbn in Eu. subst l. split; [by split|]. intros o nm. by apply Hnone.
Qed.

(** A path that meets no link before its last element. *)
Inductive plain (attr : Z) (T : tree) : Z → list Z → Prop :=
  | plain_end p : plain attr T p []
  | plain_step p name : ¬ is_link T p →
      (∀ o nm el l, path_element name = (el, backslash :: l) → child T p o nm → matches attr nm el → plain attr T o l) → plain attr T p name.
(** A lookup either follows the links that it meets, or, with [OBJ_OPENLINK], meets none
    before the last element. *)
Definition plain_path (attr : Z) (T : tree) (parent : Z) (name : list Z) : Prop :=
  has attr OBJ_OPENLINK = false ∨ plain attr T parent name.

(** What a loop or a lookup gives, if the path leads to the results [R]. *)
Definition loop_post (attr root : Z) (R : result → Prop) (s : ns_state) (w : world) (r : Z * option ustr) (s' : ns_state) (w' : world) : Prop :=
  s' = bump 1 (r.1) s ∧ is_Some (shape s !! r.1) ∧ w_mem w' = w_mem w ∧
  R (if w_error w' =? 0 then Found (r.1) (left_of (r.2)) else Failed (w_error w')) ∧
  (w_error w' = 0 → (has attr OBJ_OPENLINK = false → is_link (shape s) (r.1) → is_link (shape s) root) ∧
     ∀ ns, is_dir (shape s) (r.1) ns → dir_stops attr (shape s) (r.1) (r.2)).
Definition lookup_post (attr : Z) (root : Z) (R : result → Prop) (s : ns_state) (w : world) (r : option (Z * list Z)) (s' : ns_state) (w' : world) : Prop :=
  w_mem w' = w_mem w ∧
  match r with
  | None => s' = s ∧ w_error w' ≠ 0 ∧ R (Failed (w_error w'))
  | Some (o, rest) => s' = bump 1 o s ∧ is_Some (shape s !! o) ∧ w_error w' = 0 ∧ R (Found o rest) ∧
      (has attr OBJ_OPENLINK = false → is_link (shape s) o → is_link (shape s) root) ∧
      ∀ ns, is_dir (shape s) o ns → rest = [] ∨ element rest ∧ absent attr (shape s) o rest
  end.

Lemma longest_target_le s o x t len : ns_objects s !! o = Some x → n_data x = Symlink (Some t) len → (length t ≤ longest_target s)%nat.
Proof.
  unfold longest_target. intros Hx Hd. revert o x Hx Hd. induction (ns_objects s) as [|i y m Hi Hf IH] using map_first_key_ind; intros o x Hx Hd; [done|].
  rewrite map_fold_insert_first_key by done. apply lookup_insert_Some in Hx as [[-> ->]|[Hne Hx]].
  - rewrite Hd. lia.
  - specialize (IH o x Hx Hd). repeat case_match; lia.
Qed.

Definition link_size (T : tree) (o : Z) : nat := match T !! o with Some (_, Symlink _ _) => 1 | _ => 0 end.

Lemma link_size_link T o : is_link T o → link_size T o = 1%nat.
Proof. intros (nm & t & len & E). unfold link_size. by rewrite E. Qed.

Lemma link_size_other T o : ¬ is_link T o → link_size T o = 0%nat.
Proof. intros H. unfold link_size. repeat case_match; try done. exfalso. apply H. by eexists _, _, _. Qed.

Lemma link_size_le T o : (link_size T o ≤ 1)%nat.
Proof. unfold link_size. repeat case_match; lia. Qed.

Lemma root_not_link root T : tree_ok root T → ¬ is_link T root.
Proof. intros HT (nm & t & len & E). destruct (tr_root _ _ HT) as [ns E']. congruence. Qed.

Lemma set_recursion_same s : set_recursion (recursion_count s) s = s.
Proof. by destruct s. Qed.

Lemma lookup_with_ok loop attr k s root name w (parent := default (root_directory s) root) :
  counts_fit k s → 1 ≤ k → is_Some (shape s !! parent) →
  (∀ name' w0, path_start root name = Some name' → recursion_count s ≤ 32 → w_error w0 = 0 → w_mem w0 = w_mem w →
     wp (loop parent (start_ptr name') attr parent) (bump 1 parent (set_recursion (recursion_count s + 1) s)) w0
       (loop_post attr parent (walk attr (shape s) (root_directory s) (recursion_count s + 1) parent parent (start_ptr name'))
          (set_recursion (recursion_count s + 1) s) w0)) →
  wp (lookup_with loop root name attr) s w
    (lookup_post attr parent (resolves attr (shape s) (root_directory s) (recursion_count s) root name) s w).
Proof.
  intros Hc Hk Hp Hloop. unfold lookup_with. rewrite wp_bind, wp_get, wp_bind.
  assert (Hstart : ∀ Q : option (list Z) → ns_state → world → Prop,
    (∀ w', path_start root name = None → w_mem w' = w_mem w → w_error w' = STATUS_OBJECT_PATH_SYNTAX_BAD → Q None s w') →
    (∀ name', path_start root name = Some name' → Q (Some name') s w) →
    wp (match root, name with
     | Some _, c :: _ => if c =? backslash then set_error STATUS_OBJECT_PATH_SYNTAX_BAD >> ret None else ret (Some name)
     | Some _, [] => ret (Some name)
     | None, c :: l => if c =? backslash then ret (Some l) else set_error STATUS_OBJECT_PATH_SYNTAX_BAD >> ret None
     | None, [] => set_error STATUS_OBJECT_PATH_SYNTAX_BAD >> ret None
     end) s w Q).
  { intros Q Herr Hok. unfold path_start in *. destruct root, name as [|c name]; try destruct (c =? backslash); rewrite ?wp_bind, ?wp_set_error; apply wp_ret;
      by (apply Herr || apply Hok). }
  apply Hstart; [intros w' Hno Hm' He; apply wp_ret; split; [done|]; rewrite He; split_and!; [done|done|by apply resolves_syntax]|].
  intros name' Hname. cbn zeta. fold parent. rewrite wp_bind.
  eapply wp_grab; [exact Hc|lia|done|]. destruct (Z.ltb_spec 32 (recursion_count s)) as [|Hrc].
  { rewrite wp_bind, wp_set_error, wp_bind. eapply wp_release; [exact Hc|done|]. apply wp_ret.
    split; [done|]. cbn. split_and!; [done|done|by eapply resolves_deep]. }
  rewrite wp_bind, wp_modify, wp_bind. unfold clear_error. rewrite wp_set_error, wp_bind.
  eapply wp_mono; [apply (Hloop name'); [done|lia|done|done]|].
  intros [o ptr] s' w' (-> & Ho & Hm & HR & Hpost). cbn [fst snd] in *. cbn [w_mem] in Hm.
  rewrite wp_bind, wp_get, wp_bind, wp_modify. cbn [recursion_count bump on_objects set_recursion].
  assert (E : set_recursion (recursion_count s + 1 - 1) (bump 1 o (set_recursion (recursion_count s + 1) s)) = bump 1 o s).
  { destruct s. unfold bump, on_objects, set_recursion. cbn. f_equal. lia. }
  rewrite E, wp_bind, wp_get_error. destruct (truth (w_error w')) eqn:He.
  - rewrite wp_bind. eapply wp_release; [exact Hc|done|]. apply wp_ret. split; [done|]. unfold truth in He. apply negb_true_iff, Z.eqb_neq in He. split_and!; [done|done|].
    rewrite (proj2 (Z.eqb_neq _ _)) in HR by done. by eapply resolves_walk.
  - apply wp_ret. assert (w_error w' = 0) as E' by by apply negb_false_iff, Z.eqb_eq in He. split; [done|]. destruct (Hpost E') as [? Hd].
    rewrite E' in HR. cbn in HR. split_and!; try done; [by eapply resolves_walk|]. intros ns Hns. by apply dir_stops_rest, (Hd ns).
Qed.

Definition targets_fit (m : nat) (T : tree) : Prop := ∀ o nm t len, T !! o = Some (nm, Symlink (Some t) len) → (length t ≤ m)%nat.

Lemma targets_fit_longest s : targets_fit (longest_target s) (shape s).
Proof. intros o nm t len (x & Hx & [= _ E])%shape_object. by eapply longest_target_le. Qed.

Lemma counts_fit_le k k' s : k' ≤ k → counts_fit k s → counts_fit k' s.
Proof. intros Hle H o x Hx. specialize (H o x Hx). lia. Qed.

Lemma left_of_start name : left_of (start_ptr name) = name.
Proof. by destruct name. Qed.

Lemma wp_symlink_lookup n lookup o nm target len ptr attr root s w k (Q : option Z * option ustr → ns_state → world → Prop) :
  let W := walk attr (shape s) (root_directory s) n root in
  tree_ok (root_directory s) (shape s) → shape s !! o = Some (nm, Symlink target len) → counts_fit k s → 1 ≤ k → w_error w = 0 →
  (∀ t, target = Some t → t ≠ [] → ¬ (left_of ptr = [] ∧ has attr OBJ_OPENLINK = true) →
     wp (lookup t attr) s w (lookup_post attr (root_directory s) (resolves attr (shape s) (root_directory s) n None t) s w)) →
  (∀ w', w_mem w' = w_mem w → w_error w' ≠ 0 → W o ptr (Failed (w_error w')) → Q (None, ptr) s w') →
  (ptr = None ∨ left_of ptr = [] ∧ has attr OBJ_OPENLINK = true ∨ o = root → W o ptr (Found o (left_of ptr)) → Q (None, ptr) s w) →
  (∀ t w', is_Some (shape s !! t) → ptr ≠ None → ¬ (left_of ptr = [] ∧ has attr OBJ_OPENLINK = true) → (has attr OBJ_OPENLINK = false → ¬ is_link (shape s) t) →
     (∀ res, W t ptr res → W o ptr res) → w_error w' = 0 → w_mem w' = w_mem w → Q (Some t, ptr) (bump 1 t s) w') →
  wp (symlink_lookup_name lookup o target len ptr attr root) s w Q.
Proof.
  intros W HT Ho Hc Hk Hw Hlookup Herr Hend Hnext. assert (is_link (shape s) o) as Hlo by by eexists _, _, _.
  assert (Hstop : ptr = None ∨ left_of ptr = [] ∧ has attr OBJ_OPENLINK = true ∨ o = root → Q (None, ptr) s w).
  { intros Hcase. apply Hend; [done|]. apply walk_link_itself; [done|]. intros (? & ? & ?). naive_solver. }
  unfold symlink_lookup_name. destruct ptr as [u|]; [|apply wp_ret, Hstop; by left].
  cbn [left_of] in *. destruct (bool_decide (units u = []) && has attr OBJ_OPENLINK) eqn:E.
  { apply andb_true_iff in E as [E%bool_decide_eq_true_1 ?]. apply wp_ret, Hstop. auto. }
  assert (Hne : ¬ (units u = [] ∧ has attr OBJ_OPENLINK = true)).
  { intros [E1 E2]. by rewrite bool_decide_eq_true_2, E2 in E. }
  destruct (Z.eqb_spec o root); [apply wp_ret, Hstop; auto|]. pose proof (root_not_link _ _ HT) as Hroot.
  assert (Hfol : followed attr root o (Some u)) by by split_and!.
  destruct (Z.eqb_spec len 0) as [->|Hlen].
  - rewrite wp_bind, wp_get, wp_bind. destruct (tr_root _ _ HT) as [ns Hr]. eapply wp_grab; [exact Hc|lia|by eexists|].
    apply wp_ret. apply Hnext; [by eexists|done..| |done|done]. intros res. by eapply walk_link_top.
  - destruct (tr_link _ _ HT _ _ _ _ Ho) as [|(t & -> & Ht & _)]; [done|]. rewrite wp_bind. apply wp_ret. rewrite wp_bind.
    eapply wp_mono; [by apply Hlookup|]. intros [[o' rest]|] s' w' [Hm Hpost].
    + destruct Hpost as (-> & Ho' & He & HR & Hl & _). destruct (decide (rest = [])) as [->|Hrest].
      * rewrite bool_decide_eq_true_2 by done. apply wp_ret, Hnext; [done..| | |done|done]; [intros Hol Hlink; by apply Hroot, Hl|]. intros res. by eapply walk_link.
      * rewrite bool_decide_eq_false_2 by done. rewrite wp_bind. eapply wp_release; [exact Hc|done|].
        rewrite wp_bind, wp_set_error. apply wp_ret, Herr; [done|done|]. by eapply walk_link_rest.
    + destruct Hpost as (-> & He & HR). apply wp_ret, Herr; [done|done|]. by eapply walk_link_fails.
Qed.

(** Links are at most 33 deep, and each step of a loop takes an element of the path or
    leaves a link. *)
Lemma lookup_loop_ok n : ∀ attr m k s parent ptr root w,
  tree_ok (root_directory s) (shape s) → targets_fit m (shape s) → counts_fit k s → 1 ≤ recursion_count s ≤ 33 → 35 - recursion_count s ≤ k →
  is_Some (shape s !! parent) → plain_path attr (shape s) parent (left_of ptr) → (ptr = None → parent = root) → w_error w = 0 →
  (2 * length (left_of ptr) + 1 + link_size (shape s) parent + Z.to_nat (33 - recursion_count s) * (2 * m + 4) ≤ n)%nat →
  wp (lookup_loop casemap n parent ptr attr root) (bump 1 parent s) w
    (loop_post attr root (walk attr (shape s) (root_directory s) (recursion_count s) root parent ptr) s w).
Proof.
  induction n as [|n IH]; intros attr m k s parent ptr root w HT Hm Hc Hrc Hk Hp Hplain Hptr Hw Hn; [lia|].
  cbn [lookup_loop]. destruct Hp as [[nm d] Hp]. destruct (shape_object _ _ _ Hp) as (x & Hx & Hs). injection Hs as Hnm Hd.
  unfold read_object. rewrite wp_bind, wp_bind, wp_get, (bump_object _ _ _ _ Hx). apply wp_ret. rewrite wp_bind. cbn [n_data set_refcount]. rewrite Hd.
  assert (Hc1 : counts_fit (k - 1) (bump 1 parent s)) by (apply counts_fit_bump; by replace (k - 1 + 1) with k by lia).
  set (W := walk attr (shape s) (root_directory s) (recursion_count s) root).
  (* the loop ends here *)
  assert (Hend : ∀ w', w_mem w' = w_mem w → W parent ptr (if w_error w' =? 0 then Found parent (left_of ptr) else Failed (w_error w')) →
    (w_error w' = 0 → (has attr OBJ_OPENLINK = false → is_link (shape s) parent → is_link (shape s) root) ∧
       ∀ ns, is_dir (shape s) parent ns → dir_stops attr (shape s) parent ptr) →
    wp (ret (parent, ptr)) (bump 1 parent s) w' (loop_post attr root (W parent ptr) s w)).
  { intros w' Hw' HW H. apply wp_ret. split_and!; [done|by eexists|done|done|exact H]. }
  assert (Hfail : ∀ w', w_mem w' = w_mem w → w_error w' ≠ 0 → W parent ptr (Failed (w_error w')) →
    wp (ret (parent, ptr)) (bump 1 parent s) w' (loop_post attr root (W parent ptr) s w)).
  { intros w' Hw' He HW. apply Hend; [done|by rewrite (proj2 (Z.eqb_neq _ _))|done]. }
  (* the loop goes on at [o] *)
  assert (Hnext : ∀ o ptr', is_Some (shape s !! o) → ptr' ≠ None → plain_path attr (shape s) o (left_of ptr') →
    (2 * length (left_of ptr') + 1 + link_size (shape s) o < 2 * length (left_of ptr) + 1 + link_size (shape s) parent)%nat →
    (∀ res, W o ptr' res → W parent ptr res) →
    ∀ w', w_error w' = 0 → w_mem w' = w_mem w →
    wp (release_object parent >> lookup_loop casemap n o ptr' attr root) (bump 1 o (bump 1 parent s)) w' (loop_post attr root (W parent ptr) s w)).
  { intros o ptr' Ho Hptr' Hpl Hlt HW w' Hw' Hm'. rewrite wp_bind. eapply wp_move; [by replace k with (k - 1 + 1) in Hc by lia|by eexists|].
    eapply wp_mono; [eapply (IH attr m k s); try done; lia|]. intros r s' w'' (? & ? & Hmem & ? & ?). split_and!; [done..|congruence|by apply HW|done]. }
  destruct d as [entries|target len|ty].
  - destruct (tr_dir _ _ HT _ _ _ Hp) as (ns & -> & _). assert (is_dir (shape s) parent ns) as Hdir by by eexists.
    eapply (wp_directory_lookup (root_directory s) parent ns); [by rewrite shape_bump..|exact Hc1|lia| | |]; rewrite ?shape_bump.
    + intros o nm' el r E Hel Hch Hmt. cbn [fst snd]. destruct (path_element_spec _ _ _ E) as (Eu & _ & Hr).
      apply Hnext; [by destruct Hch; eexists|done| | | |done|done].
      * destruct Hplain as [|Hpl]; [by left|right]. destruct Hr as [->|[l ->]]; [constructor|]. revert E. intros E. inversion Hpl as [p' Ep En|p' nm2 _ Hstep Ep En]; [|by eapply Hstep].
        rewrite <-En in E. injection E as <- _. by destruct Hel.
      * rewrite Eu, length_app. destruct Hel as [Hne _]. destruct el; [done|]. pose proof (link_size_le (shape s) o).
        destruct Hr as [->|[l ->]]; cbn; lia.
      * intros res. by eapply walk_child.
    + intros w' Hw' He Href. cbn [fst snd]. apply Hfail; [done|done|]. by eapply walk_dir_refuses.
    + intros Hstop. cbn [fst snd]. apply Hend; [done|rewrite Hw; by eapply walk_dir_stops|]. intros _. by split; [intros _ (? & ? & ? & ?); congruence|].
  - pose proof (root_not_link _ _ HT) as Hroot. assert (is_link (shape s) parent) as Hlink by by eexists _, _, _.
    pose proof (link_size_link _ _ Hlink) as Hls.
    assert (Hol : ¬ (left_of ptr = [] ∧ has attr OBJ_OPENLINK = true) → has attr OBJ_OPENLINK = false).
    { intros Hno. destruct Hplain as [|Hpl]; [done|]. destruct (has attr OBJ_OPENLINK); [|done]. exfalso. apply Hno. split; [|done].
      inversion Hpl; [done|by subst]. }
    eapply (wp_symlink_lookup (recursion_count s) _ _ nm _ _ _ _ _ _ _ (k - 1)); rewrite ?shape_bump; [done|done|exact Hc1|lia|done|..].
    + intros t -> Ht Hno. assert (length t ≤ m)%nat as Htm by by eapply Hm. set (s1 := bump 1 parent s) in *.
      assert (shape s1 = shape s) as Es by apply shape_bump. rewrite <-Es.
      apply (lookup_with_ok _ attr (k - 1) s1 None t w); [exact Hc1|lia|cbn [default]; change (root_directory s1) with (root_directory s); rewrite Es; destruct (tr_root _ _ HT) as [? E]; by eexists|].
      intros name' w0 Hname Hrc' Hw0 Hm0. cbn [default] in *. change (root_directory s1) with (root_directory s) in *.
      change (recursion_count s1) with (recursion_count s) in *.
      assert (S (length name') ≤ length t)%nat by (unfold path_start in Hname; destruct t as [|c t]; [done|]; destruct (c =? backslash); simplify_eq; cbn; lia).
      eapply wp_mono; [apply (IH attr m (k - 1) (set_recursion (recursion_count s + 1) s1) (root_directory s) (start_ptr name') (root_directory s) w0)|by intros];
        cbn [recursion_count set_recursion root_directory]; try done; rewrite ?left_of_start;
        change (shape (set_recursion _ s1)) with (shape s1); rewrite ?Es; try done; try lia.
      * destruct (tr_root _ _ HT) as [? E]. by eexists.
      * left. by apply Hol.
      * rewrite (link_size_other _ _ Hroot). assert (E : Z.to_nat (33 - recursion_count s) = S (Z.to_nat (33 - (recursion_count s + 1)))) by lia.
        rewrite E, Nat.mul_succ_l in Hn. lia.
    + intros w' Hw' He HW. cbn [fst snd]. by apply Hfail.
    + intros Hcase HW. cbn [fst snd]. apply Hend; [done|by rewrite Hw|]. intros _. split; [|intros ns [? ?]; congruence].
      intros Hopen _. destruct Hcase as [E|[[_ E]|E]]; [by rewrite <-(Hptr E)|congruence|by rewrite <-E].
    + intros t w' Ht Hne Hno Hnl HW Hw' Hm'. cbn [fst snd]. apply Hnext; [done|done|left; by apply Hol| |done|done|done].
      rewrite (link_size_other _ _ (Hnl (Hol Hno))). lia.
  - unfold no_lookup_name. rewrite wp_bind. unfold when. case_bool_decide as Eptr; [rewrite wp_set_error|apply wp_ret]; apply wp_ret; cbn [fst snd].
    + apply Hfail; [done|done|]. subst ptr. by eapply walk_no_directory.
    + apply Hend; [done|rewrite Hw; by eapply walk_no_names|]. intros _. split; [intros _ (? & ? & ? & ?); congruence|]. intros ns' [? ?]. congruence.
Qed.

(** The path of a lookup that ends: links may be followed, or there are none on the way. *)
Definition safe_path (attr : Z) (s : ns_state) (root : option Z) (name : list Z) : Prop :=
  ∀ name', path_start root name = Some name' → plain_path attr (shape s) (default (root_directory s) root) name'.

Lemma lookup_named_ok attr k s root name w (parent := default (root_directory s) root) :
  tree_ok (root_directory s) (shape s) → counts_fit k s → 35 ≤ k → recursion_count s = 0 → is_Some (shape s !! parent) →
  safe_path attr s root name → wp (lookup_named_object casemap root name attr) s w
    (lookup_post attr parent (resolves attr (shape s) (root_directory s) 0 root name) s w).
Proof.
  intros HT Hc Hk Hrc Hp Hsafe. unfold lookup_named_object. rewrite wp_bind, wp_get. rewrite <-Hrc. eapply lookup_with_ok; [exact Hc|lia|done|].
  intros name' w0 Hname _ Hw0 Hm0. eapply (lookup_loop_ok _ attr (longest_target s) k); cbn [recursion_count set_recursion root_directory];
    change (shape (set_recursion _ s)) with (shape s); rewrite ?left_of_start; try done; try lia.
  - apply targets_fit_longest.
  - by apply Hsafe.
  - pose proof (link_size_le (shape s) parent).
    assert (length name' ≤ length name)%nat by (unfold path_start in Hname; destruct root, name as [|c name]; try destruct (c =? backslash); simplify_eq; cbn; lia).
    unfold lookup_fuel. rewrite Hrc. replace (Z.to_nat (33 - (0 + 1))) with 32%nat by done. fold parent. lia.
Qed.

(** ** The references held by names *)

Definition children (T : tree) (o : Z) : Z :=
  Z.of_nat (size (filter (λ p : Z * (option (list Z * Z) * object_data), snd <$> p.2.1 = Some o) T)).

Lemma children_le T o : children T o ≤ Z.of_nat (size T).
Proof. unfold children. apply inj_le, map_size_le, map_filter_subseteq. Qed.

Lemma children_none T o c name : children T o = 0 → ¬ child T o c name.
Proof.
  intros H [d Hc]. unfold children in H.
  assert (filter (λ p : Z * (option (list Z * Z) * object_data), snd <$> p.2.1 = Some o) T = ∅) as E by (apply map_size_empty_iff; lia).
  apply (f_equal (λ m, m !! c)) in E. rewrite lookup_empty in E. apply map_lookup_filter_None in E as [E|E]; [congruence|]. by eapply E.
Qed.

Lemma children_update T i nm d d' o : T !! i = Some (nm, d) → children (<[i := (nm, d')]> T) o = children T o.
Proof.
  intros Hi. unfold children. destruct (decide (snd <$> nm = Some o)) as [E|E].
  - rewrite map_filter_insert_True by done. f_equal. rewrite map_size_insert_Some; [done|]. exists (nm, d). by apply map_lookup_filter_Some.
  - rewrite map_filter_insert_False by done. rewrite map_filter_delete_not; [done|]. intros ? E'. rewrite Hi in E'. by simplify_eq.
Qed.

Lemma children_insert T i nm d o : T !! i = None →
  children (<[i := (nm, d)]> T) o = children T o + (if decide (snd <$> nm = Some o) then 1 else 0).
Proof.
  intros Hi. unfold children. case_decide as E.
  - rewrite map_filter_insert_True by done. rewrite map_size_insert_None; [lia|]. apply map_lookup_filter_None. by left.
  - rewrite map_filter_insert_False by done. rewrite map_filter_delete, delete_id; [lia|]. apply map_lookup_filter_None. by left.
Qed.

Lemma children_delete T i nm d o : T !! i = Some (nm, d) →
  children (delete i T) o = children T o - (if decide (snd <$> nm = Some o) then 1 else 0).
Proof.
  intros Hi. rewrite <-(insert_delete_id T i (nm, d)) at 2 by done. rewrite children_insert by apply lookup_delete_eq. lia.
Qed.

(** ** Changes of the tree *)

Definition unlink_data (o : Z) (d : object_data) : object_data :=
  match d with
  | Directory (Some ns) => Directory (Some (Namespace (hash_size ns) (map (filter (λ i, i ≠ o)) (names ns))))
  | _ => d
  end.
Definition unlinked (o : Z) (p : option (list Z * Z) * object_data) : option (list Z * Z) * object_data := (p.1, unlink_data o (p.2)).
Definition without (o : Z) (T : tree) : tree := unlinked o <$> delete o T.

Lemma without_lookup o T i p : without o T !! i = Some p ↔ i ≠ o ∧ ∃ p', T !! i = Some p' ∧ p = unlinked o p'.
Proof.
  unfold without. rewrite lookup_fmap, fmap_Some. setoid_rewrite lookup_delete_Some. naive_solver.
Qed.

Lemma without_child o T d c name : child (without o T) d c name ↔ c ≠ o ∧ child T d c name.
Proof.
  unfold child. setoid_rewrite without_lookup. split.
  - intros (dt & ? & [nm d'] & Hp & E). unfold unlinked in E. cbn in E. simplify_eq. eauto.
  - intros (? & dt & Hp). exists (unlink_data o dt). split; [done|]. by exists (Some (name, d), dt).
Qed.

Lemma unlink_data_dir o d ns : unlink_data o d = Directory (Some ns) → ∃ ns', d = Directory (Some ns') ∧
  ns = Namespace (hash_size ns') (map (filter (λ i, i ≠ o)) (names ns')).
Proof. destruct d as [[ns'|]| |]; cbn; intros E; simplify_eq; eauto. Qed.

Lemma without_ok root T o : tree_ok root T → o ≠ root → (∀ c name, ¬ child T o c name) → tree_ok root (without o T).
Proof.
  intros HT Hne Hch. split.
  - destruct (tr_root _ _ HT) as [ns Hr]. eexists. apply without_lookup. split; [done|]. by eexists.
  - intros d nm e (_ & [nm' d'] & Hd & E)%without_lookup. unfold unlinked in E. cbn in E. injection E as -> E. destruct d' as [e'| |]; cbn in E; try done.
    destruct (tr_dir _ _ HT _ _ _ Hd) as (ns & -> & ? & ?). injection E as ->. eexists. split; [done|]. cbn. by rewrite length_map.
  - intros d ns h l [nm (Hdo & [nm' d'] & Hd & E)%without_lookup] Hl. unfold unlinked in E. cbn in E. injection E as -> E.
    symmetry in E. apply unlink_data_dir in E as (ns' & -> & ->). cbn in Hl. apply list_lookup_fmap_Some in Hl as (l' & -> & Hl').
    destruct (tr_bucket _ _ HT d ns' h l') as [Hnd Hb]; [by eexists|done|]. split; [by apply NoDup_filter|].
    intros c [Hc Hcl]%list_elem_of_filter. destruct (Hb c Hcl) as (name & ? & ?). exists name. by rewrite without_child.
  - intros d c name [Hc Hcd]%without_child. destruct (tr_child _ _ HT _ _ _ Hcd) as (? & ? & ns & l & [nm Hd] & Hl & Hcl).
    split; [done|]. split; [done|]. eexists (Namespace (hash_size ns) _), (filter (λ i, i ≠ o) l). split_and!.
    + exists nm. apply without_lookup. split; [|by eexists]. intros ->. by eapply Hch.
    + cbn. rewrite list_lookup_fmap, Hl. done.
    + by apply list_elem_of_filter.
  - intros d c c' name [_ Hc]%without_child [_ Hc']%without_child. by eapply (tr_unique _ _ HT).
  - intros c nm t len (_ & [nm' d'] & Hd & E)%without_lookup. unfold unlinked in E. cbn in E. injection E as -> E.
    destruct d' as [[]| |]; cbn in E; simplify_eq. by eapply (tr_link _ _ HT).
Qed.

Lemma unlink_absent root T i nm d o : tree_ok root T → T !! i = Some (nm, d) → (∀ name, ¬ child T i o name) → unlinked o (nm, d) = (nm, d).
Proof.
  intros HT Hi Hno. unfold unlinked. cbn. f_equal. destruct d as [[[n ls]|]| |]; try done. cbn. do 3 f_equal. apply list_eq. intros h.
  rewrite list_lookup_fmap. destruct (ls !! h) as [l|] eqn:El; [|done]. cbn. f_equal. apply filter_all. intros c Hc ->.
  destruct (tr_bucket _ _ HT i (Namespace n ls) h l) as [_ Hb]; [by eexists|done|]. destruct (Hb o Hc) as (name & Hch & _). by eapply Hno.
Qed.

(** The same change at the parent alone. *)
Lemma without_parent root T o nm p d : tree_ok root T → T !! o = Some (Some (nm, p), d) → without o T = alter (unlinked o) p (delete o T).
Proof.
  intros HT Ho. apply map_eq. intros i. unfold without. rewrite lookup_fmap, lookup_alter. destruct (decide (p = i)) as [->|Hne]; [done|].
  destruct (delete o T !! i) as [[nm' d']|] eqn:E; [|done]. cbn. apply lookup_delete_Some in E as [_ E]. f_equal.
  eapply unlink_absent; [done..|]. intros name [? Hch]. congruence.
Qed.

Lemma without_unnamed root T o d : tree_ok root T → T !! o = Some (None, d) → without o T = delete o T.
Proof.
  intros HT Ho. apply map_eq. intros i. unfold without. rewrite lookup_fmap.
  destruct (delete o T !! i) as [[nm' d']|] eqn:E; [|done]. cbn. apply lookup_delete_Some in E as [_ E]. f_equal.
  eapply unlink_absent; [done..|]. intros name [? Hch]. congruence.
Qed.

(** A new object, below the directory [p] or without a name. *)
Definition data_ok (d : object_data) : Prop :=
  match d with
  | Directory e => e = Some (Namespace HASH_SIZE (replicate 7 []))
  | Symlink t len => len = 0 ∨ ∃ t', t = Some t' ∧ t' ≠ [] ∧ len = wlen t'
  | Other _ => True
  end.
Definition link_into (o : Z) (name : list Z) (ns : namespace) : namespace :=
  Namespace (hash_size ns) (alter (cons o) (hash name) (names ns)).

Lemma link_into_bucket o name ns h l : names (link_into o name ns) !! h = Some l →
  names ns !! h = Some l ∧ h ≠ hash name ∨ h = hash name ∧ ∃ l', names ns !! h = Some l' ∧ l = o :: l'.
Proof.
  unfold link_into. cbn. destruct (decide (hash name = h)) as [<-|Hne].
  - rewrite list_lookup_alter_eq. intros (l' & ? & ->)%fmap_Some. right. eauto.
  - rewrite list_lookup_alter_ne by done. auto.
Qed.

Definition inserted (o : Z) (name : list Z) (p : Z) (pnm : option (list Z * Z)) (ns : namespace) (d : object_data) (T : tree) : tree :=
  <[o := (Some (name, p), d)]> (<[p := (pnm, Directory (Some (link_into o name ns)))]> T).

Lemma inserted_ok root T o name p pnm ns d : tree_ok root T → T !! p = Some (pnm, Directory (Some ns)) → T !! o = None → p < o →
  element name → (∀ c, ¬ child T p c name) → data_ok d → tree_ok root (inserted o name p pnm ns d T).
Proof.
  intros HT Hp Ho Hlt Hel Huniq Hd. assert (o ≠ p) as Hop by lia. destruct (tr_dir _ _ HT _ _ _ Hp) as (ns' & [= <-] & Hh & Hlen).
  assert (Hl : ∃ l, names ns !! hash name = Some l) by (apply lookup_lt_is_Some_2; pose proof (hash_range name); unfold HASH_SIZE in *; lia).
  set (T' := inserted o name p pnm ns d T).
  assert (Hch : ∀ e c nm, child T' e c nm ↔ child T e c nm ∨ c = o ∧ e = p ∧ nm = name).
  { intros e c nm. unfold child, T', inserted. destruct (decide (o = c)) as [<-|Hc].
    - rewrite lookup_insert_eq. split; [intros (dt & [= -> -> _]); auto|]. intros [[? E]|(_ & -> & ->)]; [congruence|eauto].
    - rewrite lookup_insert_ne by done. destruct (decide (p = c)) as [<-|]; [|rewrite lookup_insert_ne by done; naive_solver].
      rewrite lookup_insert_eq. split; [intros (dt & [= -> _]); left; eauto|]. intros [[? E]|(-> & _)]; [rewrite Hp in E; injection E as -> _; eauto|done]. }
  assert (Hlook : ∀ e q, T' !! e = Some q → e ≠ o → e ≠ p → T !! e = Some q).
  { intros e q. unfold T', inserted. intros H ??. by rewrite !lookup_insert_ne in H by done. }
  assert (Ho' : T' !! o = Some (Some (name, p), d)) by apply lookup_insert_eq.
  assert (Hp' : T' !! p = Some (pnm, Directory (Some (link_into o name ns)))) by (unfold T', inserted; rewrite lookup_insert_ne by done; apply lookup_insert_eq).
  assert (Hlen' : Z.of_nat (length (names (link_into o name ns))) = HASH_SIZE) by (cbn; by rewrite length_alter).
  split.
  - destruct (tr_root _ _ HT) as [rns Hr]. destruct (decide (root = p)) as [->|]; [rewrite Hp in Hr; injection Hr as ->; by eexists|].
    exists rns. unfold T', inserted. rewrite !lookup_insert_ne; [done|done|]. intros ->. congruence.
  - intros e nm en He. destruct (decide (e = o)) as [->|]; [|destruct (decide (e = p)) as [->|]].
    + rewrite Ho' in He. injection He as <- ->. cbn in Hd. subst en. eexists. split_and!; done.
    + rewrite Hp' in He. injection He as <- <-. eexists. split_and!; done.
    + by eapply (tr_dir _ _ HT), Hlook.
  - intros e ens h l [nm He] Hel'. destruct (decide (e = o)) as [->|]; [|destruct (decide (e = p)) as [->|]].
    + rewrite Ho' in He. injection He as _ ->. cbn [data_ok] in Hd. assert (ens = Namespace HASH_SIZE (replicate 7 [])) as -> by congruence. cbn [names] in Hel'. apply lookup_replicate in Hel' as [-> _].
      split; [constructor|]. by intros c ?%not_elem_of_nil.
    + rewrite Hp' in He. injection He as _ <-. apply link_into_bucket in Hel' as [[Hl' _]|(-> & l' & Hl' & ->)].
      * destruct (tr_bucket _ _ HT p ns h l) as [? Hb]; [by eexists|done|]. split; [done|]. intros c Hc. destruct (Hb c Hc) as (nm' & ? & ?).
        exists nm'. rewrite Hch. auto.
      * destruct (tr_bucket _ _ HT p ns (hash name) l') as [? Hb]; [by eexists|done|]. split.
        -- constructor; [|done]. intros Hc. destruct (Hb o Hc) as (nm' & [? E] & _). congruence.
        -- intros c [->|Hc]%elem_of_cons; [exists name; rewrite Hch; auto|]. destruct (Hb c Hc) as (nm' & ? & ?). exists nm'. rewrite Hch. auto.
    + destruct (tr_bucket _ _ HT e ens h l) as [? Hb]; [exists nm; by apply Hlook|done|]. split; [done|]. intros c Hc.
      destruct (Hb c Hc) as (nm' & ? & ?). exists nm'. rewrite Hch. auto.
  - intros e c nm [Hc|(-> & -> & ->)]%Hch.
    + destruct (tr_child _ _ HT _ _ _ Hc) as (? & ? & ens & l' & [enm He] & Hl' & Hcl). split; [done|]. split; [done|].
      destruct (decide (e = p)) as [->|].
      * rewrite Hp in He. injection He as <- <-. destruct (decide (hash nm = hash name)) as [E|E].
        -- eexists (link_into o name ns), (o :: l'). split; [by eexists|]. split; [|by right]. cbn. rewrite E, list_lookup_alter_eq.
           cbn in E. rewrite E in Hl'. by rewrite Hl'.
        -- eexists (link_into o name ns), l'. split; [by eexists|]. split; [|done]. cbn. by rewrite list_lookup_alter_ne.
      * exists ens, l'. split; [|done]. exists enm. unfold T', inserted. rewrite !lookup_insert_ne; [done|done|]. intros ->. congruence.
    + destruct Hl as [l Hl]. split; [done|]. split; [done|]. eexists (link_into o name ns), (o :: l). split; [by eexists|]. split; [|left].
      cbn. by rewrite list_lookup_alter_eq, Hl.
  - intros e c c' nm [Hc|(-> & -> & ->)]%Hch [Hc'|(-> & E & E')]%Hch; [by eapply (tr_unique _ _ HT)| | |done]; exfalso.
    + subst. by eapply Huniq.
    + by eapply Huniq.
  - intros e nm t len He. destruct (decide (e = o)) as [->|]; [|destruct (decide (e = p)) as [->|]].
    + rewrite Ho' in He. by injection He as <- ->.
    + congruence.
    + by eapply (tr_link _ _ HT), Hlook.
Qed.

Lemma inserted_unnamed_ok root T o d : tree_ok root T → T !! o = None → data_ok d → tree_ok root (<[o := (None, d)]> T).
Proof.
  intros HT Ho Hd. assert (Hch : ∀ e c nm, child (<[o := (None, d)]> T) e c nm ↔ child T e c nm).
  { intros e c nm. unfold child. destruct (decide (o = c)) as [<-|Hc]; [|by rewrite lookup_insert_ne].
    rewrite lookup_insert_eq. split; intros [? E]; congruence. }
  assert (Hold : ∀ e q, T !! e = Some q → <[o := (None, d)]> T !! e = Some q) by (intros e q H; rewrite lookup_insert_ne; [done|]; intros ->; congruence).
  split.
  - destruct (tr_root _ _ HT) as [ns Hr]. exists ns. by apply Hold.
  - intros e nm en [[<- [= <- ->]]|[_ He]]%lookup_insert_Some; [|by eapply (tr_dir _ _ HT)]. cbn in Hd. subst en. by eexists.
  - intros e ens h l [nm [[<- [= <- ->]]|[_ He]]%lookup_insert_Some] Hl.
    + cbn [data_ok] in Hd. assert (ens = Namespace HASH_SIZE (replicate 7 [])) as -> by congruence. cbn [names] in Hl.
      apply lookup_replicate in Hl as [-> _]. split; [constructor|]. by intros c ?%not_elem_of_nil.
    + destruct (tr_bucket _ _ HT e ens h l) as [? Hb]; [by exists nm|done|]. split; [done|]. intros c Hc. destruct (Hb c Hc) as (nm' & ? & ?).
      exists nm'. by rewrite Hch.
  - intros e c nm Hc%Hch. destruct (tr_child _ _ HT _ _ _ Hc) as (? & ? & ens & l & [enm He] & ?). split; [done|]. split; [done|].
    exists ens, l. split; [|done]. exists enm. by apply Hold.
  - intros e c c' nm Hc%Hch Hc'%Hch. by eapply (tr_unique _ _ HT).
  - intros e nm t len [[<- [= <- ->]]|[_ He]]%lookup_insert_Some; [done|by eapply (tr_link _ _ HT)].
Qed.

(** ** The invariant *)

Definition permanence (x : object) : Z := if n_permanent x then 1 else 0.

(** [extra] are references that the running request holds. *)
Record inv (extra : list Z) (s : ns_state) : Prop := {
  inv_tree : tree_ok (root_directory s) (shape s);
  inv_recursion : recursion_count s = 0;
  inv_refs o x : ns_objects s !! o = Some x →
    1 ≤ n_refcount x ∧ n_refcount x = count o (ns_handles s) + count o extra + children (shape s) o + permanence x;
  inv_held o : o ∈ ns_handles s ++ extra → is_Some (ns_objects s !! o);
  inv_root x : ns_objects s !! root_directory s = Some x → n_permanent x = true
}.

Lemma count_remove o i l : i ∈ l → count o l = count o (remove_one i l) + (if decide (i = o) then 1 else 0).
Proof.
  induction l as [|j l IH]; [by intros ?%not_elem_of_nil|]. cbn [remove_one]. intros Hi. destruct (Z.eqb_spec j i) as [->|Hne]; [by rewrite count_cons|].
  apply elem_of_cons in Hi as [?|Hi]; [done|]. rewrite !count_cons, (IH Hi). lia.
Qed.

Lemma elem_of_remove_one o i l : o ∈ remove_one i l → o ∈ l.
Proof.
  induction l as [|j l IH]; cbn [remove_one]; [done|]. destruct (j =? i); [by right|]. intros [->|?]%elem_of_cons; [left|right; auto].
Qed.

Lemma children_nonneg T o : 0 ≤ children T o.
Proof. unfold children. lia. Qed.

Lemma size_shape s : size (shape s) = size (ns_objects s).
Proof. apply map_size_fmap. Qed.

(** Room for [k] more references. *)
Definition fits (k : Z) (extra : list Z) (s : ns_state) : Prop :=
  Z.of_nat (length (ns_handles s)) + Z.of_nat (length extra) + Z.of_nat (size (ns_objects s)) + 1 + k < INT_MAX.

Lemma inv_counts k extra s : inv extra s → fits k extra s → counts_fit k s.
Proof.
  intros H Hf o x Hx. destruct (inv_refs _ _ H o x Hx) as [? E]. pose proof (count_le o (ns_handles s)). pose proof (count_le o extra).
  pose proof (children_le (shape s) o) as Hch. rewrite size_shape in Hch. unfold fits, permanence in *. destruct (n_permanent x); lia.
Qed.

Lemma inv_dom extra s o : inv extra s → o ∈ ns_handles s ++ extra → is_Some (shape s !! o).
Proof. intros H [x Hx]%(inv_held _ _ H). rewrite (shape_lookup _ _ _ Hx). eauto. Qed.

Lemma inv_bump extra s o : inv extra s → is_Some (shape s !! o) → inv (o :: extra) (bump 1 o s).
Proof.
  intros H [p (x & Hx & _)%shape_object]. split.
  - rewrite shape_bump. apply H.
  - apply H.
  - intros i y Hy. rewrite bump_lookup in Hy. rewrite shape_bump, count_cons. cbn [ns_handles bump on_objects]. case_decide as E.
    + subst. rewrite Hx in Hy. cbn in Hy. injection Hy as <-. destruct (inv_refs _ _ H i x Hx). cbn. unfold permanence in *. cbn. lia.
    + destruct (inv_refs _ _ H i y Hy). lia.
  - intros i Hi. rewrite bump_lookup. assert (i = o ∨ i ∈ ns_handles s ++ extra) as Hi' by set_solver. case_decide as E.
    + subst. rewrite Hx. by eexists.
    + destruct Hi' as [->|Hi']; [done|]. by apply (inv_held _ _ H).
  - intros y Hy. change (root_directory (bump 1 o s)) with (root_directory s) in Hy. rewrite bump_lookup in Hy. case_decide as E; [|by apply (inv_root _ _ H)].
    apply fmap_Some in Hy as (z & Hz & ->). subst. exact (inv_root _ _ H z Hz).
Qed.

(** ** Releasing *)

Lemma unlink_entry_shape o x : shape_of (unlink_entry o x) = unlinked o (shape_of x).
Proof. destruct x as [r b nm d]. unfold unlink_entry, unlinked, shape_of. cbn. by destruct d as [[ns|]| |]. Qed.

Lemma unlink_entry_same o x : n_refcount (unlink_entry o x) = n_refcount x ∧ n_permanent (unlink_entry o x) = n_permanent x ∧ n_name (unlink_entry o x) = n_name x.
Proof. unfold unlink_entry. by repeat case_match. Qed.

Lemma children_without root T o nm d i : tree_ok root T → T !! o = Some (nm, d) →
  children (without o T) i = children T i - (if decide (snd <$> nm = Some i) then 1 else 0).
Proof.
  intros HT Ho. destruct nm as [[nm p]|].
  - rewrite (without_parent _ _ _ _ _ _ HT Ho), <-(children_delete T o (Some (nm, p)) d i Ho).
    destruct (delete o T !! p) as [[pnm pd]|] eqn:Hp; [|by rewrite alter_id_present; [|congruence]].
    rewrite (alter_present _ _ _ _ Hp). by apply children_update with pd.
  - rewrite (without_unnamed _ _ _ _ HT Ho). by apply children_delete with d.
Qed.

(** The last reference is gone: the object leaves the tree, and its name's reference on
    the parent is left over. *)
Definition freed (o : Z) (x : object) (s : ns_state) : ns_state :=
  let s := on_objects (delete o) s in
  match n_name x with Some (_, p) => on_objects (alter (unlink_entry o) p) s | None => s end.

Lemma freed_shape o x s : tree_ok (root_directory s) (shape s) → ns_objects s !! o = Some x → shape (freed o x s) = without o (shape s).
Proof.
  intros HT Hx. pose proof (shape_lookup _ _ _ Hx) as Ho. unfold freed. destruct x as [r b nm d]. unfold shape_of in Ho. cbn in *. destruct nm as [[nm p]|].
  - rewrite (without_parent _ _ _ _ _ _ HT Ho). unfold shape. cbn. apply map_eq. intros i.
    rewrite lookup_fmap, !lookup_alter, <-fmap_delete, !lookup_fmap. repeat case_decide; subst; [|done].
    destruct (delete o (ns_objects s) !! i) as [y|]; [|done]. cbn. by rewrite unlink_entry_shape.
  - rewrite (without_unnamed _ _ _ _ HT Ho). unfold shape. cbn. apply fmap_delete.
Qed.

Lemma freed_inv extra o x s : inv (o :: extra) s → ns_objects s !! o = Some x → n_refcount x = 1 →
  inv (match n_name x with Some (_, p) => p :: extra | None => extra end) (freed o x s) ∧ o ∉ ns_handles s ++ extra.
Proof.
  intros H Hx Hr. destruct (inv_refs _ _ H o x Hx) as [_ E]. rewrite count_cons, decide_True, Hr in E by done.
  pose proof (count_nonneg o (ns_handles s)). pose proof (count_nonneg o extra). pose proof (children_nonneg (shape s) o).
  assert (permanence x = 0 ∧ children (shape s) o = 0) as [Hperm Hch] by (unfold permanence in *; destruct (n_permanent x); lia).
  assert (Hnot : o ∉ ns_handles s ++ extra).
  { intros [Ho|Ho]%elem_of_app; apply count_elem in Ho; unfold permanence in *; destruct (n_permanent x); lia. }
  pose proof (shape_lookup _ _ _ Hx) as Ho.
  assert (Hroot : o ≠ root_directory s).
  { intros ->. pose proof (inv_root _ _ H x Hx) as Hp. unfold permanence in Hperm. by rewrite Hp in Hperm. }
  assert (Hdel : ∀ i y, ns_objects (freed o x s) !! i = Some y → i ≠ o ∧ ∃ z, ns_objects s !! i = Some z ∧
    n_refcount y = n_refcount z ∧ n_permanent y = n_permanent z).
  { intros i y. unfold freed. destruct (n_name x) as [[nm p]|]; cbn; [rewrite lookup_alter; case_decide as Ei; [subst; intros (z & Hz & ->)%fmap_Some|intros Hz]|intros Hz];
      apply lookup_delete_Some in Hz as [? Hz]; split; auto; eexists; (split; [exact Hz|]); try done.
    by destruct (unlink_entry_same o z) as (? & ? & _). }
  assert (Hkeep : ∀ i, i ≠ o → is_Some (ns_objects s !! i) → is_Some (ns_objects (freed o x s) !! i)).
  { intros i Hi [z Hz]. unfold freed. destruct (n_name x) as [[nm p]|]; cbn; [rewrite lookup_alter; case_decide; subst|];
      rewrite lookup_delete_ne by done; rewrite Hz; eauto. }
  assert (Hrd : root_directory (freed o x s) = root_directory s) by (unfold freed; by destruct (n_name x) as [[]|]).
  assert (Hhd : ns_handles (freed o x s) = ns_handles s) by (unfold freed; by destruct (n_name x) as [[]|]).
  assert (Hrc : recursion_count (freed o x s) = recursion_count s) by (unfold freed; by destruct (n_name x) as [[]|]).
  pose proof (freed_shape o x s (inv_tree _ _ H) Hx) as Hs. split; [|done]. split.
  - rewrite Hrd, Hs. apply without_ok; [apply H|done|]. intros c name. by apply children_none.
  - rewrite Hrc. apply H.
  - intros i y Hy. destruct (Hdel i y Hy) as (Hi & z & Hz & -> & Ep). destruct (inv_refs _ _ H i z Hz) as [? Ei].
    rewrite Hhd, Hs. rewrite (children_without _ _ _ _ _ i (inv_tree _ _ H) Ho). rewrite count_cons, decide_False in Ei by done.
    unfold permanence in *. rewrite Ep. destruct (n_name x) as [[nm p]|]; cbn.
    + rewrite count_cons. repeat case_decide; simplify_eq; lia.
    + rewrite decide_False by done. lia.
  - intros i Hi. rewrite Hhd in Hi. destruct (n_name x) as [[nm p]|] eqn:En.
    + assert (i = p ∨ i ∈ ns_handles s ++ extra) as [->|Hi'] by set_solver.
      * destruct (tr_child _ _ (inv_tree _ _ H) p o nm) as (_ & Hlt & ns & l & [? Hd] & _); [exists (n_data x); rewrite Ho; unfold shape_of; by rewrite En|].
        apply Hkeep; [lia|]. apply shape_object in Hd as (z & Hz & _). eauto.
      * apply Hkeep; [by intros ->|]. apply (inv_held _ _ H). set_solver.
    + apply Hkeep; [by intros ->|]. apply (inv_held _ _ H). set_solver.
  - intros y Hy. rewrite Hrd in Hy. destruct (Hdel _ _ Hy) as (_ & z & Hz & _ & ->). by apply (inv_root _ _ H).
Qed.

(** Releasing a reference that the request holds. *)
Lemma release_ok extra o s w : inv (o :: extra) s → wp (release_object o) s w (λ _ s' w', w' = w ∧ inv extra s' ∧
  ns_handles s' = ns_handles s ∧ root_directory s' = root_directory s ∧ (size (ns_objects s') ≤ size (ns_objects s))%nat).
Proof.
  intros H. unfold release_object. rewrite wp_bind, wp_get. assert (Hn : (size (ns_objects s) < S (size (ns_objects s)))%nat) by lia.
  revert Hn. generalize (S (size (ns_objects s))) as n. intros n. revert extra o s w H.
  induction n as [|n IH]; intros extra o s w H Hn; [lia|]. cbn [release_loop]. unfold read_object at 1.
  destruct (inv_held _ _ H o) as [x Hx]; [set_solver|]. rewrite wp_bind, wp_bind, wp_get, Hx. apply wp_ret.
  destruct (inv_refs _ _ H o x Hx) as [Hpos Href]. rewrite wp_bind, wp_assert. split; [apply negb_true_iff, Z.eqb_neq; lia|].
  destruct (Z.eqb_spec (n_refcount x - 1) 0) as [E|E].
  - assert (n_refcount x = 1) as Hr by lia. destruct (freed_inv _ _ _ _ H Hx Hr) as [Hinv _].
    assert (Hsz : (size (delete o (ns_objects s)) < size (ns_objects s))%nat) by by eapply size_delete_lt.
    rewrite wp_bind, wp_modify. unfold freed in Hinv. destruct (n_name x) as [[nm p]|].
    + destruct (inv_held _ _ Hinv p) as [y Hy]; [set_solver|]. cbn in Hy. rewrite lookup_alter_eq in Hy. apply fmap_Some in Hy as (z & Hz & _).
      unfold read_object. rewrite wp_bind, wp_bind, wp_get. cbn [ns_objects on_objects]. rewrite Hz. apply wp_ret.
      unfold put_object. rewrite wp_bind, wp_modify.
      match goal with |- wp _ ?s1 _ _ => assert (s1 = on_objects (alter (unlink_entry o) p) (on_objects (delete o) s)) as -> end.
      { unfold on_objects. cbn. f_equal. by rewrite (alter_present _ _ _ z). }
      eapply wp_mono; [apply IH; [exact Hinv|]|].
      * cbn. rewrite (alter_present _ _ _ z), map_size_insert_Some by (rewrite ?Hz; eauto). lia.
      * intros [] s' w' (-> & ? & ? & ? & Hle). split_and!; try done. cbn in Hle.
        rewrite (alter_present _ _ _ z), map_size_insert_Some in Hle by (rewrite ?Hz; eauto). lia.
    + apply wp_ret. split_and!; try done. cbn. lia.
  - unfold put_object. rewrite wp_modify.
    assert (on_objects (<[o:=set_refcount (n_refcount x - 1) x]>) s = bump (-1) o s) as -> by by rewrite (bump_insert (-1) o s x Hx).
    split_and!; try done.
    + split; [rewrite shape_bump; apply H|apply H|..].
      * intros i y Hy. rewrite bump_lookup in Hy. rewrite shape_bump. cbn [ns_handles bump on_objects]. case_decide as Ei.
        -- subst. rewrite Hx in Hy. cbn in Hy. injection Hy as <-. rewrite count_cons, decide_True in Href by done. cbn. unfold permanence in *. cbn. lia.
        -- destruct (inv_refs _ _ H i y Hy) as [? Eq]. rewrite count_cons, decide_False in Eq by done. lia.
      * intros i Hi. rewrite bump_lookup. cbn [ns_handles bump on_objects] in Hi. destruct (inv_held _ _ H i) as [y Hy]; [set_solver|].
        rewrite Hy. case_decide; by eexists.
      * intros y Hy. change (root_directory (bump (-1) o s)) with (root_directory s) in Hy. rewrite bump_lookup in Hy. case_decide as Ei; [|by apply (inv_root _ _ H)].
        apply fmap_Some in Hy as (z & Hz & ->). subst. exact (inv_root _ _ H z Hz).
    + rewrite (bump_insert _ _ _ x Hx). cbn. by rewrite map_size_insert_Some.
Qed.

(** ** Creating objects *)

Lemma children_absent root T o : tree_ok root T → T !! o = None → children T o = 0.
Proof.
  intros HT Ho. unfold children. assert (filter (λ p : Z * (option (list Z * Z) * object_data), snd <$> p.2.1 = Some o) T = ∅) as ->; [|by rewrite map_size_empty].
  apply map_eq. intros c. rewrite lookup_empty. apply map_lookup_filter_None. right. intros [nm d] Hc E. cbn in E.
  destruct nm as [[nm p]|]; [|done]. cbn in E. injection E as ->.
  destruct (tr_child _ _ HT o c nm) as (_ & _ & ns & l & [? Hd] & _); [by exists d|congruence].
Qed.

Lemma absent_count extra s o : inv extra s → ns_objects s !! o = None → count o (ns_handles s) + count o extra = 0 ∧ o ∉ ns_handles s ++ extra.
Proof.
  intros H Ho. assert (Hn : o ∉ ns_handles s ++ extra) by (intros [x Hx]%(inv_held _ _ H); congruence). split; [|done].
  assert (∀ l, o ∉ l → count o l = 0) as Hz.
  { induction l as [|i l IH]; [done|]. intros [? ?]%not_elem_of_cons. rewrite count_cons, decide_False by done. rewrite IH by done. done. }
  rewrite !Hz; [done|set_solver..].
Qed.

(** A new object whose type has not initialised it yet. *)
Definition data_fits (ops : object_ops) (d : object_data) : Prop :=
  data_ok d ∧ match ops, d with directory_ops, Directory _ | symlink_ops, Symlink _ _ => True | other_ops t, Other t' => t = t' | _, _ => False end.
Definition fresh (extra : list Z) (ops : object_ops) (permanent : bool) (o : Z) (s : ns_state) : Prop :=
  ∃ x, ns_objects s !! o = Some x ∧ n_data x = new_data ops ∧ n_permanent x = permanent ∧ n_refcount x = (if permanent then 2 else 1) ∧
    ∀ d, data_fits ops d → inv (o :: extra) (on_objects (<[o := set_data d x]>) s).

(** Putting in the new object; [T'] is the tree with it. *)
Lemma added_inv extra s o nm d s' : inv extra s → ns_objects s !! o = None → tree_ok (root_directory s) (shape s') →
  ns_objects s' !! o = Some (Object 1 false nm d) →
  root_directory s' = root_directory s → recursion_count s' = recursion_count s → ns_handles s' = ns_handles s →
  (∀ i y, i ≠ o → ns_objects s' !! i = Some y → ∃ z, ns_objects s !! i = Some z ∧ n_permanent y = n_permanent z ∧
     n_refcount y = n_refcount z + (if decide (snd <$> nm = Some i) then 1 else 0)) →
  (∀ i, is_Some (ns_objects s !! i) → is_Some (ns_objects s' !! i)) →
  (∀ i, children (shape s') i = children (shape s) i + (if decide (snd <$> nm = Some i) then 1 else 0)) →
  snd <$> nm ≠ Some o → inv (o :: extra) s'.
Proof.
  intros H Ho HT Hx Er Ec Eh Hbwd Hfwd Hch Hself. destruct (absent_count _ _ _ H Ho) as [Hz Hn].
  assert (Hz' : children (shape s) o = 0).
  { apply (children_absent (root_directory s)); [apply H|]. unfold shape. by rewrite lookup_fmap, Ho. }
  split.
  - by rewrite Er.
  - rewrite Ec. apply H.
  - intros i y Hy. rewrite Eh, count_cons, Hch. destruct (decide (i = o)) as [->|Hi].
    + rewrite Hx in Hy. injection Hy as <-. cbn. rewrite decide_True, decide_False by done. unfold permanence. cbn. lia.
    + rewrite decide_False by done. destruct (Hbwd i y Hi Hy) as (z & Hzz & Ep & ->). destruct (inv_refs _ _ H i z Hzz). unfold permanence in *. rewrite Ep.
      case_decide; lia.
  - intros i Hi. rewrite Eh in Hi. destruct (decide (i = o)) as [->|]; [by eexists|]. apply Hfwd, (inv_held _ _ H). set_solver.
  - intros y Hy. rewrite Er in Hy. destruct (tr_root _ _ (inv_tree _ _ H)) as [? (z & Hz2 & _)%shape_object].
    assert (root_directory s ≠ o) as Hro by congruence. destruct (Hbwd _ y Hro Hy) as (z' & Hz3 & -> & _). by apply (inv_root _ _ H).
Qed.

Lemma on_objects_insert_twice o x y s : on_objects (<[o := x]>) (on_objects (<[o := y]>) s) = on_objects (<[o := x]>) s.
Proof. unfold on_objects. cbn. f_equal. apply insert_insert_eq. Qed.

Lemma fresh_unnamed extra ops s : inv extra s → fresh extra ops false (new_key (ns_objects s)) (on_objects (<[new_key (ns_objects s) := new_object None ops]>) s).
Proof.
  intros H. pose proof (new_key_fresh (ns_objects s)) as Ho. set (o := new_key (ns_objects s)) in *. exists (new_object None ops). cbn. rewrite lookup_insert_eq.
  split_and!; [done..|]. intros d [Hd _]. rewrite on_objects_insert_twice.
  assert (Hs : shape (on_objects (<[o:=set_data d (new_object None ops)]>) s) = <[o := (None, d)]> (shape s)) by (unfold shape; cbn; by rewrite fmap_insert).
  assert (Hno : shape s !! o = None) by (unfold shape; by rewrite lookup_fmap, Ho).
  apply (added_inv extra s o None d); try done.
  - rewrite Hs. apply inserted_unnamed_ok; [apply H|done|done].
  - cbn. by rewrite lookup_insert_eq.
  - intros i y Hi Hy. cbn in Hy. rewrite lookup_insert_ne in Hy by done. exists y. rewrite decide_False by done. split_and!; [done..|lia].
  - intros i Hi. cbn. rewrite lookup_insert_is_Some. destruct (decide (o = i)); auto.
  - intros i. rewrite Hs. by apply children_insert.
Qed.
Definition link_data (o : Z) (name : list Z) (d : object_data) : object_data :=
  match d with Directory (Some ns) => Directory (Some (link_into o name ns)) | _ => d end.
Definition linked (p o : Z) (name : list Z) (s : ns_state) : ns_state :=
  on_objects (alter (λ y, set_refcount (n_refcount y + 1) (set_data (link_data o name (n_data y)) y)) p) s.
(** The state with a new object [o] in the directory [p]. *)
Definition created (p o : Z) (name : list Z) (ops : object_ops) (s : ns_state) : ns_state :=
  on_objects (<[o := new_object (Some (name, p)) ops]>) (linked p o name s).

Lemma created_bump p o name ops s : p ≠ o → created p o name ops (bump 1 p s) = bump 1 p (created p o name ops s).
Proof.
  intros Hne. unfold created, linked, bump, on_objects. cbn. f_equal. rewrite alter_insert_ne by congruence. f_equal. apply map_eq. intros i.
  rewrite !lookup_alter. repeat case_decide; try done. by destruct (ns_objects s !! _) as [[]|].
Qed.

Lemma shape_linked p o name s pnm ns : shape s !! p = Some (pnm, Directory (Some ns)) →
  shape (linked p o name s) = <[p := (pnm, Directory (Some (link_into o name ns)))]> (shape s).
Proof.
  intros (x & Hx & E)%shape_object. unfold linked, shape. cbn. rewrite (alter_present _ _ _ x) by done. rewrite fmap_insert.
  injection E as <- Ed. f_equal. unfold shape_of. cbn. by rewrite Ed.
Qed.

Lemma fresh_named extra ops s p o name ns : inv extra s → is_dir (shape s) p ns → ns_objects s !! o = None → p < o →
  element name → (∀ c, ¬ child (shape s) p c name) → fresh extra ops false o (created p o name ops s).
Proof.
  intros H [pnm Hp] Ho Hlt Hel Huniq. exists (new_object (Some (name, p)) ops). cbn. rewrite lookup_insert_eq. split_and!; [done..|].
  intros d [Hd _]. unfold created. rewrite on_objects_insert_twice. set (s' := on_objects _ _).
  assert (Hno : shape s !! o = None) by (unfold shape; by rewrite lookup_fmap, Ho).
  assert (Hs : shape s' = inserted o name p pnm ns d (shape s)).
  { unfold s', shape, inserted. cbn. rewrite fmap_insert. f_equal. by apply shape_linked. }
  assert (Hlook : ∀ i, i ≠ o → ns_objects s' !! i = (if decide (p = i) then (λ y, set_refcount (n_refcount y + 1) (set_data (link_data o name (n_data y)) y)) <$> ns_objects s !! i else ns_objects s !! i)).
  { intros i Hi. unfold s'. cbn. rewrite lookup_insert_ne, lookup_alter by congruence. case_decide; by subst. }
  apply (added_inv extra s o (Some (name, p)) d); try done.
  - rewrite Hs. by apply inserted_ok; [apply H|..].
  - unfold s'. cbn. by rewrite lookup_insert_eq.
  - intros i y Hi Hy. rewrite Hlook in Hy by done. cbn. case_decide as E.
    + subst. apply fmap_Some in Hy as (z & Hz & ->). exists z. rewrite decide_True by done. done.
    + exists y. rewrite decide_False by congruence. split_and!; [done..|lia].
  - intros i [y Hy]. assert (i ≠ o) as Hi by congruence. rewrite Hlook, Hy by done. case_decide; eauto.
  - intros i. rewrite Hs. unfold inserted. rewrite children_insert by (by rewrite lookup_insert_ne by lia).
    by rewrite (children_update _ _ _ _ _ _ Hp).
  - cbn. intros [= ->]. lia.
Qed.

(** Memory that has not run out does not run out. *)
Definition no_oom (w w' : world) : Prop := w_mem w = [] → w_mem w' = [].

Lemma wp_set_sd sd s w (Q : bool → ns_state → world → Prop) :
  (∀ ok w', no_oom w w' → (if ok : bool then w_error w' = w_error w else w_error w' ≠ 0 ∧ w_mem w ≠ []) → Q ok s w') → wp (set_sd sd) s w Q.
Proof.
  intros HQ. unfold set_sd. destruct sd; [|apply wp_ret; apply HQ; [by unfold no_oom|done]].
  apply wp_mem_alloc; intros w' He Hm; apply HQ; unfold no_oom in *; try done; try rewrite He; naive_solver.
Qed.

Lemma wp_alloc s w (Q : bool → ns_state → world → Prop) :
  (∀ ok w', no_oom w w' → (if ok : bool then w_error w' = w_error w else w_error w' ≠ 0 ∧ w_mem w ≠ []) → Q ok s w') → wp mem_alloc s w Q.
Proof. apply (wp_set_sd true). Qed.

Lemma create_named_child_ok p ops name sd s w k : tree_ok (root_directory s) (shape s) → counts_fit k s → 0 ≤ k → is_Some (shape s !! p) →
  wp (create_object casemap p ops name sd) s w (λ r s' w', no_oom w w' ∧
    match r with
    | None => s' = s ∧ w_error w' ≠ 0
    | Some o => ∃ ns, is_dir (shape s) p ns ∧ ns_objects s !! o = None ∧ p < o ∧ s' = created p o name ops s ∧ w_error w' = w_error w
    end).
Proof.
  intros HT Hc Hk [[pnm pd] Hp]. destruct (shape_object _ _ _ Hp) as (x & Hx & E). injection E as En Ed.
  unfold create_object. rewrite wp_bind. apply wp_alloc. intros [] w1 Hm1 He1; cbn [negb]; [|apply wp_ret; naive_solver].
  rewrite wp_bind. apply wp_alloc. intros [] w2 Hm2 He2; cbn [negb]; [|apply wp_ret; unfold no_oom in *; naive_solver].
  rewrite wp_bind. apply wp_set_sd. intros [] w3 Hm3 He3; cbn [negb]; [|apply wp_ret; unfold no_oom in *; naive_solver].
  assert (Hm : no_oom w w3) by (unfold no_oom in *; auto). assert (He : w_error w3 = w_error w) by congruence. clear -Hm He HT Hc Hk Hp Hx En Ed.
  rewrite wp_bind, wp_get, wp_bind. pose proof (new_key_fresh (ns_objects s)) as Ho. set (o := new_key (ns_objects s)) in *.
  assert (p < o) as Hlt by (apply new_key_above; eauto).
  unfold directory_link_name, read_object. rewrite !wp_bind, wp_get, Hx. apply wp_ret. rewrite Ed. destruct pd as [e|t len|ty].
  - destruct (tr_dir _ _ HT _ _ _ Hp) as (ns & -> & Hh & Hlen). cbn zeta. rewrite wp_bind. apply wp_ret. rewrite Hh.
    destruct (lookup_lt_is_Some_2 (names ns) (hash name)) as [l Hl]; [pose proof (hash_range name); unfold HASH_SIZE in *; lia|].
    rewrite wp_bind, Hl. apply wp_ret. unfold put_object at 1. rewrite wp_bind, wp_modify, wp_bind. unfold grab_object, read_object, put_object.
    rewrite !wp_bind, wp_get. cbn [ns_objects on_objects]. rewrite lookup_insert_eq. apply wp_ret. rewrite wp_bind, wp_assert. cbn [n_refcount set_data].
    destruct (Hc p x Hx). split; [apply Z.ltb_lt; lia|]. rewrite wp_modify. apply wp_ret. cbn [negb]. rewrite wp_bind, wp_modify. apply wp_ret.
    split; [done|]. exists ns. split_and!; [by exists pnm|done|done| |done]. unfold created, linked, on_objects. cbn. f_equal. f_equal.
    rewrite insert_insert_eq, (alter_present _ _ _ _ Hx). f_equal. rewrite Ed. unfold set_refcount, set_data, link_data, link_into. cbn. do 4 f_equal.
    { by rewrite Hh. }
    apply list_eq. intros i. destruct (decide (hash name = i)) as [<-|].
    + rewrite list_lookup_alter_eq, Hl. apply list_lookup_insert_eq. by eapply lookup_lt_Some.
    + by rewrite list_lookup_alter_ne, list_lookup_insert_ne by done.
  - rewrite wp_bind, wp_set_error. by do 2 apply wp_ret.
  - rewrite wp_bind, wp_set_error. by do 2 apply wp_ret.
Qed.

Lemma created_counts k p o name ops s : counts_fit (k + 1) s → is_Some (shape s !! p) → counts_fit k (created p o name ops s).
Proof.
  intros Hc [? (x & Hx & _)%shape_object] i y. unfold created, linked. cbn. rewrite lookup_insert, lookup_alter.
  case_decide; [intros [= <-]; cbn; specialize (Hc p x Hx); lia|]. case_decide; [|intros Hy; specialize (Hc i y Hy); lia].
  intros (z & Hz & ->)%fmap_Some. specialize (Hc _ z Hz). cbn. lia.
Qed.

Definition held (extra : list Z) (s : ns_state) (root : option Z) : Prop := ∀ r, root = Some r → r ∈ ns_handles s ++ extra.

Lemma held_parent extra s root : inv extra s → held extra s root → is_Some (shape s !! default (root_directory s) root).
Proof.
  intros H Hh. destruct root as [r|]; cbn; [eapply inv_dom; eauto|]. destruct (tr_root _ _ (inv_tree _ _ H)) as [? E]. eauto.
Qed.

(** What a request changes besides the objects, until it makes a handle. *)
Definition frame (s s' : ns_state) : Prop :=
  ns_handles s' = ns_handles s ∧ root_directory s' = root_directory s ∧ (size (ns_objects s') ≤ S (size (ns_objects s)))%nat.

Lemma frame_refl s : frame s s.
Proof. split_and!; [done..|lia]. Qed.

Lemma size_bump k o s : size (ns_objects (bump k o s)) = size (ns_objects s).
Proof. by rewrite <-!size_shape, shape_bump. Qed.

Lemma frame_bump o s : frame s (bump 1 o s).
Proof. split_and!; [done..|rewrite size_bump; lia]. Qed.

Lemma frame_created p o name ops s : ns_objects s !! o = None → is_Some (shape s !! p) → frame s (created p o name ops s).
Proof.
  intros Ho [? (x & Hx & _)%shape_object]. split_and!; [done..|]. unfold created, linked. cbn.
  rewrite (alter_present _ _ _ _ Hx), map_size_insert_None, map_size_insert_Some by (rewrite ?lookup_insert_ne by congruence; eauto). lia.
Qed.

(** A new permanent object holds a reference to itself. *)
Lemma inv_permanent extra s o x : inv extra s → ns_objects s !! o = Some x → n_permanent x = false →
  inv extra (on_objects (<[o := set_refcount (n_refcount x + 1) (set_permanent true x)]>) s).
Proof.
  intros H Hx Hp. set (s' := on_objects _ s). assert (Hs : shape s' = shape s).
  { unfold s', shape. cbn. rewrite fmap_insert. apply insert_id. by rewrite lookup_fmap, Hx. }
  split.
  - rewrite Hs. apply H.
  - apply H.
  - intros i y Hy. rewrite Hs. cbn in Hy |- *. apply lookup_insert_Some in Hy as [[<- <-]|[_ Hy]]; [|by apply (inv_refs _ _ H)].
    destruct (inv_refs _ _ H o x Hx). unfold permanence in *. rewrite Hp in *. cbn. lia.
  - intros i Hi. cbn. rewrite lookup_insert_is_Some. destruct (decide (o = i)); [by left|right; split; [done|]]. by apply (inv_held _ _ H).
  - intros y Hy. cbn in Hy. apply lookup_insert_Some in Hy as [[_ <-]|[_ Hy]]; [done|by apply (inv_root _ _ H)].
Qed.

Lemma wp_make_permanent extra ops o s w (Q : unit → ns_state → world → Prop) : fresh extra ops false o s →
  (∀ s', fresh extra ops true o s' → ns_handles s' = ns_handles s → root_directory s' = root_directory s → size (ns_objects s') = size (ns_objects s) → Q tt s' w) →
  wp (let* x := read_object o in put_object o (set_permanent true x) >> grab_object o) s w Q.
Proof.
  intros (x & Hx & Hd & Hp & Hr & Hinv) HQ. unfold grab_object, read_object, put_object. rewrite !wp_bind, wp_get, Hx. apply wp_ret.
  rewrite wp_bind, wp_modify, !wp_bind, wp_get. cbn [ns_objects on_objects]. rewrite lookup_insert_eq. apply wp_ret.
  rewrite wp_bind, wp_assert. cbn [n_refcount set_permanent]. rewrite Hr. split; [done|]. rewrite wp_modify, on_objects_insert_twice.
  apply HQ; [|done|done|cbn; apply map_size_insert_Some; eauto].
  eexists. cbn. rewrite lookup_insert_eq. split_and!; [done|done|done|done|]. intros d Hfit. specialize (Hinv d Hfit).
  apply (inv_permanent _ _ o (set_data d x)) in Hinv; [|cbn; apply lookup_insert_eq|done].
  rewrite on_objects_insert_twice in Hinv |- *. cbn in Hinv. rewrite Hr in Hinv. exact Hinv.
Qed.

(** The new object, or the one that was there. *)
Definition named_post (extra : list Z) (ops : object_ops) (permanent : bool) (s : ns_state) (w : world) (r : option Z) (s' : ns_state) (w' : world) : Prop :=
  no_oom w w' ∧ frame s s' ∧
  match r with
  | None => inv extra s' ∧ w_error w' ≠ 0
  | Some o => w_error w' = STATUS_OBJECT_NAME_EXISTS ∧ inv (o :: extra) s' ∧ (∃ x, ns_objects s' !! o = Some x ∧ n_ops x = ops) ∨
      w_error w' = 0 ∧ fresh extra ops permanent o s'
  end.

Lemma create_named_ok extra parent ops name attr sd s w : inv extra s → fits 37 extra s → held extra s parent → safe_path attr s parent name →
  wp (create_named_object casemap parent ops name attr sd) s w (named_post extra ops (has attr OBJ_PERMANENT) s w).
Proof.
  intros H Hf Hheld Hsafe. pose proof (inv_counts _ _ _ H Hf) as Hc. unfold create_named_object. rewrite wp_bind. unfold clear_error. rewrite wp_set_error.
  set (w0 := World 0 (w_mem w)). assert (Hw0 : no_oom w w0) by by intros ?.
  assert (Hend : ∀ o s' w', no_oom w w' → w_error w' = 0 → fresh extra ops false o s' → frame s s' →
    wp ((if has attr OBJ_PERMANENT then let* x := read_object o in put_object o (set_permanent true x) >> grab_object o else ret tt) >> ret (Some o)) s' w'
      (named_post extra ops (has attr OBJ_PERMANENT) s w)).
  { intros o s' w' Hm He Hfr (Eh & Er & Hsz). rewrite wp_bind. destruct (has attr OBJ_PERMANENT).
    - eapply wp_make_permanent; [exact Hfr|]. intros s2 Hfr2 Eh2 Er2 Esz. apply wp_ret. split; [done|]. split; [|by right]. split_and!; [congruence..|lia].
    - apply wp_ret, wp_ret. split; [done|]. split; [done|]. by right. }
  assert (Hnone : ∀ w', no_oom w w' → w_error w' ≠ 0 → named_post extra ops (has attr OBJ_PERMANENT) s w None s w') by (intros w' ??; split; [done|]; split; [apply frame_refl|done]).
  rewrite wp_bind. destruct name as [|c name].
  - rewrite wp_bind. apply wp_alloc. intros [] w1 Hm1 He1; cbn [negb]; [|apply wp_ret, wp_ret, Hnone; unfold no_oom in *; naive_solver].
    rewrite wp_bind. apply wp_set_sd. intros [] w2 Hm2 He2; cbn [negb]; [|apply wp_ret, wp_ret, Hnone; unfold no_oom in *; naive_solver].
    rewrite wp_bind, wp_get. cbn zeta. unfold put_object at 1. rewrite wp_bind, wp_modify. apply wp_ret, Hend.
    + unfold no_oom in *. naive_solver.
    + by rewrite He2, He1.
    + by apply fresh_unnamed.
    + split_and!; [done..|]. cbn. rewrite map_size_insert_None by apply new_key_fresh. lia.
  - set (full := c :: name) in *. rewrite wp_bind.
    eapply wp_mono; [eapply lookup_named_ok; [apply H|exact Hc|lia|apply H|by eapply held_parent|done]|].
    intros r s1 w1 [Hm1 Hpost]. assert (no_oom w w1) as Hm1' by (unfold no_oom; by rewrite Hm1).
    destruct r as [[p rest]|]; [|destruct Hpost as (-> & He & _); by apply wp_ret, wp_ret, Hnone].
    destruct Hpost as (-> & Hp & He & _ & _ & Hdir). destruct rest as [|c' rest].
    + destruct Hp as [pd Hp]. destruct (shape_object _ _ _ Hp) as (x & Hx & _). unfold read_object. rewrite !wp_bind, wp_get.
      rewrite (bump_object _ _ _ _ Hx). apply wp_ret. destruct (has attr OBJ_OPENIF && bool_decide (n_ops _ = ops)) eqn:E.
      * rewrite wp_bind, wp_set_error. do 2 apply wp_ret. split; [done|]. split; [apply frame_bump|]. left. split; [done|]. split; [by apply inv_bump|].
        eexists. split; [by apply bump_object|]. by apply andb_true_iff in E as [_ ?%bool_decide_eq_true_1].
      * rewrite wp_bind. eapply wp_release; [exact Hc|by eexists|]. rewrite wp_bind, wp_set_error. apply wp_ret, wp_ret, Hnone; [done|]. by destruct (has attr OBJ_OPENIF).
    + set (nm := c' :: rest) in *. rewrite wp_bind. eapply wp_mono; [eapply (create_named_child_ok _ _ _ _ _ _ 36); [rewrite shape_bump; apply H|by apply counts_fit_bump|lia|by rewrite shape_bump]|].
      intros [o|] s2 w2 [Hm2 Hpost]; cbn beta iota in Hpost.
      * destruct Hpost as (ns & Hd & Ho & Hlt & -> & He2). rewrite shape_bump in Hd. destruct (Hdir _ Hd) as [?|[Hel Hno]]; [done|].
        rewrite created_bump by lia. rewrite wp_bind. assert (Ho' : ns_objects s !! o = None).
        { rewrite bump_lookup in Ho. by rewrite decide_False in Ho by lia. }
        eapply wp_release; [by eapply (created_counts 36)|..].
        { unfold shape, created, linked. cbn. rewrite lookup_fmap, lookup_insert_ne, lookup_alter_eq by lia. destruct Hp as [? (x & Hx & _)%shape_object]. rewrite Hx. by eexists. }
        apply wp_ret. cbn. apply Hend.
        -- unfold no_oom in *. naive_solver.
        -- by rewrite He2.
        -- eapply fresh_named; try done. intros c2 Hc2. by eapply Hno, matches_refl.
        -- by apply frame_created.
      * destruct Hpost as [-> He2]. rewrite wp_bind. eapply wp_release; [exact Hc|done|]. apply wp_ret, wp_ret, Hnone; [unfold no_oom in *; naive_solver|done].
Qed.

(** An object that is freed need not be initialised. *)
Lemma release_data o x d d' s w : n_refcount x = 1 →
  release_object o (on_objects (<[o := set_data d x]>) s) w = release_object o (on_objects (<[o := set_data d' x]>) s) w.
Proof.
  intros Hr. unfold release_object, bind, get. cbn beta iota.
  assert (∀ d, size (ns_objects (on_objects (<[o := set_data d x]>) s)) = size (<[o := x]> (ns_objects s))) as Hsz.
  { intros ?. cbn. rewrite <-!size_dom. by rewrite !dom_insert. }
  rewrite !Hsz. cbn [release_loop]. unfold read_object, bind, get, of_option, c_assert, modify. cbn. rewrite !lookup_insert_eq. unfold ret. cbn. rewrite Hr. cbn.
  change (1 - 1 =? 0) with true. cbn.
  assert (∀ d, on_objects (delete o) (on_objects (<[o := set_data d x]>) s) = on_objects (delete o) s) as Hdel.
  { intros ?. unfold on_objects. cbn. by rewrite delete_insert_eq. }
  by rewrite !Hdel.
Qed.

Definition created_post (extra : list Z) (s : ns_state) (r : option Z) (s' : ns_state) (w' : world) : Prop :=
  frame s s' ∧ match r with None => inv extra s' | Some o => inv (o :: extra) s' end.

Lemma fits_data ops : ∃ d, data_fits ops d.
Proof.
  destruct ops as [| |t]; [exists (Directory (Some (Namespace HASH_SIZE (replicate 7 []))))|exists (Symlink None 0)|exists (Other t)]; (split; [|done]); cbn; auto.
Qed.

Lemma fresh_release extra ops o s x d w : fresh extra ops false o s → ns_objects s !! o = Some x →
  wp (release_object o) (on_objects (<[o := set_data d x]>) s) w (λ _ s' w', w' = w ∧ inv extra s' ∧
    ns_handles s' = ns_handles s ∧ root_directory s' = root_directory s ∧ (size (ns_objects s') ≤ size (ns_objects s))%nat).
Proof.
  intros (y & Hy & _ & _ & Hr & Hinv) Hx. assert (y = x) as -> by congruence. destruct (fits_data ops) as [d' Hd']. unfold wp.
  rewrite (release_data o x d d') by done. specialize (Hinv d' Hd'). apply (release_ok _ _ _ w) in Hinv. unfold wp in Hinv.
  destruct (release_object o _ w) as [[[[] s'] w']|]; [|done]. destruct Hinv as (? & ? & ? & ? & Hle). split_and!; try done.
  cbn in Hle. rewrite map_size_insert_Some in Hle by eauto. done.
Qed.

(** The type's part of the creation: the new data, or nothing if there is no memory. *)
Lemma wp_initialise extra ops attr s s0 w o x ok d d0 : fresh extra ops (has attr OBJ_PERMANENT) o s → ns_objects s !! o = Some x → frame s0 s →
  data_fits ops d → (has attr OBJ_PERMANENT = true → ok = true) →
  wp (if ok : bool then ret (Some o) else release_object o >> ret None)
    (on_objects (<[o := set_data (if ok : bool then d else d0) x]>) s) w (λ r s' _, created_post extra s0 r s' w).
Proof.
  intros Hfr Hx (Eh & Er & Hsz) Hd Hok. destruct ok.
  - apply wp_ret. split.
    + split_and!; [done..|]. cbn. rewrite map_size_insert_Some by eauto. done.
    + destruct Hfr as (y & Hy & _ & _ & _ & Hinv). assert (y = x) as -> by congruence. by apply Hinv.
  - destruct (has attr OBJ_PERMANENT); [by specialize (Hok eq_refl)|]. rewrite wp_bind. eapply wp_mono; [by eapply fresh_release|].
    intros [] s' w' (-> & Hinv & Eh' & Er' & Hsz'). apply wp_ret. split; [|done]. split_and!; [congruence..|lia].
Qed.

Lemma create_directory_ok extra root name attr sd s w : inv extra s → fits 37 extra s → held extra s root → safe_path attr s root name →
  (has attr OBJ_PERMANENT = true → w_mem w = []) →
  wp (create_directory casemap root name attr HASH_SIZE sd) s w (λ r s' w', created_post extra s r s' w').
Proof.
  intros H Hf Hh Hs Hperm. unfold create_directory. rewrite wp_bind. eapply wp_mono; [by apply create_named_ok|].
  intros r s' w' (Hm & Hfr & Hpost). rewrite wp_bind, wp_get_error. destruct r as [o|]; [|by apply wp_ret; destruct Hpost].
  destruct Hpost as [(He & Hinv & _)|[He Hnew]]; [rewrite He, Z.eqb_refl; by apply wp_ret|]. rewrite He. cbn [Z.eqb STATUS_OBJECT_NAME_EXISTS].
  assert (Hok : has attr OBJ_PERMANENT = true → w_mem w' = []) by auto.
  destruct Hnew as (x & Hx & Hx'). unfold create_namespace. rewrite !wp_bind. apply wp_alloc. intros ok w2 _ Hok2. apply wp_ret.
  unfold read_object, put_object. rewrite !wp_bind, wp_get, Hx. apply wp_ret. rewrite wp_bind, wp_modify.
  pose proof (wp_initialise extra directory_ops attr s' s w2 o x ok (Directory (Some (Namespace HASH_SIZE (replicate 7 [])))) (Directory None)) as Hi.
  assert (Hok3 : has attr OBJ_PERMANENT = true → ok = true).
  { intros E. destruct ok; [done|]. destruct Hok2 as [_ []]. auto. }
  specialize (Hi (ex_intro _ x (conj Hx Hx')) Hx Hfr (conj eq_refl I) Hok3). destruct ok; exact Hi.
Qed.

Lemma has_lor_permanent attr : has (Z.lor attr OBJ_OPENLINK) OBJ_PERMANENT = has attr OBJ_PERMANENT.
Proof. unfold has. rewrite Z.land_lor_distr_l. change (Z.land OBJ_OPENLINK OBJ_PERMANENT) with 0. by rewrite Z.lor_0_r. Qed.

Lemma create_symlink_ok extra root name attr target sd s w : inv extra s → fits 37 extra s → held extra s root →
  safe_path (Z.lor attr OBJ_OPENLINK) s root name → (has attr OBJ_PERMANENT = true → w_mem w = []) →
  wp (create_symlink casemap root name attr target sd) s w (λ r s' w', created_post extra s r s' w').
Proof.
  intros H Hf Hh Hs Hperm. unfold create_symlink. case_bool_decide as Ht.
  { rewrite wp_bind, wp_set_error. apply wp_ret. split; [apply frame_refl|done]. }
  rewrite <-has_lor_permanent in Hperm. set (attr' := Z.lor attr OBJ_OPENLINK) in *.
  rewrite wp_bind. eapply wp_mono; [by apply create_named_ok|].
  intros r s' w' (Hm & Hfr & Hpost). rewrite wp_bind, wp_get_error. destruct r as [o|]; [|by apply wp_ret; destruct Hpost].
  destruct Hpost as [(He & Hinv & _)|[He Hnew]]; [rewrite He, Z.eqb_refl; by apply wp_ret|]. rewrite He. cbn [Z.eqb STATUS_OBJECT_NAME_EXISTS].
  assert (Hok : has attr' OBJ_PERMANENT = true → w_mem w' = []) by auto.
  destruct Hnew as (x & Hx & Hx'). rewrite !wp_bind. apply wp_alloc. intros ok w2 _ Hok2.
  unfold read_object, put_object. rewrite !wp_bind, wp_get, Hx. apply wp_ret. rewrite wp_bind, wp_modify.
  pose proof (wp_initialise extra symlink_ops attr' s' s w2 o x ok (Symlink (Some target) (wlen target)) (Symlink None (wlen target))) as Hi.
  assert (Hok3 : has attr' OBJ_PERMANENT = true → ok = true).
  { intros E. destruct ok; [done|]. destruct Hok2 as [_ []]. auto. }
  specialize (Hi (ex_intro _ x (conj Hx Hx')) Hx Hfr). destruct ok; apply Hi; try done; (split; [right; by exists target|done]).
Qed.

Lemma create_other_ok extra type root name attr sd s w : inv extra s → fits 37 extra s → held extra s root → safe_path attr s root name →
  wp (create_named_object casemap root (other_ops type) name attr sd) s w (λ r s' w', created_post extra s r s' w').
Proof.
  intros H Hf Hh Hs. eapply wp_mono; [by apply create_named_ok|]. intros [o|] s' w' (Hm & Hfr & Hpost); (split; [done|]); [|by destruct Hpost].
  destruct Hpost as [(_ & Hinv & _)|(_ & x & Hx & Hd & _ & _ & Hinv)]; [done|]. specialize (Hinv (Other type) (conj I eq_refl)).
  replace (on_objects _ s') with s' in Hinv; [done|]. destruct s' as [m rd rc hs]. unfold on_objects. cbn in *. f_equal. symmetry. apply insert_id.
  rewrite Hx. f_equal. destruct x. cbn in *. by subst.
Qed.

Lemma open_named_ok extra parent ops name attr s w : inv extra s → fits 37 extra s → held extra s parent → safe_path attr s parent name →
  wp (open_named_object casemap parent ops name attr) s w (λ r s' w', created_post extra s r s' w').
Proof.
  intros H Hf Hh Hs. pose proof (inv_counts _ _ _ H Hf) as Hc. unfold open_named_object. rewrite wp_bind.
  eapply wp_mono; [eapply lookup_named_ok; [apply H|exact Hc|lia|apply H|by eapply held_parent|done]|].
  intros r s1 w1 [_ Hpost]. destruct r as [[p rest]|]; [|destruct Hpost as (-> & _); apply wp_ret; split; [apply frame_refl|done]].
  destruct Hpost as (-> & Hp & _). pose proof Hp as [pd Hpd]. destruct (shape_object _ _ _ Hpd) as (x & Hx & _). unfold read_object. rewrite !wp_bind, wp_get.
  rewrite (bump_object _ _ _ _ Hx). apply wp_ret. cbn zeta. destruct (truth _).
  - rewrite wp_bind, wp_set_error, wp_bind. eapply wp_release; [exact Hc|done|]. apply wp_ret. split; [apply frame_refl|done].
  - apply wp_ret. split; [apply frame_bump|by apply inv_bump].
Qed.

(** ** Requests *)

Lemma inv_to_handle extra o s : inv (o :: extra) s → inv extra (set_handles (o :: ns_handles s) s).
Proof.
  intros H. split; [apply H|apply H| |intros i Hi; apply (inv_held _ _ H); cbn in Hi; set_solver|exact (inv_root _ _ H)].
  intros i x Hx. destruct (inv_refs _ _ H i x Hx) as [? E]. rewrite count_cons in E. cbn [ns_handles set_handles]. rewrite count_cons.
  change (shape (set_handles _ s)) with (shape s). lia.
Qed.

Lemma inv_from_handle extra o s : inv extra s → o ∈ ns_handles s → inv (o :: extra) (set_handles (remove_one o (ns_handles s)) s).
Proof.
  intros H Ho. split; [apply H|apply H| |..].
  - intros i x Hx. destruct (inv_refs _ _ H i x Hx) as [? E]. rewrite (count_remove i o _ Ho) in E. cbn [ns_handles set_handles]. rewrite count_cons.
    change (shape (set_handles _ s)) with (shape s). lia.
  - intros i Hi. cbn [ns_handles set_handles] in Hi. apply (inv_held _ _ H).
    apply elem_of_app in Hi as [Hi%elem_of_remove_one|[->|Hi]%elem_of_cons]; set_solver.
  - exact (inv_root _ _ H).
Qed.

(** The state after a request, which may have left a handle. *)
Definition after (extra : list Z) (s s' : ns_state) : Prop :=
  inv extra s' ∧ root_directory s' = root_directory s ∧ ∀ o, o ∈ ns_handles s → o ∈ ns_handles s'.

Lemma reply_ok extra s0 r error s w : created_post extra s0 r s w → fits 4 extra s0 →
  wp (reply_handle r error) s w (λ _ s' _, after extra s0 s').
Proof.
  intros [(Eh & Er & Hsz) Hr] Hf. unfold reply_handle. destruct r as [o|]; [|apply wp_ret; by split_and!; rewrite ?Eh].
  assert (Hc : counts_fit 1 s).
  { eapply inv_counts; [exact Hr|]. unfold fits in *. rewrite Eh. cbn [length]. lia. }
  unfold alloc_handle. rewrite wp_bind. destruct (error =? 0).
  - rewrite wp_bind. eapply wp_grab; [exact Hc|lia|eapply inv_dom; [exact Hr|set_solver]|]. rewrite wp_modify.
    eapply wp_mono; [eapply (release_ok extra), inv_to_handle, inv_bump; [exact Hr|eapply inv_dom; [exact Hr|set_solver]]|].
    intros [] s' w' (_ & ? & Eh' & Er' & _). split_and!; [done|etrans; [exact Er'|exact Er]|]. intros i Hi. rewrite Eh'. cbn. rewrite Eh. by right.
  - rewrite wp_set_error. eapply wp_mono; [by apply release_ok|]. intros [] s' w' (_ & ? & Eh' & Er' & _). split_and!; [done|congruence|].
    intros i Hi. by rewrite Eh', Eh.
Qed.

Lemma safe_path_shape attr s s' root name : shape s' = shape s → root_directory s' = root_directory s → safe_path attr s root name → safe_path attr s' root name.
Proof. unfold safe_path. by intros -> ->. Qed.

Lemma with_root_ok root m s w : inv [] s → fits 43 [] s → (∀ r, root = Some r → r ∈ ns_handles s) →
  (∀ extra s1, inv extra s1 → fits 41 extra s1 → held extra s1 root → shape s1 = shape s → root_directory s1 = root_directory s →
     wp m s1 w (λ _ s' _, after extra s1 s')) →
  wp (with_root root m) s w (λ _ s' _, after [] s s').
Proof.
  intros H Hf Hr Hm. unfold with_root. destruct root as [r|].
  - specialize (Hr r eq_refl). pose proof (inv_dom _ _ r H ltac:(set_solver)) as Hd. rewrite wp_bind.
    eapply wp_grab; [by eapply inv_counts|lia|done|]. rewrite wp_bind. eapply wp_mono; [apply (Hm [r])|].
    + by apply inv_bump.
    + unfold fits in *. rewrite size_bump. cbn [ns_handles bump on_objects length] in *. lia.
    + intros ? [= <-]. set_solver.
    + apply shape_bump.
    + done.
    + intros [] s1 w1 (Hinv & Er & Hh). eapply wp_mono; [by apply release_ok|]. intros [] s2 w2 (_ & ? & Eh & Er2 & _).
      split_and!; [done|by rewrite Er2, Er|]. intros i Hi. rewrite Eh. by apply Hh.
  - eapply wp_mono; [apply (Hm []); [done|unfold fits in *; lia|done..]|done].
Qed.

Lemma create_reply_ok root error c s w : inv [] s → fits 43 [] s → (∀ r, root = Some r → r ∈ ns_handles s) →
  (∀ extra s1, inv extra s1 → fits 37 extra s1 → held extra s1 root → shape s1 = shape s → root_directory s1 = root_directory s →
     wp c s1 w (λ r s' _, created_post extra s1 r s' w)) →
  wp (with_root root (let* r := c in reply_handle r error)) s w (λ _ s' _, after [] s s').
Proof.
  intros H Hf Hr Hc. apply with_root_ok; [done..|]. intros extra s1 H1 Hf1 Hh1 Es Er. rewrite wp_bind. assert (fits 37 extra s1) by (unfold fits in *; lia).
  eapply wp_mono; [by apply Hc|]. intros r s' w' Hpost. eapply reply_ok; [exact Hpost|unfold fits in *; lia].
Qed.

Lemma close_named_ok o s w : inv [] s → o ∈ ns_handles s →
  wp (close_handle o) s w (λ _ s' _, inv [] s' ∧ root_directory s' = root_directory s).
Proof.
  intros H Ho. unfold close_handle. rewrite wp_bind, wp_modify. eapply wp_mono; [eapply (release_ok []), inv_from_handle; done|].
  intros [] s' w' (_ & ? & _ & ? & _). done.
Qed.

Lemma set_permanence_ok o permanent s w : inv [] s → fits 4 [] s → o ∈ ns_handles s → (permanent = false → o ≠ root_directory s) →
  wp (set_object_permanence o permanent) s w (λ _ s' _, inv [] s' ∧ root_directory s' = root_directory s).
Proof.
  intros H Hf Ho Hroot. pose proof (inv_dom _ _ o H ltac:(set_solver)) as Hd. pose proof Hd as [p (x & Hx & _)%shape_object].
  assert (Hc : counts_fit 3 s) by (eapply inv_counts; [exact H|unfold fits in *; lia]).
  unfold set_object_permanence. rewrite wp_bind. eapply wp_grab; [exact Hc|lia|done|].
  pose proof (inv_bump _ _ _ H Hd) as Hb. set (s1 := bump 1 o s) in *.
  assert (Hx1 : ns_objects s1 !! o = Some (set_refcount (n_refcount x + 1) x)) by by apply bump_object. set (x1 := set_refcount (n_refcount x + 1) x) in *.
  assert (Hend : ∀ s2 w2, inv [o] s2 → root_directory s2 = root_directory s → wp (release_object o) s2 w2 (λ _ s' _, inv [] s' ∧ root_directory s' = root_directory s)).
  { intros s2 w2 H2 Er. eapply wp_mono; [by apply release_ok|]. intros [] s' w' (_ & ? & _ & Er' & _). split; [done|congruence]. }
  rewrite wp_bind. unfold read_object at 1. rewrite wp_bind, wp_get, Hx1. apply wp_ret. rewrite wp_bind.
  destruct (permanent && negb (n_permanent x1)) eqn:E1; [|destruct (negb permanent && n_permanent x1) eqn:E2].
  - apply andb_true_iff in E1 as [_ E1%negb_true_iff].
    rewrite wp_bind. eapply wp_grab; [by apply (counts_fit_bump 2)|lia|unfold s1; by rewrite shape_bump|].
    unfold read_object. rewrite !wp_bind, wp_get, (bump_object _ _ _ _ Hx1). apply wp_ret. unfold put_object. rewrite wp_modify. apply Hend; [|done].
    rewrite (bump_insert 1 o s1 x1 Hx1), on_objects_insert_twice. by apply inv_permanent.
  - apply andb_true_iff in E2 as [E2%negb_true_iff E3]. unfold put_object. rewrite wp_bind, wp_modify. subst permanent.
    assert (H2 : inv [o; o] (on_objects (<[o := set_permanent false x1]>) s1)).
    { set (s2 := on_objects _ s1). assert (Hs : shape s2 = shape s1).
      { unfold s2, shape. cbn. rewrite fmap_insert. apply insert_id. by rewrite lookup_fmap, alter_present with (x := x), lookup_insert_eq by done. }
      split.
      - rewrite Hs. apply Hb.
      - apply Hb.
      - intros i y Hy. rewrite Hs. change (ns_handles s2) with (ns_handles s1). cbn in Hy. apply lookup_insert_Some in Hy as [[<- <-]|[Hne Hy]].
        + destruct (inv_refs _ _ Hb o x1 Hx1) as [? E]. rewrite (count_cons _ _ [o]), decide_True by done. unfold permanence in *. rewrite E3 in E. cbn in *. lia.
        + destruct (inv_refs _ _ Hb i y Hy) as [? E]. rewrite (count_cons _ _ [o]), decide_False by done. lia.
      - intros i Hi. assert (i ∈ ns_handles s1 ++ [o]) as Hi' by (cbn in *; set_solver). cbn. rewrite lookup_insert_is_Some.
        destruct (decide (o = i)); [by left|right; split; [done|]]. by apply (inv_held _ _ Hb).
      - intros y Hy. change (root_directory s2) with (root_directory s) in Hy. cbn in Hy. rewrite lookup_insert_ne in Hy by auto. exact (inv_root _ _ Hb y Hy). }
    eapply wp_mono; [by apply release_ok|]. intros [] s3 w3 (_ & ? & _ & Er & _). apply Hend; [done|by rewrite Er].
  - apply wp_ret. by apply Hend.
Qed.

(** ** Sequences of requests *)

Inductive request :=
  | CreateDirectory (root : option Z) (name : list Z) (attr error : Z) (sd : bool)
  | CreateSymlink (root : option Z) (name : list Z) (attr : Z) (target : list Z) (error : Z) (sd : bool)
  | CreateOther (type : Z) (root : option Z) (name : list Z) (attr error : Z) (sd : bool)
  | OpenObject (root : option Z) (ops : option object_ops) (name : list Z) (attr error : Z)
  | CloseHandle (o : Z)
  | SetPermanence (o : Z) (permanent : bool).
Definition run_request (r : request) : N unit :=
  match r with
  | CreateDirectory root name attr error sd => req_create_directory casemap root name attr error sd
  | CreateSymlink root name attr target error sd => req_create_symlink casemap root name attr target error sd
  | CreateOther type root name attr error sd => req_create_other casemap type root name attr error sd
  | OpenObject root ops name attr error => open_object casemap root ops name attr error
  | CloseHandle o => close_handle o
  | SetPermanence o permanent => set_object_permanence o permanent
  end.

(** Handles are held; counts stay below their limit. With [OBJ_OPENLINK], which creating a
    link implies, no link is crossed; making a permanent object finds memory; and the root
    directory stays permanent. *)
Definition path_allowed (s : ns_state) (root : option Z) (attr : Z) (name : list Z) : Prop :=
  (∀ r, root = Some r → r ∈ ns_handles s) ∧ safe_path attr s root name.
Definition memory_allowed (w : world) (attr : Z) : Prop := has attr OBJ_PERMANENT = true → w_mem w = [].
Definition allowed (s : ns_state) (w : world) (r : request) : Prop :=
  fits 43 [] s ∧
  match r with
  | CreateDirectory root name attr _ _ => path_allowed s root attr name ∧ memory_allowed w attr
  | CreateSymlink root name attr _ _ _ => path_allowed s root (Z.lor attr OBJ_OPENLINK) name ∧ memory_allowed w attr
  | CreateOther _ root name attr _ _ => path_allowed s root attr name
  | OpenObject root _ name attr _ => path_allowed s root attr name
  | CloseHandle o => o ∈ ns_handles s
  | SetPermanence o permanent => o ∈ ns_handles s ∧ (permanent = false → o ≠ root_directory s)
  end.

Lemma request_ok r s w : inv [] s → allowed s w r → wp (run_request r) s w (λ _ s' _, inv [] s' ∧ root_directory s' = root_directory s).
Proof.
  intros H [Hf Hall].
  assert (Hweak : ∀ m, wp m s w (λ _ s' _, after [] s s') → wp m s w (λ (_ : unit) s' _, inv [] s' ∧ root_directory s' = root_directory s)).
  { intros m Hm. eapply wp_mono; [exact Hm|]. by intros [] s' w' (? & ? & _). }
  assert (Hattr : ∀ root attr name m, path_allowed s root attr name →
    (path_allowed s (name_root root name) attr name → wp (with_root (name_root root name) (m (name_root root name))) s w (λ _ s' _, after [] s s')) →
    wp (with_attributes root name m) s w (λ _ s' _, inv [] s' ∧ root_directory s' = root_directory s)).
  { intros root attr name m [Hr Hs] Hm. unfold with_attributes. destruct (_ <=? _); [by rewrite wp_set_error|]. apply Hweak, Hm.
    destruct name; [|by split]. split; [done|]. by intros ?. }
  destruct r as [root name attr error sd|root name attr target error sd|type root name attr error sd|root ops name attr error|o|o permanent]; cbn [run_request].
  - destruct Hall as [Hp Hm]. eapply Hattr; [exact Hp|]. intros [Hr Hs]. apply create_reply_ok; [done..|]. intros extra s1 ???? ?.
    apply create_directory_ok; try done. by eapply safe_path_shape.
  - destruct Hall as [Hp Hm]. eapply Hattr; [exact Hp|]. intros [Hr Hs]. apply with_root_ok; [done..|]. intros extra s1 H1 Hf1 Hh1 Es Er. rewrite wp_bind.
    eapply wp_mono; [apply (create_symlink_ok extra); try done; [unfold fits in *; lia|by eapply safe_path_shape]|].
    intros r s' w' Hpost. rewrite wp_bind, wp_get_error, wp_bind. assert (Hf4 : fits 4 extra s1) by (unfold fits in *; lia).
    unfold when. destruct (_ && _); [unfold clear_error; rewrite wp_set_error|apply wp_ret]; by eapply reply_ok.
  - eapply Hattr; [exact Hall|]. intros [Hr Hs]. apply create_reply_ok; [done..|]. intros extra s1 ???? ?. apply create_other_ok; try done.
    by eapply safe_path_shape.
  - unfold open_object. destruct (_ <=? _); [by rewrite wp_set_error|]. destruct Hall as [Hr Hs]. cbn zeta.
    assert (Hm : wp (with_root root (let* r := open_named_object casemap root ops name attr in reply_handle r error)) s w
      (λ _ s' _, inv [] s' ∧ root_directory s' = root_directory s)).
    { apply Hweak, create_reply_ok; [done..|]. intros extra s1 ???? ?. apply open_named_ok; try done. by eapply safe_path_shape. }
    destruct root as [r|], name as [|c name]; try exact Hm. destruct (inv_held _ _ H r) as [x Hx]; [specialize (Hr r eq_refl); set_solver|].
    unfold read_object. rewrite !wp_bind, wp_get, Hx. apply wp_ret. case_bool_decide; [exact Hm|by rewrite wp_set_error].
  - by apply close_named_ok.
  - destruct Hall. apply set_permanence_ok; try done. unfold fits in *. lia.
Qed.

(** The server starts with the root directory, to which only its permanence refers. *)
Definition initial (root : Z) : ns_state :=
  NsState {[root := Object 1 true None (Directory (Some (Namespace HASH_SIZE (replicate 7 []))))]} root 0 [].
Inductive reachable (root : Z) : ns_state → Prop :=
  | reachable_initial : reachable root (initial root)
  | reachable_request s w r u s' w' : reachable root s → allowed s w r → run_request r s w = Some (u, s', w') → reachable root s'.

Lemma initial_inv root : inv [] (initial root).
Proof.
  assert (Hs : shape (initial root) = {[root := (None, Directory (Some (Namespace HASH_SIZE (replicate 7 []))))]}) by (unfold shape, initial; cbn [ns_objects]; by rewrite map_fmap_singleton).
  assert (Hnot : ∀ d o name, ¬ child (shape (initial root)) d o name).
  { intros d o name [dt E]. rewrite Hs in E. by apply lookup_singleton_Some in E as [_ ?]. }
  assert (Hch : children (shape (initial root)) root = 0).
  { unfold children. rewrite Hs. replace (filter _ _) with (∅ : tree); [done|]. symmetry. apply map_eq. intros i. rewrite lookup_empty.
    apply map_lookup_filter_None. right. by intros ? [_ <-]%lookup_singleton_Some. }
  split.
  - split; try (intros; exfalso; by eapply Hnot).
    + rewrite Hs. cbn. rewrite lookup_singleton_eq. eauto.
    + intros d nm e E. rewrite Hs in E. apply lookup_singleton_Some in E as [_ [= <- <-]]. by eexists.
    + intros d ns h l [nm E] Hl. rewrite Hs in E. apply lookup_singleton_Some in E as [_ [= <- <-]]. change (replicate 7 ([] : list Z) !! h = Some l) in Hl. apply lookup_replicate in Hl as [-> _].
      split; [constructor|]. by intros o ?%not_elem_of_nil.
    + intros o nm t len E. rewrite Hs in E. by apply lookup_singleton_Some in E as [_ ?].
  - done.
  - intros o x Hx. cbn in Hx. apply lookup_singleton_Some in Hx as [<- <-]. split; [done|].
    by rewrite Hch.
  - by intros o ?%not_elem_of_nil.
  - intros x Hx. cbn in Hx. rewrite lookup_singleton_eq in Hx. by injection Hx as <-.
Qed.

(** ** Exact lookups *)

Lemma path_element_slash nm rest : (backslash ∉ nm) → path_element (nm ++ backslash :: rest) = (nm, backslash :: rest).
Proof.
  induction nm as [|c nm IH]; intros Hn; cbn [app path_element]; [by rewrite Z.eqb_refl|]. apply not_elem_of_cons in Hn as [Hc Hn].
  rewrite (proj2 (Z.eqb_neq _ _)) by congruence. by rewrite IH.
Qed.

Lemma path_element_last nm : (backslash ∉ nm) → path_element nm = (nm, []).
Proof.
  induction nm as [|c nm IH]; intros Hn; cbn [path_element]; [done|]. apply not_elem_of_cons in Hn as [Hc Hn].
  rewrite (proj2 (Z.eqb_neq _ _)) by congruence. by rewrite IH.
Qed.

(** What is left of a path after the element before [tail], as the loop has it. *)
Definition ptr_at (tail : list Z) : ustr := match tail with [] => None | _ :: l => Some l end.
Definition tail_ok (tail : list Z) : Prop := tail = [] ∨ ∃ l, tail = backslash :: l.

Lemma path_element_tail nm tail : (backslash ∉ nm) → tail_ok tail → path_element (nm ++ tail) = (nm, tail).
Proof. intros Hn [->|[l ->]]; [rewrite app_nil_r; by apply path_element_last|by apply path_element_slash]. Qed.

(** The only child of [d] that a search for [nm] finds. *)
Definition only_child (attr : Z) (T : tree) (d o : Z) (nm : list Z) : Prop :=
  child T d o nm ∧ ∀ c nm', child T d c nm' → matches attr nm' nm → c = o.

Lemma wp_enter root d ns o nm tail attr s w k (Q : option Z * option ustr → ns_state → world → Prop) :
  tree_ok root (shape s) → is_dir (shape s) d ns → counts_fit k s → 0 ≤ k → only_child attr (shape s) d o nm → tail_ok tail →
  Q (Some o, Some (ptr_at tail)) (bump 1 o s) w → wp (directory_lookup_name casemap (Some ns) (Some (Some (nm ++ tail))) attr) s w Q.
Proof.
  intros HT Hd Hc Hk [Hch Honly] Ht HQ. destruct (tr_child _ _ HT _ _ _ Hch) as ([Hne Hn] & _). unfold directory_lookup_name.
  change (units (Some (nm ++ tail))) with (nm ++ tail). rewrite path_element_tail by done. rewrite wp_bind.
  eapply wp_find_object; [exact HT|exact Hd|exact Hc|exact Hk| |].
  - intros o' nm' _ Hch' Hm. rewrite (Honly o' nm' Hch' Hm). by apply wp_ret.
  - intros Hno. exfalso. by eapply (Hno o nm), matches_refl.
Qed.

Lemma read_run o s w x : ns_objects s !! o = Some x → read_object o s w = Some (x, s, w).
Proof. intros Hx. unfold read_object, bind, get. by rewrite Hx. Qed.

(** A turn of the loop in a directory. *)
Lemma loop_enter n attr s w k root0 d ns o nm tail root :
  tree_ok root0 (shape s) → is_dir (shape s) d ns → counts_fit (k + 1) s → 0 ≤ k → only_child attr (shape s) d o nm → tail_ok tail →
  lookup_loop casemap (S n) d (Some (Some (nm ++ tail))) attr root (bump 1 d s) w =
  lookup_loop casemap n o (Some (ptr_at tail)) attr root (bump 1 o s) w.
Proof.
  intros HT Hd Hc Hk Ho Ht. pose proof Hd as [dn Hdn]. destruct (shape_object _ _ _ Hdn) as (x & Hx & E). injection E as En Ed.
  cbn [lookup_loop]. rewrite (bind_run _ _ _ _ _ _ _ (read_run _ _ w _ (bump_object 1 _ _ _ Hx))). cbn [n_data set_refcount]. rewrite Ed.
  assert (Hdir : directory_lookup_name casemap (Some ns) (Some (Some (nm ++ tail))) attr (bump 1 d s) w = Some ((Some o, Some (ptr_at tail)), bump 1 o (bump 1 d s), w)).
  { apply wp_exact, (wp_enter root0 d ns o nm tail _ _ _ k); rewrite ?shape_bump; try done. by apply counts_fit_bump. }
  rewrite (bind_run _ _ _ _ _ _ _ Hdir). cbn [fst snd]. erewrite bind_run; [done|].
  apply wp_exact. eapply wp_move; [exact Hc|by eexists|done].
Qed.

(** The loop ends at an object that the whole path leads to. *)
Lemma wp_loop_end n attr s w k root0 o root (Q : Z * option ustr → ns_state → world → Prop) :
  tree_ok root0 (shape s) → is_Some (shape s !! o) → counts_fit k s → 0 ≤ k → (is_link (shape s) o → has attr OBJ_OPENLINK = true) →
  Q (o, Some None) (bump 1 o s) w → wp (lookup_loop casemap (S n) o (Some None) attr root) (bump 1 o s) w Q.
Proof.
  intros HT [[nm d] Ho] Hc Hk Hl HQ. destruct (shape_object _ _ _ Ho) as (x & Hx & E). injection E as En Ed.
  cbn [lookup_loop]. unfold read_object. rewrite wp_bind, wp_bind, wp_get, (bump_object _ _ _ _ Hx). apply wp_ret. rewrite wp_bind. cbn [n_data set_refcount]. rewrite Ed.
  destruct d as [e|t len|ty].
  - unfold directory_lookup_name. cbn [units default from_option path_element find_object]. rewrite wp_bind. do 2 apply wp_ret. by apply wp_ret.
  - unfold symlink_lookup_name. change (units None) with ([] : list Z). rewrite bool_decide_eq_true_2, Hl by (done || by eexists _, _, _). by apply wp_ret, wp_ret.
  - unfold no_lookup_name. rewrite bool_decide_eq_false_2 by done. rewrite wp_bind. apply wp_ret, wp_ret. by apply wp_ret.
Qed.

(** [lookup_named_object] from the root directory, by its loop. *)
Lemma wp_lookup_root loop attr s w k o l (s1 := set_recursion (recursion_count s + 1) s) :
  counts_fit k s → 1 ≤ k → recursion_count s ≤ 32 → tree_ok (root_directory s) (shape s) → is_Some (shape s !! o) →
  wp (loop (root_directory s) (start_ptr l) attr (root_directory s)) (bump 1 (root_directory s) s1) (World 0 (w_mem w))
    (λ r s' w', r = (o, Some None) ∧ s' = bump 1 o s1 ∧ w' = World 0 (w_mem w)) →
  lookup_with loop None (backslash :: l) attr s w = Some (Some (o, []), bump 1 o s, World 0 (w_mem w)).
Proof.
  intros Hc Hk Hrc HT Ho Hloop. apply wp_exact. unfold lookup_with. rewrite wp_bind, wp_get, wp_bind. rewrite Z.eqb_refl. apply wp_ret.
  cbn [default]. rewrite wp_bind. destruct (tr_root _ _ HT) as [? Hroot]. eapply wp_grab; [exact Hc|lia|by eexists|].
  rewrite (proj2 (Z.ltb_ge _ _)) by lia. rewrite wp_bind, wp_modify, wp_bind. unfold clear_error. rewrite wp_set_error, wp_bind.
  eapply wp_mono; [exact Hloop|]. intros r s' w' (-> & -> & ->). rewrite wp_bind, wp_get, wp_bind, wp_modify, wp_bind, wp_get_error. cbn.
  apply wp_ret. split_and!; [done| |done]. unfold s1, bump, on_objects, set_recursion. cbn. f_equal. lia.
Qed.

(** ** A link that leads to itself *)

Lemma bind_none {A B} (m : N A) (f : A → N B) s w : m s w = None → bind m f s w = None.
Proof. unfold bind. by intros ->. Qed.

Lemma lookup_root_none loop attr s w k l :
  counts_fit k s → 0 ≤ k → recursion_count s ≤ 32 → tree_ok (root_directory s) (shape s) →
  loop (root_directory s) (start_ptr l) attr (root_directory s) (bump 1 (root_directory s) (set_recursion (recursion_count s + 1) s)) (World 0 (w_mem w)) = None →
  lookup_with loop None (backslash :: l) attr s w = None.
Proof.
  intros Hc Hk Hrc HT Hloop. unfold lookup_with. rewrite (bind_run get _ s w s s w) by done. rewrite Z.eqb_refl.
  rewrite (bind_run (ret (Some l)) _ s w (Some l) s w) by done. cbn [default from_option]. destruct (tr_root _ _ HT) as [? Hroot].
  rewrite (bind_run (grab_object (root_directory s)) _ s w tt (bump 1 (root_directory s) s) w).
  2: { apply wp_exact. eapply wp_grab; [exact Hc|lia|by eexists|done]. }
  rewrite (proj2 (Z.ltb_ge _ _)) by lia. erewrite bind_run; [|done]. unfold clear_error, set_error. erewrite bind_run; [|done]. by apply bind_none.
Qed.

(** [o] is a link in the root directory whose target is the path of the link. *)
Definition self_link (attr : Z) (s : ns_state) (o : Z) (nm : list Z) : Prop :=
  only_child attr (shape s) (root_directory s) o nm ∧
  shape s !! o = Some (Some (nm, root_directory s), Symlink (Some (backslash :: nm)) (wlen (backslash :: nm))).

Lemma self_link_state attr s s' o nm : shape s' = shape s → root_directory s' = root_directory s → self_link attr s o nm → self_link attr s' o nm.
Proof. unfold self_link. by intros -> ->. Qed.

Lemma self_lookup attr s o nm k n w : self_link attr s o nm → tree_ok (root_directory s) (shape s) → counts_fit (k + 1) s → 1 ≤ k → recursion_count s ≤ 32 →
  has attr OBJ_OPENLINK = true →
  lookup_with (lookup_loop casemap n) None (backslash :: nm) attr s w =
    (if (2 <=? n)%nat then Some (Some (o, []), bump 1 o s, World 0 (w_mem w)) else None).
Proof.
  intros [Honly Ho] HT Hc Hk Hrc Hattr. destruct (tr_root _ _ HT) as [ns Hroot].
  destruct (tr_child _ _ HT _ _ _ (proj1 Honly)) as ([Hne _] & _). assert (Hst : start_ptr nm = Some (Some (nm ++ []))) by (rewrite app_nil_r; by destruct nm).
  set (s1 := set_recursion (recursion_count s + 1) s).
  assert (Hrun : ∀ n w0, lookup_loop casemap (S n) (root_directory s) (start_ptr nm) attr (root_directory s) (bump 1 (root_directory s) s1) w0 =
    lookup_loop casemap n o (Some None) attr (root_directory s) (bump 1 o s1) w0).
  { intros n' w0. rewrite Hst. apply (loop_enter n' attr s1 w0 k (root_directory s) (root_directory s) ns o nm []); [done|by eexists|done|lia|done|by left]. }
  destruct (Nat.leb_spec 2 n) as [Hn|Hn].
  - destruct n as [|[|n]]; [lia..|]. eapply (wp_lookup_root _ _ _ _ k); [eapply (counts_fit_le (k + 1)); [lia|done]|lia|done|done|by eexists|].
    fold s1. unfold wp. rewrite Hrun. apply (wp_loop_end n attr s1 _ k (root_directory s)); [done|by eexists| |lia|done|done].
    eapply (counts_fit_le (k + 1)); [lia|done].
  - eapply (lookup_root_none _ _ _ _ (k + 1)); [done|lia|done|done|]. fold s1. destruct n as [|[|n]]; [done|by rewrite Hrun|lia].
Qed.

(** Each turn of the loop at the link comes back to where it was. *)
Lemma self_turn attr s o nm k rest root n w : self_link attr s o nm → tree_ok (root_directory s) (shape s) → counts_fit (k + 2) s → 1 ≤ k →
  recursion_count s ≤ 32 → has attr OBJ_OPENLINK = true → rest ≠ [] → o ≠ root →
  lookup_loop casemap (S n) o (Some (Some rest)) attr root (bump 1 o s) w =
    (if (2 <=? n)%nat then lookup_loop casemap n o (Some (Some rest)) attr root (bump 1 o s) (World 0 (w_mem w)) else None).
Proof.
  intros Hself HT Hc Hk Hrc Hattr Hrest Hroot. pose proof Hself as [_ Ho]. destruct (shape_object _ _ _ Ho) as (x & Hx & E). injection E as En Ed.
  cbn [lookup_loop]. rewrite (bind_run _ _ _ _ _ _ _ (read_run _ _ w _ (bump_object 1 _ _ _ Hx))). cbn [n_data set_refcount]. rewrite Ed.
  unfold symlink_lookup_name. change (units (Some rest)) with rest. rewrite bool_decide_eq_false_2 by done. cbn [andb].
  rewrite (proj2 (Z.eqb_neq _ _)) by done. rewrite (proj2 (Z.eqb_neq (wlen _) 0)) by (unfold wlen; cbn [length]; lia).
  assert (Hl := self_lookup attr (bump 1 o s) o nm k n w). rewrite shape_bump in Hl. change (recursion_count (bump 1 o s)) with (recursion_count s) in Hl.
  specialize (Hl (self_link_state attr s (bump 1 o s) o nm (shape_bump _ _ _) eq_refl Hself) HT).
  specialize (Hl ltac:(apply counts_fit_bump; by replace (k + 1 + 1) with (k + 2) by lia) Hk Hrc Hattr).
  destruct (2 <=? n)%nat.
  - rewrite (bind_run _ _ _ _ (Some o, Some (Some rest)) (bump 1 o (bump 1 o s)) (World 0 (w_mem w))); cbn [fst snd].
    + erewrite bind_run; [done|]. apply wp_exact. eapply (wp_move o o); [by replace (k + 2) with (k + 1 + 1) in Hc by lia|by eexists|done].
    + rewrite (bind_run (of_option _) _ _ _ (backslash :: nm) (bump 1 o s) w) by done. rewrite (bind_run _ _ _ _ _ _ _ Hl). by rewrite bool_decide_eq_true_2.
  - apply bind_none. rewrite (bind_run (of_option _) _ _ _ (backslash :: nm) (bump 1 o s) w) by done. by apply bind_none.
Qed.

Lemma self_never attr s o nm k rest root n : self_link attr s o nm → tree_ok (root_directory s) (shape s) → counts_fit (k + 2) s → 1 ≤ k →
  recursion_count s ≤ 32 → has attr OBJ_OPENLINK = true → rest ≠ [] → o ≠ root →
  ∀ w, lookup_loop casemap n o (Some (Some rest)) attr root (bump 1 o s) w = None.
Proof.
  intros Hself HT Hc Hk Hrc Hattr Hrest Hroot. induction n as [|n IH]; intros w; [done|].
  rewrite (self_turn attr s o nm k) by done. by destruct (2 <=? n)%nat.
Qed.

(** ** The path of an object *)

(** [o] is [k] names below the root directory, at [path]. *)
Inductive at_path (root : Z) (T : tree) : nat → Z → list Z → Prop :=
  | at_root : at_path root T 0 root []
  | at_child k p o nm path : at_path root T k p path → child T p o nm → at_path root T (S k) o (path ++ backslash :: nm).

Lemma full_name_run root k o path s w : tree_ok root (shape s) → at_path root (shape s) k o path →
  ∀ n acc, (k ≤ n)%nat → full_name_loop n o acc s w = Some (path ++ acc, s, w).
Proof.
  intros HT Hp. remember (shape s) as T eqn:ET. induction Hp as [|k p o nm path Hp IH Hch]; intros n acc Hn.
  - destruct (tr_root _ _ HT) as [ns E]. rewrite ET in E. destruct (shape_object _ _ _ E) as (x & Hx & E2). injection E2 as En _.
    destruct n; cbn [full_name_loop]; rewrite (bind_run _ _ _ _ _ _ _ (read_run _ _ w _ Hx)); by rewrite En.
  - destruct n as [|n]; [lia|]. cbn [full_name_loop]. rewrite ET in Hch. destruct (child_object _ _ _ _ Hch) as (x & Hx & En).
    rewrite (bind_run _ _ _ _ _ _ _ (read_run _ _ w _ Hx)), En. rewrite IH by lia. by rewrite <-app_assoc.
Qed.

Lemma at_path_depth root k o path T : tree_ok root T → at_path root T k o path → (k < size T)%nat.
Proof.
  intros HT Hp. assert (∃ l, NoDup l ∧ length l = S k ∧ ∀ i, i ∈ l → i ≤ o ∧ is_Some (T !! i)) as (l & Hl & Hlen & Hin).
  { induction Hp as [|k p o nm path Hp (l & Hl & Hlen & Hin) Hch].
    - exists [root]. split_and!; [apply NoDup_singleton|done|]. intros i ->%list_elem_of_singleton. split; [done|].
      destruct (tr_root _ _ HT) as [? E]. eauto.
    - destruct (tr_child _ _ HT _ _ _ Hch) as (_ & Hlt & _). exists (o :: l). split_and!; [constructor; [|done]|cbn; lia|].
      + intros Ho. destruct (Hin o Ho). lia.
      + intros i [->|Hi]%elem_of_cons; [destruct Hch; split; [done|eauto]|]. destruct (Hin i Hi). split; [lia|done]. }
  pose proof (nodup_length_size T l Hl (λ i Hi, proj2 (Hin i Hi))). lia.
Qed.

Lemma at_path_length root k o path T : at_path root T k o path → (k ≤ length path)%nat.
Proof. induction 1 as [|? ? ? ? ? ? IH]; rewrite ?length_app; cbn; lia. Qed.

Lemma at_path_start root k o path T : tree_ok root T → at_path root T k o path → path ≠ [] → ∃ c l, path = backslash :: c :: l.
Proof.
  intros HT Hp. induction Hp as [|k p o nm path Hp IH Hch]; intros Hne; [done|]. destruct (tr_child _ _ HT _ _ _ Hch) as ([Hnm _] & _).
  destruct path as [|b path]; [destruct nm; [done|]; cbn; eauto|]. destruct IH as (c & l & ->); [done|]. cbn. eauto.
Qed.

(** The loop follows the path of an object. *)
Lemma loop_path root k o path attr s q w root1 : tree_ok root (shape s) → at_path root (shape s) k o path →
  counts_fit (q + 1) s → 0 ≤ q → has attr OBJ_CASE_INSENSITIVE = false →
  ∀ n tail, tail_ok tail →
  lookup_loop casemap (k + n) root (Some (ptr_at (path ++ tail))) attr root1 (bump 1 root s) w =
  lookup_loop casemap n o (Some (ptr_at tail)) attr root1 (bump 1 o s) w.
Proof.
  intros HT Hp Hc Hq Hattr. remember (shape s) as T eqn:ET. induction Hp as [|k p o nm path Hp IH Hch]; intros n tail Ht; [done|].
  rewrite <-app_assoc, Nat.add_succ_comm, IH by (right; by eexists). destruct (tr_child _ _ HT _ _ _ Hch) as (_ & _ & ns & _ & Hd & _).
  subst T. apply (loop_enter n attr s w q root p ns o nm tail); try done. split; [done|].
  intros c nm' Hc' Hm. unfold matches in Hm. rewrite Hattr in Hm. subst nm'. by eapply (tr_unique _ _ HT).
Qed.

Lemma reachable_inv root s : reachable root s → inv [] s ∧ root_directory s = root.
Proof.
  induction 1 as [|s w r u s' w' _ [IH Er] Hall Hrun]; [split; [apply initial_inv|done]|].
  pose proof (request_ok r s w IH Hall) as Hok. rewrite (wp_run _ _ _ _ _ _ Hrun) in Hok. destruct Hok as [? E]. split; [done|congruence].
Qed.

(** ** Properties *)

(** C6: Take any sequence of requests that create directories, links and other objects,
    open and close them and make them permanent or temporary, starting from the empty root
    directory, with any failures of the allocator except while a directory or a link
    with [OBJ_PERMANENT] is created, where handles are open, a path that is looked up with
    [OBJ_OPENLINK] (creating a link implies it) meets no link before its last element, the
    root directory is not made temporary, and counts stay in 32 bits. No request fails an
    assertion, uses freed memory or runs for ever, and the namespace stays sound: each
    name is once in the bucket of its hash in a directory that exists, and the count of
    every object is the number of its handles and children and of its permanence. The
    exclusions are needed: see [permanent_uninitialised], [self_link_hangs], [root_freed]. *)
Theorem namespace_requests_safe root s r w : reachable root s → allowed s w r →
  inv [] s ∧ ∃ s' w', run_request r s w = Some (tt, s', w') ∧ inv [] s' ∧ root_directory s' = root.
Proof.
  intros Hr Hall. destruct (reachable_inv _ _ Hr) as [Hi Er]. split; [done|].
  destruct (wp_elim _ _ _ _ (request_ok r s w Hi Hall)) as ([] & s' & w' & Hrun & ? & E). exists s', w'. split_and!; [done|done|congruence].
Qed.

(** C7: A lookup ends, although links may lead through links (links nest at most 33
    deep), unless it has [OBJ_OPENLINK] and meets a link before the last element of the
    path. It gives the object to which the specification [resolves] leads along the path
    and through the links, with what is left of the path, or its error; if the search
    respects case there is only one such result. It takes one reference to the object,
    and changes nothing else. *)
Theorem lookup_named_correct extra s root name attr w : inv extra s → fits 37 extra s → held extra s root → safe_path attr s root name →
  ∃ r s' w', lookup_named_object casemap root name attr s w = Some (r, s', w') ∧
    lookup_post attr (default (root_directory s) root) (resolves attr (shape s) (root_directory s) 0 root name) s w r s' w' ∧
    (has attr OBJ_CASE_INSENSITIVE = false → ∀ res, resolves attr (shape s) (root_directory s) 0 root name res →
       res = match r with Some (o, rest) => Found o rest | None => Failed (w_error w') end).
Proof.
  intros H Hf Hh Hs.
  assert (Hw : wp (lookup_named_object casemap root name attr) s w
    (lookup_post attr (default (root_directory s) root) (resolves attr (shape s) (root_directory s) 0 root name) s w)).
  { eapply lookup_named_ok; [apply H|by eapply inv_counts|lia|apply H|by eapply held_parent|done]. }
  apply wp_elim in Hw as (r & s' & w' & E & Hpost).
  exists r, s', w'. split; [done|]. split; [done|]. intros Hcase res Hres. destruct (walk_unique attr _ _ (inv_tree _ _ H) Hcase) as [_ Hu]. eapply Hu; [exact Hres|].
  destruct Hpost as [_ Hpost]. destruct r as [[o rest]|]; apply Hpost.
Qed.

(** With [OBJ_OPENLINK], the lookup of a path through a link whose target is its own
    path never ends: [symlink_lookup_name] looks up the target with the same attributes
    and gets the link itself, and each turn of the loop comes back to where it was. *)
Theorem self_link_hangs extra s o nm rest attr : inv extra s → fits 40 extra s → self_link attr s o nm → has attr OBJ_OPENLINK = true → rest ≠ [] →
  let s1 := bump 1 o (set_recursion 1 s) in
  (∀ n w, (2 ≤ n)%nat → lookup_loop casemap (S n) o (Some (Some rest)) attr (root_directory s) s1 w =
     lookup_loop casemap n o (Some (Some rest)) attr (root_directory s) s1 (World 0 (w_mem w))) ∧
  ∀ n w, lookup_with (lookup_loop casemap n) None (backslash :: nm ++ backslash :: rest) attr s w = None.
Proof.
  intros H Hf Hself Hattr Hrest s1. pose proof (inv_counts _ _ _ H Hf) as Hc. pose proof (inv_tree _ _ H) as HT. pose proof (inv_recursion _ _ H) as Hrc.
  destruct (tr_child _ _ HT _ _ _ (proj1 (proj1 Hself))) as ([Hne _] & Hlt & ns & _ & Hd & _). split.
  - intros n w Hn. unfold s1. rewrite (self_turn attr (set_recursion 1 s) o nm 38); try done; [|lia]. by rewrite (proj2 (Nat.leb_le _ _)).
  - intros n w. eapply (lookup_root_none _ _ _ _ 40); [done|lia|lia|done|]. rewrite Hrc. destruct n as [|n]; [done|].
    replace (start_ptr (nm ++ backslash :: rest)) with (Some (Some (nm ++ backslash :: rest))) by (by destruct nm).
    rewrite (loop_enter n attr (set_recursion (0 + 1) s) _ 39 (root_directory s) (root_directory s) ns o nm (backslash :: rest)); try done; [|apply Hself|right; by eexists].
    apply (self_never attr (set_recursion 1 s) o nm 38); try done; lia.
Qed.

(** C8: The full name of an object leads back to it. *)
Theorem full_name_lookup extra s k o path attr max w : inv extra s → fits 37 extra s → at_path (root_directory s) (shape s) k o path → path ≠ [] →
  has attr OBJ_CASE_INSENSITIVE = false → (is_link (shape s) o → has attr OBJ_OPENLINK = true) → w_mem w = [] → wlen path ≤ max →
  default_get_full_name o max s w = Some (Some path, s, w) ∧
  lookup_named_object casemap None path attr s w = Some (Some (o, []), bump 1 o s, World 0 []).
Proof.
  intros H Hf Hp Hne Hcase Hlink Hmem Hmax. pose proof (inv_counts _ _ _ H Hf) as Hc. pose proof (inv_tree _ _ H) as HT.
  pose proof (at_path_depth _ _ _ _ _ HT Hp) as Hk. rewrite size_shape in Hk. split.
  - unfold default_get_full_name. erewrite bind_run; [|done]. rewrite (bind_run _ _ _ _ (path ++ []) s w) by (eapply full_name_run; [done..|lia]).
    rewrite app_nil_r, bool_decide_eq_false_2 by done. erewrite bind_run; [|unfold malloc; by rewrite Hmem]. cbn [negb].
    by rewrite (proj2 (Z.ltb_ge _ _)).
  - destruct (at_path_start _ _ _ _ _ HT Hp Hne) as (c & l & ->). pose proof (at_path_length _ _ _ _ _ Hp) as Hlen.
    unfold lookup_named_object. erewrite bind_run; [|done]. set (fuel := lookup_fuel _ _). rewrite <-Hmem.
    assert (∃ n, fuel = (k + S n)%nat) as [n ->] by (exists (fuel - k - 1)%nat; unfold fuel, lookup_fuel in *; lia).
    assert (Ho : is_Some (shape s !! o)) by (inversion Hp as [|? ? ? ? ? _ [? ?]]; eauto).
    eapply (wp_lookup_root _ _ _ _ 37); [done|lia|rewrite (inv_recursion _ _ H); lia|done|done|].
    unfold wp. set (s1 := set_recursion _ s). pose proof (loop_path _ _ _ _ attr s1 36 (World 0 (w_mem w)) (root_directory s) HT Hp Hc ltac:(lia) Hcase (S n) [] (or_introl eq_refl)) as Hrun.
    rewrite app_nil_r in Hrun. cbn [ptr_at start_ptr] in Hrun |- *. rewrite Hrun.
    apply (wp_loop_end n attr s1 _ 37 (root_directory s)); done || lia.
Qed.

End Tree.

(** ** Witnesses *)

(** A server with the directory [\D] and the links [\L], to [\D], and [\A], to [\A]. *)
Definition after_request (r : request) (s : ns_state) : ns_state :=
  match run_request (λ c, c) r s (World 0 []) with Some (_, s', _) => s' | None => s end.
Definition example_1 : ns_state := after_request (CreateDirectory None [92; 68] 0 0 false) (initial 1).
Definition example_2 : ns_state := after_request (CreateSymlink None [92; 76] 0 [92; 68] 0 false) example_1.
Definition example_3 : ns_state := after_request (CreateSymlink None [92; 65] 0 [92; 65] 0 true) example_2.

Lemma not_link_directory T o nm e : T !! o = Some (nm, Directory e) → ¬ is_link T o.
Proof. intros E (? & ? & ? & ?). congruence. Qed.

(** One element below the root directory crosses no link. *)
Lemma safe_path_root casemap attr s c nm e : shape s !! root_directory s = Some (nm, Directory e) → safe_path casemap attr s None [backslash; c].
Proof.
  intros E name. cbn [path_start]. rewrite Z.eqb_refl. intros [= <-]. right. constructor; [by eapply not_link_directory|].
  intros o nm' el l. cbn [path_element]. destruct (c =? backslash) eqn:Ec; [|done]. intros [= <- _ <-] [dt Hch] _. constructor.
Qed.

Lemma example_1_reachable : reachable (λ c, c) 1 example_1.
Proof.
  eapply (reachable_request _ _ (initial 1) (World 0 []) (CreateDirectory None [92; 68] 0 0 false)); [apply reachable_initial| |vm_compute; reflexivity].
  split; [vm_compute; reflexivity|]. split; [|done]. split; [done|]. by left.
Qed.

Lemma example_2_reachable : reachable (λ c, c) 1 example_2.
Proof.
  eapply (reachable_request _ _ example_1 (World 0 []) (CreateSymlink None [92; 76] 0 [92; 68] 0 false)); [apply example_1_reachable| |vm_compute; reflexivity].
  split; [vm_compute; reflexivity|]. split; [|done]. split; [done|]. eapply safe_path_root. vm_compute. reflexivity.
Qed.

Lemma example_3_reachable : reachable (λ c, c) 1 example_3.
Proof.
  eapply (reachable_request _ _ example_2 (World 0 []) (CreateSymlink None [92; 65] 0 [92; 65] 0 true)); [apply example_2_reachable| |vm_compute; reflexivity].
  split; [vm_compute; reflexivity|]. split; [|done]. split; [done|]. eapply safe_path_root. vm_compute. reflexivity.
Qed.

(** Creating [\L\E] puts [E] into [\D], when the first allocations fail and when not. *)
Lemma namespace_requests_safe_witness :
  reachable (λ c, c) 1 example_3 ∧ allowed (λ c, c) example_3 (World 0 [true; true; false]) (CreateDirectory None [92; 76; 92; 69] 0 0 false) ∧
  ∃ s' w', run_request (λ c, c) (CreateDirectory None [92; 76; 92; 69] 0 0 false) example_3 (World 0 [true; true; false]) = Some (tt, s', w') ∧ inv (λ c, c) [] s' ∧ root_directory s' = 1.
Proof.
  assert (Hall : allowed (λ c, c) example_3 (World 0 [true; true; false]) (CreateDirectory None [92; 76; 92; 69] 0 0 false)).
  { split; [vm_compute; reflexivity|]. split; [|done]. split; [done|]. by left. }
  split; [apply example_3_reachable|]. split; [exact Hall|].
  apply (namespace_requests_safe (λ c, c) 1 _ _ _ example_3_reachable Hall).
Defined.

Lemma example_3_inv : inv (λ c, c) [] example_3.
Proof. exact (proj1 (reachable_inv _ _ _ example_3_reachable)). Qed.

Lemma same_run {A B C} (a a' : A) (b b' : B) (c c' : C) : Some (a, b, c) = Some (a', b', c') → a = a' ∧ c = c'.
Proof. by intros [= -> _ ->]. Qed.

(** [\L\x] leads to the directory [\D], where [x] is left; [\A\x] fails. *)
Lemma lookup_named_correct_witness :
  resolves (λ c, c) 0 (shape example_3) 1 0 None [92; 76; 92; 120] (Found 2 [120]) ∧
  resolves (λ c, c) 0 (shape example_3) 1 0 None [92; 65; 92; 120] (Failed STATUS_INVALID_PARAMETER) ∧
  lookup_named_object (λ c, c) None [92; 76; 92; 120] 0 example_3 (World 5 []) = Some (Some (2, [120]), bump 1 2 example_3, World 0 []).
Proof.
  destruct (lookup_named_correct (λ c, c) [] example_3 None [92; 76; 92; 120] 0 (World 5 []) example_3_inv) as (r & s' & w' & E & [_ HR] & _);
    [vm_compute; reflexivity|done|by left|].
  destruct (lookup_named_correct (λ c, c) [] example_3 None [92; 65; 92; 120] 0 (World 5 []) example_3_inv) as (r2 & s2 & w2 & E2 & [_ HR2] & _);
    [vm_compute; reflexivity|done|by left|].
  assert (E3 : lookup_named_object (λ c, c) None [92; 76; 92; 120] 0 example_3 (World 5 []) = Some (Some (2, [120]), bump 1 2 example_3, World 0 []))
    by (vm_compute; reflexivity).
  assert (E4 : lookup_named_object (λ c, c) None [92; 65; 92; 120] 0 example_3 (World 5 []) = Some (None, example_3, World STATUS_INVALID_PARAMETER []))
    by (vm_compute; reflexivity).
  rewrite E3 in E. rewrite E4 in E2. apply same_run in E as [<- <-]. apply same_run in E2 as [<- <-].
  split; [apply HR|]. split; [apply HR2|exact E3].
Defined.

Lemma example_3_self : self_link (λ c, c) OBJ_OPENLINK example_3 4 [65].
Proof.
  split; [|vm_compute; reflexivity]. split; [eexists; vm_compute; reflexivity|]. intros c nm Hch ->.
  eapply (tr_unique _ _ _ (inv_tree _ _ _ example_3_inv)); [exact Hch|]. eexists. vm_compute. reflexivity.
Qed.

Lemma self_link_hangs_witness :
  self_link (λ c, c) OBJ_OPENLINK example_3 4 [65] ∧
  lookup_with (lookup_loop (λ c, c) 1000) None [92; 65; 92; 120] OBJ_OPENLINK example_3 (World 0 []) = None.
Proof.
  split; [apply example_3_self|].
  apply (self_link_hangs (λ c, c) [] example_3 4 [65] [120] OBJ_OPENLINK example_3_inv); [vm_compute; reflexivity|apply example_3_self|done|done].
Defined.

Definition example_4 : ns_state := after_request (CreateDirectory None [92; 76; 92; 69] 0 0 false) example_3.

Lemma example_4_inv : inv (λ c, c) [] example_4.
Proof.
  eapply (reachable_inv _ 1). eapply (reachable_request _ _ example_3 (World 0 []) (CreateDirectory None [92; 76; 92; 69] 0 0 false));
    [apply example_3_reachable| |vm_compute; reflexivity].
  split; [vm_compute; reflexivity|]. split; [|done]. split; [done|]. by left.
Qed.

Lemma full_name_lookup_witness :
  default_get_full_name 5 100 example_4 (World 0 []) = Some (Some [92; 68; 92; 69], example_4, World 0 []) ∧
  lookup_named_object (λ c, c) None [92; 68; 92; 69] 0 example_4 (World 0 []) = Some (Some (5, []), bump 1 5 example_4, World 0 []).
Proof.
  apply (full_name_lookup (λ c, c) [] example_4 2 5 [92; 68; 92; 69] 0 100 (World 0 []) example_4_inv).
  - vm_compute. reflexivity.
  - apply (at_child _ _ 1 2 5 [69] [92; 68]); [|eexists; vm_compute; reflexivity].
    apply (at_child _ _ 0 1 2 [68] []); [apply at_root|eexists; vm_compute; reflexivity].
  - done.
  - done.
  - intros (? & ? & ? & E). vm_compute in E. discriminate E.
  - reflexivity.
  - vm_compute. discriminate.
Defined.

(** A request may make the root directory temporary: the server has no reference of its
    own to it, and frees it when no name below it and no handle is left. *)
Lemma root_freed : ns_objects (after_request (CloseHandle 1) (after_request (SetPermanence 1 false) (after_request (OpenObject None None [92] 0 0) (initial 1)))) = ∅.
Proof. vm_compute. reflexivity. Qed.

(** A permanent directory for whose entries there is no memory stays in the namespace
    without them, and the next lookup in it reads through a NULL pointer. *)
Lemma permanent_uninitialised :
  let r := run_request (λ c, c) (CreateDirectory None [92; 68] OBJ_PERMANENT 0 false) (initial 1) (World 0 [true; true; false]) in
  (λ '(_, s, w), (ns_objects s !! 2, w_error w)) <$> r =
    Some (Some (Object 1 true (Some ([68], 1)) (Directory None)), STATUS_NO_MEMORY) ∧
  (r ≫= λ '(_, s, w), lookup_named_object (λ c, c) None [92; 68; 92; 120] 0 s w) = None.
Proof. split; vm_compute; reflexivity. Qed.
