(* ===== verification/Windows.v ===== *)
(** * The window tree (server/window.c)

    Windows form a tree, through the parent of each and two lists of children: those in
    z-order, first on top, and those that are not linked into it. A window holds a
    reference to its parent, and one for its handle until it is destroyed; a window whose
    handle is gone stays as long as it has children. The server knows the windows of a
    desktop by the handles of user.c, behind the interface [WindowHandles].

    The tree and the z-order are modelled for one desktop. What a handler does besides is
    left out: painting, rectangles, properties, classes, the attachment of the input of
    threads, and the pointers of the desktop to its shell windows.

    A window is linked into lists through its [entry]: [list_remove] takes it out of the
    list that it is in, whichever that is. [list_next] and [list_prev] stop only at the head
    that they are given; what they find at another head is not a window, and using it as one
    is an error of the model.

    [win_inv] is the invariant that requests keep; [allowed] are the requests that the
    server handles: the last theorems show what others do. Loops up the tree, and the
    recursions down, take the number of windows as fuel, which the depth never reaches. *)

From stdpp Require Import sorting.
From S2P Require Import Prelude UserHandles.

Definition WS_POPUP : Z := 0x80000000.
Definition WS_CHILD : Z := 0x40000000.
Definition WS_MINIMIZE : Z := 0x20000000.
Definition WS_VISIBLE : Z := 0x10000000.
Definition WS_DLGFRAME : Z := 0x400000.
Definition WS_THICKFRAME : Z := 0x40000.
Definition WS_EX_DLGMODALFRAME : Z := 0x1.
Definition WS_EX_TOPMOST : Z := 0x8.
Definition WS_EX_WINDOWEDGE : Z := 0x100.
Definition WS_EX_STATICEDGE : Z := 0x20000.
Definition SWP_NOZORDER : Z := 0x4.
Definition SWP_SHOWWINDOW : Z := 0x40.
Definition SWP_HIDEWINDOW : Z := 0x80.
Definition ERROR_INVALID_WINDOW_HANDLE : Z := 1400.

(** ** The handles of windows *)

(** What window.c needs of the table of user handles. [wh_find] is the meaning of a handle. *)
Class WindowHandles (T : Type) := {
  wh_alloc : Z → Z → Z → obj_locator → M T Z;
  wh_free : Z → M T (option Z);
  wh_get : Z → M T (option Z);
  wh_wf : T → Prop;
  wh_room : T → Prop;
  wh_find : T → Z → option Z;
  wh_get_ok t h w (Q : option Z → T → world → Prop) : wh_wf t → Q (wh_find t h) t w → wp (wh_get h) t w Q;
  wh_alloc_ok tid pid p l t w (Q : Z → T → world → Prop) : wh_wf t → wh_room t → (∀ h, wh_find t h ≠ Some p) →
    (∀ h t', wh_wf t' → h ≠ 0 → wh_find t' h = Some p → (∀ h' q, wh_find t h' = Some q → wh_find t' h' = Some q) →
       (∀ h' q, wh_find t' h' = Some q → q = p ∨ wh_find t h' = Some q) → Q h t' w) →
    wp (wh_alloc tid pid p l) t w Q;
  wh_free_ok h p t w (Q : option Z → T → world → Prop) : wh_wf t → wh_find t h = Some p →
    (∀ r t', wh_wf t' → (∀ h', wh_find t' h' ≠ Some p) → (∀ h' q, wh_find t' h' = Some q → wh_find t h' = Some q) →
       (∀ h' q, q ≠ p → wh_find t h' = Some q → wh_find t' h' = Some q) → Q r t' w) →
    wp (wh_free h) t w Q
}.

(** ** Windows *)

(** [w_entry] tells whether the list entry is initialised. *)
Record window := Window {
  w_parent : option Z; w_owner : Z; w_children : list Z; w_unlinked : list Z; w_entry : bool;
  w_handle : Z; w_thread : option Z; w_style : Z; w_ex_style : Z; w_linked : bool; w_orphan : bool; w_refcount : Z }.

Definition set_parent (q : option Z) (x : window) : window :=
  Window q (w_owner x) (w_children x) (w_unlinked x) (w_entry x) (w_handle x) (w_thread x) (w_style x) (w_ex_style x) (w_linked x) (w_orphan x) (w_refcount x).
Definition set_lists (c u : list Z) (x : window) : window :=
  Window (w_parent x) (w_owner x) c u (w_entry x) (w_handle x) (w_thread x) (w_style x) (w_ex_style x) (w_linked x) (w_orphan x) (w_refcount x).
Definition set_entry (x : window) : window :=
  Window (w_parent x) (w_owner x) (w_children x) (w_unlinked x) true (w_handle x) (w_thread x) (w_style x) (w_ex_style x) (w_linked x) (w_orphan x) (w_refcount x).
Definition set_handle (h : Z) (x : window) : window :=
  Window (w_parent x) (w_owner x) (w_children x) (w_unlinked x) (w_entry x) h (w_thread x) (w_style x) (w_ex_style x) (w_linked x) (w_orphan x) (w_refcount x).
Definition set_thread (t : option Z) (x : window) : window :=
  Window (w_parent x) (w_owner x) (w_children x) (w_unlinked x) (w_entry x) (w_handle x) t (w_style x) (w_ex_style x) (w_linked x) (w_orphan x) (w_refcount x).
Definition set_style (n : Z) (x : window) : window :=
  Window (w_parent x) (w_owner x) (w_children x) (w_unlinked x) (w_entry x) (w_handle x) (w_thread x) n (w_ex_style x) (w_linked x) (w_orphan x) (w_refcount x).
Definition set_ex_style (n : Z) (x : window) : window :=
  Window (w_parent x) (w_owner x) (w_children x) (w_unlinked x) (w_entry x) (w_handle x) (w_thread x) (w_style x) n (w_linked x) (w_orphan x) (w_refcount x).
Definition set_linked (b : bool) (x : window) : window :=
  Window (w_parent x) (w_owner x) (w_children x) (w_unlinked x) (w_entry x) (w_handle x) (w_thread x) (w_style x) (w_ex_style x) b (w_orphan x) (w_refcount x).
Definition set_orphan (b : bool) (x : window) : window :=
  Window (w_parent x) (w_owner x) (w_children x) (w_unlinked x) (w_entry x) (w_handle x) (w_thread x) (w_style x) (w_ex_style x) (w_linked x) b (w_refcount x).
Definition set_refs (n : Z) (x : window) : window :=
  Window (w_parent x) (w_owner x) (w_children x) (w_unlinked x) (w_entry x) (w_handle x) (w_thread x) (w_style x) (w_ex_style x) (w_linked x) (w_orphan x) n.

Definition topmost (x : window) : bool := has (w_ex_style x) WS_EX_TOPMOST.
Definition set_topmost (b : bool) (x : window) : window :=
  set_ex_style (if b then Z.lor (w_ex_style x) WS_EX_TOPMOST else Z.ldiff (w_ex_style x) WS_EX_TOPMOST) x.

(** [notified] are the handles that were sent [WM_WINE_DESTROYWINDOW]. *)
Record win_state (T : Type) := WinState {
  windows : gmap Z window; table : T; top_window : option Z; msg_window : option Z; notified : list Z }.
Arguments WinState {T}.
Arguments windows {T}.
Arguments table {T}.
Arguments top_window {T}.
Arguments msg_window {T}.
Arguments notified {T}.

Section Windows.
Context {T : Type} {WH : WindowHandles T}.
#[local] Abbreviation WM := (M (win_state T)).

Definition on_windows (f : gmap Z window → gmap Z window) (s : win_state T) : win_state T :=
  WinState (f (windows s)) (table s) (top_window s) (msg_window s) (notified s).
Definition set_table (t : T) (s : win_state T) : win_state T := WinState (windows s) t (top_window s) (msg_window s) (notified s).
Definition set_top (p : option Z) (s : win_state T) : win_state T := WinState (windows s) (table s) p (msg_window s) (notified s).
Definition set_msg (p : option Z) (s : win_state T) : win_state T := WinState (windows s) (table s) (top_window s) p (notified s).
Definition notify (h : Z) (s : win_state T) : win_state T := WinState (windows s) (table s) (top_window s) (msg_window s) (h :: notified s).

Definition on_table {A} (m : M T A) : WM A := λ s w,
  match m (table s) w with Some (a, t, w') => Some (a, set_table t s, w') | None => None end.
Definition of_ptr {A} (a : option A) : WM A := match a with Some a => ret a | None => crash end.
Definition read_window (p : Z) : WM window := let* s := get in of_ptr (windows s !! p).
Definition update (p : Z) (f : window → window) : WM unit := let* x := read_window p in modify (on_windows (<[p := f x]>)).

(** ** The lists of children *)

Definition both_lists (f : list Z → list Z) (x : window) : window := set_lists (f (w_children x)) (f (w_unlinked x)) x.
Definition list_remove (p : Z) : WM unit :=
  let* x := read_window p in
  c_assert (w_entry x) >> modify (on_windows (fmap (both_lists (filter (λ i, i ≠ p))))).
Fixpoint insert_after (q p : Z) (l : list Z) : list Z :=
  match l with [] => [] | i :: l => if i =? q then i :: p :: l else i :: insert_after q p l end.
Definition list_add_after (q p : Z) : WM unit :=
  let* x := read_window q in
  c_assert (w_entry x) >> modify (on_windows (fmap (both_lists (insert_after q p)))).

(** What follows [p] in a list: [None] if it is not there, [Some None] at the end. *)
Fixpoint next_in (p : Z) (l : list Z) : option (option Z) :=
  match l with [] => None | i :: l => if i =? p then Some (head l) else next_in p l end.
Definition prev_in (p : Z) (l : list Z) : option (option Z) := next_in p (rev l).
(** [list_next] and [list_prev] compare with the list of linked children. In the other
    list they give its head, which is not in a window: using it as one is an error. *)
Definition neighbour (look : Z → list Z → option (option Z)) (p : Z) : WM (option Z) :=
  let* x := read_window p in
  let* q := of_ptr (w_parent x) in
  let* y := read_window q in
  match look p (w_children y) with
  | Some r => ret r
  | None => match look p (w_unlinked y) with Some (Some r) => ret (Some r) | _ => crash end
  end.
Definition get_next_window (p : Z) : WM (option Z) := neighbour next_in p.
Definition get_prev_window (p : Z) : WM (option Z) := neighbour prev_in p.
Definition get_first_child (p : Z) : WM (option Z) := let* x := read_window p in ret (head (w_children x)).
Definition get_last_child (p : Z) : WM (option Z) := let* x := read_window p in ret (last (w_children x)).

Inductive place := WINPTR_TOP | WINPTR_BOTTOM | WINPTR_TOPMOST | WINPTR_NOTOPMOST | After (q : Z).
#[global] Instance place_eq_dec : EqDecision place.
Proof. solve_decision. Defined.

(** The loop of [link_window]: the entries that it passes, and whether it stops at the
    owner. *)
Fixpoint pass_topmost (owner : Z) (l : list Z) : WM (nat * bool) :=
  match l with
  | [] => ret (O, false)
  | q :: l =>
      let* x := read_window q in
      if negb (topmost x) then ret (O, false)
      else if w_handle x =? owner then ret (O, true)
      else let* r := pass_topmost owner l in ret (S r.1, r.2)
  end.
Definition put_children (q : Z) (l : list Z) : WM unit := update q (λ y, set_lists l (w_unlinked y) y).
(** Without the result, which tells whether the order has changed, for painting. *)
Definition link_window (p : Z) (previous : place) : WM unit :=
  let* x := read_window p in
  if bool_decide (previous = WINPTR_NOTOPMOST) && negb (topmost x) && w_linked x then ret tt else
  when (bool_decide (previous = WINPTR_NOTOPMOST)) (update p (set_topmost false)) >>
  list_remove p >>
  let* x := read_window p in
  let* parent := of_ptr (w_parent x) in
  let* y := read_window parent in
  (match previous with
   | WINPTR_BOTTOM => put_children parent (w_children y ++ [p]) >> update p (set_topmost false)
   | WINPTR_TOPMOST => put_children parent (p :: w_children y) >> update p (set_topmost true)
   | WINPTR_TOP | WINPTR_NOTOPMOST =>
       let* r := (if topmost x then ret (O, false) else pass_topmost (w_owner x) (w_children y)) in
       when (r.2) (update p (set_topmost true)) >>
       put_children parent (take (r.1) (w_children y) ++ p :: drop (r.1) (w_children y))
   | After q =>
       list_add_after q p >>
       let* z := read_window q in
       if negb (topmost z) then update p (set_topmost false) else
       let* next := get_next_window p in
       match next with
       | None => ret tt
       | Some n => let* x := read_window n in when (topmost x) (update p (set_topmost true))
       end
   end) >>
  update p (λ x, set_linked true (set_entry x)).

(** ** References and parents *)

Definition grab_window (p : Z) : WM unit :=
  let* x := read_window p in c_assert (w_refcount x <? INT_MAX) >> update p (set_refs (w_refcount x + 1)).
(** [release_object] with [window_destroy]. *)
Fixpoint release_loop (n : nat) (p : Z) : WM unit :=
  match n with
  | O => crash
  | S n =>
      let* x := read_window p in
      c_assert (negb (w_refcount x =? 0)) >>
      update p (set_refs (w_refcount x - 1)) >>
      if w_refcount x - 1 =? 0 then
        c_assert (w_handle x =? 0) >>
        match w_parent x with
        | None => modify (on_windows (delete p))
        | Some q => list_remove p >> modify (on_windows (delete p)) >> release_loop n q
        end
      else ret tt
  end.
Definition release_window (p : Z) : WM unit := let* s := get in release_loop (S (size (windows s))) p.

Definition is_desktop (x : window) : bool := bool_decide (w_parent x = None).

(** Loops from a window up to the root; the fuel is the number of windows. *)
Fixpoint any_ancestor (f : Z → window → bool) (n : nat) (p : Z) : WM bool :=
  match n with
  | O => crash
  | S n =>
      let* x := read_window p in
      if f p x then ret true else
      match w_parent x with None => ret false | Some q => any_ancestor f n q end
  end.
Definition up {A} (m : nat → WM A) : WM A := let* s := get in m (S (size (windows s))).
Definition is_orphan_window (p : Z) : WM bool := up (λ n, any_ancestor (λ _ x, w_orphan x) n p).
Definition is_child_of (p q : Z) : WM bool := up (λ n, any_ancestor (λ i _, i =? p) n q).
Fixpoint hidden (n : nat) (p : Z) (below : bool) : WM bool :=
  match n with
  | O => crash
  | S n =>
      let* x := read_window p in
      if below && has (w_style x) WS_MINIMIZE then ret true
      else if negb (has (w_style x) WS_VISIBLE) then ret true
      else match w_parent x with None => ret false | Some q => hidden n q true end
  end.
Definition is_visible (p : Z) : WM bool := let* b := up (λ n, hidden n p false) in ret (negb b).

(** [is_child_window], of handles. *)
Definition is_child_window (parent child : Z) : WM bool :=
  let* c := on_table (wh_get child) in
  let* p := on_table (wh_get parent) in
  match c, p with
  | Some c, Some p =>
      let* x := read_window c in
      match w_parent x with None => ret false | Some q => is_child_of p q end
  | _, _ => ret false
  end.

Definition set_parent_window (p : Z) (parent : option Z) : WM bool :=
  let* below := (match parent with Some q => is_child_of p q | None => ret false end) in
  if below : bool then set_error STATUS_INVALID_PARAMETER >> ret false else
  match parent with
  | Some q =>
      let* x := read_window p in
      match w_parent x with Some old => release_window old | None => ret tt end >>
      grab_window q >>
      update p (set_parent (Some q)) >>
      link_window p WINPTR_TOP >>
      ret true
  | None =>
      list_remove p >>
      let* x := read_window p in
      let* q := of_ptr (w_parent x) in
      update q (λ y, set_lists (w_children y) (p :: w_unlinked y) y) >>
      update p (λ x, set_linked false (set_orphan true x)) >>
      ret true
  end.

(** ** Creating and destroying windows *)

Definition get_window (h : Z) : WM (option Z) :=
  let* r := on_table (wh_get h) in
  match r with None => set_error (Z.lor 0xc0010000 ERROR_INVALID_WINDOW_HANDLE) >> ret None | Some _ => ret r end.

(** The classes that [create_window] tells apart. *)
Inductive class_kind := desktop_class | message_class | other_class.
#[global] Instance class_kind_eq_dec : EqDecision class_kind.
Proof. solve_decision. Defined.

Definition new_window (parent : option Z) (owner tid : Z) : window :=
  Window parent owner [] [] false 0 (Some tid) 0 0 false false 1.
(** The label [failed] of [create_window], once the window is allocated. *)
Definition create_failed (p : Z) : WM (option Z) :=
  let* x := read_window p in
  when (truth (w_handle x)) (let* _ := on_table (wh_free (w_handle x)) in update p (set_handle 0)) >>
  release_window p >> ret None.
(** [class] is [None] if there is no such class; [queue] tells whether the input of the
    thread can be attached to that of the parent, or its queue be made. [owner] is the
    handle of the owner. *)
Definition create_window (parent : option Z) (owner : Z) (class : option class_kind) (extra_bytes : Z) (tid pid : Z) (l : obj_locator) (queue : bool) : WM (option Z) :=
  match class with
  | None => set_error STATUS_INVALID_HANDLE >> ret None
  | Some class =>
      let* s := get in
      let* parent :=
        (match parent with
         | Some q => ret (Some (Some q))
         | None =>
             match class with
             | desktop_class => ret (Some (top_window s))
             | message_class => ret (Some (if bool_decide (is_Some (msg_window s)) then top_window s else None))
             | other_class => match top_window s with Some q => ret (Some (Some q)) | None => set_error STATUS_ACCESS_DENIED >> ret None end
             end
         end) in
      match parent with
      | None => ret None
      | Some parent =>
          let* ok := mem_alloc in
          if negb ok then ret None else
          let* s := get in
          let p := new_key (windows s) in
          match parent with Some q => grab_window q | None => ret tt end >>
          modify (on_windows (<[p := new_window parent owner tid]>)) >>
          let* ok := mem_alloc in
          if negb ok then create_failed p else
          let* ok := (if truth extra_bytes then mem_alloc else ret true) in
          if negb ok then create_failed p else
          let* h := on_table (wh_alloc tid pid p l) in
          update p (set_handle h) >>
          if negb (truth h) || negb queue then create_failed p else
          update p set_entry >>
          match parent with
          | Some q => update q (λ y, set_lists (w_children y) (p :: w_unlinked y) y)
          | None =>
              let* s := get in
              match class with
              | desktop_class => c_assert (bool_decide (top_window s = None)) >> modify (set_top (Some p))
              | _ => c_assert (bool_decide (msg_window s = None)) >> modify (set_msg (Some p))
              end
          end >>
          ret (Some p)
      end
  end.

(** [detach_window_thread]: the class, the queue and the desktop are not modelled. *)
Definition detach_window_thread (p : Z) : WM unit := update p (set_thread None).

(** The loop over the children: those of other threads are told to destroy themselves. A
    child that is freed leaves the list, and no other entry of the list does. *)
Fixpoint free_children (free : Z → WM unit) (p : Z) (l : list Z) : WM unit :=
  match l with
  | [] => ret tt
  | c :: l =>
      let* x := read_window p in
      let* y := read_window c in
      (if w_handle y =? 0 then ret tt else
       if bool_decide (w_thread x = None ∨ w_thread y = None ∨ w_thread x = w_thread y) then free c
       else modify (notify (w_handle y))) >>
      free_children free p l
  end.
Fixpoint free_window (n : nat) (p : Z) : WM unit :=
  match n with
  | O => crash
  | S n =>
      let* x := read_window p in
      c_assert (negb (w_handle x =? 0)) >>
      let* visible := is_visible p in
      when visible (update p (λ x, set_style (Z.ldiff (w_style x) WS_VISIBLE) x)) >>
      let* x := read_window p in
      free_children (free_window n) p (w_children x) >>
      let* x := read_window p in
      free_children (free_window n) p (w_children x) >>
      let* x := read_window p in
      when (is_desktop x)
        (let* s := get in
         c_assert (bool_decide (top_window s = Some p ∨ msg_window s = Some p)) >>
         if bool_decide (top_window s = Some p) then modify (set_top None) else modify (set_msg None)) >>
      detach_window_thread p >>
      when (negb (is_desktop x)) (let* _ := set_parent_window p None in ret tt) >>
      let* x := read_window p in
      let* _ := on_table (wh_free (w_handle x)) in
      update p (set_handle 0) >>
      release_window p
  end.
Definition free_window_handle (p : Z) : WM unit := let* s := get in free_window (S (size (windows s))) p.

(** ** Requests *)

(** The owner must be a top-level window. *)
Fixpoint owner_loop (n : nat) (p : Z) : WM Z :=
  match n with
  | O => crash
  | S n =>
      let* x := read_window p in
      if negb (Z.land (w_style x) (Z.lor WS_POPUP WS_CHILD) =? WS_CHILD) then ret p else
      let* q := of_ptr (w_parent x) in
      let* y := read_window q in
      if is_desktop y then ret p else owner_loop n q
  end.
(** The owner's handle, or [None] for an error. *)
Definition find_owner (parent : option Z) (owner : Z) : WM (option Z) :=
  if owner =? 0 then ret (Some 0) else
  let* r := get_window owner in
  match r with
  | None => ret None
  | Some o =>
      let* x := read_window o in
      if is_desktop x then ret (Some 0) else
      let* top := (match parent with None => ret true | Some q => let* y := read_window q in ret (is_desktop y) end) in
      if negb top then set_error STATUS_ACCESS_DENIED >> ret None else
      let* o := up (λ n, owner_loop n o) in
      let* x := read_window o in ret (Some (w_handle x))
  end.
Definition req_create_window (parent owner : Z) (class : option class_kind) (extra_bytes style ex_style tid pid : Z) (l : obj_locator) (queue : bool) : WM unit :=
  let* q :=
    (if parent =? 0 then ret (Some None) else
     let* r := get_window parent in
     match r with
     | None => ret None
     | Some q =>
         let* orphan := is_orphan_window q in
         if orphan : bool then set_error STATUS_INVALID_PARAMETER >> ret None else ret (Some (Some q))
     end) in
  match q with
  | None => ret tt
  | Some q =>
      let* o := find_owner q owner in
      match o with
      | None => ret tt
      | Some o =>
          let* r := create_window q o class extra_bytes tid pid l queue in
          match r with
          | None => ret tt
          | Some p => update p (λ x, set_ex_style ex_style (set_style style x))
          end
      end
  end.

Definition req_set_parent (handle parent : Z) : WM unit :=
  let* r := get_window handle in
  match r with
  | None => ret tt
  | Some p =>
      let* q := (if parent =? 0 then ret (Some None) else let* r := get_window parent in ret (match r with None => None | Some q => Some (Some q) end)) in
      match q with
      | None => ret tt
      | Some q =>
          let* x := read_window p in
          let* bad :=
            (if is_desktop x then ret true else
             let* orphan := is_orphan_window p in
             if orphan : bool then ret true else
             match q with None => ret false | Some q => is_orphan_window q end) in
          if bad : bool then set_error STATUS_INVALID_PARAMETER
          else let* _ := set_parent_window p q in ret tt
      end
  end.

(** Without the handle 0, which stands for all windows of the thread. *)
Definition req_destroy_window (handle tid : Z) : WM unit :=
  let* r := get_window handle in
  match r with
  | None => ret tt
  | Some p =>
      let* x := read_window p in
      if negb (is_desktop x) then free_window_handle p
      else if bool_decide (w_thread x = Some tid) then detach_window_thread p
      else set_error STATUS_ACCESS_DENIED
  end.

(** The z-order and visibility part of [set_window_pos]. [rect] tells whether the new
    rectangle is ordered, [region] whether there is memory for the visible region. *)
Definition set_window_pos (p : Z) (previous : place) (flags : Z) (region : bool) : WM unit :=
  let* x := read_window p in
  let visible := has (w_style x) WS_VISIBLE || has flags SWP_SHOWWINDOW in
  let* visible :=
    (match w_parent x with
     | Some q => let* v := is_visible q in ret (visible && v)
     | None => ret visible
     end) in
  if visible && negb region then ret tt else
  when (negb (has flags SWP_NOZORDER) && negb (is_desktop x)) (link_window p previous) >>
  let* x := read_window p in
  if has flags SWP_SHOWWINDOW then update p (set_style (Z.lor (w_style x) WS_VISIBLE))
  else if has flags SWP_HIDEWINDOW then update p (set_style (Z.ldiff (w_style x) WS_VISIBLE))
  else ret tt.
Definition place_of (previous : Z) : option place :=
  if previous =? 0 then Some WINPTR_TOP else if previous =? 1 then Some WINPTR_BOTTOM
  else if previous =? -1 then Some WINPTR_TOPMOST else if previous =? -2 then Some WINPTR_NOTOPMOST else None.
(** [previous] is the signed handle of the request. *)
Definition req_set_window_pos (handle previous flags : Z) (rect region : bool) : WM unit :=
  let* r := get_window handle in
  match r with
  | None => ret tt
  | Some p =>
      let* x := read_window p in
      let flags := if is_desktop x then Z.lor flags SWP_NOZORDER else flags in
      let* r :=
        (if has flags SWP_NOZORDER then ret (Some (WINPTR_TOP, flags)) else
         match place_of previous with
         | Some pl => ret (Some (pl, flags))
         | None =>
             let* r := get_window (u32 previous) in
             match r with
             | None => ret None
             | Some q =>
                 let* y := read_window q in
                 if negb (bool_decide (w_parent y = w_parent x)) then set_error STATUS_INVALID_PARAMETER >> ret None
                 else ret (Some (After q, if q =? p then Z.lor flags SWP_NOZORDER else flags))
             end
         end) in
      match r with
      | None => ret tt
      | Some (pl, flags) =>
          if negb rect then set_error STATUS_INVALID_PARAMETER
          else set_window_pos p pl flags region
      end
  end.

Definition fix_window_ex_style (x : window) : window :=
  set_ex_style
    (if has (w_ex_style x) WS_EX_DLGMODALFRAME then Z.lor (w_ex_style x) WS_EX_WINDOWEDGE
     else if has (w_ex_style x) WS_EX_STATICEDGE then Z.ldiff (w_ex_style x) WS_EX_WINDOWEDGE
     else if has (w_style x) (Z.lor WS_DLGFRAME WS_THICKFRAME) then Z.lor (w_ex_style x) WS_EX_WINDOWEDGE
     else Z.ldiff (w_ex_style x) WS_EX_WINDOWEDGE) x.
Definition set_window_ex_style (ex_style : Z) (x : window) : window :=
  if negb (w_linked x) then set_ex_style ex_style x
  else set_ex_style (Z.lor (Z.ldiff ex_style WS_EX_TOPMOST) (Z.land (w_ex_style x) WS_EX_TOPMOST)) x.
(** [set_window_info] for [GWL_STYLE] and [GWL_EXSTYLE]. *)
Definition req_set_window_info (handle tid : Z) (ex : bool) (new_info : Z) : WM unit :=
  let* r := get_window handle in
  match r with
  | None => ret tt
  | Some p =>
      let* x := read_window p in
      if is_desktop x && negb (bool_decide (w_thread x = Some tid)) then set_error STATUS_ACCESS_DENIED
      else update p (if ex then set_window_ex_style new_info else λ x, fix_window_ex_style (set_style new_info x))
  end.
Definition req_init_window_info (handle style ex_style : Z) : WM unit :=
  let* r := get_window handle in
  match r with None => ret tt | Some p => update p (λ x, set_ex_style ex_style (set_style style x)) end.

(** ** Queries *)

Record window_tree := WindowTree {
  t_parent : Z; t_owner : Z; t_next : Z; t_prev : Z; t_first : Z; t_last : Z; t_first_child : Z; t_last_child : Z }.
Definition handle_of (p : option Z) : WM Z := match p with None => ret 0 | Some p => let* x := read_window p in ret (w_handle x) end.
Definition req_get_window_tree (handle : Z) : WM (option window_tree) :=
  let* r := get_window handle in
  match r with
  | None => ret None
  | Some p =>
      let* x := read_window p in
      let* first_child := let* q := get_first_child p in handle_of q in
      let* last_child := let* q := get_last_child p in handle_of q in
      match w_parent x with
      | None => ret (Some (WindowTree 0 0 0 0 0 0 first_child last_child))
      | Some q =>
          let* y := read_window q in
          let* next := (if w_linked x then let* n := get_next_window p in handle_of n else ret 0) in
          let* prev := (if w_linked x then let* n := get_prev_window p in handle_of n else ret 0) in
          let* first := let* n := get_first_child q in handle_of n in
          let* last := let* n := get_last_child q in handle_of n in
          ret (Some (WindowTree (w_handle y) (w_owner x) next prev first last first_child last_child))
      end
  end.

(** [get_window_list] of a window, for all threads: the children, recursively, or the
    siblings from the window on. *)
Fixpoint list_each (below : Z → WM (list Z)) (l : list Z) : WM (list Z) :=
  match l with
  | [] => ret []
  | c :: l =>
      let* x := read_window c in
      let* b := below c in
      let* r := list_each below l in
      ret (w_handle x :: b ++ r)
  end.
Fixpoint list_children (n : nat) (p : Z) : WM (list Z) :=
  match n with O => crash | S n => let* x := read_window p in list_each (list_children n) (w_children x) end.
Fixpoint list_siblings (n : nat) (p : Z) : WM (list Z) :=
  match n with
  | O => crash
  | S n =>
      let* x := read_window p in
      let* next := get_next_window p in
      match next with None => ret [w_handle x] | Some q => let* l := list_siblings n q in ret (w_handle x :: l) end
  end.
Definition get_window_list (p : Z) (children : bool) : WM (list Z) :=
  if children then up (λ n, list_children n p) else
  let* x := read_window p in
  if negb (is_desktop x) then up (λ n, list_siblings n p) else
  let* s := get in
  match top_window s, msg_window s with
  | Some t, Some m => if t =? p then let* y := read_window m in ret [w_handle x; w_handle y] else ret [w_handle x]
  | _, _ => ret [w_handle x]
  end.
Fixpoint parents_loop (n : nat) (p : Z) : WM (list Z) :=
  match n with
  | O => crash
  | S n =>
      let* x := read_window p in
      match w_parent x with
      | None => ret []
      | Some q => let* y := read_window q in let* l := parents_loop n q in ret (w_handle y :: l)
      end
  end.
Definition req_get_window_parents (handle : Z) : WM (list Z) :=
  let* r := get_window handle in match r with None => ret [] | Some p => up (λ n, parents_loop n p) end.
Definition req_get_window_list (handle : Z) (children : bool) : WM (list Z) :=
  let* r := get_window handle in match r with None => set_error STATUS_INVALID_HANDLE >> ret [] | Some p => get_window_list p children end.
End Windows.

(** ** The interface holds of the table of user.c *)

Definition find_window (s : user_state) (h : Z) : option Z :=
  match resolve s h with
  | Some i => if e_type (entry_at s i) =? NTUSER_OBJ_WINDOW then server_objects s !! i else None
  | None => None
  end.
Definition window_at (s : user_state) (i p : Z) : Prop :=
  0 ≤ i < nb_handles s ∧ e_type (entry_at s i) = NTUSER_OBJ_WINDOW ∧ server_objects s !! i = Some p.
Definition windows_wf (s : user_state) : Prop := user_wf s ∧ ∀ i j p, window_at s i p → window_at s j p → i = j.

Lemma find_window_at s h p : find_window s h = Some p ↔ ∃ i, resolve s h = Some i ∧ window_at s i p.
Proof.
  unfold find_window, window_at. split.
  - destruct (resolve s h) as [i|] eqn:E; [|done]. destruct (Z.eqb_spec (e_type (entry_at s i)) NTUSER_OBJ_WINDOW); [|done].
    intros Hp. exists i. destruct (resolve_range _ _ _ E). done.
  - intros (i & -> & _ & -> & Hp). done.
Qed.

Lemma wp_get_window_object s h w (Q : option Z → user_state → world → Prop) :
  windows_wf s → Q (find_window s h) s w → wp (get_user_object h NTUSER_OBJ_WINDOW) s w Q.
Proof.
  intros [Hwf _] HQ. unfold get_user_object, find_window in *. rewrite wp_bind. apply wp_handle_to_entry; [done|].
  destruct (resolve s h) as [i|] eqn:E; [|by apply wp_ret]. destruct (resolve_range _ _ _ E) as [Hi _]. pose proof (wf_nb s Hwf).
  rewrite wp_bind. apply wp_read_entry; [lia|]. destruct (e_type (entry_at s i) =? NTUSER_OBJ_WINDOW); cbn [negb]; [|by apply wp_ret].
  apply wp_get_server_object; [lia|done].
Qed.

Lemma window_allocated tid pid p l s s' i : windows_wf s → (∀ h, find_window s h ≠ Some p) → allocated tid pid l NTUSER_OBJ_WINDOW s s' i →
  let s2 := with_object i (Some p) s' in
  windows_wf s2 ∧ find_window s2 (mk_handle i (e_generation (entry_at s' i))) = Some p ∧
  (∀ h q, find_window s h = Some q → find_window s2 h = Some q) ∧ (∀ h q, find_window s2 h = Some q → q = p ∨ find_window s h = Some q).
Proof.
  intros [Hwf Hdist] Hnew Hal s2. pose proof Hal as [_ Hi Hnb _ Hfree (g & He & Hg & _) Hframe Hobj].
  pose proof (al_wf _ _ _ _ _ _ _ Hwf Hal) as Hwf'. assert (Hnb' : nb_handles s' ≤ MAX_USER_HANDLES) by (by apply wf_nb).
  assert (Ho : ∀ j, server_objects s2 !! j = if decide (j = i) then Some p else server_objects s !! j).
  { intros j. unfold s2. cbn. rewrite Hobj, lookup_partial_alter. repeat case_decide; congruence. }
  assert (Hold : ∀ j q, window_at s j q → j ≠ i ∧ window_at s2 j q).
  { intros j q (Hj & Ht & Hq). assert (j ≠ i) as Hji by (intros ->; destruct Hfree as [|E]; [lia|]; by rewrite E in Ht). split; [done|].
    split; [change (nb_handles s2) with (nb_handles s'); lia|]. rewrite Ho, decide_False by done. by change (entry_at s2 j) with (entry_at s' j); rewrite Hframe. }
  assert (Hback : ∀ j q, window_at s2 j q → j = i ∧ q = p ∨ window_at s j q ∧ j ≠ i).
  { intros j q (Hj & Ht & Hq). rewrite Ho in Hq. change (entry_at s2 j) with (entry_at s' j) in Ht. change (nb_handles s2) with (nb_handles s') in Hj.
    case_decide; [left; by simplify_eq|right]. rewrite Hframe in Ht by done. split; [|done]. split; [lia|done]. }
  assert (Hpi : window_at s2 i p).
  { split; [done|]. change (entry_at s2 i) with (entry_at s' i). rewrite He. split; [done|]. by rewrite Ho, decide_True. }
  assert (Hno : ∀ j, window_at s j p → j = i).
  { intros j Hj. exfalso. destruct (wf_gen _ j Hwf (proj1 Hj)) as [Hg1 Hg2]. eapply (Hnew (mk_handle j (e_generation (entry_at s j)))), find_window_at.
    exists j. split; [|done]. destruct Hj as (Hj & Ht & _). rewrite resolve_mk; [by rewrite Z.eqb_refl|done|lia|by rewrite Ht|done]. }
  split_and!.
  - split; [by apply with_object_wf|]. intros j k q Hj Hk. apply Hback in Hj as [[-> ->]|[Hj ?]], Hk as [[-> ?]|[Hk ?]]; subst; [done|symmetry; by apply Hno|by apply Hno|].
    by apply (Hdist j k q).
  - apply find_window_at. exists i. split; [|done]. change (resolve s2 ?h) with (resolve s' h). rewrite resolve_mk; [by rewrite Z.eqb_refl|done|done|by rewrite He|by rewrite He].
  - intros h q (j & Hj & Hq)%find_window_at. destruct (Hold _ _ Hq) as [Hji Hq2]. apply find_window_at. exists j. split; [|done].
    change (resolve s2 h) with (resolve s' h). apply (resolve_frame s); [lia|by apply Hframe|done].
  - intros h q (j & Hj & Hq)%find_window_at. apply Hback in Hq as [[_ ->]|[Hq Hji]]; [by left|right]. apply find_window_at. exists j. split; [|done].
    change (resolve s2 h) with (resolve s' h) in Hj. revert Hj. unfold resolve. destruct Hq as (Hjn & _).
    destruct (handle_index h <? 0) eqn:E1; [done|]. destruct (nb_handles s' <=? handle_index h) eqn:E2; [done|]. cbn.
    intros H. assert (handle_index h = j) as E by (repeat case_match; by simplify_eq). rewrite E in *. rewrite Hframe in H by done.
    replace (nb_handles s <=? j) with false by lia. done.
Qed.

Lemma window_released h s s' i p : windows_wf s → resolve s h = Some i → find_window s h = Some p → released (with_object i None s) s' i →
  windows_wf s' ∧ (∀ h', find_window s' h' ≠ Some p) ∧ (∀ h' q, find_window s' h' = Some q → find_window s h' = Some q) ∧
  (∀ h' q, q ≠ p → find_window s h' = Some q → find_window s' h' = Some q).
Proof.
  intros [Hwf Hdist] Hr Hp Hrel. pose proof (re_wf _ _ _ (with_object_wf i None s Hwf) Hrel) as Hwf'. destruct Hrel as [_ Hnb _ Ht _ Hframe Hobj].
  assert (Hpi : window_at s i p) by (apply find_window_at in Hp as (j & Hj & Hp); by simplify_eq).
  assert (Ho : ∀ j, server_objects s' !! j = if decide (j = i) then None else server_objects s !! j).
  { intros j. rewrite Hobj. cbn. rewrite lookup_partial_alter. repeat case_decide; congruence. }
  assert (Hback : ∀ j q, window_at s' j q → j ≠ i ∧ window_at s j q).
  { intros j q (Hj & Htj & Hq). rewrite Ho in Hq. case_decide as E; [done|]. split; [done|]. rewrite Hframe in Htj by done. by rewrite Hnb in Hj. }
  assert (Hres : ∀ h' j, j ≠ i → resolve s' h' = Some j ↔ resolve s h' = Some j).
  { intros h' j Hj. unfold resolve. rewrite Hnb. change (nb_handles (with_object i None s)) with (nb_handles s).
    destruct (handle_index h' <? 0); [done|]. destruct (nb_handles s <=? handle_index h'); [done|]. cbn.
    destruct (decide (handle_index h' = j)) as [->|Hne]; [by rewrite Hframe|]. split; intros H; repeat case_match; by simplify_eq. }
  split_and!.
  - split; [done|]. intros j k q [_ Hj]%Hback [_ Hk]%Hback. by apply (Hdist j k q).
  - intros h' (j & _ & Hj)%find_window_at. apply Hback in Hj as [Hji Hj]. by apply Hji, (Hdist j i p).
  - intros h' q (j & Hj & Hq)%find_window_at. apply Hback in Hq as [Hji Hq]. apply find_window_at. exists j. split; [|done]. by apply Hres.
  - intros h' q Hqp (j & Hj & Hq)%find_window_at. assert (j ≠ i) as Hji by (intros ->; destruct Hq as (_ & _ & E1), Hpi as (_ & _ & E2); congruence).
    apply find_window_at. exists j. split; [by apply Hres|]. destruct Hq as (Hjn & Htj & Hq). split; [by rewrite Hnb|]. rewrite Hframe by done. split; [done|].
    by rewrite Ho, decide_False.
Qed.

#[global] Program Instance user_windows : WindowHandles user_state := {|
  wh_alloc tid pid p l := alloc_user_handle tid pid p (Some l) NTUSER_OBJ_WINDOW;
  wh_free := free_user_handle;
  wh_get h := get_user_object h NTUSER_OBJ_WINDOW;
  wh_wf := windows_wf; wh_room := has_room; wh_find := find_window |}.
Next Obligation. intros. by apply wp_get_window_object. Qed.
Next Obligation.
  intros tid pid p l t w Q Hwf Hroom Hnew HQ. apply wp_alloc_user_handle; [apply Hwf|done|]. intros i s' Hal.
  destruct (window_allocated _ _ _ _ _ _ _ Hwf Hnew Hal) as (Hwf2 & Hf & Hfwd & Hback). apply HQ; try done.
  destruct (al_entry _ _ _ _ _ _ _ Hal) as (g & -> & Hg & _). cbn. pose proof (al_index _ _ _ _ _ _ _ Hal). pose proof (wf_nb _ (al_wf _ _ _ _ _ _ _ (proj1 Hwf) Hal)).
  rewrite mk_handle_eq; lia.
Qed.
Next Obligation.
  intros h p t w Q Hwf Hf HQ. apply wp_free_user_handle; [apply Hwf| |].
  - intros i s' Hr Hrel. destruct (window_released _ _ _ _ _ Hwf Hr Hf Hrel) as (? & ? & ? & ?). by apply HQ.
  - intros Hr. unfold find_window in Hf. by rewrite Hr in Hf.
Qed.

(** ** Trees of parents *)

Section Tree.
Context (P : gmap Z (option Z)).

Inductive depth : Z → nat → Prop :=
  | depth_root p : P !! p = Some None → depth p 0
  | depth_child p q n : P !! p = Some (Some q) → depth q n → depth p (S n).
(** [q] is [p] or below it. *)
Inductive below (p : Z) : Z → Prop :=
  | below_refl : below p p
  | below_child q r : P !! q = Some (Some r) → below p r → below p q.

Lemma depth_unique p n : depth p n → ∀ m, depth p m → n = m.
Proof. induction 1 as [p Hp|p q n Hp _ IH]; intros m Hm; inversion Hm; simplify_eq; [done|]. f_equal. auto. Qed.

Lemma depth_present p n : depth p n → is_Some (P !! p).
Proof. destruct 1; eauto. Qed.

Lemma depth_lt p n : depth p n → (n < size P)%nat.
Proof.
  intros Hp. assert (∃ l, NoDup l ∧ length l = S n ∧ ∀ i, i ∈ l → ∃ m, depth i m ∧ (m ≤ n)%nat) as (l & Hl & Hlen & Hin).
  { induction Hp as [p Hp|p q n Hp Hq (l & Hl & Hlen & Hin)].
    - exists [p]. split_and!; [apply NoDup_singleton|done|]. intros i ->%list_elem_of_singleton. exists O. split; [by constructor|done].
    - exists (p :: l). split_and!; [constructor; [|done]|cbn; lia|].
      + intros Hpl. destruct (Hin p Hpl) as (m & Hm & Hle). pose proof (depth_unique p (S n) ltac:(by econstructor) m Hm). lia.
      + intros i [->|Hi]%elem_of_cons; [exists (S n); split; [by econstructor|done]|]. destruct (Hin i Hi) as (m & ? & ?). exists m. split; [done|lia]. }
  pose proof (nodup_length_size P l Hl) as Hs. rewrite Hlen in Hs. apply Hs. intros i Hi. destruct (Hin i Hi) as (m & Hm & _). by eapply depth_present.
Qed.

Lemma below_trans a b c : below a b → below b c → below a c.
Proof. intros Hab. induction 1 as [|c r Hc _ IH]; [done|]. by econstructor. Qed.

Lemma below_depth p q n : below p q → depth q n → ∃ m, depth p m ∧ (m ≤ n)%nat.
Proof.
  intros Hb. revert n. induction Hb as [|q r Hq _ IH]; intros n Hn; [eauto|]. inversion Hn; simplify_eq.
  destruct (IH _ ltac:(done)) as (m & ? & ?). exists m. split; [done|lia].
Qed.

(** Nothing is below its own child. *)
Lemma not_below_own_child p q n : P !! p = Some (Some q) → depth p n → ¬ below p q.
Proof.
  intros Hp Hn Hb. inversion Hn; simplify_eq. destruct (below_depth _ _ _ Hb ltac:(done)) as (m & Hm & Hle).
  pose proof (depth_unique _ _ Hn _ Hm). lia.
Qed.

(** Two windows that have one below them both are one below the other. *)
Lemma below_linear a b c : below a c → below b c → below a b ∨ below b a.
Proof.
  intros Ha. induction Ha as [|c r Hc Ha IH]; intros Hb; [by right|]. inversion Hb; simplify_eq; [left; by econstructor|auto].
Qed.

(** Siblings are not below each other. *)
Lemma below_sibling p c d n : P !! c = Some (Some p) → P !! d = Some (Some p) → depth c n → below c d → c = d.
Proof.
  intros Hc Hd Hn Hb. inversion Hb as [|? r Hr Hb']; [done|]. simplify_eq. exfalso. by eapply (not_below_own_child c p).
Qed.

Definition counted (p : Z) : Z := Z.of_nat (size (filter (λ kv : Z * option Z, kv.2 = Some p) P)).

Lemma counted_nonneg p : 0 ≤ counted p.
Proof. unfold counted. lia. Qed.

Lemma counted_le p : counted p ≤ Z.of_nat (size P).
Proof. unfold counted. apply inj_le, map_size_le, map_filter_subseteq. Qed.

Lemma counted_zero p q : counted p = 0 → P !! q ≠ Some (Some p).
Proof.
  intros H Hq. unfold counted in H. assert (filter (λ kv : Z * option Z, kv.2 = Some p) P = ∅) as E by (apply map_size_empty_iff; lia).
  apply (f_equal (λ m, m !! q)) in E. rewrite lookup_empty in E. apply map_lookup_filter_None in E as [E|E]; [congruence|]. by eapply E.
Qed.
End Tree.

Lemma counted_delete P p r q : P !! p = Some r → counted (delete p P) q = counted P q - (if decide (r = Some q) then 1 else 0).
Proof.
  intros Hp. unfold counted. rewrite map_filter_delete. case_decide as E.
  - rewrite map_size_delete_Some by (exists r; by apply map_lookup_filter_Some).
    assert (size (filter (λ kv : Z * option Z, kv.2 = Some q) P) ≠ 0%nat); [|lia].
    apply (map_size_ne_0_lookup_2 _ p). exists r. by apply map_lookup_filter_Some.
  - rewrite map_size_delete_None; [lia|]. apply map_lookup_filter_None. right. intros x Hx. rewrite Hp in Hx. by simplify_eq.
Qed.

Lemma counted_insert P p r q : P !! p = None → counted (<[p := r]> P) q = counted P q + (if decide (r = Some q) then 1 else 0).
Proof.
  intros Hp. rewrite <-(delete_insert_id P p r) at 2 by done. rewrite (counted_delete (<[p := r]> P) p r); [lia|]. apply lookup_insert_eq.
Qed.

(** Changing the parent of a window that is not above the new one keeps the tree. *)
Lemma depth_reparent P p r : (∀ i, is_Some (P !! i) → ∃ n, depth P i n) → (∀ q, r = Some q → is_Some (P !! q) ∧ ¬ below P p q) → is_Some (P !! p) →
  ∀ i, is_Some (<[p := r]> P !! i) → ∃ n, depth (<[p := r]> P) i n.
Proof.
  intros Hall Hr Hp.
  assert (Hup : ∀ q n, depth P q n → ¬ below P p q → depth (<[p := r]> P) q n).
  { induction 1 as [q Hq|q q' n Hq _ IH]; intros Hb; assert (p ≠ q) by (intros ->; apply Hb; constructor).
    - constructor. by rewrite lookup_insert_ne.
    - econstructor; [by rewrite lookup_insert_ne|]. apply IH. intros Hb'. apply Hb. by econstructor. }
  assert (Hself : ∃ n, depth (<[p := r]> P) p n).
  { destruct r as [q|]; [|exists O; constructor; apply lookup_insert_eq]. destruct (Hr q eq_refl) as [Hq Hb]. destruct (Hall q Hq) as [n Hn].
    exists (S n). econstructor; [apply lookup_insert_eq|]. by apply Hup. }
  intros i Hi. destruct (decide (p = i)) as [<-|Hne]; [done|]. rewrite lookup_insert_ne in Hi by done. destruct (Hall i Hi) as [n Hn]. clear Hi.
  induction Hn as [q Hq|q q' n Hq Hn IH].
  - exists O. constructor. by rewrite lookup_insert_ne.
  - destruct (decide (p = q')) as [<-|Hne']; [|destruct (IH Hne') as [m Hm]; exists (S m); econstructor; [by rewrite lookup_insert_ne|done]].
    destruct Hself as [m Hm]. exists (S m). econstructor; [by rewrite lookup_insert_ne|done].
Qed.

Section Proofs.
Context {T : Type} {WH : WindowHandles T}.
#[local] Abbreviation state := (win_state T).
Implicit Types (s : state) (w : world).

Definition parents (s : state) : gmap Z (option Z) := w_parent <$> windows s.

(** ** The invariant *)

(** In z-order, topmost windows come first. *)
Definition is_top (W : gmap Z window) (p : Z) : bool := from_option topmost false (W !! p).
Definition above (f : Z → bool) (p q : Z) : Prop := f q = true → f p = true.
Definition zsorted (W : gmap Z window) (l : list Z) : Prop := StronglySorted (above (is_top W)) l.

(** [extra] are references that the running request holds. *)
Record win_inv (extra : list Z) (s : state) : Prop := {
  wi_table : wh_wf (table s);
  wi_handle p x : windows s !! p = Some x → w_handle x ≠ 0 → wh_find (table s) (w_handle x) = Some p;
  wi_find h p : wh_find (table s) h = Some p → ∃ x, windows s !! p = Some x ∧ w_handle x ≠ 0;
  wi_tree p : is_Some (parents s !! p) → ∃ n, depth (parents s) p n;
  wi_entry p x : windows s !! p = Some x → w_entry x = true;
  wi_nodup p x : windows s !! p = Some x → NoDup (w_children x) ∧ NoDup (w_unlinked x);
  wi_children p x c : windows s !! p = Some x → c ∈ w_children x ↔ ∃ y, windows s !! c = Some y ∧ w_parent y = Some p ∧ w_linked y = true;
  wi_unlinked p x c : windows s !! p = Some x → c ∈ w_unlinked x ↔ ∃ y, windows s !! c = Some y ∧ w_parent y = Some p ∧ w_linked y = false;
  wi_linked p x : windows s !! p = Some x → w_linked x = true → w_handle x ≠ 0 ∧ w_parent x ≠ None;
  wi_orphan p x : windows s !! p = Some x → w_handle x = 0 → w_orphan x = true;
  wi_refs p x : windows s !! p = Some x →
    1 ≤ w_refcount x ∧ w_refcount x = (if w_handle x =? 0 then 0 else 1) + counted (parents s) p + count p extra;
  wi_desktop p : top_window s = Some p ∨ msg_window s = Some p ↔ ∃ x, windows s !! p = Some x ∧ w_parent x = None;
  wi_root p x : windows s !! p = Some x → w_parent x = None → w_handle x ≠ 0;
  wi_zorder p x : windows s !! p = Some x → zsorted (windows s) (w_children x)
}.

Lemma parents_lookup s p x : windows s !! p = Some x → parents s !! p = Some (w_parent x).
Proof. intros H. unfold parents. by rewrite lookup_fmap, H. Qed.

Lemma parents_some s p r : parents s !! p = Some r → ∃ x, windows s !! p = Some x ∧ w_parent x = r.
Proof. unfold parents. rewrite lookup_fmap. intros (x & ? & ->)%fmap_Some. eauto. Qed.

Lemma size_parents s : size (parents s) = size (windows s).
Proof. apply map_size_fmap. Qed.

(** The parent of a window exists. *)
Lemma parent_exists extra s p x q : win_inv extra s → windows s !! p = Some x → w_parent x = Some q → ∃ y, windows s !! q = Some y.
Proof.
  intros H Hx Hq. destruct (wi_tree _ _ H p) as [n Hn]; [rewrite (parents_lookup _ _ _ Hx); eauto|].
  inversion Hn as [? E|? q' ? E Hd]; subst; rewrite (parents_lookup _ _ _ Hx) in E; [congruence|]. simplify_eq.
  destruct (depth_present _ _ _ Hd) as [r Hr]. destruct (parents_some _ _ _ Hr) as (y & ? & _). eauto.
Qed.

Lemma wi_depth extra s p x : win_inv extra s → windows s !! p = Some x → ∃ n, depth (parents s) p n ∧ (n < size (windows s))%nat.
Proof.
  intros H Hx. destruct (wi_tree _ _ H p) as [n Hn]; [rewrite (parents_lookup _ _ _ Hx); eauto|]. exists n. split; [done|].
  rewrite <-size_parents. by eapply depth_lt.
Qed.

(** ** Rules *)

Lemma wp_read_window s w p x (Q : window → state → world → Prop) : windows s !! p = Some x → Q x s w → wp (read_window p) s w Q.
Proof. intros Hx HQ. unfold read_window. rewrite wp_bind, wp_get, Hx. by apply wp_ret. Qed.

Lemma wp_update_window s w p f x (Q : unit → state → world → Prop) : windows s !! p = Some x → Q tt (on_windows (<[p := f x]>) s) w → wp (update p f) s w Q.
Proof. intros Hx HQ. unfold update. rewrite wp_bind. eapply wp_read_window; [done|]. by rewrite wp_modify. Qed.

Lemma wp_on_table {A} (m : M T A) s w (Q : A → state → world → Prop) :
  wp m (table s) w (λ a t w', Q a (set_table t s) w') → wp (on_table m) s w Q.
Proof. unfold wp, on_table. by destruct (m (table s) w) as [[[a t] w']|]. Qed.

Lemma set_table_same s : set_table (table s) s = s.
Proof. by destruct s. Qed.

Lemma wp_get_window extra s w h (Q : option Z → state → world → Prop) : win_inv extra s →
  (∀ p x, wh_find (table s) h = Some p → windows s !! p = Some x → w_handle x ≠ 0 → Q (Some p) s w) →
  (∀ w', w_error w' ≠ 0 → Q None s w') → wp (get_window h) s w Q.
Proof.
  intros H Hyes Hno. unfold get_window. rewrite wp_bind. apply wp_on_table, wh_get_ok; [apply H|]. rewrite set_table_same.
  destruct (wh_find (table s) h) as [p|] eqn:E; [|rewrite wp_bind, wp_set_error; by apply wp_ret, Hno].
  apply wp_ret. destruct (wi_find _ _ H _ _ E) as (x & ? & ?). by eapply Hyes.
Qed.

Lemma wp_up {A} (m : nat → M state A) s w (Q : A → state → world → Prop) : wp (m (S (size (windows s)))) s w Q → wp (up m) s w Q.
Proof. intros H. unfold up. by rewrite wp_bind, wp_get. Qed.

(** A loop over the ancestors ends, and tests them all. *)
Lemma wp_any_ancestor f n p d s w (Q : bool → state → world → Prop) : depth (parents s) p d → (d < n)%nat →
  (∀ b, (b = true ↔ ∃ a x, below (parents s) a p ∧ windows s !! a = Some x ∧ f a x = true) → Q b s w) → wp (any_ancestor f n p) s w Q.
Proof.
  intros Hd Hn HQ. revert n Hn Q HQ. induction Hd as [p Hp|p q d Hp Hd IH]; intros [|n] Hn Q HQ; try lia; cbn [any_ancestor].
  all: destruct (parents_some _ _ _ Hp) as (x & Hx & Er); rewrite wp_bind; eapply wp_read_window; [exact Hx|].
  all: destruct (f p x) eqn:E; [apply wp_ret, HQ; split; [intros _; exists p, x; split_and!; [constructor|done|done]|done]|]; rewrite Er.
  - apply wp_ret, HQ. split; [done|]. intros (a & y & Hb & Hy & Hf). inversion Hb as [|? r Hr]; simplify_eq; congruence.
  - apply IH; [lia|]. intros b Hb. apply HQ. rewrite Hb. split; intros (a & y & Ha & Hy & Hf).
    + exists a, y. split_and!; [by econstructor|done|done].
    + inversion Ha as [|? r Hr Ha']; simplify_eq; [congruence|]. by exists a, y.
Qed.

Lemma wp_is_child_of extra s w p q y (Q : bool → state → world → Prop) : win_inv extra s → windows s !! q = Some y →
  (∀ b, (b = true ↔ below (parents s) p q) → Q b s w) → wp (is_child_of p q) s w Q.
Proof.
  intros H Hy HQ. destruct (wi_depth _ _ _ _ H Hy) as (n & Hn & Hlt). apply wp_up. eapply wp_any_ancestor; [exact Hn|lia|]. intros b Hb. apply HQ. rewrite Hb. split.
  - intros (a & x & Ha & _ & ->%Z.eqb_eq). done.
  - intros Hpq. destruct (below_depth _ _ _ _ Hpq Hn) as (m & Hm & _). destruct (depth_present _ _ _ Hm) as [r Hr]. destruct (parents_some _ _ _ Hr) as (x & Hx & _).
    exists p, x. split_and!; [done|done|apply Z.eqb_refl].
Qed.

Lemma wp_is_orphan extra s w q y (Q : bool → state → world → Prop) : win_inv extra s → windows s !! q = Some y →
  (∀ b, (b = true ↔ ∃ a x, below (parents s) a q ∧ windows s !! a = Some x ∧ w_orphan x = true) → Q b s w) → wp (is_orphan_window q) s w Q.
Proof.
  intros H Hy HQ. destruct (wi_depth _ _ _ _ H Hy) as (n & Hn & Hlt). apply wp_up. eapply wp_any_ancestor; [exact Hn|lia|done].
Qed.

Lemma wp_hidden n p d b s w (Q : bool → state → world → Prop) : depth (parents s) p d → (d < n)%nat → (∀ b', Q b' s w) → wp (hidden n p b) s w Q.
Proof.
  intros Hd Hn HQ. revert n b Hn. induction Hd as [p Hp|p q d Hp Hd IH]; intros [|n] b Hn; try lia; cbn [hidden].
  all: destruct (parents_some _ _ _ Hp) as (x & Hx & Er); rewrite wp_bind; eapply wp_read_window; [exact Hx|]; rewrite Er.
  all: destruct (b && _); [by apply wp_ret|]; destruct (negb _); [by apply wp_ret|]. { by apply wp_ret. }
  apply IH. lia.
Qed.

Lemma wp_is_visible extra s w p x (Q : bool → state → world → Prop) : win_inv extra s → windows s !! p = Some x → (∀ b, Q b s w) → wp (is_visible p) s w Q.
Proof.
  intros H Hx HQ. destruct (wi_depth _ _ _ _ H Hx) as (n & Hn & Hlt). unfold is_visible. rewrite wp_bind. apply wp_up.
  eapply wp_hidden; [exact Hn|lia|]. intros b. by apply wp_ret.
Qed.

(** ** Changes that leave the links alone *)

Definition same_links (x y : window) : Prop :=
  w_parent y = w_parent x ∧ w_children y = w_children x ∧ w_unlinked y = w_unlinked x ∧ w_entry y = w_entry x ∧ w_handle y = w_handle x ∧
  w_linked y = w_linked x ∧ (w_linked x = true → topmost y = topmost x) ∧ (w_orphan x = true → w_orphan y = true).

Lemma zsorted_ext W W' l : (∀ p, p ∈ l → is_top W' p = is_top W p) → zsorted W l → zsorted W' l.
Proof.
  unfold zsorted. induction l as [|p l IH]; intros Heq Hs; [constructor|]. apply StronglySorted_cons in Hs as [Hp Hs]. apply StronglySorted_cons.
  split; [|apply IH; [intros; apply Heq; by right|done]]. apply Forall_forall. intros q Hq. rewrite Forall_forall in Hp. unfold above.
  rewrite !Heq by (by left || by right). by apply Hp.
Qed.

Lemma inv_change extra extra' s s' (f : Z → window → window) : win_inv extra s →
  (∀ i, windows s' !! i = f i <$> windows s !! i) → table s' = table s → top_window s' = top_window s → msg_window s' = msg_window s →
  (∀ i x, windows s !! i = Some x → same_links x (f i x) ∧ w_refcount (f i x) = w_refcount x + count i extra' - count i extra ∧ 1 ≤ w_refcount (f i x)) →
  win_inv extra' s'.
Proof.
  intros H Hw Ht Htop Hmsg Hf.
  assert (Hback : ∀ i y, windows s' !! i = Some y → ∃ x, windows s !! i = Some x ∧ y = f i x ∧ same_links x y).
  { intros i y Hy. rewrite Hw in Hy. apply fmap_Some in Hy as (x & Hx & ->). exists x. destruct (Hf i x Hx) as (? & _). done. }
  assert (Hfwd : ∀ i x, windows s !! i = Some x → windows s' !! i = Some (f i x) ∧ same_links x (f i x)).
  { intros i x Hx. rewrite Hw, Hx. split; [done|]. by destruct (Hf i x Hx). }
  assert (Hpar : parents s' = parents s).
  { apply map_eq. intros i. unfold parents. rewrite !lookup_fmap, Hw. destruct (windows s !! i) as [x|] eqn:Hx; [|done]. cbn. f_equal.
    by destruct (Hf i x Hx) as [(? & _) _]. }
  split; rewrite ?Ht, ?Hpar.
  - apply H.
  - intros p y Hy Hh. destruct (Hback p y Hy) as (x & Hx & _ & (_ & _ & _ & _ & Eh & _)). rewrite Eh in *. by apply (wi_handle _ _ H).
  - intros h p Hp. destruct (wi_find _ _ H h p Hp) as (x & Hx & Hh). destruct (Hfwd p x Hx) as [Hy (_ & _ & _ & _ & Eh & _)]. exists (f p x). by rewrite Eh.
  - apply H.
  - intros p y Hy. destruct (Hback p y Hy) as (x & Hx & _ & (_ & _ & _ & Ee & _)). rewrite Ee. by apply (wi_entry _ _ H p).
  - intros p y Hy. destruct (Hback p y Hy) as (x & Hx & _ & (_ & Ec & Eu & _)). rewrite Ec, Eu. by apply (wi_nodup _ _ H p).
  - intros p y c Hy. destruct (Hback p y Hy) as (x & Hx & _ & (_ & Ec & _)). rewrite Ec, (wi_children _ _ H p x c Hx). split.
    + intros (z & Hz & ? & ?). destruct (Hfwd c z Hz) as [Hz' (? & _ & _ & _ & _ & ? & _)]. exists (f c z). split_and!; congruence.
    + intros (z' & Hz' & ? & ?). destruct (Hback c z' Hz') as (z & Hz & _ & (? & _ & _ & _ & _ & ? & _)). exists z. split_and!; congruence.
  - intros p y c Hy. destruct (Hback p y Hy) as (x & Hx & _ & (_ & _ & Eu & _)). rewrite Eu, (wi_unlinked _ _ H p x c Hx). split.
    + intros (z & Hz & ? & ?). destruct (Hfwd c z Hz) as [Hz' (? & _ & _ & _ & _ & ? & _)]. exists (f c z). split_and!; congruence.
    + intros (z' & Hz' & ? & ?). destruct (Hback c z' Hz') as (z & Hz & _ & (? & _ & _ & _ & _ & ? & _)). exists z. split_and!; congruence.
  - intros p y Hy. destruct (Hback p y Hy) as (x & Hx & _ & (-> & _ & _ & _ & -> & -> & _)). by apply (wi_linked _ _ H p).
  - intros p y Hy. destruct (Hback p y Hy) as (x & Hx & _ & (_ & _ & _ & _ & -> & _ & _ & Ho)). intros Hh. by apply Ho, (wi_orphan _ _ H p).
  - intros p y Hy. destruct (Hback p y Hy) as (x & Hx & -> & (_ & _ & _ & _ & -> & _)). destruct (Hf p x Hx) as (_ & Er & Hpos). destruct (wi_refs _ _ H p x Hx). lia.
  - intros p. rewrite Htop, Hmsg, (wi_desktop _ _ H p). split.
    + intros (x & Hx & E). destruct (Hfwd p x Hx) as [Hy (Ep & _)]. exists (f p x). split; [done|congruence].
    + intros (y & Hy & E). destruct (Hback p y Hy) as (x & Hx & _ & (Ep & _)). exists x. split; [done|congruence].
  - intros p y Hy. destruct (Hback p y Hy) as (x & Hx & _ & (-> & _ & _ & _ & -> & _)). by apply (wi_root _ _ H p).
  - intros p y Hy. destruct (Hback p y Hy) as (x & Hx & _ & (_ & -> & _)). eapply zsorted_ext; [|by apply (wi_zorder _ _ H p)].
    intros q Hq. apply (wi_children _ _ H p x q Hx) in Hq as (z & Hz & _ & Hl). unfold is_top. rewrite Hw, Hz. cbn. destruct (Hf q z Hz) as [(_ & _ & _ & _ & _ & _ & E & _) _]. auto.
Qed.

(** One window changes. *)
Lemma inv_update extra extra' s p x y : win_inv extra s → windows s !! p = Some x → same_links x y →
  w_refcount y = w_refcount x + count p extra' - count p extra → 1 ≤ w_refcount y → (∀ i, i ≠ p → count i extra' = count i extra) →
  win_inv extra' (on_windows (<[p := y]>) s).
Proof.
  intros H Hx Hl Hr Hpos Hc. apply (inv_change extra extra' s _ (λ i x, if decide (i = p) then y else x) H); try done.
  - intros i. cbn. rewrite lookup_insert. destruct (decide (p = i)) as [<-|Hi]; [rewrite Hx; cbn; by rewrite decide_True|].
    destruct (windows s !! i); cbn; [|done]. by rewrite decide_False by congruence.
  - intros i z Hz. destruct (decide (i = p)) as [->|Hi]; [by simplify_eq|]. rewrite Hc by done. split; [by split_and!|]. split; [lia|].
    by destruct (wi_refs _ _ H i z Hz).
Qed.

Lemma same_links_refl x : same_links x x.
Proof. by split_and!. Qed.

(** Changing what the tree does not depend on. *)
Lemma inv_set extra s p x y : win_inv extra s → windows s !! p = Some x → same_links x y → w_refcount y = w_refcount x → win_inv extra (on_windows (<[p := y]>) s).
Proof.
  intros H Hx Hl Hr. destruct (wi_refs _ _ H p x Hx). eapply inv_update; [done..|lia|lia|done].
Qed.

(** ** Releasing *)

Definition dropped (p : Z) (W : gmap Z window) : gmap Z window := delete p (both_lists (filter (λ i, i ≠ p)) <$> W).

Lemma dropped_lookup p W i y : dropped p W !! i = Some y ↔ i ≠ p ∧ ∃ x, W !! i = Some x ∧ y = both_lists (filter (λ i, i ≠ p)) x.
Proof. unfold dropped. rewrite lookup_delete_Some, lookup_fmap, fmap_Some. naive_solver. Qed.

Lemma counted_depth P p q n : depth P q n → counted P p = 0 → p ≠ q → ¬ below P p q.
Proof.
  intros Hn Hc Hne Hb. revert n Hn Hne. induction Hb as [|q r Hq Hb IH]; intros n Hn Hne; [done|].
  destruct (decide (p = r)) as [<-|Hr]; [by eapply counted_zero|]. inversion Hn; simplify_eq. by eapply IH.
Qed.

Lemma depth_delete P p q n : depth P q n → ¬ below P p q → depth (delete p P) q n.
Proof.
  induction 1 as [q Hq|q r n Hq _ IH]; intros Hb; assert (p ≠ q) by (intros ->; apply Hb; constructor).
  - constructor. by rewrite lookup_delete_ne.
  - econstructor; [by rewrite lookup_delete_ne|]. apply IH. intros Hb'. apply Hb. by econstructor.
Qed.

(** A window without handle, children and references leaves the tree. *)
Lemma dropped_inv extra s p x q : win_inv (p :: extra) s → windows s !! p = Some x → w_refcount x = 1 → w_handle x = 0 → w_parent x = Some q →
  win_inv (q :: extra) (on_windows (dropped p) s).
Proof.
  intros H Hx Hr Hh Hq. destruct (wi_refs _ _ H p x Hx) as [_ E]. rewrite Hr, Hh, count_cons, decide_True in E by done. cbn [Z.eqb] in E.
  pose proof (counted_nonneg (parents s) p). pose proof (count_nonneg p extra).
  assert (Hc : counted (parents s) p = 0) by lia. assert (Hx0 : count p extra = 0) by lia.
  assert (Hnl : w_linked x = false).
  { destruct (w_linked x) eqn:El; [|done]. by destruct (wi_linked _ _ H p x Hx El). }
  assert (Hnc : ∀ i y, windows s !! i = Some y → filter (λ i, i ≠ p) (w_children y) = w_children y).
  { intros i y Hy. apply filter_all. intros c Hc' ->. apply (wi_children _ _ H i y p Hy) in Hc' as (z & Hz & _ & ?). congruence. }
  set (s' := on_windows (dropped p) s).
  assert (Hback : ∀ i y, windows s' !! i = Some y → i ≠ p ∧ ∃ z, windows s !! i = Some z ∧ y = both_lists (filter (λ i, i ≠ p)) z).
  { intros i y Hy. by apply dropped_lookup in Hy. }
  assert (Hfwd : ∀ i z, windows s !! i = Some z → i ≠ p → windows s' !! i = Some (both_lists (filter (λ i, i ≠ p)) z)).
  { intros i z Hz Hi. apply dropped_lookup. eauto. }
  assert (Hpar : parents s' = delete p (parents s)).
  { apply map_eq. intros i. unfold parents, s'. cbn. unfold dropped. rewrite lookup_fmap. destruct (decide (p = i)) as [<-|Hi]; [by rewrite !lookup_delete_eq|].
    rewrite !lookup_delete_ne, !lookup_fmap by done. by destruct (windows s !! i). }
  split; change (table s') with (table s); change (top_window s') with (top_window s); change (msg_window s') with (msg_window s); rewrite ?Hpar.
  - apply H.
  - intros i y Hy. destruct (Hback i y Hy) as (_ & z & Hz & ->). exact (wi_handle _ _ H i z Hz).
  - intros h i Hi. destruct (wi_find _ _ H h i Hi) as (z & Hz & Hzh). eexists. split; [apply Hfwd; [done|]|done]. intros ->. congruence.
  - intros i [r Hi]. apply lookup_delete_Some in Hi as [Hne Hi]. destruct (wi_tree _ _ H i) as [n Hn]; [eauto|]. exists n. apply depth_delete; [done|].
    by eapply counted_depth.
  - intros i y Hy. destruct (Hback i y Hy) as (_ & z & Hz & ->). exact (wi_entry _ _ H i z Hz).
  - intros i y Hy. destruct (Hback i y Hy) as (_ & z & Hz & ->). destruct (wi_nodup _ _ H i z Hz). cbn. split; by apply NoDup_filter.
  - intros i y c Hy. destruct (Hback i y Hy) as (Hi & z & Hz & ->). cbn. rewrite (Hnc i z Hz), (wi_children _ _ H i z c Hz). split.
    + intros (v & Hv & ? & ?). eexists. split; [apply Hfwd; [done|]|done]. intros ->. congruence.
    + intros (v' & Hv' & ? & ?). destruct (Hback c v' Hv') as (_ & v & Hv & ->). by exists v.
  - intros i y c Hy. destruct (Hback i y Hy) as (Hi & z & Hz & ->). cbn. rewrite list_elem_of_filter, (wi_unlinked _ _ H i z c Hz). split.
    + intros (Hcp & v & Hv & ? & ?). eexists. by split; [apply Hfwd|].
    + intros (v' & Hv' & ? & ?). destruct (Hback c v' Hv') as (Hcp & v & Hv & ->). split; [done|]. by exists v.
  - intros i y Hy. destruct (Hback i y Hy) as (_ & z & Hz & ->). exact (wi_linked _ _ H i z Hz).
  - intros i y Hy. destruct (Hback i y Hy) as (_ & z & Hz & ->). exact (wi_orphan _ _ H i z Hz).
  - intros i y Hy. destruct (Hback i y Hy) as (Hi & z & Hz & ->). cbn [w_refcount w_handle both_lists set_lists]. destruct (wi_refs _ _ H i z Hz) as [? Ez]. split; [done|].
    rewrite count_cons in Ez |- *. rewrite (counted_delete _ p (Some q)) by (by rewrite (parents_lookup _ _ _ Hx), Hq).
    rewrite decide_False in Ez by done. rewrite Ez. destruct (decide (q = i)) as [->|Hqi]; [rewrite decide_True by done; lia|rewrite decide_False by congruence; lia].
  - intros i. rewrite (wi_desktop _ _ H i). split.
    + intros (z & Hz & ?). eexists. split; [apply Hfwd; [done|]|done]. intros ->. congruence.
    + intros (y & Hy & Ey). destruct (Hback i y Hy) as (_ & z & Hz & ->). by exists z.
  - intros i y Hy. destruct (Hback i y Hy) as (_ & z & Hz & ->). exact (wi_root _ _ H i z Hz).
  - intros i y Hy. destruct (Hback i y Hy) as (Hi & z & Hz & ->). cbn. rewrite (Hnc i z Hz). eapply zsorted_ext; [|by apply (wi_zorder _ _ H i)].
    intros c Hc'. unfold is_top. change (dropped p (windows s)) with (windows s'). apply (wi_children _ _ H i z c Hz) in Hc' as (v & Hv & _ & ?). rewrite (Hfwd c v Hv), Hv; [done|]. intros ->. congruence.
Qed.

(** What stays of a window with a handle. *)
Definition core (x : window) := (w_parent x, w_owner x, w_handle x, w_thread x, w_style x, w_ex_style x, w_linked x, w_orphan x, w_children x).
Definition kept (s s' : state) : Prop :=
  (size (windows s') ≤ size (windows s))%nat ∧
  (∀ p x, windows s !! p = Some x → w_handle x ≠ 0 → ∃ y, windows s' !! p = Some y ∧ core y = core x) ∧
  (∀ p y, windows s' !! p = Some y → ∃ x, windows s !! p = Some x ∧ w_handle y = w_handle x ∧ w_parent y = w_parent x).
Definition same_rest (s s' : state) : Prop := table s' = table s ∧ top_window s' = top_window s ∧ msg_window s' = msg_window s.

Lemma windows_kept_refl s : kept s s.
Proof. split_and!; [done|eauto|eauto]. Qed.

Lemma windows_kept_trans s1 s2 s3 : kept s1 s2 → kept s2 s3 → kept s1 s3.
Proof.
  intros (? & Ha & Hb) (? & Hc & Hd). split_and!; [lia| |].
  - intros p x Hx Hh. destruct (Ha p x Hx Hh) as (y & Hy & E). assert (w_handle y ≠ 0) by (unfold core in E; congruence).
    destruct (Hc p y Hy) as (z & Hz & E'); [done|]. exists z. split; congruence.
  - intros p z Hz. destruct (Hd p z Hz) as (y & Hy & ? & ?). destruct (Hb p y Hy) as (x & Hx & ? & ?). exists x. split_and!; congruence.
Qed.

Lemma same_rest_trans s1 s2 s3 : same_rest s1 s2 → same_rest s2 s3 → same_rest s1 s3.
Proof. intros (? & ? & ?) (? & ? & ?). split_and!; congruence. Qed.

Lemma wp_list_remove p x s w (Q : unit → state → world → Prop) : windows s !! p = Some x → w_entry x = true →
  Q tt (on_windows (fmap (both_lists (filter (λ i, i ≠ p)))) s) w → wp (list_remove p) s w Q.
Proof. intros Hx He HQ. unfold list_remove. rewrite wp_bind. eapply wp_read_window; [done|]. by rewrite wp_bind, wp_assert, wp_modify. Qed.

Lemma release_window_ok extra p s w : win_inv (p :: extra) s → (∃ x, windows s !! p = Some x) →
  wp (release_window p) s w (λ _ s' w', w' = w ∧ win_inv extra s' ∧ kept s s' ∧ same_rest s s').
Proof.
  intros H Hp. unfold release_window. rewrite wp_bind, wp_get. assert (Hn : (size (windows s) < S (size (windows s)))%nat) by lia.
  revert Hn. generalize (S (size (windows s))) as n. intros n. revert p s w H Hp.
  induction n as [|n IH]; intros p s w H [x Hx] Hn; [lia|]. cbn [release_loop]. rewrite wp_bind. eapply wp_read_window; [done|].
  destruct (wi_refs _ _ H p x Hx) as [Hpos E]. rewrite count_cons, decide_True in E by done.
  rewrite wp_bind, wp_assert. split; [apply negb_true_iff, Z.eqb_neq; lia|]. rewrite wp_bind. eapply wp_update_window; [done|].
  pose proof (counted_nonneg (parents s) p). pose proof (count_nonneg p extra).
  destruct (Z.eqb_spec (w_refcount x - 1) 0) as [E1|E1].
  - assert (w_handle x = 0) as Hh by (destruct (Z.eqb_spec (w_handle x) 0); [done|lia]). rewrite wp_bind, wp_assert, Hh. split; [done|].
    destruct (w_parent x) as [q|] eqn:Eq; [|by destruct (wi_root _ _ H p x Hx Eq)]. rewrite wp_bind. eapply wp_list_remove; [apply lookup_insert_eq|by apply (wi_entry _ _ H p x)|].
    rewrite wp_bind, wp_modify. match goal with |- wp _ ?s1 _ _ => assert (s1 = on_windows (dropped p) s) as -> end.
    { unfold on_windows, dropped. cbn. f_equal. by rewrite fmap_insert, delete_insert_eq. }
    assert (Hdrop : win_inv (q :: extra) (on_windows (dropped p) s)) by (eapply dropped_inv; [done..|lia|done|done]).
    assert (Hsz : (size (dropped p (windows s)) < size (windows s))%nat).
    { unfold dropped. rewrite <-(map_size_fmap (both_lists (filter (λ i, i ≠ p))) (windows s)). eapply size_delete_lt. by rewrite lookup_fmap, Hx. }
    destruct (parent_exists _ _ _ _ _ H Hx Eq) as [y Hy]. assert (q ≠ p) as Hqp.
    { intros ->. destruct (wi_depth _ _ _ _ H Hx) as (m & Hm & _). eapply (not_below_own_child (parents s) p p); [by rewrite (parents_lookup _ _ _ Hx), Eq|done|constructor]. }
    eapply wp_mono; [apply IH; [done|eexists; apply dropped_lookup; eauto|cbn; lia]|].
    intros [] s' w' (-> & ? & Hk & Hrest). split_and!; [done|done| |by eapply same_rest_trans; [|done]].
    eapply windows_kept_trans; [|exact Hk]. split_and!; [cbn; lia| |].
    + intros i z Hz Hzh. eexists. split; [apply dropped_lookup; split; [|by eexists]|]; [intros ->; congruence|]. unfold core. cbn. repeat f_equal.
      apply filter_all. intros c Hc ->. apply (wi_children _ _ H i z p Hz) in Hc as (v & Hv & _ & Hl). assert (v = x) as -> by congruence.
      by destruct (wi_linked _ _ H p x Hx Hl).
    + intros i z' (Hi & z & Hz & ->)%dropped_lookup. by exists z.
  - apply wp_ret. split; [done|]. split.
    + eapply (inv_update (p :: extra)); [done|done|by split_and!| | |]; cbn [w_refcount set_refs].
      * rewrite count_cons, decide_True by done. lia.
      * lia.
      * intros i Hi. rewrite count_cons, decide_False by congruence. lia.
    + split; [|done]. split_and!; cbn.
      * by rewrite map_size_insert_Some.
      * intros i z Hz Hzh. rewrite lookup_insert. case_decide; [subst; simplify_eq; by eexists|eauto].
      * intros i z. rewrite lookup_insert. case_decide; [subst; intros [= <-]; by exists x|eauto].
Qed.

(** ** Linking *)

#[local] Abbreviation without p := (filter (λ i, i ≠ p)).

(** The windows when [p], which was [x], is linked into the children [l] of [q]. *)
Definition relink (p q : Z) (x y : window) (l : list Z) (e : Z) (W : gmap Z window) : gmap Z window :=
  <[p := set_linked true (set_entry (set_ex_style e (both_lists (without p) x)))]>
    (<[q := set_lists l (without p (w_unlinked y)) y]> (both_lists (without p) <$> W)).

(** The place of [p] between [l1] and [l2] keeps topmost windows on top. *)
Definition fits_between (W : gmap Z window) (e : Z) (l1 l2 : list Z) : Prop :=
  (has e WS_EX_TOPMOST = true → ∀ i, i ∈ l1 → is_top W i = true) ∧ (has e WS_EX_TOPMOST = false → ∀ i, i ∈ l2 → is_top W i = false).

(** Where each place is: [top] tells whether the window is topmost before. A window that
    is not comes right above its owner if that is among the topmost windows, and becomes
    topmost itself; otherwise it comes below all topmost windows. After another window, it
    is topmost if that is, and either the next one or the window was before. *)
Definition placed_top (W : gmap Z window) (top : bool) (owner e : Z) (l1 l2 : list Z) : Prop :=
  if top then l1 = [] ∧ has e WS_EX_TOPMOST = true else
  (∀ i, i ∈ l1 → is_top W i = true ∧ ∀ z, W !! i = Some z → w_handle z ≠ owner) ∧
  if has e WS_EX_TOPMOST then ∃ o z, head l2 = Some o ∧ W !! o = Some z ∧ topmost z = true ∧ w_handle z = owner
  else ∀ i, i ∈ l2 → is_top W i = false.
Definition placed (W : gmap Z window) (x : window) (previous : place) (e : Z) (l1 l2 : list Z) : Prop :=
  match previous with
  | WINPTR_BOTTOM => l2 = [] ∧ has e WS_EX_TOPMOST = false
  | WINPTR_TOPMOST => l1 = [] ∧ has e WS_EX_TOPMOST = true
  | WINPTR_TOP => placed_top W (topmost x) (w_owner x) e l1 l2
  | WINPTR_NOTOPMOST => placed_top W false (w_owner x) e l1 l2
  | After c => last l1 = Some c ∧
      has e WS_EX_TOPMOST = is_top W c && (topmost x || match head l2 with Some n => is_top W n | None => false end)
  end.

Lemma has_set e : has (Z.lor e WS_EX_TOPMOST) WS_EX_TOPMOST = true.
Proof.
  unfold has. apply negb_true_iff, Z.eqb_neq. intros E. apply (f_equal (λ z, Z.testbit z 3)) in E.
  rewrite Z.land_spec, Z.lor_spec, Z.bits_0 in E. change (Z.testbit WS_EX_TOPMOST 3) with true in E. by rewrite orb_true_r in E.
Qed.

Lemma has_clear e : has (Z.ldiff e WS_EX_TOPMOST) WS_EX_TOPMOST = false.
Proof.
  unfold has. apply negb_false_iff, Z.eqb_eq. z_bits.
Qed.

Lemma next_in_split p l1 l2 : p ∉ l1 → next_in p (l1 ++ p :: l2) = Some (head l2).
Proof.
  induction l1 as [|i l1 IH]; cbn [app next_in]; [by rewrite Z.eqb_refl|]. intros [Hi Hl]%not_elem_of_cons. rewrite (proj2 (Z.eqb_neq _ _)) by congruence. auto.
Qed.

Lemma insert_after_absent q p l : q ∉ l → insert_after q p l = l.
Proof.
  induction l as [|i l IH]; [done|]. intros [Hi Hl]%not_elem_of_cons. cbn. rewrite (proj2 (Z.eqb_neq _ _)) by congruence. by rewrite IH.
Qed.

Lemma insert_after_split q p l1 l2 : q ∉ l1 → insert_after q p (l1 ++ q :: l2) = l1 ++ q :: p :: l2.
Proof.
  induction l1 as [|i l1 IH]; cbn; [by rewrite Z.eqb_refl|]. intros [Hi Hl]%not_elem_of_cons. rewrite (proj2 (Z.eqb_neq _ _)) by congruence. by rewrite IH.
Qed.

Lemma zsorted_split W l1 l2 : zsorted W (l1 ++ l2) → ∀ a b, a ∈ l1 → b ∈ l2 → is_top W b = true → is_top W a = true.
Proof. intros Hs a b Ha Hb. by apply (StronglySorted_app_1_elem_of _ _ _ _ _ Hs Ha Hb). Qed.

(** The loop stops before the windows that are not topmost, or at the owner. *)
Lemma wp_pass_topmost owner l s w (Q : nat * bool → state → world → Prop) :
  (∀ c, c ∈ l → is_Some (windows s !! c)) → zsorted (windows s) l →
  (∀ n b, (∀ i, i ∈ take n l → is_top (windows s) i = true ∧ ∀ z, windows s !! i = Some z → w_handle z ≠ owner) →
     (b = false → ∀ i, i ∈ drop n l → is_top (windows s) i = false) →
     (b = true → ∃ o z, head (drop n l) = Some o ∧ windows s !! o = Some z ∧ topmost z = true ∧ w_handle z = owner) → Q (n, b) s w) →
  wp (pass_topmost owner l) s w Q.
Proof.
  revert Q. induction l as [|c l IH]; intros Q Hl Hs HQ; cbn [pass_topmost].
  { apply wp_ret, HQ; [by intros i ?%not_elem_of_nil|by intros _ i ?%not_elem_of_nil|done]. }
  destruct (Hl c) as [x Hx]; [left|]. rewrite wp_bind. eapply wp_read_window; [done|]. apply StronglySorted_cons in Hs as [Hc Hs]. rewrite Forall_forall in Hc.
  assert (Htop : is_top (windows s) c = topmost x) by (unfold is_top; by rewrite Hx).
  destruct (topmost x) eqn:Et; cbn [negb].
  - destruct (Z.eqb_spec (w_handle x) owner) as [Eo|]; [apply wp_ret, HQ; [by intros i ?%not_elem_of_nil|done|by exists c, x]|]. rewrite wp_bind. apply IH; [intros; apply Hl; by right|done|].
    intros k b H1 H2 H3. apply wp_ret, (HQ (S k)); cbn [take drop].
    + intros i [->|Hi]%elem_of_cons; [|auto]. split; [done|]. intros z Hz. congruence.
    + done.
    + done.
  - apply wp_ret, HQ; [by intros i ?%not_elem_of_nil| |done]. intros _ i. cbn [drop]. intros [->|Hi]%elem_of_cons; [done|].
    destruct (is_top (windows s) i) eqn:E; [|done]. specialize (Hc i Hi E). congruence.
Qed.

(** Equality of two states by the windows at each address. *)
Ltac same_windows :=
  unfold on_windows, put_children; cbn; f_equal; apply map_eq; intros ?i; unfold relink;
  repeat (rewrite ?lookup_fmap, ?lookup_insert; case_decide; subst; cbn); try done.

Lemma set_ex_style_twice a b x : set_ex_style a (set_ex_style b x) = set_ex_style a x.
Proof. done. Qed.

Lemma set_ex_style_same x : set_ex_style (w_ex_style x) x = x.
Proof. by destruct x. Qed.

Lemma both_lists_neutral f x : f (w_children x) = w_children x → f (w_unlinked x) = w_unlinked x → both_lists f x = x.
Proof. unfold both_lists. intros -> ->. by destruct x. Qed.

(** The state in which the place is sought: [p] is in no list. *)
Lemma wp_link_window p q x y previous s w (Q : unit → state → world → Prop) :
  windows s !! p = Some x → w_entry x = true → w_parent x = Some q → windows s !! q = Some y → p ≠ q →
  (∀ c, c ∈ w_children y → is_Some (windows s !! c)) → NoDup (w_children y) → zsorted (windows s) (without p (w_children y)) →
  (∀ c, previous = After c → c ≠ p ∧ c ∈ w_children y ∧ (∀ z, windows s !! c = Some z → w_entry z = true) ∧
     ∀ i z, windows s !! i = Some z → c ∉ w_unlinked z ∧ (c ∈ w_children z → i = q)) →
  (previous = WINPTR_NOTOPMOST → topmost x = false → w_linked x = true → Q tt s w) →
  (∀ l1 l2 e, without p (w_children y) = l1 ++ l2 → fits_between (windows s) e l1 l2 → placed (windows s) x previous e l1 l2 →
     Q tt (on_windows (λ _, relink p q x y (l1 ++ p :: l2) e (windows s)) s) w) →
  wp (link_window p previous) s w Q.
Proof.
  intros Hx He Hp Hy Hpq Hl Hnd Hs Hafter Hsame Hdone. unfold link_window. rewrite wp_bind. eapply wp_read_window; [done|].
  destruct (bool_decide (previous = WINPTR_NOTOPMOST) && negb (topmost x) && w_linked x) eqn:Eearly.
  { apply andb_true_iff in Eearly as [[En Et%negb_true_iff]%andb_true_iff El]. apply bool_decide_eq_true_1 in En. by apply wp_ret, Hsame. }
  clear Eearly Hsame. set (x0 := if bool_decide (previous = WINPTR_NOTOPMOST) then set_topmost false x else x).
  assert (Hx0 : both_lists (without p) x0 = set_ex_style (w_ex_style x0) (both_lists (without p) x) ∧ w_parent x0 = Some q ∧ w_entry x0 = true ∧ w_owner x0 = w_owner x)
    by (unfold x0; destruct (bool_decide _); [done|]; split; [by destruct x|done]).
  destruct Hx0 as (Hx0 & Hp0 & He0 & Ho0). set (W1 := both_lists (without p) <$> <[p := x0]> (windows s)). set (s1 := on_windows (λ _, W1) s).
  assert (Hx1 : windows s1 !! p = Some (both_lists (without p) x0)) by (cbn; unfold W1; by rewrite lookup_fmap, lookup_insert_eq).
  assert (Hi1 : ∀ i, i ≠ p → windows s1 !! i = both_lists (without p) <$> windows s !! i).
  { intros i Hi. cbn. unfold W1. by rewrite lookup_fmap, lookup_insert_ne. }
  assert (Hy1 : windows s1 !! q = Some (both_lists (without p) y)) by (by rewrite Hi1, Hy by done).
  assert (Htop1 : ∀ i, i ≠ p → is_top W1 i = is_top (windows s) i).
  { intros i Hi. unfold is_top. change W1 with (windows s1). rewrite Hi1 by done. by destruct (windows s !! i). }
  assert (Hs1 : zsorted W1 (without p (w_children y))).
  { eapply zsorted_ext; [|exact Hs]. intros i [Hi _]%list_elem_of_filter. by apply Htop1. }
  assert (Hfb : ∀ e l1 l2, without p (w_children y) = l1 ++ l2 → fits_between W1 e l1 l2 → fits_between (windows s) e l1 l2).
  { intros e l1 l2 E [H1 H2]. assert (∀ i, i ∈ l1 ++ l2 → i ≠ p) as Hne by (rewrite <-E; by intros i [? _]%list_elem_of_filter).
    split; intros Hb i Hi; rewrite <-Htop1 by (apply Hne; set_solver); auto. }
  rewrite wp_bind. assert (Hstart : ∀ R : unit → state → world → Prop, R tt (on_windows (<[p := x0]>) s) w →
    wp (when (bool_decide (previous = WINPTR_NOTOPMOST)) (update p (set_topmost false))) s w R).
  { intros R HR. unfold when, x0 in *. destruct (bool_decide _); [by eapply wp_update_window|]. apply wp_ret.
    replace (on_windows (<[p := x]>) s) with s in HR; [done|]. destruct s. unfold on_windows. cbn in *. by rewrite insert_id. }
  apply Hstart. rewrite wp_bind. eapply wp_list_remove; [apply lookup_insert_eq|done|]. change (on_windows _ (on_windows _ s)) with s1.
  rewrite wp_bind. eapply wp_read_window; [exact Hx1|]. rewrite wp_bind. unfold both_lists at 1. cbn [w_parent set_lists]. rewrite Hp0. apply wp_ret.
  rewrite wp_bind. eapply wp_read_window; [exact Hy1|]. set (L := without p (w_children y)) in *. change (w_children (both_lists _ y)) with L.
  assert (Hfin : ∀ s2 l1 l2 e, L = l1 ++ l2 → fits_between W1 e l1 l2 → placed (windows s) x previous e l1 l2 → windows s2 !! p = Some (set_ex_style e (both_lists (without p) x)) →
    on_windows (<[p := set_linked true (set_entry (set_ex_style e (both_lists (without p) x)))]>) s2 =
      on_windows (λ _, relink p q x y (l1 ++ p :: l2) e (windows s)) s →
    wp (update p (λ x, set_linked true (set_entry x))) s2 w Q).
  { intros s2 l1 l2 e EL Hfits Hpl Hp2 Eq. eapply wp_update_window; [exact Hp2|]. rewrite Eq. eapply Hdone; eauto. }
  clear Hdone Hstart. set (xb := both_lists (without p) x) in *. set (e0 := w_ex_style x0) in *. rewrite Hx0 in Hx1.
  assert (Htx : topmost (both_lists (without p) x0) = has e0 WS_EX_TOPMOST) by done.
  assert (Heq : ∀ l e, on_windows (<[p := set_linked true (set_entry (set_ex_style e xb))]>) (on_windows (<[q := set_lists l (without p (w_unlinked y)) y]>) s1) =
    on_windows (λ _, relink p q x y l e (windows s)) s).
  { intros l e. unfold s1, W1. same_windows. }
  assert (Hplace : ∀ l1 l2 b, L = l1 ++ l2 → (let e := if b : bool then Z.lor e0 WS_EX_TOPMOST else Z.ldiff e0 WS_EX_TOPMOST in fits_between W1 e l1 l2 ∧ placed (windows s) x previous e l1 l2) →
    wp ((put_children q (l1 ++ p :: l2) >> update p (set_topmost b)) >> update p (λ x, set_linked true (set_entry x))) s1 w Q).
  { intros l1 l2 b EL [Hfits Hpl]. unfold put_children. rewrite wp_bind, wp_bind. eapply wp_update_window; [exact Hy1|]. eapply wp_update_window; [cbn; rewrite lookup_insert_ne by done; exact Hx1|].
    eapply (Hfin _ l1 l2); [exact EL|exact Hfits|exact Hpl|cbn; by rewrite lookup_insert_eq|]. rewrite <-Heq. unfold on_windows. cbn. f_equal. apply insert_insert_eq. }
  assert (Hpt : ∀ e l1 l2, placed_top (windows s) (has e0 WS_EX_TOPMOST) (w_owner x) e l1 l2 → previous = WINPTR_TOP ∨ previous = WINPTR_NOTOPMOST → placed (windows s) x previous e l1 l2).
  { intros e l1 l2 H Hprev. unfold e0, x0 in H. destruct Hprev as [-> | ->]; [by rewrite bool_decide_eq_false_2 in H by done|].
    rewrite bool_decide_eq_true_2 in H by done. cbn [w_ex_style set_topmost set_ex_style] in H. by rewrite has_clear in H. }
  assert (Htopcase : previous = WINPTR_TOP ∨ previous = WINPTR_NOTOPMOST → wp ((let* r := (if topmost (both_lists (without p) x0) then ret (O, false) else pass_topmost (w_owner (both_lists (without p) x0)) L) in
       when (r.2) (update p (set_topmost true)) >> put_children q (take (r.1) L ++ p :: drop (r.1) L)) >> update p (λ x, set_linked true (set_entry x))) s1 w Q).
  { intros Hprev. rewrite wp_bind, wp_bind. assert (Hput : ∀ n b, (b = true ∨ has e0 WS_EX_TOPMOST = true → ∀ i, i ∈ take n L → is_top W1 i = true) →
      (b = false → has e0 WS_EX_TOPMOST = false → ∀ i, i ∈ drop n L → is_top W1 i = false) →
      placed_top (windows s) (has e0 WS_EX_TOPMOST) (w_owner x) (if b then Z.lor e0 WS_EX_TOPMOST else e0) (take n L) (drop n L) →
      wp (when b (update p (set_topmost true)) >> put_children q (take n L ++ p :: drop n L)) s1 w (λ _ s' w', wp (update p (λ x, set_linked true (set_entry x))) s' w' Q)).
    { intros n b H1 H2 H3. rewrite wp_bind. unfold put_children. destruct b; cbn [when].
      - eapply wp_update_window; [exact Hx1|]. eapply wp_update_window; [cbn; rewrite lookup_insert_ne by done; exact Hy1|].
        eapply (Hfin _ (take n L) (drop n L) (Z.lor e0 WS_EX_TOPMOST)); [by rewrite take_drop| |by apply Hpt|cbn; by rewrite lookup_insert_ne, lookup_insert_eq by done|].
        + split; [auto|]. by rewrite has_set.
        + rewrite <-Heq. unfold s1, W1. same_windows.
      - apply wp_ret. eapply wp_update_window; [exact Hy1|].
        eapply (Hfin _ (take n L) (drop n L) e0); [by rewrite take_drop| |by apply Hpt|cbn; rewrite lookup_insert_ne by done; exact Hx1|apply Heq].
        split; [auto|]. by apply H2. }
    rewrite Htx. destruct (has e0 WS_EX_TOPMOST) eqn:Ee.
    - apply wp_ret, (Hput O false); [by intros _ i ?%not_elem_of_nil|done|]. by split.
    - apply wp_pass_topmost; [|exact Hs1|].
      + intros c [Hcp Hc]%list_elem_of_filter. rewrite Hi1 by done. apply fmap_is_Some. auto.
      + intros n b H1 H2 H3. apply Hput; [intros _ i Hi; by apply H1|intros Hb _; by apply H2|].
        assert (HLp : ∀ i, i ∈ L → i ≠ p) by (by intros i [? _]%list_elem_of_filter).
        split; [|destruct b; cbn [fst snd]].
        { intros i Hi. assert (i ≠ p) as Hip by (apply HLp; by eapply subseteq_take). destruct (H1 i Hi) as [Ht Hh]. split; [by rewrite <-Htop1|].
          intros z Hz Ez. apply (Hh (both_lists (without p) z)); [by rewrite Hi1, Hz|]. cbn. congruence. }
        * rewrite has_set. destruct (H3 eq_refl) as (o & z & Hhd & Ho & Htz & Hz). exists o.
          assert (o ≠ p) as Hop by (apply HLp; eapply subseteq_drop, head_Some_elem_of, Hhd). rewrite Hi1 in Ho by done. apply fmap_Some in Ho as (z0 & Hz0 & ->).
          exists z0. split_and!; [done|done|done|]. cbn in Hz. congruence.
        * rewrite Ee. intros i Hi. rewrite <-Htop1; [by apply H2|]. apply HLp. by eapply subseteq_drop. }
  destruct previous as [| | | |c].
  - apply Htopcase. by left.
  - apply (Hplace L [] false); [by rewrite app_nil_r|]. cbn iota zeta. split; [split; [by rewrite has_clear|by intros _ i ?%not_elem_of_nil]|]. split; [done|apply has_clear].
  - apply (Hplace [] L true); [done|]. cbn iota zeta. split; [split; [by intros _ i ?%not_elem_of_nil|by rewrite has_set]|]. split; [done|apply has_set].
  - apply Htopcase. by right.
  - destruct (Hafter c eq_refl) as (Hcp & Hcl & Hce & Hlists). clear Htopcase Hplace Hafter Hpt.
    assert (Hpla : ∀ e l1 l2, has e WS_EX_TOPMOST = is_top W1 c && (topmost x || match head l2 with Some n => is_top W1 n | None => false end) →
      (∀ i, i ∈ l2 → i ≠ p) → placed (windows s) x (After c) e (l1 ++ [c]) l2).
    { intros e k1 k2 He' Hk2. split; [apply last_snoc|]. rewrite He', Htop1 by done. destruct k2 as [|n k2]; [done|]. cbn. rewrite Htop1; [done|]. apply Hk2. left. }
    assert (Hin : c ∈ L) by (by apply list_elem_of_filter). destruct (list_elem_of_split _ _ Hin) as (l1 & l2 & EL).
    assert (HndL : NoDup (l1 ++ c :: l2)) by (rewrite <-EL; by apply NoDup_filter).
    apply NoDup_app in HndL as (_ & Hc1 & Hc2). assert (c ∉ l1) as Hcn by (intros ?; eapply Hc1; [done|left]).
    assert (Hpl : p ∉ l1 ++ c :: l2) by (rewrite <-EL; by intros [? _]%list_elem_of_filter).
    assert (EL' : L = (l1 ++ [c]) ++ l2) by (rewrite EL; by rewrite <-app_assoc).
    destruct (Hl c Hcl) as [z Hz]. assert (Hz1 : windows s1 !! c = Some (both_lists (without p) z)) by (by rewrite Hi1, Hz by done).
    assert (Hs2 : on_windows (fmap (both_lists (insert_after c p))) s1 = on_windows (<[q := set_lists ((l1 ++ [c]) ++ p :: l2) (without p (w_unlinked y)) y]>) s1).
    { unfold on_windows. f_equal. apply map_eq. intros i. rewrite lookup_fmap, lookup_insert. case_decide as Hqi.
      - subst i. rewrite Hy1. cbn. f_equal. unfold both_lists, set_lists. cbn. fold L. rewrite EL, insert_after_split by done. rewrite insert_after_absent, <-app_assoc; [done|].
        intros [_ Hc]%list_elem_of_filter. by eapply (Hlists q y Hy).
      - destruct (windows s1 !! i) as [v|] eqn:Hv; [|done]. cbn. f_equal.
        assert (∃ v0, windows s !! i = Some v0 ∧ w_children v = without p (w_children v0) ∧ w_unlinked v = without p (w_unlinked v0)) as (v0 & Hv0 & E1 & E2).
        { destruct (decide (i = p)) as [->|Hip]; [rewrite Hx1 in Hv; injection Hv as <-; by exists x|].
          rewrite Hi1 in Hv by done. apply fmap_Some in Hv as (v0 & ? & ->). by exists v0. }
        destruct (Hlists i v0 Hv0) as [Hu Hch]. apply both_lists_neutral; apply insert_after_absent.
        + rewrite E1. intros [_ Hc]%list_elem_of_filter. by apply Hqi; symmetry; apply Hch.
        + rewrite E2. intros [_ Hc]%list_elem_of_filter. done. }
    assert (Hcq : windows (on_windows (<[q := set_lists ((l1 ++ [c]) ++ p :: l2) (without p (w_unlinked y)) y]>) s1) !! p = Some (set_ex_style e0 xb)).
    { cbn. by rewrite lookup_insert_ne. }
    rewrite wp_bind, wp_bind. unfold list_add_after. rewrite wp_bind. eapply wp_read_window; [exact Hz1|]. rewrite wp_bind, wp_assert. split; [exact (Hce z Hz)|].
    rewrite wp_modify, Hs2. clear Hs2. set (s2 := on_windows (<[q := set_lists ((l1 ++ [c]) ++ p :: l2) (without p (w_unlinked y)) y]>) s1) in *.
    assert (Htop2 : ∀ i v, i ≠ p → windows s2 !! i = Some v → topmost v = is_top W1 i).
    { intros i v Hi Hv. unfold is_top. change W1 with (windows s1). unfold s2 in Hv. cbn in Hv. apply lookup_insert_Some in Hv as [[<- <-]|[_ Hv]]; [by rewrite Hy1|].
      change W1 with (windows s1) in Hv. by rewrite Hv. }
    assert (Hpres : ∀ i, i ∈ L → ∃ v, windows s2 !! i = Some v).
    { intros i [Hip Hi]%list_elem_of_filter. unfold s2. cbn. change W1 with (windows s1). destruct (decide (q = i)) as [<-|]; [rewrite lookup_insert_eq; eauto|].
      rewrite lookup_insert_ne, Hi1 by done. destruct (Hl i Hi) as [v ->]. eauto. }
    destruct (Hpres c Hin) as [cz Hcz]. rewrite wp_bind. eapply wp_read_window; [exact Hcz|]. rewrite (Htop2 c cz Hcp Hcz).
    assert (Hs1c : ∀ b, b ∈ l2 → is_top W1 b = true → ∀ i, i ∈ l1 ++ [c] → is_top W1 i = true).
    { intros b Hb Htb i Hi. apply (zsorted_split W1 (l1 ++ [c]) l2) with b; try done. by rewrite <-EL'. }
    assert (Hl1c : is_top W1 c = true → ∀ i, i ∈ l1 ++ [c] → is_top W1 i = true).
    { intros Htc i [Hi| ->%list_elem_of_singleton]%elem_of_app; [|done]. apply (zsorted_split W1 l1 (c :: l2)) with c; [by rewrite <-EL|done|left|done]. }
    assert (Hl2 : ∀ i, i ∈ l2 → i ≠ p) by (intros i Hi ->; apply Hpl; set_solver). change (has e0 WS_EX_TOPMOST) with (topmost x) in *.
    destruct (is_top W1 c) eqn:Etc; cbn [negb].
    + rewrite wp_bind. unfold get_next_window, neighbour. rewrite wp_bind. eapply wp_read_window; [exact Hcq|]. rewrite wp_bind. cbn [w_parent set_ex_style both_lists set_lists xb].
      rewrite Hp. apply wp_ret. rewrite wp_bind. eapply wp_read_window; [unfold s2; cbn; apply lookup_insert_eq|]. cbn [w_children set_lists].
      rewrite next_in_split by (intros [?|?%list_elem_of_singleton]%elem_of_app; [apply Hpl; set_solver|done]). apply wp_ret.
      destruct l2 as [|n l2]; cbn [head].
      * apply wp_ret. eapply (Hfin s2 (l1 ++ [c]) [] e0); [exact EL'|split; [auto|by intros _ i ?%not_elem_of_nil]|apply Hpla; [cbn; by rewrite orb_false_r|done]|exact Hcq|apply Heq].
      * assert (n ∈ L) as HnL by (rewrite EL; set_solver). assert (n ≠ p) as Hnp by (intros ->; apply Hpl; set_solver).
        destruct (Hpres n HnL) as [nz Hnz]. rewrite wp_bind. eapply wp_read_window; [exact Hnz|]. rewrite (Htop2 n nz Hnp Hnz). destruct (is_top W1 n) eqn:Etn; cbn [when].
        -- eapply wp_update_window; [exact Hcq|]. eapply (Hfin _ (l1 ++ [c]) (n :: l2) (Z.lor e0 WS_EX_TOPMOST)); [exact EL'| |apply Hpla; [by rewrite has_set; cbn; rewrite Etn, orb_true_r|done]|cbn; by rewrite lookup_insert_eq|].
           ++ split; [auto|]. by rewrite has_set.
           ++ rewrite <-Heq. unfold on_windows. cbn. f_equal. apply insert_insert_eq.
        -- apply wp_ret. eapply (Hfin s2 (l1 ++ [c]) (n :: l2) e0); [exact EL'| |apply Hpla; [cbn; by rewrite Etn, orb_false_r|done]|exact Hcq|apply Heq]. split; [auto|].
           intros _ i Hi. destruct (is_top W1 i) eqn:Eti; [|done]. apply elem_of_cons in Hi as [->|Hi]; [congruence|].
           rewrite <-Etn. symmetry. apply (zsorted_split W1 (l1 ++ [c; n]) l2) with i; [rewrite <-app_assoc; cbn [app]; by rewrite <-EL|set_solver|done|done].
    + eapply wp_update_window; [exact Hcq|]. eapply (Hfin _ (l1 ++ [c]) l2 (Z.ldiff e0 WS_EX_TOPMOST)); [exact EL'| |apply Hpla; [by rewrite has_clear|done]|cbn; by rewrite lookup_insert_eq|].
      * split; [by rewrite has_clear|]. intros _ i Hi. destruct (is_top W1 i) eqn:Eti; [|done]. specialize (Hs1c i Hi Eti c ltac:(set_solver)). congruence.
      * rewrite <-Heq. unfold on_windows. cbn. f_equal. apply insert_insert_eq.
Qed.

Lemma zsorted_without W p l : zsorted W l → zsorted W (without p l).
Proof.
  unfold zsorted. induction l as [|c l IH]; [done|]. intros [Hc Hs]%StronglySorted_cons. rewrite filter_cons. case_decide; [|auto].
  apply StronglySorted_cons. split; [|auto]. apply Forall_forall. intros i [_ Hi]%list_elem_of_filter. rewrite Forall_forall in Hc. auto.
Qed.

Lemma zsorted_insert W W' e p l1 l2 : zsorted W (l1 ++ l2) → fits_between W e l1 l2 → p ∉ l1 ++ l2 →
  (∀ i, i ≠ p → is_top W' i = is_top W i) → is_top W' p = has e WS_EX_TOPMOST → zsorted W' (l1 ++ p :: l2).
Proof.
  intros Hs [H1 H2] Hp Hother Hself. assert (Hne : ∀ i, i ∈ l1 ++ l2 → i ≠ p) by (by intros i Hi ->).
  assert (Hs' : zsorted W' (l1 ++ l2)) by (eapply zsorted_ext; [|exact Hs]; intros i Hi; by apply Hother, Hne).
  apply StronglySorted_app in Hs' as (H12 & Hl1 & Hl2). apply StronglySorted_app. split_and!; [|done|].
  - intros a b Ha [->|Hb]%elem_of_cons; [|by apply H12]. unfold above. rewrite Hself, Hother by (apply Hne; set_solver). intros Hb. by apply H1.
  - apply StronglySorted_cons. split; [|done]. apply Forall_forall. intros b Hb. unfold above. rewrite Hself, Hother by (apply Hne; set_solver).
    intros Ht. destruct (has e WS_EX_TOPMOST); [done|]. rewrite H2 in Ht by done. done.
Qed.

Lemma relinked_inv extra s s' p q x y l1 l2 e old : win_inv extra s →
  windows s !! p = Some x → w_handle x ≠ 0 → w_parent x = Some old → windows s !! q = Some y → ¬ below (parents s) p q →
  (old = q ∨ ∀ z, windows s !! old = Some z → w_handle z ≠ 0) →
  without p (w_children y) = l1 ++ l2 → fits_between (windows s) e l1 l2 →
  table s' = table s → top_window s' = top_window s → msg_window s' = msg_window s →
  (∀ i z, windows s !! i = Some z → ∃ v, windows s' !! i = Some v ∧
     w_parent v = (if decide (i = p) then Some q else w_parent z) ∧
     w_children v = (if decide (i = q) then l1 ++ p :: l2 else without p (w_children z)) ∧ w_unlinked v = without p (w_unlinked z) ∧
     w_entry v = true ∧ w_handle v = w_handle z ∧ w_linked v = (if decide (i = p) then true else w_linked z) ∧ w_orphan v = w_orphan z ∧
     topmost v = (if decide (i = p) then has e WS_EX_TOPMOST else topmost z) ∧
     w_refcount v = w_refcount z + (if decide (i = q) then 1 else 0) - (if decide (i = old) then 1 else 0)) →
  (∀ i v, windows s' !! i = Some v → is_Some (windows s !! i)) → win_inv extra s'.
Proof.
  intros H Hx Hxh Hold Hy Hnb Hoh El Hfits Et Etop Emsg Hfwd Hdom.
  assert (Hback : ∀ i v, windows s' !! i = Some v → ∃ z, windows s !! i = Some z).
  { intros i v Hv. destruct (Hdom i v Hv) as [z Hz]. eauto. }
  assert (Hpar : parents s' = <[p := Some q]> (parents s)).
  { apply map_eq. intros i. unfold parents. rewrite lookup_insert, !lookup_fmap. destruct (windows s !! i) as [z|] eqn:Hz.
    - destruct (Hfwd i z Hz) as (v & -> & Ep & _). cbn. rewrite Ep. destruct (decide (i = p)) as [->|Hi]; [by rewrite decide_True|by rewrite decide_False].
    - destruct (windows s' !! i) as [v|] eqn:Hv; [destruct (Hback i v Hv); congruence|]. rewrite decide_False by congruence. done. }
  assert (Hcount : ∀ i, counted (parents s') i = counted (parents s) i + (if decide (i = q) then 1 else 0) - (if decide (i = old) then 1 else 0)).
  { intros i. rewrite Hpar, <-insert_delete_eq, counted_insert by apply lookup_delete_eq.
    rewrite (counted_delete _ _ (Some old)) by (by rewrite (parents_lookup _ _ _ Hx), Hold). repeat case_decide; simplify_eq; lia. }
  assert (Hpl : p ∉ l1 ++ l2) by (rewrite <-El; by intros [? _]%list_elem_of_filter).
  assert (Htops : ∀ i, i ≠ p → is_top (windows s') i = is_top (windows s) i).
  { intros i Hi. unfold is_top. destruct (windows s !! i) as [z|] eqn:Hz.
    - destruct (Hfwd i z Hz) as (v & -> & _ & _ & _ & _ & _ & _ & _ & Ev & _). cbn. by rewrite Ev, decide_False.
    - destruct (windows s' !! i) as [v|] eqn:Hv; [destruct (Hback i v Hv); congruence|done]. }
  split; rewrite ?Et, ?Etop, ?Emsg.
  - apply H.
  - intros i v Hv. destruct (Hback i v Hv) as [z Hz]. destruct (Hfwd i z Hz) as (v' & Hv' & _ & _ & _ & _ & Eh & _). simplify_eq. rewrite Eh. by apply (wi_handle _ _ H).
  - intros h i Hi. destruct (wi_find _ _ H h i Hi) as (z & Hz & Hzh). destruct (Hfwd i z Hz) as (v & Hv & _ & _ & _ & _ & Eh & _). exists v. by rewrite Eh.
  - rewrite Hpar. apply depth_reparent; [apply H| |rewrite (parents_lookup _ _ _ Hx); eauto]. intros ? [= <-]. split; [rewrite (parents_lookup _ _ _ Hy); eauto|done].
  - intros i v Hv. destruct (Hback i v Hv) as [z Hz]. destruct (Hfwd i z Hz) as (v' & Hv' & _ & _ & _ & Ee & _). by simplify_eq.
  - intros i v Hv. destruct (Hback i v Hv) as [z Hz]. destruct (Hfwd i z Hz) as (v' & Hv' & _ & Ec & Eu & _). simplify_eq. destruct (wi_nodup _ _ H i z Hz) as [Hn1 Hn2].
    rewrite Ec, Eu. split; [|by apply NoDup_filter]. case_decide as Ei; [|by apply NoDup_filter]. subst i. assert (z = y) as -> by congruence.
    rewrite <-Permutation_middle. constructor; [done|]. rewrite <-El. by apply NoDup_filter.
  - intros i v c Hv. destruct (Hback i v Hv) as [z Hz]. destruct (Hfwd i z Hz) as (v' & Hv' & _ & Ec & _). simplify_eq. rewrite Ec.
    assert (Hrhs : (∃ u, windows s' !! c = Some u ∧ w_parent u = Some i ∧ w_linked u = true) ↔ (c = p ∧ i = q) ∨ (c ≠ p ∧ c ∈ w_children z)).
    { rewrite (wi_children _ _ H i z c Hz). split.
      - intros (u' & Hu' & Epu & Elu). destruct (Hback c u' Hu') as [u Hu]. destruct (Hfwd c u Hu) as (u2 & Hu2 & E1 & _ & _ & _ & _ & E2 & _). simplify_eq.
        rewrite E1 in Epu. rewrite E2 in Elu. case_decide; [left; split; congruence|right; split; [done|]]. exists u. done.
      - intros [[-> ->]|(Hcp & u & Hu & ? & ?)].
        + destruct (Hfwd p x Hx) as (u & Hu & E1 & _ & _ & _ & _ & E2 & _). exists u. by rewrite E1, E2, !decide_True.
        + destruct (Hfwd c u Hu) as (u2 & Hu2 & E1 & _ & _ & _ & _ & E2 & _). exists u2. by rewrite E1, E2, !decide_False. }
    rewrite Hrhs. case_decide as Ei.
    + subst i. assert (z = y) as -> by congruence. rewrite elem_of_app, elem_of_cons. assert (c ∈ l1 ∨ c ∈ l2 ↔ c ≠ p ∧ c ∈ w_children y) as Hc; [|naive_solver].
      by rewrite <-elem_of_app, <-El, list_elem_of_filter.
    + rewrite list_elem_of_filter. naive_solver.
  - intros i v c Hv. destruct (Hback i v Hv) as [z Hz]. destruct (Hfwd i z Hz) as (v' & Hv' & _ & _ & Eu & _). simplify_eq. rewrite Eu, list_elem_of_filter, (wi_unlinked _ _ H i z c Hz). split.
    + intros (Hcp & u & Hu & ? & ?). destruct (Hfwd c u Hu) as (u2 & Hu2 & E1 & _ & _ & _ & _ & E2 & _). exists u2. by rewrite E1, E2, !decide_False.
    + intros (u' & Hu' & Epu & Elu). destruct (Hback c u' Hu') as [u Hu]. destruct (Hfwd c u Hu) as (u2 & Hu2 & E1 & _ & _ & _ & _ & E2 & _). simplify_eq.
      rewrite E1 in Epu. rewrite E2 in Elu. case_decide; [done|]. split; [done|]. by exists u.
  - intros i v Hv. destruct (Hback i v Hv) as [z Hz]. destruct (Hfwd i z Hz) as (v' & Hv' & Ep & _ & _ & _ & Eh & Elk & _). simplify_eq. rewrite Ep, Eh, Elk.
    case_decide; [subst; assert (z = x) as -> by congruence; done|]. by apply (wi_linked _ _ H i z).
  - intros i v Hv. destruct (Hback i v Hv) as [z Hz]. destruct (Hfwd i z Hz) as (v' & Hv' & _ & _ & _ & _ & Eh & _ & Eo & _). simplify_eq. rewrite Eh, Eo. by apply (wi_orphan _ _ H i z).
  - intros i v Hv. destruct (Hback i v Hv) as [z Hz]. destruct (Hfwd i z Hz) as (v' & Hv' & _ & _ & _ & _ & Eh & _ & _ & _ & Er). simplify_eq. rewrite Hcount.
    destruct (wi_refs _ _ H i z Hz) as [Hpos Ez]. rewrite Eh, Er. split; [|lia]. destruct (decide (i = old)) as [->|]; [|case_decide; lia].
    destruct Hoh as [->|Hoh]; [rewrite decide_True by done; lia|]. specialize (Hoh z Hz). rewrite (proj2 (Z.eqb_neq _ _)) in Ez by done.
    assert (1 ≤ counted (parents s) old).
    { assert (counted (parents s) old ≠ 0) as Hne; [|pose proof (counted_nonneg (parents s) old); lia]. intros E0. apply (counted_zero _ _ p E0). by rewrite (parents_lookup _ _ _ Hx), Hold. }
    pose proof (count_nonneg old extra). case_decide; lia.
  - intros i. rewrite (wi_desktop _ _ H i). split.
    + intros (z & Hz & Ez). destruct (Hfwd i z Hz) as (v & Hv & Ep & _). exists v. rewrite Ep. split; [done|]. case_decide; [subst; congruence|done].
    + intros (v & Hv & Ev). destruct (Hback i v Hv) as [z Hz]. destruct (Hfwd i z Hz) as (v' & Hv' & Ep & _). simplify_eq. exists z. split; [done|]. rewrite Ep in Ev. by case_decide.
  - intros i v Hv. destruct (Hback i v Hv) as [z Hz]. destruct (Hfwd i z Hz) as (v' & Hv' & Ep & _ & _ & _ & Eh & _). simplify_eq. rewrite Ep, Eh. case_decide; [done|]. by apply (wi_root _ _ H i z).
  - intros i v Hv. destruct (Hback i v Hv) as [z Hz]. destruct (Hfwd i z Hz) as (v' & Hv' & _ & Ec & _). simplify_eq. rewrite Ec. pose proof (wi_zorder _ _ H i z Hz) as Hzs.
    apply (zsorted_without _ p) in Hzs. case_decide as Ei.
    + subst i. assert (z = y) as -> by congruence. rewrite El in Hzs. eapply zsorted_insert; [exact Hzs|exact Hfits|exact Hpl|exact Htops|].
      destruct (Hfwd p x Hx) as (u & Hu & _ & _ & _ & _ & _ & _ & _ & E2 & _). unfold is_top. by rewrite Hu; cbn; rewrite E2, decide_True.
    + eapply zsorted_ext; [|exact Hzs]. intros c [Hcp _]%list_elem_of_filter. by apply Htops.
Qed.

(** The place is among the children of the new parent. *)
Definition place_ok (s : state) (p q : Z) (previous : place) : Prop :=
  ∀ c, previous = After c → c ≠ p ∧ ∃ z, windows s !! c = Some z ∧ w_parent z = Some q ∧ w_linked z = true.

(** Linking [p] below [q], in a state where the parent and the counts have changed. *)
Lemma link_ok extra s sm p q x y old previous w : win_inv extra s →
  windows s !! p = Some x → w_handle x ≠ 0 → w_parent x = Some old → windows s !! q = Some y → ¬ below (parents s) p q →
  (old = q ∨ ∀ z, windows s !! old = Some z → w_handle z ≠ 0) → (previous = WINPTR_NOTOPMOST → sm = s) → place_ok s p q previous → same_rest s sm →
  (∀ i, windows sm !! i = (λ z, set_refs (w_refcount z + (if decide (i = q) then 1 else 0) - (if decide (i = old) then 1 else 0))
     (if decide (i = p) then set_parent (Some q) z else z)) <$> windows s !! i) →
  wp (link_window p previous) sm w (λ _ s' w', w' = w ∧ win_inv extra s' ∧ same_rest s s' ∧
    ∀ i z, windows s !! i = Some z → ∃ v, windows s' !! i = Some v ∧ w_handle v = w_handle z ∧ w_thread v = w_thread z).
Proof.
  intros H Hx Hxh Hold Hy Hnb Hoh Hsame Hplace (Et & Etop & Emsg) Hsm.
  assert (Hpq : p ≠ q) by (intros <-; apply Hnb; constructor).
  set (xm := set_refs (w_refcount x + (if decide (p = q) then 1 else 0) - (if decide (p = old) then 1 else 0)) (set_parent (Some q) x)).
  set (ym := set_refs (w_refcount y + 1 - (if decide (q = old) then 1 else 0)) y).
  assert (Hxm : windows sm !! p = Some xm) by (rewrite Hsm, Hx; cbn; by rewrite (decide_True (P := p = p))).
  assert (Hym : windows sm !! q = Some ym) by (rewrite Hsm, Hy; cbn; by rewrite (decide_True (P := q = q)), (decide_False (P := q = p)) by done).
  assert (Htop : ∀ i, is_top (windows sm) i = is_top (windows s) i).
  { intros i. unfold is_top. rewrite Hsm. destruct (windows s !! i); [|done]. cbn. by destruct (decide (i = p)). }
  eapply (wp_link_window p q xm ym); try done.
  - exact (wi_entry _ _ H p x Hx).
  - intros c Hc. change (w_children ym) with (w_children y) in Hc. apply (wi_children _ _ H q y c Hy) in Hc as (z & Hz & _). rewrite Hsm, Hz. eauto.
  - exact (proj1 (wi_nodup _ _ H q y Hy)).
  - change (w_children ym) with (w_children y). eapply zsorted_ext; [intros i _; apply Htop|]. by apply zsorted_without, (wi_zorder _ _ H q).
  - intros c Hc. destruct (Hplace c Hc) as (Hcp & cz & Hcz & Hcq & Hcl). split; [done|]. split; [apply (wi_children _ _ H q y c Hy); eauto|]. split.
    + intros z Hz. rewrite Hsm, Hcz in Hz. cbn in Hz. injection Hz as <-. rewrite (decide_False (P := c = p)) by done. exact (wi_entry _ _ H c cz Hcz).
    + intros i z Hz. rewrite Hsm in Hz. apply fmap_Some in Hz as (z0 & Hz0 & ->). split.
      * intros Hin. assert (c ∈ w_unlinked z0) as Hin' by by destruct (decide (i = p)). apply (wi_unlinked _ _ H i z0 c Hz0) in Hin' as (? & ? & _ & ?). congruence.
      * intros Hin. assert (c ∈ w_children z0) as Hin' by by destruct (decide (i = p)). apply (wi_children _ _ H i z0 c Hz0) in Hin' as (? & ? & ? & _). congruence.
  - intros Hn _ _. rewrite (Hsame Hn) in *. split_and!; try done. intros i z Hz. by exists z.
  - intros l1 l2 e El Hfits _. change (w_children ym) with (w_children y) in El. set (s' := on_windows _ sm). split; [done|].
    assert (Hfwd : ∀ i z, windows s !! i = Some z → ∃ v, windows s' !! i = Some v ∧
     w_parent v = (if decide (i = p) then Some q else w_parent z) ∧
     w_children v = (if decide (i = q) then l1 ++ p :: l2 else without p (w_children z)) ∧ w_unlinked v = without p (w_unlinked z) ∧
     w_entry v = true ∧ w_handle v = w_handle z ∧ w_linked v = (if decide (i = p) then true else w_linked z) ∧ w_orphan v = w_orphan z ∧
     topmost v = (if decide (i = p) then has e WS_EX_TOPMOST else topmost z) ∧
     w_refcount v = w_refcount z + (if decide (i = q) then 1 else 0) - (if decide (i = old) then 1 else 0)).
    { intros i z Hz. unfold s'. cbn. unfold relink. rewrite lookup_insert. case_decide as Ep.
      - subst i. assert (z = x) as -> by congruence. eexists. split; [done|]. rewrite !(decide_True (P := p = p)) by done. rewrite !(decide_False (P := p = q)) by done.
        unfold xm. rewrite (decide_False (P := p = q)) by done. by split_and!.
      - rewrite lookup_insert. case_decide as Eq.
        + subst i. assert (z = y) as -> by congruence. eexists. split; [done|]. rewrite !(decide_False (P := q = p)) by done. rewrite !(decide_True (P := q = q)) by done.
          split_and!; try done. exact (wi_entry _ _ H q y Hy).
        + rewrite lookup_fmap, Hsm, Hz. cbn. eexists. split; [done|]. rewrite !(decide_False (P := i = p)) by congruence. rewrite !(decide_False (P := i = q)) by congruence.
          split_and!; try done. exact (wi_entry _ _ H i z Hz). }
    assert (Hinv : win_inv extra s').
    { eapply (relinked_inv extra s s' p q x y l1 l2 e old H); try done.
      - destruct Hfits as [H1 H2]. split; intros Hb i Hi; rewrite <-Htop; auto.
      - intros i v Hv. destruct (windows s !! i) as [z|] eqn:Hz; [eauto|]. exfalso. unfold s' in Hv. cbn in Hv. unfold relink in Hv.
        rewrite !lookup_insert_ne in Hv by congruence. by rewrite lookup_fmap, Hsm, Hz in Hv. }
    split; [done|]. split; [done|]. intros i z Hz. destruct (Hfwd i z Hz) as (v & Hv & _ & _ & _ & _ & Eh & _). exists v. split_and!; [done|done|].
    unfold s' in Hv. cbn in Hv. unfold relink in Hv. rewrite !lookup_insert, lookup_fmap, Hsm, Hz in Hv. cbn in Hv. by repeat case_decide; simplify_eq.
Qed.
(** ** Changing the parent *)

(** Counts are below INT_MAX. *)
Definition fits (s : state) : Prop := ∀ p x, windows s !! p = Some x → w_refcount x < INT_MAX.

Lemma counted_parent extra s p x q : win_inv extra s → windows s !! p = Some x → w_parent x = Some q → 1 ≤ counted (parents s) q.
Proof.
  intros H Hx Hq. assert (counted (parents s) q ≠ 0) as Hne; [|pose proof (counted_nonneg (parents s) q); lia].
  intros E0. apply (counted_zero _ _ p E0). by rewrite (parents_lookup _ _ _ Hx), Hq.
Qed.

Lemma wp_release_shared p x s w (Q : unit → state → world → Prop) : windows s !! p = Some x → 2 ≤ w_refcount x →
  Q tt (on_windows (<[p := set_refs (w_refcount x - 1) x]>) s) w → wp (release_window p) s w Q.
Proof.
  intros Hx Hr HQ. unfold release_window. rewrite wp_bind, wp_get. cbn [release_loop]. rewrite wp_bind. eapply wp_read_window; [done|].
  rewrite wp_bind, wp_assert. split; [apply negb_true_iff, Z.eqb_neq; lia|]. rewrite wp_bind. eapply wp_update_window; [done|].
  rewrite (proj2 (Z.eqb_neq _ _)) by lia. by apply wp_ret.
Qed.

Lemma reparent_ok extra s w p x q y old : win_inv extra s → fits s →
  windows s !! p = Some x → w_handle x ≠ 0 → w_parent x = Some old → windows s !! q = Some y → (∀ z, windows s !! old = Some z → w_handle z ≠ 0) →
  wp (set_parent_window p (Some q)) s w (λ _ s' _, win_inv extra s' ∧ same_rest s s').
Proof.
  intros H Hfits Hx Hxh Hold Hy Hoh. unfold set_parent_window. rewrite wp_bind. eapply wp_is_child_of; [done..|]. intros b Hb. destruct b.
  { rewrite wp_bind, wp_set_error. by apply wp_ret. }
  assert (Hnb : ¬ below (parents s) p q) by (intros E; by apply Hb in E). rewrite wp_bind. eapply wp_read_window; [done|]. rewrite Hold.
  destruct (parent_exists _ _ _ _ _ H Hx Hold) as [z Hz]. pose proof (counted_parent _ _ _ _ _ H Hx Hold). destruct (wi_refs _ _ H old z Hz) as [_ Er].
  rewrite (proj2 (Z.eqb_neq _ _)) in Er by eauto. pose proof (count_nonneg old extra).
  rewrite wp_bind. eapply wp_release_shared; [done|lia|]. set (s1 := on_windows _ s).
  assert (Hy1 : windows s1 !! q = Some (set_refs (w_refcount y - (if decide (q = old) then 1 else 0)) y)).
  { unfold s1. cbn. rewrite lookup_insert. destruct (decide (old = q)) as [->|]; [rewrite decide_True by done; congruence|].
    rewrite decide_False by congruence. rewrite Hy. f_equal. destruct y. unfold set_refs. cbn. f_equal. lia. }
  pose proof (Hfits q y Hy). rewrite wp_bind. unfold grab_window. rewrite wp_bind. eapply wp_read_window; [exact Hy1|]. rewrite wp_bind, wp_assert.
  split; [apply Z.ltb_lt; cbn; case_decide; lia|]. eapply wp_update_window; [exact Hy1|].
  assert (Hpq : p ≠ q) by (intros ->; apply Hnb; constructor).
  assert (Hpo : p ≠ old).
  { intros ->. destruct (wi_depth _ _ _ _ H Hx) as (m & Hm & _). eapply (not_below_own_child (parents s) old old); [by rewrite (parents_lookup _ _ _ Hx), Hold|done|constructor]. }
  rewrite wp_bind. eapply wp_update_window; [cbn; rewrite !lookup_insert_ne by done; exact Hx|].
  rewrite wp_bind. eapply wp_mono; [eapply (link_ok extra s _ p q x y old WINPTR_TOP); try done; [by right|]|].
  - intros i. cbn. rewrite !lookup_insert. repeat (case_decide; subst; simplify_eq; try done); rewrite ?Hx, ?Hy, ?Hz; cbn;
      destruct (windows s !! i) as [[]|]; unfold set_refs, set_parent; cbn; repeat f_equal; lia.
  - intros [] s' w' (_ & Hinv & Hrest & _). by apply wp_ret.
Qed.
(** [p] moves to the other list of its parent. *)
Lemma unlinked_inv extra s s' p q x : win_inv extra s → windows s !! p = Some x → w_parent x = Some q →
  table s' = table s → top_window s' = top_window s → msg_window s' = msg_window s →
  (∀ i, windows s' !! i = (λ z, (if decide (i = p) then λ v, set_linked false (set_orphan true v) else λ v, v)
     (set_lists (without p (w_children z)) ((if decide (i = q) then [p] else []) ++ without p (w_unlinked z)) z)) <$> windows s !! i) →
  win_inv extra s'.
Proof.
  intros H Hx Hq Et Etop Emsg Hw.
  set (f := λ i z, (if decide (i = p) then λ v, set_linked false (set_orphan true v) else λ v, v)
     (set_lists (without p (w_children z)) ((if decide (i = q) then [p] else []) ++ without p (w_unlinked z)) z)).
  assert (Hf : ∀ i z, w_parent (f i z) = w_parent z ∧ w_children (f i z) = without p (w_children z) ∧
    w_unlinked (f i z) = (if decide (i = q) then [p] else []) ++ without p (w_unlinked z) ∧ w_entry (f i z) = w_entry z ∧ w_handle (f i z) = w_handle z ∧
    w_linked (f i z) = (if decide (i = p) then false else w_linked z) ∧ (w_orphan z = true → w_orphan (f i z) = true) ∧
    topmost (f i z) = topmost z ∧ w_refcount (f i z) = w_refcount z).
  { intros i z. unfold f. destruct (decide (i = p)); by split_and!. }
  assert (Hback : ∀ i v, windows s' !! i = Some v → ∃ z, windows s !! i = Some z ∧ v = f i z).
  { intros i v Hv. rewrite Hw in Hv. apply fmap_Some in Hv as (z & Hz & ->). eauto. }
  assert (Hfwd : ∀ i z, windows s !! i = Some z → windows s' !! i = Some (f i z)) by (intros i z Hz; by rewrite Hw, Hz).
  clearbody f. clear Hw.
  assert (Hpar : parents s' = parents s).
  { apply map_eq. intros i. unfold parents. rewrite !lookup_fmap. destruct (windows s !! i) as [z|] eqn:Hz.
    - rewrite (Hfwd i z Hz). cbn. by rewrite (proj1 (Hf i z)).
    - destruct (windows s' !! i) as [v|] eqn:Hv; [|done]. destruct (Hback i v Hv) as (? & ? & _). congruence. }
  split; rewrite ?Et, ?Etop, ?Emsg, ?Hpar.
  - apply H.
  - intros i v Hv. destruct (Hback i v Hv) as (z & Hz & ->). destruct (Hf i z) as (_ & _ & _ & _ & -> & _). by apply (wi_handle _ _ H).
  - intros h i Hi. destruct (wi_find _ _ H h i Hi) as (z & Hz & Hzh). exists (f i z). destruct (Hf i z) as (_ & _ & _ & _ & -> & _). auto.
  - apply H.
  - intros i v Hv. destruct (Hback i v Hv) as (z & Hz & ->). destruct (Hf i z) as (_ & _ & _ & -> & _). by apply (wi_entry _ _ H i).
  - intros i v Hv. destruct (Hback i v Hv) as (z & Hz & ->). destruct (Hf i z) as (_ & -> & -> & _). destruct (wi_nodup _ _ H i z Hz).
    assert (NoDup (without p (w_unlinked z))) by (by apply NoDup_filter). split; [by apply NoDup_filter|]. case_decide; [|done]. constructor; [|done]. by intros [? _]%list_elem_of_filter.
  - intros i v c Hv. destruct (Hback i v Hv) as (z & Hz & ->). destruct (Hf i z) as (_ & -> & _). rewrite list_elem_of_filter, (wi_children _ _ H i z c Hz). split.
    + intros (Hcp & u & Hu & ? & ?). exists (f c u). destruct (Hf c u) as (-> & _ & _ & _ & _ & -> & _). rewrite decide_False by done. auto.
    + intros (u' & Hu' & Ep & El). destruct (Hback c u' Hu') as (u & Hu & ->). destruct (Hf c u) as (E1 & _ & _ & _ & _ & E2 & _). rewrite E1 in Ep. rewrite E2 in El.
      case_decide; [done|]. split; [done|]. by exists u.
  - intros i v c Hv. destruct (Hback i v Hv) as (z & Hz & ->). destruct (Hf i z) as (_ & _ & -> & _). rewrite elem_of_app, list_elem_of_filter, (wi_unlinked _ _ H i z c Hz). split.
    + intros [Hc|(Hcp & u & Hu & ? & ?)].
      * case_decide; [|by apply not_elem_of_nil in Hc]. apply list_elem_of_singleton in Hc as ->. subst i. exists (f p x).
        destruct (Hf p x) as (-> & _ & _ & _ & _ & -> & _). rewrite decide_True by done. auto.
      * exists (f c u). destruct (Hf c u) as (-> & _ & _ & _ & _ & -> & _). rewrite decide_False by done. auto.
    + intros (u' & Hu' & Ep & El). destruct (Hback c u' Hu') as (u & Hu & ->). destruct (Hf c u) as (E1 & _ & _ & _ & _ & E2 & _). rewrite E1 in Ep. rewrite E2 in El.
      destruct (decide (c = p)) as [->|]; [left|right; split; [done|by exists u]]. assert (u = x) as -> by congruence. rewrite decide_True by congruence. left.
  - intros i v Hv. destruct (Hback i v Hv) as (z & Hz & ->). destruct (Hf i z) as (-> & _ & _ & _ & -> & -> & _). case_decide; [done|]. by apply (wi_linked _ _ H i).
  - intros i v Hv. destruct (Hback i v Hv) as (z & Hz & ->). destruct (Hf i z) as (_ & _ & _ & _ & -> & _ & Ho & _). intros E. by apply Ho, (wi_orphan _ _ H i z Hz).
  - intros i v Hv. destruct (Hback i v Hv) as (z & Hz & ->). destruct (Hf i z) as (_ & _ & _ & _ & -> & _ & _ & _ & ->). by apply (wi_refs _ _ H i).
  - intros i. rewrite (wi_desktop _ _ H i). split.
    + intros (z & Hz & E). exists (f i z). destruct (Hf i z) as (-> & _). auto.
    + intros (v & Hv & E). destruct (Hback i v Hv) as (z & Hz & ->). destruct (Hf i z) as (E1 & _). exists z. split; congruence.
  - intros i v Hv. destruct (Hback i v Hv) as (z & Hz & ->). destruct (Hf i z) as (-> & _ & _ & _ & -> & _). by apply (wi_root _ _ H i).
  - intros i v Hv. destruct (Hback i v Hv) as (z & Hz & ->). destruct (Hf i z) as (_ & -> & _). eapply zsorted_ext; [|apply zsorted_without, (wi_zorder _ _ H i z Hz)].
    intros c _. unfold is_top. destruct (windows s !! c) as [u|] eqn:Hu; [by rewrite (Hfwd c u Hu); cbn; apply Hf|].
    destruct (windows s' !! c) as [u'|] eqn:Hu'; [|done]. destruct (Hback c u' Hu') as (? & ? & _). congruence.
Qed.
(** ** Destroying windows *)

(** What destroying the windows of [D] leaves of the others. *)
Definition frame (D : Z → Prop) (s s' : state) : Prop :=
  (size (windows s') ≤ size (windows s))%nat ∧
  (∀ i v, windows s' !! i = Some v → ∃ z, windows s !! i = Some z ∧ w_parent v = w_parent z) ∧
  (∀ i z, windows s !! i = Some z → w_handle z ≠ 0 → ¬ D i →
     ∃ v, windows s' !! i = Some v ∧ w_parent v = w_parent z ∧ w_handle v = w_handle z ∧ w_linked v = w_linked z ∧ w_thread v = w_thread z) ∧
  (∀ h q, wh_find (table s') h = Some q → wh_find (table s) h = Some q).

Lemma frame_unchanged D s s' : windows s' = windows s → table s' = table s → frame D s s'.
Proof. intros E Et. unfold frame. rewrite E, Et. split; [done|]. split; [eauto|]. split; [|done]. intros i z Hz _ _. by exists z. Qed.

Lemma frame_trans D s1 s2 s3 : frame D s1 s2 → frame D s2 s3 → frame D s1 s3.
Proof.
  intros (? & Hb1 & Hf1 & Ht1) (? & Hb2 & Hf2 & Ht2). split; [lia|]. split; [|split; [|auto]].
  - intros i v Hv. destruct (Hb2 i v Hv) as (u & Hu & ->). destruct (Hb1 i u Hu) as (z & Hz & ->). eauto.
  - intros i z Hz Hh HD. destruct (Hf1 i z Hz Hh HD) as (u & Hu & E1 & E2 & E3 & E4). destruct (Hf2 i u Hu ltac:(congruence) HD) as (v & Hv & ? & ? & ? & ?).
    exists v. split_and!; congruence.
Qed.

Lemma frame_mono (D D' : Z → Prop) s s' : (∀ i, D i → D' i) → frame D s s' → frame D' s s'.
Proof. intros HD (? & Hb & Hf & ?). split; [done|]. split; [done|]. split; [|done]. intros i z Hz Hh HD'. apply Hf; [done|done|]. auto. Qed.

Lemma frame_same D s s' : size (windows s') = size (windows s) →
  (∀ i v, windows s' !! i = Some v → ∃ z, windows s !! i = Some z ∧ w_parent v = w_parent z ∧ w_handle v = w_handle z ∧ (¬ D i → w_linked v = w_linked z ∧ w_thread v = w_thread z)) →
  (∀ i, is_Some (windows s !! i) → is_Some (windows s' !! i)) → table s' = table s → frame D s s'.
Proof.
  intros Hsz Hb Hd Ht. split; [lia|]. split; [intros i v Hv; destruct (Hb i v Hv) as (z & ? & ? & _); eauto|]. rewrite Ht. split; [|done].
  intros i z Hz _ HD. destruct (Hd i) as [v Hv]; [eauto|]. destruct (Hb i v Hv) as (z' & Hz' & ? & ? & E). simplify_eq. destruct (E HD). eauto 6.
Qed.

(** One window changes. *)
Lemma frame_update (D : Z → Prop) s p x y : windows s !! p = Some x → w_parent y = w_parent x → w_handle y = w_handle x → w_linked y = w_linked x → (D p ∨ w_thread y = w_thread x) →
  frame D s (on_windows (<[p := y]>) s).
Proof.
  intros Hx Ep Eh El Et. apply frame_same; cbn.
  - by rewrite map_size_insert_Some.
  - intros i v. rewrite lookup_insert. case_decide; [subst; intros [= <-]; exists x; split_and!; try done; intros ?; split; [done|]; by destruct Et|]. intros Hv. by exists v.
  - intros i Hi. rewrite lookup_insert. by case_decide.
  - done.
Qed.

Lemma below_frame D s s' p q : frame D s s' → below (parents s') p q → below (parents s) p q.
Proof.
  intros (_ & Hb & _). induction 1 as [|q r Hq _ IH]; [constructor|]. destruct (parents_some _ _ _ Hq) as (v & Hv & Ev). destruct (Hb q v Hv) as (z & Hz & E).
  econstructor; [|exact IH]. rewrite (parents_lookup _ _ _ Hz). congruence.
Qed.

Lemma depth_frame extra D s s' p x n : win_inv extra s' → frame D s s' → windows s' !! p = Some x → depth (parents s) p n → depth (parents s') p n.
Proof.
  intros H (_ & Hb & _) Hx Hn. destruct (wi_depth _ _ _ _ H Hx) as (m & Hm & _). assert (depth (parents s) p m) as Hm'.
  { clear -Hb Hm. induction Hm as [p Hp|p q m Hp _ IH]; destruct (parents_some _ _ _ Hp) as (v & Hv & Ev); destruct (Hb p v Hv) as (z & Hz & E).
    - constructor. rewrite (parents_lookup _ _ _ Hz). congruence.
    - econstructor; [|exact IH]. rewrite (parents_lookup _ _ _ Hz). congruence. }
  by rewrite (depth_unique _ _ _ Hn _ Hm').
Qed.

Lemma unlink_ok extra s w p x q : win_inv extra s → windows s !! p = Some x → w_parent x = Some q →
  wp (set_parent_window p None) s w (λ _ s' _, win_inv extra s' ∧ same_rest s s' ∧ frame (λ i, i = p) s s' ∧
    ∃ y, windows s' !! p = Some y ∧ w_parent y = Some q ∧ w_handle y = w_handle x ∧ w_linked y = false ∧ w_orphan y = true).
Proof.
  intros H Hx Hq. assert (Hpq : p ≠ q).
  { intros ->. destruct (wi_depth _ _ _ _ H Hx) as (m & Hm & _). eapply (not_below_own_child (parents s) q q); [by rewrite (parents_lookup _ _ _ Hx), Hq|done|constructor]. }
  destruct (parent_exists _ _ _ _ _ H Hx Hq) as [y Hy]. unfold set_parent_window. rewrite wp_bind. apply wp_ret. rewrite wp_bind.
  eapply wp_list_remove; [done|by apply (wi_entry _ _ H p)|]. rewrite wp_bind. eapply wp_read_window; [cbn; by rewrite lookup_fmap, Hx|].
  rewrite wp_bind. cbn [w_parent both_lists set_lists]. rewrite Hq. apply wp_ret. rewrite wp_bind. eapply wp_update_window; [cbn; by rewrite lookup_fmap, Hy|].
  rewrite wp_bind. eapply wp_update_window; [cbn; rewrite lookup_insert_ne, lookup_fmap, Hx by done; done|]. apply wp_ret.
  match goal with |- win_inv _ ?s1 ∧ _ => set (s' := s1) end.
  assert (Hw : ∀ i, windows s' !! i = (λ z, (if decide (i = p) then λ v, set_linked false (set_orphan true v) else λ v, v)
     (set_lists (without p (w_children z)) ((if decide (i = q) then [p] else []) ++ without p (w_unlinked z)) z)) <$> windows s !! i).
  { intros i. unfold s'. cbn. rewrite !lookup_insert, lookup_fmap. destruct (decide (p = i)) as [<-|Hi]; [rewrite Hx; cbn; by rewrite (decide_True (P := p = p)), (decide_False (P := p = q))|].
    rewrite (decide_False (P := i = p)) by congruence. destruct (decide (q = i)) as [<-|Hi']; [rewrite Hy; cbn; by rewrite (decide_True (P := q = q))|].
    rewrite (decide_False (P := i = q)) by congruence. done. }
  split; [exact (unlinked_inv extra s s' p q x H Hx Hq eq_refl eq_refl eq_refl Hw)|]. split; [done|]. split.
  - apply frame_same.
    + unfold s'. cbn. rewrite map_size_insert_Some by (rewrite lookup_insert_ne, lookup_fmap, Hx by done; by eexists).
      rewrite map_size_insert_Some by (rewrite lookup_fmap, Hy; by eexists). apply map_size_fmap.
    + intros i v Hv. rewrite Hw in Hv. apply fmap_Some in Hv as (z & Hz & ->). exists z. by destruct (decide (i = p)).
    + intros i Hi. rewrite Hw. by apply fmap_is_Some.
    + done.
  - eexists. split; [rewrite Hw, Hx; cbn; rewrite (decide_True (P := p = p)) by done; done|]. done.
Qed.
(** The reference of the handle becomes one of the request. *)
Lemma unhandle_inv extra s p x t : win_inv extra s → windows s !! p = Some x → w_handle x ≠ 0 → w_orphan x = true → w_linked x = false → w_parent x ≠ None →
  wh_wf t → (∀ h, wh_find t h ≠ Some p) → (∀ h q, wh_find t h = Some q → wh_find (table s) h = Some q) →
  (∀ h q, q ≠ p → wh_find (table s) h = Some q → wh_find t h = Some q) →
  win_inv (p :: extra) (on_windows (<[p := set_handle 0 x]>) (set_table t s)).
Proof.
  intros H Hx Hh Ho Hl Hp Hwf Hgone Hback Hfwd. set (s' := on_windows _ _).
  assert (Hlook : ∀ i v, windows s' !! i = Some v → ∃ z, windows s !! i = Some z ∧ v = (if decide (i = p) then set_handle 0 z else z)).
  { intros i v. unfold s'. cbn. rewrite lookup_insert. destruct (decide (p = i)) as [<-|Hi]; intros Hv; [exists x; rewrite decide_True by done; split; congruence|]. exists v. by rewrite decide_False by congruence. }
  assert (Hput : ∀ i z, windows s !! i = Some z → windows s' !! i = Some (if decide (i = p) then set_handle 0 z else z)).
  { intros i z Hz. unfold s'. cbn. rewrite lookup_insert. destruct (decide (p = i)) as [<-|]; [rewrite decide_True by done; congruence|]. by rewrite decide_False by congruence. }
  set (f := λ i (z : window), if decide (i = p) then set_handle 0 z else z) in *.
  assert (Hf : ∀ i z, w_parent (f i z) = w_parent z ∧ w_children (f i z) = w_children z ∧ w_unlinked (f i z) = w_unlinked z ∧ w_entry (f i z) = w_entry z ∧
    w_linked (f i z) = w_linked z ∧ w_orphan (f i z) = w_orphan z ∧ topmost (f i z) = topmost z ∧ w_refcount (f i z) = w_refcount z ∧ (i ≠ p → w_handle (f i z) = w_handle z)).
  { intros i z. unfold f. by destruct (decide (i = p)). }
  assert (Hfp : w_handle (f p x) = 0) by (unfold f; by rewrite decide_True).
  change (∀ i v, windows s' !! i = Some v → ∃ z, windows s !! i = Some z ∧ v = f i z) in Hlook. change (∀ i z, windows s !! i = Some z → windows s' !! i = Some (f i z)) in Hput.
  clearbody f. assert (Hpar : parents s' = parents s).
  { unfold parents, s'. cbn. rewrite fmap_insert. apply insert_id. by rewrite lookup_fmap, Hx. }
  assert (Htop : ∀ i, is_top (windows s') i = is_top (windows s) i).
  { intros i. unfold is_top, s'. cbn. rewrite lookup_insert. case_decide; [subst; by rewrite Hx|done]. }
  split; change (table s') with t; change (top_window s') with (top_window s); change (msg_window s') with (msg_window s); rewrite ?Hpar.
  - done.
  - intros i v Hv Hvh. destruct (Hlook i v Hv) as (z & Hz & ->). destruct (decide (i = p)) as [->|Hi]; [congruence|].
    destruct (Hf i z) as (_ & _ & _ & _ & _ & _ & _ & _ & E). rewrite (E Hi) in *. apply Hfwd; [done|]. by apply (wi_handle _ _ H).
  - intros h i Hi. assert (i ≠ p) as Hip by (intros ->; by eapply Hgone). destruct (wi_find _ _ H h i (Hback _ _ Hi)) as (z & Hz & Hzh). exists (f i z).
    destruct (Hf i z) as (_ & _ & _ & _ & _ & _ & _ & _ & E). rewrite (E Hip). auto.
  - apply H.
  - intros i v Hv. destruct (Hlook i v Hv) as (z & Hz & ->). destruct (Hf i z) as (_ & _ & _ & -> & _). by apply (wi_entry _ _ H i).
  - intros i v Hv. destruct (Hlook i v Hv) as (z & Hz & ->). destruct (Hf i z) as (_ & -> & -> & _). by apply (wi_nodup _ _ H i).
  - intros i v c Hv. destruct (Hlook i v Hv) as (z & Hz & ->). destruct (Hf i z) as (_ & -> & _). rewrite (wi_children _ _ H i z c Hz). split.
    + intros (u & Hu & ? & ?). exists (f c u). destruct (Hf c u) as (-> & _ & _ & _ & -> & _). auto.
    + intros (u' & Hu' & ? & ?). destruct (Hlook c u' Hu') as (u & Hu & ->). destruct (Hf c u) as (E1 & _ & _ & _ & E2 & _). exists u. split_and!; congruence.
  - intros i v c Hv. destruct (Hlook i v Hv) as (z & Hz & ->). destruct (Hf i z) as (_ & _ & -> & _). rewrite (wi_unlinked _ _ H i z c Hz). split.
    + intros (u & Hu & ? & ?). exists (f c u). destruct (Hf c u) as (-> & _ & _ & _ & -> & _). auto.
    + intros (u' & Hu' & ? & ?). destruct (Hlook c u' Hu') as (u & Hu & ->). destruct (Hf c u) as (E1 & _ & _ & _ & E2 & _). exists u. split_and!; congruence.
  - intros i v Hv. destruct (Hlook i v Hv) as (z & Hz & ->). destruct (Hf i z) as (-> & _ & _ & _ & -> & _ & _ & _ & E). intros Hlz.
    rewrite E by (intros ->; congruence). by apply (wi_linked _ _ H i).
  - intros i v Hv. destruct (Hlook i v Hv) as (z & Hz & ->). destruct (Hf i z) as (_ & _ & _ & _ & _ & -> & _ & _ & E). destruct (decide (i = p)) as [->|Hi]; [congruence|].
    rewrite (E Hi). by apply (wi_orphan _ _ H i).
  - intros i v Hv. destruct (Hlook i v Hv) as (z & Hz & ->). destruct (Hf i z) as (_ & _ & _ & _ & _ & _ & _ & -> & E). destruct (wi_refs _ _ H i z Hz) as [? Er]. split; [done|].
    rewrite count_cons. destruct (decide (i = p)) as [->|Hi].
    + assert (z = x) as -> by congruence. rewrite Hfp, decide_True by done. cbn. rewrite (proj2 (Z.eqb_neq _ _)) in Er by done. lia.
    + rewrite (E Hi), decide_False by congruence. lia.
  - intros i. rewrite (wi_desktop _ _ H i). split.
    + intros (z & Hz & E). exists (f i z). destruct (Hf i z) as (-> & _). auto.
    + intros (v & Hv & E). destruct (Hlook i v Hv) as (z & Hz & ->). destruct (Hf i z) as (E1 & _). exists z. split; congruence.
  - intros i v Hv. destruct (Hlook i v Hv) as (z & Hz & ->). destruct (Hf i z) as (-> & _ & _ & _ & _ & _ & _ & _ & E). intros Hn.
    rewrite E by (intros ->; congruence). by apply (wi_root _ _ H i).
  - intros i v Hv. destruct (Hlook i v Hv) as (z & Hz & ->). destruct (Hf i z) as (_ & -> & _). eapply zsorted_ext; [intros c _; apply Htop|]. by apply (wi_zorder _ _ H i).
Qed.
Lemma kept_frame D s s' : kept s s' → table s' = table s → frame D s s'.
Proof.
  intros (? & Hf & Hb) Ht. split; [done|]. split; [intros i v Hv; destruct (Hb i v Hv) as (z & ? & _ & ?); eauto|]. split; [|by rewrite Ht].
  intros i z Hz Hh _. destruct (Hf i z Hz Hh) as (v & Hv & E). exists v. unfold core in E. injection E. auto.
Qed.

Lemma notify_ok extra s h : win_inv extra s → win_inv extra (notify h s).
Proof.
  intros H. apply (inv_change extra extra s _ (λ _ x, x) H); try done.
  - intros i. cbn. by destruct (windows s !! i).
  - intros i x Hx. split; [apply same_links_refl|]. destruct (wi_refs _ _ H i x Hx). lia.
Qed.

(** The windows that go with [p]: its linked children of the same thread, and theirs. *)
Definition same_thread (x y : window) : Prop := w_thread x = None ∨ w_thread y = None ∨ w_thread x = w_thread y.
Inductive doomed (s : state) (p : Z) : Z → Prop :=
  | doomed_refl : doomed s p p
  | doomed_child c q x y : doomed s p q → windows s !! q = Some x → windows s !! c = Some y → w_parent y = Some q → w_linked y = true → same_thread x y → doomed s p c.
Definition gone (s : state) (p : Z) : Prop := ∀ h, wh_find (table s) h ≠ Some p.
(** Destroying exactly the windows of [D]. *)
Definition destroyed (D : Z → Prop) (s s' : state) : Prop := frame D s s' ∧ ∀ i, D i → gone s' i.

Lemma gone_frame D s s' i : frame D s s' → gone s i → gone s' i.
Proof. intros (_ & _ & _ & Ht) Hg h Hh. by eapply Hg, Ht. Qed.

Lemma doomed_below s p i : doomed s p i → below (parents s) p i.
Proof. induction 1 as [|c q x y _ IH _ Hy Hq _ _]; [constructor|]. econstructor; [by rewrite (parents_lookup _ _ _ Hy), Hq|done]. Qed.

Lemma doomed_trans s a b c : doomed s a b → doomed s b c → doomed s a c.
Proof. intros Hab. induction 1; [done|]. by econstructor. Qed.

(** The first step down. *)
Lemma doomed_split s p i : doomed s p i → i = p ∨ ∃ c x y, windows s !! p = Some x ∧ windows s !! c = Some y ∧ w_parent y = Some p ∧ w_linked y = true ∧ same_thread x y ∧ doomed s c i.
Proof.
  induction 1 as [|c q x y Hpq [->|(d & x' & y' & ? & ? & ? & ? & ? & ?)] Hx Hy Hq Hl Ht]; [by left|right..].
  - exists c, x, y. split_and!; try done. constructor.
  - exists d, x', y'. split_and!; try done. by econstructor.
Qed.

(** A window with a handle was there before, and has not changed. *)
Lemma destroyed_back extra D s s' i v : win_inv extra s → win_inv extra s' → destroyed D s s' → windows s' !! i = Some v → w_handle v ≠ 0 →
  ∃ z, windows s !! i = Some z ∧ w_handle z ≠ 0 ∧ w_parent v = w_parent z ∧ w_linked v = w_linked z ∧ w_thread v = w_thread z.
Proof.
  intros H H' [(_ & _ & Hf & Ht) Hg] Hv Hh. pose proof (wi_handle _ _ H' i v Hv Hh) as Hi. destruct (wi_find _ _ H _ _ (Ht _ _ Hi)) as (z & Hz & Hzh).
  destruct (Hf i z Hz Hzh) as (v' & Hv' & ? & ? & ? & ?); [intros HD; by eapply Hg|]. exists z. simplify_eq. done.
Qed.

Lemma doomed_back extra D s s' c i : win_inv extra s → win_inv extra s' → destroyed D s s' → (∃ x, windows s' !! c = Some x ∧ w_handle x ≠ 0) → doomed s' c i → doomed s c i.
Proof.
  intros H H' Hd (x0 & Hx0 & Hh0) Hi. assert (doomed s c i ∧ ∃ x, windows s' !! i = Some x ∧ w_handle x ≠ 0) as [? _]; [|done].
  induction Hi as [|e q x y Hq [IH (x' & Hx' & Hxh)] Hx Hy Hp Hl Hst]; [split; [constructor|eauto]|]. assert (x' = x) as -> by congruence.
  destruct (wi_linked _ _ H' e y Hy Hl) as [Hyh _]. split; [|eauto].
  destruct (destroyed_back _ _ _ _ _ _ H H' Hd Hx Hxh) as (z & Hz & _ & _ & _ & Et). destruct (destroyed_back _ _ _ _ _ _ H H' Hd Hy Hyh) as (v & Hv & _ & Ep & El & Et').
  econstructor; [exact IH|exact Hz|exact Hv|congruence|congruence|]. unfold same_thread in *. by rewrite <-Et, <-Et'.
Qed.

Lemma doomed_forward extra D s s' c i : win_inv extra s → frame D s s' → (∀ j, doomed s c j → ¬ D j) → (∃ x, windows s !! c = Some x ∧ w_handle x ≠ 0) → doomed s c i → doomed s' c i.
Proof.
  intros H (_ & _ & Hf & _) Hno (x0 & Hx0 & Hh0) Hi. assert (doomed s' c i ∧ ∃ x, windows s !! i = Some x ∧ w_handle x ≠ 0) as [? _]; [|done].
  induction Hi as [|e q x y Hq [IH (x' & Hx' & Hxh)] Hx Hy Hp Hl Hst]; [split; [constructor|eauto]|]. assert (x' = x) as -> by congruence.
  destruct (wi_linked _ _ H e y Hy Hl) as [Hyh _]. split; [|eauto]. destruct (Hf q x Hx Hxh (Hno q Hq)) as (z & Hz & _ & _ & _ & Et).
  destruct (Hf e y Hy Hyh) as (v & Hv & Ep & _ & El & Et'); [apply Hno; by econstructor|].
  econstructor; [exact IH|exact Hz|exact Hv|congruence|congruence|]. unfold same_thread in *. by rewrite Et, Et'.
Qed.

(** The windows that go with the children [l] of [x]. *)
Definition with_children (s : state) (x : window) (l : list Z) (i : Z) : Prop := ∃ c y, c ∈ l ∧ windows s !! c = Some y ∧ same_thread x y ∧ doomed s c i.

Lemma with_children_doomed extra s p x i : win_inv extra s → windows s !! p = Some x → with_children s x (w_children x) i → doomed s p i.
Proof.
  intros H Hx (c & y & Hc & Hy & Ht & Hi). apply (wi_children _ _ H p x c Hx) in Hc as (y' & Hy' & Hp & Hl). simplify_eq.
  eapply doomed_trans; [|exact Hi]. econstructor; [constructor|done..].
Qed.

Lemma doomed_with_children extra s p x i : win_inv extra s → windows s !! p = Some x → doomed s p i → i = p ∨ with_children s x (w_children x) i.
Proof.
  intros H Hx [->|(c & x' & y & Hx' & Hy & Hp & Hl & Ht & Hi)]%doomed_split; [by left|right]. simplify_eq. exists c, y. split_and!; try done.
  apply (wi_children _ _ H p _ c Hx). eauto.
Qed.

(** The fuel covers the depth that is left. *)
Definition free_spec (extra : list Z) (n : nat) : Prop := ∀ p x d s w, win_inv extra s → windows s !! p = Some x → w_handle x ≠ 0 → w_parent x ≠ None →
  depth (parents s) p d → (size (windows s) ≤ d + n)%nat → wp (free_window n p) s w (λ _ s' _, win_inv extra s' ∧ destroyed (doomed s p) s s').

Lemma free_children_ok extra n l : free_spec extra n → ∀ p x d s w, win_inv extra s → windows s !! p = Some x → w_handle x ≠ 0 → depth (parents s) p d →
  (size (windows s) ≤ S d + n)%nat → NoDup l → (∀ c, c ∈ l → ∃ y, windows s !! c = Some y ∧ w_parent y = Some p ∧ w_handle y ≠ 0) →
  wp (free_children (free_window n) p l) s w (λ _ s' _, win_inv extra s' ∧ destroyed (with_children s x l) s s').
Proof.
  intros Hfree. induction l as [|c l IH]; intros p x d s w H Hx Hh Hd Hn Hnd Hl; cbn [free_children].
  { apply wp_ret. split; [done|]. split; [by apply frame_unchanged|]. by intros i (c & y & ?%not_elem_of_nil & _). }
  destruct (Hl c) as (y & Hy & Hyp & Hyh); [left|]. apply NoDup_cons in Hnd as [Hcl Hnd].
  rewrite wp_bind. eapply wp_read_window; [done|]. rewrite wp_bind. eapply wp_read_window; [done|]. rewrite (proj2 (Z.eqb_neq _ _)) by done.
  assert (Hc : parents s !! c = Some (Some p)) by (by rewrite (parents_lookup _ _ _ Hy), Hyp). assert (Hcd : depth (parents s) c (S d)) by (by econstructor).
  set (D := λ i, same_thread x y ∧ doomed s c i). assert (HDb : ∀ i, D i → below (parents s) c i) by (intros i [_ ?]; by apply doomed_below).
  rewrite wp_bind. eapply (wp_mono _ _ _ (λ _ s' _, win_inv extra s' ∧ destroyed D s s')).
  { case_bool_decide as Ht.
    - eapply wp_mono; [eapply Hfree; [done..|congruence|done|done]|]. intros [] s1 w1 [H1 [Hf Hg]]. split; [done|]. split; [|by intros i [_ ?]; auto].
      eapply frame_mono; [|exact Hf]. by split.
    - rewrite wp_modify. split; [by apply notify_ok|]. split; [by apply frame_unchanged|]. by intros i [? _]. }
  intros [] s1 w1 [H1 Hd1]. pose proof Hd1 as [Hf1 Hg1]. pose proof Hf1 as (Hsz & _ & Hfwd & _).
  destruct (Hfwd p x Hx Hh) as (x1 & Hx1 & _ & Eh & _ & Et); [intros HD; by eapply not_below_own_child, HDb|].
  assert (Hdis : ∀ c' y', c' ∈ l → windows s !! c' = Some y' → w_parent y' = Some p → ∀ j, below (parents s) c' j → ¬ D j).
  { intros c' y' Hc' Hy' Hyp' j Hj HD. assert (Hc2 : parents s !! c' = Some (Some p)) by (by rewrite (parents_lookup _ _ _ Hy'), Hyp').
    apply Hcl. replace c with c'; [done|]. destruct (below_linear _ _ _ _ Hj (HDb j HD)) as [Hb|Hb]; [|symmetry]; eapply (below_sibling (parents s) p); try done. by econstructor. }
  assert (Hl1 : ∀ c', c' ∈ l → ∃ y, windows s1 !! c' = Some y ∧ w_parent y = Some p ∧ w_handle y ≠ 0).
  { intros c' Hc'. destruct (Hl c') as (y' & Hy' & Hyp' & Hyh'); [by right|]. destruct (Hfwd c' y' Hy' Hyh') as (v & Hv & ? & ? & _); [|exists v; split_and!; congruence].
    eapply Hdis; [done..|constructor]. }
  eapply wp_mono; [eapply (IH p x1 d s1 w1 H1 Hx1)|]; try done; [congruence|by eapply depth_frame|lia|].
  intros [] s2 w2 [H2 [Hf2 Hg2]]. split; [done|]. split.
  - eapply frame_trans; [eapply frame_mono; [|exact Hf1]|eapply frame_mono; [|exact Hf2]].
    + intros i [Ht Hi]. exists c, y. split_and!; try done. left.
    + intros i (c' & y1 & Hc' & Hy1 & Ht & Hi). destruct (Hl1 c' Hc') as (y1' & E & _ & Hyh1). simplify_eq. destruct (destroyed_back _ _ _ _ _ _ H H1 Hd1 Hy1 Hyh1) as (z & Hz & _ & _ & _ & Et').
      exists c', z. split; [by right|]. split; [done|]. split; [unfold same_thread in *; by rewrite <-Et, <-Et'|]. exact (doomed_back extra D s s1 c' i H H1 Hd1 ltac:(eauto) Hi).
  - intros i (c' & y' & [->|Hc']%elem_of_cons & Hy' & Ht & Hi).
    + eapply gone_frame; [exact Hf2|]. apply Hg1. simplify_eq. by split.
    + destruct (Hl c') as (y2 & E & Hyp' & Hyh'); [by right|]. assert (y2 = y') as -> by congruence. apply Hg2. destruct (Hfwd c' y' Hy' Hyh') as (v & Hv & _ & _ & _ & Et'); [eapply Hdis; [done..|constructor]|].
      exists c', v. split; [done|]. split; [done|]. split; [unfold same_thread in *; by rewrite Et, Et'|]. apply (doomed_forward extra D s s1); [done|exact Hf1| |exists y'; done|done].
      intros j Hj. eapply Hdis; [done..|by apply doomed_below].
Qed.

Lemma wp_free_loop extra n p x d s w : free_spec extra n → win_inv extra s → windows s !! p = Some x → w_handle x ≠ 0 → depth (parents s) p d →
  (size (windows s) ≤ S d + n)%nat → wp (free_children (free_window n) p (w_children x)) s w (λ _ s' _, win_inv extra s' ∧ destroyed (with_children s x (w_children x)) s s').
Proof.
  intros Hfree H Hx Hh Hd Hn. eapply free_children_ok; [done..|exact (proj1 (wi_nodup _ _ H p x Hx))|].
  intros c Hc. apply (wi_children _ _ H p x c Hx) in Hc as (y & Hy & Hp & Hl). destruct (wi_linked _ _ H c y Hy Hl). eauto.
Qed.

Lemma unhandle_ok extra s w p x q : win_inv extra s → windows s !! p = Some x → w_handle x ≠ 0 → w_orphan x = true → w_linked x = false → w_parent x = Some q →
  wp (let* _ := on_table (wh_free (w_handle x)) in update p (set_handle 0) >> release_window p) s w (λ _ s' _, win_inv extra s' ∧ destroyed (λ i, i = p) s s').
Proof.
  intros H Hx Hh Ho Hl Hp. rewrite wp_bind. apply wp_on_table. eapply wh_free_ok; [apply H|by apply (wi_handle _ _ H)|]. intros r t Hwf Hgone Hback Hfwd.
  rewrite wp_bind. eapply wp_update_window; [exact Hx|]. eapply wp_mono; [eapply (release_window_ok extra p)|].
  - apply unhandle_inv; try done. congruence.
  - exists (set_handle 0 x). apply lookup_insert_eq.
  - intros [] s' w' (_ & Hinv & Hk & (Et & _)). split; [done|]. split; [|intros i ->; unfold gone; by rewrite Et].
    eapply frame_trans; [|by eapply kept_frame]. split; cbn; [by rewrite map_size_insert_Some|]. split; [|split; [|done]].
    + intros i v. rewrite lookup_insert. case_decide; [subst; intros [= <-]; by exists x|eauto].
    + intros i z Hz _ Hi. rewrite lookup_insert_ne by congruence. by exists z.
Qed.

Lemma free_window_ok extra n : free_spec extra n.
Proof.
  induction n as [|n IH]; intros p x d s w H Hx Hh Hp Hd Hn.
  { destruct (wi_depth _ _ _ _ H Hx) as (m & Hm & Hlt). rewrite (depth_unique _ _ _ Hd _ Hm) in Hn. lia. }
  cbn [free_window]. rewrite wp_bind. eapply wp_read_window; [done|]. rewrite wp_bind, wp_assert. split; [by apply negb_true_iff, Z.eqb_neq|].
  (* what the loops keep of [p] *)
  set (strict := λ i, doomed s p i ∧ i ≠ p).
  assert (Hnext : ∀ s1, win_inv extra s1 → frame strict s s1 → ∃ x1, windows s1 !! p = Some x1 ∧ w_handle x1 ≠ 0 ∧ w_parent x1 = w_parent x ∧ w_thread x1 = w_thread x ∧
    depth (parents s1) p d ∧ (size (windows s1) ≤ S d + n)%nat).
  { intros s1 H1 Hf. pose proof Hf as (Hsz & _ & Hfwd & _). destruct (Hfwd p x Hx Hh) as (x1 & Hx1 & E & E' & _ & E''); [by intros [_ ?]|]. exists x1.
    split; [done|]. split; [congruence|]. split; [done|]. split; [done|]. split; [by eapply depth_frame|lia]. }
  assert (Hloop : ∀ s1 x1, win_inv extra s1 → (∃ D, destroyed D s s1 ∧ ∀ i, D i → strict i) → windows s1 !! p = Some x1 → w_handle x1 ≠ 0 → ∀ i, with_children s1 x1 (w_children x1) i → strict i).
  { intros s1 x1 H1 (D & HD & _) Hx1 Hh1 i Hi. split; [eapply (doomed_back extra D s s1 p i); eauto; by eapply with_children_doomed|]. intros ->.
    destruct Hi as (c & y & Hc & Hy & _ & Hb%doomed_below). apply (wi_children _ _ H1 p x1 c Hx1) in Hc as (y' & Hy' & Hyp & _). assert (y' = y) as -> by congruence.
    destruct (wi_depth _ _ _ _ H1 Hy) as (m & Hm & _). eapply (not_below_own_child (parents s1) c p); [by rewrite (parents_lookup _ _ _ Hy), Hyp|done|done]. }
  rewrite wp_bind. eapply wp_is_visible; [done..|]. intros visible. rewrite wp_bind.
  eapply (wp_mono _ _ _ (λ _ s' _, win_inv extra s' ∧ destroyed (λ _, False) s s')).
  { destruct visible; cbn [when]; [|apply wp_ret; split; [done|]; split; [by apply frame_unchanged|done]]. eapply wp_update_window; [done|].
    split; [eapply inv_set; [done|done|by split_and!|done]|]. split; [|done]. eapply frame_update; try done. by right. }
  intros [] s1 w1 [H1 Hd1]. pose proof Hd1 as [Hf1 _]. assert (Hs1 : frame strict s s1) by (by eapply frame_mono; [|exact Hf1]).
  destruct (Hnext s1 H1 Hs1) as (x1 & Hx1 & Hh1 & _ & Et1 & Hdep1 & Hn1). rewrite wp_bind. eapply wp_read_window; [exact Hx1|].
  rewrite wp_bind. eapply wp_mono; [by eapply wp_free_loop|]. intros [] s2 w2 [H2 [Hf2 Hg2]].
  assert (HD1 : ∀ i, with_children s1 x1 (w_children x1) i → strict i) by (eapply Hloop; [done|exists (λ _, False); done|done|done]).
  assert (Hs2 : frame strict s s2) by (eapply frame_trans; [done|by eapply frame_mono]).
  assert (Hg : ∀ i, strict i → gone s2 i).
  { intros i [Hi Hip]. apply Hg2. assert (Hi1 : doomed s1 p i) by (apply (doomed_forward extra (λ _, False) s s1); [done|exact Hf1|by intros j _ []|by exists x|done]).
    by destruct (doomed_with_children _ _ _ _ _ H1 Hx1 Hi1). }
  clear Hf2 Hg2 HD1. destruct (Hnext s2 H2 Hs2) as (x2 & Hx2 & Hh2 & _ & _ & Hdep2 & Hn2). rewrite wp_bind. eapply wp_read_window; [exact Hx2|].
  rewrite wp_bind. eapply wp_mono; [by eapply wp_free_loop|]. intros [] s3 w3 [H3 [Hf3 _]].
  assert (HD2 : ∀ i, with_children s2 x2 (w_children x2) i → strict i) by (eapply Hloop; [done|exists strict; done|done|done]).
  assert (Hf3' : frame strict s2 s3) by (by eapply frame_mono). assert (Hs3 : frame strict s s3) by (by eapply frame_trans). assert (Hg3 : ∀ i, strict i → gone s3 i) by (intros i Hi; exact (gone_frame _ _ _ i Hf3' (Hg i Hi))). clear Hf3 Hf3' HD2 Hg.
  destruct (Hnext s3 H3 Hs3) as (x3 & Hx3 & Hh3 & Ep & _). rewrite wp_bind. eapply wp_read_window; [exact Hx3|].
  destruct (w_parent x) as [q|] eqn:Eq; [|done]. assert (Edesk : is_desktop x3 = false) by (unfold is_desktop; rewrite Ep; by apply bool_decide_eq_false).
  rewrite Edesk. rewrite wp_bind. apply wp_ret. rewrite wp_bind. eapply wp_update_window; [exact Hx3|]. cbn [negb when].
  assert (H4 : win_inv extra (on_windows (<[p := set_thread None x3]>) s3)) by (eapply inv_set; [done|done|by split_and!|done]).
  assert (Hf4 : frame (λ i, i = p) s3 (on_windows (<[p := set_thread None x3]>) s3)) by (eapply frame_update; try done; by left).
  rewrite wp_bind, wp_bind. eapply wp_mono; [eapply (unlink_ok extra _ _ p (set_thread None x3) q H4); [apply lookup_insert_eq|exact Ep]|].
  intros b s5 w5 (H5 & _ & Hf5 & y & Hy & Hyp & Hyh & Hyl & Hyo). cbn [w_handle set_thread] in Hyh. apply wp_ret. rewrite wp_bind. eapply wp_read_window; [exact Hy|].
  eapply wp_mono; [eapply unhandle_ok; try done; congruence|]. intros [] s6 w6 [H6 [Hf6 Hg6]]. split; [done|].
  assert (Hend : frame (λ i, i = p) s3 s6) by (eapply frame_trans; [exact Hf4|by eapply frame_trans]). split.
  - eapply frame_trans; [eapply frame_mono; [|exact Hs3]; by intros i [? _]|]. eapply frame_mono; [|exact Hend]. intros i ->. constructor.
  - intros i Hi. destruct (decide (i = p)) as [->|Hip]; [by apply Hg6|]. eapply gone_frame; [exact Hend|]. apply Hg3. by split.
Qed.

Lemma free_window_handle_ok extra s w p x : win_inv extra s → windows s !! p = Some x → w_handle x ≠ 0 → w_parent x ≠ None →
  wp (free_window_handle p) s w (λ _ s' _, win_inv extra s' ∧ destroyed (doomed s p) s s').
Proof.
  intros H Hx Hh Hp. unfold free_window_handle. rewrite wp_bind, wp_get. destruct (wi_depth _ _ _ _ H Hx) as (d & Hd & _). eapply free_window_ok; [done..|lia].
Qed.

(** ** Creating windows *)

Lemma counted_none P p : (∀ q, P !! q ≠ Some (Some p)) → counted P p = 0.
Proof.
  intros H. unfold counted. assert (filter (λ kv : Z * option Z, kv.2 = Some p) P = ∅) as ->; [|done]. apply map_empty. intros q. apply map_lookup_filter_None. right. intros r Hq E. cbn in E. subst. by eapply H.
Qed.

Lemma depth_insert P p r q n : depth P q n → P !! p = None → depth (<[p := r]> P) q n.
Proof.
  intros Hq Hp. induction Hq as [q Hq|q q' n Hq _ IH]; assert (p ≠ q) by (intros ->; congruence).
  - constructor. by rewrite lookup_insert_ne.
  - econstructor; [by rewrite lookup_insert_ne|done].
Qed.

Lemma table_inv extra s t : win_inv extra s → wh_wf t → (∀ h p, wh_find t h = Some p ↔ wh_find (table s) h = Some p) → win_inv extra (set_table t s).
Proof.
  intros H Hwf Ht. destruct H. split; try done.
  - intros p x Hx Hh. apply Ht. by eapply wi_handle0.
  - intros h p Hp. by eapply wi_find0, Ht.
Qed.

Definition adopt (p : Z) (parent : option Z) (i : Z) (z : window) : window :=
  if decide (parent = Some i) then set_lists (w_children z) (p :: w_unlinked z) (set_refs (w_refcount z + 1) z) else z.

Lemma created_inv s s' p parent owner tid h : win_inv [] s → windows s !! p = None → (∀ q, parent = Some q → is_Some (windows s !! q)) →
  windows s' !! p = Some (set_entry (set_handle h (new_window parent owner tid))) →
  (∀ i, i ≠ p → windows s' !! i = adopt p parent i <$> windows s !! i) →
  (∀ i, top_window s' = Some i ∨ msg_window s' = Some i ↔ (top_window s = Some i ∨ msg_window s = Some i) ∨ (parent = None ∧ i = p)) →
  wh_wf (table s') → h ≠ 0 → wh_find (table s') h = Some p → (∀ h' q, wh_find (table s) h' = Some q → wh_find (table s') h' = Some q) →
  (∀ h' q, wh_find (table s') h' = Some q → q = p ∨ wh_find (table s) h' = Some q) → win_inv [] s'.
Proof.
  intros H Hnew Hpar Hp Hother Hdesk Hwf Hh Hfind Hkeep Hback.
  assert (Hf : ∀ i z, w_parent (adopt p parent i z) = w_parent z ∧ w_children (adopt p parent i z) = w_children z ∧
    w_unlinked (adopt p parent i z) = (if decide (parent = Some i) then [p] else []) ++ w_unlinked z ∧ w_entry (adopt p parent i z) = w_entry z ∧
    w_handle (adopt p parent i z) = w_handle z ∧ w_linked (adopt p parent i z) = w_linked z ∧ w_orphan (adopt p parent i z) = w_orphan z ∧
    topmost (adopt p parent i z) = topmost z ∧ w_refcount (adopt p parent i z) = w_refcount z + (if decide (parent = Some i) then 1 else 0)).
  { intros i z. unfold adopt. destruct (decide (parent = Some i)); split_and!; try done. lia. }
  assert (Hold : ∀ i v, windows s' !! i = Some v → i ≠ p → ∃ z, windows s !! i = Some z ∧ v = adopt p parent i z).
  { intros i v Hv Hi. rewrite (Hother i Hi) in Hv. apply fmap_Some in Hv as (z & Hz & ->). eauto. }
  assert (Hput : ∀ i z, windows s !! i = Some z → i ≠ p ∧ windows s' !! i = Some (adopt p parent i z)).
  { intros i z Hz. assert (i ≠ p) as Hi by congruence. split; [done|]. by rewrite (Hother i Hi), Hz. }
  assert (Hps : parents s' = <[p := parent]> (parents s)).
  { apply map_eq. intros i. unfold parents. rewrite lookup_insert, !lookup_fmap. case_decide as Hi; [subst; by rewrite Hp|]. rewrite Hother by congruence.
    destruct (windows s !! i) as [z|]; [|done]. cbn. by rewrite (proj1 (Hf i z)). }
  assert (Hpn : parents s !! p = None) by (unfold parents; by rewrite lookup_fmap, Hnew).
  assert (Hzero : counted (parents s) p = 0).
  { apply counted_none. intros q Hq. destruct (parents_some _ _ _ Hq) as (z & Hz & Ez). destruct (parent_exists _ _ _ _ _ H Hz Ez). congruence. }
  set (x := set_entry (set_handle h (new_window parent owner tid))) in *.
  assert (Hnochild : ∀ i z, windows s !! i = Some z → p ∉ w_children z ∧ p ∉ w_unlinked z).
  { intros i z Hz. split; intros Hin; [apply (wi_children _ _ H i z p Hz) in Hin|apply (wi_unlinked _ _ H i z p Hz) in Hin]; destruct Hin as (? & ? & _); congruence. }
  assert (Hself : parent ≠ Some p) by (intros E; destruct (Hpar p E); congruence).
  split; rewrite ?Hps.
  - done.
  - intros i v Hv Hvh. destruct (decide (i = p)) as [->|Hi]; [by simplify_eq|]. destruct (Hold i v Hv Hi) as (z & Hz & ->).
    destruct (Hf i z) as (_ & _ & _ & _ & E & _). rewrite E in *. by apply Hkeep, (wi_handle _ _ H).
  - intros h' i Hi. destruct (decide (i = p)) as [->|Hip]; [by exists x|]. destruct (Hback h' i Hi) as [|Hi']; [done|].
    destruct (wi_find _ _ H h' i Hi') as (z & Hz & Hzh). destruct (Hput i z Hz) as [_ Hv]. eexists. split; [exact Hv|]. destruct (Hf i z) as (_ & _ & _ & _ & -> & _). done.
  - intros i Hi. rewrite lookup_insert in Hi. destruct (decide (p = i)) as [<-|Hip].
    + destruct parent as [q|] eqn:Eq; [|exists O; constructor; apply lookup_insert_eq]. destruct (Hpar q eq_refl) as [z Hz]. destruct (wi_depth _ _ _ _ H Hz) as (n & Hn & _).
      exists (S n). econstructor; [apply lookup_insert_eq|]. by apply depth_insert.
    + destruct (wi_tree _ _ H i Hi) as [n Hn]. exists n. by apply depth_insert.
  - intros i v Hv. destruct (decide (i = p)) as [->|Hi]; [by simplify_eq|]. destruct (Hold i v Hv Hi) as (z & Hz & ->). destruct (Hf i z) as (_ & _ & _ & -> & _). by apply (wi_entry _ _ H i).
  - intros i v Hv. destruct (decide (i = p)) as [->|Hi]; [simplify_eq; split; constructor|]. destruct (Hold i v Hv Hi) as (z & Hz & ->). destruct (Hf i z) as (_ & -> & -> & _).
    destruct (wi_nodup _ _ H i z Hz). split; [done|]. case_decide; [|done]. constructor; [|done]. by apply (Hnochild i z).
  - intros i v c Hv. destruct (decide (i = p)) as [->|Hi].
    + simplify_eq. split; [by intros ?%not_elem_of_nil|]. intros (u & Hu & Ep & El). destruct (decide (c = p)) as [->|Hc]; [by simplify_eq|]. destruct (Hold c u Hu Hc) as (z & Hz & ->).
      destruct (Hf c z) as (E & _). exfalso. apply (counted_zero _ _ c Hzero). rewrite (parents_lookup _ _ _ Hz). congruence.
    + destruct (Hold i v Hv Hi) as (z & Hz & ->). destruct (Hf i z) as (_ & -> & _). rewrite (wi_children _ _ H i z c Hz). split.
      * intros (u & Hu & ? & ?). destruct (Hput c u Hu) as [_ Hu']. eexists. split; [exact Hu'|]. destruct (Hf c u) as (-> & _ & _ & _ & _ & -> & _). done.
      * intros (u' & Hu' & ? & ?). destruct (decide (c = p)) as [->|Hc]; [by simplify_eq|]. destruct (Hold c u' Hu' Hc) as (u & Hu & ->).
        destruct (Hf c u) as (E1 & _ & _ & _ & _ & E2 & _). exists u. split_and!; congruence.
  - intros i v c Hv. destruct (decide (i = p)) as [->|Hi].
    + simplify_eq. split; [by intros ?%not_elem_of_nil|]. intros (u & Hu & Ep & El). destruct (decide (c = p)) as [->|Hc]; [by simplify_eq|]. destruct (Hold c u Hu Hc) as (z & Hz & ->).
      destruct (Hf c z) as (E & _). exfalso. apply (counted_zero _ _ c Hzero). rewrite (parents_lookup _ _ _ Hz). congruence.
    + destruct (Hold i v Hv Hi) as (z & Hz & ->). destruct (Hf i z) as (_ & _ & -> & _). rewrite elem_of_app, (wi_unlinked _ _ H i z c Hz). split.
      * intros [Hc|(u & Hu & ? & ?)].
        -- case_decide; [|by apply not_elem_of_nil in Hc]. apply list_elem_of_singleton in Hc as ->. by exists x.
        -- destruct (Hput c u Hu) as [_ Hu']. eexists. split; [exact Hu'|]. destruct (Hf c u) as (-> & _ & _ & _ & _ & -> & _). done.
      * intros (u' & Hu' & Ep & El). destruct (decide (c = p)) as [->|Hc]; [left; simplify_eq; cbn in Ep; rewrite decide_True by done; left|right]. destruct (Hold c u' Hu' Hc) as (u & Hu & ->).
        destruct (Hf c u) as (E1 & _ & _ & _ & _ & E2 & _). exists u. split_and!; congruence.
  - intros i v Hv. destruct (decide (i = p)) as [->|Hi]; [by simplify_eq|]. destruct (Hold i v Hv Hi) as (z & Hz & ->). destruct (Hf i z) as (-> & _ & _ & _ & -> & -> & _). by apply (wi_linked _ _ H i).
  - intros i v Hv. destruct (decide (i = p)) as [->|Hi]; [by simplify_eq|]. destruct (Hold i v Hv Hi) as (z & Hz & ->). destruct (Hf i z) as (_ & _ & _ & _ & -> & _ & -> & _). by apply (wi_orphan _ _ H i).
  - intros i v Hv. rewrite counted_insert by done. destruct (decide (i = p)) as [->|Hi].
    + simplify_eq. rewrite Hzero, decide_False by done. cbn. by rewrite (proj2 (Z.eqb_neq _ _)).
    + destruct (Hold i v Hv Hi) as (z & Hz & ->). destruct (Hf i z) as (_ & _ & _ & _ & -> & _ & _ & _ & ->). destruct (wi_refs _ _ H i z Hz). case_decide; lia.
  - intros i. rewrite Hdesk, (wi_desktop _ _ H i). split.
    + intros [(z & Hz & E)|[-> ->]]; [|by exists x]. destruct (Hput i z Hz) as [_ Hv]. eexists. split; [exact Hv|]. by destruct (Hf i z) as (-> & _).
    + intros (v & Hv & E). destruct (decide (i = p)) as [->|Hi]; [right; by simplify_eq|left]. destruct (Hold i v Hv Hi) as (z & Hz & ->). destruct (Hf i z) as (E1 & _). exists z. split; congruence.
  - intros i v Hv. destruct (decide (i = p)) as [->|Hi]; [by simplify_eq|]. destruct (Hold i v Hv Hi) as (z & Hz & ->). destruct (Hf i z) as (-> & _ & _ & _ & -> & _). by apply (wi_root _ _ H i).
  - intros i v Hv. destruct (decide (i = p)) as [->|Hi]; [simplify_eq; constructor|]. destruct (Hold i v Hv Hi) as (z & Hz & ->). destruct (Hf i z) as (_ & -> & _).
    eapply zsorted_ext; [|by apply (wi_zorder _ _ H i)]. intros c Hc. apply (wi_children _ _ H i z c Hz) in Hc as (u & Hu & _). unfold is_top. destruct (Hput c u Hu) as [_ ->]. rewrite Hu. cbn. apply Hf.
Qed.
(** Creation does not fail half-way, but for a window without parent. *)
Definition roots (s : state) (parent : option Z) (class : class_kind) : bool :=
  bool_decide (parent = None ∧ (class = desktop_class ∧ top_window s = None ∨ class = message_class ∧ msg_window s = None)).
Definition create_allowed (s : state) (w : world) (parent : option Z) (class : option class_kind) (queue : bool) : Prop :=
  match class with
  | None => True
  | Some c =>
      wh_room (table s) ∧ fits s ∧ (roots s parent c = false → w_mem w = [] ∧ queue = true) ∧
      (c = message_class → parent = None → msg_window s = None ∨ top_window s ≠ None)
  end.

Lemma find_fresh extra s p : win_inv extra s → windows s !! p = None → ∀ h, wh_find (table s) h ≠ Some p.
Proof. intros H Hp h Hh. destruct (wi_find _ _ H h p Hh) as (x & Hx & _). congruence. Qed.

Definition created (s : state) (r : option Z) (s' : state) : Prop :=
  win_inv [] s' ∧ ∀ p, r = Some p → ∃ x, windows s' !! p = Some x ∧ w_linked x = false ∧ w_handle x ≠ 0.

(** The part of [create_window] after the choice of the parent. *)
Lemma new_child_ok s w p q y owner tid pid l extra_bytes (class : class_kind) : win_inv [] s → fits s → wh_room (table s) → w_mem w = [] →
  windows s !! p = None → windows s !! q = Some y →
  wp (grab_window q >> modify (on_windows (<[p := new_window (Some q) owner tid]>)) >>
      let* ok := mem_alloc in
      if negb ok then create_failed p else
      let* ok := (if truth extra_bytes then mem_alloc else ret true) in
      if negb ok then create_failed p else
      let* h := on_table (wh_alloc tid pid p l) in
      update p (set_handle h) >>
      if negb (truth h) || negb true then create_failed p else
      update p set_entry >> update q (λ y, set_lists (w_children y) (p :: w_unlinked y) y) >> ret (Some p)) s w
    (λ r s' _, created s r s').
Proof.
  intros H Hfits Hroom Hmem Hp Hy. assert (Hpq : p ≠ q) by congruence. pose proof (Hfits q y Hy).
  rewrite wp_bind. unfold grab_window. rewrite wp_bind. eapply wp_read_window; [exact Hy|]. rewrite wp_bind, wp_assert. split; [by apply Z.ltb_lt|].
  eapply wp_update_window; [exact Hy|]. rewrite wp_bind, wp_modify. set (x := new_window (Some q) owner tid). set (s1 := on_windows _ (on_windows _ s)).
  rewrite wp_bind. apply wp_mem_alloc; [|by intros]. intros w1 _ Hw1. rewrite (Hw1 Hmem) in *. clear Hw1. cbn [negb].
  rewrite wp_bind. assert (Halloc : ∀ Q : bool → state → world → Prop, Q true s1 w → wp (if truth extra_bytes then mem_alloc else ret true) s1 w Q).
  { intros Q HQ. destruct (truth extra_bytes); [|by apply wp_ret]. apply wp_mem_alloc; [|by intros]. intros w2 _ Hw2. by rewrite (Hw2 Hmem). }
  apply Halloc. cbn [negb]. rewrite wp_bind. apply wp_on_table, wh_alloc_ok; [apply H|done|by apply (find_fresh [] s)|]. intros h t Hwf Hh Hfind Hkeep Hback.
  assert (Hx1 : windows s1 !! p = Some x) by apply lookup_insert_eq.
  assert (Hy1 : windows s1 !! q = Some (set_refs (w_refcount y + 1) y)) by (unfold s1; cbn; rewrite lookup_insert_ne by done; apply lookup_insert_eq).
  rewrite wp_bind. eapply wp_update_window; [exact Hx1|]. replace (truth h) with true by (symmetry; by apply negb_true_iff, Z.eqb_neq). cbn [negb orb].
  rewrite wp_bind. eapply wp_update_window; [cbn; apply lookup_insert_eq|]. rewrite wp_bind. eapply wp_update_window; [cbn; rewrite !(lookup_insert_ne _ p) by done; apply lookup_insert_eq|].
  apply wp_ret. split.
  - eapply (created_inv s _ p (Some q) owner tid h H Hp); try done.
    + intros ? [= <-]. by exists y.
    + cbn. rewrite lookup_insert_ne, lookup_insert_eq by done. done.
    + intros i Hi. cbn. rewrite !lookup_insert. rewrite !(decide_False (P := p = i)) by congruence. unfold adopt. destruct (decide (q = i)) as [<-|Hqi].
      * rewrite Hy. cbn. by rewrite (decide_True (P := Some q = Some q)).
      * destruct (windows s !! i); [|done]. cbn. by rewrite (decide_False (P := Some q = Some i)) by congruence.
    + intros i. cbn. split; [by left|]. by intros [?|[? _]].
  - intros ? [= <-]. eexists. split; [cbn; rewrite lookup_insert_ne, lookup_insert_eq by done; done|]. done.
Qed.

Lemma new_root_ok s w p owner tid pid l extra_bytes (class : class_kind) queue : win_inv [] s → wh_room (table s) →
  windows s !! p = None → (class = desktop_class ∧ top_window s = None ∨ class = message_class ∧ msg_window s = None) →
  wp (modify (on_windows (<[p := new_window None owner tid]>)) >>
      let* ok := mem_alloc in
      if negb ok then create_failed p else
      let* ok := (if truth extra_bytes then mem_alloc else ret true) in
      if negb ok then create_failed p else
      let* h := on_table (wh_alloc tid pid p l) in
      update p (set_handle h) >>
      if negb (truth h) || negb queue then create_failed p else
      update p set_entry >>
      (let* s := get in
       match class with
       | desktop_class => c_assert (bool_decide (top_window s = None)) >> modify (set_top (Some p))
       | _ => c_assert (bool_decide (msg_window s = None)) >> modify (set_msg (Some p))
       end) >> ret (Some p)) s w
    (λ r s' _, created s r s').
Proof.
  intros H Hroom Hp Hclass. rewrite wp_bind, wp_modify. set (x := new_window None owner tid). set (s1 := on_windows _ s).
  assert (Hx1 : windows s1 !! p = Some x) by apply lookup_insert_eq.
  assert (Hundo : ∀ v, delete p (<[p := v]> (windows s)) = windows s) by (intros v; by rewrite delete_insert_eq, delete_id).
  assert (Hfail : ∀ w, wp (create_failed p) s1 w (λ r s' _, created s r s')).
  { intros w'. unfold create_failed. rewrite wp_bind. eapply wp_read_window; [exact Hx1|]. cbn [w_handle x new_window truth Z.eqb negb when]. rewrite wp_bind. apply wp_ret.
    rewrite wp_bind. unfold release_window. rewrite wp_bind, wp_get. cbn [release_loop]. rewrite wp_bind. eapply wp_read_window; [exact Hx1|]. rewrite wp_bind, wp_assert. split; [done|].
    rewrite wp_bind. eapply wp_update_window; [exact Hx1|]. change (w_refcount x - 1 =? 0) with true. cbn iota. rewrite wp_bind, wp_assert. split; [done|]. change (w_parent x) with (@None Z). cbn iota.
    rewrite wp_modify. apply wp_ret. replace (on_windows _ _) with s; [by split|]. destruct s. unfold s1, on_windows. cbn in *. by rewrite insert_insert_eq, Hundo. }
  rewrite wp_bind. apply wp_mem_alloc; [|intros w1 _ _; apply Hfail]. intros w1 _ _. cbn [negb].
  rewrite wp_bind. assert (Halloc : ∀ Q : bool → state → world → Prop, (∀ ok w, Q ok s1 w) → wp (if truth extra_bytes then mem_alloc else ret true) s1 w1 Q).
  { intros Q HQ. destruct (truth extra_bytes); [|by apply wp_ret]. apply wp_mem_alloc; auto. }
  apply Halloc. intros [] w2; cbn [negb]; [|apply Hfail]. clear Halloc.
  rewrite wp_bind. apply wp_on_table, wh_alloc_ok; [apply H|done|by apply (find_fresh [] s)|]. intros h t Hwf Hh Hfind Hkeep Hback.
  rewrite wp_bind. eapply wp_update_window; [exact Hx1|]. replace (truth h) with true by (symmetry; by apply negb_true_iff, Z.eqb_neq). cbn [negb orb].
  destruct queue; cbn [negb].
  - rewrite wp_bind. eapply wp_update_window; [cbn; apply lookup_insert_eq|]. rewrite wp_bind, wp_bind, wp_get.
    assert (Hend : ∀ s', windows s' = <[p := set_entry (set_handle h x)]> (windows s) → table s' = t →
      (∀ i, top_window s' = Some i ∨ msg_window s' = Some i ↔ (top_window s = Some i ∨ msg_window s = Some i) ∨ (@None Z = None ∧ i = p)) → created s (Some p) s').
    { intros s' Ew <- Hd. split; [|intros ? [= <-]; eexists; split; [rewrite Ew; apply lookup_insert_eq|done]].
      eapply (created_inv s s' p None owner tid h H Hp); try done; [by rewrite Ew, lookup_insert_eq|]. intros i Hi. rewrite Ew, lookup_insert_ne by done. by destruct (windows s !! i). }
    assert (Hwin : ∀ a b c, <[p := a]> (<[p := b]> (<[p := c]> (windows s))) = <[p := a]> (windows s)) by (intros; by rewrite !insert_insert_eq).
    destruct Hclass as [[-> Htop]|[-> Hmsg]].
    + rewrite wp_bind, wp_assert. split; [by apply bool_decide_eq_true|]. rewrite wp_modify. apply wp_ret, Hend; [cbn; apply Hwin|done|].
      intros i. cbn. rewrite Htop. split; [intros [[= <-]|?]; auto|intros [[?|?]|[_ ->]]; auto; done].
    + rewrite wp_bind, wp_assert. split; [by apply bool_decide_eq_true|]. rewrite wp_modify. apply wp_ret, Hend; [cbn; apply Hwin|done|].
      intros i. cbn. rewrite Hmsg. split; [intros [?|[= <-]]; auto|intros [[?|?]|[_ ->]]; auto; done].
  - unfold create_failed. rewrite wp_bind. eapply wp_read_window; [cbn; apply lookup_insert_eq|]. cbn [w_handle set_handle].
    replace (truth h) with true by (symmetry; by apply negb_true_iff, Z.eqb_neq). cbn [when]. rewrite wp_bind, wp_bind. apply wp_on_table. cbn [table on_windows set_table].
    eapply wh_free_ok; [exact Hwf|exact Hfind|]. intros r t' Hwf' Hgone' Hback' Hkeep'. eapply wp_update_window; [cbn; apply lookup_insert_eq|].
    rewrite wp_bind. unfold release_window. rewrite wp_bind, wp_get. cbn [release_loop]. rewrite wp_bind. eapply wp_read_window; [cbn; apply lookup_insert_eq|].
    rewrite wp_bind, wp_assert. split; [done|]. rewrite wp_bind. eapply wp_update_window; [cbn; apply lookup_insert_eq|]. change (w_refcount _ - 1 =? 0) with true. cbn iota.
    rewrite wp_bind, wp_assert. split; [done|]. change (w_parent _) with (@None Z). cbn iota. rewrite wp_modify. apply wp_ret. split; [|done].
    match goal with |- win_inv _ ?s2 => replace s2 with (set_table t' s) end.
    + apply table_inv; [done|done|]. intros h' i. split.
      * intros Hi. destruct (Hback h' i (Hback' _ _ Hi)) as [->|?]; [by destruct (Hgone' h')|done].
      * intros Hi. apply Hkeep'; [|by apply Hkeep]. intros ->. by eapply (find_fresh _ _ _ H Hp).
    + unfold on_windows, set_table. cbn. f_equal. by rewrite !insert_insert_eq, Hundo.
Qed.
Lemma create_window_ok s w parent owner class extra_bytes tid pid l queue : win_inv [] s → (∀ q, parent = Some q → is_Some (windows s !! q)) →
  create_allowed s w parent class queue → wp (create_window parent owner class extra_bytes tid pid l queue) s w (λ r s' _, created s r s').
Proof.
  intros H Hq Hall. unfold create_window. destruct class as [class|]; [|rewrite wp_bind, wp_set_error; apply wp_ret; by split].
  destruct Hall as (Hroom & Hfits & Hmem & Hmsg). pose proof (new_key_fresh (windows s)) as Hnew.
  assert (Htop : ∀ q, top_window s = Some q → is_Some (windows s !! q)).
  { intros q E. destruct (proj1 (wi_desktop _ _ H q)) as (x & Hx & _); eauto. }
  rewrite wp_bind, wp_get. rewrite wp_bind.
  match goal with |- wp _ _ _ (λ a s' w', wp (@?f a) s' w' _) => set (k := f) end.
  assert (Hnone : ∀ e, wp (set_error e >> ret (@None (option Z))) s w (λ r s' w', wp (k r) s' w' (λ r s' _, created s r s'))).
  { intros e. rewrite wp_bind, wp_set_error. apply wp_ret. unfold k. apply wp_ret. by split. }
  assert (Hsome : ∀ q, is_Some (windows s !! q) → w_mem w = [] → queue = true → wp (k (Some (Some q))) s w (λ r s' _, created s r s')).
  { intros q [y Hy] Hw ->. unfold k. rewrite wp_bind. apply wp_mem_alloc; [|by intros]. intros w' _ Hw'. rewrite (Hw' Hw). cbn [negb]. rewrite wp_bind, wp_get. cbn zeta.
    by eapply (new_child_ok s w _ q y owner tid pid l extra_bytes class). }
  assert (Hroot : class = desktop_class ∧ top_window s = None ∨ class = message_class ∧ msg_window s = None → wp (k (Some None)) s w (λ r s' _, created s r s')).
  { intros Hc. unfold k. rewrite wp_bind. apply wp_mem_alloc; [|intros w' _ _; cbn [negb]; apply wp_ret; by split]. intros w' _ _. cbn [negb]. rewrite wp_bind, wp_get. cbn zeta.
    rewrite wp_bind. apply wp_ret. by eapply new_root_ok. }
  destruct parent as [q|]; cbn [roots] in *.
  { destruct Hmem; [apply bool_decide_eq_false_2; by intros [? _]|]. apply wp_ret, Hsome; auto. }
  assert (Hroots : ¬ (class = desktop_class ∧ top_window s = None ∨ class = message_class ∧ msg_window s = None) → w_mem w = [] ∧ queue = true).
  { intros Hn. apply Hmem, bool_decide_eq_false_2. by intros [_ ?]. }
  destruct class.
  - apply wp_ret. destruct (top_window s) as [q|] eqn:E; [|auto]. destruct Hroots; [naive_solver|]. apply Hsome; auto.
  - apply wp_ret. destruct (msg_window s) as [m|] eqn:E.
    + rewrite bool_decide_eq_true_2 by eauto. destruct (top_window s) as [q|] eqn:E'; [|by destruct Hmsg]. destruct Hroots; [naive_solver|]. apply Hsome; auto.
    + rewrite bool_decide_eq_false_2 by (by intros [? ?]). auto.
  - destruct (top_window s) as [q|] eqn:E; [|apply Hnone]. destruct Hroots; [naive_solver|]. apply wp_ret, Hsome; auto.
Qed.

Lemma relinked_here_ok extra s w p x q previous : win_inv extra s → windows s !! p = Some x → w_handle x ≠ 0 → w_parent x = Some q → place_ok s p q previous →
  wp (link_window p previous) s w (λ _ s' _, win_inv extra s' ∧ ∃ v, windows s' !! p = Some v).
Proof.
  intros H Hx Hh Hq Hplace. destruct (parent_exists _ _ _ _ _ H Hx Hq) as [y Hy]. destruct (wi_depth _ _ _ _ H Hx) as (m & Hm & _).
  eapply wp_mono; [eapply (link_ok extra s s p q x y q previous); try done; [|by left|]|].
  3: { intros [] s' w' (_ & ? & _ & Hf). split; [done|]. destruct (Hf p x Hx) as (v & ? & _). eauto. }
  - eapply not_below_own_child; [by rewrite (parents_lookup _ _ _ Hx), Hq|done].
  - intros i. destruct (windows s !! i) as [z|] eqn:Hz; [|done]. cbn. f_equal. destruct (decide (i = p)) as [->|].
    + assert (z = x) as -> by congruence. destruct x. unfold set_refs, set_parent. cbn in *. subst. f_equal. lia.
    + destruct z. unfold set_refs. cbn. f_equal. lia.
Qed.
(** ** Requests *)

Lemma wp_owner_loop n extra s w p x d (Q : Z → state → world → Prop) : win_inv extra s → windows s !! p = Some x → w_parent x ≠ None → depth (parents s) p d → (d < n)%nat →
  (∀ o y, windows s !! o = Some y → Q o s w) → wp (owner_loop n p) s w Q.
Proof.
  intros H. revert p x d. induction n as [|n IH]; intros p x d Hx Hp Hd Hn HQ; [lia|]. cbn [owner_loop]. rewrite wp_bind. eapply wp_read_window; [done|].
  destruct (negb _); [by eapply wp_ret, HQ|]. destruct (w_parent x) as [q|] eqn:Eq; [|done]. rewrite wp_bind. apply wp_ret. destruct (parent_exists _ _ _ _ _ H Hx Eq) as [y Hy].
  rewrite wp_bind. eapply wp_read_window; [done|]. destruct (is_desktop y) eqn:Ed; [by eapply wp_ret, HQ|]. apply bool_decide_eq_false_1 in Ed.
  inversion Hd as [? E|? r m E Hm]; subst; rewrite (parents_lookup _ _ _ Hx), Eq in E; [done|]. injection E as <-. eapply IH; [exact Hy|done|exact Hm|lia|done].
Qed.

Lemma wp_find_owner s w parent owner (Q : option Z → state → world → Prop) : win_inv [] s → (∀ q, parent = Some q → is_Some (windows s !! q)) →
  (∀ o, Q (Some o) s w) → (∀ w', Q None s w') → wp (find_owner parent owner) s w Q.
Proof.
  intros H Hq Hsome Hnone. unfold find_owner. destruct (owner =? 0); [by apply wp_ret|]. rewrite wp_bind. eapply wp_get_window; [done| |intros w' _; by apply wp_ret].
  intros o x _ Hx _. rewrite wp_bind. eapply wp_read_window; [done|]. destruct (is_desktop x) eqn:Ed; [by apply wp_ret|]. apply bool_decide_eq_false_1 in Ed.
  rewrite wp_bind. match goal with |- wp _ _ _ (λ a s' w', wp (@?f a) s' w' _) => set (k := f) end.
  assert (Hk : ∀ b, wp (k b) s w Q).
  { intros []; unfold k; cbn [negb]; [|rewrite wp_bind, wp_set_error; by apply wp_ret]. destruct (wi_depth _ _ _ _ H Hx) as (d & Hd & Hlt). rewrite wp_bind. apply wp_up.
    eapply wp_owner_loop; [done..|lia|]. intros o' y Hy. rewrite wp_bind. eapply wp_read_window; [done|]. by apply wp_ret. }
  destruct parent as [q|]; [|apply wp_ret, Hk]. destruct (Hq q eq_refl) as [y Hy]. rewrite wp_bind. eapply wp_read_window; [done|]. apply wp_ret, Hk.
Qed.

Lemma req_create_window_ok s w parent owner class extra_bytes style ex_style tid pid l queue : win_inv [] s →
  create_allowed s w (if parent =? 0 then None else wh_find (table s) parent) class queue →
  wp (req_create_window parent owner class extra_bytes style ex_style tid pid l queue) s w (λ _ s' _, win_inv [] s').
Proof.
  intros H Hall. unfold req_create_window. rewrite wp_bind. match goal with |- wp _ _ _ (λ a s' w', wp (@?f a) s' w' _) => set (k := f) end.
  assert (Hk : ∀ q, (∀ q', q = Some q' → is_Some (windows s !! q')) → create_allowed s w q class queue → wp (k (Some q)) s w (λ _ s' _, win_inv [] s')).
  { intros q Hq Hc. unfold k. rewrite wp_bind. apply wp_find_owner; [done|done| |intros w'; by apply wp_ret]. intros o. rewrite wp_bind.
    eapply wp_mono; [by apply create_window_ok|]. intros [p|] s' w' [H' Hp]; [|by apply wp_ret]. destruct (Hp p eq_refl) as (x & Hx & Hl & _).
    eapply wp_update_window; [done|]. eapply inv_set; try done. split_and!; try done. cbn. congruence. }
  destruct (parent =? 0); [by apply wp_ret, (Hk None)|]. rewrite wp_bind. eapply wp_get_window; [done| |intros w' _; apply wp_ret; unfold k; by apply wp_ret].
  intros q y Hfind Hy _. rewrite Hfind in Hall. rewrite wp_bind. eapply wp_is_orphan; [done..|]. intros [] _; [rewrite wp_bind, wp_set_error; apply wp_ret; unfold k; by apply wp_ret|].
  apply wp_ret, (Hk (Some q)); [|done]. intros ? [= <-]. eauto.
Qed.

Lemma req_set_parent_ok s w handle parent : win_inv [] s → fits s → wp (req_set_parent handle parent) s w (λ _ s' _, win_inv [] s').
Proof.
  intros H Hfits. unfold req_set_parent. rewrite wp_bind. eapply wp_get_window; [done| |intros w' _; by apply wp_ret]. intros p x _ Hx Hxh.
  rewrite wp_bind. match goal with |- wp _ _ _ (λ a s' w', wp (@?f a) s' w' _) => set (k := f) end.
  assert (Hk : ∀ q, (∀ q', q = Some q' → is_Some (windows s !! q')) → wp (k (Some q)) s w (λ _ s' _, win_inv [] s')).
  { intros q Hq. unfold k. rewrite wp_bind. eapply wp_read_window; [done|]. rewrite wp_bind. destruct (is_desktop x) eqn:Ed; [apply wp_ret; by rewrite wp_set_error|].
    apply bool_decide_eq_false_1 in Ed. destruct (w_parent x) as [old|] eqn:Eold; [|done]. rewrite wp_bind. eapply wp_is_orphan; [done..|]. intros b Hb.
    destruct b; [apply wp_ret; by rewrite wp_set_error|].
    assert (Hoh : ∀ z, windows s !! old = Some z → w_handle z ≠ 0).
    { intros z Hz Ez. assert (false = true); [|done]. apply Hb. exists old, z. split; [|split; [done|by apply (wi_orphan _ _ H old z Hz)]].
      econstructor; [by rewrite (parents_lookup _ _ _ Hx), Eold|constructor]. }
    destruct q as [q|].
    - destruct (Hq q eq_refl) as [y Hy]. eapply wp_is_orphan; [done..|]. intros [] _; [by rewrite wp_set_error|]. rewrite wp_bind.
      eapply wp_mono; [by eapply reparent_ok|]. intros b s' w' [? _]. by apply wp_ret.
    - apply wp_ret. rewrite wp_bind. eapply wp_mono; [by eapply unlink_ok|]. intros b s' w' [? _]. by apply wp_ret. }
  destruct (parent =? 0); [apply wp_ret, (Hk None); by intros|]. rewrite wp_bind. eapply wp_get_window; [done| |intros w' _; apply wp_ret; unfold k; by apply wp_ret].
  intros q y _ Hy _. apply wp_ret, (Hk (Some q)). intros ? [= <-]. eauto.
Qed.

Lemma req_destroy_window_ok s w handle tid : win_inv [] s → wp (req_destroy_window handle tid) s w (λ _ s' _, win_inv [] s').
Proof.
  intros H. unfold req_destroy_window. rewrite wp_bind. eapply wp_get_window; [done| |intros w' _; by apply wp_ret]. intros p x _ Hx Hxh.
  rewrite wp_bind. eapply wp_read_window; [done|]. destruct (is_desktop x) eqn:Ed; cbn [negb].
  - destruct (bool_decide _); [|by rewrite wp_set_error]. eapply wp_update_window; [done|]. eapply inv_set; [done|done|by split_and!|done].
  - apply bool_decide_eq_false_1 in Ed. eapply wp_mono; [by eapply free_window_handle_ok|]. by intros [] s' w' [? _].
Qed.

(** [previous] names a linked window. *)
Definition place_allowed (s : state) (handle previous : Z) : Prop :=
  place_of previous = None → ∀ p c z, wh_find (table s) handle = Some p → wh_find (table s) (u32 previous) = Some c → c ≠ p → windows s !! c = Some z → w_linked z = true.

Lemma set_window_pos_ok s w p x previous flags region : win_inv [] s → windows s !! p = Some x → w_handle x ≠ 0 →
  (has flags SWP_NOZORDER = false → ∀ q, w_parent x = Some q → place_ok s p q previous) → wp (set_window_pos p previous flags region) s w (λ _ s' _, win_inv [] s').
Proof.
  intros H Hx Hh Hplace. unfold set_window_pos. rewrite wp_bind. eapply wp_read_window; [done|].
  rewrite wp_bind. match goal with |- wp _ _ _ (λ a s' w', wp (@?f a) s' w' _) => set (k := f) end.
  assert (Hk : ∀ b, wp (k b) s w (λ _ s' _, win_inv [] s')).
  { intros b. unfold k. destruct (b && negb region); [by apply wp_ret|]. rewrite wp_bind.
    eapply (wp_mono _ _ _ (λ _ s' _, win_inv [] s' ∧ ∃ v, windows s' !! p = Some v)).
    - destruct (has flags SWP_NOZORDER) eqn:Ef; cbn [negb andb when]; [apply wp_ret; eauto|]. destruct (is_desktop x) eqn:Ed; cbn [negb when]; [apply wp_ret; eauto|].
      apply bool_decide_eq_false_1 in Ed. destruct (w_parent x) as [q|] eqn:Eq; [|done]. eapply relinked_here_ok; try done. by apply Hplace.
    - intros [] s' w' (H' & v & Hv). rewrite wp_bind. eapply wp_read_window; [done|].
      destruct (has flags SWP_SHOWWINDOW); [eapply wp_update_window; [done|]; eapply inv_set; [done|done|by split_and!|done]|].
      destruct (has flags SWP_HIDEWINDOW); [eapply wp_update_window; [done|]; eapply inv_set; [done|done|by split_and!|done]|]. by apply wp_ret. }
  destruct (w_parent x) as [q|] eqn:Eq; [|apply wp_ret, Hk]. destruct (parent_exists _ _ _ _ _ H Hx Eq) as [y Hy]. rewrite wp_bind.
  eapply wp_is_visible; [done..|]. intros v. apply wp_ret, Hk.
Qed.

Lemma has_or flags m : has (Z.lor flags m) m = negb (m =? 0).
Proof. unfold has. rewrite Z.land_lor_distr_l, Z.land_diag. destruct (Z.eqb_spec m 0) as [->|Hm]; [by rewrite Z.lor_0_r, !Z.land_0_r|]. f_equal. apply Z.eqb_neq. intros E. apply Hm. by apply Z.lor_eq_0_iff in E as [_ ?]. Qed.

Lemma req_set_window_pos_ok s w handle previous flags rect region : win_inv [] s → place_allowed s handle previous →
  wp (req_set_window_pos handle previous flags rect region) s w (λ _ s' _, win_inv [] s').
Proof.
  intros H Hall. unfold req_set_window_pos. rewrite wp_bind. eapply wp_get_window; [done| |intros w' _; by apply wp_ret]. intros p x Hfind Hx Hxh.
  rewrite wp_bind. eapply wp_read_window; [done|]. cbn zeta. set (fl := if is_desktop x then _ else flags).
  rewrite wp_bind. match goal with |- wp _ _ _ (λ a s' w', wp (@?f a) s' w' _) => set (k := f) end.
  assert (Hk : ∀ pl fl', (has fl' SWP_NOZORDER = false → ∀ q, w_parent x = Some q → place_ok s p q pl) → wp (k (Some (pl, fl'))) s w (λ _ s' _, win_inv [] s')).
  { intros pl fl' Hpl. unfold k. destruct (negb rect); [by rewrite wp_set_error|]. by eapply set_window_pos_ok. }
  destruct (has fl SWP_NOZORDER) eqn:Ef; [apply wp_ret, Hk; congruence|].
  destruct (place_of previous) as [pl|] eqn:Epl.
  { apply wp_ret, Hk. intros _ q _ c ->. exfalso. unfold place_of in Epl. repeat case_match; congruence. }
  rewrite wp_bind. eapply wp_get_window; [done| |intros w' _; apply wp_ret; unfold k; by apply wp_ret]. intros c z Hc Hz _.
  rewrite wp_bind. eapply wp_read_window; [done|]. destruct (bool_decide (w_parent z = w_parent x)) eqn:Ep; cbn [negb].
  - apply bool_decide_eq_true_1 in Ep. apply wp_ret, Hk. destruct (Z.eqb_spec c p) as [->|Hcp]; [by rewrite has_or|].
    intros _ q Hq c' [= <-]. split; [done|]. exists z. split_and!; [done|congruence|]. by apply (Hall Epl p c z).
  - rewrite wp_bind, wp_set_error. apply wp_ret. unfold k. by apply wp_ret.
Qed.
Lemma has_or_other e a b : Z.land a b = 0 → has (Z.lor e a) b = has e b.
Proof. intros E. unfold has. by rewrite Z.land_lor_distr_l, E, Z.lor_0_r. Qed.

Lemma has_ldiff_other e a b : Z.land a b = 0 → has (Z.ldiff e a) b = has e b.
Proof.
  intros E. unfold has. do 2 f_equal. apply Z.bits_inj'. intros n Hn. rewrite !Z.land_spec, Z.ldiff_spec. apply (f_equal (λ z, Z.testbit z n)) in E.
  rewrite Z.land_spec, Z.bits_0 in E. destruct (Z.testbit e n), (Z.testbit a n), (Z.testbit b n); done.
Qed.

Lemma fix_window_ex_style_topmost x : topmost (fix_window_ex_style x) = topmost x.
Proof.
  unfold fix_window_ex_style, topmost, set_ex_style. cbn [w_ex_style]. repeat case_match; first [by apply has_or_other|by apply has_ldiff_other].
Qed.

Lemma set_window_ex_style_topmost e x : w_linked x = true → topmost (set_window_ex_style e x) = topmost x.
Proof.
  intros Hl. unfold set_window_ex_style, topmost. rewrite Hl. cbn [negb w_ex_style set_ex_style]. unfold has. do 2 f_equal. apply Z.bits_inj'. intros n _.
  rewrite !Z.land_spec, Z.lor_spec, Z.ldiff_spec, Z.land_spec. by destruct (Z.testbit e n), (Z.testbit WS_EX_TOPMOST n), (Z.testbit (w_ex_style x) n).
Qed.

Lemma req_set_window_info_ok s w handle tid ex info : win_inv [] s → wp (req_set_window_info handle tid ex info) s w (λ _ s' _, win_inv [] s').
Proof.
  intros H. unfold req_set_window_info. rewrite wp_bind. eapply wp_get_window; [done| |intros w' _; by apply wp_ret]. intros p x _ Hx _.
  rewrite wp_bind. eapply wp_read_window; [done|]. destruct (_ && _); [by rewrite wp_set_error|]. eapply wp_update_window; [done|]. eapply inv_set; [done|done| |].
  - destruct ex; [|split_and!; try done; intros _; exact (fix_window_ex_style_topmost (set_style info x))].
    assert (∀ e, set_window_ex_style e x = set_ex_style (w_ex_style (set_window_ex_style e x)) x) as E by (intros e; unfold set_window_ex_style; by destruct (negb _)).
    rewrite E. split_and!; try done. intros Hl. rewrite <-E. by apply set_window_ex_style_topmost.
  - destruct ex; [|done]. unfold set_window_ex_style. by destruct (negb _).
Qed.

(** The initial style of a linked window keeps whether it is topmost. *)
Definition style_allowed (s : state) (handle ex_style : Z) : Prop :=
  ∀ p x, wh_find (table s) handle = Some p → windows s !! p = Some x → w_linked x = true → has ex_style WS_EX_TOPMOST = topmost x.

Lemma req_init_window_info_ok s w handle style ex_style : win_inv [] s → style_allowed s handle ex_style →
  wp (req_init_window_info handle style ex_style) s w (λ _ s' _, win_inv [] s').
Proof.
  intros H Hall. unfold req_init_window_info. rewrite wp_bind. eapply wp_get_window; [done| |intros w' _; by apply wp_ret]. intros p x Hfind Hx _.
  eapply wp_update_window; [done|]. eapply inv_set; [done|done| |done]. split_and!; try done. intros Hl. by apply (Hall p x).
Qed.

(** *** Queries *)

Lemma next_in_some p l : p ∈ l → ∃ r, next_in p l = Some r ∧ ∀ c, r = Some c → c ∈ l.
Proof.
  intros (l1 & l2 & -> & Hp)%list_elem_of_split_l. rewrite next_in_split by done. eexists. split; [done|]. intros c Hc. destruct l2; [done|]. cbn in Hc. simplify_eq. set_solver.
Qed.

Lemma prev_in_some p l : p ∈ l → ∃ r, prev_in p l = Some r ∧ ∀ c, r = Some c → c ∈ l.
Proof.
  assert (Hrev : ∀ c, c ∈ rev l ↔ c ∈ l) by (intros c; by rewrite !list_elem_of_In, <-in_rev).
  intros Hp. apply Hrev in Hp. unfold prev_in. destruct (next_in_some p (rev l) Hp) as (r & E & Hr). exists r. split; [done|]. intros c Hc. apply Hrev. auto.
Qed.

Lemma child_present extra s q y c : win_inv extra s → windows s !! q = Some y → c ∈ w_children y → is_Some (windows s !! c).
Proof. intros H Hy Hc. apply (wi_children _ _ H q y c Hy) in Hc as (z & Hz & _). eauto. Qed.

Lemma wp_neighbour look extra s w p x q y (Q : option Z → state → world → Prop) : win_inv extra s → windows s !! p = Some x → w_linked x = true → w_parent x = Some q → windows s !! q = Some y →
  (∀ l, p ∈ l → ∃ r, look p l = Some r ∧ ∀ c, r = Some c → c ∈ l) → (∀ r, (∀ c, r = Some c → is_Some (windows s !! c)) → Q r s w) → wp (neighbour look p) s w Q.
Proof.
  intros H Hx Hl Hq Hy Hlook HQ. unfold neighbour. rewrite wp_bind. eapply wp_read_window; [done|]. rewrite wp_bind, Hq. apply wp_ret. rewrite wp_bind. eapply wp_read_window; [done|].
  destruct (Hlook (w_children y)) as (r & -> & Hr); [apply (wi_children _ _ H q y p Hy); eauto|]. apply wp_ret, HQ. intros c Hc. eapply child_present; eauto.
Qed.

Lemma wp_handle_of s w r (Q : Z → state → world → Prop) : (∀ c, r = Some c → is_Some (windows s !! c)) → (∀ h, Q h s w) → wp (handle_of r) s w Q.
Proof.
  intros Hr HQ. destruct r as [c|]; [|by apply wp_ret]. destruct (Hr c eq_refl) as [x Hx]. unfold handle_of. rewrite wp_bind. eapply wp_read_window; [done|]. by apply wp_ret.
Qed.

Lemma wp_head_child extra s w q y (Q : Z → state → world → Prop) : win_inv extra s → windows s !! q = Some y → (∀ h, Q h s w) → wp (let* n := get_first_child q in handle_of n) s w Q.
Proof.
  intros H Hy HQ. rewrite wp_bind. unfold get_first_child. rewrite wp_bind. eapply wp_read_window; [done|]. apply wp_ret, wp_handle_of; [|done].
  intros c Hc. eapply child_present; [done..|]. by apply head_Some_elem_of.
Qed.

Lemma wp_last_child extra s w q y (Q : Z → state → world → Prop) : win_inv extra s → windows s !! q = Some y → (∀ h, Q h s w) → wp (let* n := get_last_child q in handle_of n) s w Q.
Proof.
  intros H Hy HQ. rewrite wp_bind. unfold get_last_child. rewrite wp_bind. eapply wp_read_window; [done|]. apply wp_ret, wp_handle_of; [|done].
  intros c Hc. eapply child_present; [done..|]. by apply last_Some_elem_of.
Qed.

Lemma req_get_window_tree_ok s w handle : win_inv [] s → wp (req_get_window_tree handle) s w (λ _ s' _, s' = s).
Proof.
  intros H. unfold req_get_window_tree. rewrite wp_bind. eapply wp_get_window; [done| |intros w' _; by apply wp_ret]. intros p x _ Hx _.
  rewrite wp_bind. eapply wp_read_window; [done|]. rewrite wp_bind. eapply wp_head_child; [done..|]. intros fc. rewrite wp_bind. eapply wp_last_child; [done..|]. intros lc.
  destruct (w_parent x) as [q|] eqn:Eq; [|by apply wp_ret]. destruct (parent_exists _ _ _ _ _ H Hx Eq) as [y Hy]. rewrite wp_bind. eapply wp_read_window; [done|].
  assert (Hn : ∀ look Q, (∀ l, p ∈ l → ∃ r, look p l = Some r ∧ ∀ c, r = Some c → c ∈ l) → (∀ h, Q h s w) →
    wp (if w_linked x then let* n := neighbour look p in handle_of n else ret 0) s w Q).
  { intros look Q Hlook HQ. destruct (w_linked x) eqn:El; [|by apply wp_ret]. rewrite wp_bind. eapply wp_neighbour; [done..|]. intros r Hr. by apply wp_handle_of. }
  rewrite wp_bind. apply Hn; [apply next_in_some|]. intros nx. rewrite wp_bind. apply Hn; [apply prev_in_some|]. intros pv.
  rewrite wp_bind. eapply wp_head_child; [done..|]. intros fi. rewrite wp_bind. eapply wp_last_child; [done..|]. intros la. by apply wp_ret.
Qed.

Lemma wp_parents_loop n p d s w (Q : list Z → state → world → Prop) : depth (parents s) p d → (d < n)%nat → (∀ l, Q l s w) → wp (parents_loop n p) s w Q.
Proof.
  intros Hd. revert n Q. induction Hd as [p Hp|p q d Hp Hd IH]; intros [|n] Q Hn HQ; try lia; cbn [parents_loop]; destruct (parents_some _ _ _ Hp) as (x & Hx & E);
    rewrite wp_bind; (eapply wp_read_window; [exact Hx|]); rewrite E; [by apply wp_ret|]. destruct (depth_present _ _ _ Hd) as [r Hr]. destruct (parents_some _ _ _ Hr) as (y & Hy & _).
  rewrite wp_bind. eapply wp_read_window; [exact Hy|]. rewrite wp_bind. apply IH; [lia|]. intros l. by apply wp_ret.
Qed.

Lemma wp_list_children extra n : ∀ p x d s w (Q : list Z → state → world → Prop), win_inv extra s → windows s !! p = Some x → depth (parents s) p d → (size (windows s) ≤ d + n)%nat →
  (∀ l, Q l s w) → wp (list_children n p) s w Q.
Proof.
  induction n as [|n IH]; intros p x d s w Q H Hx Hd Hn HQ.
  { destruct (wi_depth _ _ _ _ H Hx) as (m & Hm & Hlt). rewrite (depth_unique _ _ _ Hd _ Hm) in Hn. lia. }
  cbn [list_children]. rewrite wp_bind. eapply wp_read_window; [done|].
  assert (Hl : ∀ c, c ∈ w_children x → ∃ z, windows s !! c = Some z ∧ w_parent z = Some p) by (intros c (z & ? & ? & _)%(wi_children _ _ H p x c Hx); eauto).
  revert Q HQ. induction (w_children x) as [|c l IHl]; intros Q HQ; cbn [list_each]; [by apply wp_ret|]. destruct (Hl c) as (z & Hz & Hzp); [left|].
  rewrite wp_bind. eapply wp_read_window; [done|]. rewrite wp_bind. eapply (IH c z (S d)); [done|done| |lia|].
  - econstructor; [by rewrite (parents_lookup _ _ _ Hz), Hzp|done].
  - intros b. rewrite wp_bind. apply IHl; [intros; apply Hl; by right|]. intros r. by apply wp_ret.
Qed.

Lemma length_children extra s q y : win_inv extra s → windows s !! q = Some y → (length (w_children y) ≤ size (windows s))%nat.
Proof. intros H Hy. apply nodup_length_size; [exact (proj1 (wi_nodup _ _ H q y Hy))|]. intros c Hc. by eapply child_present. Qed.

Lemma wp_list_siblings extra s w q y l2 : win_inv extra s → windows s !! q = Some y → ∀ l1 p n (Q : list Z → state → world → Prop), w_children y = l1 ++ p :: l2 → (length l2 < n)%nat →
  (∀ l, Q l s w) → wp (list_siblings n p) s w Q.
Proof.
  intros H Hy. induction l2 as [|c l2 IH]; intros l1 p [|n] Q El Hn HQ; cbn [length] in Hn; try lia; cbn [list_siblings].
  all: assert (Hp : p ∈ w_children y) by (rewrite El; set_solver); apply (wi_children _ _ H q y p Hy) in Hp as (x & Hx & Hq & _).
  all: assert (Hpl : p ∉ l1) by (pose proof (proj1 (wi_nodup _ _ H q y Hy)) as Hnd; rewrite El in Hnd; apply NoDup_app in Hnd as (_ & Hd & _); intros ?; eapply Hd; [done|left]).
  all: rewrite wp_bind; eapply wp_read_window; [exact Hx|]; rewrite wp_bind; unfold get_next_window, neighbour; rewrite wp_bind; eapply wp_read_window; [exact Hx|].
  all: rewrite wp_bind, Hq; apply wp_ret; rewrite wp_bind; eapply wp_read_window; [exact Hy|]; rewrite El, next_in_split by done; apply wp_ret; cbn [head].
  - by apply wp_ret.
  - rewrite wp_bind. apply (IH (l1 ++ [p])); [by rewrite <-app_assoc|lia|]. intros l. by apply wp_ret.
Qed.

(** The siblings are asked for of a linked window. *)
Definition siblings_allowed (s : state) (handle : Z) (children : bool) : Prop :=
  children = false → ∀ p x, wh_find (table s) handle = Some p → windows s !! p = Some x → w_parent x ≠ None → w_linked x = true.

Lemma req_get_window_list_ok s w handle children : win_inv [] s → siblings_allowed s handle children → wp (req_get_window_list handle children) s w (λ _ s' _, s' = s).
Proof.
  intros H Hall. unfold req_get_window_list. rewrite wp_bind. eapply wp_get_window; [done| |intros w' _; rewrite wp_bind, wp_set_error; by apply wp_ret]. intros p x Hfind Hx _.
  destruct (wi_depth _ _ _ _ H Hx) as (d & Hd & Hlt). unfold get_window_list. destruct children.
  { apply wp_up. eapply wp_list_children; [done|done|exact Hd|lia|done]. }
  rewrite wp_bind. eapply wp_read_window; [done|]. destruct (is_desktop x) eqn:Ed; cbn [negb].
  - rewrite wp_bind, wp_get. destruct (top_window s) as [t|]; [|by apply wp_ret]. destruct (msg_window s) as [m|] eqn:Em; [|by apply wp_ret]. destruct (t =? p); [|by apply wp_ret].
    destruct (proj1 (wi_desktop _ _ H m)) as (y & Hy & _); [by right|]. rewrite wp_bind. eapply wp_read_window; [done|]. by apply wp_ret.
  - apply bool_decide_eq_false_1 in Ed. pose proof (Hall eq_refl p x Hfind Hx Ed) as Hl. destruct (w_parent x) as [q|] eqn:Eq; [|done]. destruct (parent_exists _ _ _ _ _ H Hx Eq) as [y Hy].
    assert (Hp : p ∈ w_children y) by (apply (wi_children _ _ H q y p Hy); eauto). apply list_elem_of_split in Hp as (l1 & l2 & El).
    pose proof (length_children _ _ _ _ H Hy) as Hlen. rewrite El, length_app in Hlen. cbn [length] in Hlen. apply wp_up. eapply wp_list_siblings; [done|exact Hy|exact El|lia|done].
Qed.

(** *** All requests *)

Inductive request :=
  | CreateWindow (parent owner : Z) (class : option class_kind) (extra_bytes style ex_style tid pid : Z) (l : obj_locator) (queue : bool)
  | SetParent (handle parent : Z) | DestroyWindow (handle tid : Z)
  | SetWindowPos (handle previous flags : Z) (rect region : bool)
  | SetWindowInfo (handle tid : Z) (ex : bool) (new_info : Z) | InitWindowInfo (handle style ex_style : Z)
  | GetWindowTree (handle : Z) | GetWindowParents (handle : Z) | GetWindowList (handle : Z) (children : bool) | IsChildWindow (parent child : Z).
Definition run_request (r : request) : M state unit :=
  match r with
  | CreateWindow p o c eb st ex tid pid l q => req_create_window p o c eb st ex tid pid l q
  | SetParent h p => req_set_parent h p
  | DestroyWindow h tid => req_destroy_window h tid
  | SetWindowPos h p f rect region => req_set_window_pos h p f rect region
  | SetWindowInfo h tid ex i => req_set_window_info h tid ex i
  | InitWindowInfo h st ex => req_init_window_info h st ex
  | GetWindowTree h => let* _ := req_get_window_tree h in ret tt
  | GetWindowParents h => let* _ := req_get_window_parents h in ret tt
  | GetWindowList h c => let* _ := req_get_window_list h c in ret tt
  | IsChildWindow p c => let* _ := is_child_window p c in ret tt
  end.
(** The requests that the server handles without an error of its own. *)
Definition allowed (s : state) (w : world) (r : request) : Prop :=
  match r with
  | CreateWindow p _ c _ _ _ _ _ _ q => create_allowed s w (if p =? 0 then None else wh_find (table s) p) c q
  | SetParent _ _ => fits s
  | SetWindowPos h p _ _ _ => place_allowed s h p
  | InitWindowInfo h _ ex => style_allowed s h ex
  | GetWindowList h c => siblings_allowed s h c
  | _ => True
  end.

Lemma window_request_ok r s w : win_inv [] s → allowed s w r → wp (run_request r) s w (λ _ s' _, win_inv [] s').
Proof.
  intros H Hall. destruct r; cbn [run_request allowed] in *.
  - by apply req_create_window_ok.
  - by apply req_set_parent_ok.
  - by apply req_destroy_window_ok.
  - by apply req_set_window_pos_ok.
  - by apply req_set_window_info_ok.
  - by apply req_init_window_info_ok.
  - rewrite wp_bind. eapply wp_mono; [by apply req_get_window_tree_ok|]. intros r s' w' ->. by apply wp_ret.
  - rewrite wp_bind. unfold req_get_window_parents. rewrite wp_bind. eapply wp_get_window; [done| |intros w' _; apply wp_ret; by apply wp_ret]. intros p x _ Hx _.
    destruct (wi_depth _ _ _ _ H Hx) as (d & Hd & Hlt). apply wp_up. eapply wp_parents_loop; [exact Hd|lia|]. intros l. by apply wp_ret.
  - rewrite wp_bind. eapply wp_mono; [by apply req_get_window_list_ok|]. intros r s' w' ->. by apply wp_ret.
  - rewrite wp_bind. unfold is_child_window. rewrite wp_bind. apply wp_on_table, wh_get_ok; [apply H|]. rewrite set_table_same, wp_bind. apply wp_on_table, wh_get_ok; [apply H|].
    rewrite set_table_same. destruct (wh_find (table s) child) as [c|] eqn:Ec; [|apply wp_ret; by apply wp_ret]. destruct (wh_find (table s) parent) as [p|] eqn:Ep; [|apply wp_ret; by apply wp_ret].
    destruct (wi_find _ _ H child c Ec) as (x & Hx & _). rewrite wp_bind. eapply wp_read_window; [done|]. destruct (w_parent x) as [q|] eqn:Eq; [|apply wp_ret; by apply wp_ret].
    destruct (parent_exists _ _ _ _ _ H Hx Eq) as [y Hy]. eapply wp_is_child_of; [done..|]. intros b _. by apply wp_ret.
Qed.
(** ** Theorems *)

Definition initial (t : T) : state := WinState ∅ t None None [].
Inductive reachable (t : T) : state → Prop :=
  | reachable_initial : reachable t (initial t)
  | reachable_request s w r u s' w' : reachable t s → allowed s w r → run_request r s w = Some (u, s', w') → reachable t s'.

Lemma initial_windows t : wh_wf t → (∀ h p, wh_find t h ≠ Some p) → win_inv [] (initial t).
Proof.
  intros Hwf Hnone. split; cbn; try done.
  - intros h p Hp. by destruct (Hnone h p).
  - intros p [r Hr]. unfold parents in Hr. cbn in Hr. by rewrite fmap_empty in Hr.
  - intros p. split; [by intros []|]. by intros (x & ? & _).
Qed.

Lemma reachable_windows t s : wh_wf t → (∀ h p, wh_find t h ≠ Some p) → reachable t s → win_inv [] s.
Proof.
  intros Hwf Hnone. induction 1 as [|s w r u s' w' _ IH Hall Hrun]; [by apply initial_windows|].
  pose proof (window_request_ok r s w IH Hall) as H. unfold wp in H. by rewrite Hrun in H.
Qed.

(** C9: Take any sequence of requests that create, move, show, restyle, order, destroy and
    list windows, where creating a window below another one finds memory and can attach
    the input of its thread, a window is put after a linked window only, the siblings of a window that is not
    linked are not listed, [init_window_info] does not change whether a linked window is
    topmost, no second root of messages is made before the desktop window, and there is
    room for handles and references. No request crashes or loops: the windows stay a tree
    with the parents and the lists of children in agreement, without a cycle, every handle
    names its window, the references of a window are its children and its handle, and on
    every level the topmost windows are above the others. What is left out crashes the
    server or spoils the order: see [create_failure_crashes], [place_after_unlinked],
    [siblings_of_unlinked_crash] and [second_message_window_crashes]. *)
Theorem windows_requests_safe t s r w : wh_wf t → (∀ h p, wh_find t h ≠ Some p) → reachable t s → allowed s w r →
  win_inv [] s ∧ ∃ s' w', run_request r s w = Some (tt, s', w') ∧ win_inv [] s'.
Proof.
  intros Hwf Hnone Hr Hall. pose proof (reachable_windows _ _ Hwf Hnone Hr) as H. split; [done|].
  destruct (wp_elim _ _ _ _ (window_request_ok r s w H Hall)) as ([] & s' & w' & E & H'). eauto.
Qed.

(** C11: [link_window] puts a window that has a handle where it is asked to: at the end, at
    the front, or after another child of the parent. A window to be put on top that is not
    topmost passes exactly the topmost windows up to its owner: if it meets the owner it
    comes right above it and becomes topmost, otherwise it comes above all that are not
    topmost, and is not topmost. The order of the other windows does not change, nor does
    any window but the parent. (Asked to go below the topmost ones, a linked window that
    is not topmost stays where it is.) *)
Theorem link_window_correct s w p x q y previous : win_inv [] s → windows s !! p = Some x → w_handle x ≠ 0 → w_parent x = Some q → windows s !! q = Some y →
  place_ok s p q previous → ¬ (previous = WINPTR_NOTOPMOST ∧ topmost x = false ∧ w_linked x = true) →
  ∃ s' l1 l2 x' y', link_window p previous s w = Some (tt, s', w) ∧ filter (λ i, i ≠ p) (w_children y) = l1 ++ l2 ∧
    windows s' !! p = Some x' ∧ w_linked x' = true ∧ windows s' !! q = Some y' ∧ w_children y' = l1 ++ p :: l2 ∧
    placed (windows s) x previous (w_ex_style x') l1 l2 ∧
    ∀ i z, i ≠ p → i ≠ q → windows s !! i = Some z → windows s' !! i = Some z.
Proof.
  intros H Hx Hxh Hq Hy Hplace Hmoves. assert (Hpq : p ≠ q).
  { intros ->. destruct (wi_depth _ _ _ _ H Hx) as (m & Hm & _). eapply (not_below_own_child (parents s) q q); [by rewrite (parents_lookup _ _ _ Hx), Hq|done|constructor]. }
  cut (wp (link_window p previous) s w (λ _ s' w', w' = w ∧ ∃ l1 l2 e, filter (λ i, i ≠ p) (w_children y) = l1 ++ l2 ∧
    windows s' = relink p q x y (l1 ++ p :: l2) e (windows s) ∧ placed (windows s) x previous e l1 l2)).
  { intros (u & s' & w' & E & -> & l1 & l2 & e & El & Ew & Hpl)%wp_elim. destruct u. do 5 eexists. split; [exact E|]. split; [exact El|].
    rewrite Ew. unfold relink. split; [apply lookup_insert_eq|]. split; [done|]. split; [rewrite lookup_insert_ne by done; apply lookup_insert_eq|]. split; [done|]. split; [done|].
    intros i z Hip Hiq Hz. rewrite !lookup_insert_ne, lookup_fmap, Hz by done. cbn. f_equal. apply both_lists_neutral; apply filter_all; intros c Hc ->.
    - apply (wi_children _ _ H i z p Hz) in Hc as (? & ? & ? & _). congruence.
    - apply (wi_unlinked _ _ H i z p Hz) in Hc as (? & ? & ? & _). congruence. }
  eapply (wp_link_window p q x y); try done.
  - exact (wi_entry _ _ H p x Hx).
  - intros c Hc. by eapply child_present.
  - exact (proj1 (wi_nodup _ _ H q y Hy)).
  - by apply zsorted_without, (wi_zorder _ _ H q).
  - intros c ->. destruct (Hplace c eq_refl) as (Hcp & cz & Hcz & Hcq & Hcl). split; [done|]. split; [apply (wi_children _ _ H q y c Hy); eauto|]. split; [intros z Hz; exact (wi_entry _ _ H c z Hz)|].
    intros i z Hz. split; intros Hin; [apply (wi_unlinked _ _ H i z c Hz) in Hin as (? & ? & _ & ?)|apply (wi_children _ _ H i z c Hz) in Hin as (? & ? & ? & _)]; congruence.
  - intros Hn Ht Hl. by destruct Hmoves.
  - intros l1 l2 e El _ Hpl. split; [done|]. exists l1, l2, e. done.
Qed.
Lemma destroy_runs s w handle tid p x r : win_inv [] s → wh_find (table s) handle = Some p → windows s !! p = Some x → w_parent x ≠ None →
  free_window_handle p s w = r → req_destroy_window handle tid s w = r.
Proof.
  intros H Hfind Hx Hp <-.
  assert (E1 : get_window handle s w = Some (Some p, s, w)).
  { apply wp_exact. unfold get_window. rewrite wp_bind. apply wp_on_table, wh_get_ok; [apply H|]. rewrite Hfind, set_table_same. by apply wp_ret. }
  assert (E2 : read_window p s w = Some (x, s, w)) by (apply wp_exact; by eapply wp_read_window).
  unfold req_destroy_window. rewrite (bind_run _ _ _ _ _ _ _ E1), (bind_run _ _ _ _ _ _ _ E2). unfold is_desktop. by rewrite bool_decide_eq_false_2.
Qed.

(** C10: destroying a window takes the handles of exactly the window, its linked children
    of the same thread, and theirs; every other window that has a handle keeps it, its
    parent and whether it is linked. *)
Theorem destroy_window_correct s w handle tid p x : win_inv [] s → wh_find (table s) handle = Some p → windows s !! p = Some x → w_parent x ≠ None →
  ∃ s' w', req_destroy_window handle tid s w = Some (tt, s', w') ∧ win_inv [] s' ∧
    ∀ i z, windows s !! i = Some z → w_handle z ≠ 0 →
      (doomed s p i → ∀ h, wh_find (table s') h ≠ Some i) ∧
      (¬ doomed s p i → wh_find (table s') (w_handle z) = Some i ∧
         ∃ v, windows s' !! i = Some v ∧ w_handle v = w_handle z ∧ w_parent v = w_parent z ∧ w_linked v = w_linked z).
Proof.
  intros H Hfind Hx Hp. destruct (wi_find _ _ H _ _ Hfind) as (x' & Hx' & Hxh). assert (x' = x) as -> by congruence.
  destruct (wp_elim _ _ _ _ (free_window_handle_ok [] s w p x H Hx Hxh Hp)) as ([] & s' & w' & E & H' & Hf & Hg).
  exists s', w'. split; [|split; [done|]].
  - by eapply destroy_runs.
  - intros i z Hz Hzh. split; [intros Hi; by apply Hg|]. intros Hi. destruct Hf as (_ & _ & Hf & _). destruct (Hf i z Hz Hzh Hi) as (v & Hv & ? & Eh & ? & _).
    split; [|exists v; split_and!; congruence]. rewrite <-Eh. apply (wi_handle _ _ H' i v Hv). congruence.
Qed.

(** A child that was never shown is not linked, and so outlives the parent: when the
    parent is destroyed the child keeps its handle. [free_window_handle] goes twice
    through the list of linked children, and never through the other. *)
Theorem unlinked_child_survives s w handle tid p x c y : win_inv [] s → wh_find (table s) handle = Some p → windows s !! p = Some x → w_parent x ≠ None →
  c ∈ w_unlinked x → windows s !! c = Some y → w_handle y ≠ 0 →
  ∃ s' w', req_destroy_window handle tid s w = Some (tt, s', w') ∧ (∀ h, wh_find (table s') h ≠ Some p) ∧ wh_find (table s') (w_handle y) = Some c.
Proof.
  intros H Hfind Hx Hp Hc Hy Hyh. destruct (wi_find _ _ H _ _ Hfind) as (x' & Hx' & Hxh). assert (x' = x) as -> by congruence.
  destruct (wp_elim _ _ _ _ (free_window_handle_ok [] s w p x H Hx Hxh Hp)) as ([] & s' & w' & E & H' & Hf & Hg).
  exists s', w'. split; [by eapply destroy_runs|]. split; [apply Hg; constructor|].
  apply (wi_unlinked _ _ H p x c Hx) in Hc as (y' & Hy' & Hcp & Hcl). assert (y' = y) as -> by congruence. assert (c ≠ p).
  { intros ->. destruct (wi_depth _ _ _ _ H Hx) as (m & Hm & _). eapply (not_below_own_child (parents s) p p); [rewrite (parents_lookup _ _ _ Hy); congruence|done|constructor]. }
  destruct Hf as (_ & _ & Hf & _). destruct (Hf c y Hy Hyh) as (v & Hv & _ & Eh & _).
  - intros Hd. inversion Hd; [done|]. congruence.
  - rewrite <-Eh. apply (wi_handle _ _ H' c v Hv). congruence.
Qed.

Lemma crash_later {A B} (m : M state A) (k : A → M state B) s w : wp m s w (λ a s' w', k a s' w' = None) → (let* a := m in k a) s w = None.
Proof. unfold wp, bind. by destruct (m s w) as [[[a s'] w']|]. Qed.

Lemma crash_now {A B} (m : M state A) (k : A → M state B) s w : m s w = None → (let* a := m in k a) s w = None.
Proof. unfold bind. by intros ->. Qed.

(** The failure path releases a window whose list entry is not initialised. *)
Lemma create_failed_crashes s w p q x : windows s !! p = Some x → w_parent x = Some q → w_entry x = false → w_refcount x = 1 →
  wh_wf (table s) → wh_find (table s) (w_handle x) = Some p → w_handle x ≠ 0 → create_failed p s w = None.
Proof.
  intros Hx Hq He Hr Hwf Hfind Hh. unfold create_failed. apply crash_later. eapply wp_read_window; [exact Hx|]. apply crash_later.
  replace (truth (w_handle x)) with true by (symmetry; by apply negb_true_iff, Z.eqb_neq). cbn [when]. rewrite wp_bind. apply wp_on_table.
  eapply wh_free_ok; [done..|]. intros r t _ _ _ _. eapply wp_update_window; [exact Hx|]. apply crash_now. unfold release_window. apply crash_later. rewrite wp_get. cbn [release_loop].
  apply crash_later. eapply wp_read_window; [apply lookup_insert_eq|]. cbn [w_refcount set_handle]. rewrite Hr. apply crash_later. rewrite wp_assert. split; [done|].
  apply crash_later. eapply wp_update_window; [apply lookup_insert_eq|]. change (1 - 1 =? 0) with true. cbn iota. apply crash_later. rewrite wp_assert. split; [done|].
  cbn [w_parent set_handle]. rewrite Hq. apply crash_now. unfold list_remove. apply crash_later. eapply wp_read_window; [cbn; apply lookup_insert_eq|].
  apply crash_now. cbn [w_entry set_refs set_handle]. by rewrite He.
Qed.

(** when the input of the thread cannot be attached to that of the parent's, creating
    a window crashes the server: the label [failed] releases the new window, whose
    destructor unlinks it from a list that it was not put in. *)
Theorem create_failure_crashes s w q y owner class extra_bytes tid pid l : win_inv [] s → windows s !! q = Some y → fits s → wh_room (table s) → w_mem w = [] →
  create_window (Some q) owner (Some class) extra_bytes tid pid l false s w = None.
Proof.
  intros H Hy Hfits Hroom Hmem. unfold create_window. apply crash_later. rewrite wp_get. apply crash_later. apply wp_ret.
  apply crash_later, wp_mem_alloc; [|by intros]. intros w1 _ Hw1. rewrite (Hw1 Hmem). cbn [negb]. apply crash_later. rewrite wp_get. cbn zeta.
  pose proof (new_key_fresh (windows s)) as Hp. set (p := new_key (windows s)) in *. assert (Hpq : p ≠ q) by congruence. pose proof (Hfits q y Hy).
  apply crash_later. unfold grab_window. rewrite wp_bind. eapply wp_read_window; [exact Hy|]. rewrite wp_bind, wp_assert. split; [by apply Z.ltb_lt|].
  eapply wp_update_window; [exact Hy|]. apply crash_later. rewrite wp_modify. set (x := new_window (Some q) owner tid). set (s1 := on_windows _ (on_windows _ s)).
  apply crash_later, wp_mem_alloc; [|by intros]. intros w2 _ Hw2. rewrite (Hw2 Hmem). cbn [negb]. apply crash_later.
  assert (Halloc : ∀ Q : bool → state → world → Prop, Q true s1 w → wp (if truth extra_bytes then mem_alloc else ret true) s1 w Q).
  { intros Q HQ. destruct (truth extra_bytes); [|by apply wp_ret]. apply wp_mem_alloc; [|by intros]. intros w3 _ Hw3. by rewrite (Hw3 Hmem). }
  apply Halloc. cbn [negb]. apply crash_later, wp_on_table, wh_alloc_ok; [apply H|done|by apply (find_fresh [] s)|]. intros h t Hwf Hh Hfind _ _.
  apply crash_later. eapply wp_update_window; [apply lookup_insert_eq|]. cbn [negb]. rewrite orb_true_r.
  eapply (create_failed_crashes _ _ p q (set_handle h x)); try done. apply lookup_insert_eq.
Qed.

Lemma next_in_absent p l : p ∉ l → next_in p l = None.
Proof. induction l as [|i l IH]; [done|]. intros [Hi Hl]%not_elem_of_cons. cbn. rewrite (proj2 (Z.eqb_neq _ _)) by congruence. auto. Qed.

(** Asking for the siblings of a window that was never shown runs past the end of the
    list of the windows that are not linked: [get_next_window] compares with the other
    list, and so takes the head of this one for a window. *)
Theorem siblings_of_unlinked_crash s w p x handle : win_inv [] s → wh_find (table s) handle = Some p → windows s !! p = Some x → w_parent x ≠ None → w_linked x = false →
  req_get_window_list handle false s w = None.
Proof.
  intros H Hfind Hx Hp Hl. unfold req_get_window_list. apply crash_later. unfold get_window. rewrite wp_bind. apply wp_on_table, wh_get_ok; [apply H|]. rewrite Hfind, set_table_same. apply wp_ret.
  unfold get_window_list. apply crash_later. eapply wp_read_window; [exact Hx|]. unfold is_desktop. rewrite bool_decide_eq_false_2 by done. cbn [negb]. unfold up. apply crash_later. rewrite wp_get.
  destruct (w_parent x) as [q|] eqn:Eq; [|done]. destruct (parent_exists _ _ _ _ _ H Hx Eq) as [y Hy].
  assert (Hin : p ∈ w_unlinked y) by (apply (wi_unlinked _ _ H q y p Hy); eauto). apply list_elem_of_split in Hin as (l1 & l2 & El). generalize (S (size (windows s))) as n. clear x handle Hfind Hx Hp Hl Eq.
  revert l1 p El. induction l2 as [|c l2 IH]; intros l1 p El [|n]; try done; cbn [list_siblings].
  all: assert (Hin : p ∈ w_unlinked y) by (rewrite El; set_solver); apply (wi_unlinked _ _ H q y p Hy) in Hin as (x & Hx & Hq & Hl).
  all: assert (Hpc : p ∉ w_children y) by (intros (x' & Hx' & _ & Hl')%(wi_children _ _ H q y p Hy); congruence).
  all: assert (Hpl : p ∉ l1) by (pose proof (proj2 (wi_nodup _ _ H q y Hy)) as Hnd; rewrite El in Hnd; apply NoDup_app in Hnd as (_ & Hd & _); intros ?; eapply Hd; [done|left]).
  all: apply crash_later; eapply wp_read_window; [exact Hx|].
  - apply crash_now. unfold get_next_window, neighbour. apply crash_later. eapply wp_read_window; [exact Hx|]. apply crash_later. rewrite Hq. apply wp_ret, crash_later.
    eapply wp_read_window; [exact Hy|]. by rewrite next_in_absent, El, next_in_split by done.
  - apply crash_later. unfold get_next_window, neighbour. rewrite wp_bind. eapply wp_read_window; [exact Hx|]. rewrite wp_bind, Hq. apply wp_ret. rewrite wp_bind. eapply wp_read_window; [exact Hy|].
    rewrite next_in_absent, El, next_in_split by done. apply wp_ret, crash_now, (IH (l1 ++ [p])). by rewrite <-app_assoc.
Qed.

(** The same for a second message window while there is no desktop window. *)
Lemma second_message_window_crashes s w m owner extra_bytes tid pid l queue : top_window s = None → msg_window s = Some m → w_mem w = [] → queue = true → wh_wf (table s) → wh_room (table s) →
  (∀ h, wh_find (table s) h ≠ Some (new_key (windows s))) → create_window None owner (Some message_class) extra_bytes tid pid l queue s w = None.
Proof.
  intros Htop Hmsg Hmem -> Hwft Hroom Hnew. unfold create_window. apply crash_later. rewrite wp_get, Hmsg. apply crash_later. rewrite bool_decide_eq_true_2 by eauto. apply wp_ret. rewrite Htop.
  apply crash_later, wp_mem_alloc; [|by intros]. intros w1 _ Hw1. rewrite (Hw1 Hmem). cbn [negb]. apply crash_later. rewrite wp_get. cbn zeta. set (p := new_key (windows s)) in *.
  apply crash_later, wp_ret, crash_later. rewrite wp_modify. set (s1 := on_windows _ s).
  apply crash_later, wp_mem_alloc; [|by intros]. intros w2 _ Hw2. rewrite (Hw2 Hmem). cbn [negb]. apply crash_later.
  assert (Halloc : ∀ Q : bool → state → world → Prop, Q true s1 w → wp (if truth extra_bytes then mem_alloc else ret true) s1 w Q).
  { intros Q HQ. destruct (truth extra_bytes); [|by apply wp_ret]. apply wp_mem_alloc; [|by intros]. intros w3 _ Hw3. by rewrite (Hw3 Hmem). }
  apply Halloc. cbn [negb]. apply crash_later, wp_on_table, wh_alloc_ok; [done|done|done|]. intros h t _ Hh _ _ _.
  apply crash_later. eapply wp_update_window; [apply lookup_insert_eq|]. replace (truth h) with true by (symmetry; by apply negb_true_iff, Z.eqb_neq). cbn [negb orb].
  apply crash_later. eapply wp_update_window; [apply lookup_insert_eq|]. apply crash_now, crash_later. rewrite wp_get. apply crash_now. cbn. by rewrite Hmsg.
Qed.
End Proofs.

(** ** A desktop *)

Section Desktop.
#[local] Abbreviation ustate := (win_state user_state).

Lemma fits_check (s : ustate) : forallb (λ kv, w_refcount kv.2 <? INT_MAX) (map_to_list (windows s)) = true → fits s.
Proof. intros H p x Hx. rewrite forallb_forall in H. specialize (H (p, x)). cbn in H. apply Z.ltb_lt, H, list_elem_of_In. by apply elem_of_map_to_list. Qed.

Lemma init_windows_wf : windows_wf init_user_state.
Proof.
  split; [exists []; apply init_user_wf|]. intros i j p (Hi & _). cbn in Hi. lia.
Qed.

Lemma init_no_window h p : wh_find init_user_state h ≠ Some p.
Proof. intros (i & _ & (Hi & _))%find_window_at. cbn in Hi. lia. Qed.

Definition after (r : request) (s : ustate) : ustate := match run_request r s (World 0 []) with Some (_, s', _) => s' | None => s end.
Definition create (parent : Z) (class : class_kind) : request := CreateWindow parent 0 (Some class) 0 WS_VISIBLE 0 7 7 (ObjLocator 1 0) true.
(** A desktop window, two windows on it, the first of which is shown, and a child of that. *)
Definition desktop_1 : ustate := after (create 0 desktop_class) (initial init_user_state).
Definition desktop_2 : ustate := after (create 0 other_class) desktop_1.
Definition desktop_3 : ustate := after (create 0 other_class) desktop_2.
Definition desktop_4 : ustate := after (SetWindowPos 0x10022 0 SWP_SHOWWINDOW true true) desktop_3.
Definition desktop_5 : ustate := after (create 0x10022 other_class) desktop_4.

Lemma create_is_allowed parent class (s : ustate) : wh_room (table s) → fits s → class ≠ message_class → allowed s (World 0 []) (create parent class).
Proof. intros. by split_and!. Qed.

Lemma reachable_after t (s : ustate) r : reachable t s → allowed s (World 0 []) r → is_Some (run_request r s (World 0 [])) → reachable t (after r s).
Proof.
  intros Hs Hall [[[u s'] w'] Hrun]. unfold after. rewrite Hrun. by eapply reachable_request.
Qed.

Lemma desktop_1_reachable : reachable init_user_state desktop_1.
Proof. apply reachable_after; [constructor|apply create_is_allowed; [by right|by apply fits_check|done]|vm_compute; eauto]. Qed.
Lemma desktop_2_reachable : reachable init_user_state desktop_2.
Proof. apply reachable_after; [apply desktop_1_reachable|apply create_is_allowed; [by right|by apply fits_check|done]|vm_compute; eauto]. Qed.
Lemma desktop_3_reachable : reachable init_user_state desktop_3.
Proof. apply reachable_after; [apply desktop_2_reachable|apply create_is_allowed; [by right|by apply fits_check|done]|vm_compute; eauto]. Qed.
Lemma desktop_4_reachable : reachable init_user_state desktop_4.
Proof. apply reachable_after; [apply desktop_3_reachable|intros E; discriminate E|vm_compute; eauto]. Qed.
Lemma desktop_5_reachable : reachable init_user_state desktop_5.
Proof. apply reachable_after; [apply desktop_4_reachable|apply create_is_allowed; [by right|by apply fits_check|done]|vm_compute; eauto]. Qed.

Lemma desktop_inv s : reachable init_user_state s → win_inv [] s.
Proof. intros H. eapply reachable_windows; [apply init_windows_wf|apply init_no_window|exact H]. Qed.

Lemma windows_requests_safe_witness :
  reachable init_user_state desktop_5 ∧ allowed desktop_5 (World 0 [false; true]) (DestroyWindow 0x10022 7) ∧ win_inv [] desktop_5 ∧
  ∃ s' w', run_request (DestroyWindow 0x10022 7) desktop_5 (World 0 [false; true]) = Some (tt, s', w') ∧ win_inv [] s'.
Proof.
  split; [apply desktop_5_reachable|]. split; [exact I|].
  apply (windows_requests_safe (WH := user_windows) init_user_state desktop_5 (DestroyWindow 0x10022 7) (World 0 [false; true]) init_windows_wf init_no_window desktop_5_reachable I).
Defined.

Definition window_at_5 (p : Z) : window := default (new_window None 0 0) (windows desktop_5 !! p).

Lemma place_at_5 : place_ok desktop_5 3 1 (After 2).
Proof. intros c [= <-]. split; [done|]. exists (window_at_5 2). split_and!; vm_compute; reflexivity. Qed.

Lemma link_window_correct_witness :
  place_ok desktop_5 3 1 (After 2) ∧
  ∃ s' l1 l2 x' y', link_window 3 (After 2) desktop_5 (World 0 []) = Some (tt, s', World 0 []) ∧ filter (λ i, i ≠ 3) (w_children (window_at_5 1)) = l1 ++ l2 ∧
    windows s' !! 3 = Some x' ∧ w_linked x' = true ∧ windows s' !! 1 = Some y' ∧ w_children y' = l1 ++ 3 :: l2 ∧
    placed (windows desktop_5) (window_at_5 3) (After 2) (w_ex_style x') l1 l2 ∧
    ∀ i z, i ≠ 3 → i ≠ 1 → windows desktop_5 !! i = Some z → windows s' !! i = Some z.
Proof.
  split; [apply place_at_5|].
  apply (link_window_correct desktop_5 (World 0 []) 3 (window_at_5 3) 1 (window_at_5 1) (After 2) (desktop_inv _ desktop_5_reachable));
    [vm_compute; reflexivity|vm_compute; discriminate|vm_compute; reflexivity|vm_compute; reflexivity|apply place_at_5|intros [E _]; discriminate E].
Defined.

Lemma destroy_window_correct_witness :
  wh_find (table desktop_5) 0x10022 = Some 2 ∧
  ∃ s' w', req_destroy_window 0x10022 7 desktop_5 (World 0 []) = Some (tt, s', w') ∧ win_inv [] s' ∧
    ∀ i z, windows desktop_5 !! i = Some z → w_handle z ≠ 0 →
      (doomed desktop_5 2 i → ∀ h, wh_find (table s') h ≠ Some i) ∧
      (¬ doomed desktop_5 2 i → wh_find (table s') (w_handle z) = Some i ∧
         ∃ v, windows s' !! i = Some v ∧ w_handle v = w_handle z ∧ w_parent v = w_parent z ∧ w_linked v = w_linked z).
Proof.
  split; [vm_compute; reflexivity|].
  apply (destroy_window_correct desktop_5 (World 0 []) 0x10022 7 2 (window_at_5 2) (desktop_inv _ desktop_5_reachable)); [vm_compute; reflexivity|vm_compute; reflexivity|vm_compute; discriminate].
Defined.

Lemma unlinked_child_survives_witness :
  4 ∈ w_unlinked (window_at_5 2) ∧
  ∃ s' w', req_destroy_window 0x10022 7 desktop_5 (World 0 []) = Some (tt, s', w') ∧ (∀ h, wh_find (table s') h ≠ Some 2) ∧ wh_find (table s') (w_handle (window_at_5 4)) = Some 4.
Proof.
  assert (Hin : 4 ∈ w_unlinked (window_at_5 2)) by (vm_compute; constructor). split; [exact Hin|].
  apply (unlinked_child_survives desktop_5 (World 0 []) 0x10022 7 2 (window_at_5 2) 4 (window_at_5 4) (desktop_inv _ desktop_5_reachable));
    [vm_compute; reflexivity|vm_compute; reflexivity|vm_compute; discriminate|exact Hin|vm_compute; reflexivity|vm_compute; discriminate].
Defined.

Lemma create_failure_crashes_witness :
  create_window (Some 2) 0 (Some other_class) 16 7 7 (ObjLocator 1 0) false desktop_4 (World 0 []) = None.
Proof.
  apply (create_failure_crashes desktop_4 (World 0 []) 2 (default (new_window None 0 0) (windows desktop_4 !! 2)) 0 other_class 16 7 7 (ObjLocator 1 0) (desktop_inv _ desktop_4_reachable));
    [vm_compute; reflexivity|by apply fits_check|by right|reflexivity].
Defined.

Lemma siblings_of_unlinked_crash_witness :
  wh_find (table desktop_5) 0x10024 = Some 3 ∧ req_get_window_list 0x10024 false desktop_5 (World 0 []) = None.
Proof.
  split; [vm_compute; reflexivity|].
  apply (siblings_of_unlinked_crash desktop_5 (World 0 []) 3 (window_at_5 3) 0x10024 (desktop_inv _ desktop_5_reachable));
    [vm_compute; reflexivity|vm_compute; reflexivity|vm_compute; discriminate|vm_compute; reflexivity].
Defined.

(** Placing a window after a sibling that is not linked puts it into the list of the
    windows that are not linked, and marks it as linked all the same: the next request for
    its neighbours takes the head of that list, inside the parent, for a window. *)
Theorem place_after_unlinked : ∃ s s', reachable init_user_state s ∧
  run_request (SetWindowPos 0x10022 0x10024 SWP_SHOWWINDOW true true) s (World 0 []) = Some (tt, s', World 0 []) ∧
  (∃ x y, windows s' !! 2 = Some x ∧ w_linked x = true ∧ windows s' !! 1 = Some y ∧ 2 ∈ w_unlinked y) ∧
  run_request (GetWindowTree 0x10022) s' (World 0 []) = None.
Proof.
  exists desktop_3, (after (SetWindowPos 0x10022 0x10024 SWP_SHOWWINDOW true true) desktop_3). split; [apply desktop_3_reachable|].
  split; [vm_compute; reflexivity|]. split; [|vm_compute; reflexivity]. do 2 eexists. split; [vm_compute; reflexivity|]. split; [reflexivity|]. split; [vm_compute; reflexivity|].
  vm_compute. right. left.
Qed.
End Desktop.
