(* ===== verification/Timeouts.v ===== *)
(** * Timeouts (server/fd.c)

    The main loop sleeps until the next timeout, and then calls the functions of those
    that have expired. Timeouts sit in two sorted lists: absolute ones by [current_time],
    relative ones by [monotonic_time]. The expired ones move to a list of their own first,
    so that a function may add and remove timeouts, expired ones included.

    The address of a timeout is never reused in the model, so that the [log] can say which
    ones were called and which were removed. A function and its argument are one number;
    what it does to the timeouts is a list of operations, which may depend on the state.

    Theorems: no timeout is called twice, early, or after its removal, none that has expired
    is left out, and the time to sleep is neither too long nor, as long as nothing is due,
    zero. *)

From stdpp Require Import sorting.
From S2P Require Import Prelude.

(** Conversion of a 64-bit pattern to a signed integer. *)
Definition s64 (z : Z) : Z := let u := u64 z in if u <? 9223372036854775808 then u else u - 18446744073709551616.
#[global] Arguments s64 : simpl never.

Lemma s64_small z : -9223372036854775808 ≤ z < 9223372036854775808 → s64 z = z.
Proof. intros. unfold s64, u64. destruct (Z.ltb_spec (z mod 18446744073709551616) 9223372036854775808); Z.div_mod_to_equations; lia. Qed.

Definition TICKS_PER_SEC : Z := 10000000.
Definition user_shared_data_timeout : Z := 160000.

Record timeout_user := TimeoutUser { t_when : Z; t_private : Z }.
Inductive event := Fired (i : Z) | Removed (i : Z).
Record timeouts := Timeouts {
  users : gmap Z timeout_user; abs_list : list Z; rel_list : list Z; expired_list : list Z;
  current_time : Z; monotonic_time : Z; next : Z; log : list event }.
#[local] Abbreviation TM := (M timeouts).

Definition on_users (f : gmap Z timeout_user → gmap Z timeout_user) (s : timeouts) : timeouts :=
  Timeouts (f (users s)) (abs_list s) (rel_list s) (expired_list s) (current_time s) (monotonic_time s) (next s) (log s).
Definition set_lists (a r e : list Z) (s : timeouts) : timeouts :=
  Timeouts (users s) a r e (current_time s) (monotonic_time s) (next s) (log s).
Definition set_time (now mono : Z) (s : timeouts) : timeouts :=
  Timeouts (users s) (abs_list s) (rel_list s) (expired_list s) now mono (next s) (log s).
Definition set_next (n : Z) (s : timeouts) : timeouts :=
  Timeouts (users s) (abs_list s) (rel_list s) (expired_list s) (current_time s) (monotonic_time s) n (log s).
Definition record (e : event) (s : timeouts) : timeouts :=
  Timeouts (users s) (abs_list s) (rel_list s) (expired_list s) (current_time s) (monotonic_time s) (next s) (log s ++ [e]).
Definition lists (s : timeouts) : list Z := abs_list s ++ rel_list s ++ expired_list s.

Definition read_user (i : Z) : TM timeout_user := let* s := get in match users s !! i with Some t => ret t | None => crash end.

Definition timeout_to_abstime (s : timeouts) (timeout : Z) : Z := if 0 <? timeout then timeout else s64 (timeout - monotonic_time s).

(** [LIST_FOR_EACH] up to the first timeout that passes the test. *)
Fixpoint find_place (stop : Z → bool) (l : list Z) : TM nat :=
  match l with
  | [] => ret O
  | i :: l => let* t := read_user i in if stop (t_when t) then ret O else let* n := find_place stop l in ret (S n)
  end.
Definition add_timeout_user (timeout private : Z) : TM (option Z) :=
  let* ok := mem_alloc in
  if negb ok then ret None else
  let* s := get in
  let when := timeout_to_abstime s timeout in
  let i := next s in
  modify (set_next (i + 1)) >>
  modify (on_users (<[i := TimeoutUser when private]>)) >>
  (if 0 <? when then
     let* n := find_place (λ w, when <=? w) (abs_list s) in
     modify (set_lists (take n (abs_list s) ++ i :: drop n (abs_list s)) (rel_list s) (expired_list s))
   else
     let* n := find_place (λ w, w <=? when) (rel_list s) in
     modify (set_lists (abs_list s) (take n (rel_list s) ++ i :: drop n (rel_list s)) (expired_list s))) >>
  ret (Some i).

(** Removing an entry that is in no list writes through stale pointers. *)
Definition remove_timeout_user (i : Z) : TM unit :=
  let* s := get in
  c_assert (bool_decide (i ∈ lists s)) >>
  modify (set_lists (filter (λ j, j ≠ i) (abs_list s)) (filter (λ j, j ≠ i) (rel_list s)) (filter (λ j, j ≠ i) (expired_list s))) >>
  modify (on_users (delete i)) >>
  modify (record (Removed i)).

Inductive op := Add (timeout private : Z) | Remove (i : Z).
Definition run_op (o : op) : TM unit :=
  match o with Add w p => let* _ := add_timeout_user w p in ret tt | Remove i => remove_timeout_user i end.
Fixpoint run_ops (l : list op) : TM unit := match l with [] => ret tt | o :: l => run_op o >> run_ops l end.

Section Script.
(** What the functions do. *)
Context (script : Z → timeouts → list op).
Definition callback (private : Z) : TM unit := let* s := get in run_ops (script private s).

(** The heads of a list as long as they pass the test, and the rest. *)
Fixpoint split_expired (test : Z → bool) (l : list Z) : TM (list Z * list Z) :=
  match l with
  | [] => ret ([], [])
  | i :: r =>
      let* t := read_user i in
      if test (t_when t) then let* p := split_expired test r in ret (i :: p.1, p.2) else ret ([], l)
  end.
Fixpoint run_expired (n : nat) : TM unit :=
  match n with
  | O => crash
  | S n =>
      let* s := get in
      match expired_list s with
      | [] => ret tt
      | i :: l =>
          let* t := read_user i in
          modify (set_lists (abs_list s) (rel_list s) l) >>
          modify (record (Fired i)) >>
          callback (t_private t) >>
          modify (on_users (delete i)) >>
          run_expired n
      end
  end.
(** The delay of the head of a list, if that is less than [r]. *)
Definition least (r : Z) (deadline : Z → Z) (now : Z) (l : list Z) : TM Z :=
  match l with
  | [] => ret r
  | i :: _ =>
      let* t := read_user i in
      let diff := s64 (deadline (t_when t) - now) in
      let diff := if diff <? 0 then 0 else diff in
      ret (if (r =? -1) || (diff <? r) then diff else r)
  end.
(** [shared] tells whether there is shared user data. The result is in milliseconds, with
    the seconds and nanoseconds of the exact delay, which are set if there is one. *)
Definition get_next_timeout (shared : bool) : TM (Z * option (Z * Z)) :=
  let r := if shared then user_shared_data_timeout else -1 in
  let* s := get in
  let* r :=
    (if bool_decide (abs_list s = []) && bool_decide (rel_list s = []) then ret r else
     let* a := split_expired (λ w, w <=? current_time s) (abs_list s) in
     let* b := split_expired (λ w, s64 (- w) <=? monotonic_time s) (rel_list s) in
     modify (set_lists a.2 b.2 (a.1 ++ b.1)) >>
     run_expired (S (length (a.1 ++ b.1))) >>
     let* s := get in
     let* r := least r (λ w, w) (current_time s) (abs_list s) in
     least r (λ w, s64 (- w)) (monotonic_time s) (rel_list s)) in
  if r =? -1 then ret (-1, None) else
  let ms := s64 (r + 9999) ÷ 10000 in
  ret (if INT_MAX <? ms then INT_MAX else ms, Some (r ÷ TICKS_PER_SEC, Z.rem r TICKS_PER_SEC * 100)).

(** What [gettimeofday] and [monotonic_counter] answer comes in; the copies of both times
    in the memory shared with the clients are left out. *)
Definition set_current_time (tv_sec tv_usec counter : Z) : TM unit :=
  let ticks_1601_to_1970 := 86400 * (369 * 365 + 89) * TICKS_PER_SEC in
  modify (set_time (s64 (tv_sec * TICKS_PER_SEC + tv_usec * 10 + ticks_1601_to_1970)) counter).

(** What other files and the main loop do to the timeouts. *)
Inductive request := AddTimeout (timeout private : Z) | RemoveTimeout (i : Z) | SetTime (tv_sec tv_usec counter : Z) | NextTimeout (shared : bool).
Definition run_request (r : request) : TM unit :=
  match r with
  | AddTimeout t p => run_op (Add t p)
  | RemoveTimeout i => run_op (Remove i)
  | SetTime sec usec counter => set_current_time sec usec counter
  | NextTimeout shared => let* _ := get_next_timeout shared in ret tt
  end.
End Script.
Definition no_timeouts (now mono : Z) : timeouts := Timeouts ∅ [] [] [] now mono 0 [].

(** ** The invariant *)

Definition event_id (e : event) : Z := match e with Fired i | Removed i => i end.
Definition when_of (m : gmap Z timeout_user) (i : Z) : Z := from_option t_when 0 (m !! i).
(** 2^61: times are at most some seven thousand years, absolute timeouts any 64-bit number. *)
Definition MAX_TIME : Z := 2305843009213693952.
(** Relative timeouts are stored as negative numbers, the next one first. *)
Definition abs_order (m : gmap Z timeout_user) (i j : Z) : Prop := when_of m i ≤ when_of m j.
Definition rel_order (m : gmap Z timeout_user) (i j : Z) : Prop := when_of m j ≤ when_of m i.

(** [running] is the timeout whose function runs. *)
Record timeouts_wf (running : list Z) (s : timeouts) : Prop := {
  tw_users i : is_Some (users s !! i) ↔ i ∈ lists s ∨ i ∈ running;
  tw_nodup : NoDup (lists s);
  tw_abs : StronglySorted (abs_order (users s)) (abs_list s);
  tw_rel : StronglySorted (rel_order (users s)) (rel_list s);
  tw_abs_range i : i ∈ abs_list s → 0 < when_of (users s) i < 4 * MAX_TIME;
  tw_rel_range i : i ∈ rel_list s → - 2 * MAX_TIME < when_of (users s) i ≤ 0;
  tw_log : NoDup (map event_id (log s));
  tw_ended i : i ∈ map event_id (log s) → i ∉ lists s;
  tw_next i : i ∈ lists s ∨ i ∈ running ∨ i ∈ map event_id (log s) → i < next s;
  tw_running i : i ∈ running → i ∉ lists s;
  tw_time : 10000 ≤ current_time s ≤ MAX_TIME ∧ 0 ≤ monotonic_time s ≤ MAX_TIME
}.

Lemma wp_read_user s w i t (Q : timeout_user → timeouts → world → Prop) : users s !! i = Some t → Q t s w → wp (read_user i) s w Q.
Proof. intros Hi HQ. unfold read_user. rewrite wp_bind, wp_get, Hi. by apply wp_ret. Qed.

Lemma when_of_some (m : gmap Z timeout_user) i t : m !! i = Some t → when_of m i = t_when t.
Proof. unfold when_of. by intros ->. Qed.

Lemma wp_find_place stop l s w (Q : nat → timeouts → world → Prop) : (∀ i, i ∈ l → is_Some (users s !! i)) →
  (∀ n, (∀ i, i ∈ take n l → stop (when_of (users s) i) = false) → (∀ i, head (drop n l) = Some i → stop (when_of (users s) i) = true) → Q n s w) →
  wp (find_place stop l) s w Q.
Proof.
  revert Q. induction l as [|i l IH]; intros Q Hl HQ; cbn [find_place]; [apply wp_ret, HQ; [by intros i ?%not_elem_of_nil|done]|].
  destruct (Hl i) as [t Ht]; [left|]. rewrite wp_bind. eapply wp_read_user; [done|]. destruct (stop (t_when t)) eqn:E.
  - apply wp_ret, HQ; cbn; [by intros j ?%not_elem_of_nil|]. intros ? [= <-]. by rewrite (when_of_some _ _ _ Ht).
  - rewrite wp_bind. apply IH; [intros; apply Hl; by right|]. intros n H1 H2. apply wp_ret, HQ; cbn [take drop]; [|done].
    intros j [->|Hj]%elem_of_cons; [by rewrite (when_of_some _ _ _ Ht)|auto].
Qed.

Lemma sorted_head (R : Z → Z → Prop) l i j : (∀ a, R a a) → StronglySorted R l → head l = Some i → j ∈ l → R i j.
Proof.
  intros Hrefl Hs Hi Hj. destruct l as [|k l]; [done|]. injection Hi as <-. apply StronglySorted_cons in Hs as [Hk _]. rewrite Forall_forall in Hk.
  apply elem_of_cons in Hj as [->|Hj]; auto.
Qed.

(** What an operation of a function does, between the two states. *)
Record step (s s' : timeouts) : Prop := {
  st_time : current_time s' = current_time s ∧ monotonic_time s' = monotonic_time s;
  st_log : ∃ l, log s' = log s ++ l ∧ (∀ i, Fired i ∉ l) ∧ (∀ i, i ∈ lists s → i ∉ lists s' → Removed i ∈ l);
  st_expired : expired_list s' `sublist_of` expired_list s;
  st_users i : i ∈ lists s' → i ∈ lists s → users s' !! i = users s !! i;
  st_stay i : i ∈ expired_list s → i ∈ lists s' → i ∈ expired_list s';
  st_next : next s ≤ next s'
}.

Lemma step_refl s : step s s.
Proof. split; try done. exists []. split_and!; [by rewrite app_nil_r|by intros i ?%not_elem_of_nil|by intros]. Qed.

(** An added entry. *)
Lemma added_wf running s i when p a r : timeouts_wf running s → i = next s →
  (∀ j, j ∈ a ++ r ↔ j = i ∨ j ∈ abs_list s ++ rel_list s) → NoDup (a ++ r) →
  let m := <[i := TimeoutUser when p]> (users s) in
  StronglySorted (abs_order m) a → StronglySorted (rel_order m) r → (∀ j, j ∈ a → 0 < when_of m j < 4 * MAX_TIME) → (∀ j, j ∈ r → - 2 * MAX_TIME < when_of m j ≤ 0) →
  let s' := set_lists a r (expired_list s) (on_users (λ _, m) (set_next (i + 1) s)) in timeouts_wf running s' ∧ step s s' ∧ ∀ j, j ∈ lists s' ↔ j = i ∨ j ∈ lists s.
Proof.
  intros H Hi Hmem Hnd m Ha Hr Har Hrr s'. assert (Hlists : ∀ j, j ∈ lists s' ↔ j = i ∨ j ∈ lists s).
  { intros j. unfold lists. cbn. rewrite !app_assoc. rewrite (elem_of_app (a ++ r)), (elem_of_app (abs_list s ++ rel_list s)), Hmem. tauto. }
  assert (Hnew : i ∉ lists s) by (intros Hin; pose proof (tw_next _ _ H i (or_introl Hin)); lia).
  assert (Hexp : ∀ j, j ∈ expired_list s → j ∈ lists s) by (intros j Hj; unfold lists; rewrite !elem_of_app; auto).
  split; [split|split; [split|exact Hlists]]; cbn [users abs_list rel_list expired_list current_time monotonic_time next log set_lists on_users set_next s'].
  - intros j. change (lists _) with (lists s'). rewrite Hlists. unfold m. rewrite lookup_insert_is_Some, (tw_users _ _ H). destruct (decide (i = j)) as [->|]; naive_solver.
  - unfold lists. cbn. rewrite app_assoc. apply NoDup_app. split; [done|]. pose proof (tw_nodup _ _ H) as Hnd0. unfold lists in Hnd0. rewrite app_assoc in Hnd0.
    apply NoDup_app in Hnd0 as (_ & Hd & He). split; [|done]. intros j [->|Hj]%Hmem Hje; [by apply Hnew, Hexp|by eapply Hd].
  - done.
  - done.
  - done.
  - done.
  - apply H.
  - intros j Hj. change (lists _) with (lists s'). rewrite Hlists. intros [->|Hjl]; [pose proof (tw_next _ _ H i (or_intror (or_intror Hj))); lia|by apply (tw_ended _ _ H j Hj)].
  - intros j. change (lists _) with (lists s'). rewrite Hlists. intros [[->|Hj]|Hj]; [lia| |]; [pose proof (tw_next _ _ H j (or_introl Hj))|pose proof (tw_next _ _ H j (or_intror Hj))]; lia.
  - intros j Hj. change (lists _) with (lists s'). rewrite Hlists. intros [->|Hjl]; [|by apply (tw_running _ _ H j Hj)]. pose proof (tw_next _ _ H i (or_intror (or_introl Hj))). lia.
  - apply H.
  - done.
  - exists []. split_and!; [by rewrite app_nil_r|by intros j ?%not_elem_of_nil|]. intros j Hj Hn. destruct Hn. change (j ∈ lists s'). rewrite Hlists. by right.
  - done.
  - intros j _ Hj. unfold m. rewrite lookup_insert_ne; [done|]. by intros <-.
  - done.
  - lia.
Qed.

Definition in_range (timeout : Z) : Prop := - MAX_TIME < timeout < 4 * MAX_TIME.

Lemma when_of_insert (m : gmap Z timeout_user) i t j : when_of (<[i := t]> m) j = if decide (i = j) then t_when t else when_of m j.
Proof. unfold when_of. rewrite lookup_insert. by case_decide. Qed.

Lemma add_timeout_user_ok running s w timeout p : timeouts_wf running s → in_range timeout →
  wp (add_timeout_user timeout p) s w (λ r s' _, timeouts_wf running s' ∧ step s s' ∧ ∀ j, j ∈ lists s' ↔ r = Some j ∨ j ∈ lists s).
Proof.
  intros H Hr. unfold add_timeout_user. rewrite wp_bind. apply wp_mem_alloc; [|intros w' _ _; apply wp_ret; split; [done|]; split; [apply step_refl|intros j; naive_solver]].
  intros w' _ _. cbn [negb]. rewrite wp_bind, wp_get. cbn zeta. set (i := next s). set (wh := timeout_to_abstime s timeout).
  destruct (tw_time _ _ H) as [Hct Hmt]. unfold in_range, MAX_TIME in *.
  assert (Hwh : 0 < wh < 4 * MAX_TIME ∨ - 2 * MAX_TIME < wh ≤ 0).
  { unfold wh, timeout_to_abstime, MAX_TIME. destruct (Z.ltb_spec 0 timeout); [lia|]. rewrite s64_small by lia. lia. }
  rewrite wp_bind, wp_modify, wp_bind, wp_modify, wp_bind. set (m := <[i := TimeoutUser wh p]> (users s)). set (s1 := on_users _ _).
  assert (Hnew : i ∉ lists s) by (intros Hin; pose proof (tw_next _ _ H i (or_introl Hin)); unfold i in *; lia).
  assert (Hne : ∀ j, j ∈ abs_list s ∨ j ∈ rel_list s → j ≠ i) by (intros j Hj ->; apply Hnew; unfold lists; rewrite !elem_of_app; tauto).
  assert (Hw : ∀ j, j ≠ i → when_of m j = when_of (users s) j) by (intros j Hj; unfold m; by rewrite when_of_insert, decide_False).
  assert (Hwi : when_of m i = wh) by (unfold m; by rewrite when_of_insert, decide_True).
  assert (Hpres : ∀ j, j ∈ lists s → is_Some (users s1 !! j)).
  { intros j Hj. cbn. fold m. unfold m. rewrite lookup_insert_is_Some. destruct (decide (i = j)); [by left|right; split; [done|]]. apply (tw_users _ _ H). by left. }
  pose proof (tw_nodup _ _ H) as Hnd. unfold lists in Hnd. rewrite app_assoc in Hnd. apply NoDup_app in Hnd as (Hnd & _ & _).
  assert (Habs : StronglySorted (abs_order m) (abs_list s)).
  { eapply sorted_weaken; [|apply H]. intros a b Ha Hb. unfold abs_order. by rewrite !Hw by (apply Hne; auto). }
  assert (Hrel : StronglySorted (rel_order m) (rel_list s)).
  { eapply sorted_weaken; [|apply H]. intros a b Ha Hb. unfold rel_order. by rewrite !Hw by (apply Hne; auto). }
  assert (Har : ∀ j, j ∈ abs_list s → 0 < when_of m j < 4 * MAX_TIME) by (intros j Hj; rewrite Hw by (apply Hne; auto); by apply (tw_abs_range _ _ H)).
  assert (Hrr : ∀ j, j ∈ rel_list s → - 2 * MAX_TIME < when_of m j ≤ 0) by (intros j Hj; rewrite Hw by (apply Hne; auto); by apply (tw_rel_range _ _ H)).
  assert (Hperm : ∀ n (l : list Z), take n l ++ i :: drop n l ≡ₚ i :: l) by (intros n l; by rewrite <-Permutation_middle, take_drop).
  assert (Hend : ∀ a r, a ++ r ≡ₚ i :: abs_list s ++ rel_list s → StronglySorted (abs_order m) a → StronglySorted (rel_order m) r →
    (∀ j, j ∈ a → 0 < when_of m j < 4 * MAX_TIME) → (∀ j, j ∈ r → - 2 * MAX_TIME < when_of m j ≤ 0) →
    timeouts_wf running (set_lists a r (expired_list s) s1) ∧ step s (set_lists a r (expired_list s) s1) ∧ ∀ k, k ∈ lists (set_lists a r (expired_list s) s1) ↔ Some i = Some k ∨ k ∈ lists s).
  { intros a r Hp Ha Hr' Hra Hrr'. destruct (added_wf running s i wh p a r H eq_refl) as (? & ? & Hl); try done.
    - intros j. rewrite Hp. apply elem_of_cons.
    - rewrite Hp. constructor; [|done]. rewrite elem_of_app. intros Hin. by apply (Hne i Hin).
    - split; [done|]. split; [done|]. intros k. etrans; [apply Hl|]. naive_solver. }
  destruct (Z.ltb_spec 0 wh) as [Hpos|Hneg].
  - rewrite wp_bind. apply wp_find_place; [intros j Hj; apply Hpres; unfold lists; rewrite elem_of_app; auto|]. intros n H1 H2. change (users s1) with m in *.
    rewrite wp_modify. apply wp_ret, Hend.
    + by rewrite Hperm.
    + apply sorted_place; [done| |].
      * intros j Hj. specialize (H1 j Hj). unfold abs_order. lia.
      * intros j Hj. unfold abs_order. destruct (head (drop n (abs_list s))) as [k|] eqn:Ek; [|destruct (drop n (abs_list s)); [by apply not_elem_of_nil in Hj|done]].
        specialize (H2 k eq_refl). assert (abs_order m k j); [|unfold abs_order in *; lia]. eapply sorted_head; [by unfold abs_order| |exact Ek|exact Hj].
        rewrite <-(take_drop n (abs_list s)) in Habs. by apply StronglySorted_app in Habs as (_ & _ & ?).
    + done.
    + intros j. rewrite Hperm. intros [->|Hj]%elem_of_cons; [lia|auto].
    + done.
  - rewrite wp_bind. apply wp_find_place; [intros j Hj; apply Hpres; unfold lists; rewrite !elem_of_app; auto|]. intros n H1 H2. change (users s1) with m in *.
    rewrite wp_modify. apply wp_ret, Hend.
    + rewrite Hperm. by rewrite Permutation_middle.
    + done.
    + apply sorted_place; [done| |].
      * intros j Hj. specialize (H1 j Hj). unfold rel_order. lia.
      * intros j Hj. unfold rel_order. destruct (head (drop n (rel_list s))) as [k|] eqn:Ek; [|destruct (drop n (rel_list s)); [by apply not_elem_of_nil in Hj|done]].
        specialize (H2 k eq_refl). assert (rel_order m k j); [|unfold rel_order in *; lia]. eapply sorted_head; [by unfold rel_order| |exact Ek|exact Hj].
        rewrite <-(take_drop n (rel_list s)) in Hrel. by apply StronglySorted_app in Hrel as (_ & _ & ?).
    + done.
    + intros j. rewrite Hperm. intros [->|Hj]%elem_of_cons; [lia|auto].
Qed.

Lemma lists_set a r e s : lists (set_lists a r e s) = a ++ r ++ e.
Proof. done. Qed.

Lemma remove_timeout_user_ok running s w i : timeouts_wf running s → i ∈ lists s →
  wp (remove_timeout_user i) s w (λ _ s' _, timeouts_wf running s' ∧ step s s' ∧ lists s' = filter (λ j, j ≠ i) (lists s)).
Proof.
  intros H Hi. unfold remove_timeout_user. rewrite wp_bind, wp_get, wp_bind, wp_assert. split; [by apply bool_decide_eq_true|].
  rewrite wp_bind, wp_modify, wp_bind, wp_modify, wp_modify. set (s' := record _ _).
  assert (El : lists s' = filter (λ j, j ≠ i) (lists s)) by (unfold lists; cbn; by rewrite !filter_app).
  assert (Hin : ∀ j, j ∈ lists s' ↔ j ≠ i ∧ j ∈ lists s) by (intros j; by rewrite El, list_elem_of_filter).
  assert (Hu : ∀ j, j ≠ i → users s' !! j = users s !! j) by (intros j Hj; cbn; by rewrite lookup_delete_ne).
  assert (Hw : ∀ j, j ≠ i → when_of (users s') j = when_of (users s) j) by (intros j Hj; unfold when_of; by rewrite Hu).
  assert (Hlog : map event_id (log s') = map event_id (log s) ++ [i]) by (cbn; by rewrite map_app).
  assert (Hfresh : i ∉ map event_id (log s)) by (intros Hl; by apply (tw_ended _ _ H i Hl)).
  split; [split|split; [|done]].
  - intros j. rewrite Hin. destruct (decide (j = i)) as [->|Hj].
    + cbn. rewrite lookup_delete_eq. split; [by intros []|]. intros [[? _]|Hr]; [done|]. by destruct (tw_running _ _ H i Hr).
    + rewrite Hu by done. rewrite (tw_users _ _ H). naive_solver.
  - rewrite El. by apply NoDup_filter, H.
  - eapply sorted_weaken; [|apply sorted_filter, (tw_abs _ _ H)]. intros a b [Ha _]%list_elem_of_filter [Hb _]%list_elem_of_filter. unfold abs_order. by rewrite !Hw.
  - eapply sorted_weaken; [|apply sorted_filter, (tw_rel _ _ H)]. intros a b [Ha _]%list_elem_of_filter [Hb _]%list_elem_of_filter. unfold rel_order. by rewrite !Hw.
  - intros j [Hj Hjl]%list_elem_of_filter. rewrite Hw by done. by apply (tw_abs_range _ _ H).
  - intros j [Hj Hjl]%list_elem_of_filter. rewrite Hw by done. by apply (tw_rel_range _ _ H).
  - rewrite Hlog. apply NoDup_app. split; [apply H|]. split; [|apply NoDup_singleton]. by intros j Hj ->%list_elem_of_singleton.
  - intros j. rewrite Hlog, Hin, elem_of_app, list_elem_of_singleton. intros [Hj| ->] [? Hjl]; [|done]. by apply (tw_ended _ _ H j Hj).
  - intros j. rewrite Hlog, Hin, elem_of_app, list_elem_of_singleton. change (next s') with (next s). intros [[_ Hj]|[Hj|[Hj| ->]]]; apply (tw_next _ _ H); auto.
  - intros j Hj. rewrite Hin. intros [_ Hjl]. by apply (tw_running _ _ H j Hj).
  - apply H.
  - split; try done.
    + exists [Removed i]. split; [done|]. split; [by intros j ?%list_elem_of_singleton|]. intros j Hj Hn. rewrite Hin in Hn. destruct (decide (j = i)) as [->|]; [left|]. by destruct Hn.
    + cbn. apply sublist_filter.
    + intros j Hj _. apply Hin in Hj as [Hj _]. by apply Hu.
    + intros j Hj [Hji _]%Hin. by apply list_elem_of_filter.
Qed.

Definition removals (l : list op) : list Z := omap (λ o, match o with Remove i => Some i | Add _ _ => None end) l.
(** A function removes a timeout once, while it is pending, and does not ask for absurd times. *)
Definition ops_ok (s : timeouts) (l : list op) : Prop :=
  NoDup (removals l) ∧ (∀ i, i ∈ removals l → i ∈ lists s) ∧ ∀ t p, Add t p ∈ l → in_range t.

Lemma step_trans running s1 s2 s3 : timeouts_wf running s2 → timeouts_wf running s3 → step s1 s2 → step s2 s3 → step s1 s3.
Proof.
  intros H2 H3 [[T1 T1'] (l1 & L1 & F1 & R1) E1 U1 S1 N1] [[T2 T2'] (l2 & L2 & F2 & R2) E2 U2 S2 N2].
  assert (Hmid : ∀ i, i ∈ lists s3 → i ∈ lists s1 → i ∈ lists s2).
  { intros i Hi3 Hi1. destruct (decide (i ∈ lists s2)) as [|Hi2]; [done|]. destruct (tw_ended _ _ H3 i); [|done].
    rewrite L2, L1, !map_app, !elem_of_app. left. right. apply list_elem_of_fmap. exists (Removed i). split; [done|]. auto. }
  split.
  - split; congruence.
  - exists (l1 ++ l2). split; [by rewrite L2, L1, app_assoc|]. split; [intros i; rewrite elem_of_app; intros [?|?]; [by eapply F1|by eapply F2]|].
    intros i Hi Hn. apply elem_of_app. destruct (decide (i ∈ lists s2)); auto.
  - by etrans.
  - intros i H3i H1i. rewrite U2, U1 by auto. done.
  - intros i Hi Hi3. apply S2; [|done]. apply S1; [done|]. apply Hmid; [done|]. unfold lists. rewrite !elem_of_app. auto.
  - lia.
Qed.

Lemma run_ops_ok running l : ∀ s w, timeouts_wf running s → ops_ok s l → wp (run_ops l) s w (λ _ s' _, timeouts_wf running s' ∧ step s s').
Proof.
  induction l as [|o l IH]; intros s w H (Hnd & Hin & Hr); cbn [run_ops]; [apply wp_ret; split; [done|apply step_refl]|].
  rewrite wp_bind. eapply (wp_mono _ _ _ (λ _ s1 _, timeouts_wf running s1 ∧ step s s1 ∧ ∀ i, i ∈ removals l → i ∈ lists s1)).
  - destruct o as [t p|i]; cbn [run_op].
    + rewrite wp_bind. eapply wp_mono; [eapply (add_timeout_user_ok running s w t p H); eapply Hr; by left|]. intros r s1 w1 (H1 & Hs & Hl). apply wp_ret. split; [done|]. split; [done|].
      intros i Hi. apply Hl. right. by apply Hin.
    + cbn in Hnd, Hin. apply NoDup_cons in Hnd as [Hni Hnd]. eapply wp_mono; [apply remove_timeout_user_ok; [done|apply Hin; by left]|]. intros [] s1 w1 (H1 & Hs & El). split; [done|]. split; [done|].
      intros j Hj. rewrite El, list_elem_of_filter. split; [by intros ->|]. apply Hin. by right.
  - intros [] s1 w1 (H1 & Hs1 & Hin1). eapply wp_mono; [apply IH; [done|split; [|split; [done|]]]|].
    + destruct o; cbn in Hnd; [done|]. by apply NoDup_cons in Hnd as [_ ?].
    + intros t p Ht. eapply Hr. by right.
    + intros [] s2 w2 [H2 Hs2]. split; [done|]. by apply (step_trans running s s1 s2).
Qed.

(** ** Expired timeouts *)

Section Expired.
Context (script : Z → timeouts → list op).
Hypothesis script_ok : ∀ p s running, timeouts_wf running s → ops_ok s (script p s).

Lemma callback_ok running p s w : timeouts_wf running s → wp (callback script p) s w (λ _ s' _, timeouts_wf running s' ∧ step s s').
Proof. intros H. unfold callback. rewrite wp_bind, wp_get. apply run_ops_ok; [done|]. by eapply script_ok. Qed.

Lemma wp_split_expired test l s w (Q : list Z * list Z → timeouts → world → Prop) : (∀ i, i ∈ l → is_Some (users s !! i)) →
  StronglySorted (λ i j, test (when_of (users s) j) = true → test (when_of (users s) i) = true) l →
  (∀ a b, l = a ++ b → (∀ i, i ∈ a → test (when_of (users s) i) = true) → (∀ i, i ∈ b → test (when_of (users s) i) = false) → Q (a, b) s w) →
  wp (split_expired test l) s w Q.
Proof.
  revert Q. induction l as [|i l IH]; intros Q Hl Hs HQ; cbn [split_expired]; [apply wp_ret, HQ; [done|by intros i ?%not_elem_of_nil..]|].
  destruct (Hl i) as [t Ht]; [left|]. apply StronglySorted_cons in Hs as [Hi Hs]. rewrite Forall_forall in Hi. rewrite wp_bind. eapply wp_read_user; [done|].
  pose proof (when_of_some _ _ _ Ht) as Ew. destruct (test (t_when t)) eqn:E.
  - rewrite wp_bind. apply IH; [intros; apply Hl; by right|done|]. intros a b -> Ha Hb. apply wp_ret, HQ; [done| |done].
    intros j [->|Hj]%elem_of_cons; [by rewrite Ew|auto].
  - apply wp_ret, HQ; [done|by intros j ?%not_elem_of_nil|]. intros j [->|Hj]%elem_of_cons; [by rewrite Ew|].
    destruct (test (when_of (users s) j)) eqn:Ej; [|done]. specialize (Hi j Hj Ej). congruence.
Qed.

Definition fired (l : list event) : list Z := omap (λ e, match e with Fired i => Some i | Removed _ => None end) l.

Lemma fired_app l1 l2 : fired (l1 ++ l2) = fired l1 ++ fired l2.
Proof. apply omap_app. Qed.

Lemma fired_none l : (∀ i, Fired i ∉ l) → fired l = [].
Proof.
  induction l as [|[i|i] l IH]; intros Hl; [done| |].
  - destruct (Hl i). left.
  - cbn. apply IH. intros j Hj. apply (Hl j). by right.
Qed.

(** The head of the expired timeouts begins to run. *)
Lemma starting_wf s i l : timeouts_wf [] s → expired_list s = i :: l →
  timeouts_wf [i] (record (Fired i) (set_lists (abs_list s) (rel_list s) l s)).
Proof.
  intros H El. set (s' := record _ _).
  assert (Hp : lists s ≡ₚ i :: lists s') by (unfold lists; cbn; rewrite El; solve_Permutation).
  assert (Hnd' : NoDup (i :: lists s')) by (rewrite <-Hp; apply H). apply NoDup_cons in Hnd' as [Hi Hnd'].
  assert (Hin : ∀ j, j ∈ lists s ↔ j = i ∨ j ∈ lists s') by (intros j; by rewrite Hp, elem_of_cons).
  assert (Hlog : map event_id (log s') = map event_id (log s) ++ [i]) by (cbn; by rewrite map_app).
  split.
  - intros j. change (users s') with (users s). rewrite (tw_users _ _ H), Hin, list_elem_of_singleton. pose proof (not_elem_of_nil j). tauto.
  - done.
  - apply H.
  - apply H.
  - apply H.
  - apply H.
  - rewrite Hlog. apply NoDup_app. split; [apply H|]. split; [|apply NoDup_singleton]. intros j Hj ->%list_elem_of_singleton. apply (tw_ended _ _ H i Hj). apply Hin. by left.
  - intros j. rewrite Hlog, elem_of_app, list_elem_of_singleton. intros [Hj| ->]; [|done]. intros Hjl. apply (tw_ended _ _ H j Hj), Hin. by right.
  - intros j. rewrite Hlog, elem_of_app, !list_elem_of_singleton. change (next s') with (next s). intros Hj. apply (tw_next _ _ H). rewrite Hin. tauto.
  - by intros j ->%list_elem_of_singleton.
  - apply H.
Qed.

Lemma finished_wf s i : timeouts_wf [i] s → i ∉ lists s → i ∈ map event_id (log s) → timeouts_wf [] (on_users (delete i) s).
Proof.
  intros H Hi Hl. assert (Hw : ∀ j, j ∈ lists s → when_of (delete i (users s)) j = when_of (users s) j).
  { intros j Hj. unfold when_of. rewrite lookup_delete_ne; [done|]. by intros ->. }
  assert (Ha : ∀ j, j ∈ abs_list s → j ∈ lists s) by (intros j Hj; unfold lists; rewrite !elem_of_app; auto).
  assert (Hr : ∀ j, j ∈ rel_list s → j ∈ lists s) by (intros j Hj; unfold lists; rewrite !elem_of_app; auto).
  split; cbn [users abs_list rel_list current_time monotonic_time next log on_users]; try apply H.
  - intros j. change (lists _) with (lists s). destruct (decide (i = j)) as [->|Hij].
    + rewrite lookup_delete_eq. split; [by intros []|]. by intros [?|?%not_elem_of_nil].
    + rewrite lookup_delete_ne, (tw_users _ _ H), list_elem_of_singleton by done. pose proof (not_elem_of_nil j). naive_solver.
  - eapply sorted_weaken; [|apply (tw_abs _ _ H)]. intros a b Hia Hib. unfold abs_order. rewrite !Hw; auto.
  - eapply sorted_weaken; [|apply (tw_rel _ _ H)]. intros a b Hia Hib. unfold rel_order. rewrite !Hw; auto.
  - intros j Hj. rewrite Hw by auto. by apply (tw_abs_range _ _ H).
  - intros j Hj. rewrite Hw by auto. by apply (tw_rel_range _ _ H).
  - intros j. change (lists _) with (lists s). intros [Hj|[Hj|Hj]]; [|by apply not_elem_of_nil in Hj|]; apply (tw_next _ _ H); auto.
  - by intros j ?%not_elem_of_nil.
Qed.

(** What running the expired timeouts does. *)
Record ran (s s' : timeouts) : Prop := {
  rn_time : current_time s' = current_time s ∧ monotonic_time s' = monotonic_time s;
  rn_expired : expired_list s' = [];
  rn_log : ∃ l, log s' = log s ++ l ∧ fired l `sublist_of` expired_list s ∧ ∀ i, i ∈ expired_list s → Fired i ∈ l ∨ Removed i ∈ l
}.

Lemma run_expired_ok n : ∀ s w, timeouts_wf [] s → (length (expired_list s) < n)%nat → wp (run_expired script n) s w (λ _ s' _, timeouts_wf [] s' ∧ ran s s').
Proof.
  induction n as [|n IH]; intros s w H Hn; [lia|]. cbn [run_expired]. rewrite wp_bind, wp_get. destruct (expired_list s) as [|i l] eqn:El.
  { apply wp_ret. split; [done|]. split; [done|done|]. exists []. rewrite app_nil_r, El. split_and!; [done|done|by intros i ?%not_elem_of_nil]. }
  assert (Hi : i ∈ lists s) by (unfold lists; rewrite El, !elem_of_app; right; right; left). destruct (proj2 (tw_users _ _ H i) (or_introl Hi)) as [t Ht].
  rewrite wp_bind. eapply wp_read_user; [done|]. rewrite wp_bind, wp_modify, wp_bind, wp_modify. pose proof (starting_wf s i l H El) as H1. set (s1 := record _ _) in *.
  rewrite wp_bind. eapply wp_mono; [by apply callback_ok|]. intros [] s2 w2 [H2 Hs2]. rewrite wp_bind, wp_modify.
  destruct (st_log _ _ Hs2) as (l1 & L1 & F1 & R1). assert (Hlog : i ∈ map event_id (log s2)).
  { rewrite L1, map_app, elem_of_app. left. cbn. rewrite map_app, elem_of_app. right. left. }
  pose proof (finished_wf s2 i H2 (tw_running _ _ H2 i ltac:(left)) Hlog) as H3. pose proof (st_expired _ _ Hs2) as Hsub. cbn in Hsub.
  eapply wp_mono; [apply IH; [done|cbn; apply sublist_length in Hsub; cbn [length] in Hn; lia]|].
  intros [] s3 w3 [H4 [[T1 T2] E (l2 & L2 & S2 & A2)]]. split; [done|]. cbn in *. destruct (st_time _ _ Hs2) as [T3 T4]. cbn in *. split.
  - split; congruence.
  - done.
  - exists (Fired i :: l1 ++ l2). rewrite L2, L1, El. split; [by rewrite <-!app_assoc|]. split.
    + cbn [fired omap list_omap]. fold (fired (l1 ++ l2)). rewrite fired_app, fired_none by done. cbn [app]. apply sublist_skip. by etrans.
    + intros j [->|Hj]%elem_of_cons; [left; left|]. rewrite !elem_of_cons, !elem_of_app. destruct (decide (j ∈ lists s2)) as [Hj2|Hj2].
      * destruct (A2 j (st_stay _ _ Hs2 j Hj Hj2)); auto.
      * right. right. left. apply R1; [|done]. unfold lists. cbn. rewrite !elem_of_app. auto.
Qed.

(** ** The next timeout *)

(** The timeouts that have expired, in the order in which they are called. *)
Definition due (s : timeouts) : list Z :=
  filter (λ i, when_of (users s) i ≤ current_time s) (abs_list s) ++ filter (λ i, - when_of (users s) i ≤ monotonic_time s) (rel_list s).
(** How long until a timeout expires. *)
Definition abs_delay (s : timeouts) (i : Z) : Z := Z.max 0 (when_of (users s) i - current_time s).
Definition rel_delay (s : timeouts) (i : Z) : Z := Z.max 0 (- when_of (users s) i - monotonic_time s).
(** [d] is the least of the delays and of that of the shared data, if any. *)
Definition bounds_delays (shared : bool) (s : timeouts) (d : Z) : Prop :=
  (shared = true → d ≤ user_shared_data_timeout) ∧ (∀ i, i ∈ abs_list s → d ≤ abs_delay s i) ∧ (∀ i, i ∈ rel_list s → d ≤ rel_delay s i).
Definition is_delay (shared : bool) (s : timeouts) (d : Z) : Prop :=
  (shared = true ∧ d = user_shared_data_timeout) ∨ (∃ i, i ∈ abs_list s ∧ d = abs_delay s i) ∨ (∃ i, i ∈ rel_list s ∧ d = rel_delay s i).
Definition delay_ok (shared : bool) (s : timeouts) (r : Z * option (Z * Z)) : Prop :=
  match r.2 with
  | None => r.1 = -1 ∧ shared = false ∧ abs_list s = [] ∧ rel_list s = []
  | Some (sec, nsec) =>
      ∃ d, bounds_delays shared s d ∧ is_delay shared s d ∧ 0 ≤ sec ∧ 0 ≤ nsec < 1000000000 ∧ sec * 1000000000 + nsec = d * 100 ∧
        r.1 = Z.min INT_MAX ((d + 9999) / 10000)
  end.

Lemma filter_prefix (P : Z → Prop) `{∀ x, Decision (P x)} a b : (∀ i, i ∈ a → P i) → (∀ i, i ∈ b → ¬ P i) → filter P (a ++ b) = a.
Proof.
  intros Ha Hb. rewrite filter_app, (filter_all P a) by done. assert (filter P b = []) as ->; [|by rewrite app_nil_r].
  destruct (filter P b) as [|c l] eqn:E; [done|]. assert (Hc : c ∈ filter P b) by (rewrite E; left). apply list_elem_of_filter in Hc as [? Hc]. by destruct (Hb c Hc).
Qed.

(** The delay of the head is the least of a sorted list. *)
Lemma wp_least s w r (deadline : Z → Z) now l (Q : Z → timeouts → world → Prop) :
  let delay i := Z.max 0 (deadline (when_of (users s) i) - now) in
  (∀ i, i ∈ l → is_Some (users s !! i) ∧ -9223372036854775808 ≤ deadline (when_of (users s) i) - now < 9223372036854775808) →
  StronglySorted (λ i j, deadline (when_of (users s) i) ≤ deadline (when_of (users s) j)) l →
  (∀ r', (r' = r ∧ (l = [] ∨ r ≠ -1) ∨ ∃ i, i ∈ l ∧ r' = delay i ∧ (r = -1 ∨ r' < r)) → (∀ i, i ∈ l → r' ≤ delay i) → Q r' s w) →
  wp (least r deadline now l) s w Q.
Proof.
  intros delay Hl Hs HQ. destruct l as [|i l]; cbn [least]; [apply wp_ret, HQ; [left; auto|by intros i ?%not_elem_of_nil]|].
  destruct (Hl i) as [[t Ht] Hr]; [left|]. rewrite wp_bind. eapply wp_read_user; [done|]. rewrite (when_of_some _ _ _ Ht) in Hr. rewrite s64_small by done. apply wp_ret.
  assert (Ed : (if deadline (t_when t) - now <? 0 then 0 else deadline (t_when t) - now) = delay i).
  { unfold delay. rewrite (when_of_some _ _ _ Ht). destruct (Z.ltb_spec (deadline (t_when t) - now) 0); lia. }
  rewrite Ed. apply StronglySorted_cons in Hs as [Hi _]. rewrite Forall_forall in Hi.
  assert (Hmin : ∀ j, j ∈ i :: l → delay i ≤ delay j) by (intros j [->|Hj]%elem_of_cons; [done|]; specialize (Hi j Hj); unfold delay in *; lia).
  destruct (Z.eqb_spec r (-1)) as [->|Hne]; cbn [orb]; [apply HQ; [right; exists i; split; [left|]; auto|done]|].
  destruct (Z.ltb_spec (delay i) r) as [Hlt|Hge]; apply HQ; try done.
  - right. exists i. split; [left|]. auto.
  - left. auto.
  - intros j Hj. specialize (Hmin j Hj). lia.
Qed.

Lemma milliseconds d : 0 ≤ d < 9223372036854765808 →
  s64 (d + 9999) ÷ 10000 = (d + 9999) / 10000 ∧ 0 ≤ d ÷ TICKS_PER_SEC ∧ 0 ≤ Z.rem d TICKS_PER_SEC * 100 < 1000000000 ∧
  d ÷ TICKS_PER_SEC * 1000000000 + Z.rem d TICKS_PER_SEC * 100 = d * 100.
Proof.
  intros Hd. rewrite s64_small by lia. rewrite !Z.quot_div_nonneg, Z.rem_mod_nonneg by (unfold TICKS_PER_SEC; lia).
  unfold TICKS_PER_SEC. split; [done|]. Z.div_mod_to_equations. lia.
Qed.

(** The two heads, and the conversion of the result. *)
Lemma delay_part_ok (shared : bool) s w : timeouts_wf [] s → expired_list s = [] →
  wp (let* s := get in
      let* r := least (if shared then user_shared_data_timeout else -1) (λ w, w) (current_time s) (abs_list s) in
      least r (λ w, s64 (- w)) (monotonic_time s) (rel_list s)) s w
    (λ r s' _, s' = s ∧ (r = -1 ∧ shared = false ∧ abs_list s = [] ∧ rel_list s = [] ∨ 0 ≤ r < 9223372036854765808 ∧ bounds_delays shared s r ∧ is_delay shared s r)).
Proof.
  intros H He. destruct (tw_time _ _ H) as [Hct Hmt]. unfold MAX_TIME in *. rewrite wp_bind, wp_get, wp_bind.
  assert (Ha : ∀ i, i ∈ abs_list s → is_Some (users s !! i) ∧ 0 < when_of (users s) i < 9223372036854775808).
  { intros i Hi. split; [apply (tw_users _ _ H); left; unfold lists; rewrite elem_of_app; auto|]. pose proof (tw_abs_range _ _ H i Hi). unfold MAX_TIME in *. lia. }
  assert (Hr : ∀ i, i ∈ rel_list s → is_Some (users s !! i) ∧ -4611686018427387904 < when_of (users s) i ≤ 0).
  { intros i Hi. split; [apply (tw_users _ _ H); left; unfold lists; rewrite !elem_of_app; auto|]. pose proof (tw_rel_range _ _ H i Hi). unfold MAX_TIME in *. lia. }
  apply wp_least; [intros i Hi; destruct (Ha i Hi); split; [done|lia]|apply (tw_abs _ _ H)|]. intros r1 H1 B1.
  apply wp_least.
  { intros i Hi. destruct (Hr i Hi). split; [done|]. rewrite s64_small by lia. lia. }
  { eapply sorted_weaken; [|apply (tw_rel _ _ H)]. intros a b Hia Hib. unfold rel_order. rewrite !s64_small by (destruct (Hr a Hia), (Hr b Hib); lia). lia. }
  intros r2 H2 B2. split; [done|]. change (∀ i, i ∈ abs_list s → r1 ≤ abs_delay s i) in B1.
  assert (Hrel : ∀ i, i ∈ rel_list s → Z.max 0 (s64 (- when_of (users s) i) - monotonic_time s) = rel_delay s i).
  { intros i Hi. unfold rel_delay. destruct (Hr i Hi). by rewrite s64_small by lia. }
  assert (B2' : ∀ i, i ∈ rel_list s → r2 ≤ rel_delay s i) by (intros i Hi; rewrite <-Hrel by done; auto). clear B2.
  assert (Hda : ∀ i, i ∈ abs_list s → 0 ≤ abs_delay s i < 9223372036854765808) by (intros i Hi; destruct (Ha i Hi); unfold abs_delay; lia).
  assert (Hdr : ∀ i, i ∈ rel_list s → 0 ≤ rel_delay s i < 9223372036854765808) by (intros i Hi; destruct (Hr i Hi); unfold rel_delay; lia).
  unfold bounds_delays, is_delay. assert (Hsh : shared = true → user_shared_data_timeout ≠ -1) by done. unfold user_shared_data_timeout in *.
  assert (Hr1 : r1 = -1 ∧ shared = false ∧ abs_list s = [] ∨
    0 ≤ r1 < 9223372036854765808 ∧ (shared = true → r1 ≤ 160000) ∧ (shared = true ∧ r1 = 160000 ∨ ∃ i, i ∈ abs_list s ∧ r1 = abs_delay s i)).
  { destruct H1 as [[-> H1]|(i & Hi & -> & Hlt)].
    - destruct shared; [right; split; [lia|split; [lia|by left]]|]. left. destruct H1 as [H1|H1]; [by split_and!|by destruct H1].
    - right. change (Z.max 0 (when_of (users s) i - current_time s)) with (abs_delay s i) in *. split; [auto|]. split; [|right; eauto]. intros ->. lia. }
  clear H1. destruct H2 as [[-> H2]|(i & Hi & Er2 & Hlt)].
  - destruct Hr1 as [(-> & -> & Ea)|(? & ? & ?)]; [left; destruct H2 as [H2|H2]; [by split_and!|by destruct H2]|right; naive_solver].
  - rewrite Hrel in Er2 by done. subst r2. right. split; [auto|]. split; [|eauto]. split_and!; [|intros k Hk|done].
    + destruct Hr1 as [(-> & -> & _)|(? & ? & _)]; [done|]. intros Hs. specialize (H1 Hs). lia.
    + destruct Hlt as [->|Hlt]; [|specialize (B1 k Hk); lia]. destruct Hr1 as [(_ & _ & Ea)|]; [|lia]. rewrite Ea in Hk. by apply not_elem_of_nil in Hk.
Qed.
(** The expired timeouts in a list of their own. *)
Lemma split_wf s a a' b b' : timeouts_wf [] s → expired_list s = [] → abs_list s = a ++ a' → rel_list s = b ++ b' → timeouts_wf [] (set_lists a' b' (a ++ b) s).
Proof.
  intros H He Ea Eb. assert (Hp : lists (set_lists a' b' (a ++ b) s) ≡ₚ lists s) by (unfold lists; cbn; rewrite He, Ea, Eb; solve_Permutation).
  assert (Hin : ∀ j, j ∈ lists (set_lists a' b' (a ++ b) s) ↔ j ∈ lists s) by (intros j; by rewrite Hp).
  split; cbn [users abs_list rel_list current_time monotonic_time next log set_lists]; intros; rewrite ?Hin in *.
  - apply H.
  - rewrite Hp. apply H.
  - pose proof (tw_abs _ _ H) as Hs. rewrite Ea in Hs. by apply StronglySorted_app in Hs as (_ & _ & ?).
  - pose proof (tw_rel _ _ H) as Hs. rewrite Eb in Hs. by apply StronglySorted_app in Hs as (_ & _ & ?).
  - apply (tw_abs_range _ _ H). rewrite Ea, elem_of_app. auto.
  - apply (tw_rel_range _ _ H). rewrite Eb, elem_of_app. auto.
  - apply H.
  - by apply (tw_ended _ _ H).
  - by apply (tw_next _ _ H).
  - by apply (tw_running _ _ H).
  - apply H.
Qed.

(** What the whole function does to the expired timeouts. *)
Definition fired_due (s s' : timeouts) : Prop :=
  ∃ l, log s' = log s ++ l ∧ fired l `sublist_of` due s ∧ ∀ i, i ∈ due s → Fired i ∈ l ∨ Removed i ∈ l.

Lemma wp_split_lists {A} (k : list Z * list Z → list Z * list Z → TM A) s w (Q : A → timeouts → world → Prop) : timeouts_wf [] s → expired_list s = [] →
  (∀ a a' b b', abs_list s = a ++ a' → rel_list s = b ++ b' → due s = a ++ b → wp (k (a, a') (b, b')) s w Q) →
  wp (let* a := split_expired (λ w, w <=? current_time s) (abs_list s) in
      let* b := split_expired (λ w, s64 (- w) <=? monotonic_time s) (rel_list s) in k a b) s w Q.
Proof.
  intros H He HQ. assert (Hr : ∀ i, i ∈ rel_list s → s64 (- when_of (users s) i) = - when_of (users s) i).
  { intros i Hi. pose proof (tw_rel_range _ _ H i Hi). unfold MAX_TIME in *. apply s64_small. lia. }
  rewrite wp_bind. apply wp_split_expired.
  { intros i Hi. apply (tw_users _ _ H). left. unfold lists. rewrite elem_of_app. auto. }
  { eapply sorted_weaken; [|apply (tw_abs _ _ H)]. intros i j _ _. unfold abs_order. lia. }
  intros a a' Ea Ha Ha'. rewrite wp_bind. apply wp_split_expired.
  { intros i Hi. apply (tw_users _ _ H). left. unfold lists. rewrite !elem_of_app. auto. }
  { eapply sorted_weaken; [|apply (tw_rel _ _ H)]. intros i j Hi Hj. unfold rel_order. rewrite !Hr by done. lia. }
  intros b b' Eb Hb Hb'. apply HQ; [done|done|]. unfold due. rewrite Ea, Eb. f_equal; apply filter_prefix.
  - intros i Hi. specialize (Ha i Hi). lia.
  - intros i Hi. specialize (Ha' i Hi). lia.
  - intros i Hi. specialize (Hb i Hi). rewrite Hr in Hb by (rewrite Eb, elem_of_app; auto). lia.
  - intros i Hi. specialize (Hb' i Hi). rewrite Hr in Hb' by (rewrite Eb, elem_of_app; auto). lia.
Qed.

Lemma get_next_timeout_ok shared s w : timeouts_wf [] s → expired_list s = [] →
  wp (get_next_timeout script shared) s w (λ r s' _, timeouts_wf [] s' ∧ expired_list s' = [] ∧ (current_time s' = current_time s ∧ monotonic_time s' = monotonic_time s) ∧
    delay_ok shared s' r ∧ fired_due s s').
Proof.
  intros H He. unfold get_next_timeout. rewrite wp_bind, wp_get, wp_bind.
  set (R := λ (r : Z) (s' : timeouts) (_ : world), timeouts_wf [] s' ∧ expired_list s' = [] ∧ (current_time s' = current_time s ∧ monotonic_time s' = monotonic_time s) ∧
    (r = -1 ∧ shared = false ∧ abs_list s' = [] ∧ rel_list s' = [] ∨ 0 ≤ r < 9223372036854765808 ∧ bounds_delays shared s' r ∧ is_delay shared s' r) ∧ fired_due s s').
  apply (wp_mono _ _ _ R).
  - destruct (bool_decide (abs_list s = []) && bool_decide (rel_list s = [])) eqn:E.
    + apply andb_true_iff in E as [Ea%bool_decide_eq_true Er%bool_decide_eq_true]. apply wp_ret. split; [done|]. split; [done|]. split; [done|]. split.
      * unfold bounds_delays, is_delay, user_shared_data_timeout. rewrite Ea, Er. pose proof (not_elem_of_nil (A := Z)). destruct shared; [right|left]; naive_solver lia.
      * exists []. unfold due. rewrite Ea, Er, app_nil_r. split; [done|]. split; [done|]. by intros i ?%not_elem_of_nil.
    + apply wp_split_lists; [done|done|]. intros a a' b b' Ea Eb Ed. cbn [fst snd]. rewrite wp_bind, wp_modify.
      pose proof (split_wf s a a' b b' H He Ea Eb) as H1. set (s1 := set_lists _ _ _ _) in *. rewrite wp_bind.
      eapply wp_mono; [apply run_expired_ok; [done|cbn; lia]|]. intros [] s2 w2 [H2 [Ht2 He2 (l & Hl & Hs & Hall)]]. cbn in Hl, Hs, Hall, Ht2.
      eapply wp_mono; [by apply delay_part_ok|]. intros r s3 w3 [-> Hr]. split; [done|]. split; [done|]. split; [done|]. split; [done|].
      exists l. by rewrite Ed.
  - intros r s' w' (H' & He' & Ht & Hr & Hf). destruct Hr as [(-> & -> & Ea & Er)|(Hr & Hb & Hd)].
    + apply wp_ret. do 3 (split; [done|]). split; [|done]. cbn. auto.
    + destruct (Z.eqb_spec r (-1)); [lia|]. apply wp_ret. do 3 (split; [done|]). split; [|done].
      destruct (milliseconds r Hr) as (-> & ? & ? & ?). exists r. do 5 (split; [done|]). cbn [fst]. destruct (Z.ltb_spec INT_MAX ((r + 9999) / 10000)); lia.
Qed.

(** ** Sequences of requests *)

(** A timeout is removed while it is pending; the clock is not before 1601 nor thousands of
    years ahead, but may be set back. *)
Definition allowed (s : timeouts) (r : request) : Prop :=
  match r with
  | AddTimeout t _ => in_range t
  | RemoveTimeout i => i ∈ lists s
  | SetTime sec usec counter => 0 ≤ sec < 200000000000 ∧ 0 ≤ usec < 1000000 ∧ 0 ≤ counter ≤ MAX_TIME
  | NextTimeout _ => True
  end.
Inductive reachable : timeouts → Prop :=
  | reach_start now mono : 10000 ≤ now ≤ MAX_TIME → 0 ≤ mono ≤ MAX_TIME → reachable (no_timeouts now mono)
  | reach_request s w r s' w' : reachable s → allowed s r → run_request script r s w = Some (tt, s', w') → reachable s'.
Definition idle (s : timeouts) : Prop := timeouts_wf [] s ∧ expired_list s = [].

Lemma set_current_time_ok s w sec usec counter : idle s → allowed s (SetTime sec usec counter) → wp (set_current_time sec usec counter) s w (λ _ s' _, idle s').
Proof.
  intros [H He] (Hs & Hu & Hc). unfold set_current_time. rewrite wp_modify. cbn zeta. split; [|done].
  assert (Ht : 10000 ≤ s64 (sec * TICKS_PER_SEC + usec * 10 + 86400 * (369 * 365 + 89) * TICKS_PER_SEC) ≤ MAX_TIME).
  { unfold MAX_TIME, TICKS_PER_SEC. rewrite s64_small by lia. lia. }
  split; try apply H. split; [exact Ht|exact Hc].
Qed.

Lemma run_request_ok s w r : idle s → allowed s r → wp (run_request script r) s w (λ _ s' _, idle s').
Proof.
  intros [H He] Ha. destruct r as [t p|i|sec usec counter|shared]; cbn [run_request run_op].
  - rewrite wp_bind. eapply wp_mono; [by apply add_timeout_user_ok|]. intros r s' w' (H' & Hs & _). apply wp_ret. split; [done|]. pose proof (st_expired _ _ Hs) as Hx. rewrite He in Hx. by apply sublist_nil_r in Hx.
  - eapply wp_mono; [by apply remove_timeout_user_ok|]. intros [] s' w' (H' & Hs & _). split; [done|]. pose proof (st_expired _ _ Hs) as Hx. rewrite He in Hx. by apply sublist_nil_r in Hx.
  - by apply set_current_time_ok.
  - rewrite wp_bind. eapply wp_mono; [by apply get_next_timeout_ok|]. intros r s' w' (H' & He' & _). by apply wp_ret.
Qed.

Lemma no_timeouts_idle now mono : 10000 ≤ now ≤ MAX_TIME → 0 ≤ mono ≤ MAX_TIME → idle (no_timeouts now mono).
Proof.
  intros Hn Hm. split; [|done]. assert (Hnil : ∀ i : Z, i ∉ []) by apply not_elem_of_nil. split; unfold lists; cbn; try (by intros i ?%not_elem_of_nil); try constructor; try done.
  - by intros [].
  - by intros [?%not_elem_of_nil|?%not_elem_of_nil].
  - intros i [?%not_elem_of_nil|[?%not_elem_of_nil|?%not_elem_of_nil]]; done.
Qed.

Lemma reachable_idle s : reachable s → idle s.
Proof.
  induction 1 as [now mono Hn Hm|s w r s' w' _ IH Ha Hrun]; [by apply no_timeouts_idle|]. pose proof (run_request_ok s w r IH Ha) as Hw. by rewrite (wp_run _ _ _ _ _ _ Hrun) in Hw.
Qed.

(** C18: whatever is added, removed, and done by the functions that are called, whatever
    allocations fail and however the clock is set: the lists stay sorted, a timeout is in
    one of them at most, none is called twice, nor after its removal, and the next request
    does not touch a freed timeout. *)
Theorem timeouts_safe s r w : reachable s → allowed s r →
  timeouts_wf [] s ∧ ∃ s' w', run_request script r s w = Some (tt, s', w') ∧ reachable s'.
Proof.
  intros Hs Ha. pose proof (reachable_idle s Hs) as Hi. split; [apply Hi|]. destruct (wp_elim _ _ _ _ (run_request_ok s w r Hi Ha)) as ([] & s' & w' & E & _).
  exists s', w'. split; [done|]. by eapply reach_request.
Qed.

(** C17: [get_next_timeout] calls the functions of timeouts that have expired, and of no others,
    in their order, absolute ones first; every expired one is called or removed by one that
    is called before; and the delay it gives is the least of those of the timeouts that
    remain, rounded up to milliseconds and exact in the [timespec], -1 if there is none. *)
Theorem get_next_timeout_correct s w shared : reachable s →
  ∃ r s' w', get_next_timeout script shared s w = Some (r, s', w') ∧ reachable s' ∧ delay_ok shared s' r ∧
    ∃ l, log s' = log s ++ l ∧ fired l `sublist_of` due s ∧ ∀ i, i ∈ due s → (Fired i ∈ l ∨ Removed i ∈ l) ∧ i ∉ lists s'.
Proof.
  intros Hs. destruct (reachable_idle s Hs) as [H He]. destruct (wp_elim _ _ _ _ (get_next_timeout_ok shared s w H He)) as (r & s' & w' & E & H' & _ & _ & Hd & l & El & Hf & Hall).
  exists r, s', w'. split; [done|]. split; [|split; [done|]].
  - apply (reach_request s w (NextTimeout shared) s' w' Hs I). cbn [run_request]. by rewrite (bind_run _ _ _ _ _ _ _ E).
  - exists l. split; [done|]. split; [done|]. intros i Hi. split; [by apply Hall|]. apply (tw_ended _ _ H'). rewrite El, map_app, elem_of_app. right.
    destruct (Hall i Hi); apply list_elem_of_fmap; [exists (Fired i)|exists (Removed i)]; done.
Qed.
End Expired.

(** ** Examples *)

(** Function 1 sets a timeout again, and removes the next one that has expired. *)
Definition periodic (p : Z) (s : timeouts) : list op :=
  if p =? 1 then Add (-100000) 1 :: match expired_list s with [] => [] | i :: _ => [Remove i] end else [].

Lemma periodic_ok p s running : timeouts_wf running s → ops_ok s (periodic p s).
Proof.
  intros H. unfold periodic. destruct (p =? 1); [|split; [constructor|split; [by intros i ?%not_elem_of_nil|by intros t q ?%not_elem_of_nil]]].
  assert (Hadd : in_range (-100000)) by (unfold in_range, MAX_TIME; lia). destruct (expired_list s) as [|i l] eqn:E; cbn.
  - split; [constructor|]. split; [by intros i ?%not_elem_of_nil|]. intros t q [= -> _]%list_elem_of_singleton. done.
  - split; [apply NoDup_singleton|]. split.
    + intros j ->%list_elem_of_singleton. unfold lists. rewrite E, !elem_of_app. right. right. left.
    + intros t q [[= -> ->]|[= ]%list_elem_of_singleton]%elem_of_cons. done.
Qed.

Definition after (r : request) (s : timeouts) : timeouts := match run_request periodic r s (World 0 []) with Some (_, s', _) => s' | None => s end.
Lemma reach_after s r : reachable periodic s → allowed s r → is_Some (run_request periodic r s (World 0 [])) → reachable periodic (after r s).
Proof. intros Hs Ha [[[[] s'] w'] E]. unfold after. rewrite E. by eapply reach_request. Qed.

Definition pending_0 : timeouts := no_timeouts 20000 500.
Definition pending_1 : timeouts := after (AddTimeout (-1000) 1) pending_0.
Definition pending_2 : timeouts := after (AddTimeout (-3000) 2) pending_1.
Definition pending_3 : timeouts := after (AddTimeout (-2000) 3) pending_2.
Definition pending_4 : timeouts := after (AddTimeout 9223372036854775807 4) pending_3.
Definition pending_5 : timeouts := after (SetTime 0 0 3000) pending_4.

Lemma pending_reachable : reachable periodic pending_5.
Proof.
  repeat (apply reach_after; [|try (unfold allowed, in_range, MAX_TIME; lia)|vm_compute; eauto]).
  apply reach_start; unfold MAX_TIME; lia.
Qed.

(** The first of two expired timeouts removes the second and sets a new one, the third is
    due in 50 microseconds. *)
Example pending_next : rel_list pending_5 = [0; 2; 1] ∧ due pending_5 = [0; 2] ∧
  match get_next_timeout periodic false pending_5 (World 0 []) with
  | Some (r, s', _) => r = (1, Some (0, 50000)) ∧ log s' = [Fired 0; Removed 2] ∧ rel_list s' = [1; 4] ∧ abs_list s' = [3]
  | None => False
  end.
Proof. vm_compute. done. Qed.

Lemma timeouts_safe_witness : timeouts_wf [] pending_5 ∧ ∃ s' w', run_request periodic (RemoveTimeout 2) pending_5 (World 0 []) = Some (tt, s', w') ∧ reachable periodic s'.
Proof. apply (timeouts_safe periodic periodic_ok pending_5 (RemoveTimeout 2) (World 0 []) pending_reachable). vm_compute. right. right. left. Defined.

Lemma get_next_timeout_correct_witness :
  ∃ r s' w', get_next_timeout periodic false pending_5 (World 0 []) = Some (r, s', w') ∧ reachable periodic s' ∧ delay_ok false s' r ∧
    ∃ l, log s' = log pending_5 ++ l ∧ fired l `sublist_of` due pending_5 ∧ ∀ i, i ∈ due pending_5 → (Fired i ∈ l ∨ Removed i ∈ l) ∧ i ∉ lists s'.
Proof. apply (get_next_timeout_correct periodic periodic_ok pending_5 (World 0 []) false pending_reachable). Defined.
