(* ===== verification/Polling.v ===== *)
(** * Polling (server/fd.c)

    The server waits for events on Unix descriptors and calls the [poll_event] function of
    their fd objects. [poll_users] and [pollfd] are parallel arrays, indexed by [poll_index]
    of the fd object; free entries of [poll_users] are linked by pointers into the array
    itself, which [realloc] may move. A pointer is the block it points into and an index.

    The functions that are called open, close and reprogram any fd objects, those for which
    an event has been reported included. The kernel's epoll instance is a class with the
    documented effects of [epoll_ctl]; what [poll] and [epoll_wait] report is an argument.

    Theorems: no pointer of the free list is stale, and an event goes to the fd object for
    which it was reported, unless that has been closed or has stopped waiting before. *)

From S2P Require Import Prelude.

(** From the system header poll.h. *)
Definition POLLERR : Z := 8.

Inductive ctl := EPOLL_CTL_ADD | EPOLL_CTL_DEL | EPOLL_CTL_MOD.
Inductive ctl_result := CtlOk | CtlNoMem | CtlError.
(** What the server relies on: a descriptor is registered with a number, which is reported
    with its events, until it is removed. *)
Class Epoll (K : Type) := {
  ep_create : option K;
  ep_ctl : ctl → Z → Z → nat → K → ctl_result * K;
  ep_registered : K → gmap Z nat;
  ep_create_law k : ep_create = Some k → ep_registered k = ∅;
  ep_add_law unix ev user k r k' : ep_ctl EPOLL_CTL_ADD unix ev user k = (r, k') → ep_registered k' = match r with CtlOk => <[unix := user]> (ep_registered k) | _ => ep_registered k end;
  ep_mod_law unix ev user k r k' : ep_ctl EPOLL_CTL_MOD unix ev user k = (r, k') → ep_registered k' = match r with CtlOk => <[unix := user]> (ep_registered k) | _ => ep_registered k end;
  ep_del_law unix ev user k r k' : ep_ctl EPOLL_CTL_DEL unix ev user k = (r, k') → ep_registered k' = delete unix (ep_registered k)
}.

(** An address inside the block [poll_users]. *)
Definition pointer : Type := Z * nat.
Inductive slot := User (f : Z) | Free (next : option pointer).
Record pollent := PollEnt { pfd : Z; pevents : Z; prevents : Z }.
Record fd_object := FdObject { poll_index : nat; unix_fd : Z }.
Inductive event := Called (f ev : Z) | Stopped (f : Z).

Section Polling.
Context {K : Type} `{EK : Epoll K}.

(** [block] is the address of [poll_users]; [nb_users] is the length of both arrays. *)
Record polls := Polls {
  poll_users : list slot; pollfd : list pollent; block : Z; allocated_users : Z; active_users : Z; freelist : option pointer;
  epoll : option K; fds : gmap Z fd_object; next_fd : Z; log : list event }.
#[local] Abbreviation PM := (M polls).

Definition set_arrays (u : list slot) (p : list pollent) (s : polls) : polls :=
  Polls u p (block s) (allocated_users s) (active_users s) (freelist s) (epoll s) (fds s) (next_fd s) (log s).
Definition set_block (b alloc : Z) (s : polls) : polls :=
  Polls (poll_users s) (pollfd s) b alloc (active_users s) (freelist s) (epoll s) (fds s) (next_fd s) (log s).
Definition set_active (n : Z) (s : polls) : polls :=
  Polls (poll_users s) (pollfd s) (block s) (allocated_users s) n (freelist s) (epoll s) (fds s) (next_fd s) (log s).
Definition set_freelist (p : option pointer) (s : polls) : polls :=
  Polls (poll_users s) (pollfd s) (block s) (allocated_users s) (active_users s) p (epoll s) (fds s) (next_fd s) (log s).
Definition set_epoll (k : option K) (s : polls) : polls :=
  Polls (poll_users s) (pollfd s) (block s) (allocated_users s) (active_users s) (freelist s) k (fds s) (next_fd s) (log s).
Definition set_fds (f : gmap Z fd_object) (n : Z) (s : polls) : polls :=
  Polls (poll_users s) (pollfd s) (block s) (allocated_users s) (active_users s) (freelist s) (epoll s) f n (log s).
Definition record (e : event) (s : polls) : polls :=
  Polls (poll_users s) (pollfd s) (block s) (allocated_users s) (active_users s) (freelist s) (epoll s) (fds s) (next_fd s) (log s ++ [e]).

Definition read_user (i : nat) : PM slot := let* s := get in match poll_users s !! i with Some u => ret u | None => crash end.
Definition read_pollfd (i : nat) : PM pollent := let* s := get in match pollfd s !! i with Some p => ret p | None => crash end.
Definition write_user (i : nat) (u : slot) : PM unit := let* _ := read_user i in modify (λ s, set_arrays (<[i := u]> (poll_users s)) (pollfd s) s).
Definition write_pollfd (i : nat) (p : pollent) : PM unit := let* _ := read_pollfd i in modify (λ s, set_arrays (poll_users s) (<[i := p]> (pollfd s)) s).
Definition read_fd (f : Z) : PM fd_object := let* s := get in match fds s !! f with Some x => ret x | None => crash end.

(** The two [realloc] calls. If the second fails, the first may have moved the array. *)
Definition grow : PM bool :=
  let* s := get in
  let new_count := if allocated_users s =? 0 then 16 else allocated_users s + allocated_users s ÷ 2 in
  let* ok := malloc in
  if negb ok then ret false else
  let* ok := malloc in
  if negb ok then (if allocated_users s =? 0 then ret false else modify (set_block (block s + 1) (allocated_users s)) >> ret false) else
  modify (set_block (block s + 1) new_count) >>
  (if allocated_users s =? 0 then modify (set_epoll ep_create) else ret tt) >>
  ret true.
Definition add_poll_user (f : Z) : PM (option nat) :=
  let* s := get in
  match freelist s with
  | Some (b, i) =>
      c_assert (b =? block s) >>
      let* u := read_user i in
      match u with
      | User _ => crash
      | Free next =>
          modify (set_freelist next) >>
          write_pollfd i (PollEnt (-1) 0 0) >>
          write_user i (User f) >>
          modify (λ s, set_active (active_users s + 1) s) >>
          ret (Some i)
      end
  | None =>
      let* ok := (if Z.of_nat (length (poll_users s)) =? allocated_users s then grow else ret true) in
      if negb ok then ret None else
      let* s := get in
      c_assert (Z.of_nat (length (poll_users s)) <? allocated_users s) >>
      modify (set_arrays (poll_users s ++ [User f]) (pollfd s ++ [PollEnt (-1) 0 0])) >>
      modify (λ s, set_active (active_users s + 1) s) >>
      ret (Some (length (poll_users s)))
  end.
Definition epoll_ctl (op : ctl) (unix events : Z) (user : nat) : PM ctl_result :=
  let* s := get in
  match epoll s with
  | None => crash
  | Some k => let p := ep_ctl op unix events user k in modify (set_epoll (Some p.2)) >> ret p.1
  end.
Definition remove_epoll_user (f : Z) (user : nat) : PM unit :=
  let* s := get in
  match epoll s with
  | None => ret tt
  | Some _ =>
      let* p := read_pollfd user in
      if pfd p =? -1 then ret tt else
      let* x := read_fd f in
      let* _ := epoll_ctl EPOLL_CTL_DEL (unix_fd x) 0 user in ret tt
  end.
Definition remove_poll_user (f : Z) (user : nat) : PM unit :=
  let* u := read_user user in
  c_assert (match u with User g => g =? f | Free _ => false end) >>
  remove_epoll_user f user >>
  write_pollfd user (PollEnt (-1) 0 0) >>
  let* s := get in
  write_user user (Free (freelist s)) >>
  modify (set_freelist (Some (block s, user))) >>
  modify (λ s, set_active (active_users s - 1) s).
Definition set_fd_epoll_events (f : Z) (user : nat) (events : Z) : PM unit :=
  let* s := get in
  match epoll s with
  | None => ret tt
  | Some _ =>
      let* p := read_pollfd user in
      let op := if events =? -1 then (if pfd p =? -1 then None else Some EPOLL_CTL_DEL)
                else if pfd p =? -1 then Some EPOLL_CTL_ADD else if pevents p =? events then None else Some EPOLL_CTL_MOD in
      match op with
      | None => ret tt
      | Some op =>
          let* x := read_fd f in
          let* r := epoll_ctl op (unix_fd x) events user in
          match r with CtlNoMem => modify (set_epoll None) | _ => ret tt end
      end
  end.
Definition set_fd_events (f events : Z) : PM unit :=
  let* x := read_fd f in
  let user := poll_index x in
  let* u := read_user user in
  c_assert (match u with User g => g =? f | Free _ => false end) >>
  set_fd_epoll_events f user events >>
  let* p := read_pollfd user in
  if events =? -1 then write_pollfd user (PollEnt (-1) POLLERR 0) >> modify (record (Stopped f))
  else write_pollfd user (PollEnt (unix_fd x) events (prevents p)).

(** The fd object with its [sync], as far as polling is concerned. Its Unix descriptor is set
    by the callers, at once here. *)
Definition alloc_fd_object (unix : Z) : PM (option Z) :=
  let* ok := mem_alloc in
  if negb ok then ret None else
  let* ok := mem_alloc in
  if negb ok then ret None else
  let* s := get in
  let f := next_fd s in
  modify (set_fds (fds s) (f + 1)) >>
  let* i := add_poll_user f in
  match i with
  | None => ret None
  | Some i => modify (λ s, set_fds (<[f := FdObject i unix]> (fds s)) (next_fd s) s) >> ret (Some f)
  end.
Definition fd_destroy (f : Z) : PM unit :=
  let* x := read_fd f in
  remove_poll_user f (poll_index x) >>
  modify (λ s, set_fds (delete f (fds s)) (next_fd s) s) >>
  modify (record (Stopped f)).

Inductive op := Open (unix : Z) | Close (f : Z) | Events (f events : Z).
Definition run_op (o : op) : PM unit :=
  match o with Open unix => let* _ := alloc_fd_object unix in ret tt | Close f => fd_destroy f | Events f events => set_fd_events f events end.
Fixpoint run_ops (l : list op) : PM unit := match l with [] => ret tt | o :: l => run_op o >> run_ops l end.

Section Script.
(** What the [poll_event] functions do. *)
Context (script : Z → Z → polls → list op).
Definition fd_poll_event (u : slot) (ev : Z) : PM unit :=
  match u with
  | Free _ => crash
  | User f => modify (record (Called f ev)) >> let* s := get in run_ops (script f ev s)
  end.

(** One turn of [main_loop_epoll], after [epoll_wait]. *)
Fixpoint put_events (l : list (nat * Z)) : PM unit :=
  match l with
  | [] => ret tt
  | (user, ev) :: l => let* p := read_pollfd user in write_pollfd user (PollEnt (pfd p) (pevents p) ev) >> put_events l
  end.
Fixpoint call_events (l : list (nat * Z)) : PM unit :=
  match l with
  | [] => ret tt
  | (user, _) :: l =>
      let* p := read_pollfd user in
      (if prevents p =? 0 then ret tt else let* u := read_user user in fd_poll_event u (prevents p)) >>
      call_events l
  end.
Definition epoll_turn (l : list (nat * Z)) : PM unit := put_events l >> call_events l.

(** One turn of [main_loop], after [poll], which has written [revents] and returned the
    number of those that are not zero. *)
Fixpoint next_ready (i : nat) (l : list pollent) : option (nat * Z) :=
  match l with
  | [] => None
  | p :: l => if prevents p =? 0 then next_ready (S i) l else Some (i, prevents p)
  end.
Fixpoint call_ready (ready i : nat) : PM unit :=
  match ready with
  | O => ret tt
  | S ready =>
      let* s := get in
      match next_ready i (drop i (pollfd s)) with
      | None => ret tt
      | Some (j, ev) => (let* u := read_user j in fd_poll_event u ev) >> call_ready ready (S j)
      end
  end.
Definition poll_turn (revents : list Z) : PM unit :=
  modify (λ s, set_arrays (poll_users s) (zip_with (λ p ev, PollEnt (pfd p) (pevents p) ev) (pollfd s) revents) s) >>
  call_ready (length (filter (λ ev, ev ≠ 0) revents)) 0.
End Script.

(** ** The invariant *)

(** The free entries from a pointer on. *)
Fixpoint chain (s : polls) (p : option pointer) (l : list nat) : Prop :=
  match l with
  | [] => p = None
  | i :: l => p = Some (block s, i) ∧ ∃ q, poll_users s !! i = Some (Free q) ∧ chain s q l
  end.
Record polls_wf (s : polls) : Prop := {
  pw_len : length (pollfd s) = length (poll_users s);
  pw_alloc : (allocated_users s = 0 ∨ 16 ≤ allocated_users s) ∧ Z.of_nat (length (poll_users s)) ≤ allocated_users s;
  pw_users i f : poll_users s !! i = Some (User f) ↔ ∃ x, fds s !! f = Some x ∧ poll_index x = i;
  pw_free : ∃ l, chain s (freelist s) l ∧ NoDup l ∧ ∀ i, i ∈ l ↔ ∃ n, poll_users s !! i = Some (Free n);
  pw_pfd f x p : fds s !! f = Some x → pollfd s !! poll_index x = Some p → pfd p = -1 ∨ pfd p = unix_fd x;
  pw_free_pfd i n p : poll_users s !! i = Some (Free n) → pollfd s !! i = Some p → pfd p = -1 ∧ prevents p = 0;
  pw_registered k unix user : epoll s = Some k → ep_registered k !! unix = Some user →
    ∃ f x p, fds s !! f = Some x ∧ unix_fd x = unix ∧ poll_index x = user ∧ pollfd s !! user = Some p ∧ pfd p = unix;
  pw_unix f g x y : fds s !! f = Some x → fds s !! g = Some y → unix_fd x = unix_fd y → f = g;
  pw_valid f x : fds s !! f = Some x → 0 ≤ unix_fd x;
  pw_active : active_users s = Z.of_nat (size (fds s));
  pw_next f : is_Some (fds s !! f) → f < next_fd s
}.

(** What an operation does to the entries whose events have not been looked at. *)
Record step (s s' : polls) (l : list event) : Prop := {
  st_log : log s' = log s ++ l;
  st_called f ev : Called f ev ∉ l;
  st_len : (length (pollfd s) ≤ length (pollfd s'))%nat;
  st_keep i f p : poll_users s !! i = Some (User f) → pollfd s !! i = Some p → prevents p ≠ 0 → ∃ p', pollfd s' !! i = Some p' ∧
    (prevents p' = prevents p ∧ poll_users s' !! i = Some (User f) ∧ Stopped f ∉ l ∨ prevents p' = 0 ∧ Stopped f ∈ l);
  st_new i p' : pollfd s' !! i = Some p' → prevents p' ≠ 0 → ∃ p, pollfd s !! i = Some p ∧ prevents p = prevents p'
}.

Lemma poll_step_refl s : step s s [].
Proof. split; [by rewrite app_nil_r|by intros ? ? ?%not_elem_of_nil|done| |eauto]. intros i f p Hi Hp Hr. exists p. split; [done|]. left. split_and!; [done|done|apply not_elem_of_nil]. Qed.

Lemma step_zero s s' l i p : step s s' l → pollfd s !! i = Some p → prevents p = 0 → ∃ p', pollfd s' !! i = Some p' ∧ prevents p' = 0.
Proof.
  intros H Hp Hz. destruct (lookup_lt_is_Some_2 (pollfd s') i) as [p' Hp'].
  { eapply Nat.lt_le_trans; [by eapply lookup_lt_Some|apply (st_len _ _ _ H)]. }
  exists p'. split; [done|]. destruct (decide (prevents p' = 0)) as [|Hn]; [done|]. destruct (st_new _ _ _ H i p' Hp' Hn) as (q & Hq & E). congruence.
Qed.

Lemma poll_step_trans s1 s2 s3 l1 l2 : step s1 s2 l1 → step s2 s3 l2 → step s1 s3 (l1 ++ l2).
Proof.
  intros H1 H2. split.
  - by rewrite (st_log _ _ _ H2), (st_log _ _ _ H1), app_assoc.
  - intros f ev [Hc|Hc]%elem_of_app; [by eapply (st_called _ _ _ H1)|by eapply (st_called _ _ _ H2)].
  - etrans; [apply (st_len _ _ _ H1)|apply (st_len _ _ _ H2)].
  - intros i f p Hi Hp Hr. destruct (st_keep _ _ _ H1 i f p Hi Hp Hr) as (p' & Hp' & [(E & Hi' & Hn)|[Hz Hs]]).
    + destruct (st_keep _ _ _ H2 i f p' Hi' Hp' ltac:(congruence)) as (p'' & Hp'' & [(E' & Hi'' & Hn')|[Hz Hs]]); exists p''; (split; [done|]).
      * left. rewrite elem_of_app. split_and!; [congruence|done|naive_solver].
      * right. rewrite elem_of_app. auto.
    + destruct (step_zero _ _ _ _ _ H2 Hp' Hz) as (p'' & Hp'' & Hz'). exists p''. split; [done|]. right. rewrite elem_of_app. auto.
  - intros i p' Hp' Hr. destruct (st_new _ _ _ H2 i p' Hp' Hr) as (q & Hq & E). destruct (st_new _ _ _ H1 i q Hq ltac:(congruence)) as (p & Hp & E'). exists p. split; [done|congruence].
Qed.

Lemma wp_poll_users i s w u (Q : slot → polls → world → Prop) : poll_users s !! i = Some u → Q u s w → wp (read_user i) s w Q.
Proof. intros Hi HQ. unfold read_user. rewrite wp_bind, wp_get, Hi. by apply wp_ret. Qed.

Lemma wp_read_pollfd i s w p (Q : pollent → polls → world → Prop) : pollfd s !! i = Some p → Q p s w → wp (read_pollfd i) s w Q.
Proof. intros Hi HQ. unfold read_pollfd. rewrite wp_bind, wp_get, Hi. by apply wp_ret. Qed.

Lemma wp_read_fd f s w x (Q : fd_object → polls → world → Prop) : fds s !! f = Some x → Q x s w → wp (read_fd f) s w Q.
Proof. intros Hi HQ. unfold read_fd. rewrite wp_bind, wp_get, Hi. by apply wp_ret. Qed.

Lemma wp_write_user i u s w v (Q : unit → polls → world → Prop) : poll_users s !! i = Some v → Q tt (set_arrays (<[i := u]> (poll_users s)) (pollfd s) s) w → wp (write_user i u) s w Q.
Proof. intros Hi HQ. unfold write_user. rewrite wp_bind. eapply wp_poll_users; [done|]. by apply wp_modify. Qed.

Lemma wp_write_pollfd i p s w q (Q : unit → polls → world → Prop) : pollfd s !! i = Some q → Q tt (set_arrays (poll_users s) (<[i := p]> (pollfd s)) s) w → wp (write_pollfd i p) s w Q.
Proof. intros Hi HQ. unfold write_pollfd. rewrite wp_bind. eapply wp_read_pollfd; [done|]. by apply wp_modify. Qed.

(** An entry of the first array has one in the second. *)
Lemma both_entries s i u : polls_wf s → poll_users s !! i = Some u → ∃ p, pollfd s !! i = Some p.
Proof. intros H Hi. apply lookup_lt_is_Some_2. rewrite (pw_len _ H). by eapply lookup_lt_Some. Qed.

Lemma user_entry s f x : polls_wf s → fds s !! f = Some x → poll_users s !! poll_index x = Some (User f) ∧ ∃ p, pollfd s !! poll_index x = Some p.
Proof. intros H Hx. assert (Hu : poll_users s !! poll_index x = Some (User f)) by (apply (pw_users _ H); eauto). split; [done|]. by eapply both_entries. Qed.

Lemma chain_ext s s' p l : block s' = block s → (∀ i, i ∈ l → poll_users s' !! i = poll_users s !! i) → chain s p l → chain s' p l.
Proof.
  intros Hb. revert p. induction l as [|i l IH]; intros p Hl; [done|]. cbn. intros (-> & q & Hq & Hc). split; [by rewrite Hb|]. exists q.
  rewrite Hl by left. split; [done|]. apply IH; [|done]. intros j Hj. apply Hl. by right.
Qed.

(** What is registered after a change for one fd object. *)
Definition registers (s : polls) (x : fd_object) (on : bool) (e : option K) : Prop :=
  ∀ k unix user, e = Some k → ep_registered k !! unix = Some user →
    (unix ≠ unix_fd x ∧ ∃ k0, epoll s = Some k0 ∧ ep_registered k0 !! unix = Some user) ∨ (on = true ∧ unix = unix_fd x ∧ user = poll_index x).

Lemma registered_here s f x p k user : polls_wf s → fds s !! f = Some x → pollfd s !! poll_index x = Some p → epoll s = Some k →
  ep_registered k !! unix_fd x = Some user → user = poll_index x ∧ pfd p = unix_fd x ∧ pfd p ≠ -1.
Proof.
  intros H Hx Hp Hk Hr. destruct (pw_registered _ H k _ _ Hk Hr) as (g & y & q & Hy & Eu & <- & Hq & Ep). assert (g = f) as -> by (by eapply (pw_unix _ H)).
  assert (y = x) as -> by congruence. assert (q = p) as -> by congruence. pose proof (pw_valid _ H f x Hx). split_and!; [done|done|lia].
Qed.

Lemma wp_epoll_ctl o unix ev user s w k (Q : ctl_result → polls → world → Prop) : epoll s = Some k →
  (∀ r k', ep_ctl o unix ev user k = (r, k') → Q r (set_epoll (Some k') s) w) → wp (epoll_ctl o unix ev user) s w Q.
Proof. intros Hk HQ. unfold epoll_ctl. rewrite wp_bind, wp_get, Hk. destruct (ep_ctl o unix ev user k) as [r k'] eqn:E. cbn. rewrite wp_bind, wp_modify. apply wp_ret. by apply HQ. Qed.

Lemma set_epoll_same s : set_epoll (epoll s) s = s.
Proof. by destruct s. Qed.

Lemma wp_set_fd_epoll_events f x ev s w (Q : unit → polls → world → Prop) : polls_wf s → fds s !! f = Some x →
  (∀ e, registers s x (negb (ev =? -1)) e → Q tt (set_epoll e s) w) → wp (set_fd_epoll_events f (poll_index x) ev) s w Q.
Proof.
  intros H Hx HQ. unfold set_fd_epoll_events. rewrite wp_bind, wp_get. destruct (user_entry s f x H Hx) as (Hu & p & Hp).
  destruct (epoll s) as [k|] eqn:Hk; [|apply wp_ret; rewrite <-(set_epoll_same s), Hk; apply HQ; by intros ? ? ? [=]].
  rewrite wp_bind. eapply wp_read_pollfd; [done|]. cbn zeta.
  assert (Hsame : (ev =? -1 = true → pfd p = -1) → registers s x (negb (ev =? -1)) (Some k)).
  { intros Hev k0 unix user [= <-] Hr. destruct (decide (unix = unix_fd x)) as [->|]; [|left; eauto]. destruct (registered_here s f x p k user H Hx Hp Hk Hr) as (-> & _ & Hne).
    right. destruct (ev =? -1); [by destruct Hne; apply Hev|done]. }
  destruct (ev =? -1) eqn:Eev; [destruct (Z.eqb_spec (pfd p) (-1)) as [Epf|Epf]|destruct (Z.eqb_spec (pfd p) (-1)) as [Epf|Epf]; [|destruct (pevents p =? ev)]].
  1,4: apply wp_ret; rewrite <-(set_epoll_same s), Hk; apply HQ, Hsame; by intros ?.
  all: rewrite wp_bind; (eapply wp_read_fd; [done|]); rewrite wp_bind; (eapply wp_epoll_ctl; [done|]); intros r k' Ec.
  - pose proof (ep_del_law _ _ _ _ _ _ Ec) as Er. assert (Hd : registers s x false (Some k')).
    { intros k0 unix user [= <-] Hr. rewrite Er in Hr. apply lookup_delete_Some in Hr as [Hne Hr]. left. split; [done|eauto]. }
    destruct r; [|rewrite wp_modify|]; (try apply wp_ret); [by apply HQ| |by apply HQ]. apply (HQ None). by intros ? ? ? [=].
  - pose proof (ep_add_law _ _ _ _ _ _ Ec) as Er. destruct r; [apply wp_ret, HQ|rewrite wp_modify; apply (HQ None); by intros ? ? ? [=]|apply wp_ret, HQ].
    + intros k0 unix user [= <-] Hr. rewrite Er, lookup_insert in Hr. case_decide; [injection Hr as <-; right; auto|left; eauto].
    + intros k0 unix user [= <-] Hr. rewrite Er in Hr. by apply (Hsame ltac:(done) k unix user).
  - pose proof (ep_mod_law _ _ _ _ _ _ Ec) as Er. destruct r; [apply wp_ret, HQ|rewrite wp_modify; apply (HQ None); by intros ? ? ? [=]|apply wp_ret, HQ].
    + intros k0 unix user [= <-] Hr. rewrite Er, lookup_insert in Hr. case_decide; [injection Hr as <-; right; auto|left; eauto].
    + intros k0 unix user [= <-] Hr. rewrite Er in Hr. by apply (Hsame ltac:(done) k unix user).
Qed.

(** The entry of an fd object is written. *)
Lemma written_wf s f x e p fd ev re lg : polls_wf s → fds s !! f = Some x → pollfd s !! poll_index x = Some p → registers s x (negb (fd =? -1)) e → (fd = -1 ∨ fd = unix_fd x) →
  polls_wf (Polls (poll_users s) (<[poll_index x := PollEnt fd ev re]> (pollfd s)) (block s) (allocated_users s) (active_users s) (freelist s) e (fds s) (next_fd s) lg).
Proof.
  intros H Hx Hp He Hfd. destruct (user_entry s f x H Hx) as (Hu & _). pose proof (lookup_lt_Some _ _ _ Hp) as Hlt.
  split; cbn; try (by apply H).
  - rewrite length_insert. apply H.
  - destruct (pw_free _ H) as (l & Hc & Hl). exists l. split; [|done]. by eapply chain_ext; [..|exact Hc].
  - intros g y q Hy. rewrite list_lookup_insert. case_decide as Ec.
    + intros [= <-]. cbn. destruct Ec as [Ec _]. assert (Hgu : poll_users s !! poll_index y = Some (User g)) by (apply (pw_users _ H); eauto). rewrite <-Ec, Hu in Hgu. injection Hgu as <-. by assert (y = x) as -> by congruence.
    + by eapply (pw_pfd _ H).
  - intros i n q Hi. rewrite list_lookup_insert_ne; [by eapply (pw_free_pfd _ H)|]. intros <-. congruence.
  - intros k unix user Hk Hr. destruct (He k unix user Hk Hr) as [(Hne & k0 & Hk0 & Hr0)|(Hon & -> & ->)].
    + destruct (pw_registered _ H k0 unix user Hk0 Hr0) as (g & y & q & Hy & <- & <- & Hq & Ep). exists g, y, q. split_and!; try done. rewrite list_lookup_insert_ne; [done|].
      intros Ei. assert (Hgu : poll_users s !! poll_index y = Some (User g)) by (apply (pw_users _ H); eauto). rewrite <-Ei, Hu in Hgu. injection Hgu as <-. congruence.
    + exists f, x, (PollEnt fd ev re). rewrite list_lookup_insert_eq by done. split_and!; try done. cbn. destruct Hfd as [->|]; [done|done].
Qed.

Lemma set_fd_events_ok f ev s w : polls_wf s → is_Some (fds s !! f) → wp (set_fd_events f ev) s w (λ _ s' _, polls_wf s' ∧ ∃ l, step s s' l).
Proof.
  intros H [x Hx]. unfold set_fd_events. rewrite wp_bind. eapply wp_read_fd; [done|]. cbn zeta. destruct (user_entry s f x H Hx) as (Hu & p & Hp).
  rewrite wp_bind. eapply wp_poll_users; [done|]. rewrite wp_bind, wp_assert. split; [lia|]. rewrite wp_bind. apply (wp_set_fd_epoll_events f x); [done..|]. intros e He.
  rewrite wp_bind. eapply wp_read_pollfd; [done|]. pose proof (lookup_lt_Some _ _ _ Hp) as Hlt. destruct (ev =? -1) eqn:Eev.
  - rewrite wp_bind. eapply wp_write_pollfd; [done|]. rewrite wp_modify. split; [by apply (written_wf s f x e p); [..|left]|]. exists [Stopped f]. split; cbn.
    + done.
    + by intros g c ?%list_elem_of_singleton.
    + by rewrite length_insert.
    + intros i g q Hi Hq Hr. destruct (decide (poll_index x = i)) as [<-|Hne].
      * rewrite list_lookup_insert_eq by done. eexists. split; [done|]. right. split; [done|]. assert (g = f) as -> by congruence. left.
      * rewrite list_lookup_insert_ne by done. exists q. split; [done|]. left. split_and!; [done|done|]. intros [= ->]%list_elem_of_singleton.
        apply (pw_users _ H) in Hi as (y & Hy & <-). congruence.
    + intros i q. rewrite list_lookup_insert. case_decide; [by intros [= <-]|eauto].
  - eapply wp_write_pollfd; [done|]. pose proof (pw_valid _ H f x Hx). split.
    + apply (written_wf s f x e p); try done; [|by right]. destruct (Z.eqb_spec (unix_fd x) (-1)); [lia|done].
    + exists []. split; cbn.
      * by rewrite app_nil_r.
      * by intros g c ?%not_elem_of_nil.
      * by rewrite length_insert.
      * intros i g q Hi Hq Hr. destruct (decide (poll_index x = i)) as [<-|Hne].
        -- rewrite list_lookup_insert_eq by done. eexists. split; [done|]. left. assert (q = p) as -> by congruence. split_and!; [done|done|apply not_elem_of_nil].
        -- rewrite list_lookup_insert_ne by done. exists q. split; [done|]. left. split_and!; [done|done|apply not_elem_of_nil].
      * intros i q. rewrite list_lookup_insert. case_decide as Ec; [|eauto]. intros [= <-] Hr. destruct Ec as [<- _]. eauto.
Qed.

(** *** Opening *)

Lemma next_fd_wf s : polls_wf s → polls_wf (set_fds (fds s) (next_fd s + 1) s).
Proof.
  intros H. split; cbn; try (by apply H).
  - destruct (pw_free _ H) as (l & Hc & Hl). exists l. split; [|done]. by eapply chain_ext; [..|exact Hc].
  - intros f Hf%(pw_next _ H). lia.
Qed.

(** While the array moves no pointer points into it. *)
Lemma moved_wf s b n e : polls_wf s → freelist s = None → allocated_users s ≤ n → (n = 0 ∨ 16 ≤ n) → (∀ k, e = Some k → epoll s = Some k ∨ ep_registered k = ∅) → polls_wf (set_epoll e (set_block b n s)).
Proof.
  intros H Hf Hn Hn' He. split; cbn; try (by apply H).
  - destruct (pw_alloc _ H). split; [done|lia].
  - exists []. destruct (pw_free _ H) as (l & Hc & Hl). rewrite Hf in *. destruct l as [|i l]; [done|]. by destruct Hc.
  - intros k unix user Hk Hr. destruct (He k Hk) as [Hs|Hs]; [by eapply (pw_registered _ H)|]. rewrite Hs in Hr. by rewrite lookup_empty in Hr.
Qed.

Lemma wp_grow s w (Q : bool → polls → world → Prop) : polls_wf s → freelist s = None → Z.of_nat (length (poll_users s)) = allocated_users s →
  (∀ r b n e w', let s' := set_epoll e (set_block b n s) in polls_wf s' → (r = true → Z.of_nat (length (poll_users s)) < n) → Q r s' w') → wp grow s w Q.
Proof.
  intros H Hf Hl HQ. assert (Hk : ∀ k, epoll s = Some k → epoll s = Some k ∨ ep_registered k = ∅) by auto. destruct (pw_alloc _ H) as [H0 _].
  assert (Hs : set_epoll (epoll s) (set_block (block s) (allocated_users s) s) = s) by (by destruct s).
  assert (Hfail : ∀ b w', Q false (set_block b (allocated_users s) s) w').
  { intros b w'. change (set_block b (allocated_users s) s) with (set_epoll (epoll s) (set_block b (allocated_users s) s)). apply HQ; [by apply moved_wf|done]. }
  unfold grow. rewrite wp_bind, wp_get. cbn zeta. rewrite wp_bind. apply wp_malloc; intros ok w1 _ _. destruct ok; cbn [negb].
  2: { apply wp_ret. rewrite <-Hs. by apply HQ; [apply moved_wf|]. }
  rewrite wp_bind. apply wp_malloc; intros ok w2 _ _. destruct ok; cbn [negb].
  2: { destruct (allocated_users s =? 0); [apply wp_ret; rewrite <-Hs; by apply HQ; [apply moved_wf|]|]. rewrite wp_bind, wp_modify. apply wp_ret, Hfail. }
  rewrite wp_bind, wp_modify, wp_bind. destruct (Z.eqb_spec (allocated_users s) 0) as [E|E].
  - rewrite wp_modify. apply wp_ret. apply HQ; [apply moved_wf; [done|done|lia|lia|]|lia]. intros k Hc. right. by apply ep_create_law.
  - apply wp_ret, wp_ret. assert (Hg : allocated_users s < allocated_users s + allocated_users s ÷ 2) by (rewrite Z.quot_div_nonneg by lia; Z.div_mod_to_equations; lia).
    apply (HQ true (block s + 1) (allocated_users s + allocated_users s ÷ 2) (epoll s)); [|intros _; lia]. apply moved_wf; [done|done|lia|lia|done].
Qed.

Lemma no_entry s f i : polls_wf s → fds s !! f = None → poll_users s !! i ≠ Some (User f).
Proof. intros H Hf Hi. apply (pw_users _ H) in Hi as (x & Hx & _). congruence. Qed.

(** A free entry is taken. *)
Lemma reused_wf s i n l f unix : polls_wf s → freelist s = Some (block s, i) → poll_users s !! i = Some (Free n) → chain s n l → NoDup (i :: l) →
  (∀ j, j ∈ i :: l ↔ ∃ q, poll_users s !! j = Some (Free q)) → fds s !! f = None → f < next_fd s → 0 ≤ unix → (∀ g y, fds s !! g = Some y → unix_fd y ≠ unix) →
  polls_wf (Polls (<[i := User f]> (poll_users s)) (<[i := PollEnt (-1) 0 0]> (pollfd s)) (block s) (allocated_users s) (active_users s + 1) n (epoll s)
    (<[f := FdObject i unix]> (fds s)) (next_fd s) (log s)).
Proof.
  intros H Hfl Hi Hc [Hil Hnd]%NoDup_cons Hl Hf Hnf Hu Hfresh. pose proof (lookup_lt_Some _ _ _ Hi) as Hlt.
  assert (Hidx : ∀ g y, fds s !! g = Some y → poll_index y ≠ i) by (intros g y Hy Ei; assert (poll_users s !! i = Some (User g)) by (apply (pw_users _ H); eauto); congruence).
  split; cbn.
  - rewrite !length_insert. apply H.
  - rewrite length_insert. apply H.
  - intros j g. rewrite list_lookup_insert. case_decide as Ej.
    + destruct Ej as [<- _]. split; [intros [= <-]; eexists; by rewrite lookup_insert_eq|]. intros (x & Hx & Ex). rewrite lookup_insert in Hx. case_decide; [by subst|]. by destruct (Hidx g x Hx).
    + rewrite (pw_users _ H). split; intros (x & Hx & Ex); exists x; [split; [|done]; rewrite lookup_insert_ne; [done|intros <-; congruence]|].
      rewrite lookup_insert in Hx. case_decide; [|done]. injection Hx as <-. by destruct Ej.
  - exists l. split; [eapply chain_ext; [..|exact Hc]; [done|]; intros j Hj; cbn; by rewrite list_lookup_insert_ne by (by intros <-)|]. split; [done|].
    intros j. rewrite list_lookup_insert. case_decide as Ej.
    + destruct Ej as [<- _]. split; [done|]. by intros [].
    + rewrite <-Hl, elem_of_cons. split; [auto|]. intros [->|?]; [by destruct Ej|done].
  - intros g y p Hy. rewrite lookup_insert in Hy. case_decide; [injection Hy as <-; cbn; rewrite list_lookup_insert_eq by (by rewrite (pw_len _ H)); intros [= <-]; by left|].
    rewrite list_lookup_insert_ne by (intros Ei; by apply (Hidx g y)). by eapply (pw_pfd _ H).
  - intros j q p. rewrite !list_lookup_insert, (pw_len _ H). case_decide; [done|]. by eapply (pw_free_pfd _ H).
  - intros k u user Hk Hr. destruct (pw_registered _ H k u user Hk Hr) as (g & y & p & Hy & <- & <- & Hp & Ep). exists g, y, p. split_and!; try done.
    + rewrite lookup_insert_ne; [done|]. intros <-. congruence.
    + rewrite list_lookup_insert_ne; [done|]. intros Ei. by apply (Hidx g y).
  - intros g h x y [[<- <-]|[_ Hx]]%lookup_insert_Some [[<- <-]|[_ Hy]]%lookup_insert_Some E; cbn in E; [done|by destruct (Hfresh h y)|by destruct (Hfresh g x)|by eapply (pw_unix _ H)].
  - intros g x. rewrite lookup_insert. case_decide; [by intros [= <-]|]. apply H.
  - rewrite map_size_insert_None by done. rewrite (pw_active _ H). lia.
  - intros g. rewrite lookup_insert_is_Some. intros [<-|[_ Hg]]; [done|by apply H].
Qed.

(** An entry is appended. *)
Lemma appended_wf s f unix : polls_wf s → freelist s = None → Z.of_nat (length (poll_users s)) < allocated_users s → fds s !! f = None → f < next_fd s → 0 ≤ unix →
  (∀ g y, fds s !! g = Some y → unix_fd y ≠ unix) →
  polls_wf (Polls (poll_users s ++ [User f]) (pollfd s ++ [PollEnt (-1) 0 0]) (block s) (allocated_users s) (active_users s + 1) (freelist s) (epoll s)
    (<[f := FdObject (length (poll_users s)) unix]> (fds s)) (next_fd s) (log s)).
Proof.
  intros H Hfl Ha Hf Hnf Hu Hfresh. assert (Hfree : ∀ i n, poll_users s !! i ≠ Some (Free n)).
  { destruct (pw_free _ H) as (l & Hc & _ & Hl). rewrite Hfl in Hc. intros i n Hi. assert (Hil : i ∈ l) by (apply Hl; eauto). destruct l as [|j l]; [by apply not_elem_of_nil in Hil|by destruct Hc]. }
  assert (Hidx : ∀ g y, fds s !! g = Some y → (poll_index y < length (poll_users s))%nat).
  { intros g y Hy. eapply (lookup_lt_Some _ _ (User g)), (pw_users _ H). eauto. }
  assert (Hlook : ∀ j u, (poll_users s ++ [User f]) !! j = Some u ↔ poll_users s !! j = Some u ∨ j = length (poll_users s) ∧ u = User f).
  { intros j u. rewrite lookup_app_Some, list_lookup_singleton_Some. split; [intros [?|[? [? <-]]]; [auto|right; split; [lia|done]]|intros [?|[-> ->]]; [auto|right; split; [lia|split; [lia|done]]]]. }
  split; cbn.
  - rewrite !length_app, (pw_len _ H). done.
  - rewrite length_app. cbn. destruct (pw_alloc _ H). split; [done|lia].
  - intros j g. rewrite Hlook, (pw_users _ H). split.
    + intros [(x & Hx & Ex)|[-> [= ->]]]; [exists x; split; [rewrite lookup_insert_ne; [done|intros <-; congruence]|done]|eexists; by rewrite lookup_insert_eq].
    + intros (x & Hx & Ex). rewrite lookup_insert in Hx. case_decide; [right; by simplify_eq|left; eauto].
  - exists []. split; [done|]. split; [constructor|]. intros i. split; [by intros ?%not_elem_of_nil|]. intros [n [Hi|[_ [=]]]%Hlook]. by destruct (Hfree i n).
  - intros g y p Hy Hp. rewrite lookup_insert in Hy. case_decide.
    + injection Hy as <-. cbn in Hp. rewrite <-(pw_len _ H), lookup_app_r, Nat.sub_diag in Hp by lia. injection Hp as <-. by left.
    + rewrite lookup_app_l in Hp by (rewrite (pw_len _ H); eauto). by eapply (pw_pfd _ H).
  - intros j n p [Hj|[_ [=]]]%Hlook. by destruct (Hfree j n).
  - intros k u user Hk Hr. destruct (pw_registered _ H k u user Hk Hr) as (g & y & p & Hy & <- & <- & Hp & Ep). exists g, y, p. split_and!; try done.
    + rewrite lookup_insert_ne; [done|]. intros <-. congruence.
    + by apply lookup_app_l_Some.
  - intros g h x y [[<- <-]|[_ Hx]]%lookup_insert_Some [[<- <-]|[_ Hy]]%lookup_insert_Some E; cbn in E; [done|by destruct (Hfresh h y)|by destruct (Hfresh g x)|by eapply (pw_unix _ H)].
  - intros g x. rewrite lookup_insert. case_decide; [by intros [= <-]|]. apply H.
  - rewrite map_size_insert_None by done. rewrite (pw_active _ H). lia.
  - intros g. rewrite lookup_insert_is_Some. intros [<-|[_ Hg]]; [done|by apply H].
Qed.

(** An entry that was not used, or is new, has no event. *)
Lemma quiet_step s s' : log s' = log s → (length (pollfd s) ≤ length (pollfd s'))%nat →
  (∀ i f p, poll_users s !! i = Some (User f) → pollfd s !! i = Some p → ∃ p', pollfd s' !! i = Some p' ∧ prevents p' = prevents p ∧ poll_users s' !! i = Some (User f)) →
  (∀ i p', pollfd s' !! i = Some p' → prevents p' ≠ 0 → ∃ p, pollfd s !! i = Some p ∧ prevents p = prevents p') → step s s' [].
Proof.
  intros Hl Hlen Hk Hn. split; [by rewrite app_nil_r|by intros ? ? ?%not_elem_of_nil|done| |done]. intros i f p Hi Hp _. destruct (Hk i f p Hi Hp) as (p' & ? & ? & ?).
  exists p'. split; [done|]. left. split_and!; [done|done|apply not_elem_of_nil].
Qed.

Lemma wp_add_poll_user s w f unix (Q : option nat → polls → world → Prop) : polls_wf s → fds s !! f = None → f < next_fd s → 0 ≤ unix → (∀ g y, fds s !! g = Some y → unix_fd y ≠ unix) →
  (∀ s' w', polls_wf s' → step s s' [] → Q None s' w') →
  (∀ i s' w', let s2 := set_fds (<[f := FdObject i unix]> (fds s')) (next_fd s') s' in polls_wf s2 → step s s2 [] → Q (Some i) s' w') → wp (add_poll_user f) s w Q.
Proof.
  intros H Hf Hnf Hu Hfresh Hnone Hsome. unfold add_poll_user. rewrite wp_bind, wp_get. destruct (freelist s) as [[b i]|] eqn:Hfl.
  - destruct (pw_free _ H) as (l & Hc & Hnd & Hl). rewrite Hfl in Hc. destruct l as [|j l]; [done|]. cbn in Hc. destruct Hc as ([= -> <-] & n & Hi & Hc).
    destruct (both_entries s i _ H Hi) as [p Hp]. rewrite wp_bind, wp_assert. split; [lia|]. rewrite wp_bind. eapply wp_poll_users; [done|].
    rewrite wp_bind, wp_modify, wp_bind. eapply wp_write_pollfd; [done|]. rewrite wp_bind. eapply wp_write_user; [done|]. rewrite wp_bind, wp_modify. apply wp_ret.
    apply Hsome; [by eapply (reused_wf s i n l f unix)|]. apply quiet_step; cbn.
    + done.
    + by rewrite length_insert.
    + intros j g q Hj Hq. assert (i ≠ j) by (intros <-; congruence). rewrite !list_lookup_insert_ne by done. eauto.
    + intros j q. rewrite list_lookup_insert. case_decide; [by intros [= <-]|eauto].
  - assert (Hend : ∀ s0 w0, polls_wf s0 → (freelist s0 = None ∧ poll_users s0 = poll_users s ∧ pollfd s0 = pollfd s ∧ fds s0 = fds s ∧ next_fd s0 = next_fd s ∧ log s0 = log s) →
      Z.of_nat (length (poll_users s0)) < allocated_users s0 →
      wp (let* s := get in c_assert (Z.of_nat (length (poll_users s)) <? allocated_users s) >> modify (set_arrays (poll_users s ++ [User f]) (pollfd s ++ [PollEnt (-1) 0 0])) >>
        modify (λ s, set_active (active_users s + 1) s) >> ret (Some (length (poll_users s)))) s0 w0 Q).
    { intros s0 w0 H0 (E1 & E2 & E3 & E4 & E5 & E6) Hlt. rewrite wp_bind, wp_get, wp_bind, wp_assert. split; [lia|]. rewrite wp_bind, wp_modify, wp_bind, wp_modify. apply wp_ret.
      apply Hsome; [apply (appended_wf s0 f unix); congruence || lia || (rewrite E4; done)|]. apply quiet_step; cbn.
      - done.
      - rewrite E3, length_app. lia.
      - intros j g q Hj Hq. exists q. rewrite E2, E3. split_and!; [by apply lookup_app_l_Some|done|by apply lookup_app_l_Some].
      - intros j q. rewrite E3, lookup_app_Some, list_lookup_singleton_Some. intros [?|(_ & _ & <-)]; [eauto|done]. }
    rewrite wp_bind. destruct (Z.eqb_spec (Z.of_nat (length (poll_users s))) (allocated_users s)) as [E|E].
    + apply wp_grow; [done..|]. intros ok b n e w' s' H' Hok. destruct ok; cbn [negb].
      * apply Hend; [done|done|]. by apply Hok.
      * apply wp_ret, Hnone; [done|]. apply quiet_step; [done|done|cbn; eauto|cbn; eauto].
    + apply wp_ret. cbn [negb]. apply Hend; [done|done|]. destruct (pw_alloc _ H). lia.
Qed.

Lemma alloc_fd_object_ok s w unix : polls_wf s → 0 ≤ unix → (∀ g y, fds s !! g = Some y → unix_fd y ≠ unix) → wp (alloc_fd_object unix) s w (λ _ s' _, polls_wf s' ∧ ∃ l, step s s' l).
Proof.
  intros H Hu Hfresh. unfold alloc_fd_object. rewrite wp_bind. apply wp_mem_alloc; intros w1 _ _; cbn [negb]; [|apply wp_ret; split; [done|exists []; apply poll_step_refl]].
  rewrite wp_bind. apply wp_mem_alloc; intros w2 _ _; cbn [negb]; [|apply wp_ret; split; [done|exists []; apply poll_step_refl]].
  rewrite wp_bind, wp_get. cbn zeta. rewrite wp_bind, wp_modify, wp_bind. pose proof (next_fd_wf s H) as H1. set (s1 := set_fds _ _ s) in *.
  assert (Hf : fds s1 !! next_fd s = None). { destruct (fds s1 !! next_fd s) eqn:E; [|done]. assert (next_fd s < next_fd s) by (apply (pw_next _ H); eauto). lia. }
  apply (wp_add_poll_user s1 w2 (next_fd s) unix); [done|done|cbn; lia|done|done| |].
  - intros s' w' H' Hs. apply wp_ret. split; [done|]. exists []. destruct Hs. by split.
  - intros i s' w' s2 H' Hs. rewrite wp_bind, wp_modify. apply wp_ret. split; [done|]. exists []. destruct Hs. by split.
Qed.

(** *** Closing *)

Lemma wp_remove_epoll_user f x s w (Q : unit → polls → world → Prop) : polls_wf s → fds s !! f = Some x →
  (∀ e, registers s x false e → Q tt (set_epoll e s) w) → wp (remove_epoll_user f (poll_index x)) s w Q.
Proof.
  intros H Hx HQ. unfold remove_epoll_user. rewrite wp_bind, wp_get. destruct (user_entry s f x H Hx) as (Hu & p & Hp).
  destruct (epoll s) as [k|] eqn:Hk; [|apply wp_ret; rewrite <-(set_epoll_same s), Hk; apply HQ; by intros ? ? ? [=]].
  rewrite wp_bind. eapply wp_read_pollfd; [done|]. destruct (Z.eqb_spec (pfd p) (-1)) as [Epf|Epf].
  - apply wp_ret. rewrite <-(set_epoll_same s), Hk. apply HQ. intros k0 unix user [= <-] Hr. left. split; [|eauto]. intros ->. by destruct (registered_here s f x p k user H Hx Hp Hk Hr) as (_ & _ & ?).
  - rewrite wp_bind. eapply wp_read_fd; [done|]. rewrite wp_bind. eapply wp_epoll_ctl; [done|]. intros r k' Ec. apply wp_ret, HQ. intros k0 unix user [= <-] Hr.
    rewrite (ep_del_law _ _ _ _ _ _ Ec) in Hr. apply lookup_delete_Some in Hr as [Hne Hr]. left. split; [done|eauto].
Qed.

Lemma closed_wf s f x e lg : polls_wf s → fds s !! f = Some x → registers s x false e →
  polls_wf (Polls (<[poll_index x := Free (freelist s)]> (poll_users s)) (<[poll_index x := PollEnt (-1) 0 0]> (pollfd s)) (block s) (allocated_users s) (active_users s - 1)
    (Some (block s, poll_index x)) e (delete f (fds s)) (next_fd s) lg).
Proof.
  intros H Hx He. destruct (user_entry s f x H Hx) as (Hu & p & Hp). pose proof (lookup_lt_Some _ _ _ Hu) as Hlt.
  assert (Hidx : ∀ g y, g ≠ f → fds s !! g = Some y → poll_index y ≠ poll_index x).
  { intros g y Hne Hy Ei. assert (poll_users s !! poll_index y = Some (User g)) by (apply (pw_users _ H); eauto). congruence. }
  split; cbn.
  - rewrite !length_insert. apply H.
  - rewrite length_insert. apply H.
  - intros j g. rewrite list_lookup_insert. case_decide as Ej.
    + destruct Ej as [<- _]. split; [done|]. intros (y & [Hne Hy]%lookup_delete_Some & Ei). by destruct (Hidx g y).
    + rewrite (pw_users _ H). split; intros (y & Hy & Ei); exists y; [split; [|done]; apply lookup_delete_Some; split; [|done]; intros <-; destruct Ej; split; [congruence|done]|].
      by apply lookup_delete_Some in Hy as [_ Hy].
  - destruct (pw_free _ H) as (l & Hc & Hnd & Hl). assert (Hni : poll_index x ∉ l) by (intros [n Hn]%Hl; congruence). exists (poll_index x :: l). split; [split; [done|]|split; [by constructor|]].
    + exists (freelist s). cbn. split; [by apply list_lookup_insert_eq|]. eapply chain_ext; [..|exact Hc]; [done|]. intros j Hj. cbn. by rewrite list_lookup_insert_ne by (by intros <-).
    + intros j. rewrite elem_of_cons, list_lookup_insert, Hl. case_decide as Ej; [destruct Ej as [<- _]; split; eauto|]. split; [|auto]. intros [->|?]; [by destruct Ej|done].
  - intros g y q [Hne Hy]%lookup_delete_Some. rewrite list_lookup_insert_ne by (intros Ei; by apply (Hidx g y)). by eapply (pw_pfd _ H).
  - intros j n q. rewrite !list_lookup_insert, (pw_len _ H). case_decide; [by intros _ [= <-]|]. by eapply (pw_free_pfd _ H).
  - intros k unix user Hk Hr. destruct (He k unix user Hk Hr) as [(Hne & k0 & Hk0 & Hr0)|[? _]]; [|done].
    destruct (pw_registered _ H k0 unix user Hk0 Hr0) as (g & y & q & Hy & <- & <- & Hq & Ep). assert (g ≠ f) by congruence. exists g, y, q. split_and!; try done.
    + by apply lookup_delete_Some.
    + rewrite list_lookup_insert_ne; [done|]. intros Ei. by apply (Hidx g y).
  - intros g h y z [_ Hy]%lookup_delete_Some [_ Hz]%lookup_delete_Some. by eapply (pw_unix _ H).
  - intros g y [_ Hy]%lookup_delete_Some. by apply (pw_valid _ H g).
  - rewrite map_size_delete_Some by eauto. rewrite (pw_active _ H). assert (size (fds s) ≠ O) by (apply map_size_non_empty_iff; intros E; rewrite E in Hx; by rewrite lookup_empty in Hx). lia.
  - intros g [y [_ Hy]%lookup_delete_Some]. apply (pw_next _ H). eauto.
Qed.

Lemma poll_fd_destroy_ok s w f : polls_wf s → is_Some (fds s !! f) → wp (fd_destroy f) s w (λ _ s' _, (polls_wf s' ∧ ∃ l, step s s' l) ∧ fds s' = delete f (fds s)).
Proof.
  intros H [x Hx]. destruct (user_entry s f x H Hx) as (Hu & p & Hp). pose proof (lookup_lt_Some _ _ _ Hp) as Hlt. unfold fd_destroy, remove_poll_user. rewrite wp_bind. eapply wp_read_fd; [done|].
  rewrite wp_bind, wp_bind. eapply wp_poll_users; [done|]. rewrite wp_bind, wp_assert. split; [lia|]. rewrite wp_bind. apply (wp_remove_epoll_user f x); [done..|]. intros e He.
  rewrite wp_bind. eapply wp_write_pollfd; [done|]. rewrite wp_bind, wp_get, wp_bind. eapply wp_write_user; [done|]. rewrite wp_bind, wp_modify, wp_modify, wp_bind, wp_modify, wp_modify.
  split; [|done]. split; [by apply (closed_wf s f x e)|]. exists [Stopped f]. split; cbn.
  - done.
  - by intros g c ?%list_elem_of_singleton.
  - by rewrite length_insert.
  - intros i g q Hi Hq Hr. destruct (decide (poll_index x = i)) as [<-|Hne].
    + rewrite list_lookup_insert_eq by done. eexists. split; [done|]. right. split; [done|]. assert (g = f) as -> by congruence. left.
    + rewrite !list_lookup_insert_ne by done. exists q. split; [done|]. left. split_and!; [done|done|]. intros [= ->]%list_elem_of_singleton.
      apply (pw_users _ H) in Hi as (y & Hy & <-). congruence.
  - intros i q. rewrite list_lookup_insert. case_decide; [by intros [= <-]|eauto].
Qed.

(** *** The functions that are called *)

(** fd objects that exist, and Unix descriptors that no other has. *)
Definition allowed (s : polls) (o : op) : Prop :=
  match o with
  | Open unix => 0 ≤ unix ∧ ∀ g y, fds s !! g = Some y → unix_fd y ≠ unix
  | Close f | Events f _ => is_Some (fds s !! f)
  end.
Fixpoint ops_ok (s : polls) (w : world) (l : list op) : Prop :=
  match l with
  | [] => True
  | o :: l => allowed s o ∧ ∀ s' w', run_op o s w = Some (tt, s', w') → ops_ok s' w' l
  end.

Lemma poll_op_ok s w o : polls_wf s → allowed s o → wp (run_op o) s w (λ _ s' _, polls_wf s' ∧ ∃ l, step s s' l).
Proof.
  intros H Ha. destruct o as [unix|f|f ev]; cbn [run_op].
  - destruct Ha. rewrite wp_bind. eapply wp_mono; [by apply alloc_fd_object_ok|]. intros r s' w' Hs. by apply wp_ret.
  - eapply wp_mono; [by apply poll_fd_destroy_ok|]. by intros [] s' w' [? _].
  - by apply set_fd_events_ok.
Qed.

Lemma poll_ops_ok l : ∀ s w, polls_wf s → ops_ok s w l → wp (run_ops l) s w (λ _ s' _, polls_wf s' ∧ ∃ l, step s s' l).
Proof.
  induction l as [|o l IH]; intros s w H Hl; cbn [run_ops]; [apply wp_ret; split; [done|exists []; apply poll_step_refl]|]. destruct Hl as [Ha Hl].
  rewrite wp_bind. destruct (wp_elim _ _ _ _ (poll_op_ok s w o H Ha)) as ([] & s1 & w1 & E & H1 & l1 & Hs1). rewrite (wp_run _ _ _ _ _ _ E).
  eapply wp_mono; [apply IH; [done|by apply Hl]|]. intros [] s2 w2 (H2 & l2 & Hs2). split; [done|]. exists (l1 ++ l2). by eapply poll_step_trans.
Qed.

Lemma record_wf e s : polls_wf s → polls_wf (record e s).
Proof. intros H. split; cbn; try (by apply H). destruct (pw_free _ H) as (l & Hc & Hl). exists l. split; [|done]. by eapply chain_ext; [..|exact Hc]. Qed.

(** The fd objects and events of a list of reported events. *)
Definition targets (s : polls) (l : list (nat * Z)) : list (Z * Z) :=
  omap (λ e, match poll_users s !! e.1 with Some (User f) => Some (f, e.2) | _ => None end) l.
Definition calls (l : list event) : list (Z * Z) := omap (λ e, match e with Called f ev => Some (f, ev) | Stopped _ => None end) l.
(** No function is called for an fd object that has been closed or stopped. *)
Definition unstopped (l : list event) : Prop := ∀ l1 f ev l2, l = l1 ++ Called f ev :: l2 → Stopped f ∉ l1.

Lemma calls_app l1 l2 : calls (l1 ++ l2) = calls l1 ++ calls l2.
Proof. apply omap_app. Qed.

Lemma calls_none l : (∀ f ev, Called f ev ∉ l) → calls l = [].
Proof.
  induction l as [|[f ev|f] l IH]; intros Hl; [done| |].
  - destruct (Hl f ev). left.
  - cbn. apply IH. intros g ev Hg. apply (Hl g ev). by right.
Qed.

Lemma unstopped_app l l' : unstopped l → (∀ f ev, Called f ev ∉ l') → unstopped (l ++ l').
Proof.
  intros Hu Hn l1 f ev l2 E. apply app_eq_inv in E as [(k & -> & E)|(k & -> & E)].
  - destruct k as [|c k]; cbn in E; [subst l'; by destruct (Hn f ev); left|]. injection E as <- E. by eapply Hu.
  - subst l'. destruct (Hn f ev). rewrite elem_of_app. right. left.
Qed.

Lemma unstopped_call l f ev : unstopped l → Stopped f ∉ l → unstopped (l ++ [Called f ev]).
Proof.
  intros Hu Hn l1 g c l2 E. destruct l2 as [|e l2 _] using rev_ind.
  - apply app_inj_tail in E as [-> [= -> ->]]. done.
  - rewrite app_comm_cons, app_assoc in E. apply app_inj_tail in E as [-> _]. by eapply Hu.
Qed.

(** What holds of the reported events while they are handled: [l] is what has happened. *)
Definition watched (s0 : polls) (E : list (nat * Z)) (s : polls) (l : list event) : Prop :=
  ∀ i ev, (i, ev) ∈ E → ∃ p, pollfd s !! i = Some p ∧
    (prevents p = 0 ∧ (ev ≠ 0 → ∃ f, poll_users s0 !! i = Some (User f) ∧ Stopped f ∈ l) ∨
     prevents p = ev ∧ ev ≠ 0 ∧ ∃ f, poll_users s0 !! i = Some (User f) ∧ poll_users s !! i = Some (User f) ∧ Stopped f ∉ l).

Lemma watched_step s0 E s s' l l' : watched s0 E s l → step s s' l' → watched s0 E s' (l ++ l').
Proof.
  intros Hw Hs i ev Hi. destruct (Hw i ev Hi) as (p & Hp & [[Hz Hev]|(<- & Hne & f & Hf0 & Hf & Hn)]).
  - destruct (step_zero _ _ _ _ _ Hs Hp Hz) as (p' & Hp' & Hz'). exists p'. split; [done|]. left. split; [done|]. intros Hne. destruct (Hev Hne) as (f & ? & ?). exists f. rewrite elem_of_app. auto.
  - destruct (st_keep _ _ _ Hs i f p Hf Hp Hne) as (p' & Hp' & [(E' & Hf' & Hn')|[Hz Hs']]); exists p'; (split; [done|]).
    + right. split; [done|]. split; [done|]. exists f. rewrite elem_of_app. naive_solver.
    + left. split; [done|]. intros _. exists f. rewrite elem_of_app. auto.
Qed.

Lemma watched_call s0 E s l f ev : watched s0 E s l → watched s0 E (record (Called f ev) s) (l ++ [Called f ev]).
Proof.
  intros Hw i c Hi. destruct (Hw i c Hi) as (p & Hp & [[Hz Hev]|(<- & Hne & g & Hg0 & Hg & Hn)]); exists p; (split; [done|]).
  - left. split; [done|]. intros Hne. destruct (Hev Hne) as (g & ? & ?). exists g. rewrite elem_of_app. auto.
  - right. split; [done|]. split; [done|]. exists g. split; [done|]. split; [done|]. rewrite elem_of_app. intros [?|[= ]%list_elem_of_singleton]. done.
Qed.

Record handling (s0 : polls) (E : list (nat * Z)) (s : polls) (l : list event) : Prop := {
  hd_wf : polls_wf s;
  hd_log : log s = log s0 ++ l;
  hd_watched : watched s0 E s l;
  hd_unstopped : unstopped l
}.
(** What handling the events [E2] of [E] adds to the history [l]. *)
Record handled (s0 : polls) (E E2 : list (nat * Z)) (s' : polls) (l l' : list event) : Prop := {
  hn_handling : handling s0 E s' (l ++ l');
  hn_calls : calls l' `sublist_of` targets s0 E2;
  hn_all i ev : (i, ev) ∈ E2 → ev ≠ 0 → ∃ f, poll_users s0 !! i = Some (User f) ∧ (Called f ev ∈ l' ∨ Stopped f ∈ l ++ l')
}.

Lemma targets_app s l1 l2 : targets s (l1 ++ l2) = targets s l1 ++ targets s l2.
Proof. apply omap_app. Qed.

Lemma handled_nothing s0 E E2 s l : handling s0 E s l → E2 ⊆ E → (∀ i ev p, (i, ev) ∈ E2 → pollfd s !! i = Some p → prevents p = 0) → handled s0 E E2 s l [].
Proof.
  intros H Hsub Hz. split.
  - by rewrite app_nil_r.
  - apply sublist_nil_l.
  - intros i ev Hi Hne. destruct (hd_watched _ _ _ _ H i ev (Hsub _ Hi)) as (p & Hp & [[_ Hs]|(<- & _ & _)]).
    + destruct (Hs Hne) as (f & ? & ?). exists f. rewrite app_nil_r. auto.
    + by destruct Hne; apply (Hz i _ p Hi).
Qed.

Lemma handled_app s0 E E1 E2 s1 s2 l l1 l2 : handled s0 E E1 s1 l l1 → handled s0 E E2 s2 (l ++ l1) l2 → handled s0 E (E1 ++ E2) s2 l (l1 ++ l2).
Proof.
  intros H1 H2. split.
  - rewrite app_assoc. apply H2.
  - rewrite calls_app, targets_app. apply sublist_app; [apply H1|apply H2].
  - intros i ev [Hi|Hi]%elem_of_app Hne.
    + destruct (hn_all _ _ _ _ _ _ H1 i ev Hi Hne) as (f & ? & Hc). exists f. rewrite app_assoc, !elem_of_app in *. tauto.
    + destruct (hn_all _ _ _ _ _ _ H2 i ev Hi Hne) as (f & ? & Hc). exists f. rewrite !elem_of_app in *. tauto.
Qed.

Section Calls.
Context (script : Z → Z → polls → list op).
Hypothesis script_ok : ∀ f ev s w, polls_wf s → is_Some (fds s !! f) → ops_ok s w (script f ev s).

(** The function of one entry that has an event. *)
Lemma call_one s0 E s w l i ev p : handling s0 E s l → (i, ev) ∈ E → pollfd s !! i = Some p → prevents p ≠ 0 →
  wp (let* u := read_user i in fd_poll_event script u (prevents p)) s w (λ _ s' _, ∃ f l', handled s0 E [(i, ev)] s' l (Called f ev :: l') ∧ step (record (Called f ev) s) s' l').
Proof.
  intros H Hi Hp Hne. destruct (hd_watched _ _ _ _ H i ev Hi) as (q & Hq & Hc). assert (q = p) as -> by congruence.
  destruct Hc as [[? _]|(E1 & _ & f & Hf0 & Hf & Hn)]; [done|]. rewrite E1 in *. rewrite wp_bind. eapply wp_poll_users; [done|]. unfold fd_poll_event.
  rewrite wp_bind, wp_modify, wp_bind, wp_get. assert (Hfd : is_Some (fds s !! f)) by (apply (pw_users _ (hd_wf _ _ _ _ H)) in Hf as (x & ? & _); eauto).
  pose proof (record_wf (Called f ev) s (hd_wf _ _ _ _ H)) as H1. eapply wp_mono; [apply poll_ops_ok; [done|by apply script_ok]|]. intros [] s' w' (H' & l' & Hs). exists f, l'. split; [|done].
  assert (El : l ++ Called f ev :: l' = (l ++ [Called f ev]) ++ l') by (by rewrite <-app_assoc). split; [split|..].
  - done.
  - rewrite (st_log _ _ _ Hs). cbn. by rewrite (hd_log _ _ _ _ H), <-!app_assoc.
  - rewrite El. eapply watched_step; [|exact Hs]. apply watched_call, H.
  - rewrite El. apply unstopped_app; [apply unstopped_call; [apply H|done]|apply Hs].
  - cbn. rewrite Hf0. fold (calls l'). rewrite calls_none by apply Hs. done.
  - intros j c [= -> ->]%list_elem_of_singleton _. exists f. split; [done|]. left. left.
Qed.

Lemma call_events_ok E E2 : ∀ s0 s w l, handling s0 E s l → E2 ⊆ E → wp (call_events script E2) s w (λ _ s' _, ∃ l', handled s0 E E2 s' l l').
Proof.
  induction E2 as [|[i ev] E2 IH]; intros s0 s w l H Hsub; cbn [call_events].
  { apply wp_ret. exists []. apply handled_nothing; [done|done|by intros ? ? ? ?%not_elem_of_nil]. }
  assert (Hi : (i, ev) ∈ E) by (apply Hsub; left). destruct (hd_watched _ _ _ _ H i ev Hi) as (p & Hp & _). rewrite wp_bind. eapply wp_read_pollfd; [done|].
  rewrite wp_bind. apply (wp_mono _ _ _ (λ _ s' _, ∃ l', handled s0 E [(i, ev)] s' l l')).
  - destruct (Z.eqb_spec (prevents p) 0) as [Ez|Ez].
    + apply wp_ret. exists []. apply handled_nothing; [done|by intros ? ->%list_elem_of_singleton|]. intros j c q [= -> ->]%list_elem_of_singleton Hq. congruence.
    + eapply wp_mono; [by eapply call_one|]. intros [] s' w' (f & l' & Hh & _). eauto.
  - intros [] s1 w1 [l1 H1]. eapply wp_mono; [apply (IH s0); [apply H1|intros e He; apply Hsub; by right]|]. intros [] s2 w2 [l2 H2]. exists (l1 ++ l2). by apply (handled_app _ _ [(i, ev)] E2 s1).
Qed.

(** What [epoll_wait] may report. *)
Definition epoll_reports (s : polls) (E : list (nat * Z)) : Prop :=
  NoDup E.*1 ∧ ∀ user ev, (user, ev) ∈ E → ∃ k unix, epoll s = Some k ∧ ep_registered k !! unix = Some user.

(** The events are written into the entries of fd objects that wait. *)
Lemma put_events_ok E : ∀ s w, polls_wf s → NoDup E.*1 → (∀ i ev, (i, ev) ∈ E → ∃ f, poll_users s !! i = Some (User f)) →
  wp (put_events E) s w (λ _ s' _, polls_wf s' ∧ poll_users s' = poll_users s ∧ log s' = log s ∧ (∀ i, i ∉ E.*1 → pollfd s' !! i = pollfd s !! i) ∧
    ∀ i ev, (i, ev) ∈ E → ∃ p, pollfd s' !! i = Some p ∧ prevents p = ev).
Proof.
  induction E as [|[i ev] E IH]; intros s w H Hnd HE; cbn [put_events]; [apply wp_ret; split_and!; try done; by intros ? ? ?%not_elem_of_nil|].
  cbn [fmap list_fmap fst] in Hnd. apply NoDup_cons in Hnd as [Hni Hnd]. destruct (HE i ev) as [f Hf]; [left|]. destruct (proj1 (pw_users _ H i f) Hf) as (x & Hx & Ei). subst i.
  destruct (user_entry s f x H Hx) as (_ & p & Hp). rewrite wp_bind. eapply wp_read_pollfd; [done|]. rewrite wp_bind. eapply wp_write_pollfd; [done|].
  assert (H1 : polls_wf (set_arrays (poll_users s) (<[poll_index x := PollEnt (pfd p) (pevents p) ev]> (pollfd s)) s)).
  { apply (written_wf s f x (epoll s) p); [done..| |by eapply (pw_pfd _ H)]. intros k unix user Hk Hr. destruct (decide (unix = unix_fd x)) as [->|]; [|left; eauto].
    destruct (registered_here s f x p k user H Hx Hp Hk Hr) as (-> & _ & ?). right. destruct (Z.eqb_spec (pfd p) (-1)); [done|]. auto. }
  eapply wp_mono; [apply IH; [done|done|intros j c Hj; apply (HE j c); by right]|]. intros [] s' w' (H' & Eu & El & Eo & Ep). cbn in Eu, El, Eo.
  split; [done|]. split; [done|]. split; [done|]. split.
  - intros j. cbn [fmap list_fmap fst]. rewrite elem_of_cons. intros Hj. rewrite Eo by tauto. rewrite list_lookup_insert_ne; [done|]. naive_solver.
  - intros j c [[= -> ->]|Hj]%elem_of_cons; [|auto]. rewrite Eo by done. rewrite list_lookup_insert_eq by (by eapply lookup_lt_Some). eauto.
Qed.

Lemma reported_user s E i ev : polls_wf s → epoll_reports s E → (i, ev) ∈ E → ∃ f, poll_users s !! i = Some (User f).
Proof.
  intros H [_ HE] Hi. destruct (HE i ev Hi) as (k & unix & Hk & Hr). destruct (pw_registered _ H k unix i Hk Hr) as (f & x & p & Hx & _ & <- & _). exists f. apply (pw_users _ H). eauto.
Qed.

(** Right after the events have been written nothing has happened. *)
Lemma start_handling s0 s E : polls_wf s → log s = log s0 → poll_users s = poll_users s0 → (∀ i ev, (i, ev) ∈ E → ∃ p, pollfd s !! i = Some p ∧ prevents p = ev) →
  (∀ i ev, (i, ev) ∈ E → ev ≠ 0 → ∃ f, poll_users s0 !! i = Some (User f)) → handling s0 E s [].
Proof.
  intros H Hl Hu Hp Hf. split.
  - done.
  - by rewrite app_nil_r.
  - intros i ev Hi. destruct (Hp i ev Hi) as (p & Hpi & <-). exists p. split; [done|]. destruct (decide (prevents p = 0)) as [E0|E0]; [left; by rewrite E0|]. right. split; [done|]. split; [done|].
    destruct (Hf i _ Hi E0) as [f Hif]. exists f. rewrite Hu. split_and!; [done|done|apply not_elem_of_nil].
  - intros [] ? ? ? [=].
Qed.

Lemma epoll_turn_ok E s w : polls_wf s → epoll_reports s E → wp (epoll_turn script E) s w (λ _ s' _, ∃ l, handled s E E s' [] l).
Proof.
  intros H HE. unfold epoll_turn. rewrite wp_bind. eapply wp_mono; [apply put_events_ok; [done|apply HE|intros; by eapply reported_user]|].
  intros [] s1 w1 (H1 & Hu & Hl & _ & Hp). apply (call_events_ok E E s s1 w1 []); [|done]. apply start_handling; [done..|]. intros i ev Hi _. by eapply reported_user.
Qed.

(** What [poll] may report. *)
Definition poll_reports (s : polls) (R : list Z) : Prop :=
  length R = length (pollfd s) ∧ ∀ i p ev, pollfd s !! i = Some p → R !! i = Some ev → pfd p = -1 → ev = 0.
Definition indexed (R : list Z) : list (nat * Z) := imap (λ i ev, (i, ev)) R.

Lemma indexed_lookup R i : indexed R !! i = (λ ev, (i, ev)) <$> R !! i.
Proof. apply list_lookup_imap. Qed.

Lemma indexed_elem R i ev : (i, ev) ∈ indexed R ↔ R !! i = Some ev.
Proof.
  rewrite list_elem_of_lookup. split.
  - intros [j Hj]. rewrite indexed_lookup in Hj. destruct (R !! j) eqn:E; [|done]. by injection Hj as <- <-.
  - intros Hi. exists i. by rewrite indexed_lookup, Hi.
Qed.

Lemma next_ready_spec l : ∀ i, match next_ready i l with
  | None => ∀ p, p ∈ l → prevents p = 0
  | Some (j, ev) => ∃ k p, j = (i + k)%nat ∧ l !! k = Some p ∧ prevents p = ev ∧ ev ≠ 0 ∧ ∀ q, q ∈ take k l → prevents q = 0
  end.
Proof.
  induction l as [|p l IH]; intros i; cbn [next_ready]; [by intros p ?%not_elem_of_nil|]. destruct (Z.eqb_spec (prevents p) 0) as [E|E].
  - specialize (IH (S i)). destruct (next_ready (S i) l) as [[j ev]|].
    + destruct IH as (k & q & -> & Hk & Hq & Hne & Ht). exists (S k), q. split; [lia|]. split_and!; [done..|]. cbn. intros r [->|Hr]%elem_of_cons; [done|auto].
    + intros q [->|Hq]%elem_of_cons; auto.
  - exists O, p. split; [lia|]. split_and!; [done..|]. by intros q ?%not_elem_of_nil.
Qed.

Definition ready_in (R : list Z) : nat := length (filter (λ ev, ev ≠ 0) R).

Lemma ready_in_zero R i ev : ready_in R = O → R !! i = Some ev → ev = 0.
Proof.
  intros Hr Hi. destruct (decide (ev = 0)) as [|Hne]; [done|]. assert (Hin : ev ∈ filter (λ ev, ev ≠ 0) R) by (apply list_elem_of_filter; split; [done|by eapply list_elem_of_lookup_2]).
  unfold ready_in in Hr. apply length_zero_iff_nil in Hr. rewrite Hr in Hin. by apply not_elem_of_nil in Hin.
Qed.

Lemma ready_in_drop R i k ev : R !! (i + k)%nat = Some ev → ev ≠ 0 → (S (ready_in (drop (S (i + k)) R)) ≤ ready_in (drop i R))%nat.
Proof.
  intros Hk Hne. rewrite <-(take_drop k (drop i R)), drop_drop, (drop_S R ev (i + k)) by done. unfold ready_in. rewrite filter_app, length_app, filter_cons_True by done. cbn [length]. lia.
Qed.

Lemma drop_indexed R i k ev : R !! (i + k)%nat = Some ev →
  drop i (indexed R) = take k (drop i (indexed R)) ++ [(i + k, ev)%nat] ++ drop (S (i + k)) (indexed R).
Proof. intros Hk. rewrite <-(take_drop k (drop i (indexed R))) at 1. f_equal. rewrite drop_drop. cbn. apply drop_S. by rewrite indexed_lookup, Hk. Qed.

Lemma drop_indexed_elem R i j ev : (j, ev) ∈ drop i (indexed R) → R !! j = Some ev ∧ (i ≤ j)%nat.
Proof.
  intros (n & Hn)%list_elem_of_lookup. rewrite lookup_drop, indexed_lookup in Hn. destruct (R !! (i + n)%nat) eqn:E; [|done]. injection Hn as <- <-. split; [done|lia].
Qed.

Lemma call_ready_ok R s0 ready : ∀ i s w l, handling s0 (indexed R) s l → (∀ j p, pollfd s !! j = Some p → prevents p ≠ 0 → is_Some (R !! j)) → (ready_in (drop i R) ≤ ready)%nat →
  wp (call_ready script ready i) s w (λ _ s' _, ∃ l', handled s0 (indexed R) (drop i (indexed R)) s' l l').
Proof.
  assert (Hsub : ∀ i, drop i (indexed R) ⊆ indexed R) by (intros i e; apply sublist_subseteq, sublist_drop).
  induction ready as [|ready IH]; intros i s w l H Hz Hr; cbn [call_ready].
  { apply wp_ret. exists []. apply handled_nothing; [done|done|]. intros j ev p [Hj Hij]%drop_indexed_elem Hp.
    assert (ev = 0) as -> by (apply (ready_in_zero (drop i R) (j - i)); [lia|rewrite lookup_drop; by replace (i + (j - i))%nat with j by lia]).
    destruct (hd_watched _ _ _ _ H j 0) as (q & Hq & [[? _]|[_ [? _]]]); [by apply indexed_elem|congruence|done]. }
  rewrite wp_bind, wp_get. pose proof (next_ready_spec (drop i (pollfd s)) i) as Hnext. destruct (next_ready i (drop i (pollfd s))) as [[j ev]|].
  - destruct Hnext as (k & p & -> & Hp & <- & Hne & Ht). rewrite lookup_drop in Hp. destruct (Hz _ p Hp Hne) as [c Hc].
    rewrite (drop_indexed R i k c Hc), wp_bind. assert (H0 : handled s0 (indexed R) (take k (drop i (indexed R))) s l []).
    { apply handled_nothing; [done|intros e He; apply (Hsub i); revert He; apply sublist_subseteq, sublist_take|]. intros j ev q (n & Hn)%list_elem_of_lookup Hq.
      apply lookup_take_Some in Hn as [Hn Hnk]. rewrite lookup_drop, indexed_lookup in Hn. destruct (R !! (i + n)%nat) eqn:En; [|done]. injection Hn as <- <-.
      apply Ht. apply list_elem_of_lookup. exists n. apply lookup_take_Some. rewrite lookup_drop. done. }
    eapply wp_mono; [eapply (call_one s0 (indexed R) s w l (i + k) c p); [done|by apply indexed_elem|done|done]|]. intros [] s1 w1 (f & l1 & H1 & Hs1).
    eapply wp_mono; [apply (IH (S (i + k)) s1 w1 (l ++ Called f c :: l1)); [apply H1| |]|].
    + intros j q Hq Hqn. destruct (st_new _ _ _ Hs1 j q Hq Hqn) as (q0 & Hq0 & E0). apply (Hz j q0 Hq0). congruence.
    + assert (Hcn : c ≠ 0). { destruct (hd_watched _ _ _ _ H (i + k)%nat c) as (q & Hq & [[? _]|[? [? _]]]); [by apply indexed_elem|congruence|done]. }
      pose proof (ready_in_drop R i k c Hc Hcn). lia.
    + intros [] s2 w2 [l2 H2]. exists ([] ++ (Called f c :: l1) ++ l2). eapply handled_app; [exact H0|]. rewrite app_nil_r. by eapply handled_app.
  - apply wp_ret. exists []. apply handled_nothing; [done|done|]. intros j ev p [Hj Hij]%drop_indexed_elem Hp. apply Hnext. apply list_elem_of_lookup. exists (j - i)%nat.
    rewrite lookup_drop. by replace (i + (j - i))%nat with j by lia.
Qed.

(** The reported events are written over all entries. *)
Lemma revents_wf s R : polls_wf s → poll_reports s R → polls_wf (set_arrays (poll_users s) (zip_with (λ p ev, PollEnt (pfd p) (pevents p) ev) (pollfd s) R) s).
Proof.
  intros H [Hl HR]. assert (Hlook : ∀ i q, zip_with (λ p ev, PollEnt (pfd p) (pevents p) ev) (pollfd s) R !! i = Some q →
    ∃ p ev, pollfd s !! i = Some p ∧ R !! i = Some ev ∧ q = PollEnt (pfd p) (pevents p) ev) by (intros i q (p & ev & -> & ? & ?)%lookup_zip_with_Some; eauto).
  split; cbn; try (by apply H).
  - rewrite length_zip_with_l by lia. apply H.
  - destruct (pw_free _ H) as (l & Hc & Hl'). exists l. split; [|done]. by eapply chain_ext; [..|exact Hc].
  - intros f x q Hx (p & ev & Hp & _ & ->)%Hlook. by apply (pw_pfd _ H f x p).
  - intros i n q Hi (p & ev & Hp & Hev & ->)%Hlook. destruct (pw_free_pfd _ H i n p Hi Hp) as [E _]. split; [done|]. cbn. by eapply HR.
  - intros k unix user Hk Hr. destruct (pw_registered _ H k unix user Hk Hr) as (f & x & p & Hx & Eu & Ei & Hp & Ep).
    assert (Hlt : (user < length R)%nat) by (rewrite Hl; by eapply lookup_lt_Some). apply lookup_lt_is_Some_2 in Hlt as [ev Hev].
    exists f, x, (PollEnt (pfd p) (pevents p) ev). split_and!; try done. by apply lookup_zip_with_Some; eauto 6.
Qed.

Lemma poll_turn_ok R s w : polls_wf s → poll_reports s R → wp (poll_turn script R) s w (λ _ s' _, ∃ l, handled s (indexed R) (indexed R) s' [] l).
Proof.
  intros H HR. unfold poll_turn. rewrite wp_bind, wp_modify. pose proof (revents_wf s R H HR) as H1. destruct HR as [Hl HR]. apply (call_ready_ok R s _ 0).
  - apply start_handling; [done..| |].
    + intros i ev Hi%indexed_elem. cbn. assert (Hlt : (i < length (pollfd s))%nat) by (rewrite <-Hl; by eapply lookup_lt_Some). apply lookup_lt_is_Some_2 in Hlt as [p Hp].
      exists (PollEnt (pfd p) (pevents p) ev). split; [|done]. apply lookup_zip_with_Some. eauto 6.
    + intros i ev Hi%indexed_elem Hne. assert (Hlt : (i < length (poll_users s))%nat) by (rewrite <-(pw_len _ H), <-Hl; by eapply lookup_lt_Some).
      apply lookup_lt_is_Some_2 in Hlt as [[f|n] Hu]; [eauto|]. destruct (both_entries s i _ H Hu) as [p Hp]. destruct (pw_free_pfd _ H i n p Hu Hp). by destruct Hne; eapply HR.
  - intros j q (p & ev & -> & _ & Hev)%lookup_zip_with_Some _. eauto.
  - done.
Qed.

(** ** Sequences of requests and turns *)

Inductive request := Op (o : op) | EpollTurn (E : list (nat * Z)) | PollTurn (R : list Z).
Definition run_request (r : request) : PM unit :=
  match r with Op o => run_op o | EpollTurn E => epoll_turn script E | PollTurn R => poll_turn script R end.
Definition may_happen (s : polls) (r : request) : Prop :=
  match r with Op o => allowed s o | EpollTurn E => epoll_reports s E | PollTurn R => poll_reports s R end.
Definition no_users : polls := Polls [] [] 0 0 0 None None ∅ 0 [].
Inductive reachable : polls → Prop :=
  | reach_start : reachable no_users
  | reach_request s w r s' w' : reachable s → may_happen s r → run_request r s w = Some (tt, s', w') → reachable s'.

Lemma poll_request_ok s w r : polls_wf s → may_happen s r → wp (run_request r) s w (λ _ s' _, polls_wf s').
Proof.
  intros H Hr. destruct r as [o|E|R]; cbn [run_request].
  - eapply wp_mono; [by apply poll_op_ok|]. by intros [] s' w' [? _].
  - eapply wp_mono; [by apply epoll_turn_ok|]. intros [] s' w' [l Hl]. apply Hl.
  - eapply wp_mono; [by apply poll_turn_ok|]. intros [] s' w' [l Hl]. apply Hl.
Qed.

Lemma no_users_wf : polls_wf no_users.
Proof.
  split; cbn; try done.
  - split; [by left|done].
  - intros i f. rewrite lookup_nil. split; [done|]. intros (x & Hx & _). by rewrite lookup_empty in Hx.
  - exists []. split_and!; [done|constructor|]. intros i. rewrite lookup_nil. split; [by intros ?%not_elem_of_nil|by intros []].
  - intros f [x Hx]. by rewrite lookup_empty in Hx.
Qed.

Lemma reachable_wf s : reachable s → polls_wf s.
Proof. induction 1 as [|s w r s' w' _ IH Hr Hrun]; [apply no_users_wf|]. pose proof (poll_request_ok s w r IH Hr) as Hw. by rewrite (wp_run _ _ _ _ _ _ Hrun) in Hw. Qed.

(** C20: whatever is opened, closed and reprogrammed, also by the functions that are called,
    whatever [epoll_ctl] answers and whatever allocations fail: the arrays and the objects
    agree, the pointers of the free list point to exactly the free entries of the present
    array, what is registered with epoll is an object that waits, the count of users is
    right, and nothing that may happen next makes the server fail. *)
Theorem polling_safe s w r : reachable s → may_happen s r → polls_wf s ∧ ∃ s' w', run_request r s w = Some (tt, s', w') ∧ reachable s'.
Proof.
  intros Hs Hr. pose proof (reachable_wf s Hs) as H. split; [done|]. destruct (wp_elim _ _ _ _ (poll_request_ok s w r H Hr)) as ([] & s' & w' & E & _).
  exists s', w'. split; [done|]. by eapply reach_request.
Qed.

(** C19: in one turn of either main loop an event goes to the object for which it was
    reported, in the order of the reports, or that object has been closed or has stopped
    waiting before; no function is called for an object after that, even if its entry is
    used again at once. *)
Theorem turn_correct s w r E : reachable s → may_happen s r → (r = EpollTurn E ∨ ∃ R, r = PollTurn R ∧ E = indexed R) →
  ∃ s' w' l, run_request r s w = Some (tt, s', w') ∧ log s' = log s ++ l ∧ calls l `sublist_of` targets s E ∧
    (∀ l1 f ev l2, l = l1 ++ Called f ev :: l2 → Stopped f ∉ l1) ∧
    ∀ i ev, (i, ev) ∈ E → ev ≠ 0 → ∃ f, poll_users s !! i = Some (User f) ∧ (Called f ev ∈ l ∨ Stopped f ∈ l).
Proof.
  intros Hs Hr HE. pose proof (reachable_wf s Hs) as H. cut (wp (run_request r) s w (λ _ s' _, ∃ l, handled s E E s' [] l)).
  - intros ([] & s' & w' & Erun & l & [[_ Hl _ Hu] Hc Ha])%wp_elim. by exists s', w', l.
  - destruct HE as [->|(R & -> & ->)]; cbn [run_request]; [by apply epoll_turn_ok|by apply poll_turn_ok].
Qed.
End Calls.
End Polling.

(** ** Examples *)

(** A kernel that never fails. *)
#[export] #[refine] Instance plain_epoll : Epoll (gmap Z nat) := {|
  ep_create := Some ∅;
  ep_ctl o unix _ user k := (CtlOk, match o with EPOLL_CTL_DEL => delete unix k | _ => <[unix := user]> k end);
  ep_registered k := k
|}.
Proof. all: naive_solver. Defined.
#[local] Abbreviation kernel := (gmap Z nat).

(** At an error an object stops waiting; at other events number 0 closes number 1 and opens
    another object with the same descriptor. *)
Definition closing (f ev : Z) (s : polls (K := kernel)) : list op :=
  if ev =? POLLERR then [Events f (-1)] else
  match fds s !! 1 with Some x => if f =? 0 then [Close 1; Open (unix_fd x)] else [] | None => [] end.
Lemma closing_ok f ev s w : polls_wf s → is_Some (fds s !! f) → ops_ok s w (closing f ev s).
Proof.
  intros H Hf. unfold closing. destruct (ev =? POLLERR); [by split|]. destruct (fds s !! 1) as [x|] eqn:Hx; [|done]. destruct (f =? 0); [|done].
  split; [by exists x|]. intros s' w' Hrun. split; [|by intros].
  pose proof (poll_fd_destroy_ok s w 1 H ltac:(eauto)) as Hw. cbn [run_op] in Hrun. rewrite (wp_run _ _ _ _ _ _ Hrun) in Hw. destruct Hw as [_ Ef].
  split; [by apply (pw_valid _ H 1)|]. rewrite Ef. intros g y [Hne Hy]%lookup_delete_Some Eu. apply Hne. by apply (pw_unix _ H 1 g x y).
Qed.

Definition after (r : request) (s : polls (K := kernel)) : polls := match run_request closing r s (World 0 []) with Some (_, s', _) => s' | None => s end.
Lemma poll_reach_after s r : reachable closing s → may_happen s r → is_Some (run_request closing r s (World 0 [])) → reachable closing (after r s).
Proof. intros Hs Ha [[[[] s'] w'] E]. unfold after. rewrite E. by eapply reach_request. Qed.

Definition waiting_1 : polls (K := kernel) := after (Op (Open 4)) no_users.
Definition waiting_2 : polls (K := kernel) := after (Op (Open 5)) waiting_1.
Definition waiting_3 : polls (K := kernel) := after (Op (Open 6)) waiting_2.
Definition waiting_4 : polls (K := kernel) := after (Op (Events 0 1)) waiting_3.
Definition waiting_5 : polls (K := kernel) := after (Op (Events 1 1)) waiting_4.
Definition waiting_6 : polls (K := kernel) := after (Op (Events 2 1)) waiting_5.

Lemma open_allowed (s : polls (K := kernel)) unix : 0 ≤ unix → bool_decide (map_Forall (λ _ y, unix_fd y ≠ unix) (fds s)) = true → may_happen s (Op (Open unix)).
Proof. intros Hu Hb. split; [done|]. intros g y Hy. apply bool_decide_eq_true in Hb. by eapply Hb. Qed.

Lemma waiting_reachable : reachable closing waiting_6.
Proof.
  do 3 (apply poll_reach_after; [|vm_compute; by eexists|vm_compute; eauto]).
  do 3 (apply poll_reach_after; [|apply open_allowed; [done|vm_compute; reflexivity]|vm_compute; eauto]). constructor.
Qed.

Definition reported_6 : list (nat * Z) := [(0%nat, 1); (1%nat, 1); (2%nat, 8)].
Lemma reported_6_ok : epoll_reports waiting_6 reported_6.
Proof.
  assert (He : ∃ k, epoll waiting_6 = Some k ∧ k = {[4 := 0%nat; 5 := 1%nat; 6 := 2%nat]}) by (eexists; split; [vm_compute; reflexivity|vm_compute; reflexivity]).
  destruct He as (k & Hk & Ek). split; [by apply (bool_decide_unpack _); vm_compute|]. intros user ev Hi. exists k.
  unfold reported_6 in Hi. rewrite !elem_of_cons in Hi. destruct Hi as [[= -> ->]|[[= -> ->]|[[= -> ->]|?%not_elem_of_nil]]]; [exists 4|exists 5|exists 6|done]; split; try done; by rewrite Ek.
Qed.

(** The second object is closed, and its entry used again, before its event is looked at. *)
Example turn_6 : (λ r, log r.1.2) <$> epoll_turn closing reported_6 waiting_6 (World 0 []) = Some [Called 0 1; Stopped 1; Called 2 8; Stopped 2] ∧
  (λ r, poll_users r.1.2) <$> epoll_turn closing reported_6 waiting_6 (World 0 []) = Some [User 0; User 3; User 2].
Proof. by vm_compute. Qed.

Lemma polling_safe_witness : polls_wf waiting_6 ∧ ∃ s' w', run_request closing (PollTurn [1; 1; 8]) waiting_6 (World 0 []) = Some (tt, s', w') ∧ reachable closing s'.
Proof.
  apply (polling_safe closing closing_ok waiting_6 (World 0 []) (PollTurn [1; 1; 8]) waiting_reachable). split; [done|].
  intros i p ev Hp Hev E. destruct i as [|[|[|i]]]; vm_compute in Hp; [..|discriminate Hp]; injection Hp as <-; discriminate E.
Defined.

Lemma turn_correct_witness :
  ∃ s' w' l, run_request closing (EpollTurn reported_6) waiting_6 (World 0 []) = Some (tt, s', w') ∧ log s' = log waiting_6 ++ l ∧ calls l `sublist_of` targets waiting_6 reported_6 ∧
    (∀ l1 f ev l2, l = l1 ++ Called f ev :: l2 → Stopped f ∉ l1) ∧
    ∀ i ev, (i, ev) ∈ reported_6 → ev ≠ 0 → ∃ f, poll_users waiting_6 !! i = Some (User f) ∧ (Called f ev ∈ l ∨ Stopped f ∈ l).
Proof. apply (turn_correct closing closing_ok waiting_6 (World 0 []) (EpollTurn reported_6) reported_6 waiting_reachable reported_6_ok). by left. Defined.
