(* ===== verification/Ranges.v ===== *)
(** * Lists of address ranges (server/mapping.c)

    The pages of a mapping that are committed are a sorted array of ranges that do not
    touch; the addresses that are free for images are an array of blocks in descending
    order. Both merge what touches. The operations here are the loops over the arrays;
    [Mapping] has their callers, which reallocate the arrays and check the arguments.

    Theorems (lemmas for the most part, used in [Mapping]): the loops compute the union
    with, the difference from, and the lookup in a set of addresses, and keep the arrays
    in order, without two entries that touch. *)

From stdpp Require Import sorting.
From S2P Require Import Prelude.

(** ** Committed ranges *)

Record range := Range { r_start : Z; r_end : Z }.
Definition covered (l : list range) (x : Z) : Prop := ∃ r, r ∈ l ∧ r_start r ≤ x < r_end r.

(** The index at which the loop of [add_committed_range] stops, and whether it has found a
    range that meets the new one or touches it. *)
Fixpoint find_meeting (start end_ : Z) (i : nat) (l : list range) : nat * bool :=
  match l with
  | [] => (i, false)
  | r :: l => if end_ <? r_start r then (i, false) else if r_end r <? start then find_meeting start end_ (S i) l else (i, true)
  end.
(** The inner loop: the end of what is merged, and the ranges that remain. *)
Fixpoint absorb (end_ : Z) (l : list range) : Z * list range :=
  match l with
  | [] => (end_, [])
  | r :: l' => if end_ <? r_start r then (end_, l) else absorb (if end_ <? r_end r then r_end r else end_) l'
  end.
Definition extend (start end_ : Z) (i : nat) (r : range) (l : list range) : list range :=
  let s := if start <? r_start r then start else r_start r in
  if r_end r <? end_ then let a := absorb end_ (drop (S i) l) in take i l ++ Range s a.1 :: a.2
  else take i l ++ Range s (r_end r) :: drop (S i) l.
Definition insert_range (i : nat) (r : range) (l : list range) : list range := take i l ++ r :: drop i l.
(** The loop of [find_committed_range]: is [x] committed, and up to where is that so? *)
Fixpoint find_range (x limit : Z) (l : list range) : bool * Z :=
  match l with
  | [] => (false, limit - x)
  | r :: l => if x <? r_start r then (false, Z.min (r_start r) limit - x) else if x <? r_end r then (true, Z.min (r_end r) limit - x) else find_range x limit l
  end.

(** Ranges in ascending order with gaps between them. *)
Definition before (r1 r2 : range) : Prop := r_end r1 < r_start r2.
Definition ranges_ok (l : list range) : Prop := StronglySorted before l ∧ Forall (λ r, r_start r < r_end r) l.

Lemma ranges_ok_cons r l : ranges_ok (r :: l) ↔ r_start r < r_end r ∧ Forall (before r) l ∧ ranges_ok l.
Proof. unfold ranges_ok. rewrite StronglySorted_cons, Forall_cons. tauto. Qed.

Lemma ranges_ok_app l1 l2 : ranges_ok (l1 ++ l2) ↔ ranges_ok l1 ∧ ranges_ok l2 ∧ ∀ r1 r2, r1 ∈ l1 → r2 ∈ l2 → before r1 r2.
Proof. unfold ranges_ok. rewrite StronglySorted_app, Forall_app. naive_solver. Qed.

Lemma covered_nil x : ¬ covered [] x.
Proof. by intros (r & ?%not_elem_of_nil & _). Qed.

Lemma covered_cons r l x : covered (r :: l) x ↔ r_start r ≤ x < r_end r ∨ covered l x.
Proof. unfold covered. setoid_rewrite elem_of_cons. naive_solver. Qed.

Lemma covered_app l1 l2 x : covered (l1 ++ l2) x ↔ covered l1 x ∨ covered l2 x.
Proof. unfold covered. setoid_rewrite elem_of_app. naive_solver. Qed.

Lemma find_meeting_spec start end_ l : ∀ i, match find_meeting start end_ i l with
  | (j, b) => ∃ k, j = (i + k)%nat ∧ (k ≤ length l)%nat ∧ Forall (λ r, r_end r < start) (take k l) ∧
    if b then ∃ r, l !! k = Some r ∧ r_start r ≤ end_ ∧ start ≤ r_end r else ∀ r, head (drop k l) = Some r → end_ < r_start r
  end.
Proof.
  induction l as [|r l IH]; intros i; cbn [find_meeting]; [exists O; split_and!; [lia|done|constructor|done]|].
  destruct (Z.ltb_spec end_ (r_start r)) as [H1|H1]; [exists O; split_and!; [lia|cbn; lia|constructor|by intros ? [= <-]]|].
  destruct (Z.ltb_spec (r_end r) start) as [H2|H2].
  - specialize (IH (S i)). destruct (find_meeting start end_ (S i) l) as [j b]. destruct IH as (k & -> & Hk & Ht & Hb). exists (S k). cbn [take drop lookup list_lookup length].
    split_and!; [lia|lia|by constructor|done].
  - exists O. split_and!; [lia|cbn; lia|constructor|]. by exists r.
Qed.

(** The ranges that are merged are those that begin up to the end. *)
Lemma absorb_spec l : ∀ e, ranges_ok l → let a := absorb e l in
  e ≤ a.1 ∧ ranges_ok a.2 ∧ (∀ r, r ∈ a.2 → r ∈ l ∧ a.1 < r_start r) ∧
  ∀ s x, (∀ r, r ∈ l → s ≤ r_start r) → s ≤ e → (s ≤ x < a.1 ∨ covered a.2 x) ↔ (s ≤ x < e ∨ covered l x).
Proof.
  induction l as [|r l IH]; intros e H; cbn [absorb]; cbn zeta.
  { split_and!; [done|done|by intros r ?%not_elem_of_nil|]. intros s x _ _. pose proof (covered_nil x). tauto. }
  apply ranges_ok_cons in H as (Hr & Hb & H). rewrite Forall_forall in Hb. destruct (Z.ltb_spec e (r_start r)) as [H1|H1]; cbn [fst snd].
  - split; [done|]. split; [apply ranges_ok_cons; rewrite Forall_forall; auto|]. split; [|tauto]. intros q Hq. split; [done|]. apply elem_of_cons in Hq as [->|Hq]; [done|].
    specialize (Hb q Hq). unfold before in Hb. lia.
  - set (e' := if e <? r_end r then r_end r else e). assert (He : e ≤ e' ∧ r_end r ≤ e' ∧ (e' = e ∨ e' = r_end r)) by (unfold e'; destruct (Z.ltb_spec e (r_end r)); lia).
    destruct (IH e' H) as (H2 & H3 & H4 & H5). split; [lia|]. split; [done|]. split; [intros q Hq; destruct (H4 q Hq); split; [by right|done]|].
    intros s x Hs Hse. rewrite covered_cons. rewrite H5; [|intros q Hq; apply Hs; by right|lia]. assert (s ≤ r_start r) by (apply Hs; left).
    split; [intros [?|?]; [|tauto]; destruct (decide (x < e)); [left; lia|right; left; lia]|intros [?|[?|?]]; [left; lia|left; lia|by right]].
Qed.

Lemma insert_range_spec start end_ l : ranges_ok l → start < end_ → ∀ i, find_meeting start end_ 0 l = (i, false) →
  ranges_ok (insert_range i (Range start end_) l) ∧ ∀ x, covered (insert_range i (Range start end_) l) x ↔ covered l x ∨ start ≤ x < end_.
Proof.
  intros H Hse i Hi. pose proof (find_meeting_spec start end_ l 0) as Hf. rewrite Hi in Hf. destruct Hf as (k & -> & _ & Ht & Hd). cbn [Nat.add] in *. rewrite Forall_forall in Ht.
  assert (Hdrop : ∀ r, r ∈ drop k l → end_ < r_start r).
  { intros r Hr. destruct (drop k l) as [|q d] eqn:E; [by apply not_elem_of_nil in Hr|]. specialize (Hd q eq_refl). apply elem_of_cons in Hr as [->|Hr]; [done|].
    rewrite <-(take_drop k l), E in H. apply ranges_ok_app in H as (_ & H & _). apply ranges_ok_cons in H as (Hq & Hb & _). rewrite Forall_forall in Hb. specialize (Hb r Hr). unfold before in Hb. lia. }
  unfold insert_range. split.
  - rewrite <-(take_drop k l) in H. apply ranges_ok_app in H as (H1 & H2 & H12). apply ranges_ok_app. split; [done|]. split.
    + apply ranges_ok_cons. rewrite Forall_forall. split_and!; [done|by intros r Hr; apply Hdrop|done].
    + intros r1 r2 Hr1 [->|Hr2]%elem_of_cons; [by apply Ht|auto].
  - intros x. rewrite covered_app, covered_cons. cbn [r_start r_end]. rewrite <-(take_drop k l) at 3. rewrite covered_app. tauto.
Qed.

Lemma extend_spec start end_ l : ranges_ok l → start < end_ → ∀ i r, find_meeting start end_ 0 l = (i, true) → l !! i = Some r →
  ranges_ok (extend start end_ i r l) ∧ ∀ x, covered (extend start end_ i r l) x ↔ covered l x ∨ start ≤ x < end_.
Proof.
  intros H Hse i r Hi Hr. pose proof (find_meeting_spec start end_ l 0) as Hf. rewrite Hi in Hf. destruct Hf as (k & -> & _ & Ht & q & Hq & Hq1 & Hq2). cbn [Nat.add] in *.
  assert (q = r) as -> by congruence. rewrite Forall_forall in Ht. pose proof (take_drop_middle l k r Hr) as El. rewrite <-El in H. apply ranges_ok_app in H as (H1 & H2 & H12).
  apply ranges_ok_cons in H2 as (Hr0 & Hb & H2). rewrite Forall_forall in Hb. assert (Hcov : ∀ x, covered l x ↔ covered (take k l) x ∨ r_start r ≤ x < r_end r ∨ covered (drop (S k) l) x).
  { intros x. rewrite <-El at 1. by rewrite covered_app, covered_cons. }
  unfold extend. set (s := if start <? r_start r then start else r_start r). assert (Hs : s ≤ start ∧ s ≤ r_start r ∧ (s = start ∨ s = r_start r)) by (unfold s; destruct (Z.ltb_spec start (r_start r)); lia).
  assert (Hbs : ∀ q, q ∈ take k l → r_end q < s). { intros p Hp. specialize (Ht p Hp). assert (before p r) by (apply H12; [done|left]). unfold before in *. lia. }
  destruct (Z.ltb_spec (r_end r) end_) as [He|He].
  - destruct (absorb_spec (drop (S k) l) end_ H2) as (A1 & A2 & A3 & A4). cbn zeta in *. set (a := absorb end_ (drop (S k) l)) in *. split.
    + apply ranges_ok_app. split; [done|]. split.
      * apply ranges_ok_cons. rewrite Forall_forall. cbn. split_and!; [lia|by intros p Hp; apply A3|done].
      * intros r1 r2 Hr1 [->|Hr2]%elem_of_cons; [by apply Hbs|]. apply A3 in Hr2 as [Hr2 _]. apply H12; [done|by right].
    + intros x. rewrite covered_app, covered_cons, Hcov. cbn [r_start r_end]. rewrite A4; [|intros p Hp; specialize (Hb p Hp); unfold before in Hb; lia|lia].
      split; [intros [?|[?|?]]; [tauto| |tauto]; destruct (decide (start ≤ x)); [right; lia|left; right; left; lia]|intros [[?|[?|?]]|?]; [tauto|right; left; lia|tauto|right; left; lia]].
  - split.
    + apply ranges_ok_app. split; [done|]. split.
      * apply ranges_ok_cons. rewrite Forall_forall. cbn. split_and!; [lia|done|done].
      * intros r1 r2 Hr1 [->|Hr2]%elem_of_cons; [by apply Hbs|]. apply H12; [done|by right].
    + intros x. rewrite covered_app, covered_cons, Hcov. cbn [r_start r_end]. split; [intros [?|[?|?]]; [tauto| |tauto]; destruct (decide (r_start r ≤ x)); [left; right; left; lia|right; lia]|].
      intros [[?|[?|?]]|?]; [tauto|right; left; lia|tauto|right; left; lia].
Qed.

(** The answer holds up to the limit it gives, and no further, unless that is [limit]. *)
Lemma find_range_spec x limit l : ranges_ok l → x < limit → match find_range x limit l with
  | (b, n) => 0 < n ∧ x + n ≤ limit ∧ (∀ y, x ≤ y < x + n → covered l y ↔ b = true) ∧ (x + n = limit ∨ ¬ (covered l (x + n) ↔ b = true))
  end.
Proof.
  intros H Hx. induction l as [|r l IH]; cbn [find_range].
  { split_and!; [lia|lia| |left; lia]. intros y _. pose proof (covered_nil y). naive_solver. }
  apply ranges_ok_cons in H as (Hr & Hb & H). rewrite Forall_forall in Hb. assert (Hafter : ∀ y, covered l y → r_end r < y) by (intros y (q & Hq & Hy); specialize (Hb q Hq); unfold before in Hb; lia).
  destruct (Z.ltb_spec x (r_start r)) as [H1|H1].
  - split_and!; [lia|lia| |].
    + intros y Hy. rewrite covered_cons. split; [intros [?|Hc]; [lia|]|done]. specialize (Hafter y Hc). lia.
    + destruct (decide (r_start r < limit)); [right|left; lia]. rewrite covered_cons. intros [E _]. discriminate E. left. lia.
  - destruct (Z.ltb_spec x (r_end r)) as [H2|H2].
    + split_and!; [lia|lia| |].
      * intros y Hy. rewrite covered_cons. split; [done|]. intros _. left. lia.
      * destruct (decide (r_end r < limit)); [right|left; lia]. rewrite covered_cons. intros [_ E]. destruct (E eq_refl) as [?|Hc]; [lia|]. specialize (Hafter _ Hc). lia.
    + specialize (IH H). destruct (find_range x limit l) as [b n]. destruct IH as (I1 & I2 & I3 & I4). split_and!; [done|done| |].
      * intros y Hy. rewrite covered_cons, <-I3 by done. split; [|tauto]. intros [?|?]; [lia|done].
      * destruct I4 as [?|I4]; [by left|right]. intros E. apply I4. rewrite <-E, covered_cons. split; [tauto|]. intros [?|?]; [lia|done].
Qed.

(** ** Free addresses *)

Record block := Block { b_base : Z; b_size : Z }.
Definition b_end (b : block) : Z := b_base b + b_size b.
Definition free_at (l : list block) (x : Z) : Prop := ∃ b, b ∈ l ∧ b_base b ≤ x < b_end b.

(** The loop of [assign_map_address]: the end of the first block that is large enough. *)
Fixpoint take_block (size : Z) (l : list block) : option (Z * list block) :=
  match l with
  | [] => None
  | b :: l =>
      if b_size b <? size then match take_block size l with Some (a, l') => Some (a, b :: l') | None => None end
      else let b' := Block (b_base b) (b_size b - size) in Some (b_end b', b' :: l)
  end.
(** The loop of [free_map_addr]: where it stops, and whether it has found a block that
    touches the freed one. *)
Fixpoint find_touching (base end_ : Z) (i : nat) (l : list block) : nat * bool :=
  match l with
  | [] => (i, false)
  | b :: l => if end_ <? b_base b then find_touching base end_ (S i) l else if b_end b <? base then (i, false) else (i, true)
  end.
Definition merge (base size : Z) (i : nat) (b : block) (l : list block) : list block :=
  if b_base b =? base + size then
    match l !! S i with
    | Some n => if b_end n =? base then take i l ++ Block (b_base n) (b_size n + (size + b_size b)) :: drop (S (S i)) l
                else take i l ++ Block base (b_size b + size) :: drop (S i) l
    | None => take i l ++ Block base (b_size b + size) :: drop (S i) l
    end
  else take i l ++ Block (b_base b) (b_size b + size) :: drop (S i) l.
Definition insert_block (i : nat) (b : block) (l : list block) : list block := take i l ++ b :: drop i l.

(** Blocks in descending order with gaps between them; they may be empty. *)
Definition above (b1 b2 : block) : Prop := b_end b2 < b_base b1.
Definition blocks_ok (l : list block) : Prop := StronglySorted above l ∧ Forall (λ b, 0 ≤ b_size b) l.
(** All blocks lie in an interval. *)
Definition within (lo hi : Z) (l : list block) : Prop := ∀ b, b ∈ l → lo ≤ b_base b ∧ b_end b ≤ hi.
(** No block meets the area, nor is an empty one inside. *)
Definition clear (l : list block) (lo hi : Z) : Prop := ∀ b, b ∈ l → hi ≤ b_base b ∨ b_end b ≤ lo.

Lemma blocks_ok_cons b l : blocks_ok (b :: l) ↔ 0 ≤ b_size b ∧ Forall (above b) l ∧ blocks_ok l.
Proof. unfold blocks_ok. rewrite StronglySorted_cons, Forall_cons. tauto. Qed.

Lemma blocks_ok_app l1 l2 : blocks_ok (l1 ++ l2) ↔ blocks_ok l1 ∧ blocks_ok l2 ∧ ∀ b1 b2, b1 ∈ l1 → b2 ∈ l2 → above b1 b2.
Proof. unfold blocks_ok. rewrite StronglySorted_app, Forall_app. naive_solver. Qed.

Lemma free_at_nil x : ¬ free_at [] x.
Proof. by intros (b & ?%not_elem_of_nil & _). Qed.

Lemma free_at_cons b l x : free_at (b :: l) x ↔ b_base b ≤ x < b_end b ∨ free_at l x.
Proof. unfold free_at. setoid_rewrite elem_of_cons. naive_solver. Qed.

Lemma free_at_app l1 l2 x : free_at (l1 ++ l2) x ↔ free_at l1 x ∨ free_at l2 x.
Proof. unfold free_at. setoid_rewrite elem_of_app. naive_solver. Qed.

Lemma clear_cons b l lo hi : clear (b :: l) lo hi ↔ (hi ≤ b_base b ∨ b_end b ≤ lo) ∧ clear l lo hi.
Proof. unfold clear. setoid_rewrite elem_of_cons. naive_solver. Qed.

Lemma clear_app l1 l2 lo hi : clear (l1 ++ l2) lo hi ↔ clear l1 lo hi ∧ clear l2 lo hi.
Proof. unfold clear. setoid_rewrite elem_of_app. naive_solver. Qed.

(** What changes when an area is taken from the blocks. *)
Record taken (l l' : list block) (lo hi : Z) : Prop := {
  tk_ok : blocks_ok l';
  tk_was x : lo ≤ x < hi → free_at l x;
  tk_free x : free_at l' x ↔ free_at l x ∧ ¬ lo ≤ x < hi;
  tk_clear : clear l' lo hi;
  tk_others a b : a < b → clear l a b → clear l' a b ∧ (b ≤ lo ∨ hi ≤ a);
  tk_below b' : b' ∈ l' → ∃ b, b ∈ l ∧ b_base b' = b_base b ∧ b_end b' ≤ b_end b
}.

Lemma take_block_spec size l : blocks_ok l → 0 < size → match take_block size l with
  | Some (a, l') => taken l l' a (a + size)
  | None => ∀ b, b ∈ l → b_size b < size
  end.
Proof.
  intros H Hs. induction l as [|b l IH]; cbn [take_block]; [by intros b ?%not_elem_of_nil|]. apply blocks_ok_cons in H as (Hb & Ha & H). rewrite Forall_forall in Ha.
  destruct (Z.ltb_spec (b_size b) size) as [H1|H1].
  - specialize (IH H). destruct (take_block size l) as [[a l']|]; [|intros c [->|Hc]%elem_of_cons; auto].
    destruct IH as [T1 T2 T3 T4 T5 T6]. assert (Hnear : ∀ x, free_at l x → x < b_base b).
    { intros x (c & Hc & Hx). specialize (Ha c Hc). unfold above, b_end in *. lia. }
    assert (Hlo : a + size ≤ b_base b). { assert (free_at l (a + size - 1)) as Hx by (apply T2; lia). specialize (Hnear _ Hx). lia. }
    split.
    + apply blocks_ok_cons. rewrite Forall_forall. split_and!; [done| |done]. intros c (d & Hd & _ & He)%T6. specialize (Ha d Hd). unfold above in *. lia.
    + intros x Hx. rewrite free_at_cons. right. by apply T2.
    + intros x. rewrite !free_at_cons, T3. unfold b_end. split; [intros [?|?]; [split; [by left|lia]|tauto]|tauto].
    + apply clear_cons. split; [by left|done].
    + intros lo hi Hlh. rewrite !clear_cons. intros [Hc1 Hc2]. destruct (T5 lo hi Hlh Hc2). tauto.
    + intros c [->|Hc]%elem_of_cons; [exists b; split_and!; [left|done|done]|]. destruct (T6 c Hc) as (d & ? & ?). exists d. split; [by right|done].
  - cbn zeta. unfold b_end at 1 2. cbn [b_base b_size]. assert (Hend : b_end (Block (b_base b) (b_size b - size)) = b_end b - size) by (unfold b_end; cbn; lia).
    split.
    + apply blocks_ok_cons. rewrite Forall_forall. cbn. split_and!; [lia|done|done].
    + intros x Hx. rewrite free_at_cons. left. unfold b_end. lia.
    + intros x. rewrite !free_at_cons, Hend. cbn [b_base]. unfold b_end. split; [intros [?|Hf]; [split; [left; lia|lia]|]|intros [[?|?] ?]; [left; lia|by right]].
      split; [by right|]. destruct Hf as (c & Hc & Hx). specialize (Ha c Hc). unfold above, b_end in *. lia.
    + apply clear_cons. split; [right; unfold b_end; cbn; lia|]. intros c Hc. right. specialize (Ha c Hc). unfold above in Ha. lia.
    + intros lo hi Hlh. rewrite !clear_cons, Hend. cbn [b_base]. unfold b_end. intros [Hc1 Hc2]. split; [split; [lia|done]|lia].
    + intros c [->|Hc]%elem_of_cons; [exists b; split_and!; [left|done|rewrite Hend; lia]|]. exists c. split_and!; [by right|done|done].
Qed.

(** What changes when an area is given back. *)
Record given (l l' : list block) (lo hi : Z) : Prop := {
  gv_ok : blocks_ok l';
  gv_free x : free_at l' x ↔ free_at l x ∨ lo ≤ x < hi;
  gv_others a b : a < b → clear l a b → b ≤ lo ∨ hi ≤ a → clear l' a b;
  gv_within a b : within a b l → a ≤ lo → hi ≤ b → within a b l'
}.

Lemma find_touching_spec base end_ l : ∀ i, match find_touching base end_ i l with
  | (j, b) => ∃ k, j = (i + k)%nat ∧ Forall (λ b, end_ < b_base b) (take k l) ∧
    if b then ∃ b, l !! k = Some b ∧ b_base b ≤ end_ ∧ base ≤ b_end b else ∀ b, head (drop k l) = Some b → b_end b < base
  end.
Proof.
  induction l as [|b l IH]; intros i; cbn [find_touching]; [exists O; split_and!; [lia|constructor|done]|].
  destruct (Z.ltb_spec end_ (b_base b)) as [H1|H1].
  - specialize (IH (S i)). destruct (find_touching base end_ (S i) l) as [j c]. destruct IH as (k & -> & Ht & Hb). exists (S k). cbn [take drop lookup list_lookup].
    split_and!; [lia|by constructor|done].
  - destruct (Z.ltb_spec (b_end b) base) as [H2|H2]; exists O; (split_and!; [lia|constructor|]); [by intros ? [= <-]|by exists b].
Qed.

(** One block in the place of some that lie within it. *)
Lemma given_middle l1 l2 mid b lo hi : blocks_ok (l1 ++ mid ++ l2) → lo < hi → 0 ≤ b_size b → (∀ c, c ∈ l1 → b_end b < b_base c) → (∀ c, c ∈ l2 → b_end c < b_base b) →
  (∀ x, b_base b ≤ x < b_end b ↔ free_at mid x ∨ lo ≤ x < hi) → (∀ x y, x < y → clear mid x y → y ≤ lo ∨ hi ≤ x → y ≤ b_base b ∨ b_end b ≤ x) →
  given (l1 ++ mid ++ l2) (l1 ++ b :: l2) lo hi.
Proof.
  intros H Hlh Hb H1 H2 Hx Hc. apply blocks_ok_app in H as (O1 & O2 & O12). apply blocks_ok_app in O2 as (O2 & O3 & O23). split.
  - apply blocks_ok_app. split; [done|]. split; [apply blocks_ok_cons; rewrite Forall_forall; split_and!; [done|done|done]|]. intros b1 b2 Hb1 [->|Hb2]%elem_of_cons; [by apply H1|].
    apply O12; [done|]. apply elem_of_app. by right.
  - intros x. rewrite !free_at_app, free_at_cons, Hx. tauto.
  - intros x y Hxy. rewrite !clear_app, clear_cons. intros (C1 & C2 & C3) Hd. split; [done|]. split; [by apply Hc|done].
  - intros x y Hw Hxlo Hhiy. assert (Hin : ∀ z, b_base b ≤ z < b_end b → x ≤ z < y).
    { intros z [(c & Hc' & Hz)|?]%Hx; [|lia]. destruct (Hw c) as [? ?]; [rewrite !elem_of_app; auto|lia]. }
    assert (Hlo : b_base b ≤ lo < b_end b) by (apply Hx; right; lia). pose proof (Hin (b_base b) ltac:(lia)). pose proof (Hin (b_end b - 1) ltac:(lia)).
    intros c [Hc1|[->|Hc2]%elem_of_cons]%elem_of_app; [apply Hw; rewrite !elem_of_app; auto|lia|apply Hw; rewrite !elem_of_app; auto].
Qed.

Lemma insert_block_spec base size l : blocks_ok l → 0 < size → clear l base (base + size) → ∀ i, find_touching base (base + size) 0 l = (i, false) →
  given l (insert_block i (Block base size) l) base (base + size).
Proof.
  intros H Hs Hcl i Hi. pose proof (find_touching_spec base (base + size) l 0) as Hf. rewrite Hi in Hf. destruct Hf as (k & -> & Ht & Hd). cbn [Nat.add] in *. rewrite Forall_forall in Ht.
  unfold insert_block. rewrite <-(take_drop k l) at 1. rewrite <-(take_drop k l) in H. change (drop k l) with ([] ++ drop k l) in H at 1 |- * at 1.
  apply given_middle; unfold b_end; cbn [b_base b_size]; [done|lia|lia|by intros c Hc; apply Ht| | |lia].
  - intros c Hc. destruct (drop k l) as [|q d] eqn:E; [by apply not_elem_of_nil in Hc|]. specialize (Hd q eq_refl). apply elem_of_cons in Hc as [->|Hc]; [done|].
    cbn [app] in H. apply blocks_ok_app in H as (_ & H & _). apply blocks_ok_cons in H as (Hq & Hb & _). rewrite Forall_forall in Hb. specialize (Hb c Hc). unfold above, b_end in *. lia.
  - intros x. pose proof (free_at_nil x). split; [by right|]. by intros [?|].
Qed.

Lemma merge_spec base size l : blocks_ok l → 0 < size → clear l base (base + size) → ∀ i b, find_touching base (base + size) 0 l = (i, true) → l !! i = Some b →
  given l (merge base size i b l) base (base + size).
Proof.
  intros H Hs Hcl i b Hi Hb. pose proof (find_touching_spec base (base + size) l 0) as Hf. rewrite Hi in Hf. destruct Hf as (k & -> & Ht & q & Hq & Hq1 & Hq2). cbn [Nat.add] in *.
  assert (q = b) as -> by congruence. rewrite Forall_forall in Ht. pose proof (take_drop_middle l k b Hb) as El. pose proof H as H0. rewrite <-El in H0.
  apply blocks_ok_app in H0 as (O1 & O2 & O12). apply blocks_ok_cons in O2 as (Hb0 & Hab & O2). rewrite Forall_forall in Hab.
  assert (Hcb : base + size ≤ b_base b ∨ b_end b ≤ base) by (apply Hcl; by eapply list_elem_of_lookup_2).
  assert (Hup : ∀ c, c ∈ take k l → base + size < b_base c ∧ b_end b < b_base c) by (intros c Hc; split; [by apply Ht|]; apply (O12 c b Hc); left).
  (* The block alone is extended. *)
  assert (Halone : ∀ b', 0 ≤ b_size b' → (b_end b = base ∧ b_base b' = b_base b ∧ b_end b' = base + size ∨ b_base b = base + size ∧ b_base b' = base ∧ b_end b' = b_end b ∧
      ∀ c, c ∈ drop (S k) l → b_end c < base) → given l (take k l ++ b' :: drop (S k) l) base (base + size)).
  { intros b' Hb' Hcase. rewrite <-El at 1. change (b :: drop (S k) l) with ([b] ++ drop (S k) l). rewrite <-El in H. change (b :: drop (S k) l) with ([b] ++ drop (S k) l) in H.
    apply given_middle; [done|lia|done| | | |].
    - intros c Hc. destruct (Hup c Hc). lia.
    - intros c Hc. specialize (Hab c Hc). unfold above in Hab. destruct Hcase as [(? & -> & _)|(? & -> & _ & Hlow)]; [done|by apply Hlow].
    - intros x. rewrite free_at_cons. pose proof (free_at_nil x). unfold b_end in *. split; [intros; destruct Hcase; [destruct (decide (x < base)); [left; left; lia|right; lia]|destruct (decide (x < base + size)); [right; lia|left; left; lia]]|].
      intros [[?|?]|?]; [lia|done|lia].
    - intros x y Hxy. rewrite clear_cons. unfold b_end in *. intros [? _] ?. lia.
    }
  unfold merge. destruct (Z.eqb_spec (b_base b) (base + size)) as [Eb|Eb]; [|apply Halone; unfold b_end in *; cbn; [lia|left; lia]].
  destruct (l !! S k) as [n|] eqn:En.
  - pose proof (drop_S l n (S k) En) as Ed. rewrite Ed in O2, Hab. apply blocks_ok_cons in O2 as (Hn0 & Han & O2). rewrite Forall_forall in Han.
    assert (Hcn : base + size ≤ b_base n ∨ b_end n ≤ base) by (apply Hcl; by eapply list_elem_of_lookup_2). pose proof (Hab n ltac:(left)) as Hbn. unfold above in Hbn.
    destruct (Z.eqb_spec (b_end n) base) as [Enb|Enb].
    + rewrite <-El at 1. rewrite Ed. change (b :: n :: drop (S (S k)) l) with ([b; n] ++ drop (S (S k)) l). rewrite <-El, Ed in H. change (b :: n :: drop (S (S k)) l) with ([b; n] ++ drop (S (S k)) l) in H.
      apply given_middle; unfold b_end in *; cbn [b_base b_size]; [done|lia|lia| | | |].
      * intros c Hc. destruct (Hup c Hc). unfold b_end in *. lia.
      * intros c Hc. specialize (Han c Hc). unfold above, b_end in Han. done.
      * intros x. rewrite !free_at_cons. pose proof (free_at_nil x). unfold b_end. split; [|intros [[?|[?|?]]|?]; [lia|lia|done|lia]].
        intros. destruct (decide (x < base)); [left; right; left; lia|]. destruct (decide (x < base + size)); [right; lia|left; left; lia].
      * intros x y Hxy. rewrite !clear_cons. unfold b_end. intros (? & ? & _) ?. lia.
    + apply Halone; unfold b_end in *; cbn; [lia|right]. split_and!; [done|done|lia|]. rewrite Ed. intros c [->|Hc]%elem_of_cons; [lia|]. specialize (Han c Hc). unfold above, b_end in Han. lia.
  - apply Halone; unfold b_end in *; cbn; [lia|right]. split_and!; [done|done|lia|]. apply lookup_ge_None in En. rewrite drop_ge by lia. by intros c ?%not_elem_of_nil.
Qed.

Lemma taken_within l l' a b lo hi : taken l l' a b → within lo hi l → within lo hi l'.
Proof. intros H Hw c (d & Hd & -> & He)%(tk_below _ _ _ _ H). destruct (Hw d Hd). lia. Qed.

(** A taken area lies where the blocks do. *)
Lemma taken_inside l l' a b lo hi : taken l l' a b → a < b → within lo hi l → lo ≤ a ∧ b ≤ hi.
Proof.
  intros H Hab Hw. assert (Hin : ∀ x, a ≤ x < b → lo ≤ x < hi) by (intros x (c & Hc & Hx)%(tk_was _ _ _ _ H); destruct (Hw c Hc); lia).
  pose proof (Hin a ltac:(lia)). pose proof (Hin (b - 1) ltac:(lia)). lia.
Qed.
