(* ===== verification/Mapping.v ===== *)
(** * Memory mappings (server/mapping.c)

    Mappings (sections), the views of them in the address spaces of the processes, the
    ranges of pages that are committed, the files that back shared sections of images, and
    the addresses that are assigned to images. Counted are the references to fd objects,
    lists of committed ranges and shared maps; [fd_outside] are those that files and
    handles hold, which come and go by requests of their own. What the system answers about
    files, and what [get_image_params] reads from them, are arguments.

    A computation returns [None] when it reads an object that does not exist, so a theorem that
    requests succeed says that no pointer dangles. Left out are the named object and the
    handle of a mapping, debug events, the headers of images and the contents of files, and
    the memory that sessions share with clients.

    Theorems: [memory_requests_safe] (counts are exact, views of a process never overlap,
    addresses of images never overlap), [commit_seen_by_all_views] (committed pages are seen
    through all views of a mapping), [image_addresses_returned] (addresses of images come
    back). Two computed examples are defects: pages that are not noted while the client is not
    told ([realloc_failure_ignored]), and permanent mappings that are left without a file
    ([unfinished_mapping_crashes]); [memory_requests_safe] excludes the latter. *)

From S2P Require Import Prelude Ranges.

Definition SEC_FILE : Z := 0x00800000.
Definition SEC_IMAGE : Z := 0x01000000.
Definition SEC_RESERVE : Z := 0x04000000.
Definition SEC_COMMIT : Z := 0x08000000.
Definition SEC_NOCACHE : Z := 0x10000000.
Definition SEC_WRITECOMBINE : Z := 0x40000000.
Definition SEC_LARGE_PAGES : Z := 0x80000000.
Definition IMAGE_FILE_DLL : Z := 0x2000.
Definition IMAGE_FILE_MACHINE_AMD64 : Z := 0x8664.
Definition IMAGE_FILE_MACHINE_ARM64 : Z := 0xaa64.
Definition IMAGE_FLAGS_ComPlusNativeReady : Z := 0x01.
Definition IMAGE_FLAGS_ImageDynamicallyRelocated : Z := 0x04.
Definition STATUS_IMAGE_NOT_AT_BASE : Z := 0x40000003.
Definition STATUS_IMAGE_MACHINE_TYPE_MISMATCH : Z := 0x4000000E.
Definition STATUS_NOT_MAPPED_VIEW : Z := 0xC0000019.
Definition STATUS_INVALID_FILE_FOR_SECTION : Z := 0xC0000020.
Definition STATUS_SECTION_TOO_BIG : Z := 0xC0000040.
Definition STATUS_NOT_SAME_DEVICE : Z := 0xC00000D4.
Definition STATUS_MAPPED_FILE_SIZE_ZERO : Z := 0xC000011E.
Definition page_mask : Z := 0xfff.
Definition granularity_mask : Z := 0xffff.

Definition has (v mask : Z) : bool := negb (Z.land v mask =? 0).
Definition round_size (size mask : Z) : Z := Z.ldiff (u64 (size + mask)) mask.
Definition is_machine_64bit (machine : Z) : bool := (machine =? IMAGE_FILE_MACHINE_AMD64) || (machine =? IMAGE_FILE_MACHINE_ARM64).

(** The fields of the image that the server itself looks at later. *)
Record pe_image_info := PeImage { im_base : Z; im_map_addr : Z; im_entry_point : Z; im_map_size : Z; im_charact : Z; im_machine : Z; im_flags : Z }.
Record fd := FdObj { fd_refs : Z; fd_outside : Z; map_addr : Z; map_size : Z; fd_inode : Z; fd_removable : bool; nt_name : list Z }.
Record ranges := Ranges { rs_refs : Z; rs_list : list range; rs_max : Z }.
Record shared_map := SharedMap { sm_refs : Z; sm_fd : Z }.
Record mapping := Mapping { m_size : Z; m_flags : Z; m_fd : option Z; m_image : pe_image_info; m_committed : option Z; m_shared : option Z }.
Record memory_view := View {
  v_fd : option Z; v_committed : option Z; v_shared : option Z; v_image : pe_image_info; v_flags : Z; v_base : Z; v_size : Z; v_start : Z; v_name : list Z }.
Record process := Process { p_views : list Z; p_init_done : bool; p_image : option (list Z); p_image_info : option pe_image_info; p_machine : Z }.
Record addr_range := AddrRange { ar_free : list block; ar_size : Z }.

Record mem := Mem {
  fds : gmap Z fd; committed : gmap Z ranges; shared : gmap Z shared_map; shared_map_list : list Z; mappings : gmap Z mapping; views : gmap Z memory_view;
  processes : gmap Z process; entry_points : gmap Z Z; ranges32 : addr_range; ranges64 : addr_range; next : Z }.
#[local] Abbreviation MM := (M mem).

Definition on_fds (f : gmap Z fd → gmap Z fd) (s : mem) : mem :=
  Mem (f (fds s)) (committed s) (shared s) (shared_map_list s) (mappings s) (views s) (processes s) (entry_points s) (ranges32 s) (ranges64 s) (next s).
Definition on_committed (f : gmap Z ranges → gmap Z ranges) (s : mem) : mem :=
  Mem (fds s) (f (committed s)) (shared s) (shared_map_list s) (mappings s) (views s) (processes s) (entry_points s) (ranges32 s) (ranges64 s) (next s).
Definition on_shared (f : gmap Z shared_map → gmap Z shared_map) (l : list Z → list Z) (s : mem) : mem :=
  Mem (fds s) (committed s) (f (shared s)) (l (shared_map_list s)) (mappings s) (views s) (processes s) (entry_points s) (ranges32 s) (ranges64 s) (next s).
Definition on_mappings (f : gmap Z mapping → gmap Z mapping) (s : mem) : mem :=
  Mem (fds s) (committed s) (shared s) (shared_map_list s) (f (mappings s)) (views s) (processes s) (entry_points s) (ranges32 s) (ranges64 s) (next s).
Definition on_views (f : gmap Z memory_view → gmap Z memory_view) (s : mem) : mem :=
  Mem (fds s) (committed s) (shared s) (shared_map_list s) (mappings s) (f (views s)) (processes s) (entry_points s) (ranges32 s) (ranges64 s) (next s).
Definition on_processes (f : gmap Z process → gmap Z process) (s : mem) : mem :=
  Mem (fds s) (committed s) (shared s) (shared_map_list s) (mappings s) (views s) (f (processes s)) (entry_points s) (ranges32 s) (ranges64 s) (next s).
Definition set_entry (t e : Z) (s : mem) : mem :=
  Mem (fds s) (committed s) (shared s) (shared_map_list s) (mappings s) (views s) (processes s) (<[t := e]> (entry_points s)) (ranges32 s) (ranges64 s) (next s).
Definition set_ranges (high : bool) (a : addr_range) (s : mem) : mem :=
  Mem (fds s) (committed s) (shared s) (shared_map_list s) (mappings s) (views s) (processes s) (entry_points s) (if high then ranges32 s else a) (if high then a else ranges64 s) (next s).
Definition set_next (n : Z) (s : mem) : mem :=
  Mem (fds s) (committed s) (shared s) (shared_map_list s) (mappings s) (views s) (processes s) (entry_points s) (ranges32 s) (ranges64 s) n.

Definition fresh : MM Z := let* s := get in modify (set_next (next s + 1)) >> ret (next s).

(** ** Addresses of images *)

Definition is_high (base : Z) : bool := negb (Z.shiftr base 32 =? 0).
Definition ranges_of (high : bool) (s : mem) : addr_range := if high then ranges64 s else ranges32 s.

Definition free_map_addr (base size : Z) : MM unit :=
  let* s := get in
  let high := is_high base in
  let range := ranges_of high s in
  let '(i, touches) := find_touching base (u64 (base + size)) 0 (ar_free range) in
  if touches then
    match ar_free range !! i with
    | Some b => modify (set_ranges high (AddrRange (merge base size i b (ar_free range)) (ar_size range)))
    | None => crash
    end
  else
    let* room :=
      (if Z.of_nat (length (ar_free range)) =? ar_size range then
         let* ok := malloc in
         if ok then ret (Some (Z.max 256 (ar_size range * 2))) else ret None
       else ret (Some (ar_size range))) in
    match room with
    | None => ret tt
    | Some n => modify (set_ranges high (AddrRange (insert_block i (Block base size) (ar_free range)) n))
    end.
Definition init_memory : MM unit := free_map_addr 0x60000000 0x1c000000 >> free_map_addr 0x600000000000 0x100000000000.

(** ** References *)

Definition set_refs (n : Z) (x : fd) : fd := FdObj n (fd_outside x) (map_addr x) (map_size x) (fd_inode x) (fd_removable x) (nt_name x).
Definition grab_fd (f : Z) : MM unit := let* x := fetch fds f in modify (on_fds (<[f := set_refs (fd_refs x + 1) x]>)).
(** The last reference runs [fd_destroy], which gives the addresses back. *)
Definition release_fd (f : Z) : MM unit :=
  let* x := fetch fds f in
  if fd_refs x =? 1 then (if map_addr x =? 0 then ret tt else free_map_addr (map_addr x) (map_size x)) >> modify (on_fds (delete f))
  else modify (on_fds (<[f := set_refs (fd_refs x - 1) x]>)).
Definition grab_ranges (c : Z) : MM unit := let* x := fetch committed c in modify (on_committed (<[c := Ranges (rs_refs x + 1) (rs_list x) (rs_max x)]>)).
Definition release_ranges (c : Z) : MM unit :=
  let* x := fetch committed c in
  if rs_refs x =? 1 then modify (on_committed (delete c)) else modify (on_committed (<[c := Ranges (rs_refs x - 1) (rs_list x) (rs_max x)]>)).
Definition grab_shared (h : Z) : MM unit := let* x := fetch shared h in modify (on_shared (<[h := SharedMap (sm_refs x + 1) (sm_fd x)]>) id).
Definition shared_map_destroy (h : Z) (x : shared_map) : MM unit := release_fd (sm_fd x) >> modify (on_shared (delete h) (filter (λ j, j ≠ h))).
Definition release_shared (h : Z) : MM unit :=
  let* x := fetch shared h in
  if sm_refs x =? 1 then shared_map_destroy h x else modify (on_shared (<[h := SharedMap (sm_refs x - 1) (sm_fd x)]>) id).
Definition if_some {A} (f : A → MM unit) (o : option A) : MM unit := match o with Some a => f a | None => ret tt end.

(** ** Mappings *)

Definition mapping_destroy (m : Z) : MM unit :=
  let* x := fetch mappings m in
  if_some release_fd (m_fd x) >> if_some release_ranges (m_committed x) >> if_some release_shared (m_shared x) >> modify (on_mappings (delete m)).

Definition get_mapping_flags (file : bool) (flags : Z) : MM Z :=
  let invalid := set_error STATUS_INVALID_PARAMETER >> ret 0 in
  let reserve := if has flags SEC_LARGE_PAGES then invalid else
    if file then ret (Z.lor SEC_FILE (Z.land flags (Z.lor SEC_NOCACHE SEC_WRITECOMBINE))) else ret flags in
  let kind := Z.land flags (Z.lor (Z.lor SEC_IMAGE SEC_RESERVE) (Z.lor SEC_COMMIT SEC_FILE)) in
  if kind =? SEC_IMAGE then
    if has flags (Z.lor SEC_WRITECOMBINE SEC_LARGE_PAGES) then invalid else
    if file then ret (Z.lor SEC_FILE SEC_IMAGE) else set_error STATUS_INVALID_FILE_FOR_SECTION >> ret 0
  else if kind =? SEC_COMMIT then (if file then reserve else ret flags)
  else if kind =? SEC_RESERVE then reserve
  else invalid.
Definition create_ranges : MM (option Z) :=
  let* ok := mem_alloc in
  if negb ok then ret None else
  let* ok := mem_alloc in
  if negb ok then ret None else
  let* c := fresh in
  modify (on_committed (<[c := Ranges 1 [] 8]>)) >> ret (Some c).

(** What the system and other components answer while a mapping is made: the fd object to
    be used for the file (an existing one, which gets a reference, a new one, or none), the
    size of the file, whether it can grow, the contents of an image with whether it has
    sections that are shared and writable, and whether files for them can be made. *)
Inductive file_fd := OldFd (f : Z) | NewFd (inode : Z) (removable : bool) (name : list Z) | NoFd (e : Z).
Record answers := Answers { an_fd : file_fd; an_stat : option Z; an_grows : bool; an_image : Z + (pe_image_info * Z * bool); an_temp : bool }.

Definition new_fd (inode : Z) (removable : bool) (name : list Z) : MM Z :=
  let* f := fresh in modify (on_fds (<[f := FdObj 1 0 0 0 inode removable name]>)) >> ret f.
Definition set_mapping_fd (m f : Z) : MM unit :=
  let* x := fetch mappings m in modify (on_mappings (<[m := Mapping (m_size x) (m_flags x) (Some f) (m_image x) (m_committed x) (m_shared x)]>)).
Definition set_mapping_size (m size : Z) : MM unit :=
  let* x := fetch mappings m in modify (on_mappings (<[m := Mapping size (m_flags x) (m_fd x) (m_image x) (m_committed x) (m_shared x)]>)).
Definition set_mapping_flags (m flags : Z) : MM unit :=
  let* x := fetch mappings m in modify (on_mappings (<[m := Mapping (m_size x) flags (m_fd x) (m_image x) (m_committed x) (m_shared x)]>)).
Definition set_mapping_image (m : Z) (im : pe_image_info) : MM unit :=
  let* x := fetch mappings m in modify (on_mappings (<[m := Mapping (m_size x) (m_flags x) (m_fd x) im (m_committed x) (m_shared x)]>)).
Definition set_mapping_committed (m c : Z) : MM unit :=
  let* x := fetch mappings m in modify (on_mappings (<[m := Mapping (m_size x) (m_flags x) (m_fd x) (m_image x) (Some c) (m_shared x)]>)).
Definition set_mapping_shared (m h : Z) : MM unit :=
  let* x := fetch mappings m in modify (on_mappings (<[m := Mapping (m_size x) (m_flags x) (m_fd x) (m_image x) (m_committed x) (Some h)]>)).

Definition is_same_file_fd (f1 f2 : Z) : MM bool := let* x := fetch fds f1 in let* y := fetch fds f2 in ret (fd_inode x =? fd_inode y).
Fixpoint get_shared_file_loop (f : Z) (l : list Z) : MM (option Z) :=
  match l with
  | [] => ret None
  | h :: l =>
      let* x := fetch shared h in
      let* same := is_same_file_fd (sm_fd x) f in
      if same then grab_shared h >> ret (Some h) else get_shared_file_loop f l
  end.
Definition get_shared_file (f : Z) : MM (option Z) := let* s := get in get_shared_file_loop f (shared_map_list s).
(** The files themselves are left out. [total]: are there sections that are shared? *)
Definition build_shared_mapping (m f : Z) (total temp : bool) : MM bool :=
  if negb total then ret true else
  let* h := get_shared_file f in
  match h with
  | Some h => set_mapping_shared m h >> ret true
  | None =>
      if negb temp then ret false else
      let* ok := mem_alloc in
      if negb ok then ret false else
      let* h := fresh in
      grab_fd f >>
      modify (on_shared (<[h := SharedMap 1 f]>) (cons h)) >>
      set_mapping_shared m h >> ret true
  end.
Definition get_image_params (m f : Z) (r : Z + (pe_image_info * Z * bool)) (temp : bool) : MM Z :=
  match r with
  | inl e => ret e
  | inr (im, size, total) =>
      let* x := fetch fds f in
      set_mapping_size m size >>
      set_mapping_image m (PeImage (im_base im) (map_addr x) (im_entry_point im) (im_map_size im) (im_charact im) (im_machine im) (im_flags im)) >>
      let* ok := build_shared_mapping m f total temp in
      ret (if ok then STATUS_SUCCESS else STATUS_INVALID_FILE_FOR_SECTION)
  end.

Definition no_image : pe_image_info := PeImage 0 0 0 0 0 0 0.
(** After the named object has been made. [file]: is there a handle of a file? A mapping that
    is [permanent] has a reference more, so that [release_object] leaves it, under its name,
    when its creation fails. What [get_image_params] has read until it fails is left out. *)
Definition create_mapping (size flags : Z) (file write_access permanent : bool) (a : answers) : MM (option Z) :=
  let* ok := mem_alloc in
  if negb ok then ret None else
  let* m := fresh in
  modify (on_mappings (<[m := Mapping size 0 None no_image None None]>)) >>
  let error := (if permanent then ret tt else mapping_destroy m) >> ret None in
  let* fl := get_mapping_flags file flags in
  if fl =? 0 then error else
  set_mapping_flags m fl >>
  if file then
    let* f :=
      match an_fd a with
      | NoFd e => set_error e >> ret None
      | OldFd f => grab_fd f >> set_mapping_fd m f >> ret (Some f)
      | NewFd inode removable name => let* f := new_fd inode removable name in set_mapping_fd m f >> ret (Some f)
      end in
    match f, an_stat a with
    | None, _ | _, None => error
    | Some f, Some st_size =>
        if has flags SEC_IMAGE then
          let* err := get_image_params m f (an_image a) (an_temp a) in
          if err =? 0 then ret (Some m) else set_error err >> error
        else if size =? 0 then
          if st_size =? 0 then set_error STATUS_MAPPED_FILE_SIZE_ZERO >> error
          else set_mapping_size m st_size >> ret (Some m)
        else if st_size <? size then
          if negb write_access || negb (Z.shiftr size 54 =? 0) then set_error STATUS_SECTION_TOO_BIG >> error
          else if an_grows a then ret (Some m) else error
        else ret (Some m)
    end
  else
    if size =? 0 then set_error STATUS_INVALID_PARAMETER >> error else
    let* ok :=
      (if has flags SEC_RESERVE then
         let* c := create_ranges in
         match c with Some c => set_mapping_committed m c >> ret true | None => ret false end
       else ret true) in
    if negb ok then error else
    set_mapping_size m (round_size size page_mask) >>
    if negb (an_temp a) then error else
    match an_fd a with
    | NewFd inode removable name => let* f := new_fd inode removable name in set_mapping_fd m f >> ret (Some m)
    | _ => error
    end.

(** ** Views *)

Definition list_views (p : Z) : MM (list Z) := let* x := fetch processes p in ret (p_views x).
Definition set_views (p : Z) (l : list Z) : MM unit :=
  let* x := fetch processes p in modify (on_processes (<[p := Process l (p_init_done x) (p_image x) (p_image_info x) (p_machine x)]>)).
(** The first view that passes a test. *)
Fixpoint find_view (test : memory_view → bool) (l : list Z) : MM (option Z) :=
  match l with
  | [] => ret None
  | v :: l => let* x := fetch views v in if test x then ret (Some v) else find_view test l
  end.
Definition find_or_error (p : Z) (test : memory_view → bool) : MM (option Z) :=
  let* l := list_views p in
  let* v := find_view test l in
  match v with Some v => ret (Some v) | None => set_error STATUS_NOT_MAPPED_VIEW >> ret None end.
Definition find_mapped_view (p base : Z) : MM (option Z) := find_or_error p (λ x, v_base x =? base).
Definition find_mapped_addr (p addr : Z) : MM (option Z) := find_or_error p (λ x, (v_base x <=? addr) && (addr <? u64 (v_base x + v_size x))).
Definition overlaps (addr size : Z) (x : memory_view) : bool :=
  if u64 (v_base x + v_size x) <=? addr then false else if u64 (addr + size) <=? v_base x then false else true.
Definition get_view_nt_name (x : memory_view) : MM (option (list Z)) :=
  match v_name x with
  | _ :: _ => ret (Some (v_name x))
  | [] => match v_fd x with None => ret None | Some f => let* y := fetch fds f in ret (Some (nt_name y)) end
  end.
(** Is the view that of the main executable? Debug events are left out. *)
Definition add_process_view (p v : Z) : MM bool :=
  let* x := fetch processes p in
  let* y := fetch views v in
  if has (v_flags y) SEC_IMAGE && negb (p_init_done x) && negb (has (im_charact (v_image y)) IMAGE_FILE_DLL) then
    let* name := get_view_nt_name y in
    let* image := match name with None => ret None | Some n => let* ok := mem_alloc in ret (if ok then Some n else None) end in
    modify (on_processes (<[p := Process (v :: p_views x) (p_init_done x) image (Some (v_image y)) (p_machine x)]>)) >>
    ret true
  else
    modify (on_processes (<[p := Process (p_views x ++ [v]) (p_init_done x) (p_image x) (p_image_info x) (p_machine x)]>)) >>
    ret false.
Definition free_memory_view (p v : Z) : MM unit :=
  let* x := fetch views v in
  if_some release_fd (v_fd x) >> if_some release_ranges (v_committed x) >> if_some release_shared (v_shared x) >>
  let* l := list_views p in
  c_assert (bool_decide (v ∈ l)) >>
  set_views p (filter (λ j, j ≠ v) l) >>
  modify (on_views (delete v)).
Fixpoint free_views_loop (n : nat) (p : Z) : MM unit :=
  match n with
  | O => crash
  | S n => let* l := list_views p in match l with [] => ret tt | v :: _ => free_memory_view p v >> free_views_loop n p end
  end.
Definition free_mapped_views (p : Z) : MM unit := let* l := list_views p in free_views_loop (S (length l)) p.

(** *** Committed pages *)

Definition add_committed_range (v start end_ : Z) : MM unit :=
  let* x := fetch views v in
  if has start page_mask || has end_ page_mask || (v_size x <=? start) || (v_size x <? end_) || (end_ <=? start) then set_error STATUS_INVALID_PARAMETER else
  match v_committed x with
  | None => ret tt
  | Some c =>
      let start := u64 (start + v_start x) in
      let end_ := u64 (end_ + v_start x) in
      let* r := fetch committed c in
      let '(i, meets) := find_meeting start end_ 0 (rs_list r) in
      if meets then
        match rs_list r !! i with
        | Some q => modify (on_committed (<[c := Ranges (rs_refs r) (extend start end_ i q (rs_list r)) (rs_max r)]>))
        | None => crash
        end
      else
        let* room :=
          (if Z.of_nat (length (rs_list r)) =? rs_max r then
             let* ok := malloc in
             if ok then ret (Some (rs_max r * 2)) else ret None
           else ret (Some (rs_max r))) in
        match room with
        | None => ret tt
        | Some n => modify (on_committed (<[c := Ranges (rs_refs r) (insert_range i (Range start end_) (rs_list r)) n]>))
        end
  end.
(** Whether the page is committed, and the size of the part that is like it. *)
Definition find_committed_range (v start : Z) : MM (bool * option Z) :=
  let* x := fetch views v in
  if has start page_mask || (v_size x <=? start) then set_error STATUS_INVALID_PARAMETER >> ret (false, None) else
  match v_committed x with
  | None => ret (true, Some (v_size x - start))
  | Some c =>
      let* r := fetch committed c in
      let a := find_range (u64 (v_start x + start)) (u64 (v_start x + v_size x)) (rs_list r) in
      ret (a.1, Some a.2)
  end.

(** *** Assigned addresses *)

Definition assign_map_address (m : Z) : MM Z :=
  let* x := fetch mappings m in
  let high := is_high (im_base (m_image x)) in
  let size := round_size (m_size x) granularity_mask in
  if negb (has (im_charact (m_image x)) IMAGE_FILE_DLL) then ret 0 else
  match m_fd x with
  | None => crash
  | Some f =>
      let* y := fetch fds f in
      if negb (map_addr y =? 0) then ret (map_addr y) else
      let size := u64 (size + (granularity_mask + 1)) in
      let* s := get in
      match take_block size (ar_free (ranges_of high s)) with
      | None => ret 0
      | Some (a, l) =>
          modify (set_ranges high (AddrRange l (ar_size (ranges_of high s)))) >>
          modify (on_fds (<[f := FdObj (fd_refs y) (fd_outside y) a size (fd_inode y) (fd_removable y) (nt_name y)]>)) >>
          ret a
      end
  end.

Section Requests.
(** The size of a page of the host, less one, and its machine. *)
Context (host_page_mask native_machine : Z).

Fixpoint none_overlaps (addr size : Z) (l : list Z) : MM bool :=
  match l with
  | [] => ret true
  | v :: l => let* x := fetch views v in if overlaps addr size x then ret false else none_overlaps addr size l
  end.
Definition is_valid_view_addr (p addr size : Z) : MM bool :=
  if size =? 0 then ret false else
  if has addr host_page_mask then ret false else
  if u64 (addr + size) <? addr then ret false else
  let* l := list_views p in none_overlaps addr size l.

(** A file or handle takes a reference to a new fd object, or gives one back. *)
Definition req_open_file (inode : Z) (removable : bool) (name : list Z) : MM Z :=
  let* f := fresh in modify (on_fds (<[f := FdObj 1 1 0 0 inode removable name]>)) >> ret f.
Definition req_close_file (f : Z) : MM unit :=
  let* x := fetch fds f in
  modify (on_fds (<[f := FdObj (fd_refs x) (fd_outside x - 1) (map_addr x) (map_size x) (fd_inode x) (fd_removable x) (nt_name x)]>)) >>
  release_fd f.
Definition req_get_image_map_address (m : Z) : MM (option Z) :=
  let* x := fetch mappings m in
  if has (m_flags x) SEC_IMAGE && has (im_flags (m_image x)) IMAGE_FLAGS_ImageDynamicallyRelocated then
    (if im_map_addr (m_image x) =? 0 then
       let* a := assign_map_address m in
       let im := m_image x in
       set_mapping_image m (PeImage (im_base im) a (im_entry_point im) (im_map_size im) (im_charact im) (im_machine im) (im_flags im))
     else ret tt) >>
    let* x := fetch mappings m in
    ret (Some (im_map_addr (m_image x)))
  else set_error STATUS_INVALID_PARAMETER >> ret None.
(** [m] is the mapping of the handle, if that is valid. *)
Definition view_fd (f : option Z) : MM (option Z) :=
  match f with
  | None => crash
  | Some f => let* y := fetch fds f in if fd_removable y then ret None else grab_fd f >> ret (Some f)
  end.
Definition req_map_view (p : Z) (m : option Z) (base size start : Z) : MM unit :=
  let* ok := is_valid_view_addr p base size in
  if negb ok then set_error STATUS_INVALID_PARAMETER else
  match m with
  | None => ret tt
  | Some m =>
      let* x := fetch mappings m in
      if has (m_flags x) SEC_IMAGE || (m_size x <=? start) || (u64 (start + size) <? start) || (round_size (m_size x) page_mask <? u64 (start + size))
      then set_error STATUS_INVALID_PARAMETER else
      let* ok := mem_alloc in
      if negb ok then ret tt else
      let* v := fresh in
      let* f := view_fd (m_fd x) in
      if_some grab_ranges (m_committed x) >>
      modify (on_views (<[v := View f (m_committed x) None no_image (m_flags x) base size start []]>)) >>
      let* _ := add_process_view p v in ret tt
  end.
Definition set_machine (p machine : Z) : MM unit :=
  let* x := fetch processes p in modify (on_processes (<[p := Process (p_views x) (p_init_done x) (p_image x) (p_image_info x) machine]>)).
Definition req_map_image_view (t p : Z) (m : option Z) (base size entry machine : Z) : MM unit :=
  let* ok := is_valid_view_addr p base size in
  if negb ok then set_error STATUS_INVALID_PARAMETER else
  match m with
  | None => ret tt
  | Some m =>
      let* x := fetch mappings m in
      if negb (has (m_flags x) SEC_IMAGE) || (im_map_size (m_image x) <? size) then set_error STATUS_INVALID_PARAMETER else
      let* ok := mem_alloc in
      if negb ok then ret tt else
      let* v := fresh in
      let* f := view_fd (m_fd x) in
      if_some grab_shared (m_shared x) >>
      modify (on_views (<[v := View f None (m_shared x) (m_image x) (m_flags x) base size 0 []]>)) >>
      let* main := add_process_view p v in
      (if main then
         modify (set_entry t (u64 (base + entry))) >>
         set_machine p (if has (im_flags (m_image x)) IMAGE_FLAGS_ComPlusNativeReady then native_machine else machine)
       else ret tt) >>
      (if negb (base =? (if im_map_addr (m_image x) =? 0 then im_base (m_image x) else im_map_addr (m_image x))) then set_error STATUS_IMAGE_NOT_AT_BASE else ret tt) >>
      let* y := fetch processes p in
      if negb (machine =? p_machine y) && (is_machine_64bit (p_machine y) || negb (machine =? native_machine)) then set_error STATUS_IMAGE_MACHINE_TYPE_MISMATCH else ret tt
  end.
(** [name] has the length that remains of the request, if that is long enough and even. *)
Definition req_map_builtin_view (t p : Z) (image : option (pe_image_info * list Z)) : MM unit :=
  match image with
  | None => set_error STATUS_INVALID_PARAMETER
  | Some (im, name) =>
      let* ok := is_valid_view_addr p (im_base im) (im_map_size im) in
      if negb ok then set_error STATUS_INVALID_PARAMETER else
      let* ok := mem_alloc in
      if negb ok then ret tt else
      let* v := fresh in
      modify (on_views (<[v := View None None None im SEC_IMAGE (im_base im) (im_map_size im) 0 name]>)) >>
      let* main := add_process_view p v in
      if main then modify (set_entry t (u64 (im_base im + im_entry_point im))) >> set_machine p (im_machine im) else ret tt
  end.
Definition req_unmap_view (p base : Z) : MM unit := let* v := find_mapped_view p base in if_some (free_memory_view p) v.
Definition req_get_image_view_info (p addr : Z) : MM (option (Z * Z)) :=
  let* v := find_mapped_addr p addr in
  match v with
  | None => ret None
  | Some v => let* x := fetch views v in ret (if has (v_flags x) SEC_IMAGE then Some (v_base x, v_size x) else None)
  end.
Definition req_get_mapping_committed_range (p base offset : Z) : MM (option (bool * option Z)) :=
  let* v := find_mapped_view p base in
  match v with None => ret None | Some v => let* r := find_committed_range v offset in ret (Some r) end.
Definition req_add_mapping_committed_range (p base offset size : Z) : MM unit :=
  let* v := find_mapped_view p base in if_some (λ v, add_committed_range v offset (u64 (offset + size))) v.
Definition req_is_same_mapping (p base1 base2 : Z) : MM unit :=
  let* v1 := find_mapped_view p base1 in
  let* v2 := find_mapped_view p base2 in
  match v1, v2 with
  | Some v1, Some v2 =>
      let* x := fetch views v1 in
      let* y := fetch views v2 in
      match v_fd x, v_fd y with
      | Some f, Some g =>
          if negb (has (v_flags x) SEC_IMAGE) then set_error STATUS_NOT_SAME_DEVICE else
          let* same := is_same_file_fd f g in
          if same then ret tt else set_error STATUS_NOT_SAME_DEVICE
      | _, _ => set_error STATUS_NOT_SAME_DEVICE
      end
  | _, _ => ret tt
  end.

Inductive request :=
  | OpenFile (inode : Z) (removable : bool) (name : list Z) | CloseFile (f : Z)
  | CreateMapping (size flags : Z) (file write_access permanent : bool) (a : answers) | DestroyMapping (m : Z) | GetImageMapAddress (m : Z)
  | MapView (p : Z) (m : option Z) (base size start : Z) | MapImageView (t p : Z) (m : option Z) (base size entry machine : Z)
  | MapBuiltinView (t p : Z) (image : option (pe_image_info * list Z)) | UnmapView (p base : Z) | ExitProcess (p : Z)
  | NewProcess (p machine : Z) | InitDone (p : Z) | AddCommitted (p base offset size : Z) | GetCommitted (p base offset : Z) | ViewInfo (p addr : Z) | SameMapping (p base1 base2 : Z).
Definition run_request (r : request) : MM unit :=
  match r with
  | OpenFile inode removable name => let* _ := req_open_file inode removable name in ret tt
  | CloseFile f => req_close_file f
  | CreateMapping size flags file write permanent a => let* _ := create_mapping size flags file write permanent a in ret tt
  | DestroyMapping m => mapping_destroy m
  | GetImageMapAddress m => let* _ := req_get_image_map_address m in ret tt
  | MapView p m base size start => req_map_view p m base size start
  | MapImageView t p m base size entry machine => req_map_image_view t p m base size entry machine
  | MapBuiltinView t p image => req_map_builtin_view t p image
  | UnmapView p base => req_unmap_view p base
  | ExitProcess p => free_mapped_views p
  | NewProcess p machine => modify (on_processes (<[p := Process [] false None None machine]>))
  | InitDone p => let* x := fetch processes p in modify (on_processes (<[p := Process (p_views x) true (p_image x) (p_image_info x) (p_machine x)]>))
  | AddCommitted p base offset size => req_add_mapping_committed_range p base offset size
  | GetCommitted p base offset => let* _ := req_get_mapping_committed_range p base offset in ret tt
  | ViewInfo p addr => let* _ := req_get_image_view_info p addr in ret tt
  | SameMapping p base1 base2 => req_is_same_mapping p base1 base2
  end.
End Requests.

(** ** The invariant

    It has four parts, which depend on different parts of the state. *)

(** How many objects of a kind hold a reference to [i]. *)
Definition cnt {A} (g : A → option Z) (m : gmap Z A) (i : Z) : Z := Z.of_nat (size (filter (λ kx : Z * A, g kx.2 = Some i) m)).
Definition here (o : option Z) (i : Z) : Z := if decide (o = Some i) then 1 else 0.

Lemma cnt_empty {A} (g : A → option Z) i : cnt g ∅ i = 0.
Proof. unfold cnt. by rewrite map_filter_empty, map_size_empty. Qed.

Lemma cnt_insert_new {A} (g : A → option Z) m k x i : m !! k = None → cnt g (<[k := x]> m) i = cnt g m i + here (g x) i.
Proof.
  intros Hk. unfold cnt, here. case_decide as Hx.
  - rewrite map_filter_insert_True by done. rewrite map_size_insert_None by (apply map_lookup_filter_None; by left). lia.
  - rewrite map_filter_insert_not' by (try done; intros ? ?; congruence). lia.
Qed.

Lemma cnt_delete {A} (g : A → option Z) m k x i : m !! k = Some x → cnt g (delete k m) i = cnt g m i - here (g x) i.
Proof. intros Hk. rewrite <-(insert_delete_id m k x Hk) at 2. rewrite cnt_insert_new by apply lookup_delete_eq. lia. Qed.

Lemma cnt_update {A} (g : A → option Z) m k x y i : m !! k = Some x → cnt g (<[k := y]> m) i = cnt g m i - here (g x) i + here (g y) i.
Proof. intros Hk. rewrite <-insert_delete_eq, cnt_insert_new by apply lookup_delete_eq. by rewrite (cnt_delete g m k x i Hk). Qed.

Lemma cnt_nonneg {A} (g : A → option Z) m i : 0 ≤ cnt g m i.
Proof. unfold cnt. lia. Qed.

Lemma cnt_held {A} (g : A → option Z) m k x i : m !! k = Some x → g x = Some i → 1 ≤ cnt g m i.
Proof. intros Hk Hx. pose proof (cnt_delete g m k x i Hk) as E. unfold here in E. rewrite decide_True in E by done. pose proof (cnt_nonneg g (delete k m) i). lia. Qed.

(** The references from inside to an object, by its count and by its holders; [ef], [ec] and
    [eh] are those that the running function holds in its variables. *)
Definition inner_fd (s : mem) (f : Z) : Z := match fds s !! f with Some x => fd_refs x - fd_outside x | None => 0 end.
Definition inner_ranges (s : mem) (c : Z) : Z := match committed s !! c with Some x => rs_refs x | None => 0 end.
Definition inner_shared (s : mem) (h : Z) : Z := match shared s !! h with Some x => sm_refs x | None => 0 end.
Record refs_inv (ef ec eh : list Z) (s : mem) : Prop := {
  ri_fd f : inner_fd s f = cnt m_fd (mappings s) f + cnt v_fd (views s) f + cnt (λ x, Some (sm_fd x)) (shared s) f + count f ef;
  ri_fd_pos f x : fds s !! f = Some x → 0 ≤ fd_outside x ∧ 0 < fd_refs x;
  ri_ranges c : inner_ranges s c = cnt m_committed (mappings s) c + cnt v_committed (views s) c + count c ec;
  ri_ranges_pos c x : committed s !! c = Some x → 0 < rs_refs x;
  ri_shared h : inner_shared s h = cnt m_shared (mappings s) h + cnt v_shared (views s) h + count h eh;
  ri_shared_pos h x : shared s !! h = Some x → 0 < sm_refs x;
  ri_list : NoDup (shared_map_list s) ∧ ∀ h, h ∈ shared_map_list s ↔ is_Some (shared s !! h);
  ri_next k : is_Some (fds s !! k) ∨ is_Some (committed s !! k) ∨ is_Some (shared s !! k) ∨ is_Some (mappings s !! k) ∨ is_Some (views s !! k) → k < next s
}.

(** Lists of committed ranges. *)
Definition committed_inv (m : gmap Z ranges) : Prop :=
  ∀ c x, m !! c = Some x → ranges_ok (rs_list x) ∧ (∀ r, r ∈ rs_list x → 0 ≤ r_start r ∧ r_end r < 18446744073709551616) ∧ Z.of_nat (length (rs_list x)) ≤ rs_max x ∧ 8 ≤ rs_max x.

(** The free addresses, and those assigned to fd objects. *)
Definition bounds (high : bool) : Z * Z := if high then (4294967296, 9223372036854775808) else (1, 4294967296).
Definition area (m : gmap Z fd) (f lo hi : Z) : Prop := ∃ x, m !! f = Some x ∧ map_addr x ≠ 0 ∧ lo = map_addr x ∧ hi = map_addr x + map_size x.
Record areas_inv (m : gmap Z fd) (r32 r64 : addr_range) : Prop := {
  ai_ok (high : bool) : let r := if high then r64 else r32 in
    blocks_ok (ar_free r) ∧ within (bounds high).1 (bounds high).2 (ar_free r) ∧ Z.of_nat (length (ar_free r)) ≤ ar_size r;
  ai_area f lo hi : area m f lo hi → lo < hi ∧ (bounds (is_high lo)).1 ≤ lo ∧ hi ≤ (bounds (is_high lo)).2 ∧ clear (ar_free (if is_high lo then r64 else r32)) lo hi;
  ai_disjoint f g lo hi lo' hi' : f ≠ g → area m f lo hi → area m g lo' hi' → hi ≤ lo' ∨ hi' ≤ lo
}.
(** The address that an image mapping remembers is that of its file. *)
Definition images_inv (m : gmap Z fd) (maps : gmap Z mapping) : Prop :=
  ∀ k x, maps !! k = Some x → (im_map_addr (m_image x) = 0 ∨ ∃ f y, m_fd x = Some f ∧ m !! f = Some y ∧ map_addr y = im_map_addr (m_image x)) ∧
    (has (im_flags (m_image x)) IMAGE_FLAGS_ImageDynamicallyRelocated = true → 0 ≤ m_size x < 4294967296).

(** Views of a process lie apart. *)
Definition view_ok (x : memory_view) : Prop :=
  0 < v_size x ∧ 0 ≤ v_base x ∧ v_base x + v_size x < 18446744073709551616 ∧ 0 ≤ v_start x ∧ v_start x + v_size x < 18446744073709551616.
Record views_inv (vs : gmap Z memory_view) (ps : gmap Z process) : Prop := {
  vi_owner v : is_Some (vs !! v) ↔ ∃ p x, ps !! p = Some x ∧ v ∈ p_views x;
  vi_nodup p x : ps !! p = Some x → NoDup (p_views x);
  vi_unique p q x y v : ps !! p = Some x → ps !! q = Some y → v ∈ p_views x → v ∈ p_views y → p = q;
  vi_ok v x : vs !! v = Some x → view_ok x;
  vi_apart p x v1 v2 y1 y2 : ps !! p = Some x → v1 ∈ p_views x → v2 ∈ p_views x → v1 ≠ v2 → vs !! v1 = Some y1 → vs !! v2 = Some y2 →
    v_base y1 + v_size y1 ≤ v_base y2 ∨ v_base y2 + v_size y2 ≤ v_base y1
}.

Record mem_inv (ef ec eh : list Z) (s : mem) : Prop := {
  mi_refs : refs_inv ef ec eh s;
  mi_committed : committed_inv (committed s);
  mi_areas : areas_inv (fds s) (ranges32 s) (ranges64 s);
  mi_images : images_inv (fds s) (mappings s);
  mi_views : views_inv (views s) (processes s)
}.

(** ** The parts of the state *)

Lemma wp_fresh s w (Q : Z → mem → world → Prop) : Q (next s) (set_next (next s + 1) s) w → wp fresh s w Q.
Proof. intros HQ. unfold fresh. rewrite wp_bind, wp_get, wp_bind, wp_modify. by apply wp_ret. Qed.

(** What a part depends on. *)
Lemma areas_same m m' r32 r64 : (∀ f lo hi, area m' f lo hi → area m f lo hi) → areas_inv m r32 r64 → areas_inv m' r32 r64.
Proof. intros Hm [H1 H2 H3]. split; [done|by intros f lo hi ?%Hm; eauto|intros f g ? ? ? ? ? ?%Hm ?%Hm; eauto]. Qed.

Lemma area_insert m f x lo hi g : area (<[f := x]> m) g lo hi ↔ g = f ∧ map_addr x ≠ 0 ∧ lo = map_addr x ∧ hi = map_addr x + map_size x ∨ g ≠ f ∧ area m g lo hi.
Proof.
  unfold area. setoid_rewrite lookup_insert. destruct (decide (g = f)) as [->|Hne].
  - rewrite decide_True by done. split; [intros (y & [= <-] & ?); auto|]. intros [(_ & ?)|[? _]]; [eauto|done].
  - rewrite decide_False by done. split; [auto|]. by intros [[? _]|[_ ?]].
Qed.

Lemma areas_update m r32 r64 f x y : m !! f = Some x → map_addr y = map_addr x → map_size y = map_size x → areas_inv m r32 r64 → areas_inv (<[f := y]> m) r32 r64.
Proof. intros Hx Ea Es. apply areas_same. intros g lo hi [(-> & ? & ? & ?)|[_ ?]]%area_insert; [exists x; split_and!; congruence|done]. Qed.

Lemma areas_new m r32 r64 f y : map_addr y = 0 → areas_inv m r32 r64 → areas_inv (<[f := y]> m) r32 r64.
Proof. intros Ea. apply areas_same. by intros g lo hi [(-> & ? & _)|[_ ?]]%area_insert. Qed.

Lemma areas_delete m r32 r64 f : areas_inv m r32 r64 → areas_inv (delete f m) r32 r64.
Proof. apply areas_same. intros g lo hi (x & [_ Hx]%lookup_delete_Some & ?). by exists x. Qed.

Lemma images_same m m' maps : (∀ f y, m !! f = Some y → map_addr y ≠ 0 → (∃ k x, maps !! k = Some x ∧ m_fd x = Some f) → ∃ y', m' !! f = Some y' ∧ map_addr y' = map_addr y) → images_inv m maps → images_inv m' maps.
Proof.
  intros Hm H k x Hk. destruct (H k x Hk) as ([E|(f & y & Hf & Hy & Ea)] & Hs); (split; [|done]); [by left|]. destruct (decide (map_addr y = 0)); [left; congruence|].
  right. destruct (Hm f y Hy ltac:(done) ltac:(eauto)) as (y' & ? & ?). exists f, y'. split_and!; congruence.
Qed.

Lemma images_update m maps f x y : m !! f = Some x → map_addr y = map_addr x → images_inv m maps → images_inv (<[f := y]> m) maps.
Proof.
  intros Hx Ea. apply images_same. intros g z Hz _ _. rewrite lookup_insert. case_decide as E; [subst g; exists y; split; [done|congruence]|eauto].
Qed.

Lemma images_new m maps f y : m !! f = None → images_inv m maps → images_inv (<[f := y]> m) maps.
Proof. intros Hf. apply images_same. intros g z Hz _ _. rewrite lookup_insert_ne by congruence. eauto. Qed.

Lemma refs_next ef ec eh s n : next s ≤ n → refs_inv ef ec eh s → refs_inv ef ec eh (set_next n s).
Proof. intros Hn [? ? ? ? ? ? ? Hk]. split; try done. cbn. intros k Hkk. specialize (Hk k Hkk). lia. Qed.

Lemma mem_next ef ec eh s n : next s ≤ n → mem_inv ef ec eh s → mem_inv ef ec eh (set_next n s).
Proof. intros Hn []. split; try done. by apply refs_next. Qed.

(** *** Free addresses *)

Lemma u64_id z : 0 ≤ z < 18446744073709551616 → u64 z = z.
Proof. apply Z.mod_small. Qed.

Lemma length_merge base size i b l : l !! i = Some b → (length (merge base size i b l) ≤ length l)%nat.
Proof.
  intros Hi. pose proof (lookup_lt_Some _ _ _ Hi). unfold merge.
  repeat case_match; rewrite length_app, length_take; cbn [length]; rewrite length_drop; lia.
Qed.

Lemma set_ranges_same high s : set_ranges high (ranges_of high s) s = s.
Proof. by destruct s, high. Qed.

Lemma wp_free_map_addr base size s w (Q : unit → mem → world → Prop) : let h := is_high base in let l := ar_free (ranges_of h s) in
  blocks_ok l → Z.of_nat (length l) ≤ ar_size (ranges_of h s) → 0 < size → 0 ≤ base → base + size < 18446744073709551616 → clear l base (base + size) →
  (∀ r w', (given l (ar_free r) base (base + size) ∨ ar_free r = l ∧ w_mem w ≠ []) → Z.of_nat (length (ar_free r)) ≤ ar_size r → Q tt (set_ranges h r s) w') → wp (free_map_addr base size) s w Q.
Proof.
  intros h l Hok Hlen Hs Hb Hbs Hcl HQ. unfold free_map_addr. rewrite wp_bind, wp_get. cbn zeta. fold h. fold l. rewrite u64_id by lia.
  pose proof (find_touching_spec base (base + size) l 0) as Hf. destruct (find_touching base (base + size) 0 l) as [i touches] eqn:Ef. destruct Hf as (k & -> & _ & Hk). cbn [Nat.add] in *. destruct touches.
  - destruct Hk as (b & Hi & _). rewrite Hi, wp_modify. apply HQ; cbn.
    + left. by apply merge_spec.
    + pose proof (length_merge base size k b l Hi). lia.
  - assert (Hins : ∀ n w', Z.of_nat (length l) < n → Q tt (set_ranges h (AddrRange (insert_block k (Block base size) l) n) s) w').
    { intros n w' Hn. apply HQ; cbn; [left; by apply insert_block_spec|]. unfold insert_block. rewrite length_app, length_take. cbn [length]. rewrite length_drop. lia. }
    rewrite wp_bind. destruct (Z.eqb_spec (Z.of_nat (length l)) (ar_size (ranges_of h s))) as [El|El].
    + rewrite wp_bind. apply wp_malloc. intros ok w1 _ Hm1. destruct ok; apply wp_ret.
      * rewrite wp_modify. apply Hins. lia.
      * apply wp_ret. rewrite <-(set_ranges_same h s). apply HQ; [right|done]. split; [done|]. intros E. by destruct (Hm1 E).
    + apply wp_ret. rewrite wp_modify. apply Hins. lia.
Qed.

(** The area of an fd object is given back with the object. *)
Lemma areas_given m r32 r64 f x r : areas_inv m r32 r64 → m !! f = Some x → map_addr x ≠ 0 → let h := is_high (map_addr x) in
  (given (ar_free (if h then r64 else r32)) (ar_free r) (map_addr x) (map_addr x + map_size x) ∨ ar_free r = ar_free (if h then r64 else r32)) → Z.of_nat (length (ar_free r)) ≤ ar_size r →
  areas_inv (delete f m) (if h then r32 else r) (if h then r else r64).
Proof.
  intros H Hx Hne h Hr Hlen. assert (Hax : area m f (map_addr x) (map_addr x + map_size x)) by (by exists x). destruct (ai_area _ _ _ H _ _ _ Hax) as (Hlt & Hlo & Hhi & Hcl). fold h in Hlo, Hhi, Hcl. assert (Hh0 : is_high (map_addr x) = h) by done. clearbody h.
  assert (Hr' : blocks_ok (ar_free r) ∧ within (bounds h).1 (bounds h).2 (ar_free r)).
  { destruct (ai_ok _ _ _ H h) as (O1 & O2 & O3). destruct Hr as [[G1 _ _ G4]| ->]; [|done]. split; [done|]. by apply G4. }
  assert (Hold : ∀ g lo hi, area (delete f m) g lo hi → area m g lo hi ∧ g ≠ f) by (intros g lo hi (y & [? Hy]%lookup_delete_Some & ?); split; [by exists y|done]).
  split.
  - intros high. destruct (decide (high = h)) as [->|Hh].
    + destruct h; cbn; tauto.
    + pose proof (ai_ok _ _ _ H high) as Ho. destruct h, high; done.
  - intros g lo hi [Hg Hgf]%Hold. destruct (ai_area _ _ _ H _ _ _ Hg) as (A1 & A2 & A3 & A4). split_and!; try done. destruct (decide (is_high lo = h)) as [E|E].
    + rewrite E in *. destruct Hr as [[_ _ G3 _]|Er].
      * pose proof (ai_disjoint _ _ _ H _ _ _ _ _ _ Hgf Hg Hax). destruct h; apply G3; (done || lia).
      * destruct h; by rewrite Er.
    + destruct h, (is_high lo); done.
  - intros g g' lo hi lo' hi' Hgg [Hg _]%Hold [Hg' _]%Hold. by eapply (ai_disjoint _ _ _ H).
Qed.

(** *** Taking and giving back references *)

Lemma inner_fd_insert f y s g : inner_fd (on_fds (<[f := y]>) s) g = if decide (f = g) then fd_refs y - fd_outside y else inner_fd s g.
Proof. unfold inner_fd. cbn. rewrite lookup_insert. by case_decide. Qed.

Lemma inner_fd_delete f s g : inner_fd (on_fds (delete f) s) g = if decide (f = g) then 0 else inner_fd s g.
Proof. unfold inner_fd. cbn. rewrite lookup_delete. by case_decide. Qed.

Lemma inner_ranges_insert c y s g : inner_ranges (on_committed (<[c := y]>) s) g = if decide (c = g) then rs_refs y else inner_ranges s g.
Proof. unfold inner_ranges. cbn. rewrite lookup_insert. by case_decide. Qed.

Lemma inner_ranges_delete c s g : inner_ranges (on_committed (delete c) s) g = if decide (c = g) then 0 else inner_ranges s g.
Proof. unfold inner_ranges. cbn. rewrite lookup_delete. by case_decide. Qed.

(** An fd object with a changed count. *)
Lemma refs_fd_update ef ef' ec eh s f x y : refs_inv ef ec eh s → fds s !! f = Some x → 0 ≤ fd_outside y → 0 < fd_refs y →
  (∀ g, count g ef' = count g ef + if decide (f = g) then (fd_refs y - fd_outside y) - (fd_refs x - fd_outside x) else 0) → refs_inv ef' ec eh (on_fds (<[f := y]>) s).
Proof.
  intros H Hx Ho Hr Hc. split; try apply H.
  - intros g. rewrite inner_fd_insert, Hc. pose proof (ri_fd _ _ _ _ H g) as E. cbn. case_decide as Eg; [subst g|lia]. unfold inner_fd in E. rewrite Hx in E. lia.
  - intros g z. cbn. rewrite lookup_insert. case_decide; [by intros [= <-]|apply H].
  - intros k Hk. cbn in Hk. rewrite lookup_insert_is_Some' in Hk. apply (ri_next _ _ _ _ H). destruct Hk as [[<-|?]|?]; [left; eauto|tauto|tauto].
Qed.

Lemma grab_fd_inv ef ec eh f x s : mem_inv ef ec eh s → fds s !! f = Some x → mem_inv (f :: ef) ec eh (on_fds (<[f := set_refs (fd_refs x + 1) x]>) s).
Proof.
  intros [H1 H2 H3 H4 H5] Hx. destruct (ri_fd_pos _ _ _ _ H1 f x Hx). split; cbn; try done.
  - apply (refs_fd_update ef _ ec eh s f x); [done..|cbn; lia|]. intros g. rewrite count_cons. cbn. case_decide; lia.
  - by eapply areas_update.
  - by eapply images_update.
Qed.

Lemma wp_grab_fd ef ec eh f x s w (Q : unit → mem → world → Prop) : mem_inv ef ec eh s → fds s !! f = Some x →
  (mem_inv (f :: ef) ec eh (on_fds (<[f := set_refs (fd_refs x + 1) x]>) s) → Q tt (on_fds (<[f := set_refs (fd_refs x + 1) x]>) s) w) → wp (grab_fd f) s w Q.
Proof. intros H Hx HQ. unfold grab_fd. rewrite wp_bind. eapply wp_fetch; [done|]. rewrite wp_modify. by apply HQ, grab_fd_inv. Qed.

(** Nobody else refers to an object whose last reference is given back. *)
Lemma last_fd ef ec eh s f x : refs_inv (f :: ef) ec eh s → fds s !! f = Some x → fd_refs x = 1 →
  fd_outside x = 0 ∧ count f ef = 0 ∧ cnt m_fd (mappings s) f = 0 ∧ cnt v_fd (views s) f = 0 ∧ cnt (λ x, Some (sm_fd x)) (shared s) f = 0.
Proof.
  intros H Hx Hr. pose proof (ri_fd _ _ _ _ H f) as E. unfold inner_fd in E. rewrite Hx, Hr, count_cons, decide_True in E by done. destruct (ri_fd_pos _ _ _ _ H f x Hx).
  pose proof (cnt_nonneg m_fd (mappings s) f). pose proof (cnt_nonneg v_fd (views s) f). pose proof (cnt_nonneg (λ x, Some (sm_fd x)) (shared s) f). pose proof (count_nonneg f ef). lia.
Qed.

(** Only fd objects and free addresses have changed. *)
Definition only_fds (s s' : mem) : Prop :=
  committed s' = committed s ∧ shared s' = shared s ∧ shared_map_list s' = shared_map_list s ∧ mappings s' = mappings s ∧ views s' = views s ∧ processes s' = processes s ∧ entry_points s' = entry_points s ∧ next s' = next s.

Lemma refs_fd_delete ef ec eh s f x s' : refs_inv (f :: ef) ec eh s → fds s !! f = Some x → fd_refs x = 1 → only_fds s s' → fds s' = delete f (fds s) → refs_inv ef ec eh s'.
Proof.
  intros H Hx Hr (E1 & E2 & E3 & E4 & E5 & E6 & E7 & E8) Ef. destruct (last_fd _ _ _ _ _ _ H Hx Hr) as (Ho & Hc & Hm & Hv & Hs). split; rewrite ?E2, ?E3, ?E4, ?E5, ?E8, ?Ef; try apply H.
  - intros g. pose proof (ri_fd _ _ _ _ H g) as E. unfold inner_fd in *. rewrite Ef, lookup_delete. rewrite count_cons in E. case_decide as Eg; [subst g; lia|]. rewrite E. lia.
  - intros g y [_ Hy]%lookup_delete_Some. by apply (ri_fd_pos _ _ _ _ H g).
  - intros c. unfold inner_ranges. rewrite E1. apply (ri_ranges _ _ _ _ H).
  - rewrite E1. apply (ri_ranges_pos _ _ _ _ H).
  - intros h. unfold inner_shared. rewrite E2. apply (ri_shared _ _ _ _ H).
  - intros k Hk. apply (ri_next _ _ _ _ H). rewrite E1 in Hk. destruct Hk as [[y [_ Hy]%lookup_delete_Some]|?]; [left; eauto|tauto].
Qed.

Lemma release_fd_ok ef ec eh f s w : mem_inv (f :: ef) ec eh s → wp (release_fd f) s w (λ _ s' _, mem_inv ef ec eh s' ∧ only_fds s s').
Proof.
  intros [H1 H2 H3 H4 H5]. assert (Hex : ∃ x, fds s !! f = Some x).
  { pose proof (ri_fd _ _ _ _ H1 f) as E. unfold inner_fd in E. rewrite count_cons, decide_True in E by done. destruct (fds s !! f); [eauto|].
    pose proof (cnt_nonneg m_fd (mappings s) f). pose proof (cnt_nonneg v_fd (views s) f). pose proof (cnt_nonneg (λ x, Some (sm_fd x)) (shared s) f). pose proof (count_nonneg f ef). lia. }
  destruct Hex as [x Hx]. unfold release_fd. rewrite wp_bind. eapply wp_fetch; [done|]. destruct (ri_fd_pos _ _ _ _ H1 f x Hx) as [Ho Hr]. destruct (Z.eqb_spec (fd_refs x) 1) as [E1|E1].
  - destruct (last_fd _ _ _ _ _ _ H1 Hx E1) as (Ho' & Hc & Hm & Hv & Hs).
    assert (Himg : images_inv (delete f (fds s)) (mappings s)).
    { eapply images_same; [|exact H4]. intros g y Hg _ (k & z & Hk & Hz). exists y. split; [|done]. apply lookup_delete_Some. split; [|done]. intros <-.
      pose proof (cnt_held m_fd (mappings s) k z f Hk Hz). lia. }
    rewrite wp_bind. destruct (Z.eqb_spec (map_addr x) 0) as [E0|E0].
    + apply wp_ret. rewrite wp_modify. split; [|by repeat split]. split; try done; [by eapply refs_fd_delete|by apply areas_delete].
    + assert (Hax : area (fds s) f (map_addr x) (map_addr x + map_size x)) by (by exists x). destruct (ai_area _ _ _ H3 _ _ _ Hax) as (Hlt & Hlo & Hhi & Hcl).
      destruct (ai_ok _ _ _ H3 (is_high (map_addr x))) as (O1 & O2 & O3). assert (Hb : 0 ≤ (bounds (is_high (map_addr x))).1 ∧ (bounds (is_high (map_addr x))).2 < 18446744073709551616) by (by destruct (is_high (map_addr x))).
      apply wp_free_map_addr; [done|done|lia|lia|lia|done|]. intros r w' Hg Hlen. rewrite wp_modify. pose proof (areas_given _ _ _ f x r H3 Hx E0 ltac:(destruct Hg as [?|[? _]]; auto) Hlen) as Ha.
      assert (Ho2 : only_fds s (on_fds (delete f) (set_ranges (is_high (map_addr x)) r s))) by (by repeat split). split; [|done]. split; try done. by eapply refs_fd_delete.
  - rewrite wp_modify. split; [|by repeat split]. split; cbn; try done.
    + apply (refs_fd_update (f :: ef) _ ec eh s f x); [done..|cbn; lia|]. intros g. rewrite count_cons. cbn. case_decide; lia.
    + by eapply areas_update.
    + by eapply images_update.
Qed.

(** *** Independence

    Giving back references does not look at mappings, views and processes, so that these may
    be taken away before, although the code does it afterwards. *)

Definition change (fh : gmap Z shared_map → gmap Z shared_map) (fl : list Z → list Z) (fm : gmap Z mapping → gmap Z mapping) (fv : gmap Z memory_view → gmap Z memory_view)
    (fp : gmap Z process → gmap Z process) (s : mem) : mem :=
  Mem (fds s) (committed s) (fh (shared s)) (fl (shared_map_list s)) (fm (mappings s)) (fv (views s)) (fp (processes s)) (entry_points s) (ranges32 s) (ranges64 s) (next s).

Section Respects.
Context (φ : mem → mem).
Definition respects {A} (m : MM A) : Prop := ∀ s w, m (φ s) w = match m s w with Some (a, s', w') => Some (a, φ s', w') | None => None end.

Lemma respects_ret {A} (a : A) : respects (ret a).
Proof. done. Qed.

Lemma respects_crash {A} : respects (crash : MM A).
Proof. done. Qed.

Lemma respects_bind {A B} (m : MM A) (k : A → MM B) : respects m → (∀ a, respects (k a)) → respects (bind m k).
Proof. intros Hm Hk s w. unfold bind. rewrite Hm. destruct (m s w) as [[[a s'] w']|]; [apply Hk|done]. Qed.

Lemma respects_get {A} (k : mem → MM A) : (∀ s, k (φ s) = k s) → (∀ s, respects (k s)) → respects (bind get k).
Proof. intros Hk Hr s w. unfold bind, get. rewrite Hk. apply Hr. Qed.

Lemma respects_modify (f : mem → mem) : (∀ s, f (φ s) = φ (f s)) → respects (modify f).
Proof. intros Hf s w. unfold modify. by rewrite Hf. Qed.

Lemma respects_malloc : respects malloc.
Proof. intros s w. unfold malloc. by destruct (w_mem w). Qed.

Lemma respects_fetch {A} (g : mem → gmap Z A) i : (∀ s, g (φ s) = g s) → respects (fetch g i).
Proof. intros Hg. apply respects_get; intros s; rewrite ?Hg; [done|]. by destruct (g s !! i). Qed.

Lemma wp_respects {A} (m : MM A) s w (Q : A → mem → world → Prop) : respects m → wp m (φ s) w Q → wp m s w (λ a s' w', Q a (φ s') w').
Proof. intros Hm. unfold wp. rewrite Hm. by destruct (m s w) as [[[a s'] w']|]. Qed.
End Respects.

Ltac respect := repeat match goal with
  | |- respects _ (ret _) => apply respects_ret
  | |- respects _ crash => apply respects_crash
  | |- respects _ malloc => apply respects_malloc
  | |- respects _ (fetch _ _) => apply respects_fetch; done
  | |- respects _ (modify _) => apply respects_modify; done
  | |- respects _ (bind get _) => apply respects_get; intros ?; [done|]
  | |- respects _ (bind _ _) => apply respects_bind; [|intros ?]
  | |- respects _ (if ?b then _ else _) => destruct b
  | |- respects _ (match ?o with Some _ => _ | None => _ end) => destruct o
  end.

Lemma free_map_addr_respects fh fl fm fv fp base size : respects (change fh fl fm fv fp) (free_map_addr base size).
Proof.
  unfold free_map_addr. apply respects_get; intros s; cbn zeta; [by destruct (is_high base)|]. destruct (find_touching _ _ _ _) as [i touches]. destruct (is_high base); respect.
Qed.

Lemma release_fd_respects fh fl fm fv fp f : respects (change fh fl fm fv fp) (release_fd f).
Proof. unfold release_fd. apply respects_bind; [by apply respects_fetch|intros x]. destruct (fd_refs x =? 1); [|respect]. apply respects_bind; [|intros; respect]. destruct (map_addr x =? 0); [respect|apply free_map_addr_respects]. Qed.

Lemma release_ranges_respects fh fl fm fv fp c : respects (change fh fl fm fv fp) (release_ranges c).
Proof. unfold release_ranges. respect. Qed.

Lemma release_shared_respects fm fv fp h : respects (change id id fm fv fp) (release_shared h).
Proof.
  unfold release_shared, shared_map_destroy. apply respects_bind; [by apply respects_fetch|intros x]. destruct (sm_refs x =? 1); [|respect].
  apply respects_bind; [apply release_fd_respects|intros; respect].
Qed.

Lemma if_some_respects {A} φ (g : A → MM unit) o : (∀ a, respects φ (g a)) → respects φ (if_some g o).
Proof. intros H. destruct o; [apply H|apply respects_ret]. Qed.

(** *** Lists of ranges and shared maps *)

Lemma refs_ranges_update ef ec ec' eh s c x y : refs_inv ef ec eh s → committed s !! c = Some x → 0 < rs_refs y →
  (∀ g, count g ec' = count g ec + if decide (c = g) then rs_refs y - rs_refs x else 0) → refs_inv ef ec' eh (on_committed (<[c := y]>) s).
Proof.
  intros H Hx Hr Hc. split; try apply H.
  - intros g. rewrite inner_ranges_insert, Hc. pose proof (ri_ranges _ _ _ _ H g) as E. cbn. case_decide as Eg; [subst g|lia]. unfold inner_ranges in E. rewrite Hx in E. lia.
  - intros g z. cbn. rewrite lookup_insert. case_decide; [by intros [= <-]|apply H].
  - intros k Hk. cbn in Hk. rewrite lookup_insert_is_Some' in Hk. apply (ri_next _ _ _ _ H). destruct Hk as [?|[[<-|?]|?]]; [tauto|right; left; eauto|tauto|tauto].
Qed.

Lemma wp_grab_ranges ef ec eh c x s w (Q : unit → mem → world → Prop) : mem_inv ef ec eh s → committed s !! c = Some x →
  let s' := on_committed (<[c := Ranges (rs_refs x + 1) (rs_list x) (rs_max x)]>) s in (mem_inv ef (c :: ec) eh s' → Q tt s' w) → wp (grab_ranges c) s w Q.
Proof.
  intros [H1 H2 H3 H4 H5] Hx s' HQ. unfold grab_ranges. rewrite wp_bind. eapply wp_fetch; [done|]. rewrite wp_modify. apply HQ. pose proof (ri_ranges_pos _ _ _ _ H1 c x Hx).
  split; try done.
  - apply (refs_ranges_update ef ec _ eh s c x); [done..|cbn; lia|]. intros g. rewrite count_cons. cbn. case_decide; lia.
  - intros g y. cbn. rewrite lookup_insert. case_decide; [intros [= <-]; by apply (H2 c x)|apply H2].
Qed.

(** Only lists of ranges have changed. *)
Lemma release_ranges_ok ef ec eh c s w : mem_inv ef (c :: ec) eh s → wp (release_ranges c) s w (λ _ s' _, mem_inv ef ec eh s' ∧ ∃ g, s' = on_committed g s).
Proof.
  intros [H1 H2 H3 H4 H5]. pose proof (ri_ranges _ _ _ _ H1 c) as E. unfold inner_ranges in E. rewrite count_cons, decide_True in E by done.
  pose proof (cnt_nonneg m_committed (mappings s) c). pose proof (cnt_nonneg v_committed (views s) c). pose proof (count_nonneg c ec). destruct (committed s !! c) as [x|] eqn:Hx; [|lia].
  unfold release_ranges. rewrite wp_bind. eapply wp_fetch; [done|]. pose proof (ri_ranges_pos _ _ _ _ H1 c x Hx). destruct (Z.eqb_spec (rs_refs x) 1) as [E1|E1]; rewrite wp_modify; (split; [|eauto]).
  - split; try done.
    + split; try apply H1.
      * intros g. rewrite inner_ranges_delete. pose proof (ri_ranges _ _ _ _ H1 g) as Eg. rewrite count_cons in Eg. cbn. case_decide as Ec; [subst g; lia|]. rewrite Eg. lia.
      * intros g y; cbn; intros [_ Hy]%lookup_delete_Some. by apply (ri_ranges_pos _ _ _ _ H1 g).
      * intros k Hk. apply (ri_next _ _ _ _ H1). cbn in Hk. destruct Hk as [?|[[y [_ Hy]%lookup_delete_Some]|?]]; [tauto|right; left; eauto|tauto].
    + intros g y; cbn; intros [_ Hy]%lookup_delete_Some. by apply (H2 g).
  - split; try done.
    + apply (refs_ranges_update ef (c :: ec) _ eh s c x); [done..|cbn; lia|]. intros g. rewrite count_cons. cbn. case_decide; lia.
    + intros g y. cbn. rewrite lookup_insert. case_decide; [intros [= <-]; by apply (H2 c x)|apply H2].
Qed.

Lemma refs_shared_update ef ec eh eh' s h x n : refs_inv ef ec eh s → shared s !! h = Some x → 0 < n →
  (∀ g, count g eh' = count g eh + if decide (h = g) then n - sm_refs x else 0) → refs_inv ef ec eh' (on_shared (<[h := SharedMap n (sm_fd x)]>) id s).
Proof.
  intros H Hx Hr Hc. split; try apply H.
  - intros f. change (inner_fd _ f) with (inner_fd s f). rewrite (ri_fd _ _ _ _ H). cbn. rewrite (cnt_update _ (shared s) h x _ f Hx). cbn. lia.
  - intros g. rewrite Hc. pose proof (ri_shared _ _ _ _ H g) as E. unfold inner_shared in *. cbn. rewrite lookup_insert. case_decide as Eg; [subst g|lia]. rewrite Hx in E. cbn. lia.
  - intros g z. cbn. rewrite lookup_insert. case_decide; [by intros [= <-]|apply H].
  - destruct (ri_list _ _ _ _ H) as [Hnd Hl]. split; [done|]. intros g. cbn. unfold id. rewrite Hl, lookup_insert_is_Some'. split; [auto|]. intros [<-|?]; eauto.
  - intros k Hk. cbn in Hk. rewrite lookup_insert_is_Some' in Hk. apply (ri_next _ _ _ _ H). destruct Hk as [?|[?|[[<-|?]|?]]]; [tauto|tauto|right; right; left; eauto|tauto|tauto].
Qed.

Lemma wp_grab_shared ef ec eh h x s w (Q : unit → mem → world → Prop) : mem_inv ef ec eh s → shared s !! h = Some x →
  let s' := on_shared (<[h := SharedMap (sm_refs x + 1) (sm_fd x)]>) id s in (mem_inv ef ec (h :: eh) s' → Q tt s' w) → wp (grab_shared h) s w Q.
Proof.
  intros [H1 H2 H3 H4 H5] Hx s' HQ. unfold grab_shared. rewrite wp_bind. eapply wp_fetch; [done|]. rewrite wp_modify. apply HQ. pose proof (ri_shared_pos _ _ _ _ H1 h x Hx).
  split; try done. apply (refs_shared_update ef ec eh _ s h x); [done..|lia|]. intros g. rewrite count_cons. case_decide; lia.
Qed.

(** A shared map without references. *)
Lemma drop_shared ef ec eh h x s : mem_inv ef ec (h :: eh) s → shared s !! h = Some x → sm_refs x = 1 →
  mem_inv (sm_fd x :: ef) ec eh (change (delete h) (filter (λ j, j ≠ h)) id id id s).
Proof.
  intros [H1 H2 H3 H4 H5] Hx E1. split; try done. pose proof (ri_shared _ _ _ _ H1 h) as E. unfold inner_shared in E. rewrite Hx, count_cons, decide_True in E by done.
  pose proof (cnt_nonneg m_shared (mappings s) h). pose proof (cnt_nonneg v_shared (views s) h). pose proof (count_nonneg h eh). split; try apply H1.
  - intros f. pose proof (ri_fd _ _ _ _ H1 f) as Ef. change (inner_fd (change _ _ _ _ _ s) f) with (inner_fd s f). rewrite Ef, count_cons. cbn. unfold id.
    rewrite (cnt_delete _ (shared s) h x f Hx). unfold here. destruct (decide (sm_fd x = f)) as [->|Hne]; [rewrite decide_True by done; lia|rewrite decide_False by congruence; lia].
  - intros g. pose proof (ri_shared _ _ _ _ H1 g) as Eg. rewrite count_cons in Eg. unfold inner_shared in *. cbn. unfold id. rewrite lookup_delete. case_decide as Ec; [subst g; lia|]. rewrite Eg. lia.
  - intros g y; cbn; intros [_ Hy]%lookup_delete_Some. by apply (ri_shared_pos _ _ _ _ H1 g).
  - destruct (ri_list _ _ _ _ H1) as [Hnd Hl]. cbn. split; [by apply NoDup_filter|]. intros g. rewrite list_elem_of_filter, Hl, lookup_delete_is_Some. naive_solver.
  - intros k Hk. apply (ri_next _ _ _ _ H1). cbn in Hk. unfold id in Hk. destruct Hk as [?|[?|[[y [_ Hy]%lookup_delete_Some]|?]]]; [tauto|tauto|right; right; left; eauto|tauto].
Qed.

(** Mappings, views and processes are as before. *)
Definition only_refs (s s' : mem) : Prop := mappings s' = mappings s ∧ views s' = views s ∧ processes s' = processes s ∧ entry_points s' = entry_points s ∧ next s' = next s.

Lemma release_shared_ok ef ec eh h s w : mem_inv ef ec (h :: eh) s → wp (release_shared h) s w (λ _ s' _, mem_inv ef ec eh s' ∧ only_refs s s').
Proof.
  intros H. destruct H as [H1 H2 H3 H4 H5] eqn:EH. clear EH. pose proof (ri_shared _ _ _ _ H1 h) as E. unfold inner_shared in E. rewrite count_cons, decide_True in E by done.
  pose proof (cnt_nonneg m_shared (mappings s) h). pose proof (cnt_nonneg v_shared (views s) h). pose proof (count_nonneg h eh). destruct (shared s !! h) as [x|] eqn:Hx; [|lia].
  unfold release_shared. rewrite wp_bind. eapply wp_fetch; [done|]. pose proof (ri_shared_pos _ _ _ _ H1 h x Hx). destruct (Z.eqb_spec (sm_refs x) 1) as [E1|E1].
  - pose proof (drop_shared ef ec eh h x s ltac:(by split) Hx E1) as Hd. unfold shared_map_destroy. rewrite wp_bind.
    set (φ := change (delete h) (filter (λ j, j ≠ h)) id id id) in *. apply (wp_mono _ _ _ (λ _ s1 _, mem_inv ef ec eh (φ s1) ∧ only_refs s (φ s1))).
    + apply (wp_respects φ (release_fd (sm_fd x)) s w (λ _ s1 _, mem_inv ef ec eh s1 ∧ only_refs s s1)); [apply release_fd_respects|]. eapply wp_mono; [by apply release_fd_ok|].
      intros [] s1 w1 (Hi & _ & _ & _ & ? & ? & ? & ? & ?). split; [done|by repeat split].
    + intros [] s1 w1 Hi. by rewrite wp_modify.
  - rewrite wp_modify. split; [|by repeat split]. split; try done. apply (refs_shared_update ef ec (h :: eh) _ s h x); [done..|lia|]. intros g. rewrite count_cons. case_decide; lia.
Qed.

(** *** Mappings *)

Lemma count_option o l i : count i (option_list o ++ l) = here o i + count i l.
Proof. unfold here. destruct o as [j|]; [change (option_list (Some j) ++ l) with (j :: l); rewrite count_cons; repeat case_decide; (congruence || lia)|by rewrite decide_False]. Qed.

Lemma refs_mapping_update ef ec eh ef' ec' eh' s m x y : refs_inv ef ec eh s → mappings s !! m = Some x →
  (∀ i, count i ef' + here (m_fd y) i = count i ef + here (m_fd x) i) → (∀ i, count i ec' + here (m_committed y) i = count i ec + here (m_committed x) i) →
  (∀ i, count i eh' + here (m_shared y) i = count i eh + here (m_shared x) i) → refs_inv ef' ec' eh' (on_mappings (<[m := y]>) s).
Proof.
  intros H Hx Hf Hc Hh. split; try apply H; cbn.
  - intros i. change (inner_fd _ i) with (inner_fd s i). rewrite (ri_fd _ _ _ _ H), (cnt_update m_fd _ m x y i Hx). specialize (Hf i). lia.
  - intros i. change (inner_ranges _ i) with (inner_ranges s i). rewrite (ri_ranges _ _ _ _ H), (cnt_update m_committed _ m x y i Hx). specialize (Hc i). lia.
  - intros i. change (inner_shared _ i) with (inner_shared s i). rewrite (ri_shared _ _ _ _ H), (cnt_update m_shared _ m x y i Hx). specialize (Hh i). lia.
  - intros k Hk. apply (ri_next _ _ _ _ H). rewrite lookup_insert_is_Some' in Hk. destruct Hk as [?|[?|[?|[[<-|?]|?]]]]; [tauto|tauto|tauto|right; right; right; left; eauto|tauto|tauto].
Qed.

Definition image_ok (m : gmap Z fd) (x : mapping) : Prop :=
  (im_map_addr (m_image x) = 0 ∨ ∃ f y, m_fd x = Some f ∧ m !! f = Some y ∧ map_addr y = im_map_addr (m_image x)) ∧
  (has (im_flags (m_image x)) IMAGE_FLAGS_ImageDynamicallyRelocated = true → 0 ≤ m_size x < 4294967296).

Lemma mem_mapping_update ef ec eh ef' ec' eh' s m x y : mem_inv ef ec eh s → mappings s !! m = Some x → image_ok (fds s) y →
  (∀ i, count i ef' + here (m_fd y) i = count i ef + here (m_fd x) i) → (∀ i, count i ec' + here (m_committed y) i = count i ec + here (m_committed x) i) →
  (∀ i, count i eh' + here (m_shared y) i = count i eh + here (m_shared x) i) → mem_inv ef' ec' eh' (on_mappings (<[m := y]>) s).
Proof.
  intros [H1 H2 H3 H4 H5] Hx Hy Hf Hc Hh. split; try done; [by eapply refs_mapping_update|]. intros k z. cbn. rewrite lookup_insert. case_decide; [by intros [= <-]|apply H4].
Qed.

Lemma drop_mapping ef ec eh s m x : mem_inv ef ec eh s → mappings s !! m = Some x →
  mem_inv (option_list (m_fd x) ++ ef) (option_list (m_committed x) ++ ec) (option_list (m_shared x) ++ eh) (change id id (delete m) id id s).
Proof.
  intros [H1 H2 H3 H4 H5] Hx. split; try done.
  - split; try apply H1.
    + intros i. change (inner_fd _ i) with (inner_fd s i). rewrite (ri_fd _ _ _ _ H1), count_option. cbn. unfold id. rewrite (cnt_delete m_fd _ m x i Hx). lia.
    + intros i. change (inner_ranges _ i) with (inner_ranges s i). rewrite (ri_ranges _ _ _ _ H1), count_option. cbn. unfold id. rewrite (cnt_delete m_committed _ m x i Hx). lia.
    + intros i. change (inner_shared _ i) with (inner_shared s i). rewrite (ri_shared _ _ _ _ H1), count_option. cbn. unfold id. rewrite (cnt_delete m_shared _ m x i Hx). lia.
    + intros k Hk. apply (ri_next _ _ _ _ H1). cbn in Hk. unfold id in Hk. destruct Hk as [?|[?|[?|[[y [_ Hy]%lookup_delete_Some]|?]]]]; [tauto|tauto|tauto|right; right; right; left; eauto|tauto].
  - intros k y. cbn. intros [_ Hy]%lookup_delete_Some. by apply (H4 k).
Qed.

Lemma only_refs_trans s1 s2 s3 : only_refs s1 s2 → only_refs s2 s3 → only_refs s1 s3.
Proof. unfold only_refs. intros (? & ? & ? & ? & ?) (? & ? & ? & ? & ?). split_and!; congruence. Qed.

Lemma maybe_release_fd o ef ec eh s w : mem_inv (option_list o ++ ef) ec eh s → wp (if_some release_fd o) s w (λ _ s' _, mem_inv ef ec eh s' ∧ only_refs s s').
Proof.
  intros H. destruct o as [f|]; [|apply wp_ret; split; [exact H|by repeat split]]. eapply wp_mono; [apply (release_fd_ok ef ec eh f); exact H|]. intros [] s' w' (H' & _ & _ & _ & ? & ? & ? & ? & ?). split; [done|by repeat split].
Qed.

Lemma maybe_release_ranges o ef ec eh s w : mem_inv ef (option_list o ++ ec) eh s → wp (if_some release_ranges o) s w (λ _ s' _, mem_inv ef ec eh s' ∧ only_refs s s').
Proof. intros H. destruct o as [c|]; [|apply wp_ret; split; [exact H|by repeat split]]. eapply wp_mono; [apply (release_ranges_ok ef ec eh c); exact H|]. intros [] s' w' (H' & g & ->); split; [done|by repeat split]. Qed.

Lemma maybe_release_shared o ef ec eh s w : mem_inv ef ec (option_list o ++ eh) s → wp (if_some release_shared o) s w (λ _ s' _, mem_inv ef ec eh s' ∧ only_refs s s').
Proof. intros H. destruct o as [h|]; [|apply wp_ret; split; [exact H|by repeat split]]. apply (release_shared_ok ef ec eh h); exact H. Qed.

Lemma release_three f c h ef ec eh s w : mem_inv (option_list f ++ ef) (option_list c ++ ec) (option_list h ++ eh) s →
  wp (if_some release_fd f >> if_some release_ranges c >> if_some release_shared h) s w (λ _ s' _, mem_inv ef ec eh s' ∧ only_refs s s').
Proof.
  intros H. rewrite wp_bind. eapply wp_mono; [by apply maybe_release_fd|]. intros [] s1 w1 [H1 E1]. rewrite wp_bind. eapply wp_mono; [by apply maybe_release_ranges|].
  intros [] s2 w2 [H2 E2]. eapply wp_mono; [by apply maybe_release_shared|]. intros [] s3 w3 [H3 E3]. split; [done|]. eapply only_refs_trans; [exact E1|by eapply only_refs_trans].
Qed.

Lemma release_three_respects f c h fm fv fp : respects (change id id fm fv fp) (if_some release_fd f >> if_some release_ranges c >> if_some release_shared h).
Proof.
  repeat (apply respects_bind; [|intros ?]); apply if_some_respects; intros; [apply release_fd_respects|apply release_ranges_respects|apply release_shared_respects].
Qed.

Lemma wp_three (a b c d : MM unit) s w Q : wp ((a >> b >> c) >> d) s w Q → wp (a >> b >> c >> d) s w Q.
Proof. rewrite !wp_bind. intros H. eapply wp_mono; [exact H|]. intros [] s1 w1. rewrite !wp_bind. intros H1. eapply wp_mono; [exact H1|]. intros [] s2 w2. by rewrite !wp_bind. Qed.

(** A computation that is independent of them does not change mappings, views and processes. *)
Lemma respects_keeps {A} (m : MM A) s w a s' w' : (∀ fm fv fp, respects (change id id fm fv fp) m) → m s w = Some (a, s', w') → mappings s' = mappings s ∧ views s' = views s ∧ processes s' = processes s.
Proof.
  intros Hm E. specialize (Hm (λ _, mappings s) (λ _, views s) (λ _, processes s) s w). assert (change id id (λ _, mappings s) (λ _, views s) (λ _, processes s) s = s) as Es by (by destruct s).
  rewrite Es, E in Hm. injection Hm as E'. rewrite E'. done.
Qed.

Lemma wp_keeps {A} (m : MM A) s w (Q : A → mem → world → Prop) : (∀ fm fv fp, respects (change id id fm fv fp) m) → wp m s w Q →
  wp m s w (λ a s' w', Q a s' w' ∧ mappings s' = mappings s ∧ views s' = views s ∧ processes s' = processes s).
Proof. intros Hm. unfold wp. destruct (m s w) as [[[a s'] w']|] eqn:E; [|done]. intros HQ. split; [done|]. by eapply respects_keeps. Qed.

(** References are given back by an object that is taken away later. *)
Lemma wp_release_then φ f c h ef ec eh s w (d : MM unit) (Q : unit → mem → world → Prop) : (∃ fm fv fp, φ = change id id fm fv fp) →
  mem_inv (option_list f ++ ef) (option_list c ++ ec) (option_list h ++ eh) (φ s) →
  (∀ s' w', mem_inv ef ec eh (φ s') → mappings s' = mappings s ∧ views s' = views s ∧ processes s' = processes s → wp d s' w' Q) →
  wp (if_some release_fd f >> if_some release_ranges c >> if_some release_shared h >> d) s w Q.
Proof.
  intros (fm & fv & fp & ->) H HQ. apply wp_three. rewrite wp_bind. set (φ := change id id fm fv fp) in *.
  eapply wp_mono; [apply wp_keeps; [intros; apply release_three_respects|]; apply (wp_respects φ _ s w (λ _ s' _, mem_inv ef ec eh s')); [apply release_three_respects|]|].
  - eapply wp_mono; [by apply release_three|]. by intros [] s' w' [? _].
  - intros [] s' w' [H' Hs]. by apply HQ.
Qed.

Lemma mapping_destroy_ok ef ec eh m s w : mem_inv ef ec eh s → is_Some (mappings s !! m) → wp (mapping_destroy m) s w (λ _ s' _, mem_inv ef ec eh s' ∧ mappings s' = delete m (mappings s)).
Proof.
  intros H [x Hx]. unfold mapping_destroy. rewrite wp_bind. eapply wp_fetch; [done|].
  apply (wp_release_then (change id id (delete m) id id) _ _ _ ef ec eh); [by eauto|by apply drop_mapping|]. intros s' w' H' (Em & _). rewrite wp_modify. split; [done|]. cbn. by rewrite Em.
Qed.

(** *** New objects *)

Lemma fresh_key ef ec eh s : refs_inv ef ec eh s → fds s !! next s = None ∧ committed s !! next s = None ∧ shared s !! next s = None ∧ mappings s !! next s = None ∧ views s !! next s = None.
Proof.
  intros H. pose proof (ri_next _ _ _ _ H (next s)) as Hn.
  split_and!; apply eq_None_not_Some; intros Hs; assert (next s < next s) by tauto; lia.
Qed.

Lemma is_Some_insert_new {A} (m : gmap Z A) i x j : is_Some (<[i := x]> m !! j) → j = i ∨ is_Some (m !! j).
Proof. rewrite lookup_insert. case_decide; auto. Qed.

Lemma mem_new_fd ef ec eh ef' s f x : mem_inv ef ec eh s → f = next s → 0 ≤ fd_outside x → 0 < fd_refs x → map_addr x = 0 →
  (∀ g, count g ef' = count g ef + if decide (f = g) then fd_refs x - fd_outside x else 0) → mem_inv ef' ec eh (on_fds (<[f := x]>) (set_next (f + 1) s)).
Proof.
  intros [H1 H2 H3 H4 H5] -> Ho Hr Ha Hc. destruct (fresh_key _ _ _ _ H1) as (Hf & _). split; cbn; try done; [|by apply areas_new|by apply images_new]. split; try apply H1.
  - intros g. rewrite inner_fd_insert, Hc. pose proof (ri_fd _ _ _ _ H1 g) as E. cbn. change (inner_fd (set_next _ s) g) with (inner_fd s g). case_decide as Eg; [subst g|lia]. unfold inner_fd in E. rewrite Hf in E. lia.
  - intros g y. cbn. rewrite lookup_insert. case_decide; [by intros [= <-]|apply H1].
  - intros k Hk. cbn in *. assert (k = next s ∨ k < next s); [|lia]. destruct Hk as [[->|Hk]%is_Some_insert_new|Hk]; [by left|right..]; apply (ri_next _ _ _ _ H1); auto.
Qed.

Lemma mem_new_ranges ef ec eh s c : mem_inv ef ec eh s → c = next s → mem_inv ef (c :: ec) eh (on_committed (<[c := Ranges 1 [] 8]>) (set_next (c + 1) s)).
Proof.
  intros [H1 H2 H3 H4 H5] ->. destruct (fresh_key _ _ _ _ H1) as (_ & Hf & _). split; cbn; try done.
  - split; try apply H1.
    + intros g. rewrite inner_ranges_insert, count_cons. pose proof (ri_ranges _ _ _ _ H1 g) as E. cbn. change (inner_ranges (set_next _ s) g) with (inner_ranges s g). case_decide as Eg; [subst g|lia]. unfold inner_ranges in E. rewrite Hf in E. lia.
    + intros g y. cbn. rewrite lookup_insert. case_decide; [by intros [= <-]|apply H1].
    + intros k Hk. cbn in *. assert (k = next s ∨ k < next s); [|lia]. destruct Hk as [Hk|[[->|Hk]%is_Some_insert_new|Hk]]; [right|by left|right..]; apply (ri_next _ _ _ _ H1); auto.
  - intros g y. rewrite lookup_insert. case_decide; [|apply H2]. intros [= <-]. cbn. split_and!; [by repeat constructor|by intros ? ?%not_elem_of_nil|lia|lia].
Qed.

Lemma mem_new_shared f ef ec eh s h : mem_inv (f :: ef) ec eh s → h = next s → mem_inv ef ec (h :: eh) (on_shared (<[h := SharedMap 1 f]>) (cons h) (set_next (h + 1) s)).
Proof.
  intros [H1 H2 H3 H4 H5] ->. destruct (fresh_key _ _ _ _ H1) as (_ & _ & Hf & _). split; cbn; try done. split; try apply H1.
  - intros g. pose proof (ri_fd _ _ _ _ H1 g) as E. change (inner_fd _ g) with (inner_fd s g). rewrite E, count_cons. cbn. rewrite cnt_insert_new by done. unfold here. cbn.
    destruct (decide (f = g)) as [->|Hne]; [rewrite decide_True by done; lia|rewrite decide_False by congruence; lia].
  - intros g. rewrite count_cons. pose proof (ri_shared _ _ _ _ H1 g) as E. unfold inner_shared in *. cbn. rewrite lookup_insert. case_decide as Eg; [subst g|lia]. rewrite Hf in E. cbn. lia.
  - intros g y. cbn. rewrite lookup_insert. case_decide; [by intros [= <-]|apply H1].
  - destruct (ri_list _ _ _ _ H1) as [Hnd Hl]. cbn. split; [constructor; [|done]; intros [y Hy]%Hl; congruence|]. intros g. rewrite elem_of_cons, Hl, lookup_insert_is_Some'. naive_solver.
  - intros k Hk. cbn in *. assert (k = next s ∨ k < next s); [|lia]. destruct Hk as [Hk|[Hk|[[->|Hk]%is_Some_insert_new|Hk]]]; [right|right|by left|right..]; apply (ri_next _ _ _ _ H1); auto.
Qed.

Lemma mem_new_mapping ef ec eh s m size : mem_inv ef ec eh s → m = next s → mem_inv ef ec eh (on_mappings (<[m := Mapping size 0 None no_image None None]>) (set_next (m + 1) s)).
Proof.
  intros [H1 H2 H3 H4 H5] ->. destruct (fresh_key _ _ _ _ H1) as (_ & _ & _ & Hf & _). split; cbn; try done.
  - split; try apply H1; cbn.
    + intros g. change (inner_fd _ g) with (inner_fd s g). rewrite (ri_fd _ _ _ _ H1), cnt_insert_new by done. unfold here. cbn. rewrite decide_False by done. lia.
    + intros g. change (inner_ranges _ g) with (inner_ranges s g). rewrite (ri_ranges _ _ _ _ H1), cnt_insert_new by done. unfold here. cbn. rewrite decide_False by done. lia.
    + intros g. change (inner_shared _ g) with (inner_shared s g). rewrite (ri_shared _ _ _ _ H1), cnt_insert_new by done. unfold here. cbn. rewrite decide_False by done. lia.
    + intros k Hk. cbn in *. assert (k = next s ∨ k < next s); [|lia]. destruct Hk as [Hk|[Hk|[Hk|[[->|Hk]%is_Some_insert_new|Hk]]]]; [right|right|right|by left|right..]; apply (ri_next _ _ _ _ H1); auto.
  - intros k x. rewrite lookup_insert. case_decide; [|apply H4]. intros [= <-]. cbn. split; [by left|done].
Qed.

(** What somebody refers to exists. *)
Lemma fd_exists ef ec eh s f : refs_inv ef ec eh s → 1 ≤ cnt m_fd (mappings s) f ∨ 1 ≤ cnt v_fd (views s) f ∨ 1 ≤ cnt (λ x, Some (sm_fd x)) (shared s) f ∨ f ∈ ef → ∃ x, fds s !! f = Some x.
Proof.
  intros H Hf. pose proof (ri_fd _ _ _ _ H f) as E. unfold inner_fd in E. destruct (fds s !! f); [eauto|].
  pose proof (cnt_nonneg m_fd (mappings s) f). pose proof (cnt_nonneg v_fd (views s) f). pose proof (cnt_nonneg (λ x, Some (sm_fd x)) (shared s) f). pose proof (count_nonneg f ef).
  destruct Hf as [?|[?|[?|?%count_elem]]]; lia.
Qed.

Lemma mapping_fd_exists ef ec eh s m x f : mem_inv ef ec eh s → mappings s !! m = Some x → m_fd x = Some f → ∃ y, fds s !! f = Some y.
Proof. intros H Hx Hf. eapply fd_exists; [apply H|]. left. by eapply cnt_held. Qed.

Lemma view_fd_exists ef ec eh s v x f : mem_inv ef ec eh s → views s !! v = Some x → v_fd x = Some f → ∃ y, fds s !! f = Some y.
Proof. intros H Hx Hf. eapply fd_exists; [apply H|]. right. left. by eapply cnt_held. Qed.

Lemma ranges_exist ef ec eh s c : refs_inv ef ec eh s → 1 ≤ cnt m_committed (mappings s) c ∨ 1 ≤ cnt v_committed (views s) c → ∃ x, committed s !! c = Some x.
Proof.
  intros H Hc. pose proof (ri_ranges _ _ _ _ H c) as E. unfold inner_ranges in E. destruct (committed s !! c); [eauto|].
  pose proof (cnt_nonneg m_committed (mappings s) c). pose proof (cnt_nonneg v_committed (views s) c). pose proof (count_nonneg c ec). lia.
Qed.

Lemma shared_exists ef ec eh s h : refs_inv ef ec eh s → 1 ≤ cnt m_shared (mappings s) h → ∃ x, shared s !! h = Some x.
Proof.
  intros H Hc. pose proof (ri_shared _ _ _ _ H h) as E. unfold inner_shared in E. destruct (shared s !! h); [eauto|].
  pose proof (cnt_nonneg v_shared (views s) h). pose proof (count_nonneg h eh). lia.
Qed.

(** *** Making a mapping *)

Section Making.
(** The other mappings. *)
Context (O : gmap Z mapping).
Definition making (ef ec eh : list Z) (m : Z) (x : mapping) (s : mem) : Prop := mem_inv ef ec eh s ∧ mappings s !! m = Some x ∧ delete m (mappings s) = O.

Lemma making_image ef ec eh m x s : making ef ec eh m x s → image_ok (fds s) x.
Proof. intros (H & Hx & _). by apply (mi_images _ _ _ _ H m). Qed.

Lemma fail_making ef ec eh m x s w : making ef ec eh m x s → wp (mapping_destroy m >> ret (None : option Z)) s w (λ r s' _, mem_inv ef ec eh s' ∧ r = None ∧ mappings s' = O).
Proof. intros (H & Hx & HO). rewrite wp_bind. eapply wp_mono; [apply mapping_destroy_ok; eauto|]. intros [] s' w' [H' Em]. apply wp_ret. split; [done|]. split; [done|congruence]. Qed.

Lemma making_update ef ec eh ef' ec' eh' m x y s : making ef ec eh m x s → image_ok (fds s) y →
  (∀ i, count i ef' + here (m_fd y) i = count i ef + here (m_fd x) i) → (∀ i, count i ec' + here (m_committed y) i = count i ec + here (m_committed x) i) →
  (∀ i, count i eh' + here (m_shared y) i = count i eh + here (m_shared x) i) → making ef' ec' eh' m y (on_mappings (<[m := y]>) s).
Proof. intros (H & Hx & HO) Hy Hf Hc Hh. split; [by eapply mem_mapping_update|]. split; [apply lookup_insert_eq|]. cbn. by rewrite delete_insert_eq. Qed.

Lemma here_some i j : here (Some i) j = if decide (i = j) then 1 else 0.
Proof. unfold here. repeat case_decide; congruence. Qed.

Lemma same_file_runs f g x y s w (Q : bool → mem → world → Prop) : fds s !! f = Some x → fds s !! g = Some y → Q (fd_inode x =? fd_inode y) s w → wp (is_same_file_fd f g) s w Q.
Proof. intros Hx Hy HQ. unfold is_same_file_fd. rewrite wp_bind. eapply wp_fetch; [done|]. rewrite wp_bind. eapply wp_fetch; [done|]. by apply wp_ret. Qed.

Lemma get_shared_file_loop_ok ef ec eh f l : ∀ s w, mem_inv ef ec eh s → (∀ h, h ∈ l → is_Some (shared s !! h)) → is_Some (fds s !! f) →
  wp (get_shared_file_loop f l) s w (λ r s' _, match r with Some h => mem_inv ef ec (h :: eh) s' | None => s' = s end ∧ mappings s' = mappings s ∧ fds s' = fds s).
Proof.
  induction l as [|h l IH]; intros s w H Hl [y Hy]; cbn [get_shared_file_loop]; [by apply wp_ret|]. destruct (Hl h) as [x Hx]; [left|].
  rewrite wp_bind. eapply wp_fetch; [done|]. assert (Hf : ∃ z, fds s !! sm_fd x = Some z).
  { eapply fd_exists; [apply H|]. right. right. left. by apply (cnt_held (λ x, Some (sm_fd x)) (shared s) h x). }
  destruct Hf as [z Hz]. rewrite wp_bind. eapply same_file_runs; [done|done|]. destruct (fd_inode z =? fd_inode y).
  - rewrite wp_bind. eapply wp_grab_shared; [done|done|]. intros H'. by apply wp_ret.
  - apply IH; [done|intros; apply Hl; by right|eauto].
Qed.

Lemma wp_set_mapping_shared m h x s w (Q : unit → mem → world → Prop) : mappings s !! m = Some x →
  Q tt (on_mappings (<[m := Mapping (m_size x) (m_flags x) (m_fd x) (m_image x) (m_committed x) (Some h)]>) s) w → wp (set_mapping_shared m h) s w Q.
Proof. intros Hx HQ. unfold set_mapping_shared. rewrite wp_bind. eapply wp_fetch; [done|]. by rewrite wp_modify. Qed.

Lemma build_shared_mapping_ok ef ec eh m x f total temp s w : making ef ec eh m x s → m_fd x = Some f → m_shared x = None →
  wp (build_shared_mapping m f total temp) s w (λ _ s' _, ∃ x', making ef ec eh m x' s' ∧ m_fd x' = Some f).
Proof.
  intros Hm Hf Hsh. pose proof Hm as (H & Hx & HO). unfold build_shared_mapping. destruct total; cbn [negb]; [|apply wp_ret; eauto].
  destruct (mapping_fd_exists _ _ _ _ _ _ _ H Hx Hf) as [y Hy]. rewrite wp_bind. unfold get_shared_file at 1. rewrite wp_bind, wp_get.
  eapply wp_mono; [apply get_shared_file_loop_ok; [exact H|intros h Hh; by apply (ri_list _ _ _ _ (mi_refs _ _ _ _ H))|eauto]|]. intros r s1 w1 (H1 & Em & Ef). destruct r as [h|].
  - rewrite wp_bind. eapply wp_set_mapping_shared; [by rewrite Em|]. apply wp_ret. eexists (Mapping _ _ _ _ _ (Some h)). split; [|exact Hf]. eapply making_update; [split_and!; [exact H1|by rewrite Em|by rewrite Em]| |done|done|].
    + rewrite Ef. apply (making_image _ _ _ _ _ _ Hm).
    + intros i. cbn. rewrite Hsh, count_cons, here_some. unfold here. rewrite (decide_False (P := None = Some i)) by done. lia.
  - subst s1. destruct temp; cbn [negb]; [|apply wp_ret; eauto]. rewrite wp_bind. apply wp_mem_alloc; intros w2 _ _; cbn [negb]; [|apply wp_ret; eauto].
    rewrite wp_bind. apply wp_fresh. rewrite wp_bind. set (s2 := set_next _ _). assert (H2 : mem_inv ef ec eh s2) by (apply mem_next; [lia|done]).
    eapply (wp_grab_fd ef ec eh); [done|exact Hy|]. intros H3. rewrite wp_bind, wp_modify.
    pose proof (mem_new_shared f ef ec eh (on_fds (<[f := set_refs (fd_refs y + 1) y]>) s) (next s)) as H4.
    assert (H5 : mem_inv (f :: ef) ec eh (on_fds (<[f := set_refs (fd_refs y + 1) y]>) s)).
    { by apply grab_fd_inv. }
    specialize (H4 H5 eq_refl). rewrite wp_bind. eapply wp_set_mapping_shared; [exact Hx|]. apply wp_ret. eexists (Mapping _ _ _ _ _ (Some _)). split; [|exact Hf]. eapply making_update; [split_and!; [exact H4|exact Hx|exact HO]| |done|done|].
    + cbn. destruct (making_image _ _ _ _ _ _ Hm) as [[E|(g & z & Hg & Hz & Ea)] Hs]; (split; [|done]); [by left|right]. exists g. destruct (decide (f = g)) as [<-|Hne].
      * exists (set_refs (fd_refs y + 1) y). split; [done|]. split; [apply lookup_insert_eq|]. cbn. congruence.
      * exists z. split; [done|]. split; [by rewrite lookup_insert_ne|done].
    + intros i. cbn. rewrite Hsh, count_cons, here_some. unfold here. rewrite (decide_False (P := None = Some i)) by done. lia.
Qed.

Lemma wp_set_mapping_fd m f x s w (Q : unit → mem → world → Prop) : mappings s !! m = Some x →
  Q tt (on_mappings (<[m := Mapping (m_size x) (m_flags x) (Some f) (m_image x) (m_committed x) (m_shared x)]>) s) w → wp (set_mapping_fd m f) s w Q.
Proof. intros Hx HQ. unfold set_mapping_fd. rewrite wp_bind. eapply wp_fetch; [done|]. by rewrite wp_modify. Qed.

Lemma wp_set_mapping_size m size x s w (Q : unit → mem → world → Prop) : mappings s !! m = Some x →
  Q tt (on_mappings (<[m := Mapping size (m_flags x) (m_fd x) (m_image x) (m_committed x) (m_shared x)]>) s) w → wp (set_mapping_size m size) s w Q.
Proof. intros Hx HQ. unfold set_mapping_size. rewrite wp_bind. eapply wp_fetch; [done|]. by rewrite wp_modify. Qed.

Lemma wp_set_mapping_flags m fl x s w (Q : unit → mem → world → Prop) : mappings s !! m = Some x →
  Q tt (on_mappings (<[m := Mapping (m_size x) fl (m_fd x) (m_image x) (m_committed x) (m_shared x)]>) s) w → wp (set_mapping_flags m fl) s w Q.
Proof. intros Hx HQ. unfold set_mapping_flags. rewrite wp_bind. eapply wp_fetch; [done|]. by rewrite wp_modify. Qed.

Lemma wp_set_mapping_image m im x s w (Q : unit → mem → world → Prop) : mappings s !! m = Some x →
  Q tt (on_mappings (<[m := Mapping (m_size x) (m_flags x) (m_fd x) im (m_committed x) (m_shared x)]>) s) w → wp (set_mapping_image m im) s w Q.
Proof. intros Hx HQ. unfold set_mapping_image. rewrite wp_bind. eapply wp_fetch; [done|]. by rewrite wp_modify. Qed.

Lemma wp_set_mapping_committed m c x s w (Q : unit → mem → world → Prop) : mappings s !! m = Some x →
  Q tt (on_mappings (<[m := Mapping (m_size x) (m_flags x) (m_fd x) (m_image x) (Some c) (m_shared x)]>) s) w → wp (set_mapping_committed m c) s w Q.
Proof. intros Hx HQ. unfold set_mapping_committed. rewrite wp_bind. eapply wp_fetch; [done|]. by rewrite wp_modify. Qed.

(** A mapping that is no image, as long as it is being made. *)
Definition plain (x : mapping) : Prop := m_image x = no_image ∧ m_shared x = None.

Lemma plain_image m x : m_image x = no_image → image_ok m x.
Proof. intros E. unfold image_ok. rewrite E. split; [by left|]. intros Hh. discriminate Hh. Qed.

Lemma get_mapping_flags_runs file flags s w (Q : Z → mem → world → Prop) : (∀ fl w', Q fl s w') → wp (get_mapping_flags file flags) s w Q.
Proof. intros HQ. unfold get_mapping_flags. cbn zeta. repeat (case_match || rewrite wp_bind || rewrite wp_set_error || apply wp_ret); apply HQ. Qed.

Lemma here_none i : here None i = 0.
Proof. done. Qed.

Lemma wp_new_fd ef ec eh inode removable name s w (Q : Z → mem → world → Prop) : mem_inv ef ec eh s →
  (∀ f x s', f = next s → fds s' !! f = Some x → mappings s' = mappings s → mem_inv (f :: ef) ec eh s' → Q f s' w) → wp (new_fd inode removable name) s w Q.
Proof.
  intros H HQ. unfold new_fd. rewrite wp_bind. apply wp_fresh. rewrite wp_bind, wp_modify. apply wp_ret. eapply HQ; [done|apply lookup_insert_eq|done|].
  eapply mem_new_fd; [done|done|cbn; lia|cbn; lia|done|]. intros g. rewrite count_cons. cbn. case_decide; lia.
Qed.

Lemma set_new_fd ef ec eh m x f s : mem_inv (f :: ef) ec eh s → mappings s !! m = Some x → delete m (mappings s) = O → plain x → m_fd x = None →
  making ef ec eh m (Mapping (m_size x) (m_flags x) (Some f) (m_image x) (m_committed x) (m_shared x)) (on_mappings (<[m := Mapping (m_size x) (m_flags x) (Some f) (m_image x) (m_committed x) (m_shared x)]>) s).
Proof.
  intros H Hx HO [Hi Hs] Hf. eapply making_update; [by split_and!|by apply plain_image| |done|done]. intros i. cbn. rewrite Hf, count_cons, here_some, here_none. lia.
Qed.

Definition answers_ok (s : mem) (a : answers) : Prop :=
  (∀ f, an_fd a = OldFd f → is_Some (fds s !! f)) ∧ ∀ im size total, an_image a = inr (im, size, total) → 0 ≤ size < 4294967296.

(** The fd object of the file. *)
Lemma take_fd_ok ef ec eh m x a s w : making ef ec eh m x s → plain x → m_fd x = None → answers_ok s a →
  wp (match an_fd a with
      | NoFd e => set_error e >> ret None
      | OldFd f => grab_fd f >> set_mapping_fd m f >> ret (Some f)
      | NewFd inode removable name => let* f := new_fd inode removable name in set_mapping_fd m f >> ret (Some f)
      end) s w (λ r s' _, ∃ x', making ef ec eh m x' s' ∧ plain x' ∧ m_size x' = m_size x ∧ ∀ f, r = Some f → m_fd x' = Some f).
Proof.
  intros (H & Hx & HO) Hp Hf [Ho _]. destruct (an_fd a) as [f|inode removable name|e].
  - destruct (Ho f eq_refl) as [y Hy]. rewrite wp_bind. eapply (wp_grab_fd ef ec eh); [done|done|]. intros H1. rewrite wp_bind. eapply wp_set_mapping_fd; [exact Hx|]. apply wp_ret.
    eexists. split; [by apply set_new_fd|]. split; [exact Hp|]. split; [done|]. by intros ? [= <-].
  - rewrite wp_bind. eapply (wp_new_fd ef ec eh); [done|]. intros f y s1 _ _ Em H1. rewrite wp_bind. eapply wp_set_mapping_fd; [by rewrite Em|]. apply wp_ret.
    eexists. split; [apply set_new_fd; [done|by rewrite Em|by rewrite Em|done|done]|]. split; [exact Hp|]. split; [done|]. by intros ? [= <-].
  - rewrite wp_bind, wp_set_error. apply wp_ret. by exists x.
Qed.

Lemma get_image_params_ok ef ec eh m x f a s w : making ef ec eh m x s → plain x → m_fd x = Some f → (∀ im size total, an_image a = inr (im, size, total) → 0 ≤ size < 4294967296) →
  wp (get_image_params m f (an_image a) (an_temp a)) s w (λ _ s' _, ∃ x', making ef ec eh m x' s' ∧ m_fd x' = Some f).
Proof.
  intros Hm [Hi Hs] Hf Ha. pose proof Hm as (H & Hx & HO). unfold get_image_params. destruct (an_image a) as [e|[[im size] total]]; [apply wp_ret; eauto|]. specialize (Ha im size total eq_refl).
  destruct (mapping_fd_exists _ _ _ _ _ _ _ H Hx Hf) as [y Hy]. rewrite wp_bind. eapply wp_fetch; [done|]. rewrite wp_bind. eapply wp_set_mapping_size; [done|].
  rewrite wp_bind. eapply wp_set_mapping_image; [apply lookup_insert_eq|]. cbn. rewrite wp_bind. set (x2 := Mapping size _ _ _ _ _). set (s2 := on_mappings _ (on_mappings _ s)).
  assert (Hm2 : making ef ec eh m x2 s2).
  { eapply making_update; [eapply (making_update _ _ _ _ _ _ m x); [exact Hm|by apply plain_image|done|done|done]| |done|done|done]. split; [right; by exists f, y|done]. }
  eapply wp_mono; [eapply build_shared_mapping_ok; [exact Hm2|done|done]|]. intros ok s3 w3 Hm3. by apply wp_ret.
Qed.

Lemma create_ranges_runs ef ec eh s w : mem_inv ef ec eh s →
  wp create_ranges s w (λ r s' _, mappings s' = mappings s ∧ fds s' = fds s ∧ match r with Some c => mem_inv ef (c :: ec) eh s' | None => s' = s end).
Proof.
  intros H. unfold create_ranges. rewrite wp_bind. apply wp_mem_alloc; intros w1 _ _; cbn [negb]; [|by apply wp_ret]. rewrite wp_bind. apply wp_mem_alloc; intros w2 _ _; cbn [negb]; [|by apply wp_ret].
  rewrite wp_bind. apply wp_fresh. rewrite wp_bind, wp_modify. apply wp_ret. split; [done|]. split; [done|]. by apply mem_new_ranges.
Qed.

(** It has been made, with its fd object, or nothing remains of it. *)
Definition made (ef ec eh : list Z) (m : Z) (r : option Z) (s : mem) : Prop :=
  mem_inv ef ec eh s ∧ match r with None => mappings s = O | Some k => k = m ∧ ∃ x f, mappings s !! m = Some x ∧ delete m (mappings s) = O ∧ m_fd x = Some f end.

Lemma making_made ef ec eh m x f s : making ef ec eh m x s → m_fd x = Some f → made ef ec eh m (Some m) s.
Proof. intros (H & Hx & HO) Hf. split; [done|]. split; [done|]. by exists x, f. Qed.

Lemma fail_made ef ec eh m x s w : making ef ec eh m x s → wp (mapping_destroy m >> ret (None : option Z)) s w (λ r s' _, made ef ec eh m r s').
Proof. intros H. eapply wp_mono; [by eapply fail_making|]. intros r s' w' (H' & -> & Em). by split. Qed.

(** With a file. *)
Lemma create_with_file ef ec eh m x size flags write a s w : making ef ec eh m x s → plain x → m_fd x = None → answers_ok s a →
  wp (let* f :=
        match an_fd a with
        | NoFd e => set_error e >> ret None
        | OldFd f => grab_fd f >> set_mapping_fd m f >> ret (Some f)
        | NewFd inode removable name => let* f := new_fd inode removable name in set_mapping_fd m f >> ret (Some f)
        end in
      match f, an_stat a with
      | None, _ | _, None => mapping_destroy m >> ret None
      | Some f, Some st_size =>
          if has flags SEC_IMAGE then
            let* err := get_image_params m f (an_image a) (an_temp a) in
            if err =? 0 then ret (Some m) else set_error err >> mapping_destroy m >> ret None
          else if size =? 0 then
            if st_size =? 0 then set_error STATUS_MAPPED_FILE_SIZE_ZERO >> mapping_destroy m >> ret None
            else set_mapping_size m st_size >> ret (Some m)
          else if st_size <? size then
            if negb write || negb (Z.shiftr size 54 =? 0) then set_error STATUS_SECTION_TOO_BIG >> mapping_destroy m >> ret None
            else if an_grows a then ret (Some m) else mapping_destroy m >> ret None
          else ret (Some m)
      end) s w (λ r s' _, made ef ec eh m r s').
Proof.
  intros Hm Hp Hf Ha. rewrite wp_bind. eapply wp_mono; [by eapply take_fd_ok|]. intros r s2 w3 (x2 & Hm2 & Hp2 & Es2 & Hr). destruct r as [f|]; [|by eapply fail_made].
  destruct (an_stat a) as [st_size|]; [|by eapply fail_made]. specialize (Hr f eq_refl). destruct (has flags SEC_IMAGE).
  - rewrite wp_bind. eapply wp_mono; [eapply get_image_params_ok; [exact Hm2|done|done|apply Ha]|]. intros err s3 w4 (x3 & Hm3 & Hf3). destruct (err =? 0); [apply wp_ret; eapply making_made; [exact Hm3|done]|].
    rewrite wp_bind, wp_set_error. by eapply fail_made.
  - destruct (size =? 0).
    + destruct (st_size =? 0); [rewrite wp_bind, wp_set_error; by eapply fail_made|]. rewrite wp_bind. eapply wp_set_mapping_size; [apply Hm2|]. apply wp_ret.
      destruct Hp2 as [Hi2 _]. eapply (making_made ef ec eh m (Mapping _ _ _ _ _ _) f); [|exact Hr]. eapply (making_update _ _ _ ef ec eh m x2); [exact Hm2|by apply plain_image|done|done|done].
    + destruct (st_size <? size); [|apply wp_ret; eapply making_made; [exact Hm2|done]]. destruct (_ || _); [rewrite wp_bind, wp_set_error; by eapply fail_made|].
      destruct (an_grows a); [apply wp_ret; by eapply making_made|by eapply fail_made].
Qed.

(** Without one, [ok] being whether a list of ranges has been made if needed. *)
Lemma create_without_file ef ec eh m x size flags a s w : making ef ec eh m x s → plain x → m_fd x = None → m_committed x = None →
  wp (let* ok :=
        (if has flags SEC_RESERVE then
           let* c := create_ranges in
           match c with Some c => set_mapping_committed m c >> ret true | None => ret false end
         else ret true) in
      if negb ok then mapping_destroy m >> ret None else
      set_mapping_size m (round_size size page_mask) >>
      if negb (an_temp a) then mapping_destroy m >> ret None else
      match an_fd a with
      | NewFd inode removable name => let* f := new_fd inode removable name in set_mapping_fd m f >> ret (Some m)
      | _ => mapping_destroy m >> ret None
      end) s w (λ r s' _, made ef ec eh m r s').
Proof.
  intros Hm Hp Hf Hco. rewrite wp_bind. apply (wp_mono _ _ _ (λ _ s2 _, ∃ x2, making ef ec eh m x2 s2 ∧ plain x2 ∧ m_fd x2 = None)).
  - destruct (has flags SEC_RESERVE); [|apply wp_ret; by exists x]. rewrite wp_bind. pose proof Hm as (H & Hx & HO). eapply wp_mono; [by apply create_ranges_runs|].
    intros r s2 w3 (Em & Ef & Hr). destruct r as [c|]; [|subst s2; apply wp_ret; by exists x].
    rewrite wp_bind. eapply wp_set_mapping_committed; [by rewrite Em|]. apply wp_ret. destruct Hp as [Hi Hs]. eexists (Mapping _ _ _ _ (Some c) _). split; [|split; [split; [exact Hi|exact Hs]|exact Hf]].
    eapply (making_update _ _ _ ef ec eh m); [split_and!; [exact Hr|by rewrite Em|by rewrite Em]|by apply plain_image|done| |done].
    intros i. cbn [m_committed]. rewrite Hco, count_cons, here_some, here_none. lia.
  - intros ok s2 w3 (x2 & Hm2 & [Hi2 Hs2] & Hf2). destruct ok; cbn [negb]; [|by eapply fail_made]. rewrite wp_bind. eapply wp_set_mapping_size; [apply Hm2|].
    set (x3 := Mapping (round_size size page_mask) _ _ _ _ _). set (s3 := on_mappings _ s2). assert (Hm3 : making ef ec eh m x3 s3) by (eapply making_update; [exact Hm2|by apply plain_image|done|done|done]).
    destruct (an_temp a); cbn [negb]; [|by eapply fail_made]. destruct (an_fd a) as [f|inode removable name|e]; [by eapply fail_made| |by eapply fail_made].
    pose proof Hm3 as (H3 & Hx3 & HO3). rewrite wp_bind. eapply (wp_new_fd ef ec eh); [exact H3|]. intros f y s4 _ _ Em H4. rewrite wp_bind. eapply wp_set_mapping_fd; [by rewrite Em|]. apply wp_ret.
    eapply (making_made ef ec eh m (Mapping _ _ (Some f) _ _ _) f); [eapply set_new_fd; [done|by rewrite Em|by rewrite Em|done|done]|done].
Qed.
End Making.

Definition complete (m : gmap Z mapping) : Prop := ∀ k x, m !! k = Some x → ∃ f, m_fd x = Some f.

Lemma create_mapping_ok ef ec eh size flags file write a s w : mem_inv ef ec eh s → answers_ok s a → complete (mappings s) →
  wp (create_mapping size flags file write false a) s w (λ _ s' _, mem_inv ef ec eh s' ∧ complete (mappings s')).
Proof.
  intros H Ha Hc. unfold create_mapping. rewrite wp_bind. apply wp_mem_alloc; intros w1 _ _; cbn [negb]; [|by apply wp_ret]. rewrite wp_bind. apply wp_fresh. rewrite wp_bind, wp_modify. cbn zeta.
  destruct (fresh_key _ _ _ _ (mi_refs _ _ _ _ H)) as (_ & _ & _ & Hn & _). set (m := next s) in *. set (x0 := Mapping size 0 None no_image None None).
  assert (Hm0 : making (mappings s) ef ec eh m x0 (on_mappings (<[m := x0]>) (set_next (m + 1) s))).
  { split; [by apply mem_new_mapping|]. split; [apply lookup_insert_eq|]. cbn. by rewrite delete_insert_id. }
  assert (Hend : ∀ r s', made (mappings s) ef ec eh m r s' → mem_inv ef ec eh s' ∧ complete (mappings s')).
  { intros r s' [H' Hr]. split; [done|]. destruct r as [k|]; [|by rewrite Hr]. destruct Hr as (-> & x & f & Hx & HO & Hf). intros j y Hj. destruct (decide (j = m)) as [->|Hjm]; [exists f; congruence|].
    apply (Hc j). rewrite <-HO. by rewrite lookup_delete_ne. }
  set (s0 := on_mappings _ _) in *. rewrite wp_bind. apply get_mapping_flags_runs. intros fl w2. destruct (fl =? 0); [eapply wp_mono; [by apply (fail_made (mappings s) ef ec eh m x0)|]; intros r s1 w3; apply Hend|].
  rewrite wp_bind. eapply wp_set_mapping_flags; [apply lookup_insert_eq|]. set (x1 := Mapping (m_size x0) fl _ _ _ _). set (s1 := on_mappings _ s0).
  assert (Hm1 : making (mappings s) ef ec eh m x1 s1) by (eapply making_update; [exact Hm0|by apply plain_image|done|done|done]). assert (Hp1 : plain x1) by done.
  eapply (wp_mono _ _ _ (λ r s' _, made (mappings s) ef ec eh m r s')); [|intros r s2 w3; apply Hend]. destruct file.
  - by eapply create_with_file.
  - destruct (size =? 0); [rewrite wp_bind, wp_set_error; by eapply fail_made|]. by eapply create_without_file.
Qed.

(** A permanent mapping differs from others only when its creation fails. *)
Definition same_unless_none (m1 m2 : MM (option Z)) : Prop := ∀ s w, m1 s w = m2 s w ∨ ∃ s' w', m1 s w = Some (None, s', w').

Lemma same_bind {A} (m : MM A) (k1 k2 : A → MM (option Z)) : (∀ a, same_unless_none (k1 a) (k2 a)) → same_unless_none (bind m k1) (bind m k2).
Proof. intros H s w. unfold bind. destruct (m s w) as [[[a s'] w']|]; [apply H|by left]. Qed.

Lemma same_refl m : same_unless_none m m.
Proof. by left. Qed.

Lemma same_failed m : same_unless_none (ret tt >> ret None) m.
Proof. intros s w. right. by exists s, w. Qed.

Ltac same := repeat match goal with
  | |- same_unless_none (ret tt >> ret None) _ => apply same_failed
  | |- same_unless_none ?m ?m => apply same_refl
  | |- same_unless_none (bind _ _) (bind _ _) => apply same_bind; intros ?
  | |- same_unless_none (if ?b then _ else _) _ => destruct b
  | |- same_unless_none (match ?o with Some _ => _ | None => _ end) _ => destruct o
  | |- same_unless_none (match ?a with OldFd _ => _ | NewFd _ _ _ => _ | NoFd _ => _ end) _ => destruct a
  end.

Lemma permanent_same size flags file write a : same_unless_none (create_mapping size flags file write true a) (create_mapping size flags file write false a).
Proof. unfold create_mapping. cbn zeta. same. Qed.

Lemma create_permanent_ok ef ec eh size flags file write a s w : mem_inv ef ec eh s → answers_ok s a → complete (mappings s) →
  (∀ s' w', create_mapping size flags file write true a s w ≠ Some (None, s', w')) →
  wp (create_mapping size flags file write true a) s w (λ _ s' _, mem_inv ef ec eh s' ∧ complete (mappings s')).
Proof.
  intros H Ha Hc E. pose proof (create_mapping_ok ef ec eh size flags file write a s w H Ha Hc) as Hw.
  destruct (permanent_same size flags file write a s w) as [E'|(s' & w' & E')]; [|by destruct (E s' w')]. unfold wp in *. by rewrite E'.
Qed.

(** *** Views *)

Lemma views_add vs ps v x p y y' : views_inv vs ps → vs !! v = None → ps !! p = Some y → p_views y' ≡ₚ v :: p_views y → view_ok x →
  (∀ u z, u ∈ p_views y → vs !! u = Some z → v_base x + v_size x ≤ v_base z ∨ v_base z + v_size z ≤ v_base x) → views_inv (<[v := x]> vs) (<[p := y']> ps).
Proof.
  intros H Hv Hy Hp Hx Hap. assert (Hno : ∀ q z, ps !! q = Some z → v ∉ p_views z).
  { intros q z Hq Hin. destruct (proj2 (vi_owner _ _ H v) ltac:(eauto)) as [? E]. congruence. }
  assert (Hin : ∀ u, u ∈ p_views y' ↔ u = v ∨ u ∈ p_views y) by (intros u; by rewrite Hp, elem_of_cons).
  assert (Hlook : ∀ q z, <[p := y']> ps !! q = Some z → q = p ∧ z = y' ∨ q ≠ p ∧ ps !! q = Some z) by (intros q z; rewrite lookup_insert; case_decide; naive_solver).
  split.
  - intros u. rewrite lookup_insert_is_Some', (vi_owner _ _ H). split.
    + intros [<-|(q & z & Hq & Hu)]; [exists p, y'; split; [apply lookup_insert_eq|apply Hin; by left]|]. destruct (decide (q = p)) as [->|Hne]; [|exists q, z; by rewrite lookup_insert_ne by done].
      exists p, y'. split; [apply lookup_insert_eq|]. apply Hin. right. congruence.
    + intros (q & z & [[-> ->]|[Hne Hq]]%Hlook & Hu); [apply Hin in Hu as [->|Hu]; [by left|right; eauto]|right; eauto].
  - intros q z [[-> ->]|[Hne Hq]]%Hlook; [|by eapply (vi_nodup _ _ H)]. rewrite Hp. constructor; [by eapply Hno|by eapply (vi_nodup _ _ H)].
  - intros q r z z' u [[-> ->]|[Hne Hq]]%Hlook [[-> ->]|[Hne' Hr]]%Hlook Hu Hu'; [done| | |by eapply (vi_unique _ _ H)].
    + apply Hin in Hu as [->|Hu]; [by destruct (Hno r z')|by eapply (vi_unique _ _ H)].
    + apply Hin in Hu' as [->|Hu']; [by destruct (Hno q z)|by eapply (vi_unique _ _ H)].
  - intros u z. rewrite lookup_insert. case_decide; [by intros [= <-]|apply H].
  - intros q z u1 u2 z1 z2 [[-> ->]|[Hne Hq]]%Hlook Hu1 Hu2 Hu12.
    + apply Hin in Hu1 as [->|Hu1], Hu2 as [->|Hu2].
      * done.
      * rewrite lookup_insert_eq, lookup_insert_ne by done. intros [= <-] Hz. by eapply Hap.
      * rewrite lookup_insert_eq, lookup_insert_ne by done. intros Hz [= <-]. apply or_comm. by eapply Hap.
      * rewrite !lookup_insert_ne; [by eapply (vi_apart _ _ H)|intros <-; by destruct (Hno p y)..].
    + rewrite !lookup_insert_ne; [by eapply (vi_apart _ _ H)|intros <-; by destruct (Hno q z)..].
Qed.

Lemma views_remove vs ps v p y y' : views_inv vs ps → ps !! p = Some y → v ∈ p_views y → p_views y' = filter (λ j, j ≠ v) (p_views y) → views_inv (delete v vs) (<[p := y']> ps).
Proof.
  intros H Hy Hv Hp. assert (Hin : ∀ u, u ∈ p_views y' ↔ u ≠ v ∧ u ∈ p_views y) by (intros u; by rewrite Hp, list_elem_of_filter).
  assert (Hlook : ∀ q z, <[p := y']> ps !! q = Some z → q = p ∧ z = y' ∨ q ≠ p ∧ ps !! q = Some z) by (intros q z; rewrite lookup_insert; case_decide; naive_solver).
  assert (Hsub : ∀ q z, <[p := y']> ps !! q = Some z → ∃ z', ps !! q = Some z' ∧ ∀ u, u ∈ p_views z → u ∈ p_views z').
  { intros q z [[-> ->]|[Hne Hq]]%Hlook; [|by exists z]. exists y. split; [done|]. by intros u [_ ?]%Hin. }
  split.
  - intros u. rewrite lookup_delete_is_Some, (vi_owner _ _ H). split.
    + intros [Hne (q & z & Hq & Hu)]. destruct (decide (q = p)) as [->|Hqp]; [|exists q, z; by rewrite lookup_insert_ne by done]. exists p, y'. split; [apply lookup_insert_eq|]. apply Hin. split; [done|congruence].
    + intros (q & z & [[-> ->]|[Hne Hq]]%Hlook & Hu); [apply Hin in Hu as [? Hu]; split; [done|eauto]|]. split; [|eauto]. intros <-. destruct Hne. by apply (vi_unique _ _ H q p z y v).
  - intros q z [[-> ->]|[Hne Hq]]%Hlook; [rewrite Hp; apply NoDup_filter|]; by eapply (vi_nodup _ _ H).
  - intros q r z z' u (x1 & Hq & H1)%Hsub (x2 & Hr & H2)%Hsub Hu Hu'. exact (vi_unique _ _ H q r x1 x2 u Hq Hr (H1 u Hu) (H2 u Hu')).
  - intros u z [_ Hz]%lookup_delete_Some. by eapply (vi_ok _ _ H).
  - intros q z u1 u2 z1 z2 (x1 & Hq & H1)%Hsub Hu1 Hu2 Hne [_ Hz1]%lookup_delete_Some [_ Hz2]%lookup_delete_Some. exact (vi_apart _ _ H q x1 u1 u2 z1 z2 Hq (H1 _ Hu1) (H1 _ Hu2) Hne Hz1 Hz2).
Qed.

Lemma refs_view_new f c h ef ec eh s v x : refs_inv (option_list f ++ ef) (option_list c ++ ec) (option_list h ++ eh) s → views s !! v = None → v < next s →
  v_fd x = f → v_committed x = c → v_shared x = h → refs_inv ef ec eh (on_views (<[v := x]>) s).
Proof.
  intros H Hv Hn Ef Ec Eh. split; try apply H; cbn.
  - intros i. change (inner_fd _ i) with (inner_fd s i). rewrite (ri_fd _ _ _ _ H), cnt_insert_new, count_option, Ef by done. lia.
  - intros i. change (inner_ranges _ i) with (inner_ranges s i). rewrite (ri_ranges _ _ _ _ H), cnt_insert_new, count_option, Ec by done. lia.
  - intros i. change (inner_shared _ i) with (inner_shared s i). rewrite (ri_shared _ _ _ _ H), cnt_insert_new, count_option, Eh by done. lia.
  - intros k Hk. destruct Hk as [Hk|[Hk|[Hk|[Hk|[->|Hk]%is_Some_insert_new]]]]; [..|done|]; apply (ri_next _ _ _ _ H); auto 6.
Qed.

Lemma drop_view ef ec eh s v x p y y' : mem_inv ef ec eh s → views s !! v = Some x → processes s !! p = Some y → v ∈ p_views y → p_views y' = filter (λ j, j ≠ v) (p_views y) →
  mem_inv (option_list (v_fd x) ++ ef) (option_list (v_committed x) ++ ec) (option_list (v_shared x) ++ eh) (change id id id (delete v) (<[p := y']>) s).
Proof.
  intros [H1 H2 H3 H4 H5] Hx Hy Hv Hp. split; try done; [|by eapply views_remove]. split; try apply H1.
  - intros i. change (inner_fd _ i) with (inner_fd s i). rewrite (ri_fd _ _ _ _ H1), count_option. cbn. unfold id. rewrite (cnt_delete v_fd _ v x i Hx). lia.
  - intros i. change (inner_ranges _ i) with (inner_ranges s i). rewrite (ri_ranges _ _ _ _ H1), count_option. cbn. unfold id. rewrite (cnt_delete v_committed _ v x i Hx). lia.
  - intros i. change (inner_shared _ i) with (inner_shared s i). rewrite (ri_shared _ _ _ _ H1), count_option. cbn. unfold id. rewrite (cnt_delete v_shared _ v x i Hx). lia.
  - intros k Hk. apply (ri_next _ _ _ _ H1). cbn in Hk. unfold id in Hk. destruct Hk as [?|[?|[?|[?|[z [_ Hz]%lookup_delete_Some]]]]]; [tauto|tauto|tauto|tauto|right; right; right; right; eauto].
Qed.

Lemma wp_list_views p y s w (Q : list Z → mem → world → Prop) : processes s !! p = Some y → Q (p_views y) s w → wp (list_views p) s w Q.
Proof. intros Hy HQ. unfold list_views. rewrite wp_bind. eapply wp_fetch; [done|]. by apply wp_ret. Qed.

(** The view goes, and its references. *)
Lemma free_memory_view_ok ef ec eh p v y s w : mem_inv ef ec eh s → processes s !! p = Some y → v ∈ p_views y →
  wp (free_memory_view p v) s w (λ _ s' _, mem_inv ef ec eh s' ∧ ∃ y', processes s' = <[p := y']> (processes s) ∧ p_views y' = filter (λ j, j ≠ v) (p_views y)).
Proof.
  intros H Hy Hv. destruct (proj2 (vi_owner _ _ (mi_views _ _ _ _ H) v) ltac:(eauto)) as [x Hx]. unfold free_memory_view. rewrite wp_bind. eapply wp_fetch; [done|].
  set (y' := Process (filter (λ j, j ≠ v) (p_views y)) (p_init_done y) (p_image y) (p_image_info y) (p_machine y)).
  apply (wp_release_then (change id id id (delete v) (<[p := y']>)) _ _ _ ef ec eh); [by eauto|by eapply drop_view|]. intros s' w' H' (_ & Ev & Ep).
  rewrite wp_bind. eapply wp_list_views; [by rewrite Ep|]. rewrite wp_bind, wp_assert. split; [by apply bool_decide_eq_true|]. unfold set_views. rewrite wp_bind, wp_bind. eapply wp_fetch; [by rewrite Ep|].
  rewrite wp_modify, wp_modify. split; [exact H'|]. exists y'. split; [|done]. cbn. by rewrite Ep.
Qed.

Lemma free_views_loop_ok ef ec eh p n : ∀ y s w, mem_inv ef ec eh s → processes s !! p = Some y → (length (p_views y) < n)%nat →
  wp (free_views_loop n p) s w (λ _ s' _, mem_inv ef ec eh s' ∧ ∃ y', processes s' !! p = Some y' ∧ p_views y' = []).
Proof.
  induction n as [|n IH]; intros y s w H Hy Hn; [lia|]. cbn [free_views_loop]. rewrite wp_bind. eapply wp_list_views; [done|]. destruct (p_views y) as [|v l] eqn:El; [apply wp_ret; eauto|].
  rewrite wp_bind. eapply wp_mono; [eapply (free_memory_view_ok ef ec eh p v y); [done|done|rewrite El; left]|]. intros [] s' w' (H' & y' & Ep & El'). eapply IH; [done|by rewrite Ep; apply lookup_insert_eq|].
  rewrite El', El, filter_cons_False by (intros Hc; by apply Hc). pose proof (length_filter (λ j, j ≠ v) l). cbn [length] in Hn. lia.
Qed.

(** *** Adding views *)

Lemma refs_processes ef ec eh s g : refs_inv ef ec eh s → refs_inv ef ec eh (on_processes g s).
Proof. by intros []. Qed.

Lemma get_view_nt_name_runs x s w (Q : option (list Z) → mem → world → Prop) : (∀ f, v_fd x = Some f → ∃ y, fds s !! f = Some y) → (∀ n, Q n s w) → wp (get_view_nt_name x) s w Q.
Proof.
  intros Hf HQ. unfold get_view_nt_name. destruct (v_name x); [|by apply wp_ret]. destruct (v_fd x) as [f|]; [|by apply wp_ret]. destruct (Hf f eq_refl) as [y Hy].
  rewrite wp_bind. eapply wp_fetch; [done|]. by apply wp_ret.
Qed.

(** A view that is complete comes into the list of its process. *)
Lemma wp_add_view f c h ef ec eh s w v x p y (Q : bool → mem → world → Prop) : mem_inv (option_list f ++ ef) (option_list c ++ ec) (option_list h ++ eh) s → views s !! v = None → v < next s →
  v_fd x = f → v_committed x = c → v_shared x = h → view_ok x → processes s !! p = Some y →
  (∀ u z, u ∈ p_views y → views s !! u = Some z → v_base x + v_size x ≤ v_base z ∨ v_base z + v_size z ≤ v_base x) →
  (∀ b y' w', mem_inv ef ec eh (on_processes (<[p := y']>) (on_views (<[v := x]>) s)) → p_views y' ≡ₚ v :: p_views y → Q b (on_processes (<[p := y']>) (on_views (<[v := x]>) s)) w') →
  wp (add_process_view p v) (on_views (<[v := x]>) s) w Q.
Proof.
  intros H Hv Hn Ef Ec Eh Hx Hy Hap HQ. pose proof H as [H1 H2 H3 H4 H5].
  assert (Hinv : ∀ y', p_views y' ≡ₚ v :: p_views y → mem_inv ef ec eh (on_processes (<[p := y']>) (on_views (<[v := x]>) s))).
  { intros y' Hp. split; try done; [by eapply refs_processes, refs_view_new|by eapply views_add]. }
  unfold add_process_view. rewrite wp_bind. eapply wp_fetch; [exact Hy|]. rewrite wp_bind. eapply wp_fetch; [apply lookup_insert_eq|]. destruct (_ && _ && _).
  - rewrite wp_bind. apply get_view_nt_name_runs.
    { intros g Eg. change (∃ y0, fds s !! g = Some y0). eapply fd_exists; [exact H1|]. right. right. right. rewrite Eg in Ef. subst f. left. }
    intros n. rewrite wp_bind. destruct n as [n|].
    + rewrite wp_bind. apply wp_mem_alloc; intros w1 _ _; apply wp_ret; rewrite wp_bind, wp_modify; apply wp_ret; (apply HQ; [apply Hinv|]); done.
    + apply wp_ret. rewrite wp_bind, wp_modify. apply wp_ret, HQ; [by apply Hinv|done].
  - assert (Hp : p_views y ++ [v] ≡ₚ v :: p_views y) by (by rewrite Permutation_app_comm). rewrite wp_bind, wp_modify. apply wp_ret, HQ; [by apply Hinv|done].
Qed.

Section Requests_ok.
Context (host_page_mask native_machine : Z).

Lemma none_overlaps_runs base size l s w (Q : bool → mem → world → Prop) : (∀ v, v ∈ l → is_Some (views s !! v)) →
  (∀ b, (b = true → ∀ v x, v ∈ l → views s !! v = Some x → overlaps base size x = false) → Q b s w) → wp (none_overlaps base size l) s w Q.
Proof.
  revert Q. induction l as [|v l IH]; intros Q Hl HQ; cbn [none_overlaps]; [apply wp_ret, HQ; by intros _ ? ? ?%not_elem_of_nil|].
  destruct (Hl v) as [x Hx]; [left|]. rewrite wp_bind. eapply wp_fetch; [done|]. destruct (overlaps base size x) eqn:E; [by apply wp_ret, HQ|].
  apply IH; [intros; apply Hl; by right|]. intros b Hb. apply HQ. intros Eb u y [->|Hu]%elem_of_cons Hy; [congruence|by eapply Hb].
Qed.

Definition address (a : Z) : Prop := 0 ≤ a < 18446744073709551616.

Lemma no_wrap a b : address a → address b → a ≤ u64 (a + b) → a + b < 18446744073709551616.
Proof. unfold address, u64. intros. Z.div_mod_to_equations. lia. Qed.

(** An address that is valid is apart from all views of the process. *)
Lemma is_valid_view_addr_runs ef ec eh p y base size s w (Q : bool → mem → world → Prop) : mem_inv ef ec eh s → processes s !! p = Some y → address base → address size →
  (∀ b, (b = true → 0 < size ∧ base + size < 18446744073709551616 ∧
    ∀ v x, v ∈ p_views y → views s !! v = Some x → base + size ≤ v_base x ∨ v_base x + v_size x ≤ base) → Q b s w) → wp (is_valid_view_addr host_page_mask p base size) s w Q.
Proof.
  intros H Hy Hb Hs HQ. unfold is_valid_view_addr. destruct (Z.eqb_spec size 0) as [|Hs0]; [by apply wp_ret, HQ|]. destruct (has base host_page_mask); [by apply wp_ret, HQ|].
  destruct (Z.ltb_spec (u64 (base + size)) base) as [|Hov]; [by apply wp_ret, HQ|].
  assert (Hsum : base + size < 18446744073709551616).
  { by apply no_wrap. }
  rewrite wp_bind. eapply wp_list_views; [done|]. apply none_overlaps_runs; [intros v Hv; apply (vi_owner _ _ (mi_views _ _ _ _ H)); eauto|]. intros b Hno. apply HQ. intros ->. unfold address in *. split; [lia|]. split; [done|].
  intros v x Hv Hx. specialize (Hno eq_refl v x Hv Hx). destruct (vi_ok _ _ (mi_views _ _ _ _ H) v x Hx) as (V1 & V2 & V3 & _). unfold overlaps in Hno. rewrite !u64_id in Hno by lia.
  destruct (Z.leb_spec (v_base x + v_size x) base); [by right|]. destruct (Z.leb_spec (base + size) (v_base x)); [by left|done].
Qed.

Lemma wp_view_fd ef ec eh f s w (Q : option Z → mem → world → Prop) : mem_inv ef ec eh s → (∃ g y, f = Some g ∧ fds s !! g = Some y) →
  (∀ o s', mem_inv (option_list o ++ ef) ec eh s' → only_fds s s' → Q o s' w) → wp (view_fd f) s w Q.
Proof.
  intros H (g & y & -> & Hy) HQ. unfold view_fd. rewrite wp_bind. eapply wp_fetch; [done|]. destruct (fd_removable y); [apply wp_ret, (HQ None); [exact H|by repeat split]|].
  rewrite wp_bind. eapply (wp_grab_fd ef ec eh); [done|done|]. intros H'. apply wp_ret, (HQ (Some g)); [exact H'|by repeat split].
Qed.

Lemma complete_fd ef ec eh s m x : mem_inv ef ec eh s → complete (mappings s) → mappings s !! m = Some x → ∃ g y, m_fd x = Some g ∧ fds s !! g = Some y.
Proof. intros H Hc Hx. destruct (Hc m x Hx) as [f Hf]. destruct (mapping_fd_exists _ _ _ _ _ _ _ H Hx Hf) as [y Hy]. eauto. Qed.

Lemma req_map_view_ok p y m base size start s w : mem_inv [] [] [] s → processes s !! p = Some y → (∀ k, m = Some k → is_Some (mappings s !! k)) → complete (mappings s) → address base → address size → address start →
  wp (req_map_view host_page_mask p m base size start) s w (λ _ s' _, mem_inv [] [] [] s').
Proof.
  intros H Hy Hm Hcm Hb Hs Hst. unfold req_map_view. rewrite wp_bind. eapply is_valid_view_addr_runs; [done..|]. intros ok Hok. destruct ok; cbn [negb]; [|by rewrite wp_set_error].
  destruct (Hok eq_refl) as (Hs0 & Hsum & Hap). destruct m as [m|]; [|by apply wp_ret]. destruct (Hm m eq_refl) as [x Hx].
  rewrite wp_bind. eapply wp_fetch; [done|]. destruct (has (m_flags x) SEC_IMAGE || _ || _ || _) eqn:Ec; [by rewrite wp_set_error|]. apply orb_false_iff in Ec as [Ec Ec4]. apply orb_false_iff in Ec as [Ec Ec3].
  assert (Hstart : start + size < 18446744073709551616).
  { apply no_wrap; [done|done|lia]. }
  rewrite wp_bind. apply wp_mem_alloc; intros w1 _ _; cbn [negb]; [|by apply wp_ret]. rewrite wp_bind. apply wp_fresh. rewrite wp_bind.
  destruct (fresh_key _ _ _ _ (mi_refs _ _ _ _ H)) as (_ & _ & _ & _ & Hv). set (s1 := set_next _ s). assert (H1 : mem_inv [] [] [] s1) by (apply mem_next; [lia|done]).
  eapply (wp_view_fd [] [] []); [exact H1|by eapply complete_fd|]. intros o s2 H2 (_ & _ & _ & Em & Ev & Ep & _ & En). rewrite wp_bind.
  assert (Hadd : ∀ s3, mem_inv (option_list o ++ []) (option_list (m_committed x) ++ []) [] s3 → views s3 = views s → processes s3 = processes s → next s3 = next s + 1 →
    wp (modify (on_views (<[next s := View o (m_committed x) None no_image (m_flags x) base size start []]>)) >> let* _ := add_process_view p (next s) in ret tt) s3 w1 (λ _ s' _, mem_inv [] [] [] s')).
  { intros s3 H3 Ev3 Ep3 En3. rewrite wp_bind, wp_modify, wp_bind. eapply (wp_add_view o (m_committed x) None [] [] []); [exact H3|by rewrite Ev3|lia|done|done|done| |by rewrite Ep3| |].
    - unfold address in *. split_and!; cbn; lia.
    - intros u z Hu Hz. rewrite Ev3 in Hz. cbn. by eapply Hap.
    - intros b y' w' H' _. by apply wp_ret. }
  unfold if_some. destruct (m_committed x) as [c|] eqn:Eco.
  - destruct (ranges_exist _ _ _ s c (mi_refs _ _ _ _ H)) as [r Hr]; [left; by eapply cnt_held|]. destruct (ranges_exist _ _ _ s2 c (mi_refs _ _ _ _ H2)) as [r2 Hr2]; [left; rewrite Em; by apply (cnt_held m_committed (mappings s1) m x c)|].
    eapply (wp_grab_ranges _ [] []); [exact H2|done|]. intros H3. apply Hadd; [exact H3|done|done|done].
  - apply wp_ret, Hadd; done.
Qed.

Lemma views_same_process vs ps p y y' : views_inv vs ps → ps !! p = Some y → p_views y' = p_views y → views_inv vs (<[p := y']> ps).
Proof.
  intros H Hp Hy. assert (Hlook : ∀ q z, <[p := y']> ps !! q = Some z → ∃ z', ps !! q = Some z' ∧ p_views z' = p_views z).
  { intros q z. rewrite lookup_insert. case_decide; [subst q; intros [= <-]; eauto|eauto]. }
  assert (Hback : ∀ q z, ps !! q = Some z → ∃ z', <[p := y']> ps !! q = Some z' ∧ p_views z' = p_views z).
  { intros q z Hq. rewrite lookup_insert. case_decide; [subst q; exists y'; split; [done|congruence]|eauto]. }
  split.
  - intros v. rewrite (vi_owner _ _ H). split; [intros (q & z & (z' & ? & E)%Hback & ?)|intros (q & z & (z' & ? & E)%Hlook & ?)]; exists q, z'; by rewrite E.
  - intros q z (z' & Hq & <-)%Hlook. by eapply (vi_nodup _ _ H).
  - intros q r z z' v (x1 & Hq & <-)%Hlook (x2 & Hr & <-)%Hlook. by eapply (vi_unique _ _ H).
  - apply H.
  - intros q z v1 v2 y1 y2 (z' & Hq & <-)%Hlook. by eapply (vi_apart _ _ H).
Qed.

Lemma wp_set_machine ef ec eh p y machine s w (Q : unit → mem → world → Prop) : mem_inv ef ec eh s → processes s !! p = Some y →
  (∀ s', mem_inv ef ec eh s' → is_Some (processes s' !! p) → Q tt s' w) → wp (set_machine p machine) s w Q.
Proof.
  intros [H1 H2 H3 H4 H5] Hy HQ. unfold set_machine. rewrite wp_bind. eapply wp_fetch; [done|]. rewrite wp_modify. apply HQ; [|cbn; rewrite lookup_insert_eq; eauto]. split; try done; [by apply refs_processes|].
  by eapply views_same_process.
Qed.

Lemma req_map_image_view_ok t p y m base size entry machine s w : mem_inv [] [] [] s → processes s !! p = Some y → (∀ k, m = Some k → is_Some (mappings s !! k)) → complete (mappings s) → address base → address size →
  wp (req_map_image_view host_page_mask native_machine t p m base size entry machine) s w (λ _ s' _, mem_inv [] [] [] s').
Proof.
  intros H Hy Hm Hcm Hb Hs. unfold req_map_image_view. rewrite wp_bind. eapply is_valid_view_addr_runs; [done..|]. intros ok Hok. destruct ok; cbn [negb]; [|by rewrite wp_set_error].
  destruct (Hok eq_refl) as (Hs0 & Hsum & Hap). destruct m as [m|]; [|by apply wp_ret]. destruct (Hm m eq_refl) as [x Hx].
  rewrite wp_bind. eapply wp_fetch; [done|]. destruct (negb _ || _); [by rewrite wp_set_error|].
  rewrite wp_bind. apply wp_mem_alloc; intros w1 _ _; cbn [negb]; [|by apply wp_ret]. rewrite wp_bind. apply wp_fresh. rewrite wp_bind.
  destruct (fresh_key _ _ _ _ (mi_refs _ _ _ _ H)) as (_ & _ & _ & _ & Hv). set (s1 := set_next _ s). assert (H1 : mem_inv [] [] [] s1) by (apply mem_next; [lia|done]).
  eapply (wp_view_fd [] [] []); [exact H1|by eapply complete_fd|]. intros o s2 H2 (_ & Esh & _ & Em & Ev & Ep & _ & En). rewrite wp_bind.
  assert (Hadd : ∀ s3 (k : bool → MM unit), mem_inv (option_list o ++ []) [] (option_list (m_shared x) ++ []) s3 → views s3 = views s → processes s3 = processes s → next s3 = next s + 1 →
    (∀ b s4 w4, mem_inv [] [] [] s4 → is_Some (processes s4 !! p) → wp (k b) s4 w4 (λ _ s' _, mem_inv [] [] [] s')) →
    wp (modify (on_views (<[next s := View o None (m_shared x) (m_image x) (m_flags x) base size 0 []]>)) >> let* main := add_process_view p (next s) in k main) s3 w1 (λ _ s' _, mem_inv [] [] [] s')).
  { intros s3 k H3 Ev3 Ep3 En3 Hk. rewrite wp_bind, wp_modify, wp_bind. eapply (wp_add_view o None (m_shared x) [] [] []); [exact H3|by rewrite Ev3|lia|done|done|done| |by rewrite Ep3| |].
    - unfold address in *. split_and!; cbn; lia.
    - intros u z Hu Hz. rewrite Ev3 in Hz. cbn. by eapply Hap.
    - intros b y' w' H' _. apply Hk; [done|]. cbn. rewrite lookup_insert_eq. eauto. }
  assert (Hend : ∀ (b : bool) s4 w4, mem_inv [] [] [] s4 → is_Some (processes s4 !! p) →
    wp ((if b then modify (set_entry t (u64 (base + entry))) >> set_machine p (if has (im_flags (m_image x)) IMAGE_FLAGS_ComPlusNativeReady then native_machine else machine) else ret tt) >>
      (if negb (base =? (if im_map_addr (m_image x) =? 0 then im_base (m_image x) else im_map_addr (m_image x))) then set_error STATUS_IMAGE_NOT_AT_BASE else ret tt) >>
      let* y := fetch processes p in
      if negb (machine =? p_machine y) && (is_machine_64bit (p_machine y) || negb (machine =? native_machine)) then set_error STATUS_IMAGE_MACHINE_TYPE_MISMATCH else ret tt) s4 w4 (λ _ s' _, mem_inv [] [] [] s')).
  { assert (Htail : ∀ s5 w5, mem_inv [] [] [] s5 → is_Some (processes s5 !! p) →
      wp ((if negb (base =? (if im_map_addr (m_image x) =? 0 then im_base (m_image x) else im_map_addr (m_image x))) then set_error STATUS_IMAGE_NOT_AT_BASE else ret tt) >>
        let* y := fetch processes p in
        if negb (machine =? p_machine y) && (is_machine_64bit (p_machine y) || negb (machine =? native_machine)) then set_error STATUS_IMAGE_MACHINE_TYPE_MISMATCH else ret tt) s5 w5 (λ _ s' _, mem_inv [] [] [] s')).
    { intros s5 w5 H5 [z Hz]. rewrite wp_bind. destruct (negb (base =? _)); [rewrite wp_set_error|apply wp_ret]; rewrite wp_bind; (eapply wp_fetch; [done|]); (destruct (_ && _); [by rewrite wp_set_error|by apply wp_ret]). }
    intros b s4 w4 H4 Hp4. rewrite wp_bind. destruct b; [|apply wp_ret; by apply Htail]. rewrite wp_bind, wp_modify. destruct Hp4 as [z Hz].
    eapply (wp_set_machine [] [] []); [|exact Hz|intros s5 H5 Hp5; by apply Htail]. destruct H4. split; try done. by destruct mi_refs0. }
  unfold if_some. destruct (m_shared x) as [c|] eqn:Eco.
  - destruct (shared_exists _ _ _ s2 c (mi_refs _ _ _ _ H2)) as [r2 Hr2]; [rewrite Em; by apply (cnt_held m_shared (mappings s1) m x c)|].
    eapply (wp_grab_shared _ [] []); [exact H2|done|]. intros H3. apply Hadd; [exact H3|done|done|done|exact Hend].
  - apply wp_ret, Hadd; [done..|exact Hend].
Qed.

Lemma req_map_builtin_view_ok t p y image s w : mem_inv [] [] [] s → processes s !! p = Some y → (∀ im name, image = Some (im, name) → address (im_base im) ∧ address (im_map_size im)) →
  wp (req_map_builtin_view host_page_mask t p image) s w (λ _ s' _, mem_inv [] [] [] s').
Proof.
  intros H Hy Him. unfold req_map_builtin_view. destruct image as [[im name]|]; [|by rewrite wp_set_error]. destruct (Him im name eq_refl) as [Hb Hs]. rewrite wp_bind. eapply is_valid_view_addr_runs; [done..|].
  intros ok Hok. destruct ok; cbn [negb]; [|by rewrite wp_set_error]. destruct (Hok eq_refl) as (Hs0 & Hsum & Hap).
  rewrite wp_bind. apply wp_mem_alloc; intros w1 _ _; cbn [negb]; [|by apply wp_ret]. rewrite wp_bind. apply wp_fresh. rewrite wp_bind, wp_modify, wp_bind.
  destruct (fresh_key _ _ _ _ (mi_refs _ _ _ _ H)) as (_ & _ & _ & _ & Hv). set (s1 := set_next _ s). assert (H1 : mem_inv [] [] [] s1) by (apply mem_next; [lia|done]).
  eapply (wp_add_view None None None [] [] []); [exact H1|exact Hv|cbn; lia|done|done|done| |exact Hy| |].
  - unfold address in *. split_and!; cbn; lia.
  - intros u z Hu Hz. cbn. by eapply Hap.
  - intros b y' w' H' _. destruct b; [|by apply wp_ret]. rewrite wp_bind, wp_modify. eapply (wp_set_machine [] [] []); [|apply lookup_insert_eq|by intros s5 H5 _]. destruct H'. split; try done. by destruct mi_refs0.
Qed.
End Requests_ok.

(** *** Committed pages and assigned addresses *)

Lemma find_view_runs ef ec eh test l s w (Q : option Z → mem → world → Prop) : mem_inv ef ec eh s → (∀ v, v ∈ l → is_Some (views s !! v)) →
  (∀ v x, v ∈ l → views s !! v = Some x → test x = true → Q (Some v) s w) → ((∀ v x, v ∈ l → views s !! v = Some x → test x = false) → Q None s w) → wp (find_view test l) s w Q.
Proof.
  intros H. induction l as [|v l IH]; intros Hl Hsome Hnone; cbn [find_view]; [apply wp_ret, Hnone; by intros ? ? ?%not_elem_of_nil|].
  destruct (Hl v) as [x Hx]; [left|]. rewrite wp_bind. eapply wp_fetch; [done|]. destruct (test x) eqn:E; [apply wp_ret; eapply Hsome; [left|done|done]|].
  apply IH; [intros; apply Hl; by right|intros u z Hu; apply Hsome; by right|]. intros Hno. apply Hnone. intros u z [->|Hu]%elem_of_cons Hz; [congruence|by eapply Hno].
Qed.

Lemma find_or_error_runs ef ec eh p y test s w (Q : option Z → mem → world → Prop) : mem_inv ef ec eh s → processes s !! p = Some y →
  (∀ v x, v ∈ p_views y → views s !! v = Some x → test x = true → Q (Some v) s w) →
  ((∀ v x, v ∈ p_views y → views s !! v = Some x → test x = false) → Q None s (World STATUS_NOT_MAPPED_VIEW (w_mem w))) → wp (find_or_error p test) s w Q.
Proof.
  intros H Hy Hsome Hnone. unfold find_or_error. rewrite wp_bind. eapply wp_list_views; [done|]. rewrite wp_bind.
  eapply find_view_runs; [done|intros v Hv; apply (vi_owner _ _ (mi_views _ _ _ _ H)); eauto| |].
  - intros v x Hv Hx Ht. apply wp_ret. by eapply Hsome.
  - intros Hno. rewrite wp_bind, wp_set_error. apply wp_ret. by apply Hnone.
Qed.

(** A list of ranges with other ranges. *)
Lemma mem_ranges_update ef ec eh s c x l n : mem_inv ef ec eh s → committed s !! c = Some x → ranges_ok l → (∀ r, r ∈ l → 0 ≤ r_start r ∧ r_end r < 18446744073709551616) → Z.of_nat (length l) ≤ n → 8 ≤ n →
  mem_inv ef ec eh (on_committed (<[c := Ranges (rs_refs x) l n]>) s).
Proof.
  intros [H1 H2 H3 H4 H5] Hx Hl Hr Hn H8. split; try done.
  - apply (refs_ranges_update ef ec ec eh s c x); [done..|cbn; by apply (ri_ranges_pos _ _ _ _ H1 c)|]. intros g. cbn. case_decide; lia.
  - intros g y. cbn. rewrite lookup_insert. case_decide; [by intros [= <-]|apply H2].
Qed.

(** Ranges of 64-bit addresses stay such if they cover only such. *)
Lemma ranges_within l l' start end_ : ranges_ok l' → (∀ r, r ∈ l → 0 ≤ r_start r ∧ r_end r < 18446744073709551616) → 0 ≤ start → end_ < 18446744073709551616 →
  (∀ x, covered l' x ↔ covered l x ∨ start ≤ x < end_) → ∀ r, r ∈ l' → 0 ≤ r_start r ∧ r_end r < 18446744073709551616.
Proof.
  intros [_ Hl'] Hl Hs He Hc r Hr. rewrite Forall_forall in Hl'. specialize (Hl' r Hr). cbn in Hl'.
  assert (Hin : ∀ x, r_start r ≤ x < r_end r → 0 ≤ x < 18446744073709551615).
  { intros x Hx. assert (covered l' x) as [(q & Hq & Hqx)|?]%Hc by (by exists r); [destruct (Hl q Hq); lia|lia]. }
  pose proof (Hin (r_start r) ltac:(lia)). pose proof (Hin (r_end r - 1) ltac:(lia)). lia.
Qed.

Lemma length_extend start end_ i r l : l !! i = Some r → (length (extend start end_ i r l) ≤ length l)%nat.
Proof.
  intros Hi. pose proof (lookup_lt_Some _ _ _ Hi). assert (Ha : ∀ l e, (length (absorb e l).2 ≤ length l)%nat).
  { clear. induction l as [|q l IH]; intros e; cbn [absorb]; [done|]. destruct (e <? r_start q); [done|]. cbn [length]. specialize (IH (if e <? r_end q then r_end q else e)). lia. }
  unfold extend. destruct (r_end r <? end_); rewrite length_app, length_take; cbn [length]; [specialize (Ha (drop (S i) l) end_)|]; rewrite ?length_drop in *; lia.
Qed.

(** The pages that are committed, as offsets into a mapping. *)
Definition committed_at (s : mem) (c : Z) (x : Z) : Prop := ∃ r, committed s !! c = Some r ∧ covered (rs_list r) x.

(** The arguments that [add_committed_range] accepts. *)
Definition good_range (x : memory_view) (start end_ : Z) : Prop := has start page_mask = false ∧ has end_ page_mask = false ∧ start < v_size x ∧ end_ ≤ v_size x ∧ start < end_.

Lemma add_committed_range_ok ef ec eh v x start end_ s w : mem_inv ef ec eh s → views s !! v = Some x → 0 ≤ start →
  wp (add_committed_range v start end_) s w (λ _ s' w', mem_inv ef ec eh s' ∧ mappings s' = mappings s ∧
    (¬ good_range x start end_ → s' = s ∧ w_error w' = STATUS_INVALID_PARAMETER) ∧
    (good_range x start end_ → w_error w' = w_error w ∧ match v_committed x with
      | None => s' = s
      | Some c => views s' = views s ∧ processes s' = processes s ∧ (∀ d, d ≠ c → committed s' !! d = committed s !! d) ∧
          ((∀ y, committed_at s' c y ↔ committed_at s c y ∨ v_start x + start ≤ y < v_start x + end_) ∨ s' = s ∧ w_mem w ≠ [])
      end)).
Proof.
  intros H Hx Hst. unfold add_committed_range. rewrite wp_bind. eapply wp_fetch; [done|]. destruct (has start page_mask || _ || _ || _ || _) eqn:Ec.
  { rewrite wp_set_error. split; [done|]. split; [done|]. split; [done|]. intros (G1 & G2 & G3 & G4 & G5). rewrite G1, G2 in Ec. cbn [orb] in Ec. lia. }
  assert (Hg : good_range x start end_).
  { repeat (apply orb_false_iff in Ec as [Ec ?]). repeat split; (done || lia). }
  destruct Hg as (G1 & G2 & G3 & G4 & G5). assert (Hng : ∀ (P : Prop), ¬ good_range x start end_ → P) by (intros P Hn; destruct Hn; by repeat split).
  destruct (v_committed x) as [c|] eqn:Eco; [|apply wp_ret; split_and!; [done|done|by apply Hng|done]].
  destruct (ranges_exist _ _ _ s c (mi_refs _ _ _ _ H)) as [r Hr]; [right; by eapply cnt_held|]. destruct (mi_committed _ _ _ _ H c r Hr) as (R1 & R2 & R3 & R4).
  destruct (vi_ok _ _ (mi_views _ _ _ _ H) v x Hx) as (V1 & V2 & V3 & V4 & V5). cbn zeta. rewrite !u64_id by lia. rewrite wp_bind. eapply wp_fetch; [done|].
  rewrite (Z.add_comm start), (Z.add_comm end_). set (a := v_start x + start). set (b := v_start x + end_). assert (Hab : 0 ≤ a < b ∧ b < 18446744073709551616) by (unfold a, b; lia).
  assert (Hpost : ∀ l n w', ranges_ok l → (∀ y, covered l y ↔ covered (rs_list r) y ∨ a ≤ y < b) → Z.of_nat (length l) ≤ n → 8 ≤ n → w_error w' = w_error w →
    let s' := on_committed (<[c := Ranges (rs_refs r) l n]>) s in mem_inv ef ec eh s' ∧ mappings s' = mappings s ∧
    (¬ good_range x start end_ → s' = s ∧ w_error w' = STATUS_INVALID_PARAMETER) ∧
    (good_range x start end_ → w_error w' = w_error w ∧ views s' = views s ∧ processes s' = processes s ∧ (∀ d, d ≠ c → committed s' !! d = committed s !! d) ∧
      ((∀ y, committed_at s' c y ↔ committed_at s c y ∨ a ≤ y < b) ∨ s' = s ∧ w_mem w ≠ []))).
  { intros l n w' Hl Hcov Hn H8 Hw s'. split; [apply mem_ranges_update; try done; eapply ranges_within; [done|exact R2| | |exact Hcov]; lia|]. split; [done|]. split; [apply Hng|]. intros _. split; [done|].
    split; [done|]. split; [done|]. split; [intros d Hd; cbn; by rewrite lookup_insert_ne by done|]. left. intros y. unfold committed_at. cbn. rewrite lookup_insert_eq.
    split; [intros (q & [= <-] & Hq); apply Hcov in Hq as [?|?]; [left; eauto|by right]|]. intros Hq. eexists. split; [done|]. apply Hcov. destruct Hq as [(q & Hq & ?)|?]; [left; by simplify_eq|by right]. }
  destruct (find_meeting a b 0 (rs_list r)) as [i meets] eqn:Ef. destruct meets.
  - pose proof (find_meeting_spec a b (rs_list r) 0) as Hf. rewrite Ef in Hf. destruct Hf as (k & -> & _ & _ & q & Hq & _). cbn [Nat.add] in *. rewrite Hq, wp_modify. destruct (extend_spec a b (rs_list r) R1 ltac:(lia) _ q Ef Hq) as [E1 E2].
    pose proof (length_extend a b _ q (rs_list r) Hq). apply Hpost; [done|done|lia|done|done].
  - destruct (insert_range_spec a b (rs_list r) R1 ltac:(lia) i Ef) as [E1 E2]. assert (El : length (insert_range i (Range a b) (rs_list r)) = S (length (rs_list r))).
    { unfold insert_range. rewrite length_app, length_take. cbn [length]. rewrite length_drop. pose proof (find_meeting_spec a b (rs_list r) 0) as Hf. rewrite Ef in Hf. destruct Hf as (k & -> & Hk & _). lia. }
    rewrite wp_bind. destruct (Z.eqb_spec (Z.of_nat (length (rs_list r))) (rs_max r)) as [Em|Em].
    + rewrite wp_bind. apply wp_malloc. intros ok w1 Hw1 Hm1. destruct ok; apply wp_ret.
      * rewrite wp_modify. apply Hpost; [done|done|lia|lia|done].
      * apply wp_ret. split; [done|]. split; [done|]. split; [apply Hng|]. intros _. split; [done|]. split; [done|]. split; [done|]. split; [done|]. right. split; [done|]. intros E. by destruct (Hm1 E).
    + apply wp_ret. rewrite wp_modify. apply Hpost; [done|done|lia|done|done].
Qed.

Lemma find_committed_range_ok ef ec eh v x start s w : mem_inv ef ec eh s → views s !! v = Some x → 0 ≤ start →
  wp (find_committed_range v start) s w (λ r s' w', s' = s ∧
    if has start page_mask || (v_size x <=? start) then r = (false, None) ∧ w_error w' = STATUS_INVALID_PARAMETER else
    w' = w ∧ match v_committed x with
    | None => r = (true, Some (v_size x - start))
    | Some c => ∃ n, r.2 = Some n ∧ 0 < n ≤ v_size x - start ∧ (∀ y, v_start x + start ≤ y < v_start x + start + n → committed_at s c y ↔ r.1 = true) ∧
        (n = v_size x - start ∨ ¬ (committed_at s c (v_start x + start + n) ↔ r.1 = true))
    end).
Proof.
  intros H Hx Hst. unfold find_committed_range. rewrite wp_bind. eapply wp_fetch; [done|]. destruct (has start page_mask || (v_size x <=? start)) eqn:Ec.
  { rewrite wp_bind, wp_set_error. by apply wp_ret. }
  apply orb_false_iff in Ec as [_ Ec]. destruct (v_committed x) as [c|] eqn:Eco; [|by apply wp_ret]. destruct (ranges_exist _ _ _ s c (mi_refs _ _ _ _ H)) as [r Hr]; [right; by eapply cnt_held|].
  destruct (mi_committed _ _ _ _ H c r Hr) as (R1 & R2 & R3 & R4). destruct (vi_ok _ _ (mi_views _ _ _ _ H) v x Hx) as (V1 & V2 & V3 & V4 & V5).
  rewrite wp_bind. eapply wp_fetch; [done|]. cbn zeta. rewrite !u64_id by lia. apply wp_ret. split; [done|]. split; [done|].
  pose proof (find_range_spec (v_start x + start) (v_start x + v_size x) (rs_list r) R1 ltac:(lia)) as Hf. destruct (find_range (v_start x + start) (v_start x + v_size x) (rs_list r)) as [b n]. cbn [fst snd].
  destruct Hf as (F1 & F2 & F3 & F4). exists n. split; [done|]. split; [lia|]. assert (Hcov : ∀ y, committed_at s c y ↔ covered (rs_list r) y) by (intros y; unfold committed_at; rewrite Hr; naive_solver).
  split; [intros y Hy; rewrite Hcov; by apply F3|]. rewrite Hcov. destruct F4; [left; lia|by right].
Qed.

Lemma is_high_bounds h a : (bounds h).1 ≤ a < (bounds h).2 → is_high a = h.
Proof.
  unfold is_high. rewrite Z.shiftr_div_pow2 by lia. change (2 ^ 32) with 4294967296. destruct h; cbn; intros Ha.
  - destruct (Z.eqb_spec (a / 4294967296) 0) as [E|]; [|done]. exfalso. Z.div_mod_to_equations. lia.
  - by rewrite Z.div_small by lia.
Qed.

(** An area is taken for an fd object that has none. *)
Lemma areas_taken m r32 r64 f (x y : fd) (h : bool) (a : Z) (l : list block) (n : Z) : areas_inv m r32 r64 → m !! f = Some x → map_addr x = 0 → taken (ar_free (if h then r64 else r32)) l a (a + n) → 0 < n → n = map_size y → a = map_addr y →
  let r := AddrRange l (ar_size (if h then r64 else r32)) in (length l ≤ length (ar_free (if h then r64 else r32)))%nat → areas_inv (<[f := y]> m) (if h then r32 else r) (if h then r else r64) ∧ a ≠ 0.
Proof.
  intros H Hx Hx0 Ht Hn En Ea r Hlen. destruct (ai_ok _ _ _ H h) as (O1 & O2 & O3). destruct (taken_inside _ _ _ _ _ _ Ht ltac:(lia) O2) as [Hlo Hhi].
  assert (Hb : 1 ≤ (bounds h).1) by (by destruct h). assert (Hh : is_high a = h) by (apply is_high_bounds; lia). split; [|lia].
  assert (Hold : ∀ g lo hi, area (<[f := y]> m) g lo hi → g = f ∧ lo = a ∧ hi = a + n ∨ g ≠ f ∧ area m g lo hi) by (intros g lo hi [(? & ? & ? & ?)|?]%area_insert; [left; split_and!; congruence|by right]).
  assert (Hdis : ∀ g lo hi, area m g lo hi → hi ≤ a ∨ a + n ≤ lo).
  { intros g lo hi Hg. destruct (ai_area _ _ _ H _ _ _ Hg) as (A1 & A2 & A3 & A4). destruct (decide (is_high lo = h)) as [E|E].
    - rewrite E in A4. by apply (tk_others _ _ _ _ Ht lo hi).
    - destruct h, (is_high lo); try done; cbn in *; lia. }
  split.
  - intros high. destruct (decide (high = h)) as [->|Hne].
    + assert (Hr : blocks_ok l ∧ within (bounds h).1 (bounds h).2 l) by (split; [apply Ht|by eapply taken_within]). destruct h; cbn in *; (split; [tauto|]; split; [tauto|lia]).
    + pose proof (ai_ok _ _ _ H high) as Ho. destruct h, high; done.
  - intros g lo hi [(-> & -> & ->)|[Hne Hg]]%Hold.
    + rewrite Hh. split_and!; [lia|lia|lia|]. pose proof (tk_clear _ _ _ _ Ht). by destruct h.
    + destruct (ai_area _ _ _ H _ _ _ Hg) as (A1 & A2 & A3 & A4). split_and!; try done. destruct (decide (is_high lo = h)) as [E|E].
      * rewrite E in *. pose proof (proj1 (tk_others _ _ _ _ Ht lo hi A1 A4)). by destruct h.
      * destruct h, (is_high lo); done.
  - intros g g' lo hi lo' hi' Hgg [(-> & -> & ->)|[Hne Hg]]%Hold [(-> & -> & ->)|[Hne' Hg']]%Hold.
    + done.
    + apply or_comm. by eapply Hdis.
    + by eapply Hdis.
    + exact (ai_disjoint _ _ _ H g g' lo hi lo' hi' Hgg Hg Hg').
Qed.

Lemma length_take_block size l : match take_block size l with Some (_, l') => length l' = length l | None => True end.
Proof. induction l as [|b l IH]; cbn [take_block]; [done|]. destruct (b_size b <? size); [|done]. destruct (take_block size l) as [[a l']|]; [cbn; lia|done]. Qed.

Lemma round_size_bounds z : 0 ≤ z < 4294967296 → 0 ≤ round_size z granularity_mask < 4295098368.
Proof.
  intros Hz. unfold round_size, granularity_mask. rewrite u64_id by lia. change 0xffff with (Z.ones 16). rewrite Z.ldiff_ones_r, Z.shiftl_mul_pow2, Z.shiftr_div_pow2 by lia. change (Z.ones 16) with 65535. change (2 ^ 16) with 65536.
  Z.div_mod_to_equations. lia.
Qed.

Lemma assign_map_address_ok ef ec eh m x f s w : mem_inv ef ec eh s → mappings s !! m = Some x → m_fd x = Some f → has (im_flags (m_image x)) IMAGE_FLAGS_ImageDynamicallyRelocated = true →
  wp (assign_map_address m) s w (λ a s' _, mem_inv ef ec eh s' ∧ mappings s' = mappings s ∧ (a = 0 ∨ ∃ y, fds s' !! f = Some y ∧ map_addr y = a ∧ map_addr y ≠ 0)).
Proof.
  intros H Hx Hf Hd. unfold assign_map_address. rewrite wp_bind. eapply wp_fetch; [done|]. cbn zeta. destruct (negb (has (im_charact _) _)); [apply wp_ret; auto|]. rewrite Hf.
  destruct (mapping_fd_exists _ _ _ _ _ _ _ H Hx Hf) as [y Hy]. rewrite wp_bind. eapply wp_fetch; [done|]. destruct (Z.eqb_spec (map_addr y) 0) as [E0|E0]; cbn [negb]; [|apply wp_ret; split; [done|]; split; [done|right; eauto]].
  rewrite wp_bind, wp_get. pose proof H as [H1 H2 H3 H4 H5]. destruct (H4 m x Hx) as [_ Hsize]. specialize (Hsize Hd). pose proof (round_size_bounds _ Hsize) as Hrs. assert (En : u64 (round_size (m_size x) granularity_mask + (granularity_mask + 1)) = round_size (m_size x) granularity_mask + 65536) by (change (granularity_mask + 1) with 65536; apply u64_id; lia). rewrite !En.
  set (h := is_high (im_base (m_image x))). set (n := round_size (m_size x) granularity_mask + 65536). destruct (ai_ok _ _ _ H3 h) as (O1 & O2 & O3).
  assert (Er : ranges_of h s = if h then ranges64 s else ranges32 s) by done. rewrite Er. pose proof (take_block_spec n _ O1 ltac:(unfold n; lia)) as Ht. pose proof (length_take_block n (ar_free (if h then ranges64 s else ranges32 s))) as Hlen.
  destruct (take_block n (ar_free (if h then ranges64 s else ranges32 s))) as [[a l]|]; [|apply wp_ret; auto]. rewrite wp_bind, wp_modify, wp_bind, wp_modify. apply wp_ret.
  set (y' := FdObj (fd_refs y) (fd_outside y) a n (fd_inode y) (fd_removable y) (nt_name y)).
  destruct (areas_taken _ _ _ f y y' h a l n H3 Hy E0 Ht ltac:(unfold n; lia) eq_refl eq_refl ltac:(lia)) as [Ha Hne]. split; [split; try done|].
  - destruct (ri_fd_pos _ _ _ _ H1 f y Hy) as [Hout Hrefs]. pose proof (refs_fd_update ef ef ec eh s f y y' H1 Hy Hout Hrefs) as Hr. assert (Hr' : refs_inv ef ec eh (on_fds (<[f := y']>) s)) by (apply Hr; intros g; cbn; case_decide; lia).
    destruct Hr'. by split.
  - eapply images_same; [|exact H4]. intros g z Hz Hzn _. exists z. split; [|done]. cbn. rewrite lookup_insert_ne; [done|]. intros <-. congruence.
  - split; [done|]. right. exists y'. split; [apply lookup_insert_eq|done].
Qed.

(** What is taken can be given back. *)
Lemma taken_bounds m r32 r64 (h : bool) (l : list block) (a n : Z) : areas_inv m r32 r64 → 0 < n → taken (ar_free (if h then r64 else r32)) l a (a + n) → 0 < a ∧ a + n < 18446744073709551616 ∧ is_high a = h.
Proof.
  intros H Hn Ht. destruct (ai_ok _ _ _ H h) as (_ & O2 & _). destruct (taken_inside _ _ _ _ _ _ Ht ltac:(lia) O2) as [Hlo Hhi]. split_and!; [by destruct h; cbn in *; lia..|]. apply is_high_bounds. lia.
Qed.

Lemma req_get_image_map_address_ok ef ec eh m s w : mem_inv ef ec eh s → complete (mappings s) → is_Some (mappings s !! m) →
  wp (req_get_image_map_address m) s w (λ _ s' _, mem_inv ef ec eh s' ∧ complete (mappings s')).
Proof.
  intros H Hc [x Hx]. unfold req_get_image_map_address. rewrite wp_bind. eapply wp_fetch; [done|]. destruct (has (m_flags x) SEC_IMAGE && has (im_flags (m_image x)) IMAGE_FLAGS_ImageDynamicallyRelocated) eqn:Ed.
  2: { rewrite wp_bind, wp_set_error. by apply wp_ret. }
  apply andb_true_iff in Ed as [_ Ed]. destruct (Hc m x Hx) as [f Hf]. rewrite wp_bind. destruct (im_map_addr (m_image x) =? 0); [|apply wp_ret; rewrite wp_bind; eapply wp_fetch; [done|]; by apply wp_ret].
  rewrite wp_bind. eapply wp_mono; [by apply (assign_map_address_ok ef ec eh m x f)|]. intros a s1 w1 (H1 & Em & Ha). eapply wp_set_mapping_image; [by rewrite Em|]. rewrite wp_bind. eapply wp_fetch; [apply lookup_insert_eq|]. apply wp_ret. split.
  - eapply (mem_mapping_update ef ec eh ef ec eh s1 m x); [done|by rewrite Em| |done|done|done]. split; cbn.
    + destruct Ha as [->|(y & Hy & Ea & _)]; [by left|right]. by exists f, y.
    + apply (mi_images _ _ _ _ H m x Hx).
  - intros k y. cbn. rewrite Em, lookup_insert. case_decide; [intros [= <-]; by exists f|apply Hc].
Qed.

(** *** All requests *)

Section Keeps.
(** Computations that leave the mappings alone. *)
Definition keeps {A} (m : MM A) : Prop := ∀ s w a s' w', m s w = Some (a, s', w') → mappings s' = mappings s.

Lemma keeps_ret {A} (a : A) : keeps (ret a).
Proof. by intros s w b s' w' [= <- <- <-]. Qed.

Lemma keeps_crash {A} : keeps (crash : MM A).
Proof. done. Qed.

Lemma keeps_bind {A B} (m : MM A) (k : A → MM B) : keeps m → (∀ a, keeps (k a)) → keeps (bind m k).
Proof. intros Hm Hk s w a s' w'. unfold bind. destruct (m s w) as [[[b s1] w1]|] eqn:E; [|done]. intros E'. rewrite (Hk b _ _ _ _ _ E'). by eapply Hm. Qed.

Lemma keeps_get : keeps get.
Proof. by intros s w b s' w' [= <- <- <-]. Qed.

Lemma keeps_modify f : (∀ s, mappings (f s) = mappings s) → keeps (modify f).
Proof. intros Hf s w b s' w' [= <- <- <-]. apply Hf. Qed.

Lemma keeps_set_error e : keeps (set_error e).
Proof. by intros s w b s' w' [= <- <- <-]. Qed.

Lemma keeps_malloc : keeps malloc.
Proof. intros s w b s' w'. unfold malloc. destruct (w_mem w); by intros [= <- <- <-]. Qed.

Lemma keeps_assert b : keeps (c_assert b).
Proof. destruct b; [apply keeps_ret|apply keeps_crash]. Qed.

Lemma keeps_fetch {A} (g : mem → gmap Z A) i : keeps (fetch g i).
Proof. unfold fetch. apply keeps_bind; [apply keeps_get|intros s]. destruct (g s !! i); [apply keeps_ret|apply keeps_crash]. Qed.

Lemma wp_keeps_mappings {A} (m : MM A) s w (Q : A → mem → world → Prop) : keeps m → wp m s w Q → wp m s w (λ a s' w', Q a s' w' ∧ mappings s' = mappings s).
Proof. intros Hm. unfold wp. destruct (m s w) as [[[a s'] w']|] eqn:E; [|done]. intros HQ. split; [done|by eapply Hm]. Qed.
End Keeps.

Ltac keep := repeat match goal with
  | |- keeps (ret _) => apply keeps_ret
  | |- keeps crash => apply keeps_crash
  | |- keeps get => apply keeps_get
  | |- keeps (modify _) => apply keeps_modify; intros ?; done
  | |- keeps (set_error _) => apply keeps_set_error
  | |- keeps malloc => apply keeps_malloc
  | |- keeps (c_assert _) => apply keeps_assert
  | |- keeps (fetch _ _) => apply keeps_fetch
  | |- keeps (bind _ _) => apply keeps_bind; [|intros ?]
  | |- keeps (if ?b then _ else _) => destruct b
  | |- keeps (match ?o with Some _ => _ | None => _ end) => destruct o
  | |- keeps (match ?l with [] => _ | _ :: _ => _ end) => destruct l
  | |- keeps (let '_ := ?p in _) => destruct p
  | |- keeps (let _ := _ in _) => cbv zeta
  | H : keeps ?m |- keeps ?m => exact H
  end.

Lemma keeps_release_fd f : keeps (release_fd f).
Proof. unfold release_fd, free_map_addr. keep. Qed.

Lemma keeps_free_memory_view p v : keeps (free_memory_view p v).
Proof.
  unfold free_memory_view, if_some, list_views, set_views, release_ranges, release_shared, shared_map_destroy. keep; apply keeps_release_fd.
Qed.

Lemma keeps_free_mapped_views p : keeps (free_mapped_views p).
Proof.
  unfold free_mapped_views, list_views. keep. match goal with |- keeps (free_views_loop ?n p) => generalize n end. intros n.
  induction n as [|n IH]; cbn [free_views_loop]; unfold list_views; keep. apply keeps_free_memory_view.
Qed.

Lemma keeps_valid mask p base size : keeps (is_valid_view_addr mask p base size).
Proof. unfold is_valid_view_addr, list_views. keep. match goal with |- keeps (none_overlaps _ _ ?l) => induction l; cbn [none_overlaps]; keep end. Qed.

Lemma keeps_add_process_view p v : keeps (add_process_view p v).
Proof. unfold add_process_view, get_view_nt_name, mem_alloc. keep. Qed.

Lemma keeps_view_fd f : keeps (view_fd f).
Proof. unfold view_fd, grab_fd. keep. Qed.

Lemma keeps_find_view test l : keeps (find_view test l).
Proof. induction l as [|v l IH]; cbn [find_view]; keep. Qed.

Lemma keeps_find p test : keeps (find_or_error p test).
Proof. unfold find_or_error, list_views. keep. apply keeps_find_view. Qed.

Lemma keeps_add_committed v start end_ : keeps (add_committed_range v start end_).
Proof. unfold add_committed_range. keep. Qed.

Lemma keeps_find_committed v start : keeps (find_committed_range v start).
Proof. unfold find_committed_range. keep. Qed.

Section Handlers.
Context (host_page_mask native_machine : Z).

Lemma keeps_map_view p m base size start : keeps (req_map_view host_page_mask p m base size start).
Proof. unfold req_map_view, mem_alloc, fresh, if_some, grab_ranges. keep; first [apply keeps_valid|apply keeps_view_fd|apply keeps_add_process_view]. Qed.

Lemma keeps_map_image_view t p m base size entry machine : keeps (req_map_image_view host_page_mask native_machine t p m base size entry machine).
Proof. unfold req_map_image_view, mem_alloc, fresh, if_some, grab_shared, set_machine. keep; first [apply keeps_valid|apply keeps_view_fd|apply keeps_add_process_view]. Qed.

Lemma keeps_map_builtin_view t p image : keeps (req_map_builtin_view host_page_mask t p image).
Proof. unfold req_map_builtin_view, mem_alloc, fresh, set_machine. destruct image as [[im name]|]; keep; first [apply keeps_valid|apply keeps_add_process_view]. Qed.
End Handlers.

(** *** Requests about views *)

Lemma req_unmap_view_ok p y base s w : mem_inv [] [] [] s → processes s !! p = Some y → wp (req_unmap_view p base) s w (λ _ s' _, mem_inv [] [] [] s').
Proof.
  intros H Hy. unfold req_unmap_view, find_mapped_view. rewrite wp_bind. eapply find_or_error_runs; [done|done| |intros _; by apply wp_ret].
  intros v x Hv _ _. eapply wp_mono; [by eapply free_memory_view_ok|]. by intros [] s' w' [? _].
Qed.

Lemma req_add_committed_ok p y base offset size s w : mem_inv [] [] [] s → processes s !! p = Some y → 0 ≤ offset →
  wp (req_add_mapping_committed_range p base offset size) s w (λ _ s' _, mem_inv [] [] [] s').
Proof.
  intros H Hy Ho. unfold req_add_mapping_committed_range, find_mapped_view. rewrite wp_bind. eapply find_or_error_runs; [done|done| |intros _; by apply wp_ret].
  intros v x Hv Hx _. eapply wp_mono; [by eapply add_committed_range_ok|]. by intros [] s' w' [? _].
Qed.

Lemma req_get_committed_ok p y base offset s w : mem_inv [] [] [] s → processes s !! p = Some y → 0 ≤ offset →
  wp (req_get_mapping_committed_range p base offset) s w (λ _ s' _, s' = s).
Proof.
  intros H Hy Ho. unfold req_get_mapping_committed_range, find_mapped_view. rewrite wp_bind. eapply find_or_error_runs; [done|done| |intros _; by apply wp_ret].
  intros v x Hv Hx _. rewrite wp_bind. eapply wp_mono; [by eapply find_committed_range_ok|]. intros r s' w' [-> _]. by apply wp_ret.
Qed.

Lemma req_view_info_ok p y addr s w : mem_inv [] [] [] s → processes s !! p = Some y → wp (req_get_image_view_info p addr) s w (λ _ s' _, s' = s).
Proof.
  intros H Hy. unfold req_get_image_view_info, find_mapped_addr. rewrite wp_bind. eapply find_or_error_runs; [done|done| |intros _; by apply wp_ret].
  intros v x Hv Hx _. rewrite wp_bind. eapply wp_fetch; [done|]. by apply wp_ret.
Qed.

Lemma req_is_same_mapping_ok p y base1 base2 s w : mem_inv [] [] [] s → processes s !! p = Some y → wp (req_is_same_mapping p base1 base2) s w (λ _ s' _, s' = s).
Proof.
  intros H Hy. unfold req_is_same_mapping, find_mapped_view. rewrite wp_bind.
  assert (Hnext : ∀ o, (∀ v, o = Some v → is_Some (views s !! v)) → ∀ o' w2, (∀ v, o' = Some v → is_Some (views s !! v)) →
    wp (match o, o' with
        | Some v1, Some v2 =>
            let* x := fetch views v1 in
            let* y := fetch views v2 in
            match v_fd x, v_fd y with
            | Some f, Some g =>
                if negb (has (v_flags x) SEC_IMAGE) then set_error STATUS_NOT_SAME_DEVICE else
                let* same := is_same_file_fd f g in
                if same then ret tt else set_error STATUS_NOT_SAME_DEVICE
            | _, _ => set_error STATUS_NOT_SAME_DEVICE
            end
        | _, _ => ret tt
        end) s w2 (λ _ s' _, s' = s)).
  { intros o Ho o' w2 Ho'. destruct o as [v1|]; [|by apply wp_ret]. destruct o' as [v2|]; [|by apply wp_ret]. destruct (Ho v1 eq_refl) as [x Hx]. destruct (Ho' v2 eq_refl) as [z Hz].
    rewrite wp_bind. eapply wp_fetch; [done|]. rewrite wp_bind. eapply wp_fetch; [done|]. destruct (v_fd x) as [f|] eqn:Ef; [|by rewrite wp_set_error]. destruct (v_fd z) as [g|] eqn:Eg; [|by rewrite wp_set_error].
    destruct (negb _); [by rewrite wp_set_error|]. destruct (view_fd_exists _ _ _ _ _ _ _ H Hx Ef) as [a Ha]. destruct (view_fd_exists _ _ _ _ _ _ _ H Hz Eg) as [b Hb].
    rewrite wp_bind. eapply same_file_runs; [done|done|]. destruct (fd_inode a =? fd_inode b); [by apply wp_ret|by rewrite wp_set_error]. }
  eapply find_or_error_runs; [done|done| |].
  - intros v x Hv Hx _. rewrite wp_bind. eapply find_or_error_runs; [done|done| |].
    + intros u z Hu Hz _. apply (Hnext (Some v) ltac:(intros ? [= <-]; eauto) (Some u)). intros ? [= <-]. eauto.
    + intros _. by apply (Hnext (Some v) ltac:(intros ? [= <-]; eauto) None).
  - intros _. rewrite wp_bind. eapply find_or_error_runs; [done|done| |]; intros; by apply wp_ret.
Qed.

(** *** Requests about files and processes *)

Lemma req_close_file_ok f x s w : mem_inv [] [] [] s → fds s !! f = Some x → 0 < fd_outside x → wp (req_close_file f) s w (λ _ s' _, mem_inv [] [] [] s' ∧ mappings s' = mappings s).
Proof.
  intros H Hx Ho. unfold req_close_file. rewrite wp_bind. eapply wp_fetch; [done|]. rewrite wp_bind, wp_modify. set (y := FdObj _ _ _ _ _ _ _).
  assert (H1 : mem_inv [f] [] [] (on_fds (<[f := y]>) s)).
  { pose proof H as [H1 H2 H3 H4 H5]. destruct (ri_fd_pos _ _ _ _ H1 f x Hx). split; cbn; try done.
    - apply (refs_fd_update [] [f] [] [] s f x); [done..|cbn; lia|done|]. intros g. rewrite count_cons. cbn. case_decide; lia.
    - by eapply areas_update.
    - by eapply images_update. }
  eapply wp_mono; [by apply (release_fd_ok [] [] [])|]. intros [] s' w' [H' (_ & _ & _ & Em & _)]. split; [done|]. by rewrite Em.
Qed.

Lemma views_new_process vs ps p y : views_inv vs ps → ps !! p = None → p_views y = [] → views_inv vs (<[p := y]> ps).
Proof.
  intros H Hp Hy. assert (Hlook : ∀ q z v, <[p := y]> ps !! q = Some z → v ∈ p_views z → ps !! q = Some z).
  { intros q z v. rewrite lookup_insert. case_decide; [|done]. intros [= <-]. rewrite Hy. by intros ?%not_elem_of_nil. }
  split.
  - intros v. rewrite (vi_owner _ _ H). split.
    + intros (q & z & Hq & Hv). exists q, z. split; [|done]. rewrite lookup_insert_ne by congruence. done.
    + intros (q & z & Hq & Hv). exists q, z. split; [by eapply Hlook|done].
  - intros q z. rewrite lookup_insert. case_decide; [intros [= <-]; rewrite Hy; constructor|by eapply (vi_nodup _ _ H)].
  - intros q r z z' v Hq Hr Hv Hv'. eapply (vi_unique _ _ H); [by eapply Hlook|by eapply Hlook|done|done].
  - apply H.
  - intros q z v1 v2 y1 y2 Hq Hv1. eapply (vi_apart _ _ H); [by eapply Hlook|done].
Qed.

(** A view is found by its base. *)
Lemma find_at_base p y v x s w (Q : option Z → mem → world → Prop) : mem_inv [] [] [] s → processes s !! p = Some y → v ∈ p_views y → views s !! v = Some x → Q (Some v) s w → wp (find_mapped_view p (v_base x)) s w Q.
Proof.
  intros H Hy Hv Hx HQ. eapply find_or_error_runs; [done|done| |].
  - intros u z Hu Hz Eb%Z.eqb_eq. destruct (decide (u = v)) as [->|Hne]; [done|]. destruct (vi_ok _ _ (mi_views _ _ _ _ H) v x Hx) as (? & _). destruct (vi_ok _ _ (mi_views _ _ _ _ H) u z Hz) as (? & _).
    destruct (vi_apart _ _ (mi_views _ _ _ _ H) p y u v z x Hy Hu Hv Hne Hz Hx); lia.
  - intros Hno. specialize (Hno v x Hv Hx). apply Z.eqb_neq in Hno. done.
Qed.

Section Requests_safe.
Context (host_page_mask native_machine : Z).

(** The requests that the server gets as far as here: objects exist that handles or threads
    refer to, files are closed that were opened, addresses have 64 bits. Excluded is the
    creation of a permanent mapping that fails: what it leaves behind has no file, and mapping
    a view of it is a fault ([unfinished_mapping_crashes]). *)
Definition allowed (s : mem) (w : world) (r : request) : Prop :=
  match r with
  | OpenFile _ _ _ => True
  | CloseFile f => ∃ x, fds s !! f = Some x ∧ 0 < fd_outside x
  | CreateMapping size flags file write permanent a => answers_ok s a ∧ (permanent = true → ∀ s' w', create_mapping size flags file write true a s w ≠ Some (None, s', w'))
  | DestroyMapping m | GetImageMapAddress m => is_Some (mappings s !! m)
  | MapView p m base size start => is_Some (processes s !! p) ∧ (∀ k, m = Some k → is_Some (mappings s !! k)) ∧ address base ∧ address size ∧ address start
  | MapImageView _ p m base size _ _ => is_Some (processes s !! p) ∧ (∀ k, m = Some k → is_Some (mappings s !! k)) ∧ address base ∧ address size
  | MapBuiltinView _ p image => is_Some (processes s !! p) ∧ ∀ im name, image = Some (im, name) → address (im_base im) ∧ address (im_map_size im)
  | UnmapView p _ | ExitProcess p | InitDone p | ViewInfo p _ | SameMapping p _ _ => is_Some (processes s !! p)
  | NewProcess p _ => processes s !! p = None
  | AddCommitted p _ offset _ | GetCommitted p _ offset => is_Some (processes s !! p) ∧ 0 ≤ offset
  end.

(** Between requests, and every mapping that is finished has a file. *)
Definition mem_ok (s : mem) : Prop := mem_inv [] [] [] s ∧ complete (mappings s).

Lemma mem_ok_kept (m : MM unit) s w : complete (mappings s) → keeps m → wp m s w (λ _ s' _, mem_inv [] [] [] s') → wp m s w (λ _ s' _, mem_ok s').
Proof. intros Hc Hk H. eapply wp_mono; [by apply wp_keeps_mappings|]. intros [] s' w' [H' E]. split; [done|by rewrite E]. Qed.

Lemma mem_ok_same {A} (m : MM A) s w : mem_ok s → wp m s w (λ _ s' _, s' = s) → wp (let* _ := m in ret tt) s w (λ _ s' _, mem_ok s').
Proof. intros Hs H. rewrite wp_bind. eapply wp_mono; [done|]. intros a s' w' ->. by apply wp_ret. Qed.

Lemma mem_ok_processes s g : mem_ok s → views_inv (views s) (g (processes s)) → mem_ok (on_processes g s).
Proof. intros [[H1 H2 H3 H4 H5] Hc] Hv. split; [|done]. split; try done. by apply refs_processes. Qed.

Lemma memory_request_ok r s w : mem_ok s → allowed s w r → wp (run_request host_page_mask native_machine r) s w (λ _ s' _, mem_ok s').
Proof.
  intros Hs Ha. pose proof Hs as [H Hc]. destruct r as [inode removable name|f|size flags file write permanent a|m|m|p m base size start|t p m base size entry machine|t p image|p base|p|p machine|p|p base offset size|p base offset|p addr|p base1 base2]; cbn [run_request allowed] in *.
  - rewrite wp_bind. unfold req_open_file. rewrite wp_bind. apply wp_fresh. rewrite wp_bind, wp_modify. apply wp_ret, wp_ret. split; [|done].
    eapply mem_new_fd; [done|done|cbn; lia|cbn; lia|done|]. intros g. cbn. case_decide; lia.
  - destruct Ha as (x & Hx & Ho). eapply wp_mono; [by eapply req_close_file_ok|]. intros [] s' w' [H' E]. split; [done|by rewrite E].
  - destruct Ha as [Ha Hp]. rewrite wp_bind. destruct permanent.
    + eapply wp_mono; [by apply (create_permanent_ok [] [] []); [..|by apply Hp]|]. intros o s' w' H'. by apply wp_ret.
    + eapply wp_mono; [by apply (create_mapping_ok [] [] [])|]. intros o s' w' H'. by apply wp_ret.
  - eapply wp_mono; [by apply (mapping_destroy_ok [] [] [])|]. intros [] s' w' [H' E]. split; [done|]. rewrite E. intros k x [_ Hk]%lookup_delete_Some. by eapply Hc.
  - rewrite wp_bind. eapply wp_mono; [by apply (req_get_image_map_address_ok [] [] [])|]. intros o s' w' H'. by apply wp_ret.
  - destruct Ha as ([y Hy] & ? & ? & ? & ?). apply mem_ok_kept; [done|apply keeps_map_view|by eapply req_map_view_ok].
  - destruct Ha as ([y Hy] & ? & ? & ?). apply mem_ok_kept; [done|apply keeps_map_image_view|by eapply req_map_image_view_ok].
  - destruct Ha as ([y Hy] & ?). apply mem_ok_kept; [done|apply keeps_map_builtin_view|by eapply req_map_builtin_view_ok].
  - destruct Ha as [y Hy]. apply mem_ok_kept; [done| |by eapply req_unmap_view_ok].
    unfold req_unmap_view, find_mapped_view, if_some. keep; [apply keeps_find|apply keeps_free_memory_view].
  - destruct Ha as [y Hy]. apply mem_ok_kept; [done|apply keeps_free_mapped_views|]. unfold free_mapped_views. rewrite wp_bind. eapply wp_list_views; [done|].
    eapply wp_mono; [eapply free_views_loop_ok; [done|done|lia]|]. by intros [] s' w' [? _].
  - rewrite wp_modify. apply mem_ok_processes; [done|]. apply views_new_process; [apply H|done|done].
  - destruct Ha as [y Hy]. rewrite wp_bind. eapply wp_fetch; [done|]. rewrite wp_modify. apply mem_ok_processes; [done|]. eapply views_same_process; [apply H|done|done].
  - destruct Ha as ([y Hy] & ?). apply mem_ok_kept; [done| |by eapply req_add_committed_ok].
    unfold req_add_mapping_committed_range, find_mapped_view, if_some. keep; [apply keeps_find|apply keeps_add_committed].
  - destruct Ha as ([y Hy] & ?). eapply mem_ok_same; [done|by eapply req_get_committed_ok].
  - destruct Ha as [y Hy]. eapply mem_ok_same; [done|by eapply req_view_info_ok].
  - destruct Ha as [y Hy]. eapply wp_mono; [by eapply req_is_same_mapping_ok|]. by intros [] s' w' ->.
Qed.

(** ** Theorems *)

Definition no_memory : mem := Mem ∅ ∅ ∅ [] ∅ ∅ ∅ ∅ (AddrRange [] 0) (AddrRange [] 0) 1.
(** [init_memory] has run, and had the memory it needs. *)
Definition initial : mem := match init_memory no_memory (World 0 []) with Some (_, s, _) => s | None => no_memory end.
Inductive reachable : mem → Prop :=
  | reachable_initial : reachable initial
  | reachable_request s w r u s' w' : reachable s → allowed s w r → run_request host_page_mask native_machine r s w = Some (u, s', w') → reachable s'.

Lemma initial_memory : mem_ok initial.
Proof.
  assert (Harea : ∀ f lo hi, ¬ area (fds initial) f lo hi) by (intros f lo hi (x & Hx & _); discriminate Hx). split; [|intros m x Hx; discriminate Hx]. split.
  - split; cbn; try (by intros); try (intros ?; unfold inner_fd, inner_ranges, inner_shared; cbn; by rewrite ?cnt_empty).
    + split; [constructor|]. intros h. by split; [intros ?%not_elem_of_nil|intros []].
    + intros k Hk. exfalso. destruct Hk as [[? E]|[[? E]|[[? E]|[[? E]|[? E]]]]]; discriminate E.
  - intros c x Hx. discriminate Hx.
  - split; [|by intros f lo hi ?%Harea|by intros f g lo hi lo' hi' _ ?%Harea].
    assert (E32 : ranges32 initial = AddrRange [Block 0x60000000 0x1c000000] 256) by done. assert (E64 : ranges64 initial = AddrRange [Block 0x600000000000 0x100000000000] 256) by done.
    assert (Hone : ∀ b, 0 ≤ b_size b → blocks_ok [b]) by (intros b Hb; apply blocks_ok_cons; split_and!; [done|constructor|split; constructor]).
    intros high. rewrite E32, E64. destruct high; (split; [by apply Hone|]; split; [|cbn; lia]); intros b [->|?%not_elem_of_nil]%elem_of_cons; unfold b_end; cbn; (done || lia).
  - intros m x Hx. discriminate Hx.
  - split; cbn; try (by intros).
    intros v. by split; [intros []|intros (p & x & ? & _)].
Qed.

Lemma reachable_memory s : reachable s → mem_ok s.
Proof.
  induction 1 as [|s w r u s' w' _ IH Hall Hrun]; [apply initial_memory|]. pose proof (memory_request_ok r s w IH Hall) as H. unfold wp in H. by rewrite Hrun in H.
Qed.

(** C12: whatever requests clients send, except the creation of a permanent mapping that
    fails, no request crashes: the counts of fd objects, of lists of committed ranges and of
    shared maps are those of the references that exist, every view has one process, the views
    of a process do not overlap, every mapping has a file, lists of committed and of free
    ranges are sorted and fit their arrays, and the addresses assigned to images overlap
    neither each other nor the free ones. *)
Theorem memory_requests_safe s r w : reachable s → allowed s w r → mem_ok s ∧ ∃ s' w', run_request host_page_mask native_machine r s w = Some (tt, s', w') ∧ mem_ok s'.
Proof.
  intros Hr Hall. pose proof (reachable_memory _ Hr) as H. split; [done|].
  destruct (wp_elim _ _ _ _ (memory_request_ok r s w H Hall)) as ([] & s' & w' & E & H'). eauto.
Qed.
End Requests_safe.

(** C13: when no allocation fails, pages that are committed through one view are committed for
    every view of the same mapping, in every process, and nothing else changes: what the server
    then answers about a page of any of them is whether the offset in the mapping was committed
    before or lies in the new range; the size it gives is that of all pages that follow and are
    alike, up to the end of the view. *)
Theorem commit_seen_by_all_views s e p y v x c offset size : mem_inv [] [] [] s → processes s !! p = Some y → v ∈ p_views y → views s !! v = Some x → v_committed x = Some c →
  0 ≤ offset → good_range x offset (u64 (offset + size)) →
  ∃ s' w', req_add_mapping_committed_range p (v_base x) offset size s (World e []) = Some (tt, s', w') ∧ w_error w' = e ∧
    ∀ q z u x' o w1, processes s !! q = Some z → u ∈ p_views z → views s !! u = Some x' → v_committed x' = Some c → 0 ≤ o < v_size x' → has o page_mask = false →
    ∃ b n, req_get_mapping_committed_range q (v_base x') o s' w1 = Some (Some (b, Some n), s', w1) ∧ 0 < n ≤ v_size x' - o ∧
      (∀ t, o ≤ t < o + n → b = true ↔ committed_at s c (v_start x' + t) ∨ v_start x + offset ≤ v_start x' + t < v_start x + u64 (offset + size)) ∧
      (n = v_size x' - o ∨ ¬ (b = true ↔ committed_at s c (v_start x' + (o + n)) ∨ v_start x + offset ≤ v_start x' + (o + n) < v_start x + u64 (offset + size))).
Proof.
  intros H Hy Hv Hx Hco Ho Hg.
  assert (Hadd : wp (req_add_mapping_committed_range p (v_base x) offset size) s (World e []) (λ _ s' w', mem_inv [] [] [] s' ∧ w_error w' = e ∧ views s' = views s ∧ processes s' = processes s ∧
    ∀ a, committed_at s' c a ↔ committed_at s c a ∨ v_start x + offset ≤ a < v_start x + u64 (offset + size))).
  { unfold req_add_mapping_committed_range. rewrite wp_bind. eapply find_at_base; [done..|]. eapply wp_mono; [by eapply add_committed_range_ok|].
    intros [] s' w' (H' & _ & _ & Hok). destruct (Hok Hg) as [Ee Hc]. rewrite Hco in Hc. destruct Hc as (Ev & Ep & _ & [Hc|[_ Hc]]); [|done]. done. }
  destruct (wp_elim _ _ _ _ Hadd) as ([] & s' & w' & E & H' & Ee & Ev & Ep & Hc). exists s', w'. split; [done|]. split; [done|]. intros q z u x' o w1 Hz Hu Hx' Hco' Ho' Hm.
  assert (Hget : wp (req_get_mapping_committed_range q (v_base x') o) s' w1 (λ r s1 w2, s1 = s' ∧ w2 = w1 ∧ ∃ b n, r = Some (b, Some n) ∧ 0 < n ≤ v_size x' - o ∧
      (∀ a, v_start x' + o ≤ a < v_start x' + o + n → committed_at s' c a ↔ b = true) ∧ (n = v_size x' - o ∨ ¬ (committed_at s' c (v_start x' + o + n) ↔ b = true)))).
  { unfold req_get_mapping_committed_range. rewrite wp_bind. eapply find_at_base; [done|by rewrite Ep|done|by rewrite Ev|]. rewrite wp_bind.
    eapply wp_mono; [eapply (find_committed_range_ok [] [] [] u x'); [done|by rewrite Ev|lia]|]. intros [b n] s1 w2 [-> Hr]. rewrite Hm in Hr. cbn [orb] in Hr. destruct (Z.leb_spec (v_size x') o); [lia|].
    rewrite Hco' in Hr. destruct Hr as (-> & k & Ek & Hk & Hin & Hmax). cbn in *. subst n. apply wp_ret. split; [done|]. split; [done|]. exists b, k. done. }
  destruct (wp_elim _ _ _ _ Hget) as (r & s1 & w2 & E1 & -> & -> & b & n & -> & Hn & Hin & Hmax). exists b, n. split; [done|]. split; [done|]. split.
  - intros t Ht. rewrite <-Hc. symmetry. apply Hin. lia.
  - destruct Hmax as [?|Hmax]; [by left|right]. intros E2. apply Hmax. rewrite <-Z.add_assoc, Hc. tauto.
Qed.

(** The size of the addresses for an image, with a margin. *)
Definition image_area (x : mapping) : Z := round_size (m_size x) granularity_mask + 65536.
Definition with_address (a : Z) (x : mapping) : mapping :=
  Mapping (m_size x) (m_flags x) (m_fd x) (PeImage (im_base (m_image x)) a (im_entry_point (m_image x)) (im_map_size (m_image x)) (im_charact (m_image x)) (im_machine (m_image x)) (im_flags (m_image x))) (m_committed x) (m_shared x).

Lemma image_area_fits x : 0 ≤ m_size x < 4294967296 → 0 < image_area x ∧ u64 (round_size (m_size x) granularity_mask + (granularity_mask + 1)) = image_area x.
Proof. intros Hs. pose proof (round_size_bounds _ Hs). unfold image_area. change (granularity_mask + 1) with 65536. split; [lia|]. apply u64_id. lia. Qed.

(** The first request for the address of a DLL. *)
Lemma first_image_address s w m x f y : mappings s !! m = Some x → m_fd x = Some f → fds s !! f = Some y → map_addr y = 0 → im_map_addr (m_image x) = 0 → 0 ≤ m_size x < 4294967296 →
  has (m_flags x) SEC_IMAGE = true → has (im_flags (m_image x)) IMAGE_FLAGS_ImageDynamicallyRelocated = true → has (im_charact (m_image x)) IMAGE_FILE_DLL = true →
  let high := is_high (im_base (m_image x)) in
  wp (req_get_image_map_address m) s w (λ r s1 w1, w1 = w ∧ match take_block (image_area x) (ar_free (ranges_of high s)) with
    | None => r = Some 0 ∧ s1 = on_mappings (<[m := with_address 0 x]>) s
    | Some (a, l) => r = Some a ∧ s1 = on_mappings (<[m := with_address a x]>) (on_fds (<[f := FdObj (fd_refs y) (fd_outside y) a (image_area x) (fd_inode y) (fd_removable y) (nt_name y)]>) (set_ranges high (AddrRange l (ar_size (ranges_of high s))) s))
    end).
Proof.
  intros Hx Hf Hy Ha0 Em Hsize Hfl Hd Hdll high. destruct (image_area_fits x Hsize) as [_ En].
  unfold req_get_image_map_address. rewrite wp_bind. eapply wp_fetch; [done|]. rewrite Hfl, Hd, Em. cbn [andb Z.eqb]. rewrite wp_bind, wp_bind. unfold assign_map_address. rewrite wp_bind. eapply wp_fetch; [done|].
  rewrite Hdll, Hf. cbn [negb]. rewrite wp_bind. eapply wp_fetch; [done|]. rewrite Ha0. cbn [negb Z.eqb]. rewrite wp_bind, wp_get, En. fold high. destruct (take_block _ _) as [[a l]|].
  - rewrite wp_bind, wp_modify, wp_bind, wp_modify. apply wp_ret. eapply wp_set_mapping_image; [exact Hx|]. rewrite wp_bind. eapply wp_fetch; [apply lookup_insert_eq|]. by apply wp_ret.
  - apply wp_ret. eapply wp_set_mapping_image; [exact Hx|]. rewrite wp_bind. eapply wp_fetch; [apply lookup_insert_eq|]. by apply wp_ret.
Qed.

(** A mapping with nothing but its file, which goes with it. *)
Lemma destroy_with_file s m x f y w (Q : unit → mem → world → Prop) : mappings s !! m = Some x → m_fd x = Some f → m_committed x = None → m_shared x = None → fds s !! f = Some y → fd_refs y = 1 →
  wp (if map_addr y =? 0 then ret tt else free_map_addr (map_addr y) (map_size y)) s w (λ _ s1 w1, Q tt (on_mappings (delete m) (on_fds (delete f) s1)) w1) → wp (mapping_destroy m) s w Q.
Proof.
  intros Hx Hf Hco Hsh Hy Hr HQ. unfold mapping_destroy. rewrite wp_bind. eapply wp_fetch; [done|]. rewrite Hf, Hco, Hsh. cbn [if_some]. rewrite wp_bind. unfold release_fd. rewrite wp_bind. eapply wp_fetch; [done|].
  rewrite Hr. cbn [Z.eqb Pos.eqb]. rewrite wp_bind. eapply wp_mono; [exact HQ|]. intros [] s1 w1 H1. by rewrite wp_modify, wp_bind, wp_ret, wp_bind, wp_ret, wp_modify.
Qed.

(** C14: the server gives a DLL that can be relocated addresses that were free, and no others
    cease to be free; when its mapping goes, with the last reference to its file, the free
    addresses are exactly those from before. It gives none, and changes no addresses, only if
    no free block is large enough. *)
Theorem image_addresses_returned s e m x f y : mem_ok s → mappings s !! m = Some x → m_fd x = Some f → m_committed x = None → m_shared x = None → fds s !! f = Some y →
  fd_refs y = 1 → map_addr y = 0 → has (m_flags x) SEC_IMAGE = true → has (im_flags (m_image x)) IMAGE_FLAGS_ImageDynamicallyRelocated = true → has (im_charact (m_image x)) IMAGE_FILE_DLL = true →
  let high := is_high (im_base (m_image x)) in
  ∃ a s1 s2 w2, req_get_image_map_address m s (World e []) = Some (Some a, s1, World e []) ∧
    (if a =? 0 then ∀ b, b ∈ ar_free (ranges_of high s) → b_size b < image_area x
     else ∀ z, (a ≤ z < a + image_area x → free_at (ar_free (ranges_of high s)) z) ∧ (free_at (ar_free (ranges_of high s1)) z ↔ free_at (ar_free (ranges_of high s)) z ∧ ¬ a ≤ z < a + image_area x)) ∧
    mapping_destroy m s1 (World e []) = Some (tt, s2, w2) ∧ fds s2 !! f = None ∧ ∀ h z, free_at (ar_free (ranges_of h s2)) z ↔ free_at (ar_free (ranges_of h s)) z.
Proof.
  intros [H _] Hx Hf Hco Hsh Hy Hr Ha0 Hfl Hd Hdll high. destruct (mi_images _ _ _ _ H m x Hx) as [Him Hsize]. specialize (Hsize Hd). destruct (image_area_fits x Hsize) as [Hn _].
  assert (Em : im_map_addr (m_image x) = 0) by (destruct Him as [?|(g & z & ? & ? & ?)]; [done|congruence]).
  destruct (ai_ok _ _ _ (mi_areas _ _ _ _ H) high) as (O1 & O2 & O3). change (if high then ranges64 s else ranges32 s) with (ranges_of high s) in *.
  pose proof (take_block_spec (image_area x) _ O1 Hn) as Ht. pose proof (length_take_block (image_area x) (ar_free (ranges_of high s))) as Hlen.
  destruct (wp_elim _ _ _ _ (first_image_address s (World e []) m x f y Hx Hf Hy Ha0 Em Hsize Hfl Hd Hdll)) as (r & s1 & w1 & E1 & -> & Hcase). fold high in Hcase.
  destruct (take_block (image_area x) (ar_free (ranges_of high s))) as [[a l]|]; destruct Hcase as [-> Es1].
  - destruct (taken_bounds _ _ _ high l a (image_area x) (mi_areas _ _ _ _ H) Hn Ht) as (Hb1 & Hb2 & Hb3). assert (Er : ranges_of high s1 = AddrRange l (ar_size (ranges_of high s))) by (rewrite Es1; by destruct high).
    assert (Hother : ∀ h r, h ≠ high → ranges_of h (on_mappings (delete m) (on_fds (delete f) (set_ranges high r s1))) = ranges_of h s) by (rewrite Es1; intros h r; by destruct h, high).
    assert (Hdes : wp (mapping_destroy m) s1 (World e []) (λ _ s2 _, fds s2 !! f = None ∧ ∀ h z, free_at (ar_free (ranges_of h s2)) z ↔ free_at (ar_free (ranges_of h s)) z)).
    { eapply (destroy_with_file s1 m (with_address a x) f _); [rewrite Es1; apply lookup_insert_eq|done|done|done|rewrite Es1; apply lookup_insert_eq|done|]. cbn [map_addr map_size].
      destruct (Z.eqb_spec a 0); [lia|]. assert (Er' : ranges_of (is_high a) s1 = AddrRange l (ar_size (ranges_of high s))) by (by rewrite Hb3). pose proof (tk_ok _ _ _ _ Ht). pose proof (tk_clear _ _ _ _ Ht).
      apply wp_free_map_addr; rewrite ?Er'; cbn [ar_free ar_size]; [done|lia|lia|lia|lia|done|].
      intros q w' [Hg|[_ Hg]] _; [|done]. split; [cbn; apply lookup_delete_eq|]. intros h z. rewrite Hb3. destruct (decide (h = high)) as [->|Hne]; [|by rewrite Hother].
      assert (Eh : ranges_of high (on_mappings (delete m) (on_fds (delete f) (set_ranges high q s1))) = q) by (by destruct high). rewrite Eh, (gv_free _ _ _ _ Hg), (tk_free _ _ _ _ Ht).
      pose proof (tk_was _ _ _ _ Ht z). destruct (decide (a ≤ z < a + image_area x)); tauto. }
    destruct (wp_elim _ _ _ _ Hdes) as ([] & s2 & w2 & E2 & ? & ?). exists a, s1, s2, w2. split; [done|]. split; [|done]. destruct (Z.eqb_spec a 0); [lia|]. intros z. rewrite Er. split; apply Ht.
  - assert (Hdes : wp (mapping_destroy m) s1 (World e []) (λ _ s2 _, fds s2 !! f = None ∧ ∀ h z, free_at (ar_free (ranges_of h s2)) z ↔ free_at (ar_free (ranges_of h s)) z)).
    { eapply (destroy_with_file s1 m (with_address 0 x) f y); [rewrite Es1; apply lookup_insert_eq|done|done|done|by rewrite Es1|done|]. rewrite Ha0. apply wp_ret. rewrite Es1. split; [cbn; apply lookup_delete_eq|by intros []]. }
    destruct (wp_elim _ _ _ _ Hdes) as ([] & s2 & w2 & E2 & ? & ?). by exists 0, s1, s2, w2.
Qed.

(** ** Examples *)

Fixpoint run_list (l : list request) (s : mem) : option mem :=
  match l with
  | [] => Some s
  | r :: l => match run_request page_mask IMAGE_FILE_MACHINE_AMD64 r s (World 0 []) with Some (_, s', _) => run_list l s' | None => None end
  end.
Fixpoint allowed_list (l : list request) (s : mem) : Prop :=
  match l with
  | [] => True
  | r :: l => allowed s (World 0 []) r ∧ match run_request page_mask IMAGE_FILE_MACHINE_AMD64 r s (World 0 []) with Some (_, s', _) => allowed_list l s' | None => False end
  end.

Lemma run_list_reachable l : ∀ s s', reachable page_mask IMAGE_FILE_MACHINE_AMD64 s → allowed_list l s → run_list l s = Some s' → reachable page_mask IMAGE_FILE_MACHINE_AMD64 s'.
Proof.
  induction l as [|r l IH]; cbn [run_list allowed_list]; intros s s' Hs Hl; [by intros [= <-]|]. destruct Hl as [Ha Hl]. destruct (run_request _ _ r s _) as [[[u s1] w1]|] eqn:E; [|done].
  apply IH; [|done]. by eapply reachable_request.
Qed.

(** Two processes with views of a section of eight pages, of which the second sees the last
    four. *)
Definition two_views : list request :=
  [NewProcess 1 IMAGE_FILE_MACHINE_AMD64; NewProcess 2 IMAGE_FILE_MACHINE_AMD64; CreateMapping 0x8000 SEC_RESERVE false true false (Answers (NewFd 7 false []) None false (inl 0) true);
   MapView 1 (Some 1) 0x10000 0x8000 0; MapView 2 (Some 1) 0x20000 0x4000 0x4000].
(** A DLL that can be relocated. *)
Definition one_dll : list request :=
  [CreateMapping 0 SEC_IMAGE true false false (Answers (NewFd 8 false []) (Some 0x20000) false (inr (PeImage 0x10000000 0 0x1000 0x30000 IMAGE_FILE_DLL 0x14c IMAGE_FLAGS_ImageDynamicallyRelocated, 0x30000, false)) true)].
Definition after (l : list request) : mem := default initial (run_list l initial).

Ltac next_request := split; [cbn [allowed]|match goal with |- match ?r with Some _ => _ | None => _ end => let x := eval vm_compute in r in change r with x end; cbv iota beta].

Lemma two_views_reachable : reachable page_mask IMAGE_FILE_MACHINE_AMD64 (after two_views).
Proof.
  apply (run_list_reachable two_views initial); [constructor| |vm_compute; reflexivity]. unfold two_views. cbn [allowed_list].
  do 2 (next_request; [done|]). next_request; [split; [by split|done]|]. do 2 (next_request; [split_and!; [by eexists|by intros ? [= <-]; eexists|done..]|]). done.
Qed.

Lemma one_dll_reachable : reachable page_mask IMAGE_FILE_MACHINE_AMD64 (after one_dll).
Proof.
  apply (run_list_reachable one_dll initial); [constructor| |vm_compute; reflexivity]. unfold one_dll. cbn [allowed_list]. next_request; [|done].
  split; [|done]. split; [done|]. cbn. by intros im size total [= <- <- <-].
Qed.

Lemma memory_requests_safe_witness : ∃ s', run_request page_mask IMAGE_FILE_MACHINE_AMD64 (UnmapView 1 0x10000) (after two_views) (World 0 []) = Some (tt, s', World 0 []) ∧ views s' !! 4 = None ∧ mem_ok s'.
Proof.
  destruct (memory_requests_safe page_mask IMAGE_FILE_MACHINE_AMD64 (after two_views) (UnmapView 1 0x10000) (World 0 []) two_views_reachable) as (_ & s' & w' & E & H); [by eexists|].
  exists s'. assert (E' := E). vm_compute in E'. injection E' as E1 E2. split; [rewrite E; by rewrite <-E2|]. split; [by rewrite <-E1|done].
Defined.

Lemma commit_seen_by_all_views_witness : ∃ s' w' n, req_add_mapping_committed_range 1 0x10000 0x3000 0x3000 (after two_views) (World 0 []) = Some (tt, s', w') ∧
  req_get_mapping_committed_range 2 0x20000 0x1000 s' (World 0 []) = Some (Some (true, Some n), s', World 0 []) ∧ 0 < n.
Proof.
  pose (x := View (Some 3) (Some 2) None no_image (SEC_RESERVE) 0x10000 0x8000 0 []). pose (x2 := View (Some 3) (Some 2) None no_image (SEC_RESERVE) 0x20000 0x4000 0x4000 []).
  destruct (commit_seen_by_all_views (after two_views) 0 1 (Process [4] false None None IMAGE_FILE_MACHINE_AMD64) 4 x 2 0x3000 0x3000) as (s' & w' & E & _ & H).
  - apply (reachable_memory _ _ _ two_views_reachable).
  - vm_compute. reflexivity.
  - left.
  - vm_compute. reflexivity.
  - reflexivity.
  - done.
  - by repeat split.
  - destruct (H 2 (Process [5] false None None IMAGE_FILE_MACHINE_AMD64) 5 x2 0x1000 (World 0 [])) as (b & n & E2 & Hn & Hb & _).
    + vm_compute. reflexivity.
    + left.
    + vm_compute. reflexivity.
    + reflexivity.
    + done.
    + reflexivity.
    + exists s', w', n. split; [exact E|]. assert (b = true) as ->; [|split; [exact E2|apply Hn]]. apply (Hb 0x1000); [split; [done|lia]|]. right. done.
Defined.

Lemma image_addresses_returned_witness : ∃ s1 s2 w2, req_get_image_map_address 1 (after one_dll) (World 0 []) = Some (Some 0x7bfc0000, s1, World 0 []) ∧
  mapping_destroy 1 s1 (World 0 []) = Some (tt, s2, w2) ∧ fds s2 !! 2 = None ∧ ∀ h z, free_at (ar_free (ranges_of h s2)) z ↔ free_at (ar_free (ranges_of h (after one_dll))) z.
Proof.
  pose (x := default (Mapping 0 0 None no_image None None) (mappings (after one_dll) !! 1)). pose (y := default (FdObj 0 0 0 0 0 false []) (fds (after one_dll) !! 2)).
  destruct (image_addresses_returned (after one_dll) 0 1 x 2 y) as (a & s1 & s2 & w2 & E & _ & E2 & H2).
  1: apply (reachable_memory _ _ _ one_dll_reachable).
  1-10: vm_compute; reflexivity.
  exists s1, s2, w2. assert (E' := E). vm_compute in E'. injection E' as Ea _. split; [rewrite E; by rewrite <-Ea|]. exact (conj E2 H2).
Defined.

(** When the array of ranges is full and cannot grow, the pages are not noted, but the client
    gets no error. *)
Definition nine_ranges : list request :=
  [NewProcess 1 IMAGE_FILE_MACHINE_AMD64; CreateMapping 0x20000 SEC_RESERVE false true false (Answers (NewFd 7 false []) None false (inl 0) true); MapView 1 (Some 1) 0x100000 0x20000 0] ++
  map (λ i, AddCommitted 1 0x100000 (0x2000 * i) 0x1000) [0; 1; 2; 3; 4; 5; 6; 7].

Lemma realloc_failure_ignored : let s := after nine_ranges in
  req_add_mapping_committed_range 1 0x100000 0x10000 0x1000 s (World 0 [false]) = Some (tt, s, World 0 []) ∧
  req_get_mapping_committed_range 1 0x100000 0x10000 s (World 0 []) = Some (Some (false, Some 0x10000), s, World 0 []).
Proof. vm_compute. done. Qed.

(** A permanent mapping whose creation fails, here for an invalid handle of a file, stays under
    its name, without a file: a client that opens it and maps a view makes the server follow a
    NULL pointer. *)
Definition unfinished : list request :=
  [NewProcess 1 IMAGE_FILE_MACHINE_AMD64; CreateMapping 0x1000 SEC_COMMIT true true true (Answers (NoFd STATUS_INVALID_HANDLE) None false (inl 0) true)].

Lemma unfinished_mapping_crashes : let s := after unfinished in
  (m_fd <$> mappings s !! 1) = Some None ∧ run_request page_mask IMAGE_FILE_MACHINE_AMD64 (MapView 1 (Some 1) 0x10000 0x1000 0) s (World 0 []) = None.
Proof. split; vm_compute; done. Qed.
